(* ===== verification/_CoqProject ===== *)
-Q . S2P
Prelude.v
LinearCode.v
BlockCodes.v
Bptc.v
Rs129.v
BitPacking.v
Crc.v
LateEntry.v
Lfsr.v
Rc4.v
BlockCipher.v
Aes.v
AesModes.v
AesSpec.v
Des.v
DesModes.v
DesSpec.v
Convolution.v
ConvSimd.v
TetraFec.v
TetraChannels.v
TetraRm.v
TetraSpeech.v
NxdnFec.v
NxdnClean.v
NxdnViterbi.v
NxdnChecks.v
R34Viterbi.v
R34List.v
DmrChecks.v
DmrBurst.v
TuneGate.v
CcCandidates.v
TetraConfirm.v
TetraSm.v
P25Patch.v
Records.v
SlashText.v
WordSet.v
AnalogTones.v
ToneSets.v
Receive.v
DmrTrunkSm.v
DmrTrunkLaws.v
DmrTrunkCalls.v
DmrTrunkHunt.v
