(* ===== verification/Prelude.v ===== *)
(** * dsd-neo: a verification library

    dsd-neo decodes digital voice radio (P25, DMR, NXDN, TETRA, D-STAR, YSF,
    M17, EDACS and analog FM) and follows calls on trunked systems.  Samples
    are demodulated to dibits ([src/src/dsp]), each protocol turns dibits into
    bursts, corrects and checks them ([src/src/fec], [src/src/protocol],
    [src/src/crypto]), and what the bursts say drives a trunking state machine
    that asks the tuning layer ([src/src/runtime]) to move the receiver.  This
    library models the parts between the soft bits and the tuner where a
    wrong answer is silent: the codes, the checks, the tuning requests, the
    trunking machines and the policies that decide what is heard.

    ** Files and the code they model

    - [Prelude]: bounded loops ([for_]), machine integers ([u8] .. [u64]),
      bit lists, array updates, checks by exhaustion; [Records]: record update
      for the large states; [LinearCode]: linear codes, syndromes and
      decoding radius; [SlashText], [WordSet]: decimal texts, lists separated
      by a slash, sets kept in 64-bit words.
    - Error correction: [BlockCodes] ([fec/fec.c], all tables and decoders),
      [Bptc] ([fec/bptc.c], the product decoders with their passes), [Rs129]
      ([fec/rs-12-9.c]), [LateEntry] ([fec/dmr_late_entry.c]), [R34Viterbi]
      and [R34List] ([protocol/dmr/dmr_34_viterbi.c], [fec/trellis34.c]).
    - Checks and keys: [BitPacking] ([core/util/bit_packing.c]), [Crc]
      ([p25_crc.c], [nxdn_crc.c]), [Lfsr] ([dmr_mi.c], [nxdn_keystream.c],
      [p25_lfsr.c], [nxdn_lfsr.c]), [Rc4] ([crypt-rc4.c]).
    - Block ciphers: [BlockCipher] (the interface, with the modes and the
      Feistel construction over any cipher); [Aes] and [AesModes]
      ([crypto/crypt-aes.c]); [Des] and [DesModes] ([crypto/crypt-des.c]);
      [AesSpec] and [DesSpec] are the two standards, FIPS 197 and FIPS 46,
      written independently of the code.
    - TETRA channel coding ([protocol/tetra/tetra_fec.c] and the block decoders
      of [tetra.c]): [Convolution] (the codes, the encoder, the Viterbi search
      and its theory: optimality, and which errors a code bears, computed along
      the trellis), [ConvSimd] (the SSE2 kernel), [TetraFec] (puncturing,
      interleaving, scrambling, the blocks, speech; definitions),
      [TetraChannels] (what the signalling blocks recover), [TetraSpeech] (what
      the speech decoders recover), [TetraRm] (the Reed-Muller code and the
      access assignment).
    - NXDN channel coding: [NxdnFec] ([protocol/nxdn/nxdn_convolution.c],
      [nxdn_deperm.c] up to the handlers, [nxdn_dcr_utils.c], [trellis_decode]
      of [core/util/dsd_misc.c]; definitions), [NxdnClean] (clean frames),
      [NxdnViterbi] (the decoder M17 shares), [NxdnChecks] (the checks).
    - DMR bursts: [DmrChecks] ([dmr_utils.c]) and [DmrBurst] ([dmr_dburst.c]
      from the information bits to the block handlers, with the confirmed
      block sequence); they call the decoders above.
    - Tuning: [TuneGate] ([runtime/trunk_tuning_hooks.c]): the pool of tuning
      requests, the generation and the gate every received frame passes;
      its Module [Conc] has the unlocked loads as separate steps.
      [CcCandidates] ([runtime/trunk_cc_candidates.c]): the list of control
      channel candidates.
    - Trunking: [TetraConfirm] and [TetraSm] ([protocol/tetra/tetra_confirm.c],
      [tetra_trunk_sm.c]); [DmrTrunkSm] ([protocol/dmr/dmr_trunk_sm.c], the
      definitions), [DmrTrunkLaws] (its invariant and the return destination),
      [DmrTrunkCalls] (how a call is held and left), [DmrTrunkHunt] (the
      search for a control channel and the settling of tunes); [P25Patch]
      ([protocol/p25/p25_patch.c]).
    - Policies: [AnalogTones] and [ToneSets] ([runtime/analog_tones.c]),
      [Receive] ([runtime/receive_policy.c], [core/util/receive.c],
      [core/util/access_code.c]).

    The trunking machines are clients of [TuneGate] and [CcCandidates]: an
    entry point is a function of a [world] that holds the context of the
    machine, the parts of [dsd_state] and [dsd_opts] it uses, the request
    pool and the candidate list, and a log of the calls into parts that are
    not modelled (call records, event log).  What such a part, a clock or the
    configuration answers is a [readings] record given to each entry; the
    tuner is a record of hooks.

    ** What the theorems show

    - Codes: what is sent and hit by the errors the code is made for is
      decoded to what was sent ([Golay_24_12_corrects],
      [BPTC_196x96_corrects], [rs_12_9_corrects_single],
      [late_entry_decode_corrects], [full_link_control_repair],
      [control_burst_delivered]); the soft and list decoders of the rate 3/4
      trellis are optimal against the set of all payloads; CRCs reject every
      burst of their width.
    - TETRA: the soft Viterbi decoder returns the message nearest to the costs;
      the SSE2 kernel agrees with the scalar one bit for bit; signalling blocks
      survive bursts of ten to fourteen bits, speech frames and full-slot
      signalling any one wrong bit; the access assignment is decoded exactly
      within three bits of a codeword.
    - NXDN: on every channel, the two blocks of a FACCH3 or UDCH2 included, a
      clean frame is accepted, and delivered as sent unless the soft decoder's
      guess passed the check first; while no metric can wrap, the Viterbi
      decoders return cheapest paths by their own metric, the metrics of the
      last frame included; the checks detect bursts of their length.  Two
      lemmas record where this falls short: the soft metric charges unsent
      bits, so clean frames can be misread past their check
      ([soft_decoder_misreads_clean_frames]), and metrics that are never
      cleared wrap in time ([wrapped_metrics_misread]).
    - Ciphers: AES and DES are the standards' functions; counter mode counts
      through 128 bits and undoes itself; triple DES with one key is single
      DES.
    - DMR data: no control burst is accepted against its checks in either
      mode; in the strict mode the checked confirmed blocks are consecutive and
      one out of sequence clears what was collected.
    - Tuning: an invariant of every sequence of calls, when the generation
      moves, what a request and a synchronous tune do, and that the four
      unlocked loads of the frame gate, with locked writers between them,
      answer as one atomic question does in a state of the atomic machine.
    - Trunking: an invariant of every interleaving of entry points with the
      rest of the program; a failed tune restores what it staged over, before
      its request is completed; exactly which grants are followed; off a
      call a tick keeps the frequency calls return to; only accepted recent
      voice holds a call, and the tick that leaves a call nothing new is heard
      on is known exactly; successive hunts come round every listed frequency;
      after a tick no tune is waited for past its deadline; settled means
      resolved.
    - The patch table refines a finite map of super groups.
    - Texts and policies: lists of receive identifiers and of tones survive
      being written and read, displays stay in their buffer, searches end
      with the right answer, a DCS signal has exactly two spellings and sets
      are compared by signal.

    ** Bounds and fuel

    Loops of the code with a literal bound are [for_] with that bound or
    structural recursion on it.  Fuel appears where the code's loop has a
    measure: a binary search (the table's length), parsers (the text's
    length), the mapped candidate walk (the length of the list, as in the
    code); each is proved sufficient by the theorem about the loop.  Integers
    are [Z] with the wrap of the C type written where the code can reach it.
    Seconds in [double] are exact nanoseconds; one clock reading per call.

    ** Not modelled

    Signal processing (floating point), drivers, sockets, threads, audio and
    the user interfaces (input and output); third-party code.  Narration,
    NULL arguments and failed allocations are left out of modelled functions.
    The P25 machine, NXDN above its channels, the message bodies of every
    protocol, the vendor
    ciphers, the scanning engine and the call records are not modelled, nor is
    the NEON build of the Viterbi kernel; the manifest lists each part with its
    reason. *)
From Stdlib Require Export ZArith Lia Bool.
From stdpp Require Export base tactics numbers decidable list.

Declare Scope dsd_scope.
Delimit Scope dsd_scope with dsd.
#[global] Open Scope Z_scope.
#[global] Set Default Goal Selector "!".
Create HintDb dsd.

(** Linear arithmetic with quotients and remainders by constants. *)
Ltac divmod := Z.to_euclidean_division_equations; lia.

(** ** C arrays

    A C array of integers is a [list Z].  A read outside the array is undefined
    behaviour in C and gives 0 here; a write outside does nothing.  The theorems
    about a component prove its indexes in range where it matters. *)

Notation "l .[ i ]" := (nth i l 0) (at level 1, left associativity, format "l .[ i ]") : dsd_scope.
Notation "l .[ i <- v ]" := (<[i := v]> l) (at level 1, left associativity, format "l .[ i  <-  v ]") : dsd_scope.
#[global] Open Scope dsd_scope.

(** [for (i = lo; i < hi; i++) s = f(i, s)]. *)
Definition for_ {S : Type} (lo hi : nat) (f : nat -> S -> S) (s : S) : S :=
  fold_left (fun s i => f i s) (seq lo (hi - lo)) s.

Section ForLoop.
Context {S : Type}.
Implicit Types (f : nat -> S -> S) (s : S) (P : nat -> S -> Prop).

Lemma for_nil lo hi f s : (hi <= lo)%nat -> for_ lo hi f s = s.
Proof. intros H. unfold for_. by replace (hi - lo)%nat with O by lia. Qed.

Lemma for_S lo hi f s : (lo <= hi)%nat -> for_ lo (Datatypes.S hi) f s = f hi (for_ lo hi f s).
Proof.
  intros H. unfold for_. replace (Datatypes.S hi - lo)%nat with (Datatypes.S (hi - lo)) by lia.
  rewrite seq_S, fold_left_app. cbn. f_equal. lia.
Qed.

(** Loop invariant rule. *)
Lemma for_ind P lo hi f s :
  (lo <= hi)%nat -> P lo s ->
  (forall i s, (lo <= i < hi)%nat -> P i s -> P (Datatypes.S i) (f i s)) ->
  P hi (for_ lo hi f s).
Proof.
  intros Hle H0 Hstep. induction Hle as [|hi Hle IH].
  - by rewrite for_nil.
  - rewrite for_S by done. apply Hstep; [lia|]. apply IH. intros. apply Hstep; [lia|done].
Qed.

(** An invariant that does not mention the counter. *)
Lemma for_inv (P : S -> Prop) lo hi f s :
  P s -> (forall i s, (lo <= i < hi)%nat -> P s -> P (f i s)) -> P (for_ lo hi f s).
Proof.
  intros H0 Hstep. destruct (decide (lo <= hi)%nat) as [Hle|Hgt].
  - by apply (for_ind (fun _ => P)).
  - rewrite for_nil; [done|lia].
Qed.

Lemma for_ext lo hi f g s :
  (forall i s, (lo <= i < hi)%nat -> f i s = g i s) -> for_ lo hi f s = for_ lo hi g s.
Proof.
  intros H. destruct (decide (lo <= hi)%nat) as [Hle|Hgt].
  - induction Hle as [|hi Hle IH]; [by rewrite !for_nil|].
    rewrite !for_S by done. rewrite IH by (intros; apply H; lia). apply H. lia.
  - rewrite !for_nil by lia. done.
Qed.

Lemma for_shift lo hi k f s : for_ (k + lo) (k + hi) f s = for_ lo hi (fun i => f (k + i)%nat) s.
Proof.
  destruct (decide (lo <= hi)%nat) as [Hle|Hgt]; [|rewrite !for_nil by lia; done].
  induction Hle as [|hi Hle IH]; [by rewrite !for_nil by lia|].
  rewrite Nat.add_succ_r, !for_S by lia. by rewrite IH.
Qed.

Lemma for_app lo mid hi f s : (lo <= mid <= hi)%nat -> for_ lo hi f s = for_ mid hi f (for_ lo mid f s).
Proof.
  intros [H1 H2]. induction H2 as [|hi H2 IH]; [by rewrite (for_nil mid mid)|].
  by rewrite !for_S, IH by lia.
Qed.

(** The first iteration. *)
Lemma for_first n f s : for_ 0 (Datatypes.S n) f s = for_ 0 n (fun i => f (Datatypes.S i)) (f O s).
Proof.
  rewrite (for_app 0 1) by lia. change (for_ 0 1 f s) with (f O s). by apply (for_shift 0 n 1).
Qed.
End ForLoop.

Lemma for_iter {A} (f : A -> A) n (a : A) : for_ 0 n (fun _ => f) a = Nat.iter n f a.
Proof. induction n as [|n IH]; [done|]. by rewrite for_S, IH by lia. Qed.

(** [sum over i < n of f(i)]. *)
Definition sum_upto (n : nat) (f : nat -> Z) : Z := for_ 0 n (fun i a => a + f i) 0.

Lemma sum_upto_S n f : sum_upto (S n) f = sum_upto n f + f n.
Proof. unfold sum_upto. by rewrite for_S by lia. Qed.

Lemma sum_upto_ext n f g : (forall i, (i < n)%nat -> f i = g i) -> sum_upto n f = sum_upto n g.
Proof. intros H. apply for_ext. intros i s Hi. rewrite H by lia. done. Qed.

Lemma sum_upto_add n f g : sum_upto n (fun i => f i + g i) = sum_upto n f + sum_upto n g.
Proof. induction n as [|n IH]; [done|]. rewrite !sum_upto_S, IH. lia. Qed.

Lemma sum_upto_mul_l n c f : sum_upto n (fun i => c * f i) = c * sum_upto n f.
Proof. induction n as [|n IH]; [cbn; lia|]. rewrite !sum_upto_S, IH. lia. Qed.

Lemma sum_upto_0 n : sum_upto n (fun _ => 0) = 0.
Proof. induction n as [|n IH]; [done|]. by rewrite sum_upto_S, IH. Qed.

Lemma sum_upto_swap n m (f : nat -> nat -> Z) :
  sum_upto n (fun i => sum_upto m (f i)) = sum_upto m (fun j => sum_upto n (fun i => f i j)).
Proof.
  induction n as [|n IH]; [by rewrite sum_upto_0|].
  rewrite sum_upto_S, IH, <- sum_upto_add. apply sum_upto_ext. intros j _. by rewrite sum_upto_S.
Qed.

Lemma sum_upto_mod n f m : m <> 0 -> sum_upto n (fun i => f i mod m) mod m = sum_upto n f mod m.
Proof.
  intros Hm. induction n as [|n IH]; [done|]. rewrite !sum_upto_S.
  by rewrite Z.add_mod, IH, Z.mod_mod, <- Z.add_mod by done.
Qed.

Lemma sum_upto_single n k f :
  (k < n)%nat -> (forall i, (i < n)%nat -> i <> k -> f i = 0) -> sum_upto n f = f k.
Proof.
  intros Hk H. induction n as [|n IH]; [lia|]. rewrite sum_upto_S.
  destruct (decide (k = n)) as [->|Hne].
  - rewrite (sum_upto_ext n f (fun _ => 0)); [by rewrite sum_upto_0|]. intros i Hi. apply H; lia.
  - rewrite IH by (try lia; intros; apply H; lia). rewrite (H n) by lia. lia.
Qed.

(** ** Machine integers *)

Definition wrap (w x : Z) : Z := x mod 2 ^ w.
Definition u8 (x : Z) : Z := wrap 8 x.
Definition u16 (x : Z) : Z := wrap 16 x.
Definition u32 (x : Z) : Z := wrap 32 x.
Definition u64 (x : Z) : Z := wrap 64 x.

Lemma u32_small x : 0 <= x < 2 ^ 32 -> u32 x = x.
Proof. intros Hx. by apply Z.mod_small. Qed.

Lemma u16_small x : 0 <= x < 2 ^ 16 -> u16 x = x.
Proof. intros H. by apply Z.mod_small. Qed.

(** ** Bits *)

Definition is_bit (b : Z) : Prop := b = 0 \/ b = 1.
Definition bits (l : list Z) : Prop := Forall is_bit l.

#[export] Instance is_bit_dec b : Decision (is_bit b).
Proof. unfold is_bit. apply _. Defined.

Lemma is_bit_mod2 x : is_bit (x mod 2).
Proof. pose proof (Z.mod_pos_bound x 2). unfold is_bit. lia. Qed.

Lemma is_bit_lxor a b : is_bit a -> is_bit b -> is_bit (Z.lxor a b).
Proof. intros [-> | ->] [-> | ->]; cbn; unfold is_bit; auto. Qed.

Lemma bits_nth l i : bits l -> is_bit (l.[i]).
Proof.
  intros H. destruct (decide (i < length l)%nat) as [Hi|Hi].
  - rewrite nth_lookup. destruct (lookup_lt_is_Some_2 l i Hi) as [x Hx]. rewrite Hx. cbn.
    by eapply Forall_lookup_1 in Hx.
  - rewrite nth_overflow by lia. by left.
Qed.

Lemma bits_insert l i v : bits l -> is_bit v -> bits (l.[i <- v]).
Proof. intros. by apply Forall_insert. Qed.

#[export] Hint Resolve is_bit_mod2 is_bit_lxor bits_nth bits_insert : dsd.

(** Doubling and appending a bit commutes with exclusive or. *)
Lemma lxor_double_bit a b c d :
  is_bit c -> is_bit d -> Z.lxor (2 * a + c) (2 * b + d) = 2 * Z.lxor a b + Z.lxor c d.
Proof.
  intros Hc Hd.
  assert (E : forall x y, is_bit y -> 2 * x + y = Z.lor (Z.shiftl x 1) y).
  { intros x y Hy. rewrite <- Z.add_nocarry_lor.
    - rewrite Z.shiftl_mul_pow2 by lia. lia.
    - apply Z.bits_inj'. intros n Hn. rewrite Z.land_spec, Z.bits_0.
      destruct (decide (n = 0)) as [->|Hn0].
      + by rewrite Z.shiftl_spec_low by lia.
      + destruct Hy as [-> | ->]; [by rewrite Z.bits_0, andb_false_r|].
        rewrite (Z.bits_above_log2 1) by (cbn; lia). by rewrite andb_false_r. }
  rewrite !E by auto using is_bit_lxor.
  apply Z.bits_inj'. intros n Hn. rewrite Z.lxor_spec, !Z.lor_spec, Z.lxor_spec.
  destruct (decide (n = 0)) as [->|Hn0].
  - by rewrite !Z.shiftl_spec_low by lia.
  - rewrite !Z.shiftl_spec, Z.lxor_spec by lia.
    assert (F : forall y, is_bit y -> Z.testbit y n = false).
    { intros y [-> | ->]; [apply Z.bits_0|]. apply Z.bits_above_log2; cbn; lia. }
    rewrite !F by done. by rewrite !orb_false_r.
Qed.

(** ** Array lemmas *)

Lemma nth_insert_eq (l : list Z) i v : (i < length l)%nat -> l.[i <- v].[i] = v.
Proof. intros H. rewrite nth_lookup, list_lookup_insert_eq by done. done. Qed.

Lemma nth_insert_ne (l : list Z) i j v : i <> j -> l.[i <- v].[j] = l.[j].
Proof. intros H. rewrite !nth_lookup, list_lookup_insert_ne by done. done. Qed.

Lemma nth_insert (l : list Z) i j v :
  l.[i <- v].[j] = if decide (i = j /\ (i < length l)%nat) then v else l.[j].
Proof.
  destruct (decide (i = j /\ _)) as [[-> H]|H].
  - by apply nth_insert_eq.
  - destruct (decide (i = j)) as [->|Hne].
    + rewrite list_insert_ge; [done|]. destruct (decide (j < length l)%nat); [tauto|lia].
    + by apply nth_insert_ne.
Qed.

Lemma nth_replicate n i : (replicate n 0).[i] = 0.
Proof. revert i. induction n as [|n IH]; intros [|i]; cbn; done || apply IH. Qed.

Lemma list_eq_nth (a b : list Z) :
  length a = length b -> (forall i, (i < length a)%nat -> a.[i] = b.[i]) -> a = b.
Proof. intros Hl H. by apply (nth_ext a b 0 0). Qed.

Lemma nth_take (l : list Z) n j : (j < n)%nat -> (take n l).[j] = l.[j].
Proof. intros H. by rewrite !nth_lookup, lookup_take_lt. Qed.

Lemma nth_drop (l : list Z) n j : (drop n l).[j] = l.[(n + j)%nat].
Proof. by rewrite !nth_lookup, lookup_drop. Qed.

Lemma drop_take_nth (l : list Z) b n j :
  (j < n)%nat -> (take n (drop b l)).[j] = l.[(b + j)%nat].
Proof. intros H. by rewrite !nth_lookup, lookup_take_lt, lookup_drop by done. Qed.

(** Lengths of the list operations the models use. *)
Ltac len :=
  repeat rewrite ?length_insert, ?length_app, ?length_fmap, ?length_map, ?length_seq,
    ?length_replicate, ?length_take, ?length_drop, ?length_cons, ?length_nil in *;
  try lia.

(** [memcpy(&dst[off], src, length src)] into a buffer that is long enough. *)
Definition blit (dst : list Z) (off : nat) (src : list Z) : list Z :=
  take off dst ++ src ++ drop (off + length src) dst.

Lemma length_blit dst off src :
  (off + length src <= length dst)%nat -> length (blit dst off src) = length dst.
Proof. intros H. unfold blit. len. Qed.

(** Exclusive or of a list of words. *)
Definition xorl (l : list Z) : Z := foldr Z.lxor 0 l.

(** A loop that updates each cell of an array in place. *)
Lemma for_update n (f : nat -> Z -> Z) (l : list Z) :
  (n <= length l)%nat ->
  length (for_ 0 n (fun j e => e.[j <- f j (e.[j])]) l) = length l /\
  forall j, (for_ 0 n (fun j e => e.[j <- f j (e.[j])]) l).[j]
            = if decide (j < n)%nat then f j (l.[j]) else l.[j].
Proof.
  intros Hn. induction n as [|n IH].
  - rewrite for_nil by lia. split; [done|]. intros j. by destruct (decide (j < 0)%nat); [lia|].
  - rewrite for_S by lia. destruct IH as [IHl IH]; [lia|]. rewrite length_insert.
    split; [done|]. intros j. rewrite nth_insert, IHl, !IH.
    destruct (decide (n < n)%nat); [lia|].
    destruct (decide (n = j /\ _)) as [[<- ?]|?].
    + by destruct (decide (n < S n)%nat); [|lia].
    + destruct (decide (j < S n)%nat), (decide (j < n)%nat); lia || done.
Qed.

(** A loop of stores at pairwise different addresses. *)
Section Stores.
Context (addr : nat -> nat) (v : nat -> Z).

Definition stores (k : nat) (m : list Z) : list Z := for_ 0 k (fun j m => m.[addr j <- v j]) m.

Lemma length_stores k m : length (stores k m) = length m.
Proof. apply (for_inv (fun m' => length m' = length m)); [done|]. intros. by rewrite length_insert. Qed.

Lemma stores_miss k m a : (forall j, (j < k)%nat -> addr j <> a) -> (stores k m).[a] = m.[a].
Proof.
  intros H. unfold stores. apply (for_inv (fun m' => m'.[a] = m.[a])); [done|].
  intros j m' Hj <-. apply nth_insert_ne, H. lia.
Qed.

Lemma stores_hit k m j :
  (j < k)%nat -> (forall i, (i < k)%nat -> i <> j -> addr i <> addr j) -> (addr j < length m)%nat ->
  (stores k m).[addr j] = v j.
Proof.
  intros Hj Hinj Hlen. induction k as [|k IH]; [lia|]. unfold stores in *. rewrite for_S by lia.
  destruct (decide (j = k)) as [->|Hne].
  - apply nth_insert_eq. fold (stores k m). by rewrite length_stores.
  - rewrite nth_insert_ne by (apply Hinj; lia). apply IH; [lia|]. intros. apply Hinj; lia.
Qed.
End Stores.

Lemma nth_map_seq (f : nat -> Z) lo n i : (i < n)%nat -> (map f (seq lo n)).[i] = f (lo + i)%nat.
Proof. intros H. by rewrite nth_lookup, list_lookup_fmap, lookup_seq_lt by done. Qed.

(** ** Finite checks *)

(** Close a decidable goal by computing its decision. *)
Ltac by_decide := apply (bool_decide_unpack _); vm_compute; exact I.

(** A boolean property checked below a bound holds below it. *)
Lemma check_nat (P : nat -> bool) n :
  forallb P (seq 0 n) = true -> forall k, (k < n)%nat -> P k = true.
Proof. rewrite forallb_forall. intros H k Hk. apply H, in_seq. lia. Qed.

Lemma check_Z (P : Z -> bool) n :
  forallb (fun k => P (Z.of_nat k)) (seq 0 n) = true -> forall x, 0 <= x < Z.of_nat n -> P x = true.
Proof.
  intros H x Hx. rewrite <- (Z2Nat.id x) by lia.
  apply (check_nat (fun k => P (Z.of_nat k)) n H). lia.
Qed.

(** ** Bounds of bitwise operations *)

Lemma lt_pow2_testbit n a :
  0 <= n -> 0 <= a -> (forall i, n <= i -> Z.testbit a i = false) -> a < 2 ^ n.
Proof.
  intros Hn Ha H. destruct (Z.eq_dec a 0) as [->|H0]; [lia|].
  apply Z.log2_lt_pow2; [lia|]. destruct (Z_lt_ge_dec (Z.log2 a) n) as [|Hge]; [done|].
  specialize (H (Z.log2 a) ltac:(lia)).
  rewrite Z.bit_log2 in H by lia. done.
Qed.

Lemma testbit_ge_pow2 n a i : 0 <= a < 2 ^ n -> n <= i -> Z.testbit a i = false.
Proof.
  intros Ha Hi. destruct (Z.eq_dec a 0) as [->|H0]; [apply Z.bits_0|].
  apply Z.bits_above_log2; [lia|]. enough (Z.log2 a < n) by lia. apply Z.log2_lt_pow2; lia.
Qed.

Lemma lxor_range n a b : 0 <= n -> 0 <= a < 2 ^ n -> 0 <= b < 2 ^ n -> 0 <= Z.lxor a b < 2 ^ n.
Proof.
  intros Hn Ha Hb. assert (H0 : 0 <= Z.lxor a b) by (apply Z.lxor_nonneg; lia). split; [done|].
  apply lt_pow2_testbit; [done..|]. intros i Hi.
  by rewrite Z.lxor_spec, !(testbit_ge_pow2 n) by done.
Qed.

Lemma wrap_lxor w a b : 0 <= w -> wrap w (Z.lxor a b) = Z.lxor (wrap w a) (wrap w b).
Proof.
  intros Hw. unfold wrap. rewrite <- !Z.land_ones by done. apply Z.bits_inj'. intros i Hi.
  rewrite !Z.lxor_spec, !Z.land_spec, Z.lxor_spec.
  destruct (Z.testbit a i), (Z.testbit b i), (Z.testbit (Z.ones w) i); done.
Qed.

(** Rearranging exclusive ors. *)
Ltac xor_solve :=
  apply Z.bits_inj'; intros ? ?; rewrite ?Z.lxor_spec, ?Z.bits_0;
  repeat match goal with |- context [Z.testbit ?a ?n] => destruct (Z.testbit a n) end; reflexivity.

Lemma lor_shiftl a b k : 0 <= k -> 0 <= b < 2 ^ k -> Z.lor (Z.shiftl a k) b = a * 2 ^ k + b.
Proof.
  intros Hk Hb. rewrite <- Z.shiftl_mul_pow2 by done. symmetry. rewrite <- Z.add_nocarry_lor; [done|].
  apply Z.bits_inj'. intros i Hi. rewrite Z.land_spec, Z.bits_0.
  destruct (Z_lt_ge_dec i k) as [H|H].
  - by rewrite Z.shiftl_spec_low.
  - by rewrite (testbit_ge_pow2 k b), andb_false_r by lia.
Qed.

Lemma land1_bit x : is_bit (Z.land x 1).
Proof. change 1 with (Z.ones 1). rewrite Z.land_ones by lia. apply is_bit_mod2. Qed.

Lemma land1_testbit x : Z.land x 1 = Z.b2z (Z.testbit x 0).
Proof.
  change 1 with (Z.ones 1). rewrite Z.land_ones by lia. change (2 ^ 1) with 2.
  rewrite Zmod_odd, Z.bit0_odd. by destruct (Z.odd x).
Qed.

Lemma land1_id b : is_bit b -> Z.land b 1 = b.
Proof. intros [-> | ->]; done. Qed.


Lemma shiftr_land1 x k : 0 <= k -> Z.land (Z.shiftr x k) 1 = Z.b2z (Z.testbit x k).
Proof. intros Hk. by rewrite land1_testbit, Z.shiftr_spec, Z.add_0_l by lia. Qed.

Lemma b2z_bit b : is_bit (Z.b2z b).
Proof. destruct b; unfold is_bit; auto. Qed.

#[export] Hint Resolve land1_bit b2z_bit : dsd.

(** ** Numbers from their bits, most significant first *)

Definition bits_value (n : nat) (f : nat -> Z) : Z := for_ 0 n (fun i a => 2 * a + f i) 0.

Lemma bits_value_S n f : bits_value (S n) f = 2 * bits_value n f + f n.
Proof. unfold bits_value. by rewrite for_S by lia. Qed.

Lemma bits_value_ext n f g : (forall i, (i < n)%nat -> f i = g i) -> bits_value n f = bits_value n g.
Proof. intros H. apply for_ext. intros i s Hi. rewrite H by lia. done. Qed.

Lemma bits_value_range n f :
  (forall i, (i < n)%nat -> is_bit (f i)) -> 0 <= bits_value n f < 2 ^ Z.of_nat n.
Proof.
  intros H. induction n as [|n IH]; [done|]. rewrite bits_value_S, Nat2Z.inj_succ, Z.pow_succ_r by lia.
  destruct (H n ltac:(lia)) as [-> | ->]; specialize (IH ltac:(intros; apply H; lia)); lia.
Qed.

Lemma bits_value_app n m f :
  bits_value (n + m) f = bits_value n f * 2 ^ Z.of_nat m + bits_value m (fun i => f (n + i)%nat).
Proof.
  induction m as [|m IH]; [rewrite Nat.add_0_r; cbn; lia|].
  rewrite Nat.add_succ_r, !bits_value_S, IH, Nat2Z.inj_succ, Z.pow_succ_r by lia. lia.
Qed.

Lemma testbit_bits_value n f i :
  (forall i, is_bit (f i)) -> (i < n)%nat ->
  Z.b2z (Z.testbit (bits_value n f) (Z.of_nat (n - 1 - i))) = f i.
Proof.
  intros H Hi. induction n as [|n IH]; [lia|]. rewrite bits_value_S.
  destruct (decide (i = n)) as [->|Hne].
  - replace (S n - 1 - n)%nat with O by lia. cbn [Z.of_nat].
    destruct (H n) as [E|E]; rewrite E; [rewrite Z.add_0_r, Z.testbit_even_0|rewrite Z.testbit_odd_0]; done.
  - replace (Z.of_nat (S n - 1 - i)) with (Z.succ (Z.of_nat (n - 1 - i))) by lia.
    rewrite <- IH by lia.
    destruct (H n) as [E|E]; rewrite E; [rewrite Z.add_0_r, Z.testbit_even_succ|rewrite Z.testbit_odd_succ]; lia || done.
Qed.

(** A number below [2^n] is the value of its bits. *)
Lemma bits_value_testbit n x :
  0 <= x < 2 ^ Z.of_nat n ->
  bits_value n (fun i => Z.b2z (Z.testbit x (Z.of_nat (n - 1 - i)))) = x.
Proof.
  revert x. induction n as [|n IH]; intros x Hx.
  - change (2 ^ Z.of_nat 0) with 1 in Hx. cbn. lia.
  - rewrite Nat2Z.inj_succ, Z.pow_succ_r in Hx by lia.
    pose proof (Z.div2_odd x) as E. rewrite bits_value_S.
    replace (Z.of_nat (S n - 1 - n)) with 0 by lia. rewrite Z.bit0_odd.
    rewrite (bits_value_ext n _ (fun i => Z.b2z (Z.testbit (Z.div2 x) (Z.of_nat (n - 1 - i))))).
    + rewrite IH; [lia|]. destruct (Z.odd x); cbn [Z.b2z] in E; lia.
    + intros i Hi. rewrite Z.div2_spec, Z.shiftr_spec by lia. do 2 f_equal. lia.
Qed.

(** ** Shift registers that collect bits *)

Section Collect.
Context (W : Z) (w : nat) (HW : Z.of_nat w <= W).
Implicit Types f : nat -> Z.

Lemma lor_shift_bit v b k : 0 <= v < 2 ^ Z.of_nat k -> (k < w)%nat -> is_bit b ->
  wrap W (Z.shiftl v 1) = 2 * v /\ Z.lor (2 * v) b = 2 * v + b /\ wrap W (2 * v + b) = 2 * v + b.
Proof.
  intros Hv Hk Hb.
  assert (H1 : 2 * 2 ^ Z.of_nat k <= 2 ^ W) by (rewrite <- Z.pow_succ_r by lia; apply Z.pow_le_mono_r; lia).
  unfold wrap. rewrite Z.shiftl_mul_pow2 by lia. change (2 ^ 1) with 2.
  rewrite !Z.mod_small by (destruct Hb; lia). repeat split; [lia|].
  pose proof (lor_shiftl v b 1 ltac:(lia) ltac:(destruct Hb; lia)) as E.
  rewrite Z.shiftl_mul_pow2 in E by lia. change (2 ^ 1) with 2 in E. by rewrite (Z.mul_comm 2).
Qed.

(** [crc = (crc << 1) | bit], in either order of the conversion to [W] bits. *)
Lemma collect_lor f : (forall i, (i < w)%nat -> is_bit (f i)) ->
  for_ 0 w (fun i crc => Z.lor (wrap W (Z.shiftl crc 1)) (f i)) 0 = bits_value w f /\
  for_ 0 w (fun i crc => wrap W (Z.lor (Z.shiftl crc 1) (f i))) 0 = bits_value w f.
Proof.
  intros Hf. enough (H : forall k, (k <= w)%nat ->
    for_ 0 k (fun i crc => Z.lor (wrap W (Z.shiftl crc 1)) (f i)) 0 = bits_value k f /\
    for_ 0 k (fun i crc => wrap W (Z.lor (Z.shiftl crc 1) (f i))) 0 = bits_value k f) by (by apply H).
  induction k as [|k IH]; intros Hk; [done|]. destruct IH as [IH1 IH2]; [lia|].
  rewrite !for_S, IH1, IH2, bits_value_S by lia.
  pose proof (bits_value_range k f ltac:(intros; apply Hf; lia)) as Hr.
  destruct (lor_shift_bit _ (f k) k Hr ltac:(lia) (Hf k ltac:(lia))) as (-> & E2 & E3).
  rewrite (Z.shiftl_mul_pow2 _ 1), (Z.mul_comm _ (2 ^ 1)) by lia. change (2 ^ 1) with 2. by rewrite !E2, E3.
Qed.
End Collect.
