(* ===== verification/LinearCode.v ===== *)
(** * Binary linear codes as the decoders of [fec/fec.c] use them

    A parity check matrix is a flat row-major array [H] of [r] rows of [n]
    bits.  This file holds the syndrome computation every decoder of
    [fec/fec.c] inlines, the bit flip it applies, and the algebra the
    correctness theorems share: the syndrome is linear, so the syndrome of a
    codeword with some bits flipped is the exclusive or of the flipped columns
    of [H], and a decoder is right as soon as its table is right on the finite
    list of error patterns. *)
From S2P Require Import Prelude.

(** [sum over j of rxBits[base + j] * H[n * ir + j]]. *)
Definition parity_sum (H : list Z) (n ir : nat) (rx : list Z) (base : nat) : Z :=
  sum_upto n (fun j => rx.[(base + j)%nat] * H.[(n * ir + j)%nat]).

(** [syndromeI += (parity % 2) << (r - 1 - ir)] for [is = 0 .. r-1]. *)
Definition syndrome (H : list Z) (n r : nat) (rx : list Z) (base : nat) : Z :=
  sum_upto r (fun ir => Z.shiftl (parity_sum H n ir rx base mod 2) (Z.of_nat (r - 1 - ir))).

(** [rxBits[i] ^= 1]. *)
Definition flip (rx : list Z) (i : nat) : list Z := rx.[i <- Z.lxor (rx.[i]) 1].

Definition flips (e : list nat) (rx : list Z) : list Z := fold_left flip e rx.

(** Column [i] of [H], read as an [r]-bit number, first row most significant. *)
Definition col (H : list Z) (n r i : nat) : Z :=
  sum_upto r (fun ir => Z.shiftl (H.[(n * ir + i)%nat]) (Z.of_nat (r - 1 - ir))).

(** Positions where two words differ, and their Hamming distance. *)
Definition diff (a b : list Z) : list nat :=
  filter (fun i => a.[i] <> b.[i]) (seq 0 (length a)).

Definition hamming_dist (a b : list Z) : nat := length (diff a b).

(** A received word: a bit vector as long as [c] within [t] flips of it. *)
Definition within (t : nat) (c rx : list Z) : Prop :=
  length rx = length c /\ bits rx /\ (hamming_dist c rx <= t)%nat.

(** A codeword of the code with parity check matrix [H]. *)
Definition codeword (H : list Z) (n r : nat) (c : list Z) : Prop :=
  length c = n /\ bits c /\ syndrome H n r c 0 = 0.

#[export] Instance bits_dec l : Decision (bits l) := _.

#[export] Instance within_dec t c rx : Decision (within t c rx).
Proof. unfold within. apply _. Defined.

#[export] Instance codeword_dec H n r c : Decision (codeword H n r c).
Proof. unfold codeword. apply _. Defined.

(** Decide a closed proposition by evaluation. *)

(** ** Flips *)

Lemma length_flip rx i : length (flip rx i) = length rx.
Proof. unfold flip. len. Qed.

Lemma length_flips e rx : length (flips e rx) = length rx.
Proof. revert rx. induction e as [|i e IH]; intros rx; cbn; [done|]. by rewrite IH, length_flip. Qed.

Lemma bits_flip rx i : bits rx -> bits (flip rx i).
Proof. intros. unfold flip. apply bits_insert; auto with dsd. apply is_bit_lxor; auto with dsd. by right. Qed.

Lemma bits_flips e rx : bits rx -> bits (flips e rx).
Proof. revert rx. induction e as [|i e IH]; intros rx Hb; cbn; auto using bits_flip. Qed.

#[export] Hint Resolve bits_flip bits_flips : dsd.

Lemma flips_nth e rx j :
  NoDup e -> Forall (fun i => i < length rx)%nat e ->
  (flips e rx).[j] = if decide (j ∈ e) then Z.lxor (rx.[j]) 1 else rx.[j].
Proof.
  revert rx. induction e as [|i e IH]; intros rx Hnd Hlt; cbn -[decide].
  { destruct (decide (j ∈ [])) as [Hj|]; [|done]. by apply elem_of_nil in Hj. }
  apply NoDup_cons in Hnd as [Hi Hnd]. apply Forall_cons in Hlt as [Hil Hlt].
  rewrite IH; [|done|by rewrite length_flip]. unfold flip.
  destruct (decide (j = i)) as [->|Hne].
  - rewrite nth_insert_eq by done.
    destruct (decide (i ∈ e)) as [|_]; [done|]. destruct (decide (i ∈ i :: e)) as [|Hn]; [done|].
    destruct Hn. apply elem_of_cons. by left.
  - rewrite nth_insert_ne by done.
    assert (j ∈ e <-> j ∈ i :: e) as E by (rewrite elem_of_cons; tauto).
    destruct (decide (j ∈ e)), (decide (j ∈ i :: e)); tauto.
Qed.

Lemma flips_involutive e rx :
  NoDup e -> Forall (fun i => i < length rx)%nat e -> flips e (flips e rx) = rx.
Proof.
  intros Hnd Hlt. apply list_eq_nth; [by rewrite !length_flips|].
  intros j _. rewrite !flips_nth by (rewrite ?length_flips; done).
  destruct (decide (j ∈ e)); [|done]. by rewrite Z.lxor_assoc, Z.lxor_0_r.
Qed.

Lemma diff_lt a b : Forall (fun i => i < length a)%nat (diff a b).
Proof.
  apply Forall_forall. intros i Hi. apply list_elem_of_filter in Hi as [_ Hi].
  apply elem_of_seq in Hi. lia.
Qed.

Lemma diff_NoDup a b : NoDup (diff a b).
Proof. apply NoDup_filter, NoDup_seq. Qed.

Lemma flips_diff a b : length b = length a -> bits a -> bits b -> flips (diff a b) a = b.
Proof.
  intros Hl Ha Hb. apply list_eq_nth; [by rewrite length_flips|].
  intros j Hj. rewrite length_flips in Hj. rewrite flips_nth by auto using diff_NoDup, diff_lt.
  assert (j ∈ diff a b <-> a.[j] <> b.[j]) as E.
  { unfold diff. rewrite list_elem_of_filter, elem_of_seq. split; [tauto|]. split; [done|lia]. }
  destruct (bits_nth _ j Ha) as [E1|E1], (bits_nth _ j Hb) as [E2|E2]; rewrite E1, E2 in *;
    destruct (decide (j ∈ diff a b)) as [HD|HD]; rewrite E in HD; first [done | lia].
Qed.

Lemma flips_diff_back a b : length b = length a -> bits a -> bits b -> flips (diff a b) b = a.
Proof.
  intros Hl Ha Hb. transitivity (flips (diff a b) (flips (diff a b) a)).
  - by rewrite (flips_diff a b).
  - apply flips_involutive; auto using diff_NoDup, diff_lt.
Qed.

(** ** Linearity of the syndrome *)

Lemma sum_shiftl_horner m f :
  sum_upto (S m) (fun ir => Z.shiftl (f ir) (Z.of_nat (S m - 1 - ir)))
  = 2 * sum_upto m (fun ir => Z.shiftl (f ir) (Z.of_nat (m - 1 - ir))) + f m.
Proof.
  rewrite sum_upto_S, <- sum_upto_mul_l. f_equal.
  - apply sum_upto_ext. intros i Hi. rewrite !Z.shiftl_mul_pow2 by lia.
    replace (Z.of_nat (S m - 1 - i)) with (Z.succ (Z.of_nat (m - 1 - i))) by lia.
    rewrite Z.pow_succ_r by lia. lia.
  - replace (S m - 1 - m)%nat with O by lia. apply Z.shiftl_0_r.
Qed.

Lemma sum_shiftl_lxor m f g :
  (forall i, (i < m)%nat -> is_bit (f i) /\ is_bit (g i)) ->
  sum_upto m (fun ir => Z.shiftl (Z.lxor (f ir) (g ir)) (Z.of_nat (m - 1 - ir)))
  = Z.lxor (sum_upto m (fun ir => Z.shiftl (f ir) (Z.of_nat (m - 1 - ir))))
           (sum_upto m (fun ir => Z.shiftl (g ir) (Z.of_nat (m - 1 - ir)))).
Proof.
  induction m as [|m IH]; intros Hb; [done|].
  rewrite !sum_shiftl_horner, IH by (intros; apply Hb; lia).
  destruct (Hb m ltac:(lia)). by rewrite lxor_double_bit.
Qed.

Lemma parity_flip H n ir rx i :
  length rx = n -> bits rx -> bits H -> (i < n)%nat ->
  parity_sum H n ir (flip rx i) 0 mod 2
  = Z.lxor (parity_sum H n ir rx 0 mod 2) (H.[(n * ir + i)%nat]).
Proof.
  intros Hl Hrx HH Hi. unfold parity_sum.
  set (h := H.[(n * ir + i)%nat]). set (x := rx.[i]).
  assert (sum_upto n (fun j => (flip rx i).[(0 + j)%nat] * H.[(n * ir + j)%nat])
          = sum_upto n (fun j => rx.[(0 + j)%nat] * H.[(n * ir + j)%nat]) + (1 - 2 * x) * h) as ->.
  { transitivity (sum_upto n (fun j => rx.[(0 + j)%nat] * H.[(n * ir + j)%nat]
                     + (if decide (j = i) then (1 - 2 * x) * h else 0))).
    - apply sum_upto_ext. intros j Hj. cbn [Nat.add]. unfold flip.
      destruct (decide (j = i)) as [->|Hne].
      + rewrite nth_insert_eq by lia. fold x h.
        destruct (bits_nth _ i Hrx) as [E|E]; fold x in E; rewrite E;
          [change (Z.lxor 0 1) with 1 | change (Z.lxor 1 1) with 0]; lia.
      + rewrite nth_insert_ne by done. lia.
    - rewrite sum_upto_add. f_equal. rewrite (sum_upto_single n i); [|done|].
      + by destruct (decide (i = i)).
      + intros j _ Hne. by destruct (decide (j = i)). }
  generalize (sum_upto n (fun j => rx.[(0 + j)%nat] * H.[(n * ir + j)%nat])) as s. intros s.
  assert (Hh : is_bit h) by (apply bits_nth; done).
  replace (s + (1 - 2 * x) * h) with (s + h + (- x * h) * 2) by lia. rewrite Z.mod_add by lia.
  rewrite Z.add_mod by lia. destruct (is_bit_mod2 s) as [-> | ->], Hh as [-> | ->]; done.
Qed.

Lemma syndrome_flip H n r rx i :
  length rx = n -> bits rx -> bits H -> (i < n)%nat ->
  syndrome H n r (flip rx i) 0 = Z.lxor (syndrome H n r rx 0) (col H n r i).
Proof.
  intros Hl Hrx HH Hi. unfold syndrome, col.
  rewrite <- (sum_shiftl_lxor r (fun ir => parity_sum H n ir rx 0 mod 2)) by auto with dsd.
  apply sum_upto_ext. intros ir _. by rewrite parity_flip.
Qed.

Lemma syndrome_flips H n r e rx :
  length rx = n -> bits rx -> bits H -> Forall (fun i => i < n)%nat e ->
  syndrome H n r (flips e rx) 0 = Z.lxor (syndrome H n r rx 0) (xorl (map (col H n r) e)).
Proof.
  intros Hl Hrx HH He. revert rx Hl Hrx. induction He as [|i e Hi He IH]; intros rx Hl Hrx; cbn.
  { by rewrite Z.lxor_0_r. }
  fold (flips e (flip rx i)).
  rewrite IH, syndrome_flip, Z.lxor_assoc; auto with dsd. by rewrite length_flip.
Qed.

(** A syndrome is computed on the [n] bits from [base] on. *)
Lemma syndrome_base H n r rx base :
  syndrome H n r rx base = syndrome H n r (take n (drop base rx)) 0.
Proof.
  unfold syndrome. apply sum_upto_ext. intros ir _. do 2 f_equal.
  apply sum_upto_ext. intros j Hj. by rewrite drop_take_nth.
Qed.

Lemma syndrome_bound H n r rx base : 0 <= syndrome H n r rx base < 2 ^ Z.of_nat r.
Proof.
  unfold syndrome. induction r as [|r IH]; [done|].
  rewrite sum_shiftl_horner, Nat2Z.inj_succ, Z.pow_succ_r by lia.
  pose proof (Z.mod_pos_bound (parity_sum H n r rx base) 2). lia.
Qed.

(** ** Error patterns *)

(** The subsequences of [l] of at most [t] elements. *)
Fixpoint subseqs {A} (t : nat) (l : list A) : list (list A) :=
  match l with
  | [] => [[]]
  | x :: l' => subseqs t l' ++ match t with O => [] | S t' => map (cons x) (subseqs t' l') end
  end.

Lemma elem_of_subseqs {A} (e l : list A) t :
  e `sublist_of` l -> (length e <= t)%nat -> e ∈ subseqs t l.
Proof.
  intros Hs. revert t. induction Hs as [|x e l Hs IH|x e l Hs IH]; intros t Ht; cbn in *.
  - apply elem_of_cons. by left.
  - destruct t as [|t]; [lia|]. apply elem_of_app. right. apply list_elem_of_fmap. eexists. split; [done|].
    apply IH. lia.
  - apply elem_of_app. left. by apply IH.
Qed.

Lemma filter_sublist {A} (P : A -> Prop) `{!forall x, Decision (P x)} l : filter P l `sublist_of` l.
Proof.
  induction l as [|x l IH]; [done|]. rewrite filter_cons.
  destruct (decide (P x)); by constructor.
Qed.

(** [chk e s] for every error pattern [e] of at most [t] of the [n] positions
    and its syndrome [s]; the columns are computed once. *)
Definition check_patterns (H : list Z) (n r t : nat) (chk : list nat -> Z -> bool) : bool :=
  let cols := map (col H n r) (seq 0 n) in
  forallb (fun e => chk e (xorl (map (fun i => cols.[i]) e))) (subseqs t (seq 0 n)).

Lemma check_patterns_spec H n r t chk c rx :
  check_patterns H n r t chk = true -> bits H -> codeword H n r c -> within t c rx ->
  chk (diff c rx) (syndrome H n r rx 0) = true /\ rx = flips (diff c rx) c.
Proof.
  intros Hchk HH (Hlc & Hbc & Hsc) (Hl & Hb & Hd).
  assert (E : rx = flips (diff c rx) c) by (symmetry; by apply flips_diff).
  split; [|done].
  assert (Hlt : Forall (fun i => i < n)%nat (diff c rx)) by (rewrite <- Hlc; apply diff_lt).
  rewrite E at 2. rewrite syndrome_flips by done. rewrite Hsc, Z.lxor_0_l.
  unfold check_patterns in Hchk. rewrite forallb_forall in Hchk.
  assert (In (diff c rx) (subseqs t (seq 0 n))) as Hin.
  { apply list_elem_of_In, elem_of_subseqs; [|done]. rewrite <- Hlc. apply filter_sublist. }
  apply Hchk in Hin. rewrite <- Hin. do 2 f_equal. apply map_ext_in. intros i Hi.
  apply list_elem_of_In in Hi. rewrite Forall_forall in Hlt. apply Hlt in Hi.
  change 0 with (0 : Z). rewrite nth_lookup, list_lookup_fmap, lookup_seq_lt by done. done.
Qed.

Lemma codeword_within0 c : bits c -> within 0 c c.
Proof.
  intros. repeat split; [done|]. unfold hamming_dist, diff.
  enough (filter (fun i => c.[i] <> c.[i]) (seq 0 (length c)) = []) as -> by done.
  induction (seq 0 (length c)) as [|i l IH]; [done|]. rewrite filter_cons.
  by destruct (decide (c.[i] <> c.[i])).
Qed.

(** ** Generator matrices *)

(** [G] generates codewords of [H]: [G * H^T = 0 (mod 2)]. *)
Definition orthogonal (G H : list Z) (k n r : nat) : bool :=
  forallb (fun ir => forallb (fun i =>
    sum_upto n (fun j => G.[(n * i + j)%nat] * H.[(n * ir + j)%nat]) mod 2 =? 0) (seq 0 k)) (seq 0 r).

Lemma syndrome_generated G H k n r d c :
  orthogonal G H k n r = true -> length c = n ->
  (forall j, (j < n)%nat -> c.[j] = sum_upto k (fun i => d.[i] * G.[(n * i + j)%nat]) mod 2) ->
  syndrome H n r c 0 = 0.
Proof.
  intros Ho Hl Hc. unfold syndrome.
  rewrite (sum_upto_ext r _ (fun _ => 0)); [apply sum_upto_0|]. intros ir Hi.
  enough (parity_sum H n ir c 0 mod 2 = 0) as -> by apply Z.shiftl_0_l.
  unfold parity_sum. cbn [Nat.add].
  rewrite <- sum_upto_mod by done.
  rewrite (sum_upto_ext n _ (fun j =>
    sum_upto k (fun i => d.[i] * (G.[(n * i + j)%nat] * H.[(n * ir + j)%nat])) mod 2)).
  2: { intros j Hj. rewrite Hc by done. rewrite Z.mul_mod_idemp_l by done. f_equal.
       rewrite Z.mul_comm, <- sum_upto_mul_l. apply sum_upto_ext. intros. lia. }
  rewrite sum_upto_mod, <- sum_upto_swap by done.
  rewrite <- sum_upto_mod by done. rewrite (sum_upto_ext k _ (fun _ => 0)); [by rewrite sum_upto_0|].
  intros i Hik. rewrite sum_upto_mul_l, Z.mul_mod by done.
  unfold orthogonal in Ho. rewrite forallb_forall in Ho.
  specialize (Ho ir). rewrite in_seq, forallb_forall in Ho. specialize (Ho ltac:(lia) i).
  rewrite in_seq, Z.eqb_eq in Ho. rewrite Ho by lia. by rewrite Z.mul_0_r.
Qed.

(** ** Bounds on the Hamming distance *)

Lemma hamming_dist_mono a b b' :
  (forall j, b'.[j] <> a.[j] -> b.[j] <> a.[j]) -> (hamming_dist a b' <= hamming_dist a b)%nat.
Proof.
  intros H. unfold hamming_dist, diff. induction (seq 0 (length a)) as [|j l IH]; [done|].
  rewrite !filter_cons. specialize (H j).
  destruct (decide (a.[j] <> b'.[j])) as [H1|H1], (decide (a.[j] <> b.[j])) as [H2|H2]; cbn; try lia.
Qed.

Lemma filter_single (r : nat) l : NoDup l -> (length (filter (fun j => j = r) l) <= 1)%nat.
Proof.
  induction 1 as [|j l Hj Hnd IH]; [cbn; lia|]. rewrite filter_cons. destruct (decide (j = r)) as [->|]; [|done].
  cbn. destruct (filter _ l) as [|x l'] eqn:E; [done|]. exfalso. apply Hj.
  assert (x ∈ filter (fun j => j = r) l) as Hx by (rewrite E; left). by apply list_elem_of_filter in Hx as [-> ?].
Qed.

Lemma hamming_dist_one a b r : (forall j, j <> r -> a.[j] = b.[j]) -> (hamming_dist a b <= 1)%nat.
Proof.
  intros H. unfold hamming_dist, diff.
  transitivity (length (filter (fun j => j = r) (seq 0 (length a)))); [|apply filter_single, NoDup_seq].
  induction (seq 0 (length a)) as [|j l IH]; [done|]. rewrite !filter_cons.
  destruct (decide (a.[j] <> b.[j])) as [H1|H1], (decide (j = r)) as [H2|H2]; cbn; try lia.
  exfalso. by apply H1, H.
Qed.

Lemma within_mono t t' c rx : (t <= t')%nat -> within t c rx -> within t' c rx.
Proof. intros Ht (H1 & H2 & H3). repeat split; [done|done|lia]. Qed.
