(* ===== verification/BlockCodes.v ===== *)
(** * [fec/fec.c]: the block codes

    Hamming (7,4), (12,8), (13,9), (15,11), (16,11,4), Golay (20,8), Golay
    (24,12) and QR (16,7,6): parity check matrices, the correction tables the
    [*_init] functions build, the decoders, and the Golay (24,12) encoder.
    The tables are the file's mutable statics, here the record [fec_tables];
    [InitAllFecFunction] fills all of them.  A decoder reads its table from the
    record, corrects [rxBits] in place and returns whether it succeeded. *)
From stdpp Require Import gmap.
From S2P Require Import Prelude LinearCode.

(** ** Matrices *)

Definition Hamming_7_4_m_H : list Z :=
  [1; 1; 1; 0; 1; 0; 0; 0; 1; 1; 1; 0; 1; 0; 1; 1; 0; 1; 0; 0; 1].

Definition Hamming_12_8_m_H : list Z :=
  [1; 0; 1; 0; 1; 1; 0; 0; 1; 0; 0; 0; 1; 1; 0; 1; 0; 1; 1; 0; 0; 1; 0; 0; 1; 1; 1; 0; 1; 0; 1; 1;
   0; 0; 1; 0; 0; 1; 0; 1; 1; 0; 0; 1; 0; 0; 0; 1].

Definition Hamming_13_9_m_H : list Z :=
  [1; 1; 0; 1; 0; 1; 1; 0; 0; 1; 0; 0; 0; 1; 1; 1; 0; 1; 0; 1; 1; 0; 0; 1; 0; 0; 1; 1; 1; 1; 0; 1;
   0; 1; 1; 0; 0; 1; 0; 1; 0; 1; 0; 1; 1; 0; 0; 1; 0; 0; 0; 1].

Definition Hamming_15_11_m_H : list Z :=
  [1; 1; 1; 1; 0; 1; 0; 1; 1; 0; 0; 1; 0; 0; 0; 0; 1; 1; 1; 1; 0; 1; 0; 1; 1; 0; 0; 1; 0; 0; 0; 0;
   1; 1; 1; 1; 0; 1; 0; 1; 1; 0; 0; 1; 0; 1; 1; 1; 0; 1; 0; 1; 1; 0; 0; 1; 0; 0; 0; 1].

Definition Hamming_16_11_4_m_H : list Z :=
  [1; 1; 1; 1; 0; 1; 0; 1; 1; 0; 0; 1; 0; 0; 0; 0; 0; 1; 1; 1; 1; 0; 1; 0; 1; 1; 0; 0; 1; 0; 0; 0;
   0; 0; 1; 1; 1; 1; 0; 1; 0; 1; 1; 0; 0; 1; 0; 0; 1; 1; 1; 0; 1; 0; 1; 1; 0; 0; 1; 0; 0; 0; 1; 0;
   1; 0; 1; 0; 0; 1; 1; 0; 1; 1; 1; 0; 0; 0; 0; 1].

Definition Golay_20_8_m_H : list Z :=
  [0; 1; 0; 0; 1; 1; 1; 1; 1; 0; 0; 0; 0; 0; 0; 0; 0; 0; 0; 0; 0; 1; 1; 0; 1; 0; 0; 0; 0; 1; 0; 0;
   0; 0; 0; 0; 0; 0; 0; 0; 1; 0; 1; 1; 0; 1; 0; 0; 0; 0; 1; 0; 0; 0; 0; 0; 0; 0; 0; 0; 1; 1; 0; 1;
   1; 0; 1; 0; 0; 0; 0; 1; 0; 0; 0; 0; 0; 0; 0; 0; 1; 1; 1; 0; 1; 1; 0; 1; 0; 0; 0; 0; 1; 0; 0; 0;
   0; 0; 0; 0; 1; 0; 1; 1; 1; 0; 0; 1; 0; 0; 0; 0; 0; 1; 0; 0; 0; 0; 0; 0; 0; 0; 0; 1; 0; 0; 1; 1;
   0; 0; 0; 0; 0; 0; 1; 0; 0; 0; 0; 0; 1; 1; 0; 0; 0; 1; 1; 0; 0; 0; 0; 0; 0; 0; 0; 1; 0; 0; 0; 0;
   1; 1; 1; 0; 0; 0; 1; 1; 0; 0; 0; 0; 0; 0; 0; 0; 1; 0; 0; 0; 0; 0; 1; 1; 1; 1; 1; 0; 0; 0; 0; 0;
   0; 0; 0; 0; 0; 1; 0; 0; 1; 0; 0; 1; 1; 1; 1; 1; 0; 0; 0; 0; 0; 0; 0; 0; 0; 0; 1; 0; 0; 1; 1; 1;
   0; 1; 0; 1; 0; 0; 0; 0; 0; 0; 0; 0; 0; 0; 0; 1].

Definition Golay_24_12_m_G : list Z :=
  [1; 0; 0; 0; 0; 0; 0; 0; 0; 0; 0; 0; 1; 1; 0; 0; 0; 1; 1; 1; 0; 1; 0; 1; 0; 1; 0; 0; 0; 0; 0; 0;
   0; 0; 0; 0; 0; 1; 1; 0; 0; 0; 1; 1; 1; 0; 1; 1; 0; 0; 1; 0; 0; 0; 0; 0; 0; 0; 0; 0; 1; 1; 1; 1;
   0; 1; 1; 0; 1; 0; 0; 0; 0; 0; 0; 1; 0; 0; 0; 0; 0; 0; 0; 0; 0; 1; 1; 1; 1; 0; 1; 1; 0; 1; 0; 0;
   0; 0; 0; 0; 1; 0; 0; 0; 0; 0; 0; 0; 0; 0; 1; 1; 1; 1; 0; 1; 1; 0; 1; 0; 0; 0; 0; 0; 0; 1; 0; 0;
   0; 0; 0; 0; 1; 1; 0; 1; 1; 0; 0; 1; 1; 0; 0; 1; 0; 0; 0; 0; 0; 0; 1; 0; 0; 0; 0; 0; 0; 1; 1; 0;
   1; 1; 0; 0; 1; 1; 0; 1; 0; 0; 0; 0; 0; 0; 0; 1; 0; 0; 0; 0; 0; 0; 1; 1; 0; 1; 1; 0; 0; 1; 1; 1;
   0; 0; 0; 0; 0; 0; 0; 0; 1; 0; 0; 0; 1; 1; 0; 1; 1; 1; 0; 0; 0; 1; 1; 0; 0; 0; 0; 0; 0; 0; 0; 0;
   0; 1; 0; 0; 1; 0; 1; 0; 1; 0; 0; 1; 0; 1; 1; 1; 0; 0; 0; 0; 0; 0; 0; 0; 0; 0; 1; 0; 1; 0; 0; 1;
   0; 0; 1; 1; 1; 1; 1; 0; 0; 0; 0; 0; 0; 0; 0; 0; 0; 0; 0; 1; 1; 0; 0; 0; 1; 1; 1; 0; 1; 0; 1; 1].

Definition Golay_24_12_m_H : list Z :=
  [1; 0; 1; 0; 0; 1; 0; 0; 1; 1; 1; 1; 1; 0; 0; 0; 0; 0; 0; 0; 0; 0; 0; 0; 1; 1; 1; 1; 0; 1; 1; 0;
   1; 0; 0; 0; 0; 1; 0; 0; 0; 0; 0; 0; 0; 0; 0; 0; 0; 1; 1; 1; 1; 0; 1; 1; 0; 1; 0; 0; 0; 0; 1; 0;
   0; 0; 0; 0; 0; 0; 0; 0; 0; 0; 1; 1; 1; 1; 0; 1; 1; 0; 1; 0; 0; 0; 0; 1; 0; 0; 0; 0; 0; 0; 0; 0;
   0; 0; 0; 1; 1; 1; 1; 0; 1; 1; 0; 1; 0; 0; 0; 0; 1; 0; 0; 0; 0; 0; 0; 0; 1; 0; 1; 0; 1; 0; 1; 1;
   1; 0; 0; 1; 0; 0; 0; 0; 0; 1; 0; 0; 0; 0; 0; 0; 1; 1; 1; 1; 0; 0; 0; 1; 0; 0; 1; 1; 0; 0; 0; 0;
   0; 0; 1; 0; 0; 0; 0; 0; 1; 1; 0; 1; 1; 1; 0; 0; 0; 1; 1; 0; 0; 0; 0; 0; 0; 0; 0; 1; 0; 0; 0; 0;
   0; 1; 1; 0; 1; 1; 1; 0; 0; 0; 1; 1; 0; 0; 0; 0; 0; 0; 0; 0; 1; 0; 0; 0; 1; 0; 0; 1; 0; 0; 1; 1;
   1; 1; 1; 0; 0; 0; 0; 0; 0; 0; 0; 0; 0; 1; 0; 0; 0; 1; 0; 0; 1; 0; 0; 1; 1; 1; 1; 1; 0; 0; 0; 0;
   0; 0; 0; 0; 0; 0; 1; 0; 1; 1; 0; 0; 0; 1; 1; 1; 0; 1; 0; 1; 0; 0; 0; 0; 0; 0; 0; 0; 0; 0; 0; 1].

Definition QR_16_7_6_m_H : list Z :=
  [0; 1; 1; 1; 1; 0; 0; 1; 0; 0; 0; 0; 0; 0; 0; 0; 0; 0; 1; 1; 1; 1; 0; 0; 1; 0; 0; 0; 0; 0; 0; 0;
   1; 0; 0; 1; 1; 1; 1; 0; 0; 1; 0; 0; 0; 0; 0; 0; 0; 0; 1; 1; 0; 1; 1; 0; 0; 0; 1; 0; 0; 0; 0; 0;
   0; 1; 1; 0; 0; 0; 1; 0; 0; 0; 0; 1; 0; 0; 0; 0; 1; 1; 0; 0; 1; 0; 0; 0; 0; 0; 0; 0; 1; 0; 0; 0;
   1; 1; 1; 0; 0; 1; 0; 0; 0; 0; 0; 0; 0; 1; 0; 0; 1; 1; 1; 1; 0; 0; 1; 0; 0; 0; 0; 0; 0; 0; 1; 0;
   1; 0; 1; 0; 1; 1; 1; 0; 0; 0; 0; 0; 0; 0; 0; 1].

(** ** Correction tables *)

(** A row of a multi-error table: the positions to flip, [0xFF] for none.  The
    rows of a table that was only cleared by [memset(t, 0xFF, ...)] are not
    stored. *)
Record corr_rows := { cr_width : nat; cr_rows : gmap Z (list Z) }.

Definition rows_clear (w : nat) : corr_rows := {| cr_width := w; cr_rows := ∅ |}.

Definition corr_row (t : corr_rows) (s : Z) : list Z :=
  default (replicate (cr_width t) 255) (cr_rows t !! s).

(** [t[s][i] = v]. *)
Definition corr_set (s : Z) (i : nat) (v : Z) (t : corr_rows) : corr_rows :=
  {| cr_width := cr_width t; cr_rows := <[s := (corr_row t s).[i <- v]]> (cr_rows t) |}.

(** The static tables of [fec.c]. *)
Record fec_tables := {
  Hamming_7_4_m_corr : list Z;
  Hamming_12_8_m_corr : list Z;
  Hamming_13_9_m_corr : list Z;
  Hamming_15_11_m_corr : list Z;
  Hamming_16_11_4_m_corr : list Z;
  Golay_20_8_m_corr : corr_rows;
  Golay_24_12_m_corr : corr_rows;
  QR_16_7_6_m_corr : corr_rows
}.

(** [m_corr[s_0] = p_0; m_corr[s_1] = p_1; ...] on a table of [size] bytes
    cleared to [0xFF]. *)
Definition single_table (size : nat) (l : list (nat * Z)) : list Z :=
  fold_left (fun t '(s, p) => t.[s <- p]) l (replicate size 255).

Definition Hamming_7_4_init : list Z :=
  single_table 8 [(5%nat, 0); (7%nat, 1); (6%nat, 2); (3%nat, 3); (4%nat, 4); (2%nat, 5); (1%nat, 6)].

Definition Hamming_12_8_init : list Z :=
  single_table 16 [(14%nat, 0); (7%nat, 1); (10%nat, 2); (5%nat, 3); (11%nat, 4); (12%nat, 5);
                   (6%nat, 6); (3%nat, 7); (8%nat, 8); (4%nat, 9); (2%nat, 10); (1%nat, 11)].

Definition Hamming_13_9_init : list Z :=
  single_table 16 [(15%nat, 0); (14%nat, 1); (7%nat, 2); (10%nat, 3); (5%nat, 4); (11%nat, 5);
                   (12%nat, 6); (6%nat, 7); (3%nat, 8); (8%nat, 9); (4%nat, 10); (2%nat, 11);
                   (1%nat, 12)].

Definition Hamming_15_11_init : list Z :=
  single_table 16 [(9%nat, 0); (13%nat, 1); (15%nat, 2); (14%nat, 3); (7%nat, 4); (10%nat, 5);
                   (5%nat, 6); (11%nat, 7); (12%nat, 8); (6%nat, 9); (3%nat, 10); (8%nat, 11);
                   (4%nat, 12); (2%nat, 13); (1%nat, 14)].

Definition Hamming_16_11_4_init : list Z :=
  single_table 32 [(19%nat, 0); (26%nat, 1); (31%nat, 2); (28%nat, 3); (14%nat, 4); (21%nat, 5);
                   (11%nat, 6); (22%nat, 7); (25%nat, 8); (13%nat, 9); (7%nat, 10); (16%nat, 11);
                   (8%nat, 12); (4%nat, 13); (2%nat, 14); (1%nat, 15)].

(** Syndrome of the message positions [is], as the [*_init] functions add it
    up row by row (12 rows for Golay, 9 for QR). *)
Definition init_syndrome (H : list Z) (n r : nat) (is_ : list nat) : Z :=
  sum_upto r (fun ir =>
    Z.shiftl (fold_left (fun a i => a + H.[(n * ir + i)%nat]) is_ 0 mod 2) (Z.of_nat (r - 1 - ir))).

(** [1 << (11 - ip)]. *)
Definition parity_bit (r ip : nat) : Z := Z.shiftl 1 (Z.of_nat (r - 1 - ip)).

(** The two Golay tables are filled by the same nest of loops; [k] message
    bits, [n = k + 12].  [zn] is a loop counter stored in a byte. *)
Section GolayInit.
Context (k n : nat) (H : list Z).
Let zn := Z.of_nat.

(** "3 bit patterns". *)
Definition golay_init_3 (i1 i2 : nat) (t : corr_rows) : corr_rows :=
  for_ (S i2) k (fun i3 t =>
    let s := init_syndrome H n 12 [i1; i2; i3] in
    corr_set s 2 (zn i3) (corr_set s 1 (zn i2) (corr_set s 0 (zn i1) t))) t.

(** "2 bit patterns" and "1 possible bit flip left in the parity part". *)
Definition golay_init_2 (i1 i2 : nat) (t : corr_rows) : corr_rows :=
  let s := init_syndrome H n 12 [i1; i2] in
  let t := corr_set s 1 (zn i2) (corr_set s 0 (zn i1) t) in
  for_ 0 12 (fun ip t =>
    let sp := Z.lxor s (parity_bit 12 ip) in
    corr_set sp 2 (zn (k + ip)) (corr_set sp 1 (zn i2) (corr_set sp 0 (zn i1) t))) t.

(** "single bit patterns" and up to two more flips in the parity part. *)
Definition golay_init_1 (i1 : nat) (t : corr_rows) : corr_rows :=
  let s := init_syndrome H n 12 [i1] in
  let t := corr_set s 0 (zn i1) t in
  for_ 0 12 (fun ip1 t =>
    let sp1 := Z.lxor s (parity_bit 12 ip1) in
    let t := corr_set sp1 1 (zn (k + ip1)) (corr_set sp1 0 (zn i1) t) in
    for_ (S ip1) 12 (fun ip2 t =>
      let sp2 := Z.lxor sp1 (parity_bit 12 ip2) in
      corr_set sp2 2 (zn (k + ip2)) (corr_set sp2 1 (zn (k + ip1)) (corr_set sp2 0 (zn i1) t))) t) t.

(** "no bit patterns (in message) -> all in parity". *)
Definition golay_init_0 (t : corr_rows) : corr_rows :=
  for_ 0 12 (fun ip1 t =>
    let sp1 := parity_bit 12 ip1 in
    let t := corr_set sp1 0 (zn (k + ip1)) t in
    for_ (S ip1) 12 (fun ip2 t =>
      let sp2 := Z.lxor sp1 (parity_bit 12 ip2) in
      let t := corr_set sp2 1 (zn (k + ip2)) (corr_set sp2 0 (zn (k + ip1)) t) in
      for_ (S ip2) 12 (fun ip3 t =>
        let sp3 := Z.lxor sp2 (parity_bit 12 ip3) in
        corr_set sp3 2 (zn (k + ip3)) (corr_set sp3 1 (zn (k + ip2))
          (corr_set sp3 0 (zn (k + ip1)) t))) t) t) t.

Definition golay_init : corr_rows :=
  golay_init_0
    (for_ 0 k (fun i1 t =>
       golay_init_1 i1
         (for_ (S i1) k (fun i2 t => golay_init_2 i1 i2 (golay_init_3 i1 i2 t)) t))
       (rows_clear 3)).
End GolayInit.

Definition Golay_20_8_init : corr_rows := golay_init 8 20 Golay_20_8_m_H.
Definition Golay_24_12_init : corr_rows := golay_init 12 24 Golay_24_12_m_H.

Definition QR_16_7_6_init : corr_rows :=
  let zn := Z.of_nat in
  let t := rows_clear 2 in
  let t := for_ 0 7 (fun i1 t =>
    let t := for_ (S i1) 7 (fun i2 t =>
      let s := init_syndrome QR_16_7_6_m_H 16 9 [i1; i2] in
      corr_set s 1 (zn i2) (corr_set s 0 (zn i1) t)) t in
    let s := init_syndrome QR_16_7_6_m_H 16 9 [i1] in
    let t := corr_set s 0 (zn i1) t in
    for_ 0 9 (fun ip t =>
      let sp := Z.lxor s (parity_bit 9 ip) in
      corr_set sp 1 (zn (7 + ip)%nat) (corr_set sp 0 (zn i1) t)) t) t in
  for_ 0 9 (fun ip1 t =>
    let sp1 := parity_bit 9 ip1 in
    let t := corr_set sp1 0 (zn (7 + ip1)%nat) t in
    for_ (S ip1) 9 (fun ip2 t =>
      let sp2 := Z.lxor sp1 (parity_bit 9 ip2) in
      corr_set sp2 1 (zn (7 + ip2)%nat) (corr_set sp2 0 (zn (7 + ip1)%nat) t)) t) t.

(** Every table is overwritten, whatever it held. *)
Definition InitAllFecFunction (T : fec_tables) : fec_tables :=
  {| Hamming_7_4_m_corr := Hamming_7_4_init;
     Hamming_12_8_m_corr := Hamming_12_8_init;
     Hamming_13_9_m_corr := Hamming_13_9_init;
     Hamming_15_11_m_corr := Hamming_15_11_init;
     Hamming_16_11_4_m_corr := Hamming_16_11_4_init;
     Golay_20_8_m_corr := Golay_20_8_init;
     Golay_24_12_m_corr := Golay_24_12_init;
     QR_16_7_6_m_corr := QR_16_7_6_init |}.

(** ** Decoders *)

(** The correction step of a Hamming decoder on the codeword at [base]; [None]
    when the table has no position for the syndrome. *)
Definition hamming_correct (H : list Z) (n r : nat) (corr : list Z) (rx : list Z) (base : nat)
  : option (list Z) :=
  let s := syndrome H n r rx base in
  if 0 <? s then
    if corr.[Z.to_nat s] =? 255 then None
    else Some (flip rx (base + Z.to_nat (corr.[Z.to_nat s])))
  else Some rx.

Definition Hamming_7_4_decode (T : fec_tables) (rxBits : list Z) : list Z * bool :=
  match hamming_correct Hamming_7_4_m_H 7 3 (Hamming_7_4_m_corr T) rxBits 0 with
  | Some rx => (rx, true)
  | None => (rxBits, false)
  end.

(** [memcpy(&decodedBits[ic * k], &rxBits[ic * n], k)]. *)
Definition move_info (n k ic : nat) (rx dec : list Z) : list Z :=
  blit dec (ic * k) (take k (drop (ic * n) rx)).

(** Hamming (12,8) goes on after an uncorrectable codeword and copies its
    information bits all the same. *)
Definition Hamming_12_8_decode (T : fec_tables) (rxBits decodedBits : list Z) (nbCodewords : nat)
  : list Z * list Z * bool :=
  for_ 0 nbCodewords (fun ic '(rx, dec, correctable) =>
    match hamming_correct Hamming_12_8_m_H 12 4 (Hamming_12_8_m_corr T) rx (12 * ic) with
    | None => (rx, move_info 12 8 ic rx dec, false)
    | Some rx => (rx, move_info 12 8 ic rx dec, correctable)
    end) (rxBits, decodedBits, true).

(** The other decoders stop at the first uncorrectable codeword, before its
    information bits are copied; [decodedBits] may be [NULL]. *)
Fixpoint hamming_decode_from (H : list Z) (n k r : nat) (corr : list Z)
    (todo ic : nat) (rx : list Z) (dec : option (list Z)) : list Z * option (list Z) * bool :=
  match todo with
  | O => (rx, dec, true)
  | S todo =>
      match hamming_correct H n r corr rx (n * ic) with
      | None => (rx, dec, false)
      | Some rx =>
          hamming_decode_from H n k r corr todo (S ic) rx (option_map (move_info n k ic rx) dec)
      end
  end.

Definition Hamming_13_9_decode (T : fec_tables) (rxBits : list Z) (decodedBits : option (list Z))
  (nbCodewords : nat) : list Z * option (list Z) * bool :=
  hamming_decode_from Hamming_13_9_m_H 13 9 4 (Hamming_13_9_m_corr T) nbCodewords 0 rxBits decodedBits.

Definition Hamming_15_11_decode (T : fec_tables) (rxBits : list Z) (decodedBits : option (list Z))
  (nbCodewords : nat) : list Z * option (list Z) * bool :=
  hamming_decode_from Hamming_15_11_m_H 15 11 4 (Hamming_15_11_m_corr T) nbCodewords 0 rxBits decodedBits.

Definition Hamming_16_11_4_decode (T : fec_tables) (rxBits : list Z) (decodedBits : option (list Z))
  (nbCodewords : nat) : list Z * option (list Z) * bool :=
  hamming_decode_from Hamming_16_11_4_m_H 16 11 5 (Hamming_16_11_4_m_corr T) nbCodewords 0 rxBits decodedBits.

(** [for (; i < width; i++) if (row[i] == 0xFF) break; else rxBits[row[i]] ^= 1;]
    Returns the bits and the final [i]. *)
Fixpoint flip_row (row : list Z) (rx : list Z) : list Z * nat :=
  match row with
  | [] => (rx, O)
  | p :: row =>
      if p =? 255 then (rx, O)
      else let '(rx, i) := flip_row row (flip rx (Z.to_nat p)) in (rx, S i)
  end.

Definition Golay_20_8_decode (T : fec_tables) (rxBits : list Z) : list Z * bool :=
  let s := syndrome Golay_20_8_m_H 20 12 rxBits 0 in
  if 0 <? s then
    let '(rx, i) := flip_row (corr_row (Golay_20_8_m_corr T) s) rxBits in
    if (i =? 0)%nat then (rx, false) else if (2 <? i)%nat then (rx, false) else (rx, true)
  else (rxBits, true).

(** [encodedBits] is a byte array: the sums are taken modulo 256. *)
Definition Golay_24_12_encode (origBits : list Z) : list Z :=
  let encoded := replicate 24 0 in
  let encoded := for_ 0 12 (fun i e =>
    for_ 0 24 (fun j e =>
      e.[j <- u8 (e.[j] + origBits.[i] * Golay_24_12_m_G.[(24 * i + j)%nat])]) e) encoded in
  for_ 0 24 (fun i e => e.[i <- e.[i] mod 2]) encoded.

Definition Golay_24_12_decode (T : fec_tables) (rxBits : list Z) : list Z * bool :=
  let s := syndrome Golay_24_12_m_H 24 12 rxBits 0 in
  if 0 <? s then
    let '(rx, i) := flip_row (corr_row (Golay_24_12_m_corr T) s) rxBits in
    if (i =? 0)%nat then (rx, false) else (rx, true)
  else (rxBits, true).

Definition QR_16_7_6_decode (T : fec_tables) (rxBits : list Z) : list Z * bool :=
  let s := syndrome QR_16_7_6_m_H 16 9 rxBits 0 in
  if 0 <? s then
    let '(rx, i) := flip_row (corr_row (QR_16_7_6_m_corr T) s) rxBits in
    if (i =? 0)%nat then (rx, false) else (rx, true)
  else (rxBits, true).

(** ** Table checks

    What a table must satisfy, decided on the finite list of error patterns. *)

Fixpoint row_positions (row : list Z) : list nat :=
  match row with
  | [] => []
  | p :: row => if p =? 255 then [] else Z.to_nat p :: row_positions row
  end.

Lemma flip_row_spec row rx :
  flip_row row rx = (flips (row_positions row) rx, length (row_positions row)).
Proof.
  revert rx. induction row as [|p row IH]; intros rx; cbn; [done|].
  destruct (p =? 255); [done|]. by rewrite IH.
Qed.

(** The row of every correctable pattern lists exactly that pattern. *)
Definition rows_chk (t : corr_rows) (e : list nat) (s : Z) : bool :=
  if 0 <? s then bool_decide (row_positions (corr_row t s) = e) else bool_decide (e = []).

Lemma rows_chk_decode H n r k t c rx :
  check_patterns H n r k (rows_chk t) = true -> bits H -> codeword H n r c -> within k c rx ->
  let s := syndrome H n r rx 0 in
  if 0 <? s then exists i, flip_row (corr_row t s) rx = (c, S i) /\ (S i <= k)%nat else rx = c.
Proof.
  intros Hchk HH Hc Hw s. pose proof Hw as (Hl & Hb & Hd).
  destruct (check_patterns_spec _ _ _ _ _ _ _ Hchk HH Hc Hw) as [Hrow Hrx].
  fold s in Hrow. unfold rows_chk in Hrow.
  destruct (0 <? s) eqn:Hs; apply bool_decide_eq_true in Hrow.
  - rewrite flip_row_spec, Hrow, flips_diff_back by (done || apply Hc).
    unfold hamming_dist in Hd. destruct (diff c rx) as [|p e] eqn:He; [exfalso|by exists (length e)].
    cbn in Hrx. subst rx. destruct Hc as (_ & _ & Hc). unfold s in Hs. rewrite Hc in Hs. done.
  - by rewrite Hrow in Hrx.
Qed.

(** A single-error table maps the syndrome of each position to that position. *)
Definition single_chk (corr : list Z) (e : list nat) (s : Z) : bool :=
  if 0 <? s then negb (corr.[Z.to_nat s] =? 255) && bool_decide (e = [Z.to_nat (corr.[Z.to_nat s])])
  else bool_decide (e = []).

Lemma single_chk_correct H n r corr c rx :
  check_patterns H n r 1 (single_chk corr) = true -> bits H -> codeword H n r c -> within 1 c rx ->
  hamming_correct H n r corr rx 0 = Some c.
Proof.
  intros Hchk HH Hc Hw. pose proof Hw as (Hl & Hb & Hd).
  destruct (check_patterns_spec _ _ _ _ _ _ _ Hchk HH Hc Hw) as [Hrow Hrx].
  unfold single_chk in Hrow. unfold hamming_correct.
  set (s := syndrome H n r rx 0) in *. destruct (0 <? s) eqn:Hs.
  - apply andb_true_iff in Hrow as [H255 Hp]. apply negb_true_iff in H255. rewrite H255.
    apply bool_decide_eq_true in Hp. f_equal. cbn [Nat.add].
    change (flip rx (Z.to_nat (corr.[Z.to_nat s]))) with (flips [Z.to_nat (corr.[Z.to_nat s])] rx).
    rewrite <- Hp. apply flips_diff_back; done || apply Hc.
  - apply bool_decide_eq_true in Hrow. rewrite Hrow in Hrx. by subst rx.
Qed.

(** ** Matrices are bits, tables pass their checks *)

Lemma Hamming_7_4_H_bits : bits Hamming_7_4_m_H. Proof. by_decide. Qed.
Lemma Hamming_12_8_H_bits : bits Hamming_12_8_m_H. Proof. by_decide. Qed.
Lemma Hamming_13_9_H_bits : bits Hamming_13_9_m_H. Proof. by_decide. Qed.
Lemma Hamming_15_11_H_bits : bits Hamming_15_11_m_H. Proof. by_decide. Qed.
Lemma Hamming_16_11_4_H_bits : bits Hamming_16_11_4_m_H. Proof. by_decide. Qed.
Lemma Golay_20_8_H_bits : bits Golay_20_8_m_H. Proof. by_decide. Qed.
Lemma Golay_24_12_H_bits : bits Golay_24_12_m_H. Proof. by_decide. Qed.
Lemma Golay_24_12_G_bits : bits Golay_24_12_m_G. Proof. by_decide. Qed.
Lemma QR_16_7_6_H_bits : bits QR_16_7_6_m_H. Proof. by_decide. Qed.

#[export] Hint Resolve Hamming_7_4_H_bits Hamming_12_8_H_bits Hamming_13_9_H_bits
  Hamming_15_11_H_bits Hamming_16_11_4_H_bits Golay_20_8_H_bits Golay_24_12_H_bits
  Golay_24_12_G_bits QR_16_7_6_H_bits : dsd.

Lemma Hamming_7_4_table :
  check_patterns Hamming_7_4_m_H 7 3 1 (single_chk Hamming_7_4_init) = true.
Proof. by vm_compute. Qed.
Lemma Hamming_12_8_table :
  check_patterns Hamming_12_8_m_H 12 4 1 (single_chk Hamming_12_8_init) = true.
Proof. by vm_compute. Qed.
Lemma Hamming_13_9_table :
  check_patterns Hamming_13_9_m_H 13 4 1 (single_chk Hamming_13_9_init) = true.
Proof. by vm_compute. Qed.
Lemma Hamming_15_11_table :
  check_patterns Hamming_15_11_m_H 15 4 1 (single_chk Hamming_15_11_init) = true.
Proof. by vm_compute. Qed.
Lemma Hamming_16_11_4_table :
  check_patterns Hamming_16_11_4_m_H 16 5 1 (single_chk Hamming_16_11_4_init) = true.
Proof. by vm_compute. Qed.
Lemma Golay_24_12_table :
  check_patterns Golay_24_12_m_H 24 12 3 (rows_chk Golay_24_12_init) = true.
Proof. by vm_compute. Qed.
Lemma QR_16_7_6_table :
  check_patterns QR_16_7_6_m_H 16 9 2 (rows_chk QR_16_7_6_init) = true.
Proof. by vm_compute. Qed.

(** Golay (20,8): patterns of at most two errors are listed, and the row of
    every pattern of three errors lists three positions (perhaps others). *)
Definition golay_20_chk (e : list nat) (s : Z) : bool :=
  if (length e <=? 2)%nat then rows_chk Golay_20_8_init e s
  else (0 <? s) && (length (row_positions (corr_row Golay_20_8_init s)) =? 3)%nat.

Lemma Golay_20_8_table : check_patterns Golay_20_8_m_H 20 12 3 golay_20_chk = true.
Proof. by vm_compute. Qed.

(** Hamming (16,11,4): the syndrome of two errors is not in the table. *)
Definition double_chk (corr : list Z) (e : list nat) (s : Z) : bool :=
  if (length e =? 2)%nat then (0 <? s) && (corr.[Z.to_nat s] =? 255) else true.

Lemma Hamming_16_11_4_doubles :
  check_patterns Hamming_16_11_4_m_H 16 5 2 (double_chk Hamming_16_11_4_init) = true.
Proof. by vm_compute. Qed.

Lemma Golay_24_12_orthogonal : orthogonal Golay_24_12_m_G Golay_24_12_m_H 12 24 12 = true.
Proof. by vm_compute. Qed.

#[global] Opaque Golay_20_8_init Golay_24_12_init QR_16_7_6_init syndrome.

(** ** Several codewords in one buffer *)

Lemma flip_app pre rx post i :
  (i < length rx)%nat -> flip (pre ++ rx ++ post) (length pre + i) = pre ++ flip rx i ++ post.
Proof.
  intros Hi. unfold flip. rewrite insert_app_r, insert_app_l by done. do 4 f_equal.
  rewrite app_nth2_plus, app_nth1 by done. done.
Qed.

Lemma hamming_correct_app H n r corr pre rx post c base :
  length rx = n -> length pre = base -> hamming_correct H n r corr rx 0 = Some c ->
  (forall s, 0 < s < 2 ^ Z.of_nat r -> (Z.to_nat (corr.[Z.to_nat s]) < n)%nat \/ corr.[Z.to_nat s] = 255) ->
  hamming_correct H n r corr (pre ++ rx ++ post) base = Some (pre ++ c ++ post).
Proof.
  intros Hl Hp Hc Hr. unfold hamming_correct in *. rewrite syndrome_base.
  rewrite drop_app_length' by done. rewrite take_app_length' by done.
  set (s := syndrome H n r rx 0) in *. destruct (0 <? s) eqn:Hs; [|by injection Hc as <-].
  destruct (_ =? 255) eqn:H255; [done|]. injection Hc as <-. rewrite <- Hp, flip_app; [done|].
  pose proof (syndrome_bound H n r rx 0) as Hb. fold s in Hb. destruct (Hr s); lia.
Qed.

Lemma move_info_app n k ic rpre c rpost dpre d dpost :
  length rpre = (ic * n)%nat -> length dpre = (ic * k)%nat -> length c = n -> (k <= n)%nat ->
  length d = k ->
  move_info n k ic (rpre ++ c ++ rpost) (dpre ++ d ++ dpost) = dpre ++ take k c ++ dpost.
Proof.
  intros Hr Hd Hc Hk Hl. unfold move_info, blit.
  rewrite drop_app_length' by done.
  rewrite (take_app_length' dpre) by done. rewrite take_app_le by lia. f_equal. f_equal.
  rewrite length_take, Nat.min_l by lia. rewrite app_assoc, drop_app_length'; [done|]. len.
Qed.

(** The range of a Hamming table. *)
Definition table_range (n r : nat) (corr : list Z) : bool :=
  forallb (fun s => (Z.to_nat (corr.[s]) <? n)%nat || (corr.[s] =? 255)) (seq 1 (2 ^ r - 1)).

Lemma table_range_spec n r corr s :
  table_range n r corr = true -> 0 < s < 2 ^ Z.of_nat r ->
  (Z.to_nat (corr.[Z.to_nat s]) < n)%nat \/ corr.[Z.to_nat s] = 255.
Proof.
  intros Ht Hs. unfold table_range in Ht. rewrite forallb_forall in Ht.
  specialize (Ht (Z.to_nat s)). rewrite in_seq, orb_true_iff, Nat.ltb_lt, Z.eqb_eq in Ht. apply Ht.
  assert (Z.of_nat (2 ^ r) = 2 ^ Z.of_nat r) by apply Nat2Z.inj_pow. lia.
Qed.

Section Blocks.
Context (H : list Z) (n k r : nat) (corr : list Z).
Hypothesis H_bits : bits H.
Hypothesis corr_ok : check_patterns H n r 1 (single_chk corr) = true.
Hypothesis corr_range : table_range n r corr = true.
Hypothesis k_le_n : (k <= n)%nat.

(** One codeword inside a longer buffer. *)
Lemma block_correct pre rx post c ic :
  codeword H n r c -> within 1 c rx -> length pre = (n * ic)%nat ->
  hamming_correct H n r corr (pre ++ rx ++ post) (n * ic) = Some (pre ++ c ++ post).
Proof.
  intros Hc Hw Hp. apply hamming_correct_app; [|done| |].
  - destruct Hw as [-> _], Hc as [Hc _]. done.
  - by apply single_chk_correct.
  - intros. by apply table_range_spec with r.
Qed.

Lemma hamming_decode_from_spec cs rxs pre dpre dec ic :
  Forall2 (within 1) cs rxs -> Forall (codeword H n r) cs ->
  length pre = (n * ic)%nat -> length dpre = (ic * k)%nat -> (length cs * k <= length dec)%nat ->
  hamming_decode_from H n k r corr (length cs) ic (pre ++ concat rxs) (Some (dpre ++ dec))
  = (pre ++ concat cs, Some (dpre ++ concat (map (take k) cs) ++ drop (length cs * k) dec), true).
Proof.
  intros Hw. revert pre dpre dec ic.
  induction Hw as [|c rx cs rxs Hw1 Hw IH]; intros pre dpre dec ic Hc Hp Hd Hl.
  { by rewrite !app_nil_r, drop_0. }
  apply Forall_cons in Hc as [Hc1 Hc]. cbn -[move_info].
  rewrite (block_correct pre rx _ c) by done. cbn -[move_info].
  cbn in Hl. rewrite <- (take_drop k dec) at 1.
  rewrite move_info_app; [|rewrite Hp; lia|done|apply Hc1|done|len].
  rewrite (app_assoc pre), (app_assoc dpre), IH; [|done| | |].
  - by rewrite <- !app_assoc, drop_drop.
  - destruct Hc1 as [Hc1 _]. len.
  - destruct Hc1 as [Hc1 _]. len.
  - len.
Qed.
End Blocks.

(** The same for Hamming (12,8), whose loop never stops early. *)
Lemma Hamming_12_8_blocks T cs rxs dec :
  Hamming_12_8_m_corr T = Hamming_12_8_init ->
  Forall2 (within 1) cs rxs -> Forall (codeword Hamming_12_8_m_H 12 4) cs ->
  (length cs * 8 <= length dec)%nat ->
  Hamming_12_8_decode T (concat rxs) dec (length cs)
  = (concat cs, concat (map (take 8) cs) ++ drop (length cs * 8) dec, true).
Proof.
  intros HT Hw Hc Hl. unfold Hamming_12_8_decode. rewrite HT.
  assert (Hlen : length rxs = length cs) by (symmetry; by eapply Forall2_length).
  enough (forall m, (m <= length cs)%nat ->
    for_ 0 m (fun ic '(rx, dec, correctable) =>
      match hamming_correct Hamming_12_8_m_H 12 4 Hamming_12_8_init rx (12 * ic) with
      | None => (rx, move_info 12 8 ic rx dec, false)
      | Some rx => (rx, move_info 12 8 ic rx dec, correctable)
      end) (concat rxs, dec, true)
    = (concat (take m cs) ++ concat (drop m rxs), concat (map (take 8) (take m cs)) ++ drop (m * 8) dec, true)) as E.
  { rewrite E by lia. rewrite firstn_all, drop_ge by lia. by rewrite app_nil_r. }
  intros m. induction m as [|m IH]; intros Hm; [by rewrite for_nil by lia|].
  rewrite for_S, IH by lia.
  destruct (lookup_lt_is_Some_2 cs m ltac:(lia)) as [c Hcm].
  destruct (lookup_lt_is_Some_2 rxs m ltac:(lia)) as [rx Hrm].
  assert (Hc1 : codeword Hamming_12_8_m_H 12 4 c) by by eapply Forall_lookup_1.
  assert (Hw1 : within 1 c rx) by by eapply Forall2_lookup_lr.
  assert (Hlens : forall p, (p <= length cs)%nat -> length (concat (take p cs)) = (12 * p)%nat /\
    length (concat (map (take 8) (take p cs))) = (8 * p)%nat).
  { clear -Hc. intros p. revert cs Hc. induction p as [|p IH]; intros cs Hc Hp; [done|].
    destruct cs as [|c cs]; [cbn in Hp; lia|]. apply Forall_cons in Hc as [[Hc1 _] Hc].
    destruct (IH cs) as [IH1 IH2]; [done|cbn in Hp; lia|]. cbn. len. }
  destruct (Hlens m) as [Hl1 Hl2]; [lia|].
  rewrite (drop_S rxs rx m) by done. cbn [concat].
  rewrite (hamming_correct_app _ 12 4 _ _ rx _ c); [| | |by apply single_chk_correct; auto using Hamming_12_8_table, Hamming_12_8_H_bits|].
  - rewrite (take_S_r cs m c) by done. rewrite map_app, !concat_app. cbn. rewrite !app_nil_r.
    rewrite <- (take_drop 8 (drop (m * 8) dec)).
    rewrite move_info_app; [|lia|lia|apply Hc1|lia|rewrite length_take, length_drop; lia].
    rewrite <- !app_assoc, drop_drop. do 3 f_equal. do 2 f_equal. lia.
  - destruct Hc1 as [Hc1 _]. destruct Hw1 as [-> _]. done.
  - lia.
  - intros. by apply table_range_spec with 4%nat.
Qed.

(** ** The Golay (24,12) encoder *)

Lemma sum_bits_bound n f : (forall i, (i < n)%nat -> is_bit (f i)) -> 0 <= sum_upto n f <= Z.of_nat n.
Proof.
  induction n as [|n IH]; intros H; [done|]. rewrite sum_upto_S.
  destruct IH; [by intros; apply H; lia|]. destruct (H n ltac:(lia)) as [-> | ->]; lia.
Qed.

Lemma is_bit_mul a b : is_bit a -> is_bit b -> is_bit (a * b).
Proof. intros [-> | ->] [-> | ->]; cbn; unfold is_bit; auto. Qed.

Lemma Golay_24_12_encode_spec d :
  bits d ->
  length (Golay_24_12_encode d) = 24%nat /\
  forall j, (j < 24)%nat ->
    (Golay_24_12_encode d).[j] = sum_upto 12 (fun i => d.[i] * Golay_24_12_m_G.[(24 * i + j)%nat]) mod 2.
Proof.
  intros Hd. unfold Golay_24_12_encode.
  set (step := fun i e => for_ 0 24 _ e).
  assert (Hinv : forall m, (m <= 12)%nat ->
    length (for_ 0 m step (replicate 24 0)) = 24%nat /\
    forall j, (j < 24)%nat -> (for_ 0 m step (replicate 24 0)).[j]
      = sum_upto m (fun i => d.[i] * Golay_24_12_m_G.[(24 * i + j)%nat])).
  { intros m. induction m as [|m IH]; intros Hm.
    - split; [done|]. intros j Hj. rewrite for_nil by lia. rewrite nth_lookup, lookup_replicate_2; [reflexivity|exact Hj].
    - destruct IH as [IHl IH]; [lia|]. rewrite for_S by lia.
      destruct (for_update 24 (fun j x => u8 (x + d.[m] * Golay_24_12_m_G.[(24 * m + j)%nat]))
        (for_ 0 m step (replicate 24 0))) as [Hul Hu]; [lia|].
      unfold step at 1 3. split; [by rewrite Hul|]. intros j Hj. rewrite Hu.
      destruct (decide (j < 24)%nat); [|done]. rewrite sum_upto_S, IH by done.
      rewrite <- sum_upto_S. unfold u8, wrap. apply Z.mod_small.
      enough (0 <= sum_upto (S m) (fun i => d.[i] * Golay_24_12_m_G.[(24 * i + j)%nat]) <= Z.of_nat (S m))
        by (rewrite sum_upto_S in *; lia).
      apply sum_bits_bound. intros. apply is_bit_mul; auto with dsd. }
  destruct (Hinv 12%nat) as [Hl Hn]; [lia|].
  destruct (for_update 24 (fun _ x => x mod 2) (for_ 0 12 step (replicate 24 0))) as [Hul Hu]; [lia|].
  split; [rewrite Hul; exact Hl|]. intros j Hj. rewrite Hu, Hn by exact Hj.
  destruct (decide (j < 24)%nat) as [_|Hn24]; [reflexivity|by destruct Hn24].
Qed.

Lemma Golay_24_12_encode_codeword d :
  bits d -> codeword Golay_24_12_m_H 24 12 (Golay_24_12_encode d).
Proof.
  intros Hd. destruct (Golay_24_12_encode_spec d Hd) as [Hl Hn]. refine (conj Hl (conj _ _)).
  - apply (Forall_nth is_bit 0). intros j Hj. rewrite Hl in Hj. rewrite Hn by done. auto with dsd.
  - by apply (syndrome_generated Golay_24_12_m_G _ 12 24 12 d); [apply Golay_24_12_orthogonal| |].
Qed.

(** The first twelve bits are the message. *)
Definition systematic (G : list Z) (k n : nat) : bool :=
  forallb (fun i => forallb (fun j => G.[(n * i + j)%nat] =? (if (i =? j)%nat then 1 else 0)) (seq 0 k)) (seq 0 k).

Lemma systematic_spec G k n i j :
  systematic G k n = true -> (i < k)%nat -> (j < k)%nat ->
  G.[(n * i + j)%nat] = if (i =? j)%nat then 1 else 0.
Proof.
  intros Hs Hi Hj. unfold systematic in Hs. rewrite forallb_forall in Hs. specialize (Hs i).
  rewrite in_seq, forallb_forall in Hs. specialize (Hs ltac:(lia) j).
  rewrite in_seq, Z.eqb_eq in Hs. apply Hs. lia.
Qed.

Lemma Golay_24_12_systematic : systematic Golay_24_12_m_G 12 24 = true.
Proof. by vm_compute. Qed.

Lemma Golay_24_12_encode_systematic d :
  bits d -> length d = 12%nat -> take 12 (Golay_24_12_encode d) = d.
Proof.
  intros Hd Hl. destruct (Golay_24_12_encode_spec d Hd) as [Hle Hn].
  apply list_eq_nth; [len|]. intros j Hj. rewrite length_take, Hle in Hj.
  rewrite <- (drop_0 (Golay_24_12_encode d)), drop_take_nth by lia. cbn [Nat.add].
  rewrite Hn by lia. rewrite (sum_upto_single 12 j); [|lia|].
  - rewrite (systematic_spec _ 12), Nat.eqb_refl, Z.mul_1_r by (apply Golay_24_12_systematic || lia).
    by destruct (bits_nth _ j Hd) as [-> | ->].
  - intros i Hi Hne. rewrite (systematic_spec _ 12) by (apply Golay_24_12_systematic || lia).
    destruct (Nat.eqb_spec i j); [contradiction|lia].
Qed.

(** ** Correctness of the decoders *)

(** The statics before [InitAllFecFunction] ran: zero. *)
Definition fec_zero : fec_tables :=
  {| Hamming_7_4_m_corr := replicate 8 0; Hamming_12_8_m_corr := replicate 16 0;
     Hamming_13_9_m_corr := replicate 16 0; Hamming_15_11_m_corr := replicate 16 0;
     Hamming_16_11_4_m_corr := replicate 32 0; Golay_20_8_m_corr := rows_clear 3;
     Golay_24_12_m_corr := rows_clear 3; QR_16_7_6_m_corr := rows_clear 2 |}.

Lemma Golay_24_12_decode_within (T0 : fec_tables) (d rx : list Z) :
  bits d -> within 3 (Golay_24_12_encode d) rx ->
  Golay_24_12_decode (InitAllFecFunction T0) rx = (Golay_24_12_encode d, true).
Proof.
  intros Hd Hw.
  pose proof (rows_chk_decode _ _ _ _ _ _ _ Golay_24_12_table Golay_24_12_H_bits
                (Golay_24_12_encode_codeword d Hd) Hw) as Hr. cbv zeta in Hr.
  unfold Golay_24_12_decode. cbn [Golay_24_12_m_corr InitAllFecFunction].
  destruct (0 <? _); [|by subst rx]. by destruct Hr as (i & -> & _).
Qed.

(** C22: the Golay (24,12) encoder is systematic and, once the tables are
    initialised, any word within three bit errors of an encoded message is
    decoded, with success reported, to exactly the transmitted codeword. *)
Theorem Golay_24_12_corrects (T0 : fec_tables) (d rx : list Z) :
  bits d -> length d = 12%nat -> within 3 (Golay_24_12_encode d) rx ->
  Golay_24_12_decode (InitAllFecFunction T0) rx = (Golay_24_12_encode d, true) /\
  take 12 (Golay_24_12_encode d) = d.
Proof.
  intros Hd Hl Hw. split; [by apply Golay_24_12_decode_within|by apply Golay_24_12_encode_systematic].
Qed.

Lemma Golay_24_12_corrects_witness :
  let d := [1; 0; 1; 1; 0; 0; 1; 0; 1; 1; 1; 0] in
  let rx := flips [0; 13; 23]%nat (Golay_24_12_encode d) in
  Golay_24_12_decode (InitAllFecFunction fec_zero) rx = (Golay_24_12_encode d, true) /\
  take 12 (Golay_24_12_encode d) = d.
Proof. apply Golay_24_12_corrects; by_decide. Defined.

(** Golay (20,8) corrects every word within two bit errors of a codeword
    and rejects every word exactly three bit errors away from one. *)
Theorem Golay_20_8_corrects_two_rejects_three (T0 : fec_tables) (c rx : list Z) :
  codeword Golay_20_8_m_H 20 12 c -> within 3 c rx ->
  (hamming_dist c rx <= 2 -> Golay_20_8_decode (InitAllFecFunction T0) rx = (c, true))%nat /\
  (hamming_dist c rx = 3 -> snd (Golay_20_8_decode (InitAllFecFunction T0) rx) = false)%nat.
Proof.
  intros Hc Hw. pose proof Hw as (Hl & Hb & Hd).
  destruct (check_patterns_spec _ _ _ _ _ _ _ Golay_20_8_table Golay_20_8_H_bits Hc Hw) as [Hrow Hrx].
  unfold Golay_20_8_decode. cbn [Golay_20_8_m_corr InitAllFecFunction].
  assert (H0 : diff c rx = [] -> syndrome Golay_20_8_m_H 20 12 rx 0 = 0).
  { intros E. rewrite E in Hrx. cbn in Hrx. subst rx. apply Hc. }
  destruct Hc as (Hlc & Hbc & _).
  revert Hrow H0. generalize (syndrome Golay_20_8_m_H 20 12 rx 0) as s. intros s Hrow H0.
  unfold golay_20_chk, rows_chk in Hrow. rewrite flip_row_spec.
  unfold hamming_dist. split; intros H2.
  - apply Nat.leb_le in H2 as H2'. rewrite H2' in Hrow. destruct (0 <? s) eqn:Hs; apply bool_decide_eq_true in Hrow.
    + rewrite Hrow, flips_diff_back by assumption.
      destruct (diff c rx) as [|p [|q [|? ?]]]; [|reflexivity|reflexivity|discriminate H2'].
      rewrite H0 in Hs by reflexivity. discriminate Hs.
    + rewrite Hrow in Hrx. by rewrite Hrx.
  - rewrite H2 in Hrow. apply andb_true_iff in Hrow as [-> H3]. apply Nat.eqb_eq in H3. by rewrite H3.
Qed.

Lemma Golay_20_8_corrects_two_rejects_three_witness :
  let c := replicate 20 0 in
  Golay_20_8_decode (InitAllFecFunction fec_zero) (flips [1; 17]%nat c) = (c, true) /\
  snd (Golay_20_8_decode (InitAllFecFunction fec_zero) (flips [1; 4; 17]%nat c)) = false.
Proof.
  split; eapply (Golay_20_8_corrects_two_rejects_three fec_zero (replicate 20 0)); by_decide.
Defined.

(** QR (16,7,6) corrects every word within two bit errors of a codeword,
    and Hamming (7,4) every word within one. *)
Theorem QR_and_Hamming_7_4_correct (T0 : fec_tables) (c rx : list Z) :
  (codeword QR_16_7_6_m_H 16 9 c -> within 2 c rx ->
   QR_16_7_6_decode (InitAllFecFunction T0) rx = (c, true)) /\
  (codeword Hamming_7_4_m_H 7 3 c -> within 1 c rx ->
   Hamming_7_4_decode (InitAllFecFunction T0) rx = (c, true)).
Proof.
  split; intros Hc Hw.
  - pose proof (rows_chk_decode _ _ _ _ _ _ _ QR_16_7_6_table QR_16_7_6_H_bits Hc Hw) as Hr. cbv zeta in Hr.
    unfold QR_16_7_6_decode. cbn [QR_16_7_6_m_corr InitAllFecFunction].
    destruct (0 <? _); [|by subst rx]. by destruct Hr as (i & -> & _).
  - unfold Hamming_7_4_decode. cbn [Hamming_7_4_m_corr InitAllFecFunction].
    by rewrite (single_chk_correct _ _ _ _ _ _ Hamming_7_4_table Hamming_7_4_H_bits Hc Hw).
Qed.

Lemma QR_and_Hamming_7_4_correct_witness :
  QR_16_7_6_decode (InitAllFecFunction fec_zero) (flips [3; 12]%nat (replicate 16 0)) = (replicate 16 0, true) /\
  Hamming_7_4_decode (InitAllFecFunction fec_zero) (flips [6]%nat (replicate 7 0)) = (replicate 7 0, true).
Proof.
  split.
  - refine (proj1 (QR_and_Hamming_7_4_correct fec_zero _ _) _ _); by_decide.
  - refine (proj2 (QR_and_Hamming_7_4_correct fec_zero _ _) _ _); by_decide.
Defined.

(** The multi-codeword Hamming decoders: when every block of [rxBits] is
    within one bit error of a codeword, the buffer is corrected to those
    codewords, success is reported, and [decodedBits] receives exactly their
    information bits, one after the other, and nothing else changes. *)
Theorem Hamming_blocks_correct (T0 : fec_tables) (cs rxs : list (list Z)) (dec : list Z) :
  let T := InitAllFecFunction T0 in
  let nb := length cs in
  let out k := concat (map (take k) cs) ++ drop (nb * k) dec in
  Forall2 (within 1) cs rxs -> (nb * 11 <= length dec)%nat ->
  (Forall (codeword Hamming_12_8_m_H 12 4) cs ->
   Hamming_12_8_decode T (concat rxs) dec nb = (concat cs, out 8%nat, true)) /\
  (Forall (codeword Hamming_13_9_m_H 13 4) cs ->
   Hamming_13_9_decode T (concat rxs) (Some dec) nb = (concat cs, Some (out 9%nat), true)) /\
  (Forall (codeword Hamming_15_11_m_H 15 4) cs ->
   Hamming_15_11_decode T (concat rxs) (Some dec) nb = (concat cs, Some (out 11%nat), true)) /\
  (Forall (codeword Hamming_16_11_4_m_H 16 5) cs ->
   Hamming_16_11_4_decode T (concat rxs) (Some dec) nb = (concat cs, Some (out 11%nat), true)).
Proof.
  intros T nb out Hw Hdec. repeat split; intros Hc.
  - apply Hamming_12_8_blocks; try done. lia.
  - apply (hamming_decode_from_spec _ 13 9 4 Hamming_13_9_init Hamming_13_9_H_bits Hamming_13_9_table
             eq_refl ltac:(lia) cs rxs [] [] dec 0); try done. lia.
  - apply (hamming_decode_from_spec _ 15 11 4 Hamming_15_11_init Hamming_15_11_H_bits Hamming_15_11_table
             eq_refl ltac:(lia) cs rxs [] [] dec 0); try done.
  - apply (hamming_decode_from_spec _ 16 11 5 Hamming_16_11_4_init Hamming_16_11_4_H_bits Hamming_16_11_4_table
             eq_refl ltac:(lia) cs rxs [] [] dec 0); try done.
Qed.

Lemma Hamming_blocks_correct_witness :
  let c := replicate 15 1 in
  Hamming_15_11_decode (InitAllFecFunction fec_zero) (flip c 4 ++ c) (Some (replicate 22 0)) 2
  = (c ++ c, Some (replicate 22 1), true).
Proof.
  refine (proj1 (proj2 (proj2 (Hamming_blocks_correct fec_zero [replicate 15 1; replicate 15 1]
    [flip (replicate 15 1) 4; replicate 15 1] (replicate 22 0) _ _))) _); by_decide.
Defined.

(** Hamming (16,11,4) detects every double error: the decoder reports
    failure and changes neither the received bits nor the output buffer. *)
Theorem Hamming_16_11_4_detects_two (T0 : fec_tables) (c rx : list Z) (dec : option (list Z)) :
  codeword Hamming_16_11_4_m_H 16 5 c -> within 2 c rx -> hamming_dist c rx = 2%nat ->
  Hamming_16_11_4_decode (InitAllFecFunction T0) rx dec 1 = (rx, dec, false).
Proof.
  intros Hc Hw H2.
  destruct (check_patterns_spec _ _ _ _ _ _ _ Hamming_16_11_4_doubles Hamming_16_11_4_H_bits Hc Hw)
    as [Hrow _].
  unfold double_chk in Hrow. unfold hamming_dist in H2. rewrite H2 in Hrow. cbn [Nat.eqb] in Hrow.
  apply andb_true_iff in Hrow as [Hs Hcorr].
  unfold Hamming_16_11_4_decode. cbn [hamming_decode_from Hamming_16_11_4_m_corr InitAllFecFunction].
  unfold hamming_correct. change (16 * 0)%nat with 0%nat. by rewrite Hs, Hcorr.
Qed.

Lemma Hamming_16_11_4_detects_two_witness :
  let rx := flips [2; 9]%nat (replicate 16 0) in
  Hamming_16_11_4_decode (InitAllFecFunction fec_zero) rx None 1 = (rx, None, false).
Proof. apply (Hamming_16_11_4_detects_two fec_zero (replicate 16 0)); by_decide. Defined.
