(* ===== verification/Bptc.v ===== *)
(** * [fec/bptc.c]: block product turbo codes of DMR

    The (196,96) product code (Hamming (15,11) rows, Hamming (13,9) columns),
    the (128,77) code (Hamming (16,11,4) rows and a parity row) and the (16x2)
    reverse channel code.  A matrix is its bytes in memory order, row by row.

    A Hamming decoder that fails leaves its output buffer as it was; the
    buffers of the C functions are locals that live across the iterations of
    their loop and start uninitialised, here an argument [junk].  The decoders
    of the (196,96) and (16x2) codes copy the buffer back all the same. *)
From S2P Require Import Prelude LinearCode BlockCodes.

Definition BPTCDeInterleavingIndex : list nat :=
  [0; 13; 26; 39; 52; 65; 78; 91; 104; 117; 130; 143; 156; 169; 182; 195; 12; 25; 38; 51; 64; 77; 90; 103;
   116; 129; 142; 155; 168; 181; 194; 11; 24; 37; 50; 63; 76; 89; 102; 115; 128; 141; 154; 167; 180; 193; 10; 23;
   36; 49; 62; 75; 88; 101; 114; 127; 140; 153; 166; 179; 192; 9; 22; 35; 48; 61; 74; 87; 100; 113; 126; 139;
   152; 165; 178; 191; 8; 21; 34; 47; 60; 73; 86; 99; 112; 125; 138; 151; 164; 177; 190; 7; 20; 33; 46; 59;
   72; 85; 98; 111; 124; 137; 150; 163; 176; 189; 6; 19; 32; 45; 58; 71; 84; 97; 110; 123; 136; 149; 162; 175;
   188; 5; 18; 31; 44; 57; 70; 83; 96; 109; 122; 135; 148; 161; 174; 187; 4; 17; 30; 43; 56; 69; 82; 95;
   108; 121; 134; 147; 160; 173; 186; 3; 16; 29; 42; 55; 68; 81; 94; 107; 120; 133; 146; 159; 172; 185; 2; 15;
   28; 41; 54; 67; 80; 93; 106; 119; 132; 145; 158; 171; 184; 1; 14; 27; 40; 53; 66; 79; 92; 105; 118; 131;
   144; 157; 170; 183]%nat.

Definition DeInterleaveReverseChannelBptc : list nat :=
  [0; 17; 2; 19; 4; 21; 6; 23; 8; 25; 10; 27; 12; 29; 14; 31; 16; 1; 18; 3; 20; 5; 22; 7;
   24; 9; 26; 11; 28; 13; 30; 15]%nat.

Definition DeInterleaveReverseChannelBptcPlacement : list nat :=
  [0; 16; 1; 17; 2; 18; 3; 19; 4; 20; 5; 21; 6; 22; 7; 23; 8; 24; 9; 25; 10; 26; 11; 27;
   12; 28; 13; 29; 14; 30; 15; 31]%nat.

Definition BPTCDeInterleaveDMRData (input output : list Z) : list Z :=
  for_ 0 196 (fun i out => out.[nth i BPTCDeInterleavingIndex 0%nat <- Z.land (input.[i]) 1]) output.

(** ** BPTC (196,96) *)

Definition bptc_196x96_fill_matrix (input : list Z) : list Z :=
  map (fun k => Z.land (input.[S k]) 1) (seq 0 (13 * 15)).

(** One pass over the lines of a matrix: [addr i j] is where byte [j] of line
    [i] is stored.  Each line is decoded through [buf] and its first [k] bytes
    are copied back from [buf]; after a failed decode only if [copy_failed].
    Counts the failures. *)
Definition line_pass (copy_failed : bool) (lines n k : nat) (addr : nat -> nat -> nat)
    (decode : list Z -> option (list Z) -> nat -> list Z * option (list Z) * bool) (m buf : list Z)
  : list Z * list Z * Z :=
  for_ 0 lines (fun i '(m, buf, errors) =>
    let line := map (fun j => m.[addr i j]) (seq 0 n) in
    let '(_, dec, ok) := decode line (Some buf) 1%nat in
    let buf := default buf dec in
    let errors := if ok then errors else errors + 1 in
    (if ok || copy_failed then for_ 0 k (fun j m => m.[addr i j <- buf.[j]]) m else m, buf, errors)) (m, buf, 0).

Definition bptc_196x96_decode_rows (T : fec_tables) (junk m : list Z) : list Z * Z :=
  let '(m, _, errors) := line_pass true 9 15 11 (fun i j => (15 * i + j)%nat) (Hamming_15_11_decode T) m junk in
  (m, errors).

Definition bptc_196x96_decode_cols (T : fec_tables) (junk m : list Z) : list Z * Z :=
  let '(m, _, errors) := line_pass true 15 13 9 (fun i j => (15 * j + i)%nat) (Hamming_13_9_decode T) m junk in
  (m, errors).

Definition bptc_196x96_extract_payload_and_r (m : list Z) : list Z * list Z :=
  (map (fun i => m.[i]) (seq 3 8) ++
   flat_map (fun i => map (fun j => m.[(15 * i + j)%nat]) (seq 0 11)) (seq 1 8),
   [m.[2]; m.[1]; m.[0]]).

(** The payload, the [R] bits and the error count; [j1] .. [j4] are the
    uninitialised buffers of the four passes. *)
Definition BPTC_196x96_Extract_Data (T : fec_tables) (j1 j2 j3 j4 input : list Z) : list Z * list Z * Z :=
  let m := bptc_196x96_fill_matrix input in
  let '(m, _) := bptc_196x96_decode_rows T j1 m in
  let '(m, _) := bptc_196x96_decode_cols T j2 m in
  let '(m, e1) := bptc_196x96_decode_rows T j3 m in
  let '(m, e2) := bptc_196x96_decode_cols T j4 m in
  let '(data, r) := bptc_196x96_extract_payload_and_r m in
  (data, r, e1 + e2).

(** ** BPTC (128,77) *)

(** The row pass: a row that cannot be decoded is kept as received. *)
Definition bptc_128x77_rows (T : fec_tables) (junk m : list Z) : list Z * Z :=
  let '(m, _, errors) :=
    line_pass false 7 16 11 (fun i j => (16 * i + j)%nat) (Hamming_16_11_4_decode T) m junk in
  (m, errors).

Definition bptc_128x77_payload (m : list Z) : list Z :=
  flat_map (fun i => map (fun j => m.[(16 * i + j)%nat]) (seq 0 11)) (seq 0 2) ++
  flat_map (fun i => map (fun j => m.[(16 * i + j)%nat]) (seq 0 10)) (seq 2 5) ++
  map (fun i => m.[(16 * i + 10)%nat]) (seq 2 5).

Definition bptc_128x77_parity_errors (m : list Z) : Z :=
  sum_upto 16 (fun i =>
    let ones := sum_upto 7 (fun j => m.[(16 * j + i)%nat]) in
    if negb (ones mod 2 =? m.[(16 * 7 + i)%nat]) then 1 else 0).

Definition BPTC_128x77_Extract_Data (T : fec_tables) (junk input : list Z) : list Z * Z :=
  let m := map (fun k => Z.land (input.[k]) 1) (seq 0 (8 * 16)) in
  let '(m, errors) := bptc_128x77_rows T junk m in
  (bptc_128x77_payload m, errors + bptc_128x77_parity_errors m).

(** ** BPTC (16x2) *)

Definition BPTC_16x2_Extract_Data (T : fec_tables) (junk input : list Z) (parity_odd : bool) : list Z * Z :=
  let m := for_ 0 32 (fun i m =>
      m.[nth (nth i DeInterleaveReverseChannelBptc 0%nat) DeInterleaveReverseChannelBptcPlacement 0%nat
         <- Z.land (input.[i]) 1]) (replicate 32 0) in
  let line := map (fun i => Z.land (m.[i]) 1) (seq 0 16) in
  let '(_, dec, ok) := Hamming_16_11_4_decode T line (Some junk) 1 in
  let buf := default junk dec in
  let out := map (fun i => Z.land (m.[i]) 1) (seq 0 32) in
  let out := for_ 0 11 (fun i o => o.[i <- Z.land (buf.[i]) 1]) out in
  let hamming_errors := if ok then 0 else 1 in
  let same i := Z.land (out.[i]) 1 =? Z.land (out.[(i + 16)%nat]) 1 in
  let odd_errors := sum_upto 16 (fun i => if same i then 1 else 0) in
  let even_errors := sum_upto 16 (fun i => if same i then 0 else 1) in
  (out, hamming_errors + if parity_odd then odd_errors else even_errors).

(** ** Lines *)

(** A single codeword through a Hamming decoder. *)
Lemma decode_one H n k r corr c rx buf :
  bits H -> check_patterns H n r 1 (single_chk corr) = true -> table_range n r corr = true -> (k <= n)%nat ->
  codeword H n r c -> within 1 c rx -> (k <= length buf)%nat ->
  hamming_decode_from H n k r corr 1 0 rx (Some buf) = (c, Some (take k c ++ drop k buf), true).
Proof.
  intros HH Hchk Hran Hk Hc Hw Hl.
  pose proof (hamming_decode_from_spec H n k r corr HH Hchk Hran Hk [c] [rx] [] [] buf 0) as E.
  cbn [concat map app length] in E. rewrite !app_nil_r, Nat.mul_1_l in E.
  apply E; [by apply Forall2_cons; split; [|apply Forall2_nil]|by apply Forall_singleton|lia|lia|lia].
Qed.

Section LinePass.
Context (copy_failed : bool) (lines n k : nat) (addr : nat -> nat -> nat).
Context (decode : list Z -> option (list Z) -> nat -> list Z * option (list Z) * bool).
Context (m : list Z) (out : nat -> list Z).
Hypothesis addr_inj : forall i j i' j', (i < lines)%nat -> (j < n)%nat -> (i' < lines)%nat -> (j' < n)%nat ->
  addr i j = addr i' j' -> i = i' /\ j = j'.
Hypothesis addr_lt : forall i j, (i < lines)%nat -> (j < n)%nat -> (addr i j < length m)%nat.
Hypothesis k_le_n : (k <= n)%nat.
Hypothesis decode_out : forall i buf, (i < lines)%nat -> length buf = k ->
  exists rx, decode (map (fun j => m.[addr i j]) (seq 0 n)) (Some buf) 1%nat = (rx, Some (out i), true) /\
             length (out i) = k.

Definition line_step (i : nat) : list Z * list Z * Z -> list Z * list Z * Z :=
  fun '(m, buf, errors) =>
    let line := map (fun j => m.[addr i j]) (seq 0 n) in
    let '(_, dec, ok) := decode line (Some buf) 1%nat in
    let buf := default buf dec in
    let errors := if ok then errors else errors + 1 in
    (if ok || copy_failed then for_ 0 k (fun j m => m.[addr i j <- buf.[j]]) m else m, buf, errors).

Lemma line_pass_inv buf0 : length buf0 = k -> forall l, (l <= lines)%nat ->
  exists m' buf, for_ 0 l line_step (m, buf0, 0) = (m', buf, 0) /\ length buf = k /\ length m' = length m /\
    (forall i j, (i < l)%nat -> (j < k)%nat -> m'.[addr i j] = (out i).[j]) /\
    (forall a, (forall i j, (i < l)%nat -> (j < k)%nat -> addr i j <> a) -> m'.[a] = m.[a]).
Proof.
  intros Hb l. induction l as [|l IH]; intros Hl.
  { exists m, buf0. rewrite for_nil by lia. repeat split; [done|]. intros. lia. }
  destruct IH as (m' & buf & E & Hbuf & Hlen & Hin & Hout); [lia|]. rewrite for_S, E by lia.
  assert (Hline : map (fun j => m'.[addr l j]) (seq 0 n) = map (fun j => m.[addr l j]) (seq 0 n)).
  { apply map_ext_in. intros j Hj%in_seq. apply Hout. intros i j' Hi Hj' Heq.
    apply addr_inj in Heq; lia. }
  destruct (decode_out l buf ltac:(lia) Hbuf) as (rx & Ed & Hol). cbn [line_step]. rewrite Hline, Ed. cbn [default id orb].
  fold (stores (addr l) (fun j => (out l).[j]) k m').
  exists (stores (addr l) (fun j => (out l).[j]) k m'), (out l).
  split; [done|]. split; [done|]. split; [by rewrite length_stores|]. split.
  - intros i j Hi Hj. destruct (decide (i = l)) as [->|Hne].
    + apply (stores_hit (addr l) (fun j => (out l).[j])); [done| |rewrite Hlen; apply addr_lt; lia].
      intros i' Hi' Hne Heq. apply addr_inj in Heq; lia.
    + rewrite stores_miss; [apply Hin; lia|]. intros j' Hj' Heq. apply addr_inj in Heq; lia.
  - intros a Ha. rewrite stores_miss by (intros; apply Ha; lia). apply Hout. intros. apply Ha; lia.
Qed.

Lemma line_pass_spec buf0 : length buf0 = k ->
  exists m' buf, line_pass copy_failed lines n k addr decode m buf0 = (m', buf, 0) /\ length m' = length m /\
    (forall i j, (i < lines)%nat -> (j < k)%nat -> m'.[addr i j] = (out i).[j]) /\
    (forall a, (forall i j, (i < lines)%nat -> (j < k)%nat -> addr i j <> a) -> m'.[a] = m.[a]).
Proof.
  intros Hb. destruct (line_pass_inv buf0 Hb lines ltac:(lia)) as (m' & buf & E & _ & H). by exists m', buf.
Qed.
End LinePass.

(** ** The product code *)

Definition row15 (m : list Z) (i : nat) : list Z := map (fun j => m.[(15 * i + j)%nat]) (seq 0 15).
Definition col13 (m : list Z) (i : nat) : list Z := map (fun j => m.[(15 * j + i)%nat]) (seq 0 13).

Record product_codeword (c : list Z) : Prop := {
  pc_length : length c = 195%nat;
  pc_bits : bits c;
  pc_rows : forall i, (i < 9)%nat -> codeword Hamming_15_11_m_H 15 4 (row15 c i);
  pc_cols : forall i, (i < 15)%nat -> codeword Hamming_13_9_m_H 13 4 (col13 c i)
}.

(** A burst confined to one row, or errors of which no two share a row among
    the first nine or a column. *)
Definition correctable (c m : list Z) : Prop :=
  (exists r, forall i, (i < 13)%nat -> i <> r -> row15 m i = row15 c i) \/
  ((forall i, (i < 9)%nat -> within 1 (row15 c i) (row15 m i)) /\
   (forall i, (i < 15)%nat -> within 1 (col13 c i) (col13 m i))).

Lemma bits_map_seq (m : list Z) f lo n : bits m -> bits (map (fun j => m.[f j]) (seq lo n)).
Proof. intros H. apply Forall_forall. intros x Hx. apply list_elem_of_fmap in Hx as (j & -> & _). by apply bits_nth. Qed.

Lemma row15_nth m i j : (j < 15)%nat -> (row15 m i).[j] = m.[(15 * i + j)%nat].
Proof. intros. unfold row15. by rewrite nth_map_seq. Qed.

Lemma col13_nth m i j : (j < 13)%nat -> (col13 m i).[j] = m.[(15 * j + i)%nat].
Proof. intros. unfold col13. by rewrite nth_map_seq. Qed.

Lemma length_row15 m i : length (row15 m i) = 15%nat. Proof. unfold row15. len. Qed.
Lemma length_col13 m i : length (col13 m i) = 13%nat. Proof. unfold col13. len. Qed.

(** Every byte of the matrix sits in one row and column. *)
Lemma addr_split p : (p < 195)%nat -> exists i j, p = (15 * i + j)%nat /\ (i < 13)%nat /\ (j < 15)%nat.
Proof.
  intros Hp. exists (p / 15)%nat, (p mod 15)%nat. pose proof (Nat.div_mod p 15). pose proof (Nat.mod_upper_bound p 15).
  assert (p / 15 < 13)%nat by (apply Nat.Div0.div_lt_upper_bound; lia). lia.
Qed.

Lemma bits_matrix m : length m = 195%nat ->
  (forall i j, (i < 13)%nat -> (j < 15)%nat -> is_bit (m.[(15 * i + j)%nat])) -> bits m.
Proof.
  intros Hl H. apply (Forall_nth is_bit 0). intros p Hp. rewrite Hl in Hp.
  destruct (addr_split p Hp) as (i & j & -> & Hi & Hj). by apply H.
Qed.

(** Hamming (15,11) is perfect: every word is decoded. *)
Definition table_total (r : nat) (corr : list Z) : bool :=
  forallb (fun s => negb (corr.[s] =? 255)) (seq 1 (2 ^ r - 1)).

Lemma Hamming_15_11_total T0 rx :
  length rx = 15%nat -> bits rx ->
  exists rx' out, length out = 11%nat /\ bits out /\ forall buf, length buf = 11%nat ->
    Hamming_15_11_decode (InitAllFecFunction T0) rx (Some buf) 1 = (rx', Some out, true).
Proof.
  intros Hl Hb. unfold Hamming_15_11_decode. cbn [hamming_decode_from Hamming_15_11_m_corr InitAllFecFunction].
  change (15 * 0)%nat with 0%nat.
  assert (exists rx', hamming_correct Hamming_15_11_m_H 15 4 Hamming_15_11_init rx 0 = Some rx' /\
            length rx' = 15%nat /\ bits rx') as (rx' & -> & Hl' & Hb').
  { unfold hamming_correct. pose proof (syndrome_bound Hamming_15_11_m_H 15 4 rx 0) as Hs.
    set (s := syndrome _ _ _ rx 0) in *. destruct (Z.ltb_spec 0 s); [|by exists rx].
    assert (Ht : table_total 4 Hamming_15_11_init = true) by done.
    unfold table_total in Ht. rewrite forallb_forall in Ht. specialize (Ht (Z.to_nat s)).
    rewrite in_seq, negb_true_iff in Ht. rewrite Ht by (change (2 ^ 4)%nat with 16%nat; lia).
    eexists. split; [done|]. rewrite length_flip. split; [done|]. by apply bits_flip. }
  exists rx', (take 11 rx'). assert (length (take 11 rx') = 11%nat) as Ht by len.
  split; [done|]. split; [by apply Forall_take|]. intros buf Hbuf. cbn [option_map]. do 3 f_equal.
  unfold move_info, blit. cbn [Nat.mul]. rewrite drop_0, take_0. cbn [app].
  rewrite Ht, (drop_ge buf) by lia. by rewrite app_nil_r.
Qed.

Section Passes.
Context (T0 : fec_tables) (c : list Z).
Hypothesis Hc : product_codeword c.

(** The row pass corrects the information part of every row within one error;
    row [r] may be anything. *)
Lemma rows_pass r junk m :
  length m = 195%nat -> bits m -> length junk = 11%nat ->
  (forall i, (i < 9)%nat -> i <> r -> within 1 (row15 c i) (row15 m i)) ->
  exists m', bptc_196x96_decode_rows (InitAllFecFunction T0) junk m = (m', 0) /\ length m' = 195%nat /\ bits m' /\
    (forall i j, (i < 9)%nat -> i <> r -> (j < 11)%nat -> m'.[(15 * i + j)%nat] = c.[(15 * i + j)%nat]) /\
    (forall i j, (i < 13)%nat -> (j < 15)%nat -> (9 <= i \/ 11 <= j)%nat ->
       m'.[(15 * i + j)%nat] = m.[(15 * i + j)%nat]).
Proof.
  intros Hl Hb Hj Hw.
  set (out := fun i => if decide (i = r) then
      match Hamming_15_11_decode (InitAllFecFunction T0) (row15 m i) (Some (replicate 11 0)) 1 with
      | (_, Some o, _) => o | _ => [] end else take 11 (row15 c i)).
  assert (Hout : forall i buf, (i < 9)%nat -> length buf = 11%nat ->
    exists rx, Hamming_15_11_decode (InitAllFecFunction T0) (row15 m i) (Some buf) 1 = (rx, Some (out i), true) /\
      length (out i) = 11%nat).
  { intros i buf Hi Hbuf. unfold out. destruct (decide (i = r)) as [Heq|Hne].
    - destruct (Hamming_15_11_total T0 (row15 m i)) as (rx & o & Ho & _ & Hall);
        [apply length_row15|by apply bits_map_seq|].
      rewrite (Hall (replicate 11 0)) by done. exists rx. by rewrite Hall.
    - eexists. split; [|rewrite length_take, length_row15; done].
      unfold Hamming_15_11_decode. rewrite (decode_one _ 15 11 4 _ (row15 c i)).
      + rewrite drop_ge, app_nil_r by lia. done.
      + apply Hamming_15_11_H_bits.
      + apply Hamming_15_11_table.
      + done.
      + lia.
      + by apply (pc_rows _ Hc).
      + by apply Hw.
      + lia. }
  destruct (line_pass_spec true 9 15 11 (fun i j => (15 * i + j)%nat) (Hamming_15_11_decode (InitAllFecFunction T0)) m out)
    with (buf0 := junk) as (m' & buf & E & Hl' & Hin & Hmiss); try done; try lia.
  exists m'. unfold bptc_196x96_decode_rows. rewrite E. split; [done|]. split; [lia|].
  assert (Hkeep : forall i j, (i < 13)%nat -> (j < 15)%nat -> (9 <= i \/ 11 <= j)%nat ->
       m'.[(15 * i + j)%nat] = m.[(15 * i + j)%nat]).
  { intros i j Hi Hj' Ho. apply Hmiss. intros i' j' Hi' Hj''. lia. }
  split; [|split; [|done]].
  - apply bits_matrix; [lia|]. intros i j Hi Hj'.
    destruct (decide (i < 9 /\ j < 11)%nat) as [[Hi9 Hj11]|Hn]; [|rewrite Hkeep by lia; by apply bits_nth].
    rewrite Hin by done. apply bits_nth. unfold out. destruct (decide (i = r)).
    + destruct (Hamming_15_11_total T0 (row15 m i)) as (rx & o & _ & Ho & Hall);
        [apply length_row15|by apply bits_map_seq|]. by rewrite Hall.
    + apply Forall_take, bits_map_seq, (pc_bits _ Hc).
  - intros i j Hi Hne Hj'. rewrite Hin by done. unfold out. destruct (decide (i = r)); [done|].
    rewrite <- (drop_0 (row15 c i)), drop_take_nth, row15_nth by lia. done.
Qed.

(** The column pass restores the first nine rows. *)
Lemma cols_pass junk m :
  length m = 195%nat -> bits m -> length junk = 9%nat ->
  (forall i, (i < 15)%nat -> within 1 (col13 c i) (col13 m i)) ->
  exists m', bptc_196x96_decode_cols (InitAllFecFunction T0) junk m = (m', 0) /\ length m' = 195%nat /\ bits m' /\
    (forall i j, (i < 9)%nat -> (j < 15)%nat -> m'.[(15 * i + j)%nat] = c.[(15 * i + j)%nat]) /\
    (forall i j, (9 <= i < 13)%nat -> (j < 15)%nat -> m'.[(15 * i + j)%nat] = m.[(15 * i + j)%nat]).
Proof.
  intros Hl Hb Hj Hw.
  destruct (line_pass_spec true 15 13 9 (fun i j => (15 * j + i)%nat) (Hamming_13_9_decode (InitAllFecFunction T0)) m
    (fun i => take 9 (col13 c i))) with (buf0 := junk) as (m' & buf & E & Hl' & Hin & Hmiss); try done; try lia.
  { intros i buf Hi Hbuf. eexists. split; [|rewrite length_take, length_col13; done].
    fold (col13 m i). unfold Hamming_13_9_decode. rewrite (decode_one _ 13 9 4 _ (col13 c i)).
    - rewrite drop_ge, app_nil_r by lia. done.
    - apply Hamming_13_9_H_bits.
    - apply Hamming_13_9_table.
    - done.
    - lia.
    - by apply (pc_cols _ Hc).
    - by apply Hw.
    - lia. }
  exists m'. unfold bptc_196x96_decode_cols. rewrite E. split; [done|]. split; [lia|].
  assert (Hset : forall i j, (i < 9)%nat -> (j < 15)%nat -> m'.[(15 * i + j)%nat] = c.[(15 * i + j)%nat]).
  { intros i j Hi Hj'. rewrite Hin by done.
    rewrite <- (drop_0 (col13 c j)), drop_take_nth, col13_nth by lia. done. }
  assert (Hkeep : forall i j, (9 <= i < 13)%nat -> (j < 15)%nat -> m'.[(15 * i + j)%nat] = m.[(15 * i + j)%nat]).
  { intros i j Hi Hj'. apply Hmiss. intros i' j' Hi' Hj''. lia. }
  split; [|done]. apply bits_matrix; [lia|]. intros i j Hi Hj'.
  destruct (decide (i < 9)%nat); [rewrite Hset by done; apply bits_nth, (pc_bits _ Hc)|].
  rewrite Hkeep by lia. by apply bits_nth.
Qed.
End Passes.

(** ** The whole decoder *)

(** The matrix inside a deinterleaved buffer. *)
Lemma fill_matrix_bits input : length (bptc_196x96_fill_matrix input) = 195%nat /\ bits (bptc_196x96_fill_matrix input).
Proof.
  unfold bptc_196x96_fill_matrix. split; [len|]. apply Forall_forall. intros x Hx.
  apply list_elem_of_fmap in Hx as (k & -> & _). change 1 with (Z.ones 1). rewrite Z.land_ones by lia.
  apply is_bit_mod2.
Qed.

Lemma rows_eq_bytes c m i j : row15 m i = row15 c i -> (j < 15)%nat -> m.[(15 * i + j)%nat] = c.[(15 * i + j)%nat].
Proof. intros E Hj. by rewrite <- !row15_nth, E. Qed.

(** Columns: a matrix that differs from [c] in fewer places is at least as
    close. *)
Lemma col_within c m i t :
  (i < 15)%nat -> bits m -> (hamming_dist (col13 c i) (col13 m i) <= t)%nat -> within t (col13 c i) (col13 m i).
Proof. intros Hi Hb Hd. split; [by rewrite !length_col13|]. split; [by apply bits_map_seq|done]. Qed.

Lemma col_nth_ge m i j : (13 <= j)%nat -> (col13 m i).[j] = 0.
Proof. intros. apply nth_overflow. rewrite length_col13. lia. Qed.

(** After the first row pass every column is within one error. *)
Lemma rows_then_cols T0 c m junk :
  product_codeword c -> length m = 195%nat -> bits m -> correctable c m -> length junk = 11%nat ->
  exists m1, bptc_196x96_decode_rows (InitAllFecFunction T0) junk m = (m1, 0) /\ length m1 = 195%nat /\ bits m1 /\
    forall i, (i < 15)%nat -> within 1 (col13 c i) (col13 m1 i).
Proof.
  intros Hc Hl Hb Hcor Hj. destruct Hcor as [[r Hr]|[Hrow Hcol]].
  - destruct (rows_pass T0 c Hc r junk m Hl Hb Hj) as (m1 & E & Hl1 & Hb1 & Hin & Hkeep).
    { intros i Hi Hne. rewrite Hr by lia. apply (within_mono 0); [lia|]. apply codeword_within0.
      apply bits_map_seq, (pc_bits _ Hc). }
    exists m1. do 3 (split; [done|]). intros i Hi. apply col_within; [done|done|].
    apply (hamming_dist_one _ _ r). intros j Hne.
    destruct (decide (j < 13)%nat); [|by rewrite !col_nth_ge by lia]. rewrite !col13_nth by done.
    destruct (decide (j < 9 /\ i < 11)%nat) as [[? ?]|?].
    + by rewrite Hin.
    + rewrite Hkeep by lia. symmetry. by apply rows_eq_bytes; [apply Hr|].
  - destruct (rows_pass T0 c Hc 13 junk m Hl Hb Hj) as (m1 & E & Hl1 & Hb1 & Hin & Hkeep).
    { intros i Hi _. by apply Hrow. }
    exists m1. do 3 (split; [done|]). intros i Hi. apply col_within; [done|done|].
    transitivity (hamming_dist (col13 c i) (col13 m i)); [|apply (Hcol i Hi)].
    apply hamming_dist_mono. intros j. destruct (decide (j < 13)%nat); [|by rewrite !col_nth_ge by lia].
    rewrite !col13_nth by done. destruct (decide (j < 9 /\ i < 11)%nat) as [[? ?]|?].
    + by rewrite Hin by lia.
    + by rewrite Hkeep by lia.
Qed.

(** The payload only depends on the first nine rows. *)
Lemma extract_ext c m :
  (forall i j, (i < 9)%nat -> (j < 11)%nat -> m.[(15 * i + j)%nat] = c.[(15 * i + j)%nat]) ->
  bptc_196x96_extract_payload_and_r m = bptc_196x96_extract_payload_and_r c.
Proof.
  intros H. unfold bptc_196x96_extract_payload_and_r.
  assert (H0 : forall j, (j < 11)%nat -> m.[j] = c.[j]) by (intros j Hj; apply (H 0%nat j); lia).
  rewrite !H0 by lia. f_equal. f_equal.
  - apply map_ext_in. intros i Hi%in_seq. apply H0. lia.
  - rewrite !flat_map_concat_map. f_equal. apply map_ext_in. intros i Hi%in_seq.
    apply map_ext_in. intros j Hj%in_seq. apply H; lia.
Qed.

Lemma bptc_196x96_correct (T0 : fec_tables) (c input j1 j2 j3 j4 : list Z) :
  product_codeword c -> correctable c (bptc_196x96_fill_matrix input) ->
  length j1 = 11%nat -> length j2 = 9%nat -> length j3 = 11%nat -> length j4 = 9%nat ->
  BPTC_196x96_Extract_Data (InitAllFecFunction T0) j1 j2 j3 j4 input
  = (bptc_196x96_extract_payload_and_r c, 0).
Proof.
  intros Hc Hcor H1 H2 H3 H4. unfold BPTC_196x96_Extract_Data.
  destruct (fill_matrix_bits input) as [Hl Hb]. set (m := bptc_196x96_fill_matrix input) in *.
  destruct (rows_then_cols T0 c m j1 Hc Hl Hb Hcor H1) as (m1 & -> & Hl1 & Hb1 & Hw1).
  destruct (cols_pass T0 c Hc j2 m1 Hl1 Hb1 H2 Hw1) as (m2 & -> & Hl2 & Hb2 & Hin2 & Hk2).
  assert (Hrow2 : forall i, (i < 9)%nat -> row15 m2 i = row15 c i).
  { intros i Hi. apply list_eq_nth; [by rewrite !length_row15|]. intros j Hj. rewrite length_row15 in Hj.
    rewrite !row15_nth by done. by apply Hin2. }
  destruct (rows_pass T0 c Hc 13 j3 m2 Hl2 Hb2 H3) as (m3 & -> & Hl3 & Hb3 & Hin3 & Hk3).
  { intros i Hi _. rewrite Hrow2 by done. apply (within_mono 0); [lia|]. apply codeword_within0.
    apply bits_map_seq, (pc_bits _ Hc). }
  assert (Hcol3 : forall i, (i < 15)%nat -> within 1 (col13 c i) (col13 m3 i)).
  { intros i Hi. apply col_within; [done|done|]. transitivity (hamming_dist (col13 c i) (col13 m1 i)); [|apply (Hw1 i Hi)].
    apply hamming_dist_mono. intros j. destruct (decide (j < 13)%nat); [|by rewrite !col_nth_ge by lia].
    rewrite !col13_nth by done.
    destruct (decide (j < 9)%nat).
    - destruct (decide (i < 11)%nat); [by rewrite Hin3 by lia|]. by rewrite Hk3, Hin2 by lia.
    - by rewrite Hk3, Hk2 by lia. }
  destruct (cols_pass T0 c Hc j4 m3 Hl3 Hb3 H4 Hcol3) as (m4 & -> & Hl4 & Hb4 & Hin4 & _).
  rewrite (extract_ext c m4) by (intros; apply Hin4; lia).
  by destruct (bptc_196x96_extract_payload_and_r c).
Qed.

(** C23: BPTC (196,96): a codeword of the product code hit by a burst confined
    to one row (up to fifteen bits), or by scattered errors no two of which
    share a decoded row or a column, is decoded to exactly its payload and R
    bits with no irrecoverable error reported, whatever the buffers of the
    four passes held before. *)
Theorem BPTC_196x96_corrects (T0 : fec_tables) (c input j1 j2 j3 j4 : list Z) :
  product_codeword c -> correctable c (bptc_196x96_fill_matrix input) ->
  length j1 = 11%nat -> length j2 = 9%nat -> length j3 = 11%nat -> length j4 = 9%nat ->
  BPTC_196x96_Extract_Data (InitAllFecFunction T0) j1 j2 j3 j4 input
  = (bptc_196x96_extract_payload_and_r c, 0).
Proof. apply bptc_196x96_correct. Qed.

(** The all-zero codeword with one whole row inverted. *)
Lemma BPTC_196x96_corrects_witness :
  let burst := map (fun p => if bool_decide (46 <= p < 61)%nat then 1 else 0) (seq 0 196) in
  BPTC_196x96_Extract_Data (InitAllFecFunction fec_zero) (replicate 11 9) (replicate 9 9) (replicate 11 9)
    (replicate 9 9) burst = (replicate 96 0, replicate 3 0, 0).
Proof.
  intros burst. refine (BPTC_196x96_corrects fec_zero (replicate 195 0) burst _ _ _ _ _ _ _ _ _ _); try reflexivity.
  - split; [reflexivity|by_decide| |].
    + intros i Hi. do 9 (destruct i as [|i]; [by_decide|]). lia.
    + intros i Hi. do 15 (destruct i as [|i]; [by_decide|]). lia.
  - left. exists 3%nat. intros i Hi Hne.
    do 13 (destruct i as [|i]; [first [lia | by_decide]|]). lia.
Defined.

(** *** The stale column

    When Hamming (13,9) fails on a column, the nine information bytes of that
    column become whatever the buffer held: the previous column's data, or
    uninitialised memory.  Here column 1 carries two errors, in rows 0 and 7;
    column 0 decodes to a word with a one in row 8, and that one is copied
    into column 1, whose own byte in row 8 was right. *)
Example stale_column_is_copied :
  let col := [0; 0; 0; 0; 0; 0; 0; 0; 1; 0; 0; 1; 1] in
  let m := map (fun p => if (p mod 15 =? 0)%nat then nth (p / 15) col 0
                         else if bool_decide (p = 1 \/ p = 106)%nat then 1 else 0) (seq 0 195) in
  let '(m', errors) := bptc_196x96_decode_cols (InitAllFecFunction fec_zero) (replicate 9 0) m in
  errors = 1 /\ m.[(15 * 8 + 1)%nat] = 0 /\ m'.[(15 * 8 + 1)%nat] = 1.
Proof. vm_compute. repeat split; reflexivity. Qed.

(** ** The (128,77) code *)

Definition row16 (m : list Z) (i : nat) : list Z := map (fun j => m.[(16 * i + j)%nat]) (seq 0 16).

Record codeword_128x77 (c : list Z) : Prop := {
  c77_length : length c = 128%nat;
  c77_bits : bits c;
  c77_rows : forall i, (i < 7)%nat -> codeword Hamming_16_11_4_m_H 16 5 (row16 c i);
  c77_parity : bptc_128x77_parity_errors c = 0
}.

Lemma length_row16 m i : length (row16 m i) = 16%nat. Proof. unfold row16. len. Qed.

Lemma payload_128x77_ext c m :
  (forall i j, (i < 7)%nat -> (j < 11)%nat -> m.[(16 * i + j)%nat] = c.[(16 * i + j)%nat]) ->
  bptc_128x77_payload m = bptc_128x77_payload c.
Proof.
  intros H. unfold bptc_128x77_payload. rewrite !flat_map_concat_map. f_equal; [|f_equal].
  - f_equal. apply map_ext_in. intros i Hi%in_seq. apply map_ext_in. intros j Hj%in_seq. apply H; lia.
  - f_equal. apply map_ext_in. intros i Hi%in_seq. apply map_ext_in. intros j Hj%in_seq. apply H; lia.
  - apply map_ext_in. intros i Hi%in_seq. apply H; lia.
Qed.

Lemma land_1_bit x : is_bit x -> Z.land x 1 = x.
Proof. by intros [-> | ->]. Qed.

(** BPTC (128,77): with at most one bit error in each of the seven coded
    rows the 77 bits are recovered exactly; and when the errors all fall on
    information columns (and the parity row is right) no error is reported. *)
Theorem BPTC_128x77_corrects (T0 : fec_tables) (c m junk : list Z) :
  codeword_128x77 c -> length m = 128%nat -> bits m -> length junk = 11%nat ->
  (forall i, (i < 7)%nat -> within 1 (row16 c i) (row16 m i)) ->
  fst (BPTC_128x77_Extract_Data (InitAllFecFunction T0) junk m) = bptc_128x77_payload c /\
  ((forall i j, (i < 8)%nat -> (11 <= j < 16)%nat \/ (i = 7 /\ j < 16)%nat ->
      m.[(16 * i + j)%nat] = c.[(16 * i + j)%nat]) ->
   snd (BPTC_128x77_Extract_Data (InitAllFecFunction T0) junk m) = 0).
Proof.
  intros Hc Hl Hb Hj Hw. unfold BPTC_128x77_Extract_Data.
  assert (Hm : map (fun k => Z.land (m.[k]) 1) (seq 0 (8 * 16)) = m).
  { apply list_eq_nth; [len|]. intros p Hp. rewrite length_map, length_seq in Hp.
    rewrite nth_map_seq by done. cbn [Nat.add]. apply land_1_bit. by apply bits_nth. }
  rewrite Hm. unfold bptc_128x77_rows.
  destruct (line_pass_spec false 7 16 11 (fun i j => (16 * i + j)%nat) (Hamming_16_11_4_decode (InitAllFecFunction T0)) m
    (fun i => take 11 (row16 c i))) with (buf0 := junk) as (m' & buf & E & Hl' & Hin & Hmiss); try done; try lia.
  { intros i buf Hi Hbuf. eexists. split; [|rewrite length_take, length_row16; done].
    fold (row16 m i). unfold Hamming_16_11_4_decode. rewrite (decode_one _ 16 11 5 _ (row16 c i)).
    - rewrite drop_ge, app_nil_r by lia. done.
    - apply Hamming_16_11_4_H_bits.
    - apply Hamming_16_11_4_table.
    - done.
    - lia.
    - by apply (c77_rows _ Hc).
    - by apply Hw.
    - lia. }
  rewrite E. cbn [fst snd].
  assert (Hset : forall i j, (i < 7)%nat -> (j < 11)%nat -> m'.[(16 * i + j)%nat] = c.[(16 * i + j)%nat]).
  { intros i j Hi Hj'. rewrite Hin by done. rewrite <- (drop_0 (row16 c i)), drop_take_nth by lia.
    unfold row16. rewrite nth_map_seq by lia. done. }
  split; [by apply payload_128x77_ext|]. intros Hclean. rewrite Z.add_0_l, <- (c77_parity _ Hc).
  assert (Hall : forall i j, (i < 8)%nat -> (j < 16)%nat -> m'.[(16 * i + j)%nat] = c.[(16 * i + j)%nat]).
  { intros i j Hi Hj'. destruct (decide (i < 7 /\ j < 11)%nat) as [[? ?]|Hn]; [by apply Hset|].
    rewrite Hmiss by (intros; lia). apply Hclean; lia. }
  unfold bptc_128x77_parity_errors. apply sum_upto_ext. intros i Hi.
  rewrite (Hall 7%nat i) by lia.
  by rewrite (sum_upto_ext 7 _ (fun j => c.[(16 * j + i)%nat])) by (intros j Hj'; apply Hall; lia).
Qed.

Lemma BPTC_128x77_corrects_witness :
  let m := flips [3; 20; 37; 58; 74; 83; 96]%nat (replicate 128 0) in
  fst (BPTC_128x77_Extract_Data (InitAllFecFunction fec_zero) (replicate 11 9) m) = replicate 77 0.
Proof.
  intros m. refine (proj1 (BPTC_128x77_corrects fec_zero (replicate 128 0) m (replicate 11 9) _ _ _ _ _));
    try reflexivity; [|by_decide|].
  - split; [reflexivity|by_decide| |reflexivity].
    intros i Hi. do 7 (destruct i as [|i]; [by_decide|]). lia.
  - intros i Hi. do 7 (destruct i as [|i]; [by_decide|]). lia.
Defined.
