(* ===== verification/Rs129.v ===== *)
(** * [fec/rs-12-9.c]: the Reed-Solomon (12,9) code of DMR

    Nine data bytes and three checksum bytes over GF(256).  The field operations
    go through exponent and logarithm tables; the decoder finds the error
    locator by Berlekamp-Massey, its roots by trying every exponent, and corrects
    one symbol.  Polynomials are lists of six bytes; those of [syndrome] beyond
    the third are never initialised by [rs_12_9_calc_syndrome]: they are
    arguments, and no result depends on them. *)
From S2P Require Import Prelude LinearCode.

Definition rs_12_9_galois_exp_table : list Z :=
  [1; 2; 4; 8; 16; 32; 64; 128; 29; 58; 116; 232; 205; 135; 19; 38; 76; 152; 45; 90; 180; 117; 234; 201;
   143; 3; 6; 12; 24; 48; 96; 192; 157; 39; 78; 156; 37; 74; 148; 53; 106; 212; 181; 119; 238; 193; 159; 35;
   70; 140; 5; 10; 20; 40; 80; 160; 93; 186; 105; 210; 185; 111; 222; 161; 95; 190; 97; 194; 153; 47; 94; 188;
   101; 202; 137; 15; 30; 60; 120; 240; 253; 231; 211; 187; 107; 214; 177; 127; 254; 225; 223; 163; 91; 182; 113; 226;
   217; 175; 67; 134; 17; 34; 68; 136; 13; 26; 52; 104; 208; 189; 103; 206; 129; 31; 62; 124; 248; 237; 199; 147;
   59; 118; 236; 197; 151; 51; 102; 204; 133; 23; 46; 92; 184; 109; 218; 169; 79; 158; 33; 66; 132; 21; 42; 84;
   168; 77; 154; 41; 82; 164; 85; 170; 73; 146; 57; 114; 228; 213; 183; 115; 230; 209; 191; 99; 198; 145; 63; 126;
   252; 229; 215; 179; 123; 246; 241; 255; 227; 219; 171; 75; 150; 49; 98; 196; 149; 55; 110; 220; 165; 87; 174; 65;
   130; 25; 50; 100; 200; 141; 7; 14; 28; 56; 112; 224; 221; 167; 83; 166; 81; 162; 89; 178; 121; 242; 249; 239;
   195; 155; 43; 86; 172; 69; 138; 9; 18; 36; 72; 144; 61; 122; 244; 245; 247; 243; 251; 235; 203; 139; 11; 22;
   44; 88; 176; 125; 250; 233; 207; 131; 27; 54; 108; 216; 173; 71; 142; 1].

Definition rs_12_9_galois_log_table : list Z :=
  [0; 0; 1; 25; 2; 50; 26; 198; 3; 223; 51; 238; 27; 104; 199; 75; 4; 100; 224; 14; 52; 141; 239; 129;
   28; 193; 105; 248; 200; 8; 76; 113; 5; 138; 101; 47; 225; 36; 15; 33; 53; 147; 142; 218; 240; 18; 130; 69;
   29; 181; 194; 125; 106; 39; 249; 185; 201; 154; 9; 120; 77; 228; 114; 166; 6; 191; 139; 98; 102; 221; 48; 253;
   226; 152; 37; 179; 16; 145; 34; 136; 54; 208; 148; 206; 143; 150; 219; 189; 241; 210; 19; 92; 131; 56; 70; 64;
   30; 66; 182; 163; 195; 72; 126; 110; 107; 58; 40; 84; 250; 133; 186; 61; 202; 94; 155; 159; 10; 21; 121; 43;
   78; 212; 229; 172; 115; 243; 167; 87; 7; 112; 192; 247; 140; 128; 99; 13; 103; 74; 222; 237; 49; 197; 254; 24;
   227; 165; 153; 119; 38; 184; 180; 124; 17; 68; 146; 217; 35; 32; 137; 46; 55; 63; 209; 91; 149; 188; 207; 205;
   144; 135; 151; 178; 220; 252; 190; 97; 242; 86; 211; 171; 20; 42; 93; 158; 132; 60; 57; 83; 71; 109; 65; 162;
   31; 45; 67; 216; 183; 123; 164; 118; 196; 23; 73; 236; 127; 12; 111; 246; 108; 161; 59; 82; 41; 157; 85; 170;
   251; 96; 134; 177; 187; 204; 62; 90; 203; 89; 95; 176; 156; 169; 160; 81; 11; 245; 22; 235; 122; 117; 44; 215;
   79; 174; 213; 233; 230; 231; 173; 232; 116; 214; 244; 234; 168; 80; 88; 175].

Definition RS_12_9_DATASIZE : nat := 9.
Definition RS_12_9_CHECKSUMSIZE : nat := 3.
Definition RS_12_9_POLY_MAXDEG : nat := 6.

Variant rs_12_9_result :=
  | NO_ERRORS_FOUND
  | ERRORS_CORRECTED
  | ERRORS_CANT_BE_CORRECTED.

Definition galois_exp (pos : Z) : Z := rs_12_9_galois_exp_table.[Z.to_nat pos].
Definition galois_log (x : Z) : Z := rs_12_9_galois_log_table.[Z.to_nat x].

Definition galois_multiplication (a b : Z) : Z :=
  if (a =? 0) || (b =? 0) then 0 else galois_exp ((galois_log a + galois_log b) mod 255).

Definition galois_inv (elt : Z) : Z := galois_exp (255 - galois_log elt).

(** [for (i = 5; i > 0; i--) poly[i] = poly[i - 1]; poly[0] = 0;] *)
Definition multiply_poly_z (poly : list Z) : list Z := 0 :: take (RS_12_9_POLY_MAXDEG - 1) poly.

(** The product of two polynomials: twelve bytes. *)
Definition multiplicate_polys (p1 p2 : list Z) : list Z :=
  for_ 0 RS_12_9_POLY_MAXDEG (fun i dst =>
    let tmp := map (fun j => galois_multiplication (p2.[j]) (p1.[i])) (seq 0 RS_12_9_POLY_MAXDEG)
               ++ replicate RS_12_9_POLY_MAXDEG 0 in
    let tmp := take (RS_12_9_POLY_MAXDEG * 2) (replicate i 0 ++ tmp) in
    map (fun j => Z.lxor (dst.[j]) (tmp.[j])) (seq 0 (RS_12_9_POLY_MAXDEG * 2)))
    (replicate (RS_12_9_POLY_MAXDEG * 2) 0).

Definition calc_error_evaluator_poly (locator syndrome : list Z) : list Z :=
  take RS_12_9_CHECKSUMSIZE (multiplicate_polys locator syndrome)
  ++ replicate (RS_12_9_POLY_MAXDEG - RS_12_9_CHECKSUMSIZE) 0.

Definition compute_discrepancy (locator syndrome : list Z) (L n : nat) : Z :=
  for_ 0 (S L) (fun i sum => Z.lxor sum (galois_multiplication (locator.[i]) (syndrome.[(n - i)%nat]))) 0.

(** The state of Berlekamp-Massey: the locator, [D], [L] and [k]. *)
Record bm_state := mk_bm { bm_locator : list Z; bm_D : list Z; bm_L : Z; bm_k : Z }.

Definition bm_step (syndrome : list Z) (n : nat) (s : bm_state) : bm_state :=
  let d := compute_discrepancy (bm_locator s) syndrome (Z.to_nat (bm_L s)) n in
  let s :=
    if negb (d =? 0) then
      let psi2 := map (fun i => Z.lxor ((bm_locator s).[i]) (galois_multiplication d ((bm_D s).[i])))
                    (seq 0 RS_12_9_POLY_MAXDEG) in
      if bm_L s <? Z.of_nat n - bm_k s then
        mk_bm psi2
          (map (fun i => galois_multiplication ((bm_locator s).[i]) (galois_inv d)) (seq 0 RS_12_9_POLY_MAXDEG))
          (Z.of_nat n - bm_k s) (Z.of_nat n - bm_L s)
      else mk_bm psi2 (bm_D s) (bm_L s) (bm_k s)
    else s in
  mk_bm (bm_locator s) (multiply_poly_z (bm_D s)) (bm_L s) (bm_k s).

(** The locator and the evaluator. *)
Definition calculate (syndrome : list Z) : list Z * list Z :=
  let s := for_ 0 RS_12_9_CHECKSUMSIZE (bm_step syndrome) (mk_bm [1; 0; 0; 0; 0; 0] [0; 1; 0; 0; 0; 0] 0 (-1)) in
  (bm_locator s, calc_error_evaluator_poly (bm_locator s) syndrome).

(** The error locations, in the order they are found. *)
Definition find_roots (locator : list Z) : list Z :=
  for_ 1 256 (fun r locations =>
    let sum := for_ 0 (RS_12_9_CHECKSUMSIZE + 1) (fun k sum =>
        Z.lxor sum (galois_multiplication (galois_exp ((Z.of_nat k * Z.of_nat r) mod 255)) (locator.[k]))) 0 in
    if sum =? 0 then locations ++ [255 - Z.of_nat r] else locations) [].

(** The first three bytes of the syndrome. *)
Definition calc_syndrome (codeword : list Z) : list Z :=
  map (fun j => for_ 0 (RS_12_9_DATASIZE + RS_12_9_CHECKSUMSIZE) (fun i s =>
      Z.lxor (codeword.[i]) (galois_multiplication (galois_exp (Z.of_nat j + 1)) s)) 0) (seq 0 3).

Definition check_syndrome (syndrome : list Z) : Z :=
  if existsb (fun i => negb (syndrome.[i] =? 0)) (seq 0 3) then 1 else 0.

(** The codeword, the result and [*errors_found]. *)
Definition rs_12_9_correct_errors (codeword syndrome : list Z) : list Z * rs_12_9_result * Z :=
  if check_syndrome syndrome =? 0 then (codeword, NO_ERRORS_FOUND, 0)
  else
    let '(locator, evaluator) := calculate syndrome in
    let roots := find_roots locator in
    let found := Z.of_nat (length roots) in
    if negb (found =? 1) then (codeword, ERRORS_CANT_BE_CORRECTED, found)
    else
      let i := roots.[0] in
      if Z.of_nat (RS_12_9_DATASIZE + RS_12_9_CHECKSUMSIZE) <=? i then (codeword, ERRORS_CANT_BE_CORRECTED, found)
      else
        let num := for_ 0 RS_12_9_POLY_MAXDEG (fun j num =>
            Z.lxor num (galois_multiplication (evaluator.[j]) (galois_exp (((255 - i) * Z.of_nat j) mod 255)))) 0 in
        let denom := for_ 0 3 (fun h denom =>
            let j := (2 * h + 1)%nat in
            Z.lxor denom (galois_multiplication (locator.[j])
              (galois_exp (((255 - i) * (Z.of_nat j - 1)) mod 255)))) 0 in
        let err := galois_multiplication num (galois_inv denom) in
        let p := (12 - Z.to_nat i - 1)%nat in
        let codeword := codeword.[p <- Z.lxor (codeword.[p]) err] in
        if check_syndrome (calc_syndrome codeword) =? 0 then (codeword, ERRORS_CORRECTED, found)
        else (codeword, ERRORS_CANT_BE_CORRECTED, found).

(** ** The field *)

Definition byte (x : Z) : Prop := 0 <= x < 256.

Lemma byte_lxor a b : byte a -> byte b -> byte (Z.lxor a b).
Proof. unfold byte. change 256 with (2 ^ 8). intros. by apply lxor_range. Qed.

(** Multiplication by the generator, without the tables. *)
Definition xtime (x : Z) : Z := Z.lxor (Z.shiftl x 1) (if Z.testbit x 7 then 285 else 0).

Lemma xtime_lxor a b : xtime (Z.lxor a b) = Z.lxor (xtime a) (xtime b).
Proof.
  unfold xtime. rewrite Z.shiftl_lxor, Z.lxor_spec.
  destruct (Z.testbit a 7), (Z.testbit b 7); cbn [xorb]; xor_solve.
Qed.

Lemma iter_xtime_lxor k a b : Nat.iter k xtime (Z.lxor a b) = Z.lxor (Nat.iter k xtime a) (Nat.iter k xtime b).
Proof. induction k as [|k IH]; [done|]. rewrite !Nat.iter_succ. by rewrite IH, xtime_lxor. Qed.

Lemma iter_xtime_0 k : Nat.iter k xtime 0 = 0.
Proof. induction k as [|k IH]; [done|]. rewrite !Nat.iter_succ. by rewrite IH. Qed.

(** The tables are inverse to each other, and the first lists the powers of the
    generator. *)
Lemma exp_log x : 0 < x < 256 -> galois_exp (galois_log x) = x /\ 0 <= galois_log x < 255.
Proof.
  intros Hx.
  pose proof (check_Z (fun x => (x =? 0) || ((galois_exp (galois_log x) =? x)
    && (0 <=? galois_log x) && (galois_log x <? 255))) 256 ltac:(vm_compute; reflexivity) x ltac:(lia)) as H.
  cbn beta in H. lia.
Qed.

Lemma exp_facts k : 0 <= k < 255 ->
  0 < galois_exp k < 256 /\ galois_log (galois_exp k) = k /\ galois_exp ((k + 1) mod 255) = xtime (galois_exp k).
Proof.
  intros Hk.
  pose proof (check_Z (fun k => (0 <? galois_exp k) && (galois_exp k <? 256) && (galois_log (galois_exp k) =? k)
    && (galois_exp ((k + 1) mod 255) =? xtime (galois_exp k))) 255 ltac:(vm_compute; reflexivity) k ltac:(lia)) as H.
  cbn beta in H. lia.
Qed.

#[local] Opaque galois_exp galois_log.

Lemma gm_0_l b : galois_multiplication 0 b = 0.
Proof. done. Qed.

Lemma gm_0_r a : galois_multiplication a 0 = 0.
Proof. unfold galois_multiplication. by rewrite orb_true_r. Qed.

Lemma gm_nz a b : a <> 0 -> b <> 0 ->
  galois_multiplication a b = galois_exp ((galois_log a + galois_log b) mod 255).
Proof. intros Ha Hb. unfold galois_multiplication. by rewrite (proj2 (Z.eqb_neq a 0)), (proj2 (Z.eqb_neq b 0)). Qed.

Lemma gm_comm a b : galois_multiplication a b = galois_multiplication b a.
Proof. unfold galois_multiplication. by rewrite orb_comm, Z.add_comm. Qed.

Lemma gm_nonzero a b : 0 < a < 256 -> 0 < b < 256 -> 0 < galois_multiplication a b < 256.
Proof.
  intros Ha Hb. rewrite gm_nz by lia.
  apply exp_facts. apply Z.mod_pos_bound. lia.
Qed.

Lemma gm_byte a b : byte a -> byte b -> byte (galois_multiplication a b).
Proof.
  unfold byte. intros Ha Hb.
  destruct (Z.eq_dec a 0) as [->|Ha0]; [rewrite gm_0_l; lia|].
  destruct (Z.eq_dec b 0) as [->|Hb0]; [rewrite gm_0_r; lia|].
  pose proof (gm_nonzero a b). lia.
Qed.

(** Multiplication of powers of the generator adds the exponents. *)
Lemma gm_exp j k : 0 <= j < 255 -> 0 <= k < 255 ->
  galois_multiplication (galois_exp j) (galois_exp k) = galois_exp ((j + k) mod 255).
Proof.
  intros Hj Hk. destruct (exp_facts j Hj) as (? & Ej & _), (exp_facts k Hk) as (? & Ek & _).
  rewrite gm_nz by lia. by rewrite Ej, Ek.
Qed.

Lemma exp_of a : 0 < a < 256 -> exists k, a = galois_exp k /\ 0 <= k < 255.
Proof. intros Ha. destruct (exp_log a Ha) as [E Hl]. by exists (galois_log a). Qed.

Lemma gm_assoc a b c : byte a -> byte b -> byte c ->
  galois_multiplication a (galois_multiplication b c) = galois_multiplication (galois_multiplication a b) c.
Proof.
  unfold byte. intros Ha Hb Hc.
  destruct (Z.eq_dec a 0) as [->|Ha0]; [by rewrite !gm_0_l|].
  destruct (Z.eq_dec b 0) as [->|Hb0]; [by rewrite gm_0_l, gm_0_r|].
  destruct (Z.eq_dec c 0) as [->|Hc0]; [by rewrite !gm_0_r|].
  destruct (exp_of a ltac:(lia)) as (i & -> & Hi), (exp_of b ltac:(lia)) as (j & -> & Hj),
    (exp_of c ltac:(lia)) as (k & -> & Hk).
  pose proof (fun x => Z.mod_pos_bound x 255 ltac:(lia)) as M.
  rewrite (gm_exp j k), (gm_exp i j), !gm_exp by (done || apply M). f_equal. rewrite Z.add_mod_idemp_r, Z.add_mod_idemp_l by lia. f_equal. lia.
Qed.

Lemma gm_1_l a : byte a -> galois_multiplication 1 a = a.
Proof.
  unfold byte. intros Ha. destruct (Z.eq_dec a 0) as [->|Ha0]; [by rewrite gm_0_r|].
  destruct (exp_log a ltac:(lia)) as [E Hl].
  rewrite gm_nz by lia. change (galois_log 1) with 0. by rewrite Z.add_0_l, Z.mod_small, E.
Qed.

Lemma gm_inv a : 0 < a < 256 -> galois_multiplication a (galois_inv a) = 1 /\ 0 < galois_inv a < 256.
Proof.
  intros Ha. destruct (exp_of a Ha) as (k & -> & Hk). unfold galois_inv.
  destruct (exp_facts k Hk) as (_ & -> & _).
  destruct (Z.eq_dec k 0) as [->|H0]; [split; [reflexivity|change (galois_exp (255 - 0)) with 1; lia]|].
  split; [|apply exp_facts; lia]. rewrite gm_exp by lia.
  by replace (k + (255 - k)) with 255 by lia.
Qed.

(** Multiplying by the k-th power is k doublings, hence linear. *)
Lemma gm_exp_xtime k x : (k < 255)%nat -> byte x ->
  galois_multiplication (galois_exp (Z.of_nat k)) x = Nat.iter k xtime x.
Proof.
  unfold byte. intros Hk Hx. destruct (Z.eq_dec x 0) as [->|Hx0]; [by rewrite gm_0_r, iter_xtime_0|].
  destruct (exp_of x ltac:(lia)) as (l & -> & Hl).
  induction k as [|k IH].
  - change (galois_exp (Z.of_nat 0)) with 1. by rewrite gm_1_l.
  - rewrite Nat.iter_succ, <- IH, !gm_exp by lia.
    pose proof (Z.mod_pos_bound (Z.of_nat k + l) 255 ltac:(lia)) as M.
    destruct (exp_facts _ M) as (_ & _ & <-). f_equal.
    rewrite Z.add_mod_idemp_l by lia. f_equal. lia.
Qed.

Lemma gm_lxor_r a b c : byte a -> byte b -> byte c ->
  galois_multiplication a (Z.lxor b c) = Z.lxor (galois_multiplication a b) (galois_multiplication a c).
Proof.
  intros Ha Hb Hc. destruct (Z.eq_dec a 0) as [->|Ha0]; [done|]. unfold byte in Ha.
  destruct (exp_of a ltac:(lia)) as (k & -> & Hk). rewrite <- (Z2Nat.id k) by lia.
  rewrite !gm_exp_xtime by (lia || done || by apply byte_lxor). apply iter_xtime_lxor.
Qed.

Lemma gm_lxor_l a b c : byte a -> byte b -> byte c ->
  galois_multiplication (Z.lxor b c) a = Z.lxor (galois_multiplication b a) (galois_multiplication c a).
Proof. intros. rewrite !(gm_comm _ a). by apply gm_lxor_r. Qed.

(** ** The syndrome of a codeword with one wrong byte *)

Definition horner (m : Z) (n : nat) (c : list Z) : Z :=
  for_ 0 n (fun i s => Z.lxor (c.[i]) (galois_multiplication m s)) 0.

Lemma calc_syndrome_horner c : calc_syndrome c = map (fun j => horner (galois_exp (Z.of_nat j + 1)) 12 c) (seq 0 3).
Proof. done. Qed.

Lemma nth_byte c i : Forall byte c -> byte (c.[i]).
Proof.
  intros H. destruct (decide (i < length c)%nat) as [Hi|Hi].
  - by apply Forall_nth.
  - rewrite nth_overflow by lia. unfold byte. lia.
Qed.

Lemma horner_byte m n c : byte m -> Forall byte c -> byte (horner m n c).
Proof.
  intros Hm Hc. unfold horner. apply (for_inv byte); [unfold byte; lia|]. intros. apply byte_lxor; [by apply nth_byte|]. by apply gm_byte.
Qed.

Lemma iter_gm_byte m k a : byte m -> byte a -> byte (Nat.iter k (galois_multiplication m) a).
Proof. intros Hm Ha. induction k as [|k IH]; [done|]. rewrite Nat.iter_succ. by apply gm_byte. Qed.

Lemma horner_flip m n c p a : byte m -> Forall byte c -> byte a -> (p < length c)%nat ->
  horner m n (c.[p <- Z.lxor (c.[p]) a]) =
  Z.lxor (horner m n c) (if decide (p < n)%nat then Nat.iter (n - 1 - p) (galois_multiplication m) a else 0).
Proof.
  intros Hm Hc Ha Hp. induction n as [|n IH]; [done|].
  unfold horner in *. rewrite !for_S by lia. rewrite IH. fold (horner m n c).
  pose proof (horner_byte m n c Hm Hc) as Hb. pose proof (iter_gm_byte m (n - 1 - p) a Hm Ha) as Hi.
  rewrite nth_insert. destruct (decide (p < S n)%nat) as [H1|H1], (decide (p < n)%nat) as [H2|H2]; try lia.
  - destruct (decide (p = n /\ _)) as [[-> _]|_]; [lia|].
    rewrite gm_lxor_r by done. rewrite <- Nat.iter_succ. replace (S (n - 1 - p)) with (S n - 1 - p)%nat by lia.
    xor_solve.
  - assert (p = n) as -> by lia. destruct (decide (n = n /\ _)) as [_|[]]; [|by split].
    replace (S n - 1 - n)%nat with O by lia. cbn [Nat.iter nat_rect]. rewrite Z.lxor_0_r. cbn. xor_solve.
  - destruct (decide (p = n /\ _)) as [[-> _]|_]; [lia|]. by rewrite !Z.lxor_0_r.
Qed.

Lemma exp_byte k : 0 <= k < 255 -> byte (galois_exp k).
Proof. intros Hk. destruct (exp_facts k Hk) as [H _]. unfold byte. lia. Qed.

Lemma gm_exp_exp x y a : 0 <= x -> 0 <= y -> x + y < 255 -> byte a ->
  galois_multiplication (galois_exp x) (galois_multiplication (galois_exp y) a)
  = galois_multiplication (galois_exp (x + y)) a.
Proof.
  intros Hx Hy Hxy Ha. rewrite gm_assoc, gm_exp by (lia || done || (apply exp_byte; lia)).
  by rewrite Z.mod_small by lia.
Qed.

Lemma iter_gm_exp x k a : 0 <= x -> x * Z.of_nat k < 255 -> byte a ->
  Nat.iter k (galois_multiplication (galois_exp x)) a = galois_multiplication (galois_exp (x * Z.of_nat k)) a.
Proof.
  intros Hx Hk Ha. induction k as [|k IH].
  - rewrite Z.mul_0_r. change (galois_exp 0) with 1. by rewrite gm_1_l.
  - assert (0 <= x * Z.of_nat k < 255) by nia. assert (x < 255) by nia.
    rewrite Nat.iter_succ, IH, gm_exp_exp by (lia || done). do 2 f_equal. lia.
Qed.

(** The syndrome of a codeword whose byte [p] was changed by [a]: powers of the
    locator [X] times the error value. *)
Lemma syndrome_single c p a :
  length c = 12%nat -> Forall byte c -> calc_syndrome c = [0; 0; 0] -> (p < 12)%nat -> byte a ->
  let X := galois_exp (Z.of_nat (11 - p)) in
  let s1 := galois_multiplication X a in
  calc_syndrome (c.[p <- Z.lxor (c.[p]) a])
  = [s1; galois_multiplication X s1; galois_multiplication X (galois_multiplication X s1)].
Proof.
  intros Hl Hc H0 Hp Ha X s1. rewrite calc_syndrome_horner in *. cbn [map seq] in *.
  injection H0 as E1 E2 E3.
  rewrite !horner_flip by (done || lia || (apply exp_byte; lia)).
  rewrite E1, E2, E3, !Z.lxor_0_l. destruct (decide (p < 12)%nat) as [_|]; [|lia].
  rewrite !iter_gm_exp by (done || lia). subst s1 X.
  rewrite !gm_exp_exp by (lia || done). by repeat (f_equal; try lia).
Qed.

#[local] Opaque galois_multiplication galois_inv.

(** ** Berlekamp-Massey on such a syndrome *)

Section SingleError.
Context (s1 X j3 j4 j5 : Z).
Context (Hs1 : 0 < s1 < 256) (HX : 0 < X < 256).
Notation s2 := (galois_multiplication X s1).
Notation s3 := (galois_multiplication X s2).
Notation syn := [s1; s2; s3; j3; j4; j5].

Ltac gm_simpl :=
  unfold for_, RS_12_9_POLY_MAXDEG, multiply_poly_z;
  cbn [fold_left map seq nth app take replicate Nat.sub Nat.add Nat.mul];
  rewrite ?gm_0_r, ?gm_0_l, ?Z.lxor_0_r, ?Z.lxor_0_l.

Lemma bm_step_0 : bm_step syn 0 (mk_bm [1; 0; 0; 0; 0; 0] [0; 1; 0; 0; 0; 0] 0 (-1))
  = mk_bm [1; s1; 0; 0; 0; 0] [0; galois_inv s1; 0; 0; 0; 0] 1 0.
Proof.
  assert (Hd : compute_discrepancy [1; 0; 0; 0; 0; 0] syn 0 0 = s1).
  { unfold compute_discrepancy. gm_simpl. by rewrite gm_1_l by (unfold byte; lia). }
  unfold bm_step. cbn [bm_L bm_k bm_locator bm_D]. change (Z.to_nat 0) with O. rewrite Hd.
  rewrite (proj2 (Z.eqb_neq s1 0)) by lia. cbn [negb].
  change (0 <? Z.of_nat 0 - -1) with true. cbn [bm_L bm_k bm_locator bm_D]. gm_simpl.
  destruct (gm_inv s1 Hs1) as [_ Hi].
  rewrite (gm_comm s1), !gm_1_l by (unfold byte; lia). done.
Qed.

Lemma byte_pos x : 0 < x < 256 -> byte x.
Proof. unfold byte. lia. Qed.

Lemma bm_step_1 : bm_step syn 1 (mk_bm [1; s1; 0; 0; 0; 0] [0; galois_inv s1; 0; 0; 0; 0] 1 0)
  = mk_bm [1; X; 0; 0; 0; 0] [0; 0; galois_inv s1; 0; 0; 0] 1 0.
Proof.
  set (d := galois_multiplication (Z.lxor X s1) s1).
  pose proof (byte_pos s1 Hs1) as Bs. pose proof (byte_pos X HX) as BX.
  assert (Hd : compute_discrepancy [1; s1; 0; 0; 0; 0] syn 1 1 = d).
  { unfold compute_discrepancy. gm_simpl. subst d.
    rewrite gm_1_l by (by apply gm_byte). by rewrite gm_lxor_l. }
  unfold bm_step. cbn [bm_L bm_k bm_locator bm_D]. change (Z.to_nat 1) with 1%nat. rewrite Hd.
  change (1 <? Z.of_nat 1 - 0) with false. cbn iota.
  destruct (Z.eqb_spec d 0) as [H0|H0]; cbn [negb bm_L bm_k bm_locator bm_D]; gm_simpl; [|].
  - assert (Z.lxor X s1 = 0) as E%Z.lxor_eq; [|by rewrite E].
    destruct (Z.eq_dec (Z.lxor X s1) 0) as [|Hn]; [done|].
    assert (B : byte (Z.lxor X s1)) by (by apply byte_lxor). unfold byte in B.
    pose proof (gm_nonzero (Z.lxor X s1) s1 ltac:(lia) Hs1). subst d. lia.
  - destruct (gm_inv s1 Hs1) as [E Hi]. subst d.
    rewrite <- gm_assoc, E by (try apply byte_lxor; try apply byte_pos; done).
    rewrite gm_comm, gm_1_l by (by apply byte_lxor).
    by replace (Z.lxor s1 (Z.lxor X s1)) with X by xor_solve.
Qed.

Lemma bm_step_2 : bm_locator (bm_step syn 2 (mk_bm [1; X; 0; 0; 0; 0] [0; 0; galois_inv s1; 0; 0; 0] 1 0))
  = [1; X; 0; 0; 0; 0].
Proof.
  assert (Hd : compute_discrepancy [1; X; 0; 0; 0; 0] syn 1 2 = 0).
  { unfold compute_discrepancy. gm_simpl. rewrite gm_1_l, Z.lxor_nilpotent; [done|].
    repeat apply gm_byte; by apply byte_pos. }
  unfold bm_step. cbn [bm_L bm_k bm_locator bm_D]. change (Z.to_nat 1) with 1%nat. by rewrite Hd.
Qed.

Lemma evaluator_single : calc_error_evaluator_poly [1; X; 0; 0; 0; 0] syn = [s1; 0; 0; 0; 0; 0].
Proof.
  pose proof (byte_pos s1 Hs1) as Bs. pose proof (byte_pos X HX) as BX.
  assert (B2 : byte s2) by (by apply gm_byte). assert (B3 : byte s3) by (by apply gm_byte).
  unfold calc_error_evaluator_poly, multiplicate_polys, RS_12_9_CHECKSUMSIZE. gm_simpl.
  rewrite !(gm_comm _ 1), !gm_1_l, !(gm_comm _ X), !Z.lxor_nilpotent by done. done.
Qed.

Lemma calculate_single : calculate syn = ([1; X; 0; 0; 0; 0], [s1; 0; 0; 0; 0; 0]).
Proof.
  unfold calculate, for_, RS_12_9_CHECKSUMSIZE. cbn [fold_left seq Nat.sub].
  by rewrite bm_step_0, bm_step_1, bm_step_2, evaluator_single.
Qed.
End SingleError.

Lemma find_roots_single k : (k < 12)%nat -> find_roots [1; galois_exp (Z.of_nat k); 0; 0; 0; 0] = [Z.of_nat k].
Proof.
  intros Hk.
  assert (H : forallb (fun k => bool_decide (find_roots [1; galois_exp (Z.of_nat k); 0; 0; 0; 0] = [Z.of_nat k]))
    (seq 0 12) = true) by (vm_compute; reflexivity).
  apply (check_nat _ _ H) in Hk. by apply bool_decide_eq_true in Hk.
Qed.

#[local] Opaque find_roots calculate calc_syndrome.

(** ** The decoder *)

Lemma check_syndrome_zero s : check_syndrome s = 0 <-> s.[0] = 0 /\ s.[1] = 0 /\ s.[2] = 0.
Proof. unfold check_syndrome. cbn [existsb seq]. repeat case_match; lia. Qed.

(** The Forney quotient for a one-term evaluator and a linear locator. *)
Lemma forney_single s1 X k : byte s1 -> byte X ->
  for_ 0 RS_12_9_POLY_MAXDEG (fun j num =>
    Z.lxor num (galois_multiplication ([s1; 0; 0; 0; 0; 0].[j]) (galois_exp ((k * Z.of_nat j) mod 255)))) 0 = s1 /\
  for_ 0 3 (fun h denom =>
    Z.lxor denom (galois_multiplication ([1; X; 0; 0; 0; 0].[(2 * h + 1)%nat])
      (galois_exp ((k * (Z.of_nat (2 * h + 1) - 1)) mod 255)))) 0 = X.
Proof.
  intros H1 HX. unfold for_, RS_12_9_POLY_MAXDEG. cbn [fold_left seq nth Nat.sub Nat.mul Nat.add].
  change (Z.of_nat 0) with 0. change (Z.of_nat 1 - 1) with 0.
  rewrite !Z.mul_0_r, !gm_0_l, !Z.lxor_0_r, !Z.lxor_0_l. change (galois_exp (0 mod 255)) with 1.
  by rewrite !(gm_comm _ 1), !gm_1_l.
Qed.

Lemma correct_single (c junk : list Z) p a :
  length c = 12%nat -> Forall byte c -> calc_syndrome c = [0; 0; 0] -> (p < 12)%nat -> 0 < a < 256 -> length junk = 3%nat ->
  let r := c.[p <- Z.lxor (c.[p]) a] in
  rs_12_9_correct_errors r (calc_syndrome r ++ junk) = (c, ERRORS_CORRECTED, 1).
Proof.
  intros Hl Hc H0 Hp Ha Hj r. unfold r at 2.
  destruct junk as [|j3 [|j4 [|j5 [|]]]]; try discriminate Hj.
  rewrite syndrome_single by (done || unfold byte; lia). cbn [app].
  set (X := galois_exp (Z.of_nat (11 - p))). set (s1 := galois_multiplication X a).
  assert (HX : 0 < X < 256) by (apply exp_facts; lia).
  assert (Hs : 0 < s1 < 256) by (by apply gm_nonzero).
  unfold rs_12_9_correct_errors. destruct (Z.eqb_spec (check_syndrome
    [s1; galois_multiplication X s1; galois_multiplication X (galois_multiplication X s1); j3; j4; j5]) 0) as [E|_].
  { apply check_syndrome_zero in E as [E _]. cbn in E. lia. }
  rewrite calculate_single by done. subst X. rewrite find_roots_single by lia.
  set (X := galois_exp (Z.of_nat (11 - p))) in *.
  change (negb (Z.of_nat (length [Z.of_nat (11 - p)]) =? 1)) with false.
  change ([Z.of_nat (11 - p)].[0]) with (Z.of_nat (11 - p)). cbn iota.
  rewrite (proj2 (Z.leb_gt _ _)) by (unfold RS_12_9_DATASIZE, RS_12_9_CHECKSUMSIZE; lia).
  destruct (forney_single s1 X (255 - Z.of_nat (11 - p)) (byte_pos s1 Hs) (byte_pos X HX)) as [-> ->].
  destruct (gm_inv X HX) as [E Hi].
  assert (galois_multiplication s1 (galois_inv X) = a) as ->.
  { subst s1. rewrite (gm_comm X a), <- gm_assoc, E, gm_comm, gm_1_l by (by apply byte_pos). done. }
  replace (12 - Z.to_nat (Z.of_nat (11 - p)) - 1)%nat with p by lia.
  assert (r.[p <- Z.lxor (r.[p]) a] = c) as ->; [|by rewrite H0].
  subst r. apply list_eq_nth; [len|]. intros i _.
  destruct (decide (p = i)) as [<-|Hn].
  - rewrite !nth_insert_eq by len. xor_solve.
  - by rewrite !nth_insert_ne.
Qed.

(** C24: a codeword with one wrong byte, at any of the twelve positions and off by
    any nonzero value, is corrected: Berlekamp-Massey finds the locator, the
    search its one root and the quotient the error, whatever the uninitialised
    half of the syndrome holds. *)
Theorem rs_12_9_corrects_single (c junk : list Z) p a :
  length c = 12%nat -> Forall byte c -> calc_syndrome c = [0; 0; 0] -> (p < 12)%nat -> 0 < a < 256 -> length junk = 3%nat ->
  let r := c.[p <- Z.lxor (c.[p]) a] in
  rs_12_9_correct_errors r (calc_syndrome r ++ junk) = (c, ERRORS_CORRECTED, 1).
Proof. apply correct_single. Qed.

(** The checksum bytes of this codeword are those of its first nine. *)
Lemma rs_12_9_corrects_single_witness :
  let c := [0; 16; 32; 0; 12; 48; 47; 155; 229; 76; 66; 204] in
  let r := c.[4%nat <- Z.lxor (c.[4%nat]) 0xA5] in
  rs_12_9_correct_errors r (calc_syndrome r ++ [9; 8; 7]) = (c, ERRORS_CORRECTED, 1).
Proof.
  intros c r. refine (rs_12_9_corrects_single c [9; 8; 7] 4 0xA5 _ _ _ _ _ _);
    [reflexivity | repeat constructor; unfold byte; lia | vm_compute; reflexivity | lia | lia | reflexivity].
Defined.

Lemma correct_sound (r junk : list Z) :
  length r = 12%nat ->
  let '(c, res, found) := rs_12_9_correct_errors r (calc_syndrome r ++ junk) in
  length c = 12%nat /\ (hamming_dist r c <= 1)%nat /\
  (res <> ERRORS_CANT_BE_CORRECTED -> calc_syndrome c = [0; 0; 0]).
Proof.
  intros Hl. unfold rs_12_9_correct_errors.
  assert (Z3 : forall c junk, check_syndrome (calc_syndrome c ++ junk) = 0 -> calc_syndrome c = [0; 0; 0]).
  { intros c j [H0 [H1 H2]]%check_syndrome_zero. pose proof (calc_syndrome_horner c) as E. cbn [map seq] in E.
    rewrite E in *. cbn [app nth] in H0, H1, H2. by rewrite H0, H1, H2. }
  assert (Hself : (hamming_dist r r <= 1)%nat) by (by apply (hamming_dist_one r r 0)).
  destruct (Z.eqb_spec (check_syndrome (calc_syndrome r ++ junk)) 0) as [E|_].
  { split; [done|]. split; [done|]. intros _. by apply (Z3 r junk). }
  destruct (calculate _) as [locator evaluator].
  destruct (negb _); [done|]. destruct (_ <=? _); [done|].
  match goal with |- context [r.[?p <- _]] => set (q := p) end.
  match goal with |- context [r.[q <- ?v]] => set (c := r.[q <- v]) end.
  assert (Hc : length c = 12%nat) by (subst c; by rewrite length_insert).
  assert (Hd : (hamming_dist r c <= 1)%nat).
  { apply (hamming_dist_one r c q). intros j Hj. subst c. by rewrite nth_insert_ne. }
  destruct (Z.eqb_spec (check_syndrome (calc_syndrome c)) 0) as [E|_]; [|split; [exact Hc|split; [exact Hd|]]; intros H; by exfalso; apply H].
  split; [done|]. split; [done|]. intros _. apply (Z3 c []). by rewrite app_nil_r.
Qed.

(** The decoder never touches more than one byte of the codeword, and what it
    returns as error-free or corrected has a zero syndrome: it is a codeword. *)
Theorem rs_12_9_sound (r junk : list Z) :
  length r = 12%nat ->
  let '(c, res, found) := rs_12_9_correct_errors r (calc_syndrome r ++ junk) in
  length c = 12%nat /\ (hamming_dist r c <= 1)%nat /\
  (res <> ERRORS_CANT_BE_CORRECTED -> calc_syndrome c = [0; 0; 0]).
Proof. apply correct_sound. Qed.

Lemma rs_12_9_sound_witness :
  let r := [1; 16; 32; 0; 12; 48; 47; 155; 229; 76; 66; 205] in
  let '(c, res, found) := rs_12_9_correct_errors r (calc_syndrome r ++ [0; 0; 0]) in
  length c = 12%nat /\ (hamming_dist r c <= 1)%nat /\
  (res <> ERRORS_CANT_BE_CORRECTED -> calc_syndrome c = [0; 0; 0]).
Proof. exact (rs_12_9_sound [1; 16; 32; 0; 12; 48; 47; 155; 229; 76; 66; 205] [0; 0; 0] eq_refl). Defined.
