(* ===== verification/BitPacking.v ===== *)
(** * [core/util/bit_packing.c]: octets to bits and back

    Bits are one per byte, most significant first.  A buffer is an
    [option (list Z)], [None] for a null pointer; its capacity is a separate
    argument, as in the code.  The counters of [DSD_NEO_TEST_HOOKS] builds are not
    part of the model: [note_truncation] is empty in the others.  The CRC of the
    same file is in [Crc]. *)
From S2P Require Import Prelude.

Definition clamp_to_capacity (requested src_limit dst_limit : nat) : nat :=
  let count := requested in
  let count := if (src_limit <? count)%nat then src_limit else count in
  if (dst_limit <? count)%nat then dst_limit else count.

Definition unpack_bounded (input : option (list Z)) (input_capacity_bytes : nat)
    (output : option (list Z)) (output_capacity_bits requested_bytes : nat) : option (list Z) * nat :=
  match input, output with
  | Some input, Some output =>
      let count := clamp_to_capacity requested_bytes input_capacity_bytes (output_capacity_bits / 8) in
      (Some (for_ 0 count (fun i out =>
         let octet := input.[i] in
         let b := (i * 8)%nat in
         let out := out.[(b + 0)%nat <- u8 (Z.land (Z.shiftr octet 7) 1)] in
         let out := out.[(b + 1)%nat <- u8 (Z.land (Z.shiftr octet 6) 1)] in
         let out := out.[(b + 2)%nat <- u8 (Z.land (Z.shiftr octet 5) 1)] in
         let out := out.[(b + 3)%nat <- u8 (Z.land (Z.shiftr octet 4) 1)] in
         let out := out.[(b + 4)%nat <- u8 (Z.land (Z.shiftr octet 3) 1)] in
         let out := out.[(b + 5)%nat <- u8 (Z.land (Z.shiftr octet 2) 1)] in
         let out := out.[(b + 6)%nat <- u8 (Z.land (Z.shiftr octet 1) 1)] in
         out.[(b + 7)%nat <- u8 (Z.land octet 1)]) output), count)
  | _, _ => (output, 0%nat)
  end.

(** [bits] is the array from the given cell on. *)
Definition pack_8_bits_msb (bits : nat -> Z) : Z :=
  Z.lor (Z.lor (Z.lor (Z.lor (Z.lor (Z.lor (Z.lor
    (Z.shiftl (Z.land (bits 0%nat) 1) 7) (Z.shiftl (Z.land (bits 1%nat) 1) 6))
    (Z.shiftl (Z.land (bits 2%nat) 1) 5)) (Z.shiftl (Z.land (bits 3%nat) 1) 4))
    (Z.shiftl (Z.land (bits 4%nat) 1) 3)) (Z.shiftl (Z.land (bits 5%nat) 1) 2))
    (Z.shiftl (Z.land (bits 6%nat) 1) 1)) (Z.land (bits 7%nat) 1).

(** The code spells the expression of [pack_8_bits_msb] out once more here. *)
Definition pack_bounded (input : option (list Z)) (input_capacity_bits : nat)
    (output : option (list Z)) (output_capacity_bytes requested_bytes : nat) : option (list Z) * nat :=
  match input, output with
  | Some input, Some output =>
      let count := clamp_to_capacity requested_bytes (input_capacity_bits / 8) output_capacity_bytes in
      (Some (for_ 0 count (fun i out =>
         out.[i <- u8 (pack_8_bits_msb (fun k => input.[(i * 8 + k)%nat]))]) output), count)
  | _, _ => (output, 0%nat)
  end.

Definition dsd_unpack_bytes_to_bits := unpack_bounded.
Definition dsd_unpack_bytes_to_bits_truncating := unpack_bounded.
Definition dsd_pack_bits_to_bytes := pack_bounded.
Definition dsd_pack_bits_to_bytes_truncating := pack_bounded.

(** Eight bits at a time, then the rest one at a time; [len / 8] and [len mod 8]
    iterations of the two [while] loops. *)
Definition convert_bits_into_output (input : list Z) (len : nat) : Z :=
  let whole := (len / 8)%nat in
  let output := for_ 0 whole (fun i output =>
    Z.lor (u64 (Z.shiftl output 8)) (pack_8_bits_msb (fun k => input.[(8 * i + k)%nat]))) 0 in
  for_ 0 (len mod 8) (fun i output =>
    Z.lor (u64 (Z.shiftl output 1)) (Z.land (input.[(8 * whole + i)%nat]) 1)) output.

(** ** Packing *)

Lemma pack_8_bits_msb_value f : pack_8_bits_msb f = bits_value 8 (fun k => Z.land (f k) 1).
Proof.
  unfold pack_8_bits_msb, bits_value, for_. cbn [fold_left seq Nat.sub].
  destruct (land1_bit (f 0%nat)) as [-> | ->], (land1_bit (f 1%nat)) as [-> | ->], (land1_bit (f 2%nat)) as [-> | ->],
    (land1_bit (f 3%nat)) as [-> | ->], (land1_bit (f 4%nat)) as [-> | ->], (land1_bit (f 5%nat)) as [-> | ->],
    (land1_bit (f 6%nat)) as [-> | ->], (land1_bit (f 7%nat)) as [-> | ->]; reflexivity.
Qed.

Lemma clamp_to_capacity_min r s d : clamp_to_capacity r s d = Nat.min r (Nat.min s d).
Proof.
  unfold clamp_to_capacity. destruct (Nat.ltb_spec s r); [destruct (Nat.ltb_spec d s)|destruct (Nat.ltb_spec d r)]; lia.
Qed.

Lemma u64_shiftl_app x k b : 0 <= k <= 64 -> 0 <= b < 2 ^ k ->
  Z.lor (u64 (Z.shiftl x k)) b = u64 (x * 2 ^ k + b).
Proof.
  intros Hk Hb. unfold u64, wrap. rewrite Z.shiftl_mul_pow2 by lia.
  replace 64 with (k + (64 - k)) at 1 by lia. rewrite Z.pow_add_r by lia.
  pose proof (Z.pow_pos_nonneg 2 k ltac:(lia) ltac:(lia)). pose proof (Z.pow_pos_nonneg 2 (64 - k) ltac:(lia) ltac:(lia)).
  rewrite (Z.mul_comm x), Z.mul_mod_distr_l, Z.mul_comm, <- Z.shiftl_mul_pow2, lor_shiftl by lia.
  replace 64 with (k + (64 - k)) at 2 by lia. rewrite Z.pow_add_r by lia.
  rewrite (Z.add_comm (2 ^ k * x)), (Z.mul_comm (2 ^ k) x).
  rewrite Z.rem_mul_r by lia. rewrite Z.mod_add by lia.
  rewrite Z.div_add, (Z.div_small b), Z.add_0_l, (Z.mod_small b) by lia. lia.
Qed.

Lemma u64_mul_add x y b k : 0 <= k -> u64 x = u64 y -> u64 (x * 2 ^ k + b) = u64 (y * 2 ^ k + b).
Proof.
  intros Hk H. unfold u64, wrap in *. rewrite <- (Z.add_mod_idemp_l (x * _)), <- (Z.mul_mod_idemp_l x) by lia.
  by rewrite H, Z.mul_mod_idemp_l, Z.add_mod_idemp_l by lia.
Qed.

Lemma u64_idem x : u64 (u64 x) = u64 x.
Proof. unfold u64, wrap. by rewrite Z.mod_mod by lia. Qed.

(** ** [convert_bits_into_output] *)

Lemma convert_whole input n :
  for_ 0 n (fun i output =>
    Z.lor (u64 (Z.shiftl output 8)) (pack_8_bits_msb (fun k => input.[(8 * i + k)%nat]))) 0
  = u64 (bits_value (8 * n) (fun i => Z.land (input.[i]) 1)).
Proof.
  induction n as [|n IH]; [done|]. rewrite for_S, IH by lia. rewrite pack_8_bits_msb_value.
  replace (8 * S n)%nat with (8 * n + 8)%nat by lia. rewrite bits_value_app.
  rewrite u64_shiftl_app by (lia || (apply (bits_value_range 8); auto with dsd)).
  by apply u64_mul_add, u64_idem.
Qed.

(** [convert_bits_into_output] is the big-endian value of the low bits of
    its [len] bytes, reduced modulo 2^64: for more than 64 bits the first ones
    are shifted out. *)
Theorem convert_bits_into_output_value (input : list Z) (len : nat) :
  convert_bits_into_output input len = bits_value len (fun i => Z.land (input.[i]) 1) mod 2 ^ 64.
Proof.
  unfold convert_bits_into_output. rewrite convert_whole. change (?x mod 2 ^ 64) with (u64 x).
  rewrite (Nat.div_mod_eq len 8) at 3. generalize (len mod 8)%nat as r, (len / 8)%nat as n. intros r n.
  induction r as [|r IH]; [by rewrite for_nil, Nat.add_0_r|].
  rewrite for_S, IH, Nat.add_succ_r, bits_value_S by lia.
  rewrite u64_shiftl_app by (lia || (destruct (land1_bit (input.[(8 * n + r)%nat])); lia)).
  rewrite (u64_mul_add _ (bits_value (8 * n + r) (fun i => Z.land (input.[i]) 1))) by (lia || apply u64_idem).
  f_equal. lia.
Qed.

(** ** The round trip *)

Lemma unpack_octets input count out :
  for_ 0 count (fun i out =>
    let octet := input.[i] in
    let b := (i * 8)%nat in
    let out := out.[(b + 0)%nat <- u8 (Z.land (Z.shiftr octet 7) 1)] in
    let out := out.[(b + 1)%nat <- u8 (Z.land (Z.shiftr octet 6) 1)] in
    let out := out.[(b + 2)%nat <- u8 (Z.land (Z.shiftr octet 5) 1)] in
    let out := out.[(b + 3)%nat <- u8 (Z.land (Z.shiftr octet 4) 1)] in
    let out := out.[(b + 4)%nat <- u8 (Z.land (Z.shiftr octet 3) 1)] in
    let out := out.[(b + 5)%nat <- u8 (Z.land (Z.shiftr octet 2) 1)] in
    let out := out.[(b + 6)%nat <- u8 (Z.land (Z.shiftr octet 1) 1)] in
    out.[(b + 7)%nat <- u8 (Z.land octet 1)]) out
  = for_ 0 count (fun i out =>
      stores (fun k => (i * 8 + k)%nat) (fun k => Z.b2z (Z.testbit (input.[i]) (Z.of_nat (7 - k)))) 8 out) out.
Proof.
  apply for_ext. intros i o _. unfold stores, for_. cbn [fold_left seq Nat.sub].
  rewrite !shiftr_land1, land1_testbit by lia.
  assert (E : forall b, u8 (Z.b2z b) = Z.b2z b) by (by intros []). by rewrite !E.
Qed.

Lemma unpack_spec input count out : (8 * count <= length out)%nat ->
  let r := for_ 0 count (fun i out =>
    stores (fun k => (i * 8 + k)%nat) (fun k => Z.b2z (Z.testbit (input.[i]) (Z.of_nat (7 - k)))) 8 out) out in
  length r = length out /\
  (forall i k, (i < count)%nat -> (k < 8)%nat ->
     r.[(i * 8 + k)%nat] = Z.b2z (Z.testbit (input.[i]) (Z.of_nat (7 - k)))) /\
  (forall a, (8 * count <= a)%nat -> r.[a] = out.[a]).
Proof.
  intros Hl. induction count as [|count IH]; intros r.
  - subst r. rewrite for_nil by lia. split; [done|]. split; [lia|done].
  - subst r. rewrite for_S by lia. destruct IH as (IHl & IHb & IHr); [lia|].
    rewrite length_stores. split; [done|]. split.
    + intros i k Hi Hk. destruct (decide (i = count)) as [->|Hne].
      * apply (stores_hit (fun k => (count * 8 + k)%nat)
          (fun k => Z.b2z (Z.testbit (input.[count]) (Z.of_nat (7 - k))))); [lia|lia|].
        rewrite IHl. lia.
      * rewrite stores_miss by lia. apply IHb; lia.
    + intros a Ha. rewrite stores_miss by lia. apply IHr. lia.
Qed.

(** Unpacking octets and packing the bits again restores the octets.  For
    any request, the number of octets converted is the largest that fits both
    buffers, the bits are the octets' bits most significant first, and cells
    beyond the converted ones keep their contents both times. *)
Theorem unpack_pack_roundtrip (input out dst : list Z) (requested : nat) :
  Forall (fun x => 0 <= x < 256) input ->
  let n := Nat.min requested (Nat.min (length input) (length out / 8)) in
  (n <= length dst)%nat ->
  exists unpacked,
    dsd_unpack_bytes_to_bits (Some input) (length input) (Some out) (length out) requested = (Some unpacked, n) /\
    length unpacked = length out /\ drop (8 * n) unpacked = drop (8 * n) out /\
    (forall i k, (i < n)%nat -> (k < 8)%nat ->
       unpacked.[(i * 8 + k)%nat] = Z.b2z (Z.testbit (input.[i]) (Z.of_nat (7 - k)))) /\
    dsd_pack_bits_to_bytes (Some unpacked) (length unpacked) (Some dst) (length dst) n
    = (Some (take n input ++ drop n dst), n).
Proof.
  intros Hin n Hd. unfold dsd_unpack_bytes_to_bits, unpack_bounded. rewrite clamp_to_capacity_min. fold n.
  rewrite unpack_octets.
  assert (Hn8 : (8 * n <= length out)%nat) by (pose proof (Nat.Div0.mul_div_le (length out) 8); lia).
  destruct (unpack_spec input n out Hn8) as (Hl & Hb & Hr). cbv zeta in Hl, Hb, Hr.
  set (un := for_ 0 n _ out) in *. exists un. split; [done|]. split; [done|]. split; [|split; [exact Hb|]].
  - apply list_eq_nth; [len|]. intros i _. rewrite !nth_drop. apply Hr. lia.
  - unfold dsd_pack_bits_to_bytes, pack_bounded. rewrite clamp_to_capacity_min, Hl.
    replace (Nat.min n (Nat.min (length out / 8) (length dst))) with n by lia. do 2 f_equal.
    change (for_ 0 n _ dst) with
      (stores (fun i => i) (fun i => u8 (pack_8_bits_msb (fun k => un.[(i * 8 + k)%nat]))) n dst).
    apply list_eq_nth; [rewrite length_stores; len|]. intros i Hi. rewrite length_stores in Hi.
    destruct (decide (i < n)%nat) as [Hin'|Hout].
    + rewrite (stores_hit (fun i => i)) by lia. rewrite app_nth1, nth_take by len.
      assert (Hx : 0 <= input.[i] < 2 ^ Z.of_nat 8).
      { apply (Forall_lookup_1 _ _ i _ Hin). rewrite nth_lookup.
        by destruct (lookup_lt_is_Some_2 input i ltac:(lia)) as [x ->]. }
      rewrite pack_8_bits_msb_value, (bits_value_ext 8 _ (fun k => Z.b2z (Z.testbit (input.[i]) (Z.of_nat (7 - k))))).
      * rewrite bits_value_testbit by done. by apply Z.mod_small.
      * intros k Hk. rewrite Hb by lia. apply land1_id, b2z_bit.
    + rewrite stores_miss by lia. rewrite app_nth2, nth_drop by len. f_equal. len.
Qed.

Lemma unpack_pack_roundtrip_witness :
  let input := [0xA5; 0x3C; 0xFF] in
  let out := replicate 20 9 in
  let dst := [7; 7; 7] in
  exists unpacked,
    dsd_unpack_bytes_to_bits (Some input) 3 (Some out) 20 5 = (Some unpacked, 2%nat) /\
    length unpacked = 20%nat /\ drop 16 unpacked = drop 16 out /\
    (forall i k, (i < 2)%nat -> (k < 8)%nat ->
       unpacked.[(i * 8 + k)%nat] = Z.b2z (Z.testbit (input.[i]) (Z.of_nat (7 - k)))) /\
    dsd_pack_bits_to_bytes (Some unpacked) (length unpacked) (Some dst) 3 2 = (Some [0xA5; 0x3C; 7], 2%nat).
Proof. apply (unpack_pack_roundtrip [0xA5; 0x3C; 0xFF] (replicate 20 9) [7; 7; 7] 5); by_decide. Defined.
