(* ===== verification/Crc.v ===== *)
(** * Cyclic redundancy checks

    [dsd_crc_ccitt16_bits] of [core/util/bit_packing.c], [protocol/p25/p25_crc.c]
    and [protocol/nxdn/nxdn_crc.c].  A section states the theory once, for any
    width and any polynomial with a constant term; the code computes the same
    register in two ways, by shifting (CRC-16, CRC-32) and by long division of
    the message (CRC-12, and the CRC-4 of [LateEntry]). *)
From S2P Require Import Prelude.

(** ** Theory *)

Section Theory.
Context (w : nat) (poly : Z).
Notation W := (Z.of_nat w).

(** One message bit through the register. *)
Definition crc_step (c b : Z) : Z :=
  Z.lxor (wrap W (Z.shiftl c 1))
    (if Z.lxor (Z.b2z (Z.testbit c (W - 1))) b =? 0 then 0 else poly).

Definition crc_run (c : Z) (n : nat) (f : nat -> Z) : Z := for_ 0 n (fun i c => crc_step c (f i)) c.

(** A frame of [n] message bits and [w] check bits passes. *)
Definition crc_accepts (init xorout : Z) (n : nat) (f : nat -> Z) : Prop :=
  bits_value w (fun i => f (n + i)%nat) = Z.lxor (crc_run init n f) xorout.

Lemma crc_run_app c n m f : crc_run c (n + m) f = crc_run (crc_run c n f) m (fun i => f (n + i)%nat).
Proof.
  unfold crc_run. rewrite (for_app 0 n) by lia.
  rewrite <- (for_shift 0 m n (fun i c => crc_step c (f i))). by rewrite Nat.add_0_r.
Qed.

Lemma crc_run_ext c n f g : (forall i, (i < n)%nat -> f i = g i) -> crc_run c n f = crc_run c n g.
Proof. intros H. apply for_ext. intros i s Hi. by rewrite H by lia. Qed.

Context (Hw : (0 < w)%nat) (Hpoly : 0 <= poly < 2 ^ W) (Hodd : Z.testbit poly 0 = true).

Lemma crc_step_range c b : 0 <= crc_step c b < 2 ^ W.
Proof.
  unfold crc_step, wrap. apply lxor_range; [lia|apply Z.mod_pos_bound; lia|]. case_match; lia.
Qed.

Lemma crc_run_range c n f : 0 <= c < 2 ^ W -> 0 <= crc_run c n f < 2 ^ W.
Proof. intros Hc. apply (for_inv (fun c => 0 <= c < 2 ^ W)); [done|]. intros. apply crc_step_range. Qed.

Lemma crc_step_lxor c c' b b' : is_bit b -> is_bit b' ->
  crc_step (Z.lxor c c') (Z.lxor b b') = Z.lxor (crc_step c b) (crc_step c' b').
Proof.
  intros Hb Hb'. unfold crc_step. rewrite Z.shiftl_lxor, wrap_lxor, Z.lxor_spec by lia.
  generalize (wrap W (Z.shiftl c 1)) (wrap W (Z.shiftl c' 1)). intros x y.
  destruct (Z.testbit c (W - 1)), (Z.testbit c' (W - 1)), Hb as [-> | ->], Hb' as [-> | ->]; cbn [Z.b2z xorb];
    rewrite ?Z.lxor_nilpotent, ?Z.lxor_0_r, ?Z.lxor_0_l, ?Z.lxor_nilpotent; cbn [Z.eqb Pos.eqb]; xor_solve.
Qed.

Lemma crc_run_lxor c c' n f g : (forall i, is_bit (f i)) -> (forall i, is_bit (g i)) ->
  crc_run (Z.lxor c c') n (fun i => Z.lxor (f i) (g i)) = Z.lxor (crc_run c n f) (crc_run c' n g).
Proof.
  intros Hf Hg. unfold crc_run. induction n as [|n IH]; [done|].
  rewrite !for_S, IH by lia. by apply crc_step_lxor.
Qed.

Lemma crc_run_0 n : crc_run 0 n (fun _ => 0) = 0.
Proof. apply (for_inv (fun c => c = 0)); [done|]. intros i s _ ->. unfold crc_step, wrap. by rewrite Z.bits_0. Qed.

(** Without message bits the register only vanishes if it was zero. *)
Lemma crc_step_inj c : 0 <= c < 2 ^ W -> crc_step c 0 = 0 -> c = 0.
Proof.
  intros Hc H. unfold crc_step, wrap in H. rewrite Z.lxor_0_r in H. apply Z.lxor_eq in H.
  rewrite Z.shiftl_mul_pow2 in H by lia. change (2 ^ 1) with 2 in H.
  assert (HW : 2 ^ W = 2 * 2 ^ (W - 1)) by (rewrite <- Z.pow_succ_r by lia; f_equal; lia).
  destruct (Z.testbit c (W - 1)) eqn:E; cbn in H.
  - rewrite <- H in Hodd. rewrite <- Z.land_ones in Hodd by lia.
    rewrite Z.land_spec, Z.mul_comm, Z.testbit_even_0 in Hodd. done.
  - assert (c < 2 ^ (W - 1)).
    { apply lt_pow2_testbit; [lia..|]. intros i Hi. destruct (decide (i = W - 1)) as [->|]; [done|].
      apply (testbit_ge_pow2 W); lia. }
    rewrite Z.mod_small in H by lia. lia.
Qed.

Lemma crc_run_zeros_inj c n : 0 <= c < 2 ^ W -> crc_run c n (fun _ => 0) = 0 -> c = 0.
Proof.
  intros Hc. induction n as [|n IH]; [done|]. unfold crc_run in *. rewrite for_S by lia.
  intros H. apply IH. apply crc_step_inj; [by apply (crc_run_range c n (fun _ => 0))|done].
Qed.

(** A register fed its own bits empties. *)
Lemma crc_run_self k f : (k <= w)%nat -> (forall i, is_bit (f i)) ->
  crc_run (bits_value k f * 2 ^ (W - Z.of_nat k)) k f = 0.
Proof.
  revert f. induction k as [|k IH]; intros f Hk Hf; [done|].
  unfold crc_run. rewrite for_first. fold (crc_run).
  set (g := fun i => f (S i)). set (v := bits_value k g).
  assert (Hv : 0 <= v < 2 ^ Z.of_nat k) by (apply bits_value_range; intros; apply Hf).
  rewrite (bits_value_app 1 k). change (bits_value 1 f) with (f O).
  change (bits_value k (fun i => f (1 + i)%nat)) with v.
  set (P := 2 ^ (W - Z.of_nat (S k))).
  assert (HP : 0 < P) by (apply Z.pow_pos_nonneg; lia).
  assert (HT : 2 ^ (W - 1) = 2 ^ Z.of_nat k * P) by (subst P; rewrite <- Z.pow_add_r by lia; f_equal; lia).
  assert (HW : 2 ^ W = 2 * 2 ^ (W - 1)) by (rewrite <- Z.pow_succ_r by lia; f_equal; lia).
  assert (HK : 2 ^ (W - Z.of_nat k) = 2 * P) by (subst P; rewrite <- Z.pow_succ_r by lia; f_equal; lia).
  enough (crc_step ((f O * 2 ^ Z.of_nat k + v) * P) (f O) = v * 2 ^ (W - Z.of_nat k)) as ->.
  { apply (IH g); [lia|]. intros. apply Hf. }
  assert (HvP : 0 <= v * P < 2 ^ (W - 1)) by nia.
  replace ((f O * 2 ^ Z.of_nat k + v) * P) with (v * P + f O * 2 ^ (W - 1)) by (rewrite HT; lia).
  unfold crc_step, wrap. rewrite Z.shiftl_mul_pow2 by lia. change (2 ^ 1) with 2.
  assert (Ht : Z.b2z (Z.testbit (v * P + f O * 2 ^ (W - 1)) (W - 1)) = f O).
  { rewrite Z.testbit_spec' by lia. rewrite Z.div_add, Z.div_small by lia.
    destruct (Hf O) as [-> | ->]; done. }
  rewrite Ht, Z.lxor_nilpotent, Z.lxor_0_r. cbn [Z.eqb].
  replace ((v * P + f O * 2 ^ (W - 1)) * 2) with (v * (2 * P) + f O * 2 ^ W) by lia.
  rewrite Z.mod_add, Z.mod_small, HK; lia.
Qed.

(** No error confined to [w] consecutive bits goes undetected. *)
Lemma crc_run_burst n p e :
  (forall i, is_bit (e i)) -> (p + w <= n)%nat -> (forall i, ~ (p <= i < p + w)%nat -> e i = 0) ->
  crc_run 0 n e = 0 -> forall i, e i = 0.
Proof.
  intros He Hn Hout H.
  replace n with (p + (w + (n - p - w)))%nat in H by lia. rewrite !crc_run_app in H.
  rewrite (crc_run_ext 0 p e (fun _ => 0)), crc_run_0 in H by (intros; apply Hout; lia).
  set (b := fun i => e (p + i)%nat) in *.
  rewrite (crc_run_ext _ (n - p - w) _ (fun _ => 0)) in H by (intros; apply Hout; lia).
  apply crc_run_zeros_inj in H; [|apply crc_run_range; lia].
  assert (Hb : forall i, is_bit (b i)) by (intros; apply He).
  pose proof (bits_value_range w b (fun i _ => Hb i)) as Hv.
  assert (E : crc_run (bits_value w b) w (fun _ => 0) = 0).
  { pose proof (crc_run_lxor (bits_value w b) 0 w b b Hb Hb) as L.
    rewrite H, Z.lxor_0_r, Z.lxor_0_r in L.
    pose proof (crc_run_self w b (le_n w) Hb) as S. rewrite Z.sub_diag, Z.mul_1_r, <- L in S.
    etransitivity; [|exact S]. apply crc_run_ext. intros. by rewrite Z.lxor_nilpotent. }
  apply crc_run_zeros_inj in E; [|done].
  intros i. destruct (decide (p <= i < p + w)%nat) as [Hi|Hi]; [|by apply Hout].
  replace i with (p + (i - p))%nat by lia. change (b (i - p)%nat = 0).
  rewrite <- (testbit_bits_value w) by (done || lia). by rewrite E, Z.bits_0.
Qed.

Lemma crc_detects init xorout n p f g :
  (forall i, is_bit (f i)) -> (forall i, is_bit (g i)) -> (p <= n)%nat ->
  (forall i, ~ (p <= i < p + w)%nat -> f i = g i) ->
  crc_accepts init xorout n f -> crc_accepts init xorout n g -> forall i, f i = g i.
Proof.
  intros Hf Hg Hp Hout Af Ag i. apply Z.lxor_eq.
  apply (crc_run_burst (n + w) p (fun i => Z.lxor (f i) (g i))); [|lia| |].
  - intros. by apply is_bit_lxor.
  - intros j Hj. rewrite (Hout j Hj). apply Z.lxor_nilpotent.
  - rewrite crc_run_app. unfold crc_accepts in Af, Ag.
    rewrite <- (Z.lxor_nilpotent init) at 1. rewrite crc_run_lxor by done.
    assert (E : Z.lxor (crc_run init n f) (crc_run init n g)
       = Z.lxor (bits_value w (fun i => f (n + i)%nat)) (bits_value w (fun i => g (n + i)%nat)) :> Z)
      by (rewrite Af, Ag; xor_solve).
    rewrite E, crc_run_lxor by auto. clear E.
    pose proof (fun f Hf => crc_run_self w f (le_n w) Hf) as S.
    rewrite Z.sub_diag in S. setoid_rewrite Z.mul_1_r in S. by rewrite !S by auto.
Qed.

(** *** Long division *)

(** [if (buf[i]) for (j = 0; j < w + 1; j++) buf[i + j] ^= poly[j];] for each
    message bit. *)
Definition crc_divide (coeff : list Z) (n : nat) (buf : list Z) : list Z :=
  for_ 0 n (fun i buf =>
    if buf.[i] =? 0 then buf
    else for_ 0 (S w) (fun j buf => buf.[(i + j)%nat <- Z.lxor (buf.[(i + j)%nat]) (coeff.[j])]) buf) buf.

Lemma xor_window i k coeff buf : (i + k <= length buf)%nat ->
  let r := for_ 0 k (fun j buf => buf.[(i + j)%nat <- Z.lxor (buf.[(i + j)%nat]) (coeff.[j])]) buf in
  length r = length buf /\
  forall a, r.[a] = if decide (i <= a < i + k)%nat then Z.lxor (buf.[a]) (coeff.[(a - i)%nat]) else buf.[a].
Proof.
  intros Hk r. subst r. induction k as [|k IH].
  - rewrite for_nil by lia. split; [done|]. intros a. destruct (decide _); [lia|done].
  - rewrite for_S by lia. destruct IH as [IHl IH]; [lia|]. split; [by rewrite length_insert|].
    intros a. rewrite nth_insert, IHl, !IH.
    destruct (decide (i <= i + k < i + k)%nat); [lia|].
    destruct (decide (i + k = a /\ _)%nat) as [[<- ?]|?].
    + destruct (decide (i <= i + k < i + S k)%nat); [|lia]. by replace (i + k - i)%nat with k by lia.
    + destruct (decide (i <= a < i + k)%nat), (decide (i <= a < i + S k)%nat); lia || done.
Qed.

Lemma crc_step_bit c b m : 0 <= m < W ->
  Z.testbit (crc_step c b) m =
  xorb (if decide (m = 0) then false else Z.testbit c (m - 1))
    (if Z.lxor (Z.b2z (Z.testbit c (W - 1))) b =? 0 then false else Z.testbit poly m).
Proof.
  intros Hm. unfold crc_step, wrap. rewrite Z.lxor_spec. f_equal; [|case_match; [apply Z.bits_0|done]].
  rewrite <- Z.land_ones, Z.land_spec, Z.ones_spec_low, andb_true_r by lia.
  destruct (decide (m = 0)) as [->|]; [by apply Z.shiftl_spec_low; lia|]. by rewrite Z.shiftl_spec by lia.
Qed.

Context (coeff : list Z)
  (Hcoeff : forall m, (m < w)%nat -> coeff.[(w - m)%nat] = Z.b2z (Z.testbit poly (Z.of_nat m))).

Lemma crc_divide_window buf n : bits buf -> (n + w <= length buf)%nat ->
  let r := crc_divide coeff n buf in
  let c := crc_run 0 n (fun k => buf.[k]) in
  length r = length buf /\
  (forall m, (m < w)%nat -> r.[(n + (w - 1 - m))%nat]
     = Z.lxor (buf.[(n + (w - 1 - m))%nat]) (Z.b2z (Z.testbit c (Z.of_nat m)))) /\
  (forall k, (n + w <= k)%nat -> r.[k] = buf.[k]).
Proof.
  intros Hb. induction n as [|n IH]; intros Hl r c.
  - subst r c. unfold crc_divide, crc_run. rewrite !for_nil by lia.
    split; [done|]. split; [|done]. intros m _. by rewrite Z.bits_0, Z.lxor_0_r.
  - destruct IH as (IHl & IHw & IHr); [lia|].
    subst r c. unfold crc_divide, crc_run. rewrite !(for_S 0 n) by lia.
    fold (crc_divide coeff n buf) (crc_run 0 n (fun k => buf.[k])).
    set (q := crc_divide coeff n buf) in *. set (c := crc_run 0 n (fun k => buf.[k])) in *.
    assert (E0 : q.[n] = Z.lxor (Z.b2z (Z.testbit c (W - 1))) (buf.[n])).
    { pose proof (IHw (w - 1)%nat ltac:(lia)) as E. replace (n + (w - 1 - (w - 1)))%nat with n in E by lia.
      rewrite E, Z.lxor_comm. do 3 f_equal. lia. }
    assert (Hold : forall m, (m < w)%nat -> q.[(S n + (w - 1 - m))%nat]
       = Z.lxor (buf.[(S n + (w - 1 - m))%nat]) (if decide (Z.of_nat m = 0) then 0 else Z.b2z (Z.testbit c (Z.of_nat m - 1)))).
    { intros m Hm. destruct (decide (Z.of_nat m = 0)).
      - rewrite Z.lxor_0_r. apply IHr. lia.
      - replace (S n + (w - 1 - m))%nat with (n + (w - 1 - (m - 1)))%nat by lia.
        rewrite IHw by lia. do 3 f_equal. lia. }
    pose proof (fun m (H : (m < w)%nat) => crc_step_bit c (buf.[n]) (Z.of_nat m) ltac:(lia)) as Hbit.
    rewrite <- E0 in Hbit. destruct (Z.eqb_spec (q.[n]) 0) as [Hz|Hz].
    + split; [done|]. split; [|intros; apply IHr; lia]. intros m Hm. rewrite Hold, Hbit, xorb_false_r by done.
      by destruct (decide _).
    + destruct (xor_window n (S w) coeff q ltac:(lia)) as [Hl' Hx].
      split; [by rewrite Hl'|]. split.
      * intros m Hm. rewrite Hx. destruct (decide _) as [_|]; [|lia].
        replace (S n + (w - 1 - m) - n)%nat with (w - m)%nat by lia.
        rewrite Hold, Hcoeff, Hbit by done.
        destruct (decide _); [|destruct (Z.testbit c (Z.of_nat m - 1))];
          destruct (Z.testbit poly (Z.of_nat m)); cbn [xorb Z.b2z]; xor_solve.
      * intros k Hk. rewrite Hx. destruct (decide _); [lia|]. apply IHr. lia.
Qed.

(** The remainder of a message padded with zeros is the register. *)
Lemma crc_divide_run buf n : bits buf -> (n + w <= length buf)%nat ->
  (forall k, (n <= k)%nat -> buf.[k] = 0) ->
  bits_value w (fun i => (crc_divide coeff n buf).[(n + i)%nat]) = crc_run 0 n (fun k => buf.[k]).
Proof.
  intros Hb Hl H0. destruct (crc_divide_window buf n Hb Hl) as (_ & Hr & _).
  rewrite <- (bits_value_testbit w (crc_run 0 n _)) by (apply crc_run_range; lia).
  apply bits_value_ext. intros i Hi.
  specialize (Hr (w - 1 - i)%nat ltac:(lia)). replace (w - 1 - (w - 1 - i))%nat with i in Hr by lia.
  by rewrite Hr, H0, Z.lxor_0_l by lia.
Qed.
End Theory.

(** ** [core/util/bit_packing.c] *)

Definition dsd_crc_ccitt16_bits (input : option (list Z)) (bit_count : nat) : Z :=
  match input with
  | None => 0
  | Some input =>
      let crc := for_ 0 bit_count (fun i crc =>
        let feedback := u16 (Z.lxor (Z.land (Z.shiftr crc 15) 1) (Z.land (input.[i]) 1)) in
        let crc := u16 (Z.shiftl crc 1) in
        if negb (feedback =? 0) then Z.lxor crc 0x1021 else crc) 0 in
      u16 (Z.lxor crc 0xFFFF)
  end.

(** ** [protocol/p25/p25_crc.c] *)

Definition ComputeCrcCCITT16b (buf : list Z) (len : nat) : Z :=
  let CRC := for_ 0 len (fun i CRC =>
    if negb (Z.lxor (Z.land (Z.shiftr CRC 15) 1) (Z.land (buf.[i]) 1) =? 0)
    then u16 (Z.lxor (Z.shiftl CRC 1) 0x1021)
    else u16 (Z.shiftl CRC 1)) 0 in
  u16 (Z.lxor CRC 0xFFFF).

(** [(uint16_t)-1] *)
Definition crc_fail : Z := u16 (-1).

Definition crc16_ok (bits : list Z) (len cap : Z) : Z :=
  if (cap <? 16) || (cap <? len) || (cap <? u32 (len + 16)) then crc_fail
  else
    let crc := for_ 0 16 (fun i crc => Z.lor (u16 (Z.shiftl crc 1)) (bits.[(i + Z.to_nat len)%nat])) 0 in
    let check := ComputeCrcCCITT16b bits (Z.to_nat len) in
    if crc =? check then 0 else crc_fail.

(** [buf[190]], filled from an array of [int]. *)
Definition bridge_buf (payload : list Z) (total : Z) : list Z :=
  let total := if total <? 0 then 0 else total in
  let total := if 190 <? total then 190 else total in
  for_ 0 (Z.to_nat total) (fun i buf => buf.[i <- u8 (payload.[i])]) (replicate 190 0).

Definition crc16_lb_bridge (payload : list Z) (len : Z) : Z :=
  crc16_ok (bridge_buf payload (len + 16)) (u32 len) 190.

Definition crc12_poly : list Z := [1; 1; 0; 0; 0; 1; 0; 0; 1; 0; 1; 1; 1].

Definition crc12 (bits : list Z) (len : Z) : Z :=
  if 256 <? u32 (len + 12) then 0
  else
    let n := Z.to_nat len in
    let buf := for_ 0 n (fun i buf => buf.[i <- bits.[i]]) (replicate 256 0) in
    let buf := for_ 0 n (fun i buf =>
      if buf.[i] =? 0 then buf
      else for_ 0 (S 12) (fun j buf => buf.[(i + j)%nat <- Z.lxor (buf.[(i + j)%nat]) (crc12_poly.[j])]) buf) buf in
    let crc := for_ 0 12 (fun i crc => u16 (Z.shiftl crc 1 + buf.[(n + i)%nat])) 0 in
    Z.lxor crc 0xfff.

Definition crc12_ok (bits : list Z) (len cap : Z) : Z :=
  if (cap <? 12) || (cap <? len) || (cap <? u32 (len + 12)) then crc_fail
  else
    let crc := for_ 0 12 (fun i crc => Z.lor (u16 (Z.shiftl crc 1)) (bits.[(i + Z.to_nat len)%nat])) 0 in
    let check := crc12 bits len in
    if crc =? check then 0 else crc_fail.

Definition crc12_xb_bridge (payload : list Z) (len : Z) : Z :=
  crc12_ok (bridge_buf payload (len + 12)) (u32 len) 190.

(** ** [protocol/nxdn/nxdn_crc.c] *)

Definition nxdn_crc32_bits (bits : option (list Z)) (bit_count : nat) : Z :=
  match bits with
  | None => 0xFFFFFFFF
  | Some bits =>
      for_ 0 bit_count (fun i crc =>
        let input_bit := Z.land (bits.[i]) 1 in
        let feedback := Z.lxor (Z.land (Z.shiftr crc 31) 1) input_bit in
        let crc := u32 (Z.shiftl crc 1) in
        if negb (feedback =? 0) then Z.lxor crc 0x04C11DB7 else crc) 0xFFFFFFFF
  end.

(** ** The code computes the register *)

Lemma ComputeCrcCCITT16b_run buf len :
  ComputeCrcCCITT16b buf len = Z.lxor (crc_run 16 0x1021 0 len (fun i => Z.land (buf.[i]) 1)) 0xFFFF.
Proof.
  unfold ComputeCrcCCITT16b. rewrite (for_ext 0 len _ (fun i c => crc_step 16 0x1021 c (Z.land (buf.[i]) 1))).
  - fold (crc_run 16 0x1021 0 len (fun i => Z.land (buf.[i]) 1)). unfold u16, wrap. apply Z.mod_small.
    change (2 ^ 16) with (2 ^ Z.of_nat 16). apply lxor_range; [lia| |cbn; lia]. apply crc_run_range; [lia..|].
    all: cbn; lia.
  - intros i c _. unfold crc_step. rewrite shiftr_land1 by lia. change (Z.of_nat 16 - 1) with 15.
    unfold u16. change (wrap 16) with (wrap (Z.of_nat 16)). rewrite wrap_lxor by lia.
    destruct (Z.lxor (Z.b2z _) _ =? 0); cbn [negb]; [by rewrite Z.lxor_0_r|done].
Qed.

Lemma dsd_crc_ccitt16_bits_run input n :
  dsd_crc_ccitt16_bits (Some input) n
  = Z.lxor (crc_run 16 0x1021 0 n (fun i => Z.land (input.[i]) 1)) 0xFFFF.
Proof.
  unfold dsd_crc_ccitt16_bits. rewrite (for_ext 0 n _ (fun i c => crc_step 16 0x1021 c (Z.land (input.[i]) 1))).
  - fold (crc_run 16 0x1021 0 n (fun i => Z.land (input.[i]) 1)). unfold u16, wrap. apply Z.mod_small.
    change (2 ^ 16) with (2 ^ Z.of_nat 16). apply lxor_range; [lia| |cbn; lia]. apply crc_run_range; [lia..|].
    all: cbn; lia.
  - intros i c _. unfold crc_step. rewrite shiftr_land1 by lia. change (Z.of_nat 16 - 1) with 15.
    unfold u16. change (wrap 16) with (wrap (Z.of_nat 16)). unfold wrap at 1.
    rewrite (Z.mod_small (Z.lxor (Z.b2z _) _)); [destruct (Z.lxor (Z.b2z _) _ =? 0); cbn [negb]; by rewrite ?Z.lxor_0_r|].
    destruct (is_bit_lxor _ _ (b2z_bit (Z.testbit c 15)) (land1_bit (input.[i]))) as [-> | ->]; cbn; lia.
Qed.

(** ** Frames of the two bridges *)

(** The check bits of a register, most significant first. *)
Definition crc_bits (w : nat) (c : Z) : list Z :=
  map (fun i => Z.b2z (Z.testbit c (Z.of_nat (w - 1 - i)))) (seq 0 w).

Lemma crc_bits_spec w c : length (crc_bits w c) = w /\ bits (crc_bits w c) /\
  forall i, (i < w)%nat -> (crc_bits w c).[i] = Z.b2z (Z.testbit c (Z.of_nat (w - 1 - i))).
Proof.
  unfold crc_bits. split; [len|]. split; [|intros i Hi; by rewrite nth_map_seq].
  apply Forall_fmap, Forall_true. intros. apply b2z_bit.
Qed.

Lemma u8_bit b : is_bit b -> u8 b = b.
Proof. intros [-> | ->]; done. Qed.

Lemma bridge_buf_spec payload total : bits payload -> 0 <= total <= 190 ->
  length (bridge_buf payload total) = 190%nat /\ bits (bridge_buf payload total) /\
  forall i, (i < Z.to_nat total)%nat -> (bridge_buf payload total).[i] = payload.[i].
Proof.
  intros Hb Ht. unfold bridge_buf.
  rewrite (proj2 (Z.ltb_ge total 0)), (proj2 (Z.ltb_ge 190 total)) by lia.
  change (for_ 0 (Z.to_nat total) _ _) with
    (stores (fun i => i) (fun i => u8 (payload.[i])) (Z.to_nat total) (replicate 190 0)).
  split; [by rewrite length_stores|]. split.
  - apply (for_inv bits); [apply Forall_replicate; by left|]. intros i s _ Hs.
    apply bits_insert; [done|]. rewrite u8_bit; by apply bits_nth.
  - intros i Hi. rewrite (stores_hit (fun i => i)) by (len; lia || intros; lia).
    apply u8_bit. by apply bits_nth.
Qed.

(** Check bits are collected by shifting and adding, or by shifting and or. *)
Lemma collect_bits_add w n f : (w <= 16)%nat -> (forall i, (i < w)%nat -> is_bit (f (n + i)%nat)) ->
  for_ 0 w (fun i crc => u16 (Z.shiftl crc 1 + f (n + i)%nat)) 0 = bits_value w (fun i => f (n + i)%nat).
Proof.
  intros Hw Hf. induction w as [|w IH]; [done|]. rewrite for_S, IH, bits_value_S by (lia || (intros; apply Hf; lia)).
  pose proof (bits_value_range w (fun i => f (n + i)%nat) ltac:(intros; apply Hf; lia)) as Hr.
  assert (2 ^ Z.of_nat w <= 2 ^ 15) by (apply Z.pow_le_mono_r; lia).
  unfold u16, wrap. rewrite Z.shiftl_mul_pow2 by lia. rewrite Z.mod_small; [lia|].
  destruct (Hf w ltac:(lia)); lia.
Qed.

(** Both bridges accept exactly the frames whose check bits match. *)
Lemma crc16_lb_bridge_spec payload n : bits payload -> (n + 16 <= 190)%nat ->
  crc16_lb_bridge payload (Z.of_nat n) =
  if bits_value 16 (fun i => payload.[(n + i)%nat]) =? Z.lxor (crc_run 16 0x1021 0 n (fun i => payload.[i])) 0xFFFF
  then 0 else crc_fail.
Proof.
  intros Hb Hn. unfold crc16_lb_bridge, crc16_ok, u16.
  destruct (bridge_buf_spec payload (Z.of_nat n + 16) Hb ltac:(lia)) as (Hl & Hbb & He).
  set (buf := bridge_buf payload (Z.of_nat n + 16)) in *.
  rewrite (u32_small (Z.of_nat n)), u32_small, Nat2Z.id by lia.
  replace ((190 <? 16) || (190 <? Z.of_nat n) || (190 <? Z.of_nat n + 16)) with false by lia.
  rewrite (proj1 (collect_lor 16 16 ltac:(lia) (fun i => buf.[(i + n)%nat]) ltac:(intros; by apply bits_nth))).
  rewrite ComputeCrcCCITT16b_run.
  rewrite (bits_value_ext 16 _ (fun i => payload.[(n + i)%nat])) by (intros; rewrite (Nat.add_comm _ n); apply He; lia).
  rewrite (crc_run_ext 16 0x1021 0 n _ (fun i => payload.[i])); [done|].
  intros i Hi. rewrite He by lia. apply land1_id. by apply bits_nth.
Qed.

Lemma crc12_run buf n : bits buf -> (n + 12 <= 256)%nat -> (n <= length buf)%nat ->
  crc12 buf (Z.of_nat n) = Z.lxor (crc_run 12 0x897 0 n (fun i => buf.[i])) 0xFFF.
Proof.
  intros Hb Hn Hl. unfold crc12. rewrite u32_small, Nat2Z.id by lia.
  rewrite (proj2 (Z.ltb_ge 256 _)) by lia.
  change (for_ 0 n (fun i buf0 => buf0.[i <- buf.[i]]) (replicate 256 0)) with
    (stores (fun i => i) (fun i => buf.[i]) n (replicate 256 0)).
  set (b0 := stores (fun i => i) (fun i => buf.[i]) n (replicate 256 0)).
  assert (Hl0 : length b0 = 256%nat) by (subst b0; by rewrite length_stores).
  assert (Hb0 : bits b0).
  { apply (for_inv bits); [apply Forall_replicate; by left|]. intros. apply bits_insert; [done|]. by apply bits_nth. }
  assert (Heq : forall i, (i < n)%nat -> b0.[i] = buf.[i]).
  { intros i Hi. apply (stores_hit (fun i => i) (fun i => buf.[i]) n _ i); [lia|lia|len]. }
  assert (Hz : forall i, (n <= i)%nat -> b0.[i] = 0).
  { intros i Hi. subst b0. rewrite stores_miss by lia. by rewrite nth_replicate. }
  change (for_ 0 n _ b0) with (crc_divide 12 crc12_poly n b0).
  assert (Hc : forall m, (m < 12)%nat -> crc12_poly.[(12 - m)%nat] = Z.b2z (Z.testbit 0x897 (Z.of_nat m))).
  { intros m Hm. do 12 (destruct m as [|m]; [reflexivity|]). lia. }
  destruct (crc_divide_window 12 0x897 ltac:(lia) crc12_poly Hc b0 n Hb0 ltac:(lia)) as (_ & Hr & _).
  rewrite (collect_bits_add 12 n (fun i => (crc_divide 12 crc12_poly n b0).[i])).
  - rewrite (crc_divide_run 12 0x897) by (done || lia || by_decide).
    f_equal. by apply crc_run_ext.
  - lia.
  - intros i Hi. specialize (Hr (11 - i)%nat ltac:(lia)).
    replace (12 - 1 - (11 - i))%nat with i in Hr by lia. rewrite Hr, Hz, Z.lxor_0_l by lia. apply b2z_bit.
Qed.

Lemma crc12_xb_bridge_spec payload n : bits payload -> (n + 12 <= 190)%nat ->
  crc12_xb_bridge payload (Z.of_nat n) =
  if bits_value 12 (fun i => payload.[(n + i)%nat]) =? Z.lxor (crc_run 12 0x897 0 n (fun i => payload.[i])) 0xFFF
  then 0 else crc_fail.
Proof.
  intros Hb Hn. unfold crc12_xb_bridge, crc12_ok, u16.
  destruct (bridge_buf_spec payload (Z.of_nat n + 12) Hb ltac:(lia)) as (Hl & Hbb & He).
  set (buf := bridge_buf payload (Z.of_nat n + 12)) in *.
  rewrite (u32_small (Z.of_nat n)), u32_small, Nat2Z.id by lia.
  replace ((190 <? 12) || (190 <? Z.of_nat n) || (190 <? Z.of_nat n + 12)) with false by lia.
  rewrite (proj1 (collect_lor 16 12 ltac:(lia) (fun i => buf.[(i + n)%nat]) ltac:(intros; by apply bits_nth))).
  rewrite crc12_run by (done || lia).
  rewrite (bits_value_ext 12 _ (fun i => payload.[(n + i)%nat])) by (intros; rewrite (Nat.add_comm _ n); apply He; lia).
  rewrite (crc_run_ext 12 0x897 0 n _ (fun i => payload.[i])); [done|]. intros i Hi. by rewrite He by lia.
Qed.

(** A message followed by the complement of its register. *)
Definition framed (w : nat) (c : Z) (data : list Z) : list Z := data ++ crc_bits w c.

Section Framed.
Context (w : nat) (c : Z) (data : list Z) (Hb : bits data).

Lemma bits_framed : bits (framed w c data).
Proof. apply Forall_app. split; [done|apply crc_bits_spec]. Qed.

Lemma framed_data i : (i < length data)%nat -> (framed w c data).[i] = data.[i].
Proof. intros Hi. unfold framed. by rewrite app_nth1. Qed.

Lemma framed_value : 0 <= c < 2 ^ Z.of_nat w ->
  bits_value w (fun i => (framed w c data).[(length data + i)%nat]) = c.
Proof.
  intros Hc. etransitivity; [|exact (bits_value_testbit w c Hc)]. apply bits_value_ext. intros i Hi.
  unfold framed. rewrite app_nth2_plus. by apply crc_bits_spec.
Qed.
End Framed.

(** A bridge that accepts the frames whose check bits match accepts a framed
    message and no frame that differs from it within [w] consecutive bits only. *)
Lemma bridge_frames w poly xo (bridge : list Z -> Z -> Z) (data rx : list Z) c p i :
  let n := length data in
  let tx := framed w c data in
  (0 < w)%nat -> 0 <= poly < 2 ^ Z.of_nat w -> Z.testbit poly 0 = true ->
  (forall payload n, bits payload -> (n + w <= 190)%nat ->
     bridge payload (Z.of_nat n) =
     if bits_value w (fun i => payload.[(n + i)%nat]) =? Z.lxor (crc_run w poly 0 n (fun i => payload.[i])) xo
     then 0 else crc_fail) ->
  c = Z.lxor (crc_run w poly 0 n (fun i => data.[i])) xo -> 0 <= c < 2 ^ Z.of_nat w ->
  bits data -> (n + w <= 190)%nat -> bits rx -> (p <= n)%nat ->
  (forall j, ~ (p <= j < p + w)%nat -> rx.[j] = tx.[j]) -> rx.[i] <> tx.[i] ->
  bridge tx (Z.of_nat n) = 0 /\ bridge rx (Z.of_nat n) = crc_fail.
Proof.
  intros n tx Hw Hp Ho Hspec Hc Hr Hd Hn Hrx Hpn Hout Hne.
  pose proof (framed_value w c data Hr) as V. fold n tx in V.
  assert (E : c = Z.lxor (crc_run w poly 0 n (fun i => tx.[i])) xo).
  { rewrite Hc at 1. f_equal. apply crc_run_ext. intros j Hj. subst tx. by rewrite framed_data. }
  assert (Htx : bits tx) by (by apply bits_framed).
  rewrite !Hspec by done. split; [by rewrite V, <- E, Z.eqb_refl|].
  rewrite (proj2 (Z.eqb_neq _ _)); [done|]. intros Hg. apply Hne.
  symmetry. apply (crc_detects w poly Hw Hp Ho 0 xo n p (fun i => tx.[i]) (fun i => rx.[i])); auto with dsd.
  - intros j Hj. by rewrite Hout.
  - unfold crc_accepts. by rewrite V, <- E.
Qed.

Lemma bits_land1 (l : list Z) n w poly c : bits l ->
  crc_run w poly c n (fun i => Z.land (l.[i]) 1) = crc_run w poly c n (fun i => l.[i]).
Proof. intros Hb. apply crc_run_ext. intros. apply land1_id. by apply bits_nth. Qed.

(** ** Theorems *)

(** The P25 CRC-16 routine and the shared one of [bit_packing.c] compute the
    same function, for every buffer and length. *)
Theorem p25_crc16_is_dsd_crc16 (buf : list Z) (len : nat) :
  ComputeCrcCCITT16b buf len = dsd_crc_ccitt16_bits (Some buf) len.
Proof. by rewrite ComputeCrcCCITT16b_run, dsd_crc_ccitt16_bits_run. Qed.

(** [crc16_lb_bridge] accepts a message followed by its CRC-16, and rejects
    every other frame that differs from it only within sixteen consecutive bits,
    check bits included: single errors and bursts never pass. *)
Lemma crc16_lb_bridge_detects_bursts (data rx : list Z) (p i : nat) :
  let n := length data in
  let tx := framed 16 (ComputeCrcCCITT16b data n) data in
  bits data -> (n + 16 <= 190)%nat -> bits rx -> (p <= n)%nat ->
  (forall j, ~ (p <= j < p + 16)%nat -> rx.[j] = tx.[j]) -> rx.[i] <> tx.[i] ->
  crc16_lb_bridge tx (Z.of_nat n) = 0 /\ crc16_lb_bridge rx (Z.of_nat n) = 65535.
Proof.
  intros n tx Hd Hn Hrx Hp Hout Hne.
  refine (bridge_frames 16 0x1021 0xFFFF crc16_lb_bridge data rx _ p i ltac:(lia) ltac:(by_decide) eq_refl
    crc16_lb_bridge_spec _ _ Hd Hn Hrx Hp Hout Hne).
  - by rewrite ComputeCrcCCITT16b_run, bits_land1.
  - apply Z.mod_pos_bound. lia.
Qed.

Lemma crc16_lb_bridge_detects_bursts_witness :
  let data := [1; 0; 1; 1; 0; 0; 1; 0; 1; 1; 1; 0] in
  let tx := framed 16 (ComputeCrcCCITT16b data 12) data in
  let rx := tx.[5%nat <- 1].[10%nat <- 0].[20%nat <- 1 - tx.[20%nat]] in
  crc16_lb_bridge tx 12 = 0 /\ crc16_lb_bridge rx 12 = 65535.
Proof.
  intros data tx rx. apply (crc16_lb_bridge_detects_bursts data rx 5 5); try by_decide.
  intros j Hj. subst rx. by rewrite !nth_insert_ne by lia.
Defined.

(** [crc12_xb_bridge] accepts a message followed by its CRC-12 and rejects
    every other frame that differs from it only within twelve consecutive bits. *)
Theorem crc12_xb_bridge_detects_bursts (data rx : list Z) (p i : nat) :
  let n := length data in
  let tx := framed 12 (crc12 data (Z.of_nat n)) data in
  bits data -> (n + 12 <= 190)%nat -> bits rx -> (p <= n)%nat ->
  (forall j, ~ (p <= j < p + 12)%nat -> rx.[j] = tx.[j]) -> rx.[i] <> tx.[i] ->
  crc12_xb_bridge tx (Z.of_nat n) = 0 /\ crc12_xb_bridge rx (Z.of_nat n) = 65535.
Proof.
  intros n tx Hd Hn Hrx Hp Hout Hne.
  assert (E : crc12 data (Z.of_nat n) = Z.lxor (crc_run 12 0x897 0 n (fun i => data.[i])) 0xFFF)
    by (apply crc12_run; done || lia).
  refine (bridge_frames 12 0x897 0xFFF crc12_xb_bridge data rx _ p i ltac:(lia) ltac:(by_decide) eq_refl
    crc12_xb_bridge_spec E _ Hd Hn Hrx Hp Hout Hne).
  rewrite E. apply lxor_range; [lia| |by_decide].
  apply crc_run_range; lia || by_decide.
Qed.

Lemma crc12_xb_bridge_detects_bursts_witness :
  let data := [1; 0; 1; 1; 0; 0; 1; 0; 1; 1; 1; 0] in
  let tx := framed 12 (crc12 data 12) data in
  let rx := tx.[5%nat <- 1].[10%nat <- 0].[16%nat <- 1 - tx.[16%nat]] in
  crc12_xb_bridge tx 12 = 0 /\ crc12_xb_bridge rx 12 = 65535.
Proof.
  intros data tx rx. apply (crc12_xb_bridge_detects_bursts data rx 5 5); try by_decide.
  intros j Hj. subst rx. by rewrite !nth_insert_ne by lia.
Defined.

(** The NXDN CRC-32 is the register started from all ones. *)
Lemma nxdn_crc32_bits_run bits n :
  nxdn_crc32_bits (Some bits) n = crc_run 32 0x04C11DB7 0xFFFFFFFF n (fun i => Z.land (bits.[i]) 1).
Proof.
  apply for_ext. intros i c _. unfold crc_step. rewrite shiftr_land1 by lia.
  change (Z.of_nat 32 - 1) with 31. destruct (Z.lxor (Z.b2z _) _ =? 0); cbn [negb]; by rewrite ?Z.lxor_0_r.
Qed.
