(* ===== verification/LateEntry.v ===== *)
(** * [fec/dmr_late_entry.c]: the message indicator of a late entry

    A DMR superframe repeats the cipher's message indicator (32 bits and a CRC-4)
    as three Golay (24,12) codewords, cut into nibbles over six voice bursts:
    [fragments[vc][col]], a flat array of eight rows of three.  The decoder packs
    the nibbles, corrects each codeword with [BlockCodes.Golay_24_12_decode] and
    checks the CRC of [Crc]. *)
From S2P Require Import Prelude LinearCode BlockCodes BitPacking Crc.

Definition dmr_late_entry_pack_fragments (fragments : list Z) (vc_base : nat) : Z :=
  for_ 0 3 (fun col packed =>
    for_ 0 3 (fun row packed =>
      Z.lor (u64 (Z.shiftl packed 4)) (Z.land (fragments.[((vc_base + row) * 3 + col)%nat]) 0x0F)) packed) 0.

Definition crc4_polynomial : list Z := [1; 0; 0; 1; 1].

Definition dsd_dmr_crc4 (bits : option (list Z)) (len : nat) : Z :=
  match bits with
  | None => 0
  | Some bits =>
      if (256 - 4 <? len)%nat then 0
      else
        let work := blit (replicate 256 0) 0 (take len bits) in
        let work := for_ 0 len (fun i work =>
          if work.[i] =? 0 then work
          else for_ 0 5 (fun j work =>
            work.[(i + j)%nat <- Z.lxor (work.[(i + j)%nat]) (crc4_polynomial.[j])]) work) work in
        let crc := for_ 0 4 (fun i crc => u8 (Z.lor (Z.shiftl crc 1) (work.[(len + i)%nat]))) 0 in
        u8 (Z.lxor crc 0x0F)
  end.

Record dsd_dmr_late_entry_result := { mi : Z; crc_ok : bool }.

(** The codeword of [triplet]. *)
Definition late_entry_codeword (mi_codewords parity_codewords : Z) (triplet : nat) : list Z :=
  for_ 0 12 (fun bit codeword =>
    let shift := Z.of_nat (bit + triplet * 12) in
    let codeword := codeword.[bit <-
      u8 (Z.shiftr (Z.land (u64 (Z.shiftl mi_codewords shift)) 0x800000000) 35)] in
    codeword.[(bit + 12)%nat <-
      u8 (Z.shiftr (Z.land (u64 (Z.shiftl parity_codewords shift)) 0x800000000) 35)]) (replicate 24 0).

(** The result stored, if the pointers are not null, and the value returned. *)
Definition dsd_dmr_late_entry_decode (T : fec_tables) (fragments : option (list Z))
    (result : option dsd_dmr_late_entry_result) : option dsd_dmr_late_entry_result * bool :=
  match fragments, result with
  | Some fragments, Some _ =>
      let mi_codewords := dmr_late_entry_pack_fragments fragments 1 in
      let parity_codewords := dmr_late_entry_pack_fragments fragments 4 in
      let '(mi_bits, all_golay_pass) :=
        for_ 0 3 (fun triplet '(mi_bits, pass) =>
          let '(codeword, ok) :=
            Golay_24_12_decode T (late_entry_codeword mi_codewords parity_codewords triplet) in
          (blit mi_bits (triplet * 12) (take 12 codeword), if ok then pass else false))
          (replicate 36 0, true) in
      let mi := for_ 0 32 (fun i mi => Z.lor (u32 (Z.shiftl mi 1)) (mi_bits.[i])) 0 in
      let extracted_crc := for_ 32 36 (fun i crc => u8 (Z.lor (Z.shiftl crc 1) (mi_bits.[i]))) 0 in
      (Some {| mi := mi; crc_ok := extracted_crc =? dsd_dmr_crc4 (Some mi_bits) 32 |}, all_golay_pass)
  | _, _ => (result, false)
  end.

(** ** What is transmitted

    Bit [i] of codeword [t] travels in column [t], four bits to a burst, the
    message half in bursts 1 to 3 and the parity half in bursts 4 to 6. *)
Definition fragment_bit (fragments : list Z) (t i : nat) : Z :=
  Z.b2z (Z.testbit (fragments.[((1 + i / 4) * 3 + t)%nat]) (Z.of_nat (3 - i mod 4))).

Definition late_entry_word (fragments : list Z) (t : nat) : list Z :=
  map (fragment_bit fragments t) (seq 0 24).

(** The message: 32 bits of [mi] and their CRC-4. *)
Definition late_entry_message (m : Z) : list Z :=
  let mb := crc_bits 32 m in mb ++ crc_bits 4 (dsd_dmr_crc4 (Some mb) 32).

(** The fragments a transmitter sends for the message: nibbles of the three
    encoded codewords. *)
Definition late_entry_send (message : list Z) : list Z :=
  map (fun a =>
    let row := (a / 3)%nat in
    let t := (a mod 3)%nat in
    let cw := Golay_24_12_encode (take 12 (drop (t * 12) message)) in
    if (row =? 0)%nat || (6 <? row)%nat then 0
    else bits_value 4 (fun k => cw.[((row - 1) * 4 + k)%nat])) (seq 0 24).

(** ** The CRC-4 *)

Lemma crc4_run bs len : bits bs -> (len <= 252)%nat -> (len <= length bs)%nat ->
  dsd_dmr_crc4 (Some bs) len = Z.lxor (crc_run 4 3 0 len (fun i => bs.[i])) 0xF /\
  0 <= dsd_dmr_crc4 (Some bs) len < 2 ^ Z.of_nat 4.
Proof.
  intros Hb Hl Hlb. unfold dsd_dmr_crc4. rewrite (proj2 (Nat.ltb_ge _ _)) by lia.
  set (work := blit (replicate 256 0) 0 (take len bs)).
  assert (Hw : length work = 256%nat) by (subst work; rewrite length_blit; len).
  assert (Hwn : forall i, work.[i] = if decide (i < len)%nat then bs.[i] else 0).
  { intros i. subst work. unfold blit. rewrite take_0, app_nil_l. destruct (decide (i < len)%nat).
    - rewrite app_nth1 by (rewrite length_take; lia). by apply nth_take.
    - rewrite app_nth2 by (rewrite length_take; lia). rewrite nth_drop. apply nth_replicate. }
  assert (Hwb : bits work).
  { apply Forall_forall. intros x (i & Hi)%list_elem_of_lookup.
    assert (E : work.[i] = x) by (by rewrite nth_lookup, Hi). rewrite <- E, Hwn.
    destruct (decide _); [by apply bits_nth|by left]. }
  change (for_ 0 len _ work) with (crc_divide 4 crc4_polynomial len work).
  assert (Hc : forall m, (m < 4)%nat -> crc4_polynomial.[(4 - m)%nat] = Z.b2z (Z.testbit 3 (Z.of_nat m))).
  { intros m Hm. do 4 (destruct m as [|m]; [reflexivity|]). lia. }
  destruct (crc_divide_window 4 3 ltac:(lia) crc4_polynomial Hc work len Hwb ltac:(lia)) as (_ & Hr & _).
  assert (Hrb : forall i, (i < 4)%nat -> is_bit ((crc_divide 4 crc4_polynomial len work).[(len + i)%nat])).
  { intros i Hi. specialize (Hr (3 - i)%nat ltac:(lia)). replace (4 - 1 - (3 - i))%nat with i in Hr by lia.
    rewrite Hr, Hwn. destruct (decide _); [lia|]. rewrite Z.lxor_0_l. apply b2z_bit. }
  assert (Hz : forall k, (len <= k)%nat -> work.[k] = 0) by (intros; rewrite Hwn; by destruct (decide _); [lia|]).
  unfold u8. rewrite (proj2 (collect_lor 8 4 ltac:(lia) _ Hrb)).
  rewrite (crc_divide_run 4 3) by (done || lia || by_decide).
  rewrite (crc_run_ext 4 3 0 len _ (fun i => bs.[i])) by (intros; rewrite Hwn; by destruct (decide _); [|lia]).
  assert (0 <= Z.lxor (crc_run 4 3 0 len (fun i => bs.[i])) 15 < 2 ^ 4).
  { apply (lxor_range 4); [lia| |lia]. apply (crc_run_range 4 3); lia || by_decide. }
  unfold wrap. by rewrite Z.mod_small by lia.
Qed.

(** ** Packing the fragments *)

Lemma land_15_bits x : Z.land x 0x0F = bits_value 4 (fun k => Z.b2z (Z.testbit x (Z.of_nat (3 - k)))).
Proof.
  change 0x0F with (Z.ones 4). rewrite <- (bits_value_testbit 4 (Z.land x (Z.ones 4))).
  - apply bits_value_ext. intros i Hi. rewrite Z.land_spec, Z.ones_spec_low, andb_true_r by lia. done.
  - rewrite Z.land_ones by lia. by apply Z.mod_pos_bound.
Qed.

Lemma pack_nibbles x n : (n <= 16)%nat ->
  for_ 0 n (fun i p => Z.lor (u64 (Z.shiftl p 4)) (Z.land (x i) 0x0F)) 0
  = bits_value (4 * n) (fun i => Z.b2z (Z.testbit (x (i / 4)%nat) (Z.of_nat (3 - i mod 4)))).
Proof.
  intros Hn. induction n as [|n IH]; [done|]. rewrite for_S, IH, land_15_bits by lia.
  rewrite u64_shiftl_app by (lia || (apply (bits_value_range 4); auto with dsd)).
  replace (4 * S n)%nat with (4 * n + 4)%nat by lia. rewrite bits_value_app. change (Z.of_nat 4) with 4.
  rewrite (bits_value_ext 4 (fun i => _ (_ (x ((4 * n + i) / 4)%nat) _))
    (fun k => Z.b2z (Z.testbit (x n) (Z.of_nat (3 - k))))).
  - pose proof (bits_value_range (4 * n) (fun i => Z.b2z (Z.testbit (x (i / 4)%nat) (Z.of_nat (3 - i mod 4))))
      (fun i _ => b2z_bit _)) as H1.
    pose proof (bits_value_range 4 (fun k => Z.b2z (Z.testbit (x n) (Z.of_nat (3 - k)))) (fun k _ => b2z_bit _)) as H2.
    assert (2 ^ Z.of_nat (4 * n) <= 2 ^ 60) by (apply Z.pow_le_mono_r; lia).
    apply Z.mod_small. change (2 ^ Z.of_nat 4) with 16 in H2. lia.
  - intros i Hi. rewrite (Nat.mul_comm 4), Nat.div_add_l, (Nat.div_small i), Nat.add_0_r by lia.
    rewrite Nat.add_comm, Nat.Div0.mod_add, Nat.mod_small by lia. done.
Qed.

Lemma pack_fragments_bits fragments base :
  dmr_late_entry_pack_fragments fragments base =
  bits_value 36 (fun i => Z.b2z (Z.testbit
    (fragments.[((base + (i / 4) mod 3) * 3 + (i / 4) / 3)%nat]) (Z.of_nat (3 - i mod 4)))).
Proof.
  change 36%nat with (4 * 9)%nat.
  rewrite <- (pack_nibbles (fun k => fragments.[((base + k mod 3) * 3 + k / 3)%nat]) 9) by lia.
  unfold dmr_late_entry_pack_fragments, for_. cbn [fold_left seq Nat.sub]. reflexivity.
Qed.

(** [((word << shift) & 0x800000000) >> 35] reads one bit. *)
Lemma shifted_bit v s : 0 <= v -> 0 <= s <= 35 ->
  u8 (Z.shiftr (Z.land (u64 (Z.shiftl v s)) 0x800000000) 35) = Z.b2z (Z.testbit v (35 - s)).
Proof.
  intros Hv Hs. rewrite Z.shiftr_land. change (Z.shiftr 0x800000000 35) with 1. rewrite shiftr_land1 by lia.
  unfold u64, wrap. rewrite Z.mod_pow2_bits_low, Z.shiftl_spec by lia. by destruct (Z.testbit _ _).
Qed.

Lemma codeword_cells (a b : nat -> Z) :
  for_ 0 12 (fun bit codeword => codeword.[bit <- a bit].[(bit + 12)%nat <- b bit]) (replicate 24 0)
  = map a (seq 0 12) ++ map b (seq 0 12).
Proof. reflexivity. Qed.

Lemma late_entry_codeword_word fragments t : (t < 3)%nat ->
  late_entry_codeword (dmr_late_entry_pack_fragments fragments 1) (dmr_late_entry_pack_fragments fragments 4) t
  = late_entry_word fragments t.
Proof.
  intros Ht. unfold late_entry_codeword. rewrite codeword_cells. unfold late_entry_word.
  change (seq 0 24) with (seq 0 12 ++ seq (12 + 0) 12). rewrite map_app, <- fmap_add_seq, map_map.
  assert (E : forall base b i, (i < 12)%nat -> (base + i / 4 = b)%nat ->
    u8 (Z.shiftr (Z.land (u64 (Z.shiftl (dmr_late_entry_pack_fragments fragments base) (Z.of_nat (i + t * 12))))
      0x800000000) 35) = Z.b2z (Z.testbit (fragments.[(b * 3 + t)%nat]) (Z.of_nat (3 - i mod 4)))).
  { intros base b i Hi <-. rewrite pack_fragments_bits, shifted_bit by (lia || (apply bits_value_range; auto with dsd)).
    replace (35 - Z.of_nat (i + t * 12)) with (Z.of_nat (36 - 1 - (i + t * 12))) by lia.
    rewrite testbit_bits_value by (lia || auto with dsd).
    replace (i + t * 12)%nat with (i + (t * 3) * 4)%nat by lia. rewrite Nat.Div0.mod_add, Nat.div_add by lia.
    assert (i / 4 < 3)%nat by (apply Nat.Div0.div_lt_upper_bound; lia).
    by rewrite Nat.Div0.mod_add, Nat.mod_small, Nat.div_add, (Nat.div_small (i / 4)), Nat.add_0_l by lia. }
  f_equal; apply map_ext_in; intros i Hi%in_seq; cbv zeta; unfold fragment_bit.
  - apply E; lia.
  - rewrite (E 4%nat (4 + i / 4)%nat) by lia. change (12 + i)%nat with (3 * 4 + i)%nat.
    rewrite Nat.div_add_l, (Nat.add_comm (3 * 4)), Nat.Div0.mod_add by lia. done.
Qed.

(** ** The decoder *)

Lemma Golay_24_12_encode_length d : bits d -> length (Golay_24_12_encode d) = 24%nat.
Proof. intros Hd. apply (Golay_24_12_encode_spec d Hd). Qed.

(** Three blocks of twelve bits, copied one after the other. *)
Lemma blit_three d0 d1 d2 : length d0 = 12%nat -> length d1 = 12%nat -> length d2 = 12%nat ->
  blit (blit (blit (replicate 36 0) 0 d0) 12 d1) 24 d2 = d0 ++ d1 ++ d2.
Proof.
  intros H0 H1 H2. unfold blit. rewrite H0, H1, H2. cbn [Nat.add].
  rewrite take_0, app_nil_l.
  rewrite (take_app_length' d0), (drop_app_ge d0) by lia.
  rewrite (take_app_ge d0), (drop_app_ge d0) by lia. rewrite H0.
  change (24 - 12)%nat with 12%nat. rewrite take_app_length' by lia.
  change (36 - 12)%nat with 24%nat. rewrite (drop_app_ge d1) by lia. rewrite H1.
  rewrite !drop_drop. change (drop _ (replicate 36 0)) with (@nil Z). by rewrite app_nil_r, app_assoc.
Qed.

Lemma late_entry_message_spec m : length (late_entry_message m) = 36%nat /\ bits (late_entry_message m) /\
  take 32 (late_entry_message m) = crc_bits 32 m /\
  forall i, (i < 4)%nat -> (late_entry_message m).[(32 + i)%nat] = (crc_bits 4 (dsd_dmr_crc4 (Some (crc_bits 32 m)) 32)).[i].
Proof.
  unfold late_entry_message. destruct (crc_bits_spec 32 m) as (Hl & Hb & _).
  destruct (crc_bits_spec 4 (dsd_dmr_crc4 (Some (crc_bits 32 m)) 32)) as (Hl4 & Hb4 & _).
  split; [rewrite length_app; lia|]. split; [by apply Forall_app|]. split; [by rewrite take_app_length'|].
  intros i Hi. rewrite app_nth2 by lia. by replace (32 + i - length (crc_bits 32 m))%nat with i by lia.
Qed.

(** Any word within three errors of the three codewords of a 36-bit message is
    decoded to that message. *)
Lemma late_entry_golay T0 message fragments :
  length message = 36%nat -> bits message ->
  (forall t, (t < 3)%nat -> within 3 (Golay_24_12_encode (take 12 (drop (t * 12) message))) (late_entry_word fragments t)) ->
  for_ 0 3 (fun triplet '(mi_bits, pass) =>
    let '(codeword, ok) := Golay_24_12_decode (InitAllFecFunction T0)
      (late_entry_codeword (dmr_late_entry_pack_fragments fragments 1) (dmr_late_entry_pack_fragments fragments 4) triplet) in
    (blit mi_bits (triplet * 12) (take 12 codeword), if ok then pass else false)) (replicate 36 0, true)
  = (message, true).
Proof.
  intros Hl Hb Hw.
  assert (D : forall t, (t < 3)%nat -> let d := take 12 (drop (t * 12) message) in bits d /\ length d = 12%nat).
  { intros t Ht d. split; [by apply Forall_take, Forall_drop|]. subst d. rewrite length_take, length_drop. lia. }
  assert (G : forall t, (t < 3)%nat -> Golay_24_12_decode (InitAllFecFunction T0)
    (late_entry_codeword (dmr_late_entry_pack_fragments fragments 1) (dmr_late_entry_pack_fragments fragments 4) t)
    = (Golay_24_12_encode (take 12 (drop (t * 12) message)), true)).
  { intros t Ht. rewrite late_entry_codeword_word by done. apply Golay_24_12_decode_within; [by apply D|by apply Hw]. }
  unfold for_. cbn [fold_left seq Nat.sub]. rewrite !G by lia.
  rewrite !Golay_24_12_encode_systematic by (apply D; lia).
  change (0 * 12)%nat with 0%nat. change (1 * 12)%nat with 12%nat. change (2 * 12)%nat with 24%nat.
  f_equal. rewrite blit_three by (apply (D 0%nat) || apply (D 1%nat) || apply (D 2%nat); lia).
  rewrite drop_0. rewrite <- (take_drop 12 message) at 4. f_equal.
  rewrite <- (take_drop 12 (drop 12 message)) at 2. f_equal. rewrite drop_drop. apply take_ge.
  rewrite length_drop. lia.
Qed.

(** C26: the late entry decoder recovers the message indicator and accepts its
    CRC whenever each of the three received Golay words is within three bit
    errors of the one transmitted, however the errors spread over the six
    bursts. *)
Theorem late_entry_decode_corrects (T0 : fec_tables) (m : Z) (fragments : list Z) (r : dsd_dmr_late_entry_result) :
  0 <= m < 2 ^ 32 ->
  (forall t, (t < 3)%nat ->
     within 3 (Golay_24_12_encode (take 12 (drop (t * 12) (late_entry_message m)))) (late_entry_word fragments t)) ->
  dsd_dmr_late_entry_decode (InitAllFecFunction T0) (Some fragments) (Some r)
  = (Some {| mi := m; crc_ok := true |}, true).
Proof.
  intros Hm Hw. destruct (late_entry_message_spec m) as (Hl & Hb & Ht & Hc).
  unfold dsd_dmr_late_entry_decode. rewrite (late_entry_golay T0 (late_entry_message m)) by done.
  set (msg := late_entry_message m) in *. set (mb := crc_bits 32 m) in *.
  destruct (crc_bits_spec 32 m) as (Hml & Hmb & Hmn). fold mb in Hml, Hmb, Hmn.
  set (c := dsd_dmr_crc4 (Some mb) 32) in *.
  assert (Ec : dsd_dmr_crc4 (Some msg) 32 = c).
  { unfold c, dsd_dmr_crc4. by rewrite Ht, (take_ge mb) by lia. }
  destruct (crc4_run mb 32 Hmb ltac:(lia) ltac:(lia)) as [_ Hr]. fold c in Hr.
  do 3 f_equal.
  - unfold u32. rewrite (proj1 (collect_lor 32 32 ltac:(lia) (fun i => msg.[i]) ltac:(intros; by apply bits_nth))).
    etransitivity; [|exact (bits_value_testbit 32 m Hm)]. apply bits_value_ext. intros i Hi.
    rewrite <- Hmn by done. by rewrite <- Ht, nth_take.
  - rewrite Ec. apply Z.eqb_eq.
    transitivity (for_ 0 4 (fun i crc => u8 (Z.lor (Z.shiftl crc 1) (msg.[(32 + i)%nat]))) 0).
    { apply (for_shift 0 4 32 (fun i crc => u8 (Z.lor (Z.shiftl crc 1) (msg.[i])))). }
    unfold u8. rewrite (proj2 (collect_lor 8 4 ltac:(lia) (fun i => msg.[(32 + i)%nat]) ltac:(intros; by apply bits_nth))).
    etransitivity; [|exact (bits_value_testbit 4 c Hr)]. apply bits_value_ext. intros i Hi.
    rewrite Hc by done. by apply crc_bits_spec.
Qed.

Lemma late_entry_decode_corrects_witness :
  let sent := late_entry_send (late_entry_message 0xDEADBEEF) in
  let noisy := sent.[3%nat <- Z.lxor (sent.[3%nat]) 5].[7%nat <- Z.lxor (sent.[7%nat]) 14].[18%nat <- Z.lxor (sent.[18%nat]) 8] in
  dsd_dmr_late_entry_decode (InitAllFecFunction fec_zero) (Some noisy) (Some {| mi := 0; crc_ok := false |})
  = (Some {| mi := 0xDEADBEEF; crc_ok := true |}, true).
Proof.
  intros sent noisy. apply (late_entry_decode_corrects fec_zero 0xDEADBEEF); [by_decide|].
  intros t Ht. destruct t as [|[|[|]]]; [by_decide..|lia].
Defined.
