(* ===== verification/Lfsr.v ===== *)
(** * Linear feedback shift registers of the ciphers

    [crypto/dmr_mi.c], [crypto/nxdn_keystream.c], [protocol/p25/p25_lfsr.c] and
    [protocol/nxdn/nxdn_lfsr.c]: the message indicator of a voice superframe is
    advanced, or expanded to a 128-bit initialisation vector, by a register whose
    feedback is an exclusive or of taps.  The registers are 32 or 64 bits wide; an
    IV is sixteen bytes.  What the routines print is not modelled. *)
From S2P Require Import Prelude.

(** ** A register of [W] bits with feedback [fb] *)

Section Register.
Context (W : nat) (fb : Z -> Z) (Hfb : forall l, is_bit (fb l)).

(** [lfsr = (lfsr << 1) | bit] *)
Definition lfsr_step (l : Z) : Z := Z.lor (wrap (Z.of_nat W) (Z.shiftl l 1)) (fb l).

Definition lfsr_out (l : Z) (i : nat) : Z := fb (Nat.iter i lfsr_step l).

Context (HW : (0 < W)%nat).

Lemma lfsr_step_eq l : lfsr_step l = wrap (Z.of_nat W) (2 * l + fb l).
Proof.
  unfold lfsr_step, wrap. rewrite Z.shiftl_mul_pow2, Z.mul_comm by lia. change (2 ^ 1) with 2.
  replace (Z.of_nat W) with (Z.succ (Z.of_nat (W - 1))) by lia. rewrite Z.pow_succ_r by lia.
  pose proof (Z.pow_pos_nonneg 2 (Z.of_nat (W - 1)) ltac:(lia) ltac:(lia)) as HP.
  set (P := 2 ^ Z.of_nat (W - 1)) in *.
  rewrite Z.mul_mod_distr_l by lia. destruct (Hfb l) as [-> | ->].
  - rewrite Z.lor_0_r, Z.add_0_r, Z.mul_mod_distr_l by lia. done.
  - pose proof (lor_shiftl (l mod P) 1 1 ltac:(lia) ltac:(lia)) as E.
    rewrite Z.shiftl_mul_pow2 in E by lia. change (2 ^ 1) with 2 in E. rewrite (Z.mul_comm 2), E.
    rewrite (Z.add_comm (2 * l)), (Z.rem_mul_r (1 + 2 * l) 2 P) by lia.
    rewrite (Z.mul_comm 2 l), Z.mod_add, Z.div_add by lia. change (1 mod 2) with 1. change (1 / 2) with 0. rewrite Z.add_0_l. lia.
Qed.

Lemma lfsr_out_bit l i : is_bit (lfsr_out l i).
Proof. apply Hfb. Qed.

(** After [k] steps the register holds its start shifted by [k] places and the
    [k] bits fed back. *)
Lemma lfsr_iter k l : 0 <= l < 2 ^ Z.of_nat W ->
  Nat.iter k lfsr_step l = wrap (Z.of_nat W) (l * 2 ^ Z.of_nat k + bits_value k (lfsr_out l)).
Proof.
  intros Hl. induction k as [|k IH].
  - cbn [Nat.iter nat_rect]. unfold wrap. rewrite Z.mod_small; cbn; lia.
  - rewrite Nat.iter_succ, lfsr_step_eq. change (fb (Nat.iter k lfsr_step l)) with (lfsr_out l k).
    rewrite IH, bits_value_S, Nat2Z.inj_succ, Z.pow_succ_r by lia. unfold wrap.
    rewrite <- Z.add_mod_idemp_l, Z.mul_mod_idemp_r, Z.add_mod_idemp_l by (apply Z.pow_nonzero; lia).
    f_equal. lia.
Qed.

Lemma lfsr_iter_W l : 0 <= l < 2 ^ Z.of_nat W -> Nat.iter W lfsr_step l = bits_value W (lfsr_out l).
Proof.
  intros Hl. rewrite lfsr_iter by done. unfold wrap. rewrite Z.add_comm, Z.mod_add by (apply Z.pow_nonzero; lia).
  apply Z.mod_small. apply bits_value_range. intros. apply lfsr_out_bit.
Qed.

Lemma iter_out j k l : lfsr_out (Nat.iter j lfsr_step l) k = lfsr_out l (j + k).
Proof. unfold lfsr_out. f_equal. rewrite Nat.add_comm. symmetry. apply Nat.iter_add. Qed.
End Register.

(** ** [crypto/dmr_mi.c] *)

Definition mi_fb (lfsr : Z) : Z :=
  Z.land (Z.lxor (Z.lxor (Z.shiftr lfsr 31) (Z.shiftr lfsr 3)) (Z.shiftr lfsr 1)) 1.

(** The register is 64 bits wide; the result is its low half. *)
Definition dmr_mi_advance32 (mi : Z) : Z :=
  u32 (for_ 0 32 (fun _ lfsr => Z.lor (u64 (Z.shiftl lfsr 1)) (mi_fb lfsr)) mi).

Definition iv_fb (lfsr : Z) : Z :=
  Z.land (Z.lxor (Z.lxor (Z.lxor (Z.shiftr lfsr 31) (Z.shiftr lfsr 21)) (Z.shiftr lfsr 1)) lfsr) 1.

(** The returned value and the vector. *)
Definition dmr_aes_expand_iv (mi : Z) (iv : option (list Z)) : Z * option (list Z) :=
  match iv with
  | None => (mi, None)
  | Some iv =>
      let iv := for_ 0 4 (fun i iv => iv.[i <- u8 (Z.shiftr mi (24 - 8 * Z.of_nat i))]) iv in
      let '(lfsr, iv) :=
        for_ 4 16 (fun i '(lfsr, iv) =>
          let '(lfsr, octet) :=
            for_ 0 8 (fun _ '(lfsr, octet) =>
              let bit := iv_fb lfsr in
              (Z.lor (u32 (Z.shiftl lfsr 1)) bit, u8 (Z.lor (Z.shiftl octet 1) bit))) (lfsr, 0) in
          (lfsr, iv.[i <- octet])) (mi, iv) in
      (Z.lor (Z.lor (Z.lor (Z.shiftl (iv.[4%nat]) 24) (Z.shiftl (iv.[5%nat]) 16)) (Z.shiftl (iv.[6%nat]) 8)) (iv.[7%nat]),
       Some iv)
  end.

Definition dmr_des_expand_iv (mi : Z) : Z :=
  for_ 0 32 (fun _ lfsr => Z.lor (u64 (Z.shiftl lfsr 1)) (iv_fb lfsr)) mi.

(** ** The 64-bit register of P25 and NXDN *)

(** x^64 + x^62 + x^46 + x^38 + x^27 + x^15 + 1 *)
Definition fb64 (lfsr : Z) : Z :=
  Z.land (Z.lxor (Z.lxor (Z.lxor (Z.lxor (Z.lxor (Z.shiftr lfsr 63) (Z.shiftr lfsr 61)) (Z.shiftr lfsr 45))
    (Z.shiftr lfsr 37)) (Z.shiftr lfsr 26)) (Z.shiftr lfsr 14)) 1.

Definition step64 (lfsr : Z) : Z := Z.lor (u64 (Z.shiftl lfsr 1)) (fb64 lfsr).

(** [crypto/nxdn_keystream.c] *)
Definition nxdn_lfsr128_expand_iv_from_mi64 (mi : Z) (out : option (list Z)) : option (list Z) :=
  match out with
  | None => None
  | Some out =>
      let out := for_ 0 8 (fun i out => out.[i <- u8 (Z.shiftr mi (56 - Z.of_nat i * 8))]) out in
      Some (snd (for_ 8 16 (fun i '(lfsr, out) =>
        let '(lfsr, octet) :=
          for_ 0 8 (fun _ '(lfsr, octet) => (step64 lfsr, u8 (Z.lor (Z.shiftl octet 1) (fb64 lfsr)))) (lfsr, 0) in
        (lfsr, out.[i <- octet])) (mi, out)))
  end.

(** The fields of [dsd_state] the routines use. *)
Record lfsr_state := mk_lfsr_state {
  currentslot : Z; payload_miP : Z; payload_miN : Z; aes_iv : list Z; aes_ivR : list Z }.

(** [protocol/p25/p25_lfsr.c] *)
Definition p25_lfsr_advance_64 (lfsr : Z) : Z := for_ 0 64 (fun _ => step64) lfsr.

Definition LFSRP (state : lfsr_state) : lfsr_state :=
  let lfsr := 0 in
  let lfsr := if currentslot state =? 0 then payload_miP state else lfsr in
  let lfsr := if currentslot state =? 1 then payload_miN state else lfsr in
  let lfsr := p25_lfsr_advance_64 lfsr in
  mk_lfsr_state (currentslot state)
    (if currentslot state =? 0 then lfsr else payload_miP state)
    (if currentslot state =? 1 then lfsr else payload_miN state)
    (aes_iv state) (aes_ivR state).

Definition p25_lfsr128_store_seed_bytes (lfsr : Z) (iv : list Z) : list Z :=
  let iv := iv.[0%nat <- u8 (Z.land (Z.shiftr lfsr 56) 0xFF)] in
  let iv := iv.[1%nat <- u8 (Z.land (Z.shiftr lfsr 48) 0xFF)] in
  let iv := iv.[2%nat <- u8 (Z.land (Z.shiftr lfsr 40) 0xFF)] in
  let iv := iv.[3%nat <- u8 (Z.land (Z.shiftr lfsr 32) 0xFF)] in
  let iv := iv.[4%nat <- u8 (Z.land (Z.shiftr lfsr 24) 0xFF)] in
  let iv := iv.[5%nat <- u8 (Z.land (Z.shiftr lfsr 16) 0xFF)] in
  let iv := iv.[6%nat <- u8 (Z.land (Z.shiftr lfsr 8) 0xFF)] in
  iv.[7%nat <- u8 (Z.land (Z.shiftr lfsr 0) 0xFF)].

(** The bytes keep what they held until eight bits have been shifted in. *)
Definition p25_lfsr128_store_feedback_bytes (lfsr : Z) (iv : list Z) : list Z :=
  snd (for_ 0 64 (fun cnt '(lfsr, iv) =>
    let x := (64 + cnt)%nat in
    let bit := fb64 lfsr in
    (step64 lfsr, iv.[(x / 8)%nat <- u8 (Z.shiftl (iv.[(x / 8)%nat]) 1 + bit)])) (lfsr, iv)).

Definition p25_lfsr128_slot (state : lfsr_state) (slot : Z) : lfsr_state :=
  if negb (slot =? 0) && negb (slot =? 1) then state
  else
    let lfsr := if slot =? 0 then payload_miP state else payload_miN state in
    let store iv := p25_lfsr128_store_feedback_bytes lfsr (p25_lfsr128_store_seed_bytes lfsr iv) in
    mk_lfsr_state (currentslot state) (payload_miP state) (payload_miN state)
      (if slot =? 0 then store (aes_iv state) else aes_iv state)
      (if slot =? 0 then aes_ivR state else store (aes_ivR state)).

Definition LFSR128 (state : lfsr_state) : lfsr_state := p25_lfsr128_slot state (currentslot state).

(** [protocol/nxdn/nxdn_lfsr.c] spells out the same stores. *)
Definition LFSR128n (state : lfsr_state) : lfsr_state :=
  let lfsr := payload_miN state in
  mk_lfsr_state (currentslot state) (payload_miP state) (payload_miN state)
    (p25_lfsr128_store_feedback_bytes lfsr (p25_lfsr128_store_seed_bytes lfsr (aes_iv state))) (aes_ivR state).

(** ** The 15-bit voice scrambler of NXDN *)

Definition nxdn_pdu_scrambler_keystream_creation (ks : option (list Z)) (lfsr len_bits : Z) : option (list Z) :=
  match ks with
  | None => None
  | Some ks =>
      if len_bits <=? 0 then Some ks
      else
        Some (snd (for_ 0 (Z.to_nat len_bits) (fun i '(reg, ks) =>
          let bit := u16 (Z.land (Z.lxor (Z.shiftr reg 1) reg) 1) in
          (u16 (Z.lor (Z.shiftr reg 1) (Z.shiftl bit 14)), ks.[i <- u8 (Z.land reg 1)]))
          (Z.land (u16 lfsr) 0x7FFF, ks)))
  end.

(** Scrambles 49 bits; the register is left in [payload_miN]. *)
Definition LFSRN (BufferIn BufferOut : list Z) (state : lfsr_state) : list Z * lfsr_state :=
  let '(lfsr, out) :=
    for_ 0 49 (fun i '(lfsr, out) =>
      let pn := Z.land lfsr 0x1 in
      let bit := Z.land (Z.lxor (Z.shiftr lfsr 1) (Z.shiftr lfsr 0)) 1 in
      (Z.lor (Z.shiftr lfsr 1) (Z.shiftl bit 14), out.[i <- Z.lxor (BufferIn.[i]) pn]))
      (Z.land (payload_miN state) 0x7FFF, BufferOut) in
  (out, mk_lfsr_state (currentslot state) (payload_miP state) (Z.land lfsr 0x7FFF) (aes_iv state) (aes_ivR state)).

(** ** Octets of the feedback *)

(** The eight bytes of a 64-bit word, most significant first. *)
Definition octets64 (x : Z) : list Z := map (fun i => u8 (Z.shiftr x (56 - 8 * Z.of_nat i))) (seq 0 8).

Section Octets.
Context (W : nat) (fb : Z -> Z) (Hfb : forall l, is_bit (fb l)) (HW : (0 < W)%nat).
Notation step := (lfsr_step W fb).
Notation out := (lfsr_out W fb).

Lemma octet_loop k l : (k <= 8)%nat ->
  for_ 0 k (fun _ '(lfsr, octet) => (step lfsr, u8 (Z.lor (Z.shiftl octet 1) (fb lfsr)))) (l, 0)
  = (Nat.iter k step l, bits_value k (out l)).
Proof.
  intros Hk. induction k as [|k IH]; [done|]. rewrite for_S, IH by lia.
  pose proof (bits_value_range k (out l) (fun i _ => lfsr_out_bit W fb Hfb l i)) as Hr.
  destruct (lor_shift_bit 8 8 ltac:(lia) _ (out l k) k Hr ltac:(lia) (lfsr_out_bit W fb Hfb l k)) as (_ & E2 & E3).
  rewrite Nat.iter_succ, bits_value_S. f_equal.
  rewrite Z.shiftl_mul_pow2, Z.mul_comm by lia. change (2 ^ 1) with 2.
  change (fb (Nat.iter k step l)) with (out l k). by rewrite E2.
Qed.

(** Octet after octet into consecutive cells. *)
Lemma iv_loop lo n l iv :
  for_ lo (lo + n) (fun i '(lfsr, iv) =>
    let '(lfsr, octet) :=
      for_ 0 8 (fun _ '(lfsr, octet) => (step lfsr, u8 (Z.lor (Z.shiftl octet 1) (fb lfsr)))) (lfsr, 0) in
    (lfsr, iv.[i <- octet])) (l, iv)
  = (Nat.iter (8 * n) step l,
     stores (fun j => (lo + j)%nat) (fun j => bits_value 8 (fun k => out l (8 * j + k)%nat)) n iv).
Proof.
  induction n as [|n IH]; [by rewrite for_nil by lia|].
  rewrite Nat.add_succ_r, for_S, IH, octet_loop by lia. unfold stores. rewrite (for_S 0 n) by lia.
  f_equal; [|f_equal].
  - rewrite <- Nat.iter_add. f_equal. lia.
  - apply bits_value_ext. intros i _. apply iter_out.
Qed.
End Octets.

Lemma octet_of_word n (f : nat -> Z) j : (forall i, is_bit (f i)) -> (8 * S j <= n)%nat ->
  bits_value 8 (fun k => f (8 * j + k)%nat) = u8 (Z.shiftr (bits_value n f) (Z.of_nat (n - 8 - 8 * j))).
Proof.
  intros Hf Hj. rewrite <- (bits_value_testbit 8 (u8 _)) by (apply Z.mod_pos_bound; lia).
  apply bits_value_ext. intros i Hi. unfold u8, wrap.
  rewrite Z.mod_pow2_bits_low, Z.shiftr_spec by lia.
  rewrite <- (testbit_bits_value n f) by (done || lia). do 2 f_equal. lia.
Qed.

Lemma fb64_bit l : is_bit (fb64 l).
Proof. apply land1_bit. Qed.

Lemma iv_fb_bit l : is_bit (iv_fb l).
Proof. apply land1_bit. Qed.

Lemma mi_fb_bit l : is_bit (mi_fb l).
Proof. apply land1_bit. Qed.

Lemma advance_64_bits l : 0 <= l < 2 ^ 64 -> p25_lfsr_advance_64 l = bits_value 64 (lfsr_out 64 fb64 l).
Proof.
  intros Hl. unfold p25_lfsr_advance_64. rewrite (for_iter step64).
  apply (lfsr_iter_W 64 fb64 fb64_bit ltac:(lia) l Hl).
Qed.

(** ** The three IV expansions of a 64-bit indicator *)

Definition byte_list (l : list Z) : Prop := Forall (fun x => 0 <= x < 256) l.

Lemma nth_byte_list l i : byte_list l -> 0 <= l.[i] < 256.
Proof.
  intros H. destruct (decide (i < length l)%nat) as [Hi|Hi]; [by apply Forall_nth|].
  rewrite nth_overflow; lia.
Qed.

Lemma u8_shift v b : u8 (Z.shiftl (u8 v) 1 + b) = u8 (2 * v + b).
Proof.
  unfold u8, wrap. rewrite Z.shiftl_mul_pow2, Z.mul_comm by lia. change (2 ^ 1) with 2.
  by rewrite <- Z.add_mod_idemp_l, Z.mul_mod_idemp_r, Z.add_mod_idemp_l by lia.
Qed.

(** The bytes of the feedback, whatever the cells held before. *)
Lemma feedback_bytes l iv : length iv = 16%nat -> byte_list iv ->
  length (p25_lfsr128_store_feedback_bytes l iv) = 16%nat /\
  forall a, (p25_lfsr128_store_feedback_bytes l iv).[a]
    = if decide (8 <= a < 16)%nat then bits_value 8 (fun k => lfsr_out 64 fb64 l (8 * (a - 8) + k)) else iv.[a].
Proof.
  intros Hl Hb. set (out := lfsr_out 64 fb64 l).
  set (k cnt a := Nat.min 8 (cnt - 8 * (a - 8))).
  set (cell cnt a := if decide (8 <= a < 16)%nat
    then u8 (iv.[a] * 2 ^ Z.of_nat (k cnt a) + bits_value (k cnt a) (fun i => out (8 * (a - 8) + i)%nat)) else iv.[a]).
  assert (Hinv : forall n, (n <= 64)%nat ->
    let r := for_ 0 n (fun cnt '(lfsr, iv) =>
      let x := (64 + cnt)%nat in
      let bit := fb64 lfsr in
      (step64 lfsr, iv.[(x / 8)%nat <- u8 (Z.shiftl (iv.[(x / 8)%nat]) 1 + bit)])) (l, iv) in
    fst r = Nat.iter n step64 l /\ length (snd r) = 16%nat /\ forall a, (snd r).[a] = cell n a).
  { intros n Hn r. subst r. induction n as [|n IH].
    - rewrite for_nil by lia. split; [done|]. split; [done|]. intros a. unfold cell, k.
      destruct (decide _); [|done]. cbn [Nat.sub Nat.min fst snd]. rewrite Z.mul_1_r, Z.add_0_r.
      symmetry. apply Z.mod_small. by apply nth_byte_list.
    - rewrite for_S by lia. destruct IH as (IH1 & IH2 & IH3); [lia|].
      destruct (for_ 0 n _ (l, iv)) as [lf ivn]. cbn [fst snd] in *. subst lf.
      replace ((64 + n) / 8)%nat with (8 + n / 8)%nat by (symmetry; apply (Nat.div_add_l 8 8 n); lia).
      pose proof (Nat.div_mod_eq n 8) as Hdm. pose proof (Nat.mod_upper_bound n 8 ltac:(lia)) as Hm.
      split; [done|]. rewrite length_insert. split; [done|]. intros a. rewrite nth_insert, IH2.
      destruct (decide (8 + n / 8 = a /\ _)%nat) as [[<- Ha]|Ha].
      + rewrite IH3. unfold cell. destruct (decide _) as [_|]; [|lia].
        assert (k n (8 + n / 8)%nat = (n mod 8)%nat) as -> by (unfold k; lia).
        assert (k (S n) (8 + n / 8)%nat = S (n mod 8)) as -> by (unfold k; lia).
        rewrite u8_shift, bits_value_S, Nat2Z.inj_succ, Z.pow_succ_r by lia.
        replace (8 * (8 + n / 8 - 8) + n mod 8)%nat with n by lia. change (fb64 (Nat.iter n step64 l)) with (out n).
        f_equal. lia.
      + rewrite IH3. unfold cell. destruct (decide (8 <= a < 16)%nat); [|done].
        assert (k (S n) a = k n a) as ->; [|done]. unfold k. lia. }
  destruct (Hinv 64%nat ltac:(lia)) as (_ & H2 & H3). split; [exact H2|]. intros a. etransitivity; [apply H3|].
  unfold cell. destruct (decide _); [|done]. assert (k 64 a = 8)%nat as -> by (unfold k; lia).
  unfold u8, wrap. rewrite Z.add_comm, Z.mod_add by lia. apply Z.mod_small.
  apply (bits_value_range 8). intros. apply fb64_bit.
Qed.

Lemma seed_bytes_stores l iv :
  p25_lfsr128_store_seed_bytes l iv = stores (fun i => i) (fun i => u8 (Z.shiftr l (56 - 8 * Z.of_nat i))) 8 iv.
Proof.
  assert (E : forall x, u8 (Z.land x 0xFF) = u8 x).
  { intros x. change 0xFF with (Z.ones 8). rewrite Z.land_ones by lia. unfold u8, wrap. by apply Z.mod_mod. }
  unfold p25_lfsr128_store_seed_bytes, stores, for_. cbn [fold_left seq Nat.sub]. rewrite !E. reflexivity.
Qed.

(** The vector an indicator expands to. *)
Definition iv128 (mi : Z) : list Z := octets64 mi ++ octets64 (p25_lfsr_advance_64 mi).

Lemma octets64_nth x i : (i < 8)%nat -> (octets64 x).[i] = u8 (Z.shiftr x (56 - 8 * Z.of_nat i)).
Proof. intros Hi. unfold octets64. by rewrite nth_map_seq. Qed.

Lemma iv128_spec mi : 0 <= mi < 2 ^ 64 -> length (iv128 mi) = 16%nat /\ forall a, (a < 16)%nat ->
  (iv128 mi).[a] = if decide (8 <= a)%nat then bits_value 8 (fun k => lfsr_out 64 fb64 mi (8 * (a - 8) + k))
                   else u8 (Z.shiftr mi (56 - 8 * Z.of_nat a)).
Proof.
  intros Hmi. split; [done|]. intros a Ha. unfold iv128. destruct (decide (8 <= a)%nat) as [H|H].
  - rewrite app_nth2 by (unfold octets64; len). change (length (octets64 mi)) with 8%nat.
    rewrite octets64_nth, advance_64_bits by (done || lia).
    rewrite (octet_of_word 64 (lfsr_out 64 fb64 mi)) by (lia || apply (lfsr_out_bit 64 fb64 fb64_bit)).
    do 2 f_equal. lia.
  - rewrite app_nth1 by (unfold octets64; len). by apply octets64_nth; lia.
Qed.

Lemma p25_store_iv128 mi iv : 0 <= mi < 2 ^ 64 -> length iv = 16%nat -> byte_list iv ->
  p25_lfsr128_store_feedback_bytes mi (p25_lfsr128_store_seed_bytes mi iv) = iv128 mi.
Proof.
  intros Hmi Hl Hb. rewrite seed_bytes_stores. set (v := fun i => u8 (Z.shiftr mi (56 - 8 * Z.of_nat i))).
  destruct (feedback_bytes mi (stores (fun i => i) v 8 iv)) as [Hfl Hf].
  - by rewrite length_stores.
  - apply (for_inv byte_list); [done|]. intros i m _ Hm. apply Forall_insert; [done|]. by apply Z.mod_pos_bound.
  - destruct (iv128_spec mi Hmi) as [Hvl Hv]. apply list_eq_nth; [by rewrite Hfl|]. rewrite Hfl. intros a Ha.
    rewrite Hf, Hv by done. destruct (decide (8 <= a < 16)%nat), (decide (8 <= a)%nat); try lia.
    apply (stores_hit (fun i => i) v); lia.
Qed.

Lemma nxdn_store_iv128 mi out : 0 <= mi < 2 ^ 64 -> length out = 16%nat ->
  nxdn_lfsr128_expand_iv_from_mi64 mi (Some out) = Some (iv128 mi).
Proof.
  intros Hmi Hl. unfold nxdn_lfsr128_expand_iv_from_mi64. f_equal.
  set (o := for_ 0 8 _ out).
  assert (Ho : o = stores (fun i => i) (fun i => u8 (Z.shiftr mi (56 - 8 * Z.of_nat i))) 8 out).
  { apply for_ext. intros i s _. by rewrite (Z.mul_comm 8). }
  unfold step64, u64. change 16%nat with (8 + 8)%nat.
  pose proof (iv_loop 64 fb64 fb64_bit ltac:(lia) 8 8 mi o) as E. unfold lfsr_step at 1 in E. change (Z.of_nat 64) with 64 in E.
  rewrite E. cbn [snd]. destruct (iv128_spec mi Hmi) as [Hvl Hv].
  apply list_eq_nth; [rewrite Hvl, length_stores, Ho; by rewrite length_stores|].
  rewrite length_stores, Ho, length_stores, Hl. intros a Ha. rewrite Hv by done.
  destruct (decide (8 <= a)%nat).
  - replace a with (8 + (a - 8))%nat at 1 by lia.
    rewrite (stores_hit (fun j => (8 + j)%nat)) by (lia || rewrite length_stores; lia). done.
  - rewrite stores_miss by lia. apply (stores_hit (fun i => i)); lia.
Qed.

(** the three expansions of a 64-bit message indicator agree.  Whatever the
    IV buffers held, P25 (either slot), NXDN's decoder and NXDN's keystream
    module all store the eight bytes of the indicator followed by the eight
    bytes of its successor, the indicator [LFSRP] computes for the next
    superframe. *)
Lemma iv_expansions_agree (mi : Z) (out : list Z) (s : lfsr_state) :
  0 <= mi < 2 ^ 64 -> length out = 16%nat ->
  length (aes_iv s) = 16%nat -> byte_list (aes_iv s) -> length (aes_ivR s) = 16%nat -> byte_list (aes_ivR s) ->
  nxdn_lfsr128_expand_iv_from_mi64 mi (Some out) = Some (iv128 mi) /\
  (payload_miP s = mi -> aes_iv (p25_lfsr128_slot s 0) = iv128 mi) /\
  (payload_miN s = mi -> aes_ivR (p25_lfsr128_slot s 1) = iv128 mi /\ aes_iv (LFSR128n s) = iv128 mi) /\
  (payload_miP s = mi -> currentslot s = 0 -> octets64 (payload_miP (LFSRP s)) = drop 8 (iv128 mi)).
Proof.
  intros Hmi Ho Hl Hb HlR HbR. split; [by apply nxdn_store_iv128|].
  split; [intros <-; by apply p25_store_iv128|]. split; [intros <-; split; by apply p25_store_iv128|].
  intros <- H0. unfold LFSRP. rewrite H0. reflexivity.
Qed.

Lemma iv_expansions_agree_witness :
  let s := mk_lfsr_state 0 0x0123456789ABCDEF 0x0123456789ABCDEF (replicate 16 0xFF) (replicate 16 0x5A) in
  nxdn_lfsr128_expand_iv_from_mi64 0x0123456789ABCDEF (Some (replicate 16 1)) = Some (iv128 0x0123456789ABCDEF) /\
  aes_iv (p25_lfsr128_slot s 0) = iv128 0x0123456789ABCDEF /\
  aes_ivR (p25_lfsr128_slot s 1) = iv128 0x0123456789ABCDEF.
Proof.
  intros s.
  destruct (iv_expansions_agree 0x0123456789ABCDEF (replicate 16 1) s ltac:(by_decide) ltac:(by_decide)
    ltac:(by_decide) ltac:(by_decide) ltac:(by_decide) ltac:(by_decide)) as (H1 & H2 & H3 & _).
  split; [exact H1|]. split; [by apply H2|]. by apply H3.
Defined.

(** ** DMR *)

Lemma testbit_u32 l i : 0 <= i < 32 -> Z.testbit (u32 l) i = Z.testbit l i.
Proof. intros Hi. apply Z.mod_pow2_bits_low. lia. Qed.

Lemma u32_fold x : x mod 2 ^ 32 = u32 x.
Proof. done. Qed.

(** A feedback that reads the low 32 bits only drives a 64-bit register the way
    it drives a 32-bit one. *)
Section Wide.
Context (fb : Z -> Z) (Hfb : forall l, is_bit (fb l)) (Hlow : forall l, fb (u32 l) = fb l).

Lemma wide_step l l' : u32 l = u32 l' -> u32 (lfsr_step 64 fb l) = lfsr_step 32 fb l'.
Proof.
  intros H. rewrite !lfsr_step_eq by (done || lia). rewrite <- (Hlow l), <- (Hlow l'), H.
  unfold wrap, u32, wrap in *.
  rewrite <- (Znumtheory.Zmod_div_mod (2 ^ 32) (2 ^ Z.of_nat 64)); [|by_decide..|].
  2: { exists (2 ^ 32). reflexivity. }
  change (2 ^ Z.of_nat 32) with (2 ^ 32).
  rewrite <- (Z.add_mod_idemp_l (2 * l)), <- (Z.mul_mod_idemp_r 2 l), H by lia.
  by rewrite Z.mul_mod_idemp_r, Z.add_mod_idemp_l by lia.
Qed.

Lemma u32_range x : 0 <= u32 x < 2 ^ 32.
Proof. apply Z.mod_pos_bound. lia. Qed.

Lemma wide_iter k l : 0 <= l < 2 ^ 32 -> u32 (Nat.iter k (lfsr_step 64 fb) l) = Nat.iter k (lfsr_step 32 fb) l.
Proof.
  intros Hl. induction k as [|k IH]; [by apply Z.mod_small|]. rewrite !Nat.iter_succ. apply wide_step.
  rewrite IH, <- IH. unfold u32, wrap. by rewrite Z.mod_mod by lia.
Qed.

Lemma wide_out k l : 0 <= l < 2 ^ 32 -> lfsr_out 64 fb l k = lfsr_out 32 fb l k.
Proof. intros Hl. unfold lfsr_out. by rewrite <- wide_iter, Hlow. Qed.

(** No two contents have the same successor when the top bit is a tap. *)
Context (Htop : forall l l', 0 <= l < 2 ^ 32 -> 0 <= l' < 2 ^ 32 -> l mod 2 ^ 31 = l' mod 2 ^ 31 -> fb l = fb l' -> l = l').

Lemma step32_inj l l' : 0 <= l < 2 ^ 32 -> 0 <= l' < 2 ^ 32 ->
  lfsr_step 32 fb l = lfsr_step 32 fb l' -> l = l'.
Proof.
  intros Hl Hl'. rewrite !lfsr_step_eq by (done || lia). unfold wrap. change (2 ^ Z.of_nat 32) with (2 * 2 ^ 31).
  assert (E : forall x, (2 * x + fb x) mod (2 * 2 ^ 31) = fb x + 2 * (x mod 2 ^ 31)).
  { intros x. rewrite Z.add_comm, Z.rem_mul_r, (Z.mul_comm 2 x), Z.mod_add, Z.div_add by lia.
    destruct (Hfb x) as [-> | ->]; done. }
  rewrite !E. intros H. apply Htop; [done|done| |]; destruct (Hfb l), (Hfb l'); lia.
Qed.

Lemma iter32_inj k l l' : 0 <= l < 2 ^ 32 -> 0 <= l' < 2 ^ 32 ->
  Nat.iter k (lfsr_step 32 fb) l = Nat.iter k (lfsr_step 32 fb) l' -> l = l'.
Proof.
  intros Hl Hl'. induction k as [|k IH]; [done|]. rewrite !Nat.iter_succ. intros H. apply IH.
  rewrite <- !wide_iter in * by done. apply step32_inj; [apply u32_range..|done].
Qed.
End Wide.

Lemma mi_fb_taps l : mi_fb l = Z.b2z (xorb (xorb (Z.testbit l 31) (Z.testbit l 3)) (Z.testbit l 1)).
Proof. unfold mi_fb. rewrite land1_testbit, !Z.lxor_spec, !Z.shiftr_spec by lia. done. Qed.

Lemma iv_fb_taps l :
  iv_fb l = Z.b2z (xorb (xorb (xorb (Z.testbit l 31) (Z.testbit l 21)) (Z.testbit l 1)) (Z.testbit l 0)).
Proof. unfold iv_fb. rewrite land1_testbit, !Z.lxor_spec, !Z.shiftr_spec by lia. done. Qed.

Lemma mi_fb_low l : mi_fb (u32 l) = mi_fb l.
Proof. by rewrite !mi_fb_taps, !testbit_u32 by lia. Qed.

Lemma iv_fb_low l : iv_fb (u32 l) = iv_fb l.
Proof. by rewrite !iv_fb_taps, !testbit_u32 by lia. Qed.

Lemma eq_from_top_bit l l' : 0 <= l < 2 ^ 32 -> 0 <= l' < 2 ^ 32 ->
  (forall i, 0 <= i < 31 -> Z.testbit l i = Z.testbit l' i) -> Z.testbit l 31 = Z.testbit l' 31 -> l = l'.
Proof.
  intros Hl Hl' Hlow Htop. apply Z.bits_inj'. intros i Hi.
  destruct (Z_lt_ge_dec i 31) as [H|H]; [apply Hlow; lia|].
  destruct (decide (i = 31)) as [->|]; [done|]. by rewrite !(testbit_ge_pow2 32) by lia.
Qed.

Lemma low_bits_eq l l' : l mod 2 ^ 31 = l' mod 2 ^ 31 -> forall i, 0 <= i < 31 -> Z.testbit l i = Z.testbit l' i.
Proof. intros H i Hi. by rewrite <- (Z.mod_pow2_bits_low l 31 i), H, Z.mod_pow2_bits_low by lia. Qed.

Lemma mi_fb_top l l' : 0 <= l < 2 ^ 32 -> 0 <= l' < 2 ^ 32 -> l mod 2 ^ 31 = l' mod 2 ^ 31 -> mi_fb l = mi_fb l' -> l = l'.
Proof.
  intros Hl Hl' H0. pose proof (low_bits_eq _ _ H0) as H. rewrite !mi_fb_taps, (H 3), (H 1) by lia. intros E. apply eq_from_top_bit; [done..|].
  destruct (Z.testbit l 31), (Z.testbit l' 31), (Z.testbit l' 3), (Z.testbit l' 1); done.
Qed.

Lemma iv_fb_top l l' : 0 <= l < 2 ^ 32 -> 0 <= l' < 2 ^ 32 -> l mod 2 ^ 31 = l' mod 2 ^ 31 -> iv_fb l = iv_fb l' -> l = l'.
Proof.
  intros Hl Hl' H0. pose proof (low_bits_eq _ _ H0) as H. rewrite !iv_fb_taps, (H 21), (H 1), (H 0) by lia. intros E. apply eq_from_top_bit; [done..|].
  destruct (Z.testbit l 31), (Z.testbit l' 31), (Z.testbit l' 21), (Z.testbit l' 1), (Z.testbit l' 0); done.
Qed.

Lemma dmr_mi_advance32_iter mi : 0 <= mi < 2 ^ 32 -> dmr_mi_advance32 mi = Nat.iter 32 (lfsr_step 32 mi_fb) mi.
Proof.
  intros Hm. rewrite <- (wide_iter mi_fb mi_fb_bit mi_fb_low) by done. unfold dmr_mi_advance32.
  change (for_ 0 32 _ mi) with (for_ 0 32 (fun _ => lfsr_step 64 mi_fb) mi). by rewrite for_iter.
Qed.

(** The DES vector holds the indicator and its successor. *)
Lemma dmr_des_expand_iv_eq mi : 0 <= mi < 2 ^ 32 ->
  dmr_des_expand_iv mi = mi * 2 ^ 32 + bits_value 32 (lfsr_out 32 iv_fb mi) /\
  bits_value 32 (lfsr_out 32 iv_fb mi) = Nat.iter 32 (lfsr_step 32 iv_fb) mi.
Proof.
  intros Hm. split; [|symmetry; apply (lfsr_iter_W 32 iv_fb iv_fb_bit ltac:(lia) mi Hm)].
  change (dmr_des_expand_iv mi) with (for_ 0 32 (fun _ => lfsr_step 64 iv_fb) mi).
  rewrite for_iter, (lfsr_iter 64 iv_fb iv_fb_bit) by lia.
  rewrite (bits_value_ext 32 _ (lfsr_out 32 iv_fb mi)) by (intros; by apply (wide_out iv_fb iv_fb_bit iv_fb_low)).
  pose proof (bits_value_range 32 _ (fun i _ => lfsr_out_bit 32 iv_fb iv_fb_bit mi i)) as Hr.
  change (Z.of_nat 32) with 32 in *. apply Z.mod_small. change (Z.of_nat 64) with 64. lia.
Qed.

Lemma lor_octets a b c d : 0 <= b < 256 -> 0 <= c < 256 -> 0 <= d < 256 ->
  Z.lor (Z.lor (Z.lor (Z.shiftl a 24) (Z.shiftl b 16)) (Z.shiftl c 8)) d = ((a * 256 + b) * 256 + c) * 256 + d.
Proof.
  intros Hb Hc Hd. change 256 with (2 ^ 8) in *.
  replace (Z.shiftl a 24) with (Z.shiftl (Z.shiftl a 8) 16) by (rewrite Z.shiftl_shiftl by lia; done).
  rewrite <- Z.shiftl_lor, (lor_shiftl a b 8) by lia.
  replace (Z.shiftl (a * 2 ^ 8 + b) 16) with (Z.shiftl (Z.shiftl (a * 2 ^ 8 + b) 8) 8)
    by (rewrite Z.shiftl_shiftl by lia; done).
  by rewrite <- Z.shiftl_lor, (lor_shiftl _ c 8), (lor_shiftl _ d 8) by lia.
Qed.

(** Four octets in a row are a 32-bit word. *)
Lemma octets_word (f : nat -> Z) : (forall i, is_bit (f i)) ->
  let o j := bits_value 8 (fun k => f (8 * j + k)%nat) in
  ((o 0%nat * 256 + o 1%nat) * 256 + o 2%nat) * 256 + o 3%nat = bits_value 32 f.
Proof.
  intros Hf o. change 32%nat with (8 + 8 + 8 + 8)%nat. rewrite !bits_value_app. subst o. cbv beta.
  change (2 ^ Z.of_nat 8) with 256. reflexivity.
Qed.

(** The AES expansion returns the low half of the DES expansion, the
    register after 32 more bits, and both start with the same eight bytes: the
    indicator and its successor.  A null vector leaves the indicator as it is. *)
Theorem dmr_expansions_agree (mi : Z) (iv : list Z) :
  0 <= mi < 2 ^ 32 -> length iv = 16%nat ->
  exists next v, dmr_aes_expand_iv mi (Some iv) = (next, Some v) /\
    0 <= next < 2 ^ 32 /\ dmr_des_expand_iv mi = mi * 2 ^ 32 + next /\
    length v = 16%nat /\ take 8 v = octets64 (dmr_des_expand_iv mi) /\ dmr_aes_expand_iv mi None = (mi, None).
Proof.
  intros Hm Hl. destruct (dmr_des_expand_iv_eq mi Hm) as [E _].
  set (out := lfsr_out 32 iv_fb mi) in *.
  assert (Hout : forall i, is_bit (out i)) by apply (lfsr_out_bit 32 iv_fb iv_fb_bit).
  pose proof (bits_value_range 32 out (fun i _ => Hout i)) as Hr. change (2 ^ Z.of_nat 32) with (2 ^ 32) in Hr.
  set (iv1 := stores (fun i => i) (fun i => u8 (Z.shiftr mi (24 - 8 * Z.of_nat i))) 4 iv).
  set (o := fun j => bits_value 8 (fun k => out (8 * j + k)%nat)).
  set (v := stores (fun j => (4 + j)%nat) o 12 iv1).
  assert (Hlv : length v = 16%nat) by (subst v iv1; by rewrite !length_stores).
  assert (Hv4 : forall j, (j < 12)%nat -> v.[(4 + j)%nat] = o j).
  { intros j Hj. apply (stores_hit (fun j => (4 + j)%nat) o); [done|lia|]. subst iv1. rewrite length_stores. lia. }
  assert (Ho : forall j, 0 <= o j < 256) by (intros; apply (bits_value_range 8); intros; apply Hout).
  exists (bits_value 32 out), v. split; [|split; [exact Hr|split; [exact E|split; [exact Hlv|split; [|done]]]]].
  - pose proof (iv_loop 32 iv_fb iv_fb_bit ltac:(lia) 4 12 mi iv1) as L. unfold lfsr_step at 1 in L.
    change (4 + 12)%nat with 16%nat in L. unfold dmr_aes_expand_iv, u32.
    change (for_ 0 4 _ iv) with iv1. change (Z.of_nat 32) with 32 in L.
    change (stores _ _ 12 iv1) with v in L. rewrite L. cbv iota beta.
    assert (v.[4%nat] = o 0%nat /\ v.[5%nat] = o 1%nat /\ v.[6%nat] = o 2%nat /\ v.[7%nat] = o 3%nat)
      as (-> & -> & -> & ->) by (repeat split; apply Hv4; lia).
    rewrite lor_octets by done.
    by rewrite <- (octets_word out Hout).
  - apply list_eq_nth; [rewrite length_take; unfold octets64; rewrite length_map, length_seq; lia|].
    intros i Hi. rewrite length_take in Hi. rewrite nth_take, octets64_nth by lia.
    rewrite E. destruct (decide (i < 4)%nat) as [Hi4|Hi4].
    + transitivity (iv1.[i]); [apply stores_miss; lia|].
      transitivity (u8 (Z.shiftr mi (24 - 8 * Z.of_nat i))).
      { apply (stores_hit (fun i => i) (fun i => u8 (Z.shiftr mi (24 - 8 * Z.of_nat i)))); lia. }
      f_equal. rewrite !Z.shiftr_div_pow2 by lia.
      replace (56 - 8 * Z.of_nat i) with (32 + (24 - 8 * Z.of_nat i)) by lia.
      rewrite Z.pow_add_r, <- Z.div_div, Z.div_add_l, (Z.div_small (bits_value _ _)), Z.add_0_r by lia. done.
    + replace i with (4 + (i - 4))%nat at 1 by lia. rewrite Hv4 by lia. subst o. cbv beta.
      rewrite (octet_of_word 32 out) by (done || lia). unfold u8, wrap.
      apply Z.bits_inj'. intros b Hb. destruct (Z_lt_ge_dec b 8) as [H8|H8].
      2: { by rewrite !(testbit_ge_pow2 8) by (apply Z.mod_pos_bound || lia; lia). }
      rewrite !Z.mod_pow2_bits_low, !Z.shiftr_spec by lia.
      rewrite <- (Z.mod_pow2_bits_low (mi * 2 ^ 32 + _) 32) by lia.
      rewrite (Z.add_comm (mi * 2 ^ 32)), Z.mod_add, Z.mod_small by lia. f_equal. lia.
Qed.

Lemma dmr_expansions_agree_witness :
  exists next v, dmr_aes_expand_iv 0xDEADBEEF (Some (replicate 16 0)) = (next, Some v) /\
    0 <= next < 2 ^ 32 /\ dmr_des_expand_iv 0xDEADBEEF = 0xDEADBEEF * 2 ^ 32 + next /\
    length v = 16%nat /\ take 8 v = octets64 (dmr_des_expand_iv 0xDEADBEEF) /\
    dmr_aes_expand_iv 0xDEADBEEF None = (0xDEADBEEF, None).
Proof. apply dmr_expansions_agree; by_decide. Defined.

(** Stepping is reversible.  Neither the RC4 indicator nor the one of the
    AES and DES expansions ever merges two chains: different 32-bit indicators
    have different successors. *)
Theorem dmr_mi_successors_injective (mi mi' : Z) :
  0 <= mi < 2 ^ 32 -> 0 <= mi' < 2 ^ 32 ->
  (dmr_mi_advance32 mi = dmr_mi_advance32 mi' -> mi = mi') /\
  (u32 (dmr_des_expand_iv mi) = u32 (dmr_des_expand_iv mi') -> mi = mi').
Proof.
  intros Hm Hm'. split.
  - rewrite !dmr_mi_advance32_iter by done.
    apply (iter32_inj mi_fb mi_fb_bit mi_fb_low mi_fb_top); done.
  - destruct (dmr_des_expand_iv_eq mi Hm) as [-> E], (dmr_des_expand_iv_eq mi' Hm') as [-> E'].
    pose proof (bits_value_range 32 _ (fun i _ => lfsr_out_bit 32 iv_fb iv_fb_bit mi i)) as H1.
    pose proof (bits_value_range 32 _ (fun i _ => lfsr_out_bit 32 iv_fb iv_fb_bit mi' i)) as H2.
    change (2 ^ Z.of_nat 32) with (2 ^ 32) in *. unfold u32, wrap.
    rewrite !(Z.add_comm (_ * 2 ^ 32)), !Z.mod_add, !Z.mod_small, E, E' by lia.
    apply (iter32_inj iv_fb iv_fb_bit iv_fb_low iv_fb_top); done.
Qed.

Lemma dmr_mi_successors_injective_witness :
  (dmr_mi_advance32 1 = dmr_mi_advance32 2 -> 1 = 2) /\
  (u32 (dmr_des_expand_iv 1) = u32 (dmr_des_expand_iv 2) -> 1 = 2).
Proof. apply dmr_mi_successors_injective; by_decide. Defined.

(** ** The NXDN voice scrambler *)

Definition scr_step (r : Z) : Z := Z.lor (Z.shiftr r 1) (Z.shiftl (Z.land (Z.lxor (Z.shiftr r 1) r) 1) 14).

Lemma scr_step_range r : 0 <= r < 2 ^ 15 -> 0 <= scr_step r < 2 ^ 15.
Proof.
  intros Hr. unfold scr_step. set (b := Z.land _ 1).
  assert (Hs : 0 <= Z.shiftr r 1 < 2 ^ 14).
  { rewrite Z.shiftr_div_pow2 by lia. split; [apply Z.div_pos; lia|apply Z.div_lt_upper_bound; lia]. }
  rewrite Z.lor_comm, lor_shiftl by lia. assert (is_bit b) as [-> | ->] by apply land1_bit; lia.
Qed.

Lemma LFSRN_loop inp out r n :
  for_ 0 n (fun i '(lfsr, out) =>
    let pn := Z.land lfsr 0x1 in
    let bit := Z.land (Z.lxor (Z.shiftr lfsr 1) (Z.shiftr lfsr 0)) 1 in
    (Z.lor (Z.shiftr lfsr 1) (Z.shiftl bit 14), out.[i <- Z.lxor (inp.[i]) pn])) (r, out)
  = (Nat.iter n scr_step r, stores (fun i => i) (fun i => Z.lxor (inp.[i]) (Z.land (Nat.iter i scr_step r) 1)) n out).
Proof.
  induction n as [|n IH]; [done|]. rewrite for_S, IH by lia. unfold stores. rewrite (for_S 0 n) by lia.
  rewrite Nat.iter_succ, Z.shiftr_0_r. done.
Qed.

Lemma iter_scr_range n r : 0 <= r < 2 ^ 15 -> 0 <= Nat.iter n scr_step r < 2 ^ 15.
Proof. intros Hr. induction n as [|n IH]; [done|]. rewrite Nat.iter_succ. by apply scr_step_range. Qed.

Lemma scrambler_loop ks r n : 0 <= r < 2 ^ 15 ->
  for_ 0 n (fun i '(reg, ks) =>
    let bit := u16 (Z.land (Z.lxor (Z.shiftr reg 1) reg) 1) in
    (u16 (Z.lor (Z.shiftr reg 1) (Z.shiftl bit 14)), ks.[i <- u8 (Z.land reg 1)])) (r, ks)
  = (Nat.iter n scr_step r, stores (fun i => i) (fun i => Z.land (Nat.iter i scr_step r) 1) n ks).
Proof.
  intros Hr. induction n as [|n IH]; [done|]. rewrite for_S, IH by lia. unfold stores. rewrite (for_S 0 n) by lia.
  pose proof (iter_scr_range (S n) r Hr) as Hn. rewrite Nat.iter_succ in *. set (x := Nat.iter n scr_step r) in *.
  rewrite (u16_small (Z.land _ 1)) by (destruct (land1_bit (Z.lxor (Z.shiftr x 1) x)); lia).
  fold (scr_step x). rewrite u16_small by lia.
  by replace (u8 (Z.land x 1)) with (Z.land x 1) by (destruct (land1_bit x) as [-> | ->]; done).
Qed.

(** [LFSRN] adds to its 49 symbols exactly the keystream
    [nxdn_pdu_scrambler_keystream_creation] produces from the same register, and
    descrambling with the same start restores the symbols. *)
Theorem nxdn_scrambler_keystream (inp out ks : list Z) (s : lfsr_state) :
  (49 <= length out)%nat -> (49 <= length ks)%nat -> 0 <= payload_miN s < 2 ^ 16 ->
  exists k, nxdn_pdu_scrambler_keystream_creation (Some ks) (payload_miN s) 49 = Some k /\
    (forall i, (i < 49)%nat -> (fst (LFSRN inp out s)).[i] = Z.lxor (inp.[i]) (k.[i])) /\
    (forall i, (i < 49)%nat -> (fst (LFSRN (fst (LFSRN inp out s)) out s)).[i] = inp.[i]).
Proof.
  intros Ho Hk Hm. set (r := Z.land (payload_miN s) 0x7FFF).
  assert (Hr : 0 <= r < 2 ^ 15).
  { subst r. change 0x7FFF with (Z.ones 15). rewrite Z.land_ones by lia. apply Z.mod_pos_bound. lia. }
  set (pn i := Z.land (Nat.iter i scr_step r) 1).
  assert (F : forall inp i, (i < 49)%nat -> (fst (LFSRN inp out s)).[i] = Z.lxor (inp.[i]) (pn i)).
  { intros inp' i Hi. unfold LFSRN. fold r. rewrite LFSRN_loop. cbn [fst].
    apply (stores_hit (fun i => i) (fun i => Z.lxor (inp'.[i]) (pn i))); lia. }
  exists (stores (fun i => i) pn 49 ks). split; [|split].
  - unfold nxdn_pdu_scrambler_keystream_creation. rewrite u16_small by lia. fold r. cbn [Z.leb Z.compare].
    change (Z.to_nat 49) with 49%nat. by rewrite scrambler_loop.
  - intros i Hi. rewrite F by done. f_equal. symmetry. apply (stores_hit (fun i => i) pn); lia.
  - intros i Hi. rewrite !F by done. xor_solve.
Qed.

Lemma nxdn_scrambler_keystream_witness :
  let s := mk_lfsr_state 0 0 0x5A5A [] [] in
  let inp := map (fun i => Z.of_nat (i mod 2)) (seq 0 49) in
  exists k, nxdn_pdu_scrambler_keystream_creation (Some (replicate 49 7)) 0x5A5A 49 = Some k /\
    (forall i, (i < 49)%nat -> (fst (LFSRN inp (replicate 49 0) s)).[i] = Z.lxor (inp.[i]) (k.[i])) /\
    (forall i, (i < 49)%nat -> (fst (LFSRN (fst (LFSRN inp (replicate 49 0) s)) (replicate 49 0) s)).[i] = inp.[i]).
Proof.
  intros s inp. apply (nxdn_scrambler_keystream inp (replicate 49 0) (replicate 49 7) s); by_decide.
Defined.
