(* ===== verification/Rc4.v ===== *)
(** * [crypto/crypt-rc4.c]

    The voice and PDU forms of RC4 and the keystream setup of Hytera Enhanced
    privacy.  The two forms repeat the schedule and the generator with S-boxes of
    [uint8_t] and of [unsigned]; the values are the same, [S_box] below is either.
    [drop] keystream bytes are discarded first. *)
From S2P Require Import Prelude.

Definition swap (S_box : list Z) (i j : nat) : list Z :=
  let t := S_box.[i] in
  let S_box := S_box.[i <- S_box.[j]] in
  S_box.[j <- t].

(** Key scheduling: [j] and the S-box. *)
Definition rc4_schedule (key : list Z) (keylength : nat) : list Z :=
  let S_box := for_ 0 256 (fun i S_box => S_box.[i <- Z.of_nat i]) (replicate 256 0) in
  snd (for_ 0 256 (fun i '(j, S_box) =>
    let j := (j + S_box.[i] + key.[(i mod keylength)%nat]) mod 256 in
    (j, swap S_box i (Z.to_nat j))) (0, S_box)).

(** One step of the generator: [i], [j], the S-box. *)
Definition rc4_next (s : Z * Z * list Z) : Z * Z * list Z :=
  let '(i, j, S_box) := s in
  let i := (i + 1) mod 256 in
  let j := (j + S_box.[Z.to_nat i]) mod 256 in
  (i, j, swap S_box (Z.to_nat i) (Z.to_nat j)).

Definition rc4_byte (s : Z * Z * list Z) : Z :=
  let '(i, j, S_box) := s in
  S_box.[Z.to_nat ((S_box.[Z.to_nat i] + S_box.[Z.to_nat j]) mod 256)].

Definition rc4_voice_decrypt (drop : Z) (keylength messagelength : nat) (key cipher plain : list Z) : list Z :=
  let drop := Z.to_nat (if drop <? 0 then 0 else drop) in
  let S_box := rc4_schedule key keylength in
  let total := (messagelength + drop)%nat in
  snd (for_ 0 total (fun count '(s, plain) =>
    let s := rc4_next s in
    (s, if (drop <=? count)%nat
        then plain.[(count - drop)%nat <- u8 (Z.lxor (rc4_byte s) (cipher.[(count - drop)%nat]))]
        else plain)) (0, 0, S_box, plain)).

Definition rc4_block_output (drop : Z) (keylen meslen : nat) (key output_blocks : list Z) : list Z :=
  let drop := Z.to_nat (if drop <? 0 then 0 else drop) in
  let S_box := rc4_schedule key keylen in
  let total := (meslen + drop)%nat in
  snd (for_ 0 total (fun count '(s, x, out) =>
    let s := rc4_next s in
    if (drop <=? count)%nat then (s, S x, out.[x <- u8 (rc4_byte s)]) else (s, x, out))
    (0, 0, S_box, 0%nat, output_blocks)).

(** The keystream buffers of the two slots. *)
Record hytera_state := { currentslot : Z; ks_octetL : list Z; ks_octetR : list Z }.

(** The five low bytes of a value, most significant first. *)
Definition bytes5 (v : Z) : list Z :=
  [u8 (Z.shiftr (Z.land v 0xFF00000000) 32); u8 (Z.shiftr (Z.land v 0xFF000000) 24);
   u8 (Z.shiftr (Z.land v 0xFF0000) 16); u8 (Z.shiftr (Z.land v 0xFF00) 8); u8 (Z.shiftr (Z.land v 0xFF) 0)].

Definition hytera_enhanced_rc4_setup (state : hytera_state) (key_value mi_value : Z) : hytera_state :=
  let key := bytes5 key_value in
  let mi := bytes5 mi_value in
  let ks := rc4_block_output 0 5 135 key (replicate 135 0) in
  let kiv := for_ 0 5 (fun i kiv => kiv.[i <- Z.lxor (key.[i]) (mi.[i])]) (replicate 5 0) in
  let fill ks_octets := for_ 0 135 (fun i o => o.[i <- Z.lxor (kiv.[(i mod 5)%nat]) (ks.[i])]) ks_octets in
  if currentslot state =? 0
  then {| currentslot := currentslot state; ks_octetL := fill (ks_octetL state); ks_octetR := ks_octetR state |}
  else {| currentslot := currentslot state; ks_octetL := ks_octetL state; ks_octetR := fill (ks_octetR state) |}.

(** ** The S-box *)

(** 256 different bytes. *)
Definition sbox (S_box : list Z) : Prop :=
  length S_box = 256%nat /\ (forall a, (a < 256)%nat -> 0 <= S_box.[a] < 256) /\
  (forall a b, (a < 256)%nat -> (b < 256)%nat -> S_box.[a] = S_box.[b] -> a = b).

Lemma swap_nth l i j a : (i < length l)%nat -> (j < length l)%nat ->
  (swap l i j).[a] = if decide (a = j) then l.[i] else if decide (a = i) then l.[j] else l.[a].
Proof.
  intros Hi Hj. unfold swap. destruct (decide (a = j)) as [->|H1].
  - apply nth_insert_eq. by rewrite length_insert.
  - rewrite nth_insert_ne by done. destruct (decide (a = i)) as [->|H2].
    + by apply nth_insert_eq.
    + by apply nth_insert_ne.
Qed.

Lemma sbox_swap l i j : (i < 256)%nat -> (j < 256)%nat -> sbox l -> sbox (swap l i j).
Proof.
  intros Hi Hj (Hl & Hr & Hinj).
  split; [by unfold swap; rewrite !length_insert|]. split.
  - intros a Ha. rewrite swap_nth by lia. repeat destruct (decide _); by apply Hr.
  - intros a b Ha Hb. rewrite !swap_nth by lia.
    destruct (decide (a = j)), (decide (a = i)), (decide (b = j)), (decide (b = i)); subst; try done;
      intros E; apply Hinj in E; lia.
Qed.

Lemma sbox_init : sbox (for_ 0 256 (fun i S_box => S_box.[i <- Z.of_nat i]) (replicate 256 0)).
Proof.
  change (for_ 0 256 _ _) with (stores (fun i => i) (fun i => Z.of_nat i) 256 (replicate 256 0)).
  assert (E : forall a, (a < 256)%nat -> (stores (fun i => i) (fun i => Z.of_nat i) 256 (replicate 256 0)).[a] = Z.of_nat a).
  { intros a Ha. apply (stores_hit (fun i => i) (fun i => Z.of_nat i)); [done|lia|len]. }
  split; [by rewrite length_stores|]. split.
  - intros a Ha. rewrite E by done. lia.
  - intros a b Ha Hb. rewrite !E by done. lia.
Qed.

Lemma sbox_schedule key keylength : sbox (rc4_schedule key keylength).
Proof.
  unfold rc4_schedule. set (s0 := for_ 0 256 (fun i S_box => S_box.[i <- Z.of_nat i]) _).
  apply (for_inv (fun q => sbox (snd q)) 0 256 _ (0, s0)); [exact sbox_init|].
  intros i [j s] Hi Hs. apply sbox_swap; [lia| |done].
  pose proof (Z.mod_pos_bound (j + s.[i] + key.[(i mod keylength)%nat]) 256). lia.
Qed.

Definition rc4_ok (s : Z * Z * list Z) : Prop :=
  let '(i, j, S_box) := s in 0 <= i < 256 /\ 0 <= j < 256 /\ sbox S_box.

Lemma rc4_next_ok s : rc4_ok s -> rc4_ok (rc4_next s).
Proof.
  destruct s as [[i j] l]. intros (Hi & Hj & Hs). cbn -[Z.modulo].
  pose proof (Z.mod_pos_bound (i + 1) 256 ltac:(lia)).
  pose proof (Z.mod_pos_bound (j + l.[Z.to_nat ((i + 1) mod 256)]) 256 ltac:(lia)).
  split; [done|]. split; [done|]. apply sbox_swap; lia || done.
Qed.

Lemma rc4_byte_range s : rc4_ok s -> 0 <= rc4_byte s < 256.
Proof.
  destruct s as [[i j] l]. intros (Hi & Hj & _ & Hr & _). unfold rc4_byte. apply Hr.
  pose proof (Z.mod_pos_bound (l.[Z.to_nat i] + l.[Z.to_nat j]) 256). lia.
Qed.

(** ** The keystream *)

Definition rc4_start (key : list Z) (keylength : nat) : Z * Z * list Z := (0, 0, rc4_schedule key keylength).

(** Keystream byte [n], the first one being 0. *)
Definition rc4_stream (key : list Z) (keylength n : nat) : Z :=
  rc4_byte (Nat.iter (S n) rc4_next (rc4_start key keylength)).

Lemma rc4_iter_ok key keylength n : rc4_ok (Nat.iter n rc4_next (rc4_start key keylength)).
Proof.
  induction n as [|n IH]; [|rewrite Nat.iter_succ; by apply rc4_next_ok].
  split; [lia|]. split; [lia|apply sbox_schedule].
Qed.

Lemma u8_small x : 0 <= x < 256 -> u8 x = x.
Proof. intros Hx. by apply Z.mod_small. Qed.

Lemma voice_loop key kl cipher plain d n :
  for_ 0 n (fun count '(s, plain) =>
    let s := rc4_next s in
    (s, if (d <=? count)%nat
        then plain.[(count - d)%nat <- u8 (Z.lxor (rc4_byte s) (cipher.[(count - d)%nat]))]
        else plain)) (rc4_start key kl, plain)
  = (Nat.iter n rc4_next (rc4_start key kl),
     stores (fun i => i) (fun i => u8 (Z.lxor (rc4_stream key kl (d + i)) (cipher.[i]))) (n - d) plain).
Proof.
  induction n as [|n IH]; [done|]. rewrite for_S, IH, Nat.iter_succ by lia. f_equal.
  destruct (Nat.leb_spec d n) as [H|H].
  - replace (S n - d)%nat with (S (n - d)) by lia. unfold stores. rewrite (for_S 0 (n - d)) by lia.
    unfold rc4_stream. by replace (d + (n - d))%nat with n by lia.
  - by replace (S n - d)%nat with (n - d)%nat by lia.
Qed.

Lemma block_loop key kl out d n :
  for_ 0 n (fun count '(s, x, out) =>
    let s := rc4_next s in
    if (d <=? count)%nat then (s, S x, out.[x <- u8 (rc4_byte s)]) else (s, x, out)) (rc4_start key kl, 0%nat, out)
  = (Nat.iter n rc4_next (rc4_start key kl), (n - d)%nat,
     stores (fun i => i) (fun i => u8 (rc4_stream key kl (d + i))) (n - d) out).
Proof.
  induction n as [|n IH]; [done|]. rewrite for_S, IH, Nat.iter_succ by lia.
  destruct (Nat.leb_spec d n) as [H|H].
  - replace (S n - d)%nat with (S (n - d)) by lia. unfold stores. rewrite (for_S 0 (n - d)) by lia.
    unfold rc4_stream. by replace (d + (n - d))%nat with n by lia.
  - by replace (S n - d)%nat with (n - d)%nat by lia.
Qed.

(** The voice form of RC4 adds exactly the keystream the PDU form writes, for
    every number of dropped bytes, key and message: the cells of the message
    change and no others, and decrypting the result again gives the message
    back. *)
Theorem rc4_forms_agree (drop : Z) (keylength n : nat) (key cipher plain ks : list Z) :
  Forall (fun x => 0 <= x < 256) cipher -> (n <= length plain)%nat -> (n <= length ks)%nat -> (n <= length cipher)%nat ->
  let p := rc4_voice_decrypt drop keylength n key cipher plain in
  let k := rc4_block_output drop keylength n key ks in
  (forall i, (i < n)%nat -> p.[i] = Z.lxor (cipher.[i]) (k.[i])) /\
  (forall i, (n <= i)%nat -> p.[i] = plain.[i]) /\ length p = length plain /\
  (forall i, (i < n)%nat -> (rc4_voice_decrypt drop keylength n key p plain).[i] = cipher.[i]).
Proof.
  intros Hc Hp Hk Hcn. set (d := Z.to_nat (if drop <? 0 then 0 else drop)).
  assert (V : forall c, rc4_voice_decrypt drop keylength n key c plain
    = stores (fun i => i) (fun i => u8 (Z.lxor (rc4_stream key keylength (d + i)) (c.[i]))) n plain).
  { intros c. unfold rc4_voice_decrypt. fold d. fold (rc4_start key keylength). rewrite voice_loop. cbn [snd].
    f_equal. lia. }
  assert (B : rc4_block_output drop keylength n key ks
    = stores (fun i => i) (fun i => u8 (rc4_stream key keylength (d + i))) n ks).
  { unfold rc4_block_output. fold d. fold (rc4_start key keylength). rewrite block_loop. cbn [snd]. f_equal. lia. }
  assert (Hs : forall i, 0 <= rc4_stream key keylength (d + i) < 2 ^ 8)
    by (intros; apply rc4_byte_range, rc4_iter_ok).
  assert (Hci : forall i, (i < n)%nat -> 0 <= cipher.[i] < 2 ^ 8) by (intros; apply Forall_nth; [done|lia]).
  intros p k. assert (P : forall i, (i < n)%nat -> p.[i] = Z.lxor (cipher.[i]) (rc4_stream key keylength (d + i))).
  { intros i Hi. subst p. rewrite V, (stores_hit (fun i => i)) by lia. rewrite Z.lxor_comm.
    apply u8_small, (lxor_range 8); auto || lia. }
  split; [|split; [|split]].
  - intros i Hi. rewrite P by done. f_equal. subst k. rewrite B, (stores_hit (fun i => i)) by lia.
    symmetry. by apply u8_small.
  - intros i Hi. subst p. rewrite V. apply stores_miss. lia.
  - subst p. by rewrite V, length_stores.
  - intros i Hi. rewrite V, (stores_hit (fun i => i)), P by lia.
    replace (Z.lxor _ _) with (cipher.[i]) by xor_solve. by apply u8_small, Hci.
Qed.

Lemma rc4_forms_agree_witness :
  let cipher := [72; 101; 108; 108; 111] in
  let p := rc4_voice_decrypt 3 5 4 [1; 2; 3; 4; 5] cipher (replicate 6 0) in
  let k := rc4_block_output 3 5 4 [1; 2; 3; 4; 5] (replicate 4 0) in
  (forall i, (i < 4)%nat -> p.[i] = Z.lxor (cipher.[i]) (k.[i])) /\
  (forall i, (4 <= i)%nat -> p.[i] = (replicate 6 0).[i]) /\ length p = 6%nat /\
  (forall i, (i < 4)%nat -> (rc4_voice_decrypt 3 5 4 [1; 2; 3; 4; 5] p (replicate 6 0)).[i] = cipher.[i]).
Proof.
  exact (rc4_forms_agree 3 5 4 [1; 2; 3; 4; 5] [72; 101; 108; 108; 111] (replicate 6 0) (replicate 4 0)
    ltac:(by_decide) ltac:(by_decide) ltac:(by_decide) ltac:(by_decide)).
Defined.

(** The published test vector: key "Key", keystream EB 9F 77 81 B7 34 CA 72 A7 19. *)
Example rc4_vector :
  rc4_block_output 0 3 10 [75; 101; 121] (replicate 10 0) = [235; 159; 119; 129; 183; 52; 202; 114; 167; 25].
Proof. vm_compute. reflexivity. Qed.
