(* ===== verification/BlockCipher.v ===== *)
(** * Block ciphers and the modes built on them

    What [crypto/crypt-aes.c] and [crypto/crypt-des.c] promise to the modes
    that use them: a permutation of the blocks of a length, with its inverse,
    for every valid key.  The modes the two files have (output feedback,
    counter, codebook) are specified here over any such cipher; [Aes] and
    [Des] give the instances. *)
From Stdlib Require Import Btauto.
From S2P Require Import Prelude.

Notation is_byte x := (0 <= x < 256).

Lemma elem_of_bytes x : is_byte x -> x ∈ map Z.of_nat (seq 0 256).
Proof. intros Hx. apply list_elem_of_In, in_map_iff. exists (Z.to_nat x). split; [lia|]. apply in_seq. lia. Qed.

(** A block of [n] bytes. *)
Record block (n : nat) (l : list Z) : Prop := {
  block_length : length l = n;
  block_bytes : Forall (fun x => is_byte x) l
}.

Lemma block_nth n l i : block n l -> is_byte (l.[i]).
Proof.
  intros [_ H]. destruct (decide (i < length l)%nat) as [Hi|].
  - rewrite nth_lookup. destruct (lookup_lt_is_Some_2 l i Hi) as [x Hx]. rewrite Hx. exact (Forall_lookup_1 _ _ _ _ H Hx).
  - rewrite nth_overflow by lia. lia.
Qed.

Lemma block_app n m a b : block n a -> block m b -> block (n + m) (a ++ b).
Proof. intros [La Ha] [Lb Hb]. split; [rewrite length_app; lia|]. by apply Forall_app. Qed.

Lemma block_take_drop n m l : block (n + m) l -> block n (take n l) /\ block m (drop n l).
Proof.
  intros [L H]. split; split; rewrite ?length_take, ?length_drop; try lia; [by apply Forall_take|by apply Forall_drop].
Qed.

Lemma block_zero n : block n (replicate n 0).
Proof. split; [by rewrite length_replicate|]. apply Forall_replicate. lia. Qed.

Lemma land_lxor a b c : Z.land (Z.lxor a b) c = Z.lxor (Z.land a c) (Z.land b c).
Proof. apply Z.bits_inj'. intros n _. rewrite !Z.land_spec, !Z.lxor_spec, !Z.land_spec. btauto. Qed.

(** Equal as exclusive ors of the same words. *)
Ltac xors := apply Z.bits_inj'; intros ? _; rewrite ?Z.lxor_spec, ?Z.bits_0; btauto.

Lemma lxor_byte a b : is_byte a -> is_byte b -> is_byte (Z.lxor a b).
Proof. apply (lxor_range 8). lia. Qed.

(** Exclusive or, cell by cell. *)
Definition xor_block (a b : list Z) : list Z := zip_with Z.lxor a b.

Lemma xor_block_length n a b : length a = n -> length b = n -> length (xor_block a b) = n.
Proof. intros La Lb. unfold xor_block. rewrite length_zip_with. lia. Qed.

Lemma xor_block_nth a b i : length a = length b -> (xor_block a b).[i] = Z.lxor (a.[i]) (b.[i]).
Proof.
  revert b i. induction a as [|x a IH]; intros [|y b] i L; cbn in L; try lia; [by destruct i|].
  destruct i as [|i]; [done|]. exact (IH b i ltac:(lia)).
Qed.

Lemma xor_block_block n a b : block n a -> block n b -> block n (xor_block a b).
Proof.
  intros Ha Hb. split; [by apply xor_block_length; [apply Ha|apply Hb]|]. apply Forall_lookup_2. intros i x Hx.
  pose proof (lookup_lt_Some _ _ _ Hx) as Hi. assert (E : x = (xor_block a b).[i]) by (by rewrite nth_lookup, Hx).
  rewrite E, xor_block_nth by (rewrite (block_length _ _ Ha), (block_length _ _ Hb); done).
  apply lxor_byte; by eapply block_nth.
Qed.

Lemma xor_block_cancel a b : length a = length b -> xor_block (xor_block a b) b = a.
Proof.
  intros L. pose proof (xor_block_length _ a b L eq_refl) as L'.
  apply list_eq_nth; [by rewrite (xor_block_length (length b)) by done|].
  intros i _. rewrite !xor_block_nth by done. by rewrite Z.lxor_assoc, Z.lxor_nilpotent, Z.lxor_0_r.
Qed.

(** Storing right after a prefix that is done. *)
Lemma blit_after a b off x : length a = off -> blit (a ++ b) off x = (a ++ x) ++ drop (length x) b.
Proof.
  intros <-. unfold blit. rewrite take_app_length, drop_app_ge, <- app_assoc by lia. do 3 f_equal. lia.
Qed.

(** ** The interface *)

Class BlockCipher (K : Type) := {
  valid_key : K -> Prop;
  block_len : nat;
  encrypt : K -> list Z -> list Z;
  decrypt : K -> list Z -> list Z;
  encrypt_block k x : valid_key k -> block block_len x -> block block_len (encrypt k x);
  decrypt_block k x : valid_key k -> block block_len x -> block block_len (decrypt k x);
  decrypt_encrypt k x : valid_key k -> block block_len x -> decrypt k (encrypt k x) = x;
  encrypt_decrypt k x : valid_key k -> block block_len x -> encrypt k (decrypt k x) = x
}.

#[export] Hint Resolve encrypt_block decrypt_block : dsd.

Section Modes.
Context {K : Type} {C : BlockCipher K}.
Implicit Types (k : K) (x iv : list Z).

Lemma encrypt_inj k x y : valid_key k -> block block_len x -> block block_len y -> encrypt k x = encrypt k y -> x = y.
Proof. intros Hk Hx Hy E. rewrite <- (decrypt_encrypt k x), <- (decrypt_encrypt k y), E by done. done. Qed.

(** *** Output feedback: each block is the encryption of the one before *)

Definition ofb_block k iv (i : nat) : list Z := Nat.iter (S i) (encrypt k) iv.

Fixpoint ofb_stream k iv (n : nat) : list Z :=
  match n with
  | O => []
  | S n => let x := encrypt k iv in x ++ ofb_stream k x n
  end.

Lemma iter_block k iv i : valid_key k -> block block_len iv -> block block_len (Nat.iter i (encrypt k) iv).
Proof. intros Hk H. induction i as [|i IH]; [done|]. rewrite Nat.iter_succ. auto with dsd. Qed.

Lemma ofb_stream_length k iv n : valid_key k -> block block_len iv -> length (ofb_stream k iv n) = (n * block_len)%nat.
Proof.
  intros Hk. revert iv. induction n as [|n IH]; intros iv H; [done|]. cbn [ofb_stream].
  rewrite length_app, IH by auto with dsd. rewrite (block_length _ _ (encrypt_block k iv Hk H)). lia.
Qed.

Lemma ofb_stream_S k iv n : ofb_stream k iv (S n) = ofb_stream k iv n ++ ofb_block k iv n.
Proof.
  unfold ofb_block. revert iv. induction n as [|n IH]; intros iv; [cbn; by rewrite app_nil_r|].
  change (ofb_stream k iv (S (S n))) with (encrypt k iv ++ ofb_stream k (encrypt k iv) (S n)). rewrite IH, app_assoc.
  f_equal. symmetry. apply Nat.iter_succ_r.
Qed.

Lemma ofb_stream_split k iv m n : (m <= n)%nat ->
  ofb_stream k iv n = ofb_stream k iv m ++ ofb_stream k (Nat.iter m (encrypt k) iv) (n - m).
Proof.
  revert iv n. induction m as [|m IH]; intros iv n H; [by rewrite Nat.sub_0_r|]. destruct n as [|n]; [lia|].
  cbn [ofb_stream]. rewrite (IH _ n) by lia. rewrite Nat.iter_succ_r, app_assoc. done.
Qed.

(** The loop all the output feedback routines have: the register is encrypted
    and stored. *)
Lemma ofb_loop k iv out n : valid_key k -> block block_len iv -> (n * block_len <= length out)%nat ->
  for_ 0 n (fun i '(r, out) => let r := encrypt k r in (r, blit out (i * block_len) r)) (iv, out)
  = (Nat.iter n (encrypt k) iv, ofb_stream k iv n ++ drop (n * block_len) out).
Proof.
  intros Hk Hiv Hn. induction n as [|n IH]; [done|]. rewrite for_S, IH by lia. rewrite ofb_stream_S, Nat.iter_succ. f_equal.
  rewrite blit_after by by apply ofb_stream_length. unfold ofb_block. rewrite Nat.iter_succ, drop_drop. do 2 f_equal.
  rewrite (block_length block_len) by (apply encrypt_block; [done|by apply iter_block]). lia.
Qed.

(** The stream comes round to its start and nowhere else: a block that comes
    twice means that everything from the initial vector on repeats. *)
Lemma ofb_returns k iv i j : valid_key k -> block block_len iv -> (i <= j)%nat ->
  Nat.iter i (encrypt k) iv = Nat.iter j (encrypt k) iv -> Nat.iter (j - i) (encrypt k) iv = iv.
Proof.
  intros Hk Hiv. revert j. induction i as [|i IH]; intros [|j] Hij E; try lia; [done|exact (eq_sym E)|].
  rewrite !Nat.iter_succ in E. apply encrypt_inj in E; [|done|by apply iter_block|by apply iter_block].
  rewrite Nat.sub_succ. apply IH; [lia|done].
Qed.

(** *** Codebook: block by block *)

Definition ecb (f : list Z -> list Z) : list (list Z) -> list (list Z) := map f.

Lemma ecb_roundtrip k xs : valid_key k -> Forall (block block_len) xs -> ecb (decrypt k) (ecb (encrypt k) xs) = xs.
Proof.
  intros Hk H. unfold ecb. rewrite map_map. induction H as [|x xs Hx _ IH]; [done|]. cbn [map].
  by rewrite IH, decrypt_encrypt.
Qed.

(** The loop that decrypts a buffer of whole blocks into another. *)
Lemma ecb_loop (f : list Z -> list Z) xs rest out : Forall (block block_len) xs -> (forall x, block block_len x -> block block_len (f x)) ->
  (length xs * block_len <= length out)%nat ->
  for_ 0 (length xs) (fun i out => blit out (i * block_len) (f (take block_len (drop (i * block_len) (concat xs ++ rest))))) out
  = concat (ecb f xs) ++ drop (length xs * block_len) out.
Proof.
  intros Hx Hf. revert rest. induction xs as [|x xs IH] using rev_ind; intros rest Hn; [done|].
  apply Forall_app in Hx as [Hxs Hx]. apply Forall_inv in Hx. rewrite length_app in Hn |- *. cbn [length] in Hn |- *.
  rewrite Nat.add_1_r, for_S by lia. unfold ecb. rewrite map_app, !concat_app. cbn [map concat]. rewrite !app_nil_r.
  assert (Lc : forall l, Forall (block block_len) l -> length (concat l) = (length l * block_len)%nat).
  { clear. induction 1 as [|y l Hy _ IHl]; [done|]. cbn [concat length]. rewrite length_app, IHl, (block_length _ _ Hy). lia. }
  rewrite <- app_assoc, IH by (done || lia). rewrite drop_app_ge, Lc, Nat.sub_diag by (done || (rewrite Lc by done; lia)).
  rewrite drop_0, take_app_le, take_ge by (rewrite (block_length _ _ Hx); lia).
  assert (Hfx : Forall (block block_len) (map f xs)) by (apply Forall_fmap; eapply Forall_impl; [exact Hxs|exact Hf]).
  rewrite blit_after by (unfold ecb; rewrite Lc, length_map by done; lia). rewrite (block_length _ _ (Hf x Hx)), drop_drop.
  unfold ecb. do 2 f_equal. lia.
Qed.
End Modes.

(** ** Feistel networks *)

Section Feistel.
Context {K : Type} (n : nat) (F : list Z -> K -> list Z) (HF : forall r k, block n r -> block n (F r k)).

Definition feistel_step (k : K) (x : list Z * list Z) : list Z * list Z :=
  let '(l, r) := x in (r, xor_block (F r k) l).

Definition halves_ok (x : list Z * list Z) : Prop := block n (fst x) /\ block n (snd x).
Definition swap (x : list Z * list Z) : list Z * list Z := (snd x, fst x).

Lemma feistel_step_ok k x : halves_ok x -> halves_ok (feistel_step k x).
Proof. destruct x as [l r]. intros [Hl Hr]. split; [done|]. cbn. apply xor_block_block; [by apply HF|done]. Qed.

Lemma feistel_ok (k : nat -> K) m x : halves_ok x -> halves_ok (for_ 0 m (fun f => feistel_step (k f)) x).
Proof. intros H. apply (for_inv halves_ok); [done|]. intros i y _. apply feistel_step_ok. Qed.

Lemma feistel_step_undo k x : halves_ok x -> feistel_step k (swap (feistel_step k x)) = swap x.
Proof.
  destruct x as [l r]. intros [Hl Hr]. cbn in Hl, Hr. unfold swap. cbn [feistel_step fst snd]. f_equal.
  assert (LF : length (F r k) = n) by by apply HF. pose proof (block_length _ _ Hl) as Ll.
  apply list_eq_nth; [by rewrite !(xor_block_length n) by (done || by apply xor_block_length)|]. intros i _.
  rewrite !xor_block_nth by (by rewrite ?(xor_block_length n), ?LF, ?Ll by done).
  by rewrite <- Z.lxor_assoc, Z.lxor_nilpotent, Z.lxor_0_l.
Qed.

(** The rounds again, with the keys in the opposite order, on the swapped
    halves, give the start back. *)
Lemma feistel_undo (k : nat -> K) m x : halves_ok x ->
  for_ 0 m (fun f => feistel_step (k (m - 1 - f)%nat)) (swap (for_ 0 m (fun f => feistel_step (k f)) x)) = swap x.
Proof.
  intros H. induction m as [|m IH]; [done|]. rewrite for_first, (for_S 0 m) by lia.
  replace (S m - 1 - 0)%nat with m by lia. rewrite feistel_step_undo by by apply feistel_ok.
  rewrite <- IH. apply for_ext. intros i s Hi. by replace (S m - 1 - S i)%nat with (m - 1 - i)%nat by lia.
Qed.

Lemma feistel_reverse (k k' : nat -> K) m x : halves_ok x -> (forall f, (f < m)%nat -> k' f = k (m - 1 - f)%nat) ->
  for_ 0 m (fun f => feistel_step (k' f)) (swap (for_ 0 m (fun f => feistel_step (k f)) x)) = swap x.
Proof.
  intros H E. rewrite <- (feistel_undo k m x H). apply for_ext. intros f s Hf. by rewrite E by lia.
Qed.
End Feistel.

(** ** Three keys: encrypt, decrypt, encrypt *)

Definition triple_encrypt {K} {C : BlockCipher K} (k : K * K * K) (x : list Z) : list Z :=
  let '(k1, k2, k3) := k in encrypt k3 (decrypt k2 (encrypt k1 x)).
Definition triple_decrypt {K} {C : BlockCipher K} (k : K * K * K) (x : list Z) : list Z :=
  let '(k1, k2, k3) := k in decrypt k1 (encrypt k2 (decrypt k3 x)).
Definition triple_valid {K} {C : BlockCipher K} (k : K * K * K) : Prop :=
  let '(k1, k2, k3) := k in valid_key k1 /\ valid_key k2 /\ valid_key k3.

#[export] Instance triple {K} (C : BlockCipher K) : BlockCipher (K * K * K).
Proof.
  refine {| valid_key := triple_valid; block_len := block_len (BlockCipher := C); encrypt := triple_encrypt; decrypt := triple_decrypt |};
    intros [[k1 k2] k3] x (H1 & H2 & H3) Hx; cbn [triple_encrypt triple_decrypt]; [eauto 6 with dsd|eauto 6 with dsd| |];
    do 3 rewrite ?decrypt_encrypt, ?encrypt_decrypt by eauto 6 with dsd; done.
Defined.

(** With one key for all three it is the single cipher. *)
Lemma triple_one_key {K} {C : BlockCipher K} k x : valid_key k -> block block_len x ->
  encrypt (BlockCipher := triple C) (k, k, k) x = encrypt k x.
Proof. intros Hk Hx. cbn [encrypt triple triple_encrypt]. by rewrite decrypt_encrypt. Qed.

Lemma ofb_stream_ext {K K'} (C : BlockCipher K) (C' : BlockCipher K') (k : K) (k' : K') iv n :
  valid_key k -> block (block_len (BlockCipher := C)) iv ->
  (forall x, block (block_len (BlockCipher := C)) x -> encrypt (BlockCipher := C') k' x = encrypt (BlockCipher := C) k x) ->
  ofb_stream (C := C') k' iv n = ofb_stream (C := C) k iv n.
Proof.
  intros Hk Hiv H. revert iv Hiv. induction n as [|n IH]; intros iv Hiv; [done|]. cbn [ofb_stream].
  rewrite H by done. f_equal. apply IH. by apply encrypt_block.
Qed.
