(* ===== verification/Aes.v ===== *)
(** * [crypto/crypt-aes.c]: AES

    The cipher with its key schedule, the inverse cipher, and the three modes
    the decoder uses: output feedback for key streams, counter mode, and
    codebook decryption.  A [state_t] is the list of its sixteen bytes, row
    [j] of column [i] at [4 i + j]; the buffers are lists, and a function that
    writes through a pointer returns the buffer. *)
From S2P Require Import Prelude BlockCipher.

Definition AES_BLOCKLEN : nat := 16.
Definition AES_NB : nat := 4.
Definition AES_ROUND_KEY_BYTES : nat := 240.

Definition sbox : list Z := [
  0x63; 0x7c; 0x77; 0x7b; 0xf2; 0x6b; 0x6f; 0xc5; 0x30; 0x1; 0x67; 0x2b; 0xfe; 0xd7; 0xab; 0x76; 0xca; 0x82;
   0xc9; 0x7d; 0xfa; 0x59; 0x47; 0xf0; 0xad; 0xd4; 0xa2; 0xaf; 0x9c; 0xa4; 0x72; 0xc0; 0xb7; 0xfd; 0x93;
   0x26; 0x36; 0x3f; 0xf7; 0xcc; 0x34; 0xa5; 0xe5; 0xf1; 0x71; 0xd8; 0x31; 0x15; 0x4; 0xc7; 0x23; 0xc3; 0x18;
   0x96; 0x5; 0x9a; 0x7; 0x12; 0x80; 0xe2; 0xeb; 0x27; 0xb2; 0x75; 0x9; 0x83; 0x2c; 0x1a; 0x1b; 0x6e; 0x5a;
   0xa0; 0x52; 0x3b; 0xd6; 0xb3; 0x29; 0xe3; 0x2f; 0x84; 0x53; 0xd1; 0x0; 0xed; 0x20; 0xfc; 0xb1; 0x5b; 0x6a;
   0xcb; 0xbe; 0x39; 0x4a; 0x4c; 0x58; 0xcf; 0xd0; 0xef; 0xaa; 0xfb; 0x43; 0x4d; 0x33; 0x85; 0x45; 0xf9; 0x2;
   0x7f; 0x50; 0x3c; 0x9f; 0xa8; 0x51; 0xa3; 0x40; 0x8f; 0x92; 0x9d; 0x38; 0xf5; 0xbc; 0xb6; 0xda; 0x21;
   0x10; 0xff; 0xf3; 0xd2; 0xcd; 0xc; 0x13; 0xec; 0x5f; 0x97; 0x44; 0x17; 0xc4; 0xa7; 0x7e; 0x3d; 0x64; 0x5d;
   0x19; 0x73; 0x60; 0x81; 0x4f; 0xdc; 0x22; 0x2a; 0x90; 0x88; 0x46; 0xee; 0xb8; 0x14; 0xde; 0x5e; 0xb; 0xdb;
   0xe0; 0x32; 0x3a; 0xa; 0x49; 0x6; 0x24; 0x5c; 0xc2; 0xd3; 0xac; 0x62; 0x91; 0x95; 0xe4; 0x79; 0xe7; 0xc8;
   0x37; 0x6d; 0x8d; 0xd5; 0x4e; 0xa9; 0x6c; 0x56; 0xf4; 0xea; 0x65; 0x7a; 0xae; 0x8; 0xba; 0x78; 0x25; 0x2e;
   0x1c; 0xa6; 0xb4; 0xc6; 0xe8; 0xdd; 0x74; 0x1f; 0x4b; 0xbd; 0x8b; 0x8a; 0x70; 0x3e; 0xb5; 0x66; 0x48; 0x3;
   0xf6; 0xe; 0x61; 0x35; 0x57; 0xb9; 0x86; 0xc1; 0x1d; 0x9e; 0xe1; 0xf8; 0x98; 0x11; 0x69; 0xd9; 0x8e; 0x94;
   0x9b; 0x1e; 0x87; 0xe9; 0xce; 0x55; 0x28; 0xdf; 0x8c; 0xa1; 0x89; 0xd; 0xbf; 0xe6; 0x42; 0x68; 0x41; 0x99;
   0x2d; 0xf; 0xb0; 0x54; 0xbb; 0x16].

Definition rsbox : list Z := [
  0x52; 0x9; 0x6a; 0xd5; 0x30; 0x36; 0xa5; 0x38; 0xbf; 0x40; 0xa3; 0x9e; 0x81; 0xf3; 0xd7; 0xfb; 0x7c; 0xe3;
   0x39; 0x82; 0x9b; 0x2f; 0xff; 0x87; 0x34; 0x8e; 0x43; 0x44; 0xc4; 0xde; 0xe9; 0xcb; 0x54; 0x7b; 0x94;
   0x32; 0xa6; 0xc2; 0x23; 0x3d; 0xee; 0x4c; 0x95; 0xb; 0x42; 0xfa; 0xc3; 0x4e; 0x8; 0x2e; 0xa1; 0x66; 0x28;
   0xd9; 0x24; 0xb2; 0x76; 0x5b; 0xa2; 0x49; 0x6d; 0x8b; 0xd1; 0x25; 0x72; 0xf8; 0xf6; 0x64; 0x86; 0x68;
   0x98; 0x16; 0xd4; 0xa4; 0x5c; 0xcc; 0x5d; 0x65; 0xb6; 0x92; 0x6c; 0x70; 0x48; 0x50; 0xfd; 0xed; 0xb9;
   0xda; 0x5e; 0x15; 0x46; 0x57; 0xa7; 0x8d; 0x9d; 0x84; 0x90; 0xd8; 0xab; 0x0; 0x8c; 0xbc; 0xd3; 0xa; 0xf7;
   0xe4; 0x58; 0x5; 0xb8; 0xb3; 0x45; 0x6; 0xd0; 0x2c; 0x1e; 0x8f; 0xca; 0x3f; 0xf; 0x2; 0xc1; 0xaf; 0xbd;
   0x3; 0x1; 0x13; 0x8a; 0x6b; 0x3a; 0x91; 0x11; 0x41; 0x4f; 0x67; 0xdc; 0xea; 0x97; 0xf2; 0xcf; 0xce; 0xf0;
   0xb4; 0xe6; 0x73; 0x96; 0xac; 0x74; 0x22; 0xe7; 0xad; 0x35; 0x85; 0xe2; 0xf9; 0x37; 0xe8; 0x1c; 0x75;
   0xdf; 0x6e; 0x47; 0xf1; 0x1a; 0x71; 0x1d; 0x29; 0xc5; 0x89; 0x6f; 0xb7; 0x62; 0xe; 0xaa; 0x18; 0xbe; 0x1b;
   0xfc; 0x56; 0x3e; 0x4b; 0xc6; 0xd2; 0x79; 0x20; 0x9a; 0xdb; 0xc0; 0xfe; 0x78; 0xcd; 0x5a; 0xf4; 0x1f;
   0xdd; 0xa8; 0x33; 0x88; 0x7; 0xc7; 0x31; 0xb1; 0x12; 0x10; 0x59; 0x27; 0x80; 0xec; 0x5f; 0x60; 0x51; 0x7f;
   0xa9; 0x19; 0xb5; 0x4a; 0xd; 0x2d; 0xe5; 0x7a; 0x9f; 0x93; 0xc9; 0x9c; 0xef; 0xa0; 0xe0; 0x3b; 0x4d; 0xae;
   0x2a; 0xf5; 0xb0; 0xc8; 0xeb; 0xbb; 0x3c; 0x83; 0x53; 0x99; 0x61; 0x17; 0x2b; 0x4; 0x7e; 0xba; 0x77; 0xd6;
   0x26; 0xe1; 0x69; 0x14; 0x63; 0x55; 0x21; 0xc; 0x7d].

Definition Rcon : list Z := [0x8d; 0x1; 0x2; 0x4; 0x8; 0x10; 0x20; 0x40; 0x80; 0x1b; 0x36].

Definition getSBoxValue (num : Z) : Z := sbox.[Z.to_nat num].
Definition getSBoxInvert (num : Z) : Z := rsbox.[Z.to_nat num].

Variant dsd_aes_key_size := DSD_AES_KEY_128 | DSD_AES_KEY_192 | DSD_AES_KEY_256.

(** [nk] and [nr]. *)
Definition aes_params_for_key_size (key_size : dsd_aes_key_size) : nat * nat :=
  match key_size with
  | DSD_AES_KEY_128 => (4, 10)%nat
  | DSD_AES_KEY_192 => (6, 12)%nat
  | DSD_AES_KEY_256 => (8, 14)%nat
  end.

Definition aes_key_schedule_params_valid (Nk Nr round_words : nat) : bool :=
  ((Nk =? 4) || (Nk =? 6) || (Nk =? 8))%nat && ((Nr =? 10) || (Nr =? 12) || (Nr =? 14))%nat
  && (round_words <=? AES_ROUND_KEY_BYTES / 4)%nat && (Nk <=? round_words)%nat.

(** ** The key schedule *)

Definition RotWord (tempa : list Z) : list Z := [tempa.[1%nat]; tempa.[2%nat]; tempa.[3%nat]; tempa.[0%nat]].
Definition SubWord (tempa : list Z) : list Z := map getSBoxValue tempa.

(** One turn of the loop over the words. *)
Definition expand_word (Nk i : nat) (RoundKey : list Z) : list Z :=
  let k := ((i - 1) * 4)%nat in
  let tempa := map (fun b => RoundKey.[(k + b)%nat]) (seq 0 4) in
  let tempa :=
    if (i mod Nk =? 0)%nat then
      let tempa := SubWord (RotWord tempa) in
      tempa.[0%nat <- Z.lxor (tempa.[0%nat]) (Rcon.[(i / Nk)%nat])]
    else tempa in
  let tempa := if (Nk =? 8)%nat then if (i mod Nk =? 4)%nat then SubWord tempa else tempa else tempa in
  let j := (i * 4)%nat in
  let k := ((i - Nk) * 4)%nat in
  for_ 0 4 (fun b rk => rk.[(j + b)%nat <- Z.lxor (rk.[(k + b)%nat]) (tempa.[b])]) RoundKey.

Definition KeyExpansion (RoundKey Key : list Z) (Nk Nr : nat) : list Z :=
  let round_words := (AES_NB * (Nr + 1))%nat in
  if negb (aes_key_schedule_params_valid Nk Nr round_words) then RoundKey
  else
    let RoundKey := for_ 0 Nk (fun i rk => for_ 0 4 (fun b rk => rk.[(i * 4 + b)%nat <- Key.[(i * 4 + b)%nat]]) rk) RoundKey in
    for_ Nk round_words (expand_word Nk) RoundKey.

(** ** The rounds *)

Definition state_cell (i j : nat) : nat := (4 * i + j)%nat.

Definition AddRoundKey (round : nat) (state RoundKey : list Z) : list Z :=
  for_ 0 4 (fun i s => for_ 0 4 (fun j s =>
    s.[state_cell i j <- Z.lxor (s.[state_cell i j]) (RoundKey.[(round * AES_NB * 4 + i * AES_NB + j)%nat])]) s) state.

Definition SubBytes (state : list Z) : list Z :=
  for_ 0 4 (fun i s => for_ 0 4 (fun j s => s.[state_cell j i <- getSBoxValue (s.[state_cell j i])]) s) state.

Definition ShiftRows (s : list Z) : list Z :=
  let temp := s.[state_cell 0 1] in
  let s := s.[state_cell 0 1 <- s.[state_cell 1 1]] in
  let s := s.[state_cell 1 1 <- s.[state_cell 2 1]] in
  let s := s.[state_cell 2 1 <- s.[state_cell 3 1]] in
  let s := s.[state_cell 3 1 <- temp] in
  let temp := s.[state_cell 0 2] in
  let s := s.[state_cell 0 2 <- s.[state_cell 2 2]] in
  let s := s.[state_cell 2 2 <- temp] in
  let temp := s.[state_cell 1 2] in
  let s := s.[state_cell 1 2 <- s.[state_cell 3 2]] in
  let s := s.[state_cell 3 2 <- temp] in
  let temp := s.[state_cell 0 3] in
  let s := s.[state_cell 0 3 <- s.[state_cell 3 3]] in
  let s := s.[state_cell 3 3 <- s.[state_cell 2 3]] in
  let s := s.[state_cell 2 3 <- s.[state_cell 1 3]] in
  s.[state_cell 1 3 <- temp].

Definition xtime (x : Z) : Z := u8 (Z.lxor (Z.shiftl x 1) (Z.land (Z.shiftr x 7) 1 * 0x1b)).

Definition mix_column (i : nat) (s : list Z) : list Z :=
  let t := s.[state_cell i 0] in
  let Tmp := Z.lxor (Z.lxor (Z.lxor (s.[state_cell i 0]) (s.[state_cell i 1])) (s.[state_cell i 2])) (s.[state_cell i 3]) in
  let Tm := xtime (Z.lxor (s.[state_cell i 0]) (s.[state_cell i 1])) in
  let s := s.[state_cell i 0 <- Z.lxor (s.[state_cell i 0]) (Z.lxor Tm Tmp)] in
  let Tm := xtime (Z.lxor (s.[state_cell i 1]) (s.[state_cell i 2])) in
  let s := s.[state_cell i 1 <- Z.lxor (s.[state_cell i 1]) (Z.lxor Tm Tmp)] in
  let Tm := xtime (Z.lxor (s.[state_cell i 2]) (s.[state_cell i 3])) in
  let s := s.[state_cell i 2 <- Z.lxor (s.[state_cell i 2]) (Z.lxor Tm Tmp)] in
  let Tm := xtime (Z.lxor (s.[state_cell i 3]) t) in
  s.[state_cell i 3 <- Z.lxor (s.[state_cell i 3]) (Z.lxor Tm Tmp)].

Definition MixColumns (s : list Z) : list Z := for_ 0 4 mix_column s.

(** [while (y != 0)]: at most eight turns, [y] being a byte. *)
Fixpoint multiply_loop (fuel : nat) (x y result : Z) : Z :=
  match fuel with
  | O => result
  | S fuel =>
      if y =? 0 then result
      else multiply_loop fuel (xtime x) (Z.shiftr y 1) (if negb (Z.land y 1 =? 0) then Z.lxor result x else result)
  end.
Definition aes_multiply (x y : Z) : Z := multiply_loop 8 x y 0.

Definition inv_mix_column (i : nat) (s : list Z) : list Z :=
  let a := s.[state_cell i 0] in
  let b := s.[state_cell i 1] in
  let c := s.[state_cell i 2] in
  let d := s.[state_cell i 3] in
  let row w x y z := Z.lxor (Z.lxor (Z.lxor (aes_multiply a w) (aes_multiply b x)) (aes_multiply c y)) (aes_multiply d z) in
  let s := s.[state_cell i 0 <- row 0x0e 0x0b 0x0d 0x09] in
  let s := s.[state_cell i 1 <- row 0x09 0x0e 0x0b 0x0d] in
  let s := s.[state_cell i 2 <- row 0x0d 0x09 0x0e 0x0b] in
  s.[state_cell i 3 <- row 0x0b 0x0d 0x09 0x0e].

Definition InvMixColumns (s : list Z) : list Z := for_ 0 4 inv_mix_column s.

Definition InvSubBytes (state : list Z) : list Z :=
  for_ 0 4 (fun i s => for_ 0 4 (fun j s => s.[state_cell j i <- getSBoxInvert (s.[state_cell j i])]) s) state.

Definition InvShiftRows (s : list Z) : list Z :=
  let temp := s.[state_cell 3 1] in
  let s := s.[state_cell 3 1 <- s.[state_cell 2 1]] in
  let s := s.[state_cell 2 1 <- s.[state_cell 1 1]] in
  let s := s.[state_cell 1 1 <- s.[state_cell 0 1]] in
  let s := s.[state_cell 0 1 <- temp] in
  let temp := s.[state_cell 0 2] in
  let s := s.[state_cell 0 2 <- s.[state_cell 2 2]] in
  let s := s.[state_cell 2 2 <- temp] in
  let temp := s.[state_cell 1 2] in
  let s := s.[state_cell 1 2 <- s.[state_cell 3 2]] in
  let s := s.[state_cell 3 2 <- temp] in
  let temp := s.[state_cell 0 3] in
  let s := s.[state_cell 0 3 <- s.[state_cell 1 3]] in
  let s := s.[state_cell 1 3 <- s.[state_cell 2 3]] in
  let s := s.[state_cell 2 3 <- s.[state_cell 3 3]] in
  s.[state_cell 3 3 <- temp].

(** ** The ciphers *)

(** [for (round = 1;; ++round)]; the round counter is a byte. *)
Fixpoint cipher_rounds (fuel round : nat) (state RoundKey : list Z) (Nr : nat) : list Z :=
  match fuel with
  | O => state
  | S fuel =>
      let state := ShiftRows (SubBytes state) in
      if (round =? Nr)%nat then state
      else cipher_rounds fuel (S round) (AddRoundKey round (MixColumns state) RoundKey) RoundKey Nr
  end.

Definition Cipher (state RoundKey : list Z) (Nr : nat) : list Z :=
  let state := AddRoundKey 0 state RoundKey in
  let state := cipher_rounds 255 1 state RoundKey Nr in
  AddRoundKey Nr state RoundKey.

(** [for (round = Nr - 1;; --round)]. *)
Fixpoint inv_cipher_rounds (round : nat) (state RoundKey : list Z) : list Z :=
  let state := AddRoundKey round (InvSubBytes (InvShiftRows state)) RoundKey in
  match round with
  | O => state
  | S round => inv_cipher_rounds round (InvMixColumns state) RoundKey
  end.

Definition InvCipher (state RoundKey : list Z) (Nr : nat) : list Z :=
  inv_cipher_rounds (Nr - 1) (AddRoundKey Nr state RoundKey) RoundKey.

(** ** The modes *)

(** Counts from byte 15 down, until a byte does not come to zero. *)
Fixpoint increment_from (n : nat) (counter : list Z) : list Z :=
  match n with
  | O => counter
  | S i =>
      let counter := counter.[i <- u8 (counter.[i] + 1)] in
      if negb (counter.[i] =? 0) then counter else increment_from i counter
  end.
Definition aes_increment_counter_be (counter : list Z) : list Z := increment_from AES_BLOCKLEN counter.

Definition round_keys (key_size : dsd_aes_key_size) (key : list Z) : list Z :=
  let '(nk, nr) := aes_params_for_key_size key_size in
  KeyExpansion (replicate AES_ROUND_KEY_BYTES 0) key nk nr.

(** One turn of [for (offset = 0; offset < len; offset += 16)]. *)
Definition ctr_step (key_size : dsd_aes_key_size) (rk : list Z) (len b : nat) (st : list Z * list Z) : list Z * list Z :=
  let '(data, counter) := st in
  let offset := (b * AES_BLOCKLEN)%nat in
  let stream := Cipher counter rk (snd (aes_params_for_key_size key_size)) in
  let block_len := Nat.min (len - offset) AES_BLOCKLEN in
  (for_ 0 block_len (fun i d => d.[(offset + i)%nat <- Z.lxor (d.[(offset + i)%nat]) (stream.[i])]) data,
   aes_increment_counter_be counter).

(** The first [len] bytes of [data] are replaced. *)
Definition aes_ctr_xcrypt_bytes (counter key data : list Z) (key_size : dsd_aes_key_size) (len : nat) : list Z :=
  fst (for_ 0 ((len + 15) / AES_BLOCKLEN) (ctr_step key_size (round_keys key_size key) len) (data, take AES_BLOCKLEN counter)).

Definition aes_ofb_keystream_output (iv key output : list Z) (key_size : dsd_aes_key_size) (nblocks : nat) : list Z :=
  let rk := round_keys key_size key in
  let nr := snd (aes_params_for_key_size key_size) in
  snd (for_ 0 nblocks (fun i '(input_register, output) =>
         let input_register := Cipher input_register rk nr in
         (input_register, blit output (i * 16) input_register)) (take 16 iv, output)).

Definition aes_ecb_decrypt_blocks (input key output : list Z) (key_size : dsd_aes_key_size) (nblocks : nat) : list Z :=
  let rk := round_keys key_size key in
  let nr := snd (aes_params_for_key_size key_size) in
  for_ 0 nblocks (fun i output =>
    let offset := (i * AES_BLOCKLEN)%nat in
    blit output offset (InvCipher (take AES_BLOCKLEN (drop offset input)) rk nr)) output.

(** ** The steps, cell by cell *)

Ltac cells s :=
  let H := fresh in intros H; do 16 (destruct s as [|? s]; [discriminate H|]); destruct s; [clear H|discriminate H].

Lemma sbox_byte x : is_byte x ->
  (is_byte (getSBoxValue x) /\ is_byte (getSBoxInvert x)) /\
  getSBoxInvert (getSBoxValue x) = x /\ getSBoxValue (getSBoxInvert x) = x.
Proof.
  intros Hx. assert (H : Forall (fun x => (is_byte (getSBoxValue x) /\ is_byte (getSBoxInvert x)) /\
    getSBoxInvert (getSBoxValue x) = x /\ getSBoxValue (getSBoxInvert x) = x) (map Z.of_nat (seq 0 256))); [by_decide|].
  eapply Forall_forall in H; [exact H|]. by apply elem_of_bytes.
Qed.

Lemma SubBytes_map s : length s = 16%nat -> SubBytes s = map getSBoxValue s.
Proof. cells s. reflexivity. Qed.

Lemma InvSubBytes_map s : length s = 16%nat -> InvSubBytes s = map getSBoxInvert s.
Proof. cells s. reflexivity. Qed.

Lemma InvShift_Shift s : length s = 16%nat -> InvShiftRows (ShiftRows s) = s /\ ShiftRows (InvShiftRows s) = s.
Proof. cells s. by split. Qed.

(** The sixteen bytes of a round's key. *)
Definition round_key (round : nat) (RoundKey : list Z) : list Z :=
  map (fun p => RoundKey.[(round * AES_NB * 4 + p / 4 * AES_NB + p mod 4)%nat]) (seq 0 16).

Lemma round_key_length round rk : length (round_key round rk) = 16%nat.
Proof. reflexivity. Qed.

Lemma round_key_nth round rk p : (p < 16)%nat -> (round_key round rk).[p] = rk.[(round * 16 + p)%nat].
Proof.
  intros Hp. unfold round_key, AES_NB. rewrite nth_map_seq by done. f_equal.
  pose proof (Nat.div_mod_eq (0 + p) 4). lia.
Qed.

Lemma round_key_block round rk : Forall (fun x => is_byte x) rk -> block 16 (round_key round rk).
Proof.
  intros H. split; [done|]. apply Forall_forall. intros x Hx. apply list_elem_of_In, in_map_iff in Hx as (p & <- & _).
  apply (block_nth (length rk)). by split.
Qed.

Lemma AddRoundKey_xor round s rk : length s = 16%nat -> AddRoundKey round s rk = xor_block s (round_key round rk).
Proof. cells s. reflexivity. Qed.

Lemma AddRoundKey_twice round s rk : length s = 16%nat -> AddRoundKey round (AddRoundKey round s rk) rk = s.
Proof.
  intros L. rewrite (AddRoundKey_xor round s) by done. rewrite AddRoundKey_xor by (by apply xor_block_length).
  apply xor_block_cancel. by rewrite round_key_length.
Qed.

(** *** Columns *)

Lemma aes_xtime_lxor a b : xtime (Z.lxor a b) = Z.lxor (xtime a) (xtime b).
Proof.
  unfold xtime, u8. rewrite <- wrap_lxor by lia. f_equal. rewrite Z.shiftl_lxor, Z.shiftr_lxor, land_lxor.
  rewrite !Z.lxor_assoc. f_equal. rewrite <- (Z.lxor_assoc _ (Z.shiftl b 1)), (Z.lxor_comm _ (Z.shiftl b 1)), Z.lxor_assoc. f_equal.
  destruct (land1_bit (Z.shiftr a 7)) as [-> | ->], (land1_bit (Z.shiftr b 7)) as [-> | ->]; reflexivity.
Qed.

Lemma xtime_byte x : is_byte (xtime x).
Proof. unfold xtime, u8, wrap. apply Z.mod_pos_bound. lia. Qed.

Definition mixed (a b c d : Z) : list Z :=
  let Tmp := Z.lxor (Z.lxor (Z.lxor a b) c) d in
  [Z.lxor a (Z.lxor (xtime (Z.lxor a b)) Tmp); Z.lxor b (Z.lxor (xtime (Z.lxor b c)) Tmp);
   Z.lxor c (Z.lxor (xtime (Z.lxor c d)) Tmp); Z.lxor d (Z.lxor (xtime (Z.lxor d a)) Tmp)].

Definition unmixed (a b c d : Z) : list Z :=
  let row w x y z := Z.lxor (Z.lxor (Z.lxor (aes_multiply a w) (aes_multiply b x)) (aes_multiply c y)) (aes_multiply d z) in
  [row 0x0e 0x0b 0x0d 0x09; row 0x09 0x0e 0x0b 0x0d; row 0x0d 0x09 0x0e 0x0b; row 0x0b 0x0d 0x09 0x0e].

(** A step on each column. *)
Definition columns (f : Z -> Z -> Z -> Z -> list Z) (s : list Z) : list Z :=
  f (s.[0%nat]) (s.[1%nat]) (s.[2%nat]) (s.[3%nat]) ++ f (s.[4%nat]) (s.[5%nat]) (s.[6%nat]) (s.[7%nat]) ++
  f (s.[8%nat]) (s.[9%nat]) (s.[10%nat]) (s.[11%nat]) ++ f (s.[12%nat]) (s.[13%nat]) (s.[14%nat]) (s.[15%nat]).

Lemma MixColumns_columns s : length s = 16%nat -> MixColumns s = columns mixed s.
Proof. cells s. reflexivity. Qed.

Lemma InvMixColumns_columns s : length s = 16%nat -> InvMixColumns s = columns unmixed s.
Proof. cells s. reflexivity. Qed.

Lemma multiply_09 x : aes_multiply x 0x09 = Z.lxor (Z.lxor 0 x) (xtime (xtime (xtime x))).
Proof. reflexivity. Qed.
Lemma multiply_0b x : aes_multiply x 0x0b = Z.lxor (Z.lxor (Z.lxor 0 x) (xtime x)) (xtime (xtime (xtime x))).
Proof. reflexivity. Qed.
Lemma multiply_0d x : aes_multiply x 0x0d = Z.lxor (Z.lxor (Z.lxor 0 x) (xtime (xtime x))) (xtime (xtime (xtime x))).
Proof. reflexivity. Qed.
Lemma multiply_0e x : aes_multiply x 0x0e = Z.lxor (Z.lxor (Z.lxor 0 (xtime x)) (xtime (xtime x))) (xtime (xtime (xtime x))).
Proof. reflexivity. Qed.

Ltac unmix := rewrite ?multiply_09, ?multiply_0b, ?multiply_0d, ?multiply_0e, ?aes_xtime_lxor.

Lemma unmixed_mixed a b c d : let m := mixed a b c d in unmixed (m.[0%nat]) (m.[1%nat]) (m.[2%nat]) (m.[3%nat]) = [a; b; c; d].
Proof. cbv zeta. unfold mixed, unmixed. cbn [nth]. cbv zeta. unmix. repeat f_equal; xors. Qed.

Lemma mixed_unmixed a b c d : let u := unmixed a b c d in mixed (u.[0%nat]) (u.[1%nat]) (u.[2%nat]) (u.[3%nat]) = [a; b; c; d].
Proof. cbv zeta. unfold mixed, unmixed. cbn [nth]. cbv zeta. unmix. repeat f_equal; xors. Qed.

Definition on_column (f : Z -> Z -> Z -> Z -> list Z) (m : list Z) : list Z := f (m.[0%nat]) (m.[1%nat]) (m.[2%nat]) (m.[3%nat]).

Lemma columns_app f a b c d : length a = 4%nat -> length b = 4%nat -> length c = 4%nat -> length d = 4%nat ->
  columns f (a ++ b ++ c ++ d) = on_column f a ++ on_column f b ++ on_column f c ++ on_column f d.
Proof.
  intros. do 4 (destruct a as [|? a]; [done|]). destruct a; [|done]. do 4 (destruct b as [|? b]; [done|]). destruct b; [|done].
  do 4 (destruct c as [|? c]; [done|]). destruct c; [|done]. do 4 (destruct d as [|? d]; [done|]). by destruct d.
Qed.

Lemma columns_undo f g s : length s = 16%nat -> (forall a b c d, length (f a b c d) = 4%nat) ->
  (forall a b c d, on_column g (f a b c d) = [a; b; c; d]) -> columns g (columns f s) = s.
Proof.
  intros Hs Hl H. unfold columns at 2. rewrite columns_app by apply Hl. rewrite !H. revert Hs. cells s. reflexivity.
Qed.

Lemma InvMix_Mix s : length s = 16%nat -> InvMixColumns (MixColumns s) = s.
Proof.
  intros L. rewrite (MixColumns_columns s L), InvMixColumns_columns by (revert L; cells s; reflexivity).
  apply columns_undo; [done|reflexivity|apply unmixed_mixed].
Qed.

Lemma Mix_InvMix s : length s = 16%nat -> MixColumns (InvMixColumns s) = s.
Proof.
  intros L. rewrite (InvMixColumns_columns s L), MixColumns_columns by (revert L; cells s; reflexivity).
  apply columns_undo; [done|reflexivity|apply mixed_unmixed].
Qed.

(** *** Steps keep a block a block *)

Lemma SubBytes_block s : block 16 s -> block 16 (SubBytes s).
Proof.
  intros [L B]. rewrite SubBytes_map by done. split; [by rewrite length_map|]. apply Forall_fmap.
  eapply Forall_impl; [exact B|]. intros x Hx. by apply sbox_byte.
Qed.

Lemma InvSubBytes_block s : block 16 s -> block 16 (InvSubBytes s).
Proof.
  intros [L B]. rewrite InvSubBytes_map by done. split; [by rewrite length_map|]. apply Forall_fmap.
  eapply Forall_impl; [exact B|]. intros x Hx. by apply sbox_byte.
Qed.

Lemma InvSub_Sub s : block 16 s -> InvSubBytes (SubBytes s) = s /\ SubBytes (InvSubBytes s) = s.
Proof.
  intros [L B]. rewrite (SubBytes_map s), (InvSubBytes_map s) by done.
  rewrite InvSubBytes_map, SubBytes_map, !map_map by (by rewrite length_map). clear L.
  induction B as [|x s Hx _ [IH1 IH2]]; [done|]. cbn [map]. destruct (sbox_byte x Hx) as (_ & -> & ->). by rewrite IH1, IH2.
Qed.

(** The cells of a permuted block are cells of the block. *)
Lemma gather_block n m s l : block n s -> length l = m -> block m (map (fun p => s.[p]) l).
Proof.
  intros Hs <-. split; [by rewrite length_map|]. apply Forall_fmap, Forall_true. intros p. by eapply block_nth.
Qed.

Lemma ShiftRows_block s : block 16 s -> block 16 (ShiftRows s) /\ block 16 (InvShiftRows s).
Proof.
  intros Hs. assert (E : ShiftRows s = map (fun p => s.[p]) [0; 5; 10; 15; 4; 9; 14; 3; 8; 13; 2; 7; 12; 1; 6; 11]%nat /\
    InvShiftRows s = map (fun p => s.[p]) [0; 13; 10; 7; 4; 1; 14; 11; 8; 5; 2; 15; 12; 9; 6; 3]%nat).
  { pose proof (block_length _ _ Hs) as L. clear Hs. revert L. cells s. by split. }
  destruct E as [-> ->]. split; by apply (gather_block 16).
Qed.

Lemma AddRoundKey_block r s rk : Forall (fun x => is_byte x) rk -> block 16 s -> block 16 (AddRoundKey r s rk).
Proof.
  intros Hrk Hs. rewrite AddRoundKey_xor by apply Hs. apply xor_block_block; [done|by apply round_key_block].
Qed.

Lemma columns_block f s : block 16 s ->
  (forall a b c d, is_byte a -> is_byte b -> is_byte c -> is_byte d -> block 4 (f a b c d)) -> block 16 (columns f s).
Proof.
  intros Hs Hf. unfold columns. pose proof (fun i => block_nth 16 s i Hs) as B.
  repeat (apply (block_app 4); [apply Hf; apply B|]). apply Hf; apply B.
Qed.

Lemma block4 a b c d : is_byte a -> is_byte b -> is_byte c -> is_byte d -> block 4 [a; b; c; d].
Proof. intros. split; [done|]. repeat (apply Forall_cons_2; [assumption|]). constructor. Qed.

Lemma MixColumns_block s : block 16 s -> block 16 (MixColumns s).
Proof.
  intros Hs. rewrite MixColumns_columns by apply Hs. apply columns_block; [done|]. intros.
  apply block4; repeat apply lxor_byte; done || apply xtime_byte.
Qed.

Lemma multiply_byte x y : is_byte x -> In y [0x09; 0x0b; 0x0d; 0x0e] -> is_byte (aes_multiply x y).
Proof.
  intros Hx [<-|[<-|[<-|[<-|[]]]]];
    [rewrite multiply_09|rewrite multiply_0b|rewrite multiply_0d|rewrite multiply_0e];
    repeat apply lxor_byte; done || apply xtime_byte.
Qed.

Lemma InvMixColumns_block s : block 16 s -> block 16 (InvMixColumns s).
Proof.
  intros Hs. rewrite InvMixColumns_columns by apply Hs. apply columns_block; [done|]. intros.
  apply block4; cbv zeta; (apply lxor_byte; [apply lxor_byte; [apply lxor_byte|]|]); (apply multiply_byte; [done|]); cbn; tauto.
Qed.

#[local] Hint Resolve SubBytes_block InvSubBytes_block AddRoundKey_block MixColumns_block InvMixColumns_block : aes.

(** ** The cipher and its inverse *)

#[local] Opaque SubBytes ShiftRows MixColumns AddRoundKey InvSubBytes InvShiftRows InvMixColumns.

(** A round before the last, and the end. *)
Definition full_round (rk : list Z) (r : nat) (s : list Z) : list Z := AddRoundKey r (MixColumns (ShiftRows (SubBytes s))) rk.
Definition last_step (s : list Z) : list Z := ShiftRows (SubBytes s).

Lemma cipher_rounds_spec fuel r n s rk : (r <= n)%nat -> (n - r < fuel)%nat ->
  cipher_rounds fuel r s rk n = last_step (for_ r n (full_round rk) s).
Proof.
  revert r s. induction fuel as [|fuel IH]; intros r s Hr Hf; [lia|]. cbn [cipher_rounds].
  fold (last_step s). destruct (Nat.eqb_spec r n) as [->|Hne]; [by rewrite for_nil by lia|].
  rewrite IH by lia. rewrite (for_app r (S r) n) by lia. rewrite (for_S r r), (for_nil r r) by lia. reflexivity.
Qed.

Section Inverse.
Context (rk : list Z) (Hrk : Forall (fun x => is_byte x) rk).

Lemma last_step_block s : block 16 s -> block 16 (last_step s).
Proof. intros H. by apply ShiftRows_block, SubBytes_block. Qed.

Lemma full_round_block r s : block 16 s -> block 16 (full_round rk r s).
Proof. intros H. apply AddRoundKey_block; [done|]. by apply MixColumns_block, last_step_block. Qed.

Lemma rounds_block lo hi s : block 16 s -> block 16 (for_ lo hi (full_round rk) s).
Proof. intros H. apply (for_inv (block 16)); [done|]. intros i t _. apply full_round_block. Qed.

Lemma last_step_undo s : block 16 s -> InvSubBytes (InvShiftRows (last_step s)) = s.
Proof.
  intros H. unfold last_step. rewrite (proj1 (InvShift_Shift _ (block_length _ _ (SubBytes_block s H)))). by apply InvSub_Sub.
Qed.

Lemma last_step_redo s : block 16 s -> last_step (InvSubBytes (InvShiftRows s)) = s.
Proof.
  intros H. unfold last_step. rewrite (proj2 (InvSub_Sub _ (proj2 (ShiftRows_block s H)))). apply InvShift_Shift, H.
Qed.

Lemma full_round_eq r s : full_round rk r s = AddRoundKey r (MixColumns (last_step s)) rk.
Proof. unfold full_round, last_step. reflexivity. Qed.

Definition inv_step (r : nat) (s : list Z) : list Z := AddRoundKey r (InvSubBytes (InvShiftRows s)) rk.

Lemma inv_rounds_0 s : inv_cipher_rounds 0 s rk = inv_step 0 s.
Proof.
  unfold inv_cipher_rounds, inv_step. generalize AddRoundKey InvSubBytes InvShiftRows InvMixColumns. reflexivity.
Qed.

Lemma inv_rounds_S r s : inv_cipher_rounds (S r) s rk = inv_cipher_rounds r (InvMixColumns (inv_step (S r) s)) rk.
Proof.
  unfold inv_cipher_rounds, inv_step. generalize AddRoundKey InvSubBytes InvShiftRows InvMixColumns. reflexivity.
Qed.

Lemma inv_step_block r s : block 16 s -> block 16 (inv_step r s).
Proof. intros H. by apply AddRoundKey_block, InvSubBytes_block, ShiftRows_block. Qed.

Lemma inv_step_last r s : block 16 s -> inv_step r (last_step s) = AddRoundKey r s rk.
Proof. intros H. unfold inv_step. by rewrite last_step_undo. Qed.

Lemma last_inv_step r s : block 16 s -> last_step (AddRoundKey r (inv_step r s) rk) = s.
Proof.
  intros H. unfold inv_step. rewrite AddRoundKey_twice; [by apply last_step_redo|].
  by apply (block_length 16), InvSubBytes_block, ShiftRows_block.
Qed.

Lemma inv_full_round r s : block 16 s -> InvMixColumns (inv_step r (last_step (full_round rk r s))) = last_step s.
Proof.
  intros H. rewrite inv_step_last by by apply full_round_block. rewrite full_round_eq.
  rewrite AddRoundKey_twice by by apply (block_length 16), MixColumns_block, last_step_block.
  by apply InvMix_Mix, (block_length 16), last_step_block.
Qed.

Lemma full_inv_round r s x : block 16 s -> last_step x = InvMixColumns (inv_step r s) -> last_step (full_round rk r x) = s.
Proof.
  intros H E. rewrite full_round_eq, E. rewrite Mix_InvMix by by apply (block_length 16), inv_step_block.
  by apply last_inv_step.
Qed.

Lemma inv_rounds_undo r s : block 16 s ->
  inv_cipher_rounds r (last_step (for_ 1 (S r) (full_round rk) s)) rk = AddRoundKey 0 s rk.
Proof.
  intros H. induction r as [|r IH].
  - rewrite for_nil by lia. rewrite inv_rounds_0. by apply inv_step_last.
  - rewrite for_S, inv_rounds_S by lia. rewrite inv_full_round by by apply rounds_block. exact IH.
Qed.

Lemma inv_rounds_block r s : block 16 s -> block 16 (inv_cipher_rounds r s rk).
Proof.
  revert s. induction r as [|r IH]; intros s H; [rewrite inv_rounds_0; by apply inv_step_block|].
  rewrite inv_rounds_S. by apply IH, InvMixColumns_block, inv_step_block.
Qed.

Lemma inv_rounds_redo r s : block 16 s ->
  last_step (for_ 1 (S r) (full_round rk) (AddRoundKey 0 (inv_cipher_rounds r s rk) rk)) = s.
Proof.
  revert s. induction r as [|r IH]; intros s H.
  - rewrite for_nil by lia. rewrite inv_rounds_0. by apply last_inv_step.
  - rewrite for_S, inv_rounds_S by lia. apply full_inv_round; [done|]. by apply IH, InvMixColumns_block, inv_step_block.
Qed.

Lemma Cipher_eq s n : (1 <= n <= 255)%nat ->
  Cipher s rk n = AddRoundKey n (last_step (for_ 1 n (full_round rk) (AddRoundKey 0 s rk))) rk.
Proof. intros Hn. unfold Cipher. by rewrite cipher_rounds_spec by lia. Qed.

Lemma Cipher_block s n : (1 <= n <= 255)%nat -> block 16 s -> block 16 (Cipher s rk n).
Proof.
  intros Hn H. rewrite Cipher_eq by done. apply AddRoundKey_block; [done|]. apply last_step_block, rounds_block.
  by apply AddRoundKey_block.
Qed.

Lemma InvCipher_block s n : block 16 s -> block 16 (InvCipher s rk n).
Proof. intros H. unfold InvCipher. apply inv_rounds_block. by apply AddRoundKey_block. Qed.

Lemma InvCipher_Cipher s n : (1 <= n <= 255)%nat -> block 16 s -> InvCipher (Cipher s rk n) rk n = s.
Proof.
  intros Hn H. rewrite Cipher_eq by done. unfold InvCipher. assert (Ha : block 16 (AddRoundKey 0 s rk)) by by apply AddRoundKey_block.
  rewrite AddRoundKey_twice by by apply (block_length 16), last_step_block, rounds_block.
  destruct n as [|n]; [lia|]. replace (S n - 1)%nat with n by lia. rewrite inv_rounds_undo by done.
  apply AddRoundKey_twice, H.
Qed.

Lemma Cipher_InvCipher s n : (1 <= n <= 255)%nat -> block 16 s -> Cipher (InvCipher s rk n) rk n = s.
Proof.
  intros Hn H. rewrite Cipher_eq by done. unfold InvCipher. assert (Ha : block 16 (AddRoundKey n s rk)) by by apply AddRoundKey_block.
  destruct n as [|n]; [lia|]. replace (S n - 1)%nat with n by lia. rewrite inv_rounds_redo by done.
  apply AddRoundKey_twice, H.
Qed.
End Inverse.

(** ** The key schedule writes bytes *)

Lemma table_byte t i : forallb (fun x => (0 <=? x) && (x <? 256)) t = true -> is_byte (t.[i]).
Proof.
  intros H. apply (block_nth (length t)). split; [done|]. apply Forall_forall. intros x Hx.
  apply list_elem_of_In in Hx. rewrite forallb_forall in H. specialize (H x Hx). lia.
Qed.

Lemma getSBoxValue_byte x : is_byte (getSBoxValue x).
Proof. by apply table_byte. Qed.

(** A buffer of [n] bytes stays one when bytes are stored. *)
Lemma insert_block n l i v : block n l -> is_byte v -> block n (l.[i <- v]).
Proof. intros [L B] Hv. split; [by rewrite length_insert|]. by apply Forall_insert. Qed.

Lemma expand_word_block n Nk i rk : block n rk -> block n (expand_word Nk i rk).
Proof.
  intros H. unfold expand_word. set (t0 := map _ (seq 0 4)).
  assert (H0 : block 4 t0).
  { split; [done|]. apply Forall_fmap, Forall_true. intros b. by eapply block_nth. }
  assert (Hs : forall t, block 4 t -> block 4 (SubWord t)).
  { intros t [L B]. split; [by unfold SubWord; rewrite length_map|]. apply Forall_fmap, Forall_true. apply getSBoxValue_byte. }
  set (t1 := if (i mod Nk =? 0)%nat then _ else t0).
  assert (H1 : block 4 t1).
  { unfold t1. destruct (i mod Nk =? 0)%nat; [|done]. assert (Hr : block 4 (SubWord (RotWord t0))).
    { apply Hs. apply block4; by eapply block_nth. }
    apply insert_block; [done|]. apply lxor_byte; [by eapply block_nth|by apply table_byte]. }
  set (t2 := if (Nk =? 8)%nat then _ else t1).
  assert (H2 : block 4 t2) by (unfold t2; repeat case_match; auto). clearbody t2.
  apply (for_inv (block n)); [done|]. intros b l _ Hl. apply insert_block; [done|]. apply lxor_byte; by eapply block_nth.
Qed.

Lemma KeyExpansion_block n m rk key Nk Nr : block n rk -> block m key -> block n (KeyExpansion rk key Nk Nr).
Proof.
  intros H Hk. unfold KeyExpansion. destruct (negb _); [done|]. apply (for_inv (block n)); [|intros; by apply expand_word_block].
  apply (for_inv (block n)); [done|]. intros i l _ Hl. apply (for_inv (block n)); [done|]. intros b l' _ Hl'.
  apply insert_block; [done|]. by eapply block_nth.
Qed.

Definition key_bytes (key_size : dsd_aes_key_size) : nat := (4 * fst (aes_params_for_key_size key_size))%nat.
Definition rounds (key_size : dsd_aes_key_size) : nat := snd (aes_params_for_key_size key_size).

Lemma round_keys_bytes ks n key : block n key -> Forall (fun x => is_byte x) (round_keys ks key).
Proof.
  intros H. unfold round_keys. destruct (aes_params_for_key_size ks) as [nk nr].
  apply (block_bytes AES_ROUND_KEY_BYTES). eapply KeyExpansion_block; [apply block_zero|exact H].
Qed.

Lemma rounds_range ks : (1 <= rounds ks <= 255)%nat.
Proof. destruct ks; cbn; lia. Qed.

(** ** AES as a block cipher *)

Definition aes_encrypt (k : dsd_aes_key_size * list Z) (x : list Z) : list Z :=
  Cipher x (round_keys (fst k) (snd k)) (rounds (fst k)).
Definition aes_decrypt (k : dsd_aes_key_size * list Z) (x : list Z) : list Z :=
  InvCipher x (round_keys (fst k) (snd k)) (rounds (fst k)).

#[export, program] Instance aes_cipher : BlockCipher (dsd_aes_key_size * list Z) := {
  valid_key k := block (key_bytes (fst k)) (snd k);
  block_len := 16%nat;
  encrypt := aes_encrypt;
  decrypt := aes_decrypt
}.
Next Obligation. intros [ks key] x Hk Hx. apply Cipher_block; [by eapply round_keys_bytes|apply rounds_range|done]. Qed.
Next Obligation. intros [ks key] x Hk Hx. apply InvCipher_block; [by eapply round_keys_bytes|done]. Qed.
Next Obligation. intros [ks key] x Hk Hx. apply InvCipher_Cipher; [by eapply round_keys_bytes|apply rounds_range|done]. Qed.
Next Obligation. intros [ks key] x Hk Hx. apply Cipher_InvCipher; [by eapply round_keys_bytes|apply rounds_range|done]. Qed.

Lemma encrypt_aes ks key x : encrypt (ks, key) x = Cipher x (round_keys ks key) (snd (aes_params_for_key_size ks)).
Proof. cbv [encrypt aes_cipher aes_encrypt rounds]. cbn [fst snd]. reflexivity. Qed.

Lemma decrypt_aes ks key x : decrypt (ks, key) x = InvCipher x (round_keys ks key) (snd (aes_params_for_key_size ks)).
Proof. cbv [decrypt aes_cipher aes_decrypt rounds]. cbn [fst snd]. reflexivity. Qed.
