(* ===== verification/AesModes.v ===== *)
(** * [crypto/crypt-aes.c]: what the modes of AES compute

    The three public functions against the modes of [BlockCipher]: the output
    feedback key stream, counter mode with its sixteen byte counter, and
    codebook decryption. *)
From S2P Require Import Prelude BlockCipher Aes.

(** ** Big-endian numbers *)

Definition be_value (l : list Z) : Z := fold_left (fun a x => a * 256 + x) l 0.
Definition be_bytes (n : nat) (v : Z) : list Z := map (fun i => v / 256 ^ Z.of_nat (n - 1 - i) mod 256) (seq 0 n).

Lemma be_value_snoc l x : be_value (l ++ [x]) = be_value l * 256 + x.
Proof. unfold be_value. by rewrite fold_left_app. Qed.

Lemma be_value_range n l : block n l -> 0 <= be_value l < 256 ^ Z.of_nat n.
Proof.
  intros [<- B]. induction l as [|x l IH] using rev_ind; [cbn; lia|].
  apply Forall_app in B as [B Bx]. apply Forall_inv in Bx. cbv beta in Bx. specialize (IH B).
  rewrite be_value_snoc. replace (Z.of_nat (length (l ++ [x]))) with (Z.succ (Z.of_nat (length l))) by (rewrite length_app; cbn; lia).
  rewrite Z.pow_succ_r by lia. lia.
Qed.

Lemma be_bytes_block n v : block n (be_bytes n v).
Proof.
  unfold be_bytes. split; [by rewrite length_map, length_seq|]. apply Forall_fmap, Forall_true. intros i. apply Z.mod_pos_bound. lia.
Qed.

Lemma be_bytes_snoc n v : 0 <= v -> be_bytes (S n) v = be_bytes n (v / 256) ++ [v mod 256].
Proof.
  intros Hv. unfold be_bytes. rewrite seq_S, map_app. cbn [map Nat.add]. f_equal.
  - apply map_ext_in. intros i Hi. apply in_seq in Hi.
    replace (Z.of_nat (S n - 1 - i)) with (1 + Z.of_nat (n - 1 - i)) by lia.
    rewrite Z.pow_add_r, Z.div_div by lia. done.
  - replace (S n - 1 - n)%nat with 0%nat by lia. by rewrite Z.div_1_r.
Qed.

Lemma be_bytes_value n l : block n l -> be_bytes n (be_value l) = l.
Proof.
  intros H. revert n H. induction l as [|x l IH] using rev_ind; intros n [L B].
  { by destruct n. }
  rewrite length_app in L. cbn in L. destruct n as [|n]; [lia|]. apply Forall_app in B as [B Bx]. apply Forall_inv in Bx. cbv beta in Bx.
  assert (Hl : block n l) by (split; [lia|done]). pose proof (be_value_range n l Hl).
  rewrite be_value_snoc, be_bytes_snoc by lia. rewrite Z.div_add_l, Z.div_small, Z.add_0_r by lia.
  rewrite (Z.add_comm _ x), Z.mod_add, Z.mod_small by lia. by rewrite IH.
Qed.

(** ** The counter *)

Lemma take_snoc_nth (l : list Z) i : (i < length l)%nat -> take (S i) l = take i l ++ [l.[i]].
Proof.
  intros Hi. destruct (lookup_lt_is_Some_2 l i Hi) as [x Hx]. rewrite (take_S_r _ _ x Hx). by rewrite nth_lookup, Hx.
Qed.

Lemma increment_from_spec n c : (n <= length c)%nat -> Forall (fun x => is_byte x) c ->
  let c' := increment_from n c in
  length c' = length c /\ Forall (fun x => is_byte x) c' /\ drop n c' = drop n c /\
  be_value (take n c') = (be_value (take n c) + 1) mod 256 ^ Z.of_nat n.
Proof.
  revert c. induction n as [|i IH]; intros c Hn B; [done|]. cbn [increment_from].
  assert (Hb : block (length c) c) by by split. pose proof (block_nth _ _ i Hb) as Hi.
  set (c1 := c.[i <- u8 (c.[i] + 1)]). assert (L1 : length c1 = length c) by apply length_insert.
  assert (V1 : c1.[i] = u8 (c.[i] + 1)) by (apply nth_insert_eq; lia).
  assert (B1 : Forall (fun x => is_byte x) c1) by (apply Forall_insert; [done|]; apply Z.mod_pos_bound; lia).
  assert (T1 : take i c1 = take i c) by (apply take_insert_ge; lia).
  assert (D1 : drop (S i) c1 = drop (S i) c) by (apply drop_insert_lt; lia).
  pose proof (be_value_range i (take i c) ltac:(split; [rewrite length_take; lia|by apply Forall_take])) as R.
  rewrite (take_snoc_nth c i), be_value_snoc by lia. rewrite Nat2Z.inj_succ, Z.pow_succ_r by lia.
  destruct (Z.eqb_spec (c1.[i]) 0) as [E|E]; cbn [negb]; rewrite V1 in E; unfold u8, wrap in E.
  - assert (Hc : c.[i] = 255) by (destruct (decide (c.[i] = 255)); [done|]; rewrite Z.mod_small in E; lia).
    destruct (IH c1 ltac:(lia) B1) as (L & B' & D & V). split; [lia|]. split; [done|].
    assert (Di : (increment_from i c1).[i] = 0).
    { pose proof (nth_drop (increment_from i c1) i 0) as E1. pose proof (nth_drop c1 i 0) as E2.
      rewrite Nat.add_0_r in E1, E2. rewrite <- E1, D, E2, V1, Hc. reflexivity. }
    split.
    { rewrite <- D1. replace (S i) with (i + 1)%nat by lia. rewrite <- !drop_drop. by rewrite D. }
    rewrite take_snoc_nth, be_value_snoc, V, T1, Di, Hc by lia.
    rewrite (Z.mul_comm 256), Z.add_0_r, <- Z.mul_mod_distr_r by lia. f_equal. lia.
  - split; [done|]. split; [done|]. split; [done|]. rewrite take_snoc_nth, be_value_snoc, T1, V1 by lia. unfold u8, wrap.
    assert (Hc : c.[i] <> 255) by (intros Hc; rewrite Hc in E; by apply E).
    rewrite (Z.mod_small (c.[i] + 1)), Z.mod_small by nia. lia.
Qed.

Lemma increment_block c : block 16 c -> block 16 (aes_increment_counter_be c) /\
  be_value (aes_increment_counter_be c) = (be_value c + 1) mod 2 ^ 128.
Proof.
  intros [L B]. destruct (increment_from_spec 16 c ltac:(lia) B) as (L' & B' & _ & V). rewrite L in L'.
  unfold aes_increment_counter_be, AES_BLOCKLEN. split; [by split|].
  rewrite !take_ge in V by lia. exact V.
Qed.

Lemma counter_block c b : block 16 c -> block 16 (Nat.iter b aes_increment_counter_be c) /\
  Nat.iter b aes_increment_counter_be c = be_bytes 16 ((be_value c + Z.of_nat b) mod 2 ^ 128).
Proof.
  intros H. assert (Hb : block 16 (Nat.iter b aes_increment_counter_be c)).
  { induction b as [|b IH]; [done|]. rewrite Nat.iter_succ. by apply increment_block. }
  split; [done|]. rewrite <- (be_bytes_value 16 (Nat.iter b aes_increment_counter_be c)) by done. f_equal. clear Hb.
  pose proof (be_value_range 16 c H) as R. change (256 ^ Z.of_nat 16) with (2 ^ 128) in R.
  assert (G : block 16 (Nat.iter b aes_increment_counter_be c) /\
    be_value (Nat.iter b aes_increment_counter_be c) = (be_value c + Z.of_nat b) mod 2 ^ 128); [|apply G].
  induction b as [|b [IH1 IH2]]; [split; [done|]; cbn [Nat.iter nat_rect]; rewrite Z.add_0_r, Z.mod_small; done|].
  rewrite Nat.iter_succ. destruct (increment_block _ IH1) as [I1 I2]. split; [done|].
  rewrite I2, IH2, Z.add_mod_idemp_l by lia. f_equal. lia.
Qed.

(** ** Counter mode *)

(** A loop over a window of an array, cell by cell. *)
Lemma for_window m off (f : nat -> Z -> Z) (l : list Z) : (off + m <= length l)%nat ->
  let l' := for_ 0 m (fun i d => d.[(off + i)%nat <- f i (d.[(off + i)%nat])]) l in
  length l' = length l /\
  forall p, l'.[p] = if decide (off <= p < off + m)%nat then f (p - off)%nat (l.[p]) else l.[p].
Proof.
  induction m as [|m IH]; intros H; cbv zeta.
  - rewrite for_nil by lia. split; [done|]. intros p. by destruct (decide (off <= p < off + 0)%nat); [lia|].
  - rewrite for_S by lia. destruct IH as [L E]; [lia|]. rewrite length_insert. split; [done|]. intros p.
    rewrite nth_insert, L, !E. destruct (decide (off <= off + m < off + m)%nat); [lia|].
    destruct (decide (off + m = p /\ _))%nat as [[<- _]|Hn].
    + destruct (decide (off <= off + m < off + S m)%nat); [|lia]. by replace (off + m - off)%nat with m by lia.
    + destruct (decide (off <= p < off + m)%nat), (decide (off <= p < off + S m)%nat); try lia; try done.
Qed.

(** The byte of the key stream at [p]. *)
Definition ctr_byte (key_size : dsd_aes_key_size) (key counter : list Z) (p : nat) : Z :=
  (encrypt (key_size, key) (be_bytes 16 ((be_value counter + Z.of_nat (p / 16)) mod 2 ^ 128))).[(p mod 16)%nat].

Lemma ctr_loop key_size key counter data len n : block 16 counter -> (len <= length data)%nat ->
  let '(data', c) := for_ 0 n (ctr_step key_size (round_keys key_size key) len) (data, counter) in
  c = Nat.iter n aes_increment_counter_be counter /\ length data' = length data /\
  forall p, data'.[p] = if decide (p < Nat.min len (16 * n))%nat then Z.lxor (data.[p]) (ctr_byte key_size key counter p) else data.[p].
Proof.
  intros Hc Hlen. induction n as [|n IH].
  { rewrite for_nil by lia. split; [done|]. split; [done|]. intros p. by destruct (decide (p < Nat.min len (16 * 0))%nat); [lia|]. }
  rewrite for_S by lia. destruct (for_ 0 n _ _) as [d c]. destruct IH as (-> & L & E). unfold ctr_step.
  split; [symmetry; apply Nat.iter_succ|]. destruct (counter_block counter n Hc) as [_ Ec].
  set (stream := Cipher _ _ _). set (m := Nat.min _ _). unfold AES_BLOCKLEN in *.
  destruct (decide (len <= n * 16)%nat) as [Hd|Hd].
  - assert (m = 0)%nat as -> by (unfold m; lia). rewrite for_nil by lia. split; [done|]. intros p. rewrite E.
    destruct (decide (p < Nat.min len (16 * n))%nat), (decide (p < Nat.min len (16 * S n))%nat); lia || done.
  - destruct (for_window m (n * 16) (fun i x => Z.lxor x (stream.[i])) d) as [L' E']; [unfold m; lia|].
    cbv beta in L', E'. split; [lia|]. intros p. rewrite E', E. clear E' E L'.
    destruct (decide (n * 16 <= p < n * 16 + m)%nat) as [Hp|Hp].
    + destruct (decide (p < Nat.min len (16 * n))%nat); [lia|]. unfold m in Hp.
      destruct (decide (p < Nat.min len (16 * S n))%nat); [|lia]. f_equal. unfold ctr_byte, stream. rewrite encrypt_aes.
      assert (Hq : (p / 16 = n)%nat) by (symmetry; apply (Nat.div_unique p 16 n (p - n * 16)); lia).
      assert (Hr : (p mod 16 = p - n * 16)%nat) by (symmetry; apply (Nat.mod_unique p 16 n (p - n * 16)); lia).
      by rewrite Hq, Hr, Ec.
    + unfold m in Hp. destruct (decide (p < Nat.min len (16 * n))%nat), (decide (p < Nat.min len (16 * S n))%nat); lia || done.
Qed.

Lemma aes_ctr_bytes key_size counter key data len : block 16 counter -> (len <= length data)%nat ->
  let data' := aes_ctr_xcrypt_bytes counter key data key_size len in
  length data' = length data /\
  forall p, data'.[p] = if decide (p < len)%nat then Z.lxor (data.[p]) (ctr_byte key_size key counter p) else data.[p].
Proof.
  intros Hc Hlen. cbv zeta. unfold aes_ctr_xcrypt_bytes. change AES_BLOCKLEN with 16%nat.
  rewrite (take_ge counter) by (rewrite (block_length _ _ Hc); lia).
  pose proof (ctr_loop key_size key counter data len ((len + 15) / 16) Hc Hlen) as H.
  destruct (for_ 0 ((len + 15) / 16) _ _) as [d c]. destruct H as (_ & L & E). split; [exact L|]. intros p. cbn [fst].
  rewrite E. pose proof (Nat.div_mod_eq (len + 15) 16). pose proof (Nat.mod_upper_bound (len + 15) 16 ltac:(lia)).
  destruct (decide (p < Nat.min len (16 * ((len + 15) / 16)))%nat), (decide (p < len)%nat); lia || done.
Qed.

(** C7: Counter mode: byte [p] of the data is combined with byte [p mod 16] of
    the encryption of the counter advanced by [p / 16], as a 128-bit big-endian
    number that wraps round; bytes from [len] on are left as they were; and the
    same call again restores the data. *)
Theorem aes_ctr_spec key_size counter key data len :
  block 16 counter -> (len <= length data)%nat ->
  let data' := aes_ctr_xcrypt_bytes counter key data key_size len in
  length data' = length data /\
  (forall p, (p < len)%nat -> data'.[p] = Z.lxor (data.[p]) (ctr_byte key_size key counter p)) /\
  (forall p, (len <= p)%nat -> data'.[p] = data.[p]) /\
  aes_ctr_xcrypt_bytes counter key data' key_size len = data.
Proof.
  intros Hc Hlen data'. destruct (aes_ctr_bytes key_size counter key data len Hc Hlen) as [L E]. fold data' in L, E.
  split; [done|]. split; [|split].
  - intros p Hp. rewrite E. by destruct (decide (p < len)%nat).
  - intros p Hp. rewrite E. by destruct (decide (p < len)%nat); [lia|].
  - destruct (aes_ctr_bytes key_size counter key data' len Hc ltac:(lia)) as [L' E'].
    apply list_eq_nth; [lia|]. intros p _. rewrite E', E.
    destruct (decide (p < len)%nat); [|done]. by rewrite Z.lxor_assoc, Z.lxor_nilpotent, Z.lxor_0_r.
Qed.

(** ** Output feedback and codebook *)

Lemma aes_ofb_bytes key_size key iv output n : block (key_bytes key_size) key -> block 16 iv -> (n * 16 <= length output)%nat ->
  aes_ofb_keystream_output iv key output key_size n = ofb_stream (key_size, key) iv n ++ drop (n * 16) output.
Proof.
  intros Hk Hiv Hn. unfold aes_ofb_keystream_output. rewrite (take_ge iv) by (rewrite (block_length _ _ Hiv); lia).
  pose proof (ofb_loop (key_size, key) iv output n Hk Hiv Hn) as H.
  rewrite (for_ext 0 n _ (fun i '(r, out) => let r := encrypt (key_size, key) r in (r, blit out (i * block_len) r))).
  - by rewrite H.
  - intros i [r o] _. by rewrite encrypt_aes.
Qed.

(** The output feedback key stream is the repeated encryption of the
    initial vector, block after block; what follows it in the buffer stays; and
    the stream has no tail: when two of its blocks are equal, the stream has
    come back to the initial vector with that distance as a period. *)
Lemma aes_ofb_stream key_size key iv output n :
  block (key_bytes key_size) key -> block 16 iv -> (n * 16 <= length output)%nat ->
  let out := aes_ofb_keystream_output iv key output key_size n in
  let blk i := take 16 (drop (i * 16) out) in
  (forall i, (i < n)%nat -> blk i = Nat.iter (S i) (encrypt (key_size, key)) iv) /\
  drop (n * 16) out = drop (n * 16) output /\
  (forall i j, (i < j < n)%nat -> blk i = blk j -> blk (j - i - 1)%nat = iv).
Proof.
  intros Hk Hiv Hn out blk. pose proof (aes_ofb_bytes key_size key iv output n Hk Hiv Hn) as E. fold out in E.
  assert (Ls : forall m, length (ofb_stream (key_size, key) iv m) = (m * 16)%nat) by (intros m; exact (ofb_stream_length (key_size, key) iv m Hk Hiv)).
  assert (B : forall i, (i < n)%nat -> blk i = Nat.iter (S i) (encrypt (key_size, key)) iv).
  { intros i Hi. unfold blk. rewrite E, (ofb_stream_split _ _ (S i) n) by lia. rewrite ofb_stream_S, <- !app_assoc.
    rewrite drop_app_ge, Ls, Nat.sub_diag, drop_0 by (rewrite Ls; lia). 
    assert (Lb : length (ofb_block (key_size, key) iv i) = 16%nat) by exact (block_length 16 _ (iter_block (key_size, key) iv (S i) Hk Hiv)).
    rewrite take_app_le, take_ge by lia. reflexivity. }
  split; [done|]. split.
  - rewrite E, drop_app_ge, Ls, Nat.sub_diag by (rewrite Ls; lia). done.
  - intros i j Hij Eb. rewrite !B in Eb by lia. rewrite B by lia.
    apply ofb_returns in Eb; [|done|done|lia]. by replace (S (j - i - 1)) with (S j - S i)%nat by lia.
Qed.

(** Codebook decryption undoes codebook encryption, for every key size,
    whatever follows the blocks in the two buffers. *)
Lemma aes_ecb_roundtrip key_size key xs rest output :
  block (key_bytes key_size) key -> Forall (block 16) xs -> (length xs * 16 <= length output)%nat ->
  aes_ecb_decrypt_blocks (concat (ecb (encrypt (key_size, key)) xs) ++ rest) key output key_size (length xs)
  = concat xs ++ drop (length xs * 16) output.
Proof.
  intros Hk Hx Hn. set (k := (key_size, key)) in *. unfold aes_ecb_decrypt_blocks. set (ys := ecb (encrypt k) xs).
  assert (Ly : length ys = length xs) by apply length_map.
  assert (Hy : Forall (block 16) ys).
  { apply Forall_fmap. eapply Forall_impl; [exact Hx|]. intros x. exact (encrypt_block k x Hk). }
  pose proof (ecb_loop (decrypt k) ys rest output Hy (fun x => decrypt_block k x Hk) ltac:(rewrite Ly; exact Hn)) as H.
  unfold ys in H at 3. rewrite ecb_roundtrip in H by done. rewrite Ly in H.
  refine (eq_trans _ H). apply for_ext. intros i out _. unfold k. by rewrite decrypt_aes.
Qed.

(** ** Instances *)

(** The counter wraps within the second block. *)
Lemma aes_ctr_spec_witness :
  let data := [1; 2; 3; 4; 5; 6; 7; 8; 9; 10; 11; 12; 13; 14; 15; 16; 17; 18] in
  let once := aes_ctr_xcrypt_bytes (replicate 16 255) (replicate 16 0) data DSD_AES_KEY_128 18 in
  once.[16%nat] = Z.lxor 17 (ctr_byte DSD_AES_KEY_128 (replicate 16 0) (replicate 16 255) 16) /\
  aes_ctr_xcrypt_bytes (replicate 16 255) (replicate 16 0) once DSD_AES_KEY_128 18 = data.
Proof.
  intros data once. assert (Hc : block 16 (replicate 16 255)) by (split; [reflexivity|apply Forall_replicate; lia]).
  destruct (aes_ctr_spec DSD_AES_KEY_128 (replicate 16 255) (replicate 16 0) data 18 Hc ltac:(cbn; lia)) as (_ & H & _ & E).
  split; [exact (H 16%nat ltac:(lia))|exact E].
Defined.

Lemma aes_ofb_stream_witness :
  take 16 (drop (1 * 16) (aes_ofb_keystream_output (replicate 16 0) (replicate 32 0) (replicate 40 7) DSD_AES_KEY_256 2))
  = Nat.iter 2 (encrypt (DSD_AES_KEY_256, replicate 32 0)) (replicate 16 0).
Proof.
  exact (proj1 (aes_ofb_stream DSD_AES_KEY_256 (replicate 32 0) (replicate 16 0) (replicate 40 7) 2
    (block_zero 32) (block_zero 16) ltac:(cbn; lia)) 1%nat ltac:(lia)).
Defined.

Lemma aes_ecb_roundtrip_witness :
  aes_ecb_decrypt_blocks (concat (ecb (encrypt (DSD_AES_KEY_128, replicate 16 0)) [replicate 16 0]) ++ [9]) (replicate 16 0)
    (replicate 17 7) DSD_AES_KEY_128 1 = concat [replicate 16 0] ++ drop 16 (replicate 17 7).
Proof.
  exact (aes_ecb_roundtrip DSD_AES_KEY_128 (replicate 16 0) [replicate 16 0] [9] (replicate 17 7)
    (block_zero 16) (Forall_cons_2 _ _ _ (block_zero 16) (Forall_nil_2 _)) ltac:(cbn; lia)).
Defined.
