(* ===== verification/AesSpec.v ===== *)
(** * AES after FIPS 197

    The standard's definition of the cipher, from arithmetic in the field of
    256 elements and a matrix for the state, and the proof that
    [crypto/crypt-aes.c], with its tables and its updates in place, computes
    it for the three key sizes.  Nothing here models code; section numbers are
    those of FIPS 197. *)
From S2P Require Import Prelude BlockCipher Aes.

(** ** 4: the field *)

(** Product of polynomials over the field of two elements. *)
Definition clmul (a b : Z) : Z := for_ 0 8 (fun i p => if Z.testbit b (Z.of_nat i) then Z.lxor p (Z.shiftl a (Z.of_nat i)) else p) 0.

(** Remainder by x^8 + x^4 + x^3 + x + 1, from the top bit down. *)
Definition gf_reduce (p : Z) : Z :=
  for_ 0 7 (fun i p => if Z.testbit p (14 - Z.of_nat i) then Z.lxor p (Z.shiftl 0x11b (6 - Z.of_nat i)) else p) p.

Definition gf_mul (a b : Z) : Z := gf_reduce (clmul a b).

(** The inverse: x^254, which is 0 for 0. *)
Definition gf_inv (x : Z) : Z :=
  let x2 := gf_mul x x in
  let x3 := gf_mul x2 x in
  let x6 := gf_mul x3 x3 in
  let x12 := gf_mul x6 x6 in
  let x15 := gf_mul x12 x3 in
  let x30 := gf_mul x15 x15 in
  let x60 := gf_mul x30 x30 in
  let x120 := gf_mul x60 x60 in
  let x240 := gf_mul x120 x120 in
  gf_mul (gf_mul x240 x12) x2.

Lemma gf_inv_spec x : 0 < x < 256 -> gf_mul x (gf_inv x) = 1.
Proof.
  intros Hx. assert (H : Forall (fun x => x = 0 \/ gf_mul x (gf_inv x) = 1) (map Z.of_nat (seq 0 256))); [by_decide|].
  rewrite Forall_forall in H. destruct (H x (elem_of_bytes x ltac:(lia))); [lia|done].
Qed.

(** ** 5.1.1: the substitution *)

(** The affine map, bit by bit, with c = 63 hexadecimal. *)
Definition affine (x : Z) : Z :=
  sum_upto 8 (fun i => 2 ^ Z.of_nat i *
    Z.b2z (xorb (xorb (xorb (xorb (xorb (Z.testbit x (Z.of_nat i)) (Z.testbit x (Z.of_nat ((i + 4) mod 8))))
      (Z.testbit x (Z.of_nat ((i + 5) mod 8)))) (Z.testbit x (Z.of_nat ((i + 6) mod 8))))
      (Z.testbit x (Z.of_nat ((i + 7) mod 8)))) (Z.testbit 0x63 (Z.of_nat i)))).

Definition fips_sbox (x : Z) : Z := affine (gf_inv x).

Lemma sbox_is_fips x : is_byte x -> getSBoxValue x = fips_sbox x.
Proof.
  intros Hx. assert (H : Forall (fun x => getSBoxValue x = fips_sbox x) (map Z.of_nat (seq 0 256))); [by_decide|].
  eapply Forall_forall in H; [exact H|by apply elem_of_bytes].
Qed.

Lemma gf_mul_2_3 x : is_byte x -> gf_mul 2 x = xtime x /\ gf_mul 3 x = Z.lxor (xtime x) x.
Proof.
  intros Hx. assert (H : Forall (fun x => gf_mul 2 x = xtime x /\ gf_mul 3 x = Z.lxor (xtime x) x) (map Z.of_nat (seq 0 256))); [by_decide|].
  eapply Forall_forall in H; [exact H|by apply elem_of_bytes].
Qed.

(** ** 5.1: the cipher on a matrix of rows and columns *)

(** A matrix given by its cells, kept column after column, and a cell of it. *)
Definition matrix (f : nat -> nat -> Z) : list Z := map (fun p => f (p mod 4)%nat (p / 4)%nat) (seq 0 16).
Definition entry (s : list Z) (r c : nat) : Z := s.[(r + 4 * c)%nat].

Lemma matrix_ext f g : (forall r c, f r c = g r c) -> matrix f = matrix g.
Proof. intros H. apply map_ext. intros p. apply H. Qed.

Definition fips_sub_bytes (s : list Z) : list Z := matrix (fun r c => fips_sbox (entry s r c)).
Definition fips_shift_rows (s : list Z) : list Z := matrix (fun r c => entry s r ((c + r) mod 4)%nat).
Definition fips_mix_columns (s : list Z) : list Z := matrix (fun r c =>
  Z.lxor (Z.lxor (Z.lxor (gf_mul 2 (entry s r c)) (gf_mul 3 (entry s ((r + 1) mod 4)%nat c)))
    (entry s ((r + 2) mod 4)%nat c)) (entry s ((r + 3) mod 4)%nat c)).

(** Words are lists of four bytes. *)
Definition fips_word_at (w : list (list Z)) (i : nat) : list Z := nth i w [].

Definition fips_add_round_key (w : list (list Z)) (round : nat) (s : list Z) : list Z := matrix (fun r c =>
  Z.lxor (entry s r c) ((fips_word_at w (4 * round + c)).[r])).

(** ** 5.2: the key schedule *)

Definition fips_rot_word (t : list Z) : list Z := drop 1 t ++ take 1 t.
Definition fips_sub_word (t : list Z) : list Z := map fips_sbox t.
(** The powers of x. *)
Definition fips_rcon (i : nat) : list Z := [Nat.iter (i - 1) (gf_mul 2) 1; 0; 0; 0].

Definition fips_next_word (Nk : nat) (key : list Z) (w : list (list Z)) (i : nat) : list Z :=
  if (i <? Nk)%nat then take 4 (drop (4 * i) key)
  else
    let temp := fips_word_at w (i - 1) in
    let temp :=
      if (i mod Nk =? 0)%nat then xor_block (fips_sub_word (fips_rot_word temp)) (fips_rcon (i / Nk))
      else if (6 <? Nk)%nat && (i mod Nk =? 4)%nat then fips_sub_word temp
      else temp in
    xor_block (fips_word_at w (i - Nk)) temp.

Definition fips_words (Nk : nat) (key : list Z) (n : nat) : list (list Z) :=
  for_ 0 n (fun i w => w ++ [fips_next_word Nk key w i]) [].

Definition fips_round (w : list (list Z)) (round : nat) (s : list Z) : list Z :=
  fips_add_round_key w round (fips_mix_columns (fips_shift_rows (fips_sub_bytes s))).

Definition fips_cipher (Nk Nr : nat) (key x : list Z) : list Z :=
  let w := fips_words Nk key (4 * (Nr + 1)) in
  let s := fips_add_round_key w 0 x in
  let s := for_ 1 Nr (fips_round w) s in
  fips_add_round_key w Nr (fips_shift_rows (fips_sub_bytes s)).

(** The example of appendix C.1. *)
Example fips_vector :
  fips_cipher 4 10 (map Z.of_nat (seq 0 16)) (map (fun i => 17 * Z.of_nat i) (seq 0 16))
  = [0x69; 0xc4; 0xe0; 0xd8; 0x6a; 0x7b; 0x04; 0x30; 0xd8; 0xcd; 0xb7; 0x80; 0x70; 0xb4; 0xc5; 0x5a].
Proof. vm_compute. reflexivity. Qed.

(** ** The steps of the code *)

Lemma sub_bytes_fips s : block 16 s -> SubBytes s = fips_sub_bytes s.
Proof.
  intros H. rewrite SubBytes_map by apply H. assert (E : fips_sub_bytes s = map fips_sbox s).
  { pose proof (block_length _ _ H) as L. clear H. revert L. cells s. reflexivity. }
  rewrite E. apply map_ext_in. intros x Hx. apply sbox_is_fips. destruct H as [_ B]. rewrite Forall_forall in B.
  by apply B, list_elem_of_In.
Qed.

Lemma shift_rows_fips s : length s = 16%nat -> ShiftRows s = fips_shift_rows s.
Proof. cells s. reflexivity. Qed.

Lemma mix_columns_fips s : block 16 s -> MixColumns s = fips_mix_columns s.
Proof.
  intros H. rewrite MixColumns_columns by apply H. unfold fips_mix_columns.
  rewrite (matrix_ext _ (fun r c => Z.lxor (Z.lxor (Z.lxor (xtime (entry s r c))
    (Z.lxor (xtime (entry s ((r + 1) mod 4)%nat c)) (entry s ((r + 1) mod 4)%nat c)))
    (entry s ((r + 2) mod 4)%nat c)) (entry s ((r + 3) mod 4)%nat c))).
  2: { intros r c. unfold entry. rewrite (proj1 (gf_mul_2_3 _ (block_nth 16 s _ H))), (proj2 (gf_mul_2_3 _ (block_nth 16 s _ H))). done. }
  apply (block_length 16) in H. revert H. cells s. 
  cbv [columns mixed matrix entry seq map nth app Nat.add Nat.mul Nat.div Nat.modulo Nat.divmod fst snd Nat.sub].
  rewrite !aes_xtime_lxor. repeat (apply (f_equal2 cons); [xors|]). reflexivity.
Qed.

(** ** The key schedule of the code *)

Definition rk_word (rk : list Z) (i : nat) : list Z := map (fun b => rk.[(i * 4 + b)%nat]) (seq 0 4).

Lemma rk_word_nth rk i b : (b < 4)%nat -> (rk_word rk i).[b] = rk.[(i * 4 + b)%nat].
Proof. intros Hb. unfold rk_word. rewrite nth_map_seq by done. reflexivity. Qed.

Lemma rk_word_ext rk rk' i : (forall b, (b < 4)%nat -> rk.[(i * 4 + b)%nat] = rk'.[(i * 4 + b)%nat]) -> rk_word rk i = rk_word rk' i.
Proof. intros H. apply map_ext_in. intros b Hb. apply in_seq in Hb. apply H. lia. Qed.

(** Stores of a word that read another, earlier one. *)
Lemma store_word rk j k t : (k + 4 <= j)%nat -> (j + 4 <= length rk)%nat ->
  let rk' := for_ 0 4 (fun b rk => rk.[(j + b)%nat <- Z.lxor (rk.[(k + b)%nat]) (t.[b])]) rk in
  length rk' = length rk /\
  forall p, rk'.[p] = if decide (j <= p < j + 4)%nat then Z.lxor (rk.[(k + (p - j))%nat]) (t.[(p - j)%nat]) else rk.[p].
Proof.
  intros Hk Hj. set (P := fun n rk' => length rk' = length rk /\ forall p, rk'.[p] =
    if decide (j <= p < j + n)%nat then Z.lxor (rk.[(k + (p - j))%nat]) (t.[(p - j)%nat]) else rk.[p]).
  apply (for_ind P); [lia| |].
  - split; [done|]. intros p. by destruct (decide (j <= p < j + 0)%nat); [lia|].
  - intros n l Hn [L E]. split; [by rewrite length_insert|]. intros p. rewrite nth_insert, L, !E.
    destruct (decide (j <= k + n < j + n)%nat); [lia|]. destruct (decide (j + n = p /\ _))%nat as [[<- _]|Hne].
    + destruct (decide (j <= j + n < j + S n)%nat); [|lia]. by replace (j + n - j)%nat with n by lia.
    + destruct (decide (j <= p < j + n)%nat), (decide (j <= p < j + S n)%nat); lia || done.
Qed.

Section KeySchedule.
Context (Nk Nr : nat) (key : list Z).
Context (HNk : In (Nk, Nr) [(4, 10); (6, 12); (8, 14)]%nat) (Hkey : block (4 * Nk) key).
Notation words := (fips_words Nk key).

Definition schedule_word (i : nat) : list Z := fips_next_word Nk key (words i) i.

Lemma words_length n : length (words n) = n.
Proof. induction n as [|n IH]; [done|]. unfold fips_words in *. rewrite for_S, length_app, IH by lia. cbn. lia. Qed.

Lemma words_at n i : (i < n)%nat -> fips_word_at (words n) i = schedule_word i.
Proof.
  intros Hi. unfold fips_word_at. induction n as [|n IH]; [lia|]. pose proof (words_length n) as L.
  unfold fips_words at 1. rewrite for_S by lia. fold (words n). destruct (decide (i = n)) as [->|].
  - rewrite app_nth2, L, Nat.sub_diag by lia. reflexivity.
  - rewrite app_nth1 by lia. apply IH. lia.
Qed.

Lemma Nk_cases : (4 <= Nk <= 8)%nat /\ (Nk =? 8)%nat = (6 <? Nk)%nat /\ (4 * (Nr + 1) <= 60)%nat /\ ((4 * (Nr + 1) - 1) / Nk <= 10)%nat /\
  aes_key_schedule_params_valid Nk Nr (4 * (Nr + 1)) = true /\ (Nk <= 4 * (Nr + 1))%nat.
Proof. destruct HNk as [[= <- <-]|[[= <- <-]|[[= <- <-]|[]]]]; vm_compute; repeat split; lia. Qed.

(** The first [n] words of the buffer are those of the schedule. *)
Record scheduled (n : nat) (rk : list Z) : Prop := {
  sched_block : block 240 rk;
  sched_words : forall i, (i < n)%nat -> rk_word rk i = schedule_word i
}.

Lemma word4 rk i : rk_word rk i = [rk.[(i * 4 + 0)%nat]; rk.[(i * 4 + 1)%nat]; rk.[(i * 4 + 2)%nat]; rk.[(i * 4 + 3)%nat]].
Proof. reflexivity. Qed.

Lemma rk_word_block n rk i : block n rk -> block 4 (rk_word rk i).
Proof. intros H. rewrite word4. apply block4; by eapply block_nth. Qed.

Lemma sub_word_fips t : block 4 t -> SubWord t = fips_sub_word t.
Proof.
  intros [_ B]. apply map_ext_in. intros x Hx. apply sbox_is_fips. rewrite Forall_forall in B. by apply B, list_elem_of_In.
Qed.

Lemma Rcon_fips n : (1 <= n <= 10)%nat -> Rcon.[n] = Nat.iter (n - 1) (gf_mul 2) 1.
Proof.
  intros Hn. pose proof (check_nat (fun n => (n =? 0)%nat || (Rcon.[n] =? Nat.iter (n - 1) (gf_mul 2) 1)) 11
    ltac:(reflexivity) n ltac:(lia)) as H. cbv beta in H. destruct (Nat.eqb_spec n 0); [lia|]. by apply Z.eqb_eq in H.
Qed.

Lemma expand_word_sched i rk : (Nk <= i < 4 * (Nr + 1))%nat -> scheduled i rk -> scheduled (S i) (expand_word Nk i rk).
Proof.
  intros Hi [B W]. destruct Nk_cases as (HN & H8 & H60 & Hdiv & _). split; [by apply expand_word_block|].
  pose proof (W (i - 1)%nat ltac:(lia)) as W1. pose proof (W (i - Nk)%nat ltac:(lia)) as WN.
  set (t := rk_word rk (i - 1)) in *. assert (Ht : block 4 t) by by apply (rk_word_block 240).
  set (t2 := if (i mod Nk =? 0)%nat then xor_block (fips_sub_word (fips_rot_word t)) (fips_rcon (i / Nk))
      else if (6 <? Nk)%nat && (i mod Nk =? 4)%nat then fips_sub_word t else t).
  assert (E : expand_word Nk i rk = for_ 0 4 (fun b rk => rk.[(i * 4 + b)%nat <- Z.lxor (rk.[((i - Nk) * 4 + b)%nat]) (t2.[b])]) rk).
  { unfold expand_word. cbv zeta. fold (rk_word rk (i - 1)). fold t. f_equal. rewrite H8.
    assert (Hq : (1 <= i / Nk <= 10)%nat).
    { split; [apply Nat.div_le_lower_bound; lia|]. etransitivity; [|exact Hdiv]. apply Nat.div_le_mono; lia. }
    clearbody t. clear -Ht Hq HN. unfold t2. destruct (Nat.eqb_spec (i mod Nk) 0) as [E0|E0].
    - assert (E4 : (i mod Nk =? 4)%nat = false) by (apply Nat.eqb_neq; lia). rewrite E4. cbv iota.
      assert (Hif : forall (b : bool) (x : list Z), (if b then x else x) = x) by by intros []. rewrite Hif.
      assert (Hr : RotWord t = fips_rot_word t) by (destruct Ht as [L _]; do 5 (destruct t as [|? t]; try done)).
      assert (Hr4 : block 4 (fips_rot_word t)) by (rewrite <- Hr; apply block4; by eapply block_nth).
      rewrite Hr, (sub_word_fips _ Hr4), Rcon_fips by done. unfold fips_rcon. generalize (Nat.iter (i / Nk - 1) (gf_mul 2) 1). intros c.
      assert (L4 : length (fips_sub_word (fips_rot_word t)) = 4%nat) by (unfold fips_sub_word; rewrite length_map; apply Hr4).
      revert L4. generalize (fips_sub_word (fips_rot_word t)). clear. intros l L4. do 5 (destruct l as [|? l]; try done).
      unfold xor_block. cbn. by rewrite !Z.lxor_0_r.
    - destruct (6 <? Nk)%nat, (i mod Nk =? 4)%nat; cbn [andb]; first [done|by rewrite sub_word_fips]. }
  assert (Ht2 : length t2 = 4%nat).
  { unfold t2. destruct Ht as [L _]. clear -L. do 5 (destruct t as [|? t]; try done).
    destruct (i mod Nk =? 0)%nat; [reflexivity|]. by destruct (_ && _). }
  destruct (store_word rk (i * 4) ((i - Nk) * 4) t2) as [L' E']; [lia|rewrite (block_length _ _ B); lia|]. rewrite <- E in L', E'.
  intros j Hj. destruct (decide (j = i)) as [->|Hne].
  - unfold schedule_word, fips_next_word. rewrite (proj2 (Nat.ltb_ge i Nk)) by lia. rewrite !words_at by lia. rewrite <- W1, <- WN.
    fold t2. apply list_eq_nth; [by rewrite (xor_block_length 4)|]. intros b Hb. change (length (rk_word _ _)) with 4%nat in Hb.
    rewrite rk_word_nth, xor_block_nth, rk_word_nth, E' by done.
    destruct (decide (i * 4 <= i * 4 + b < i * 4 + 4)%nat); [|lia]. by replace (i * 4 + b - i * 4)%nat with b by lia.
  - rewrite <- W by lia. apply rk_word_ext. intros b Hb. rewrite E'.
    by destruct (decide (i * 4 <= j * 4 + b < i * 4 + 4)%nat); [lia|].
Qed.

Lemma copy_key rk : block 240 rk ->
  scheduled Nk (for_ 0 Nk (fun i rk => for_ 0 4 (fun b rk => rk.[(i * 4 + b)%nat <- key.[(i * 4 + b)%nat]]) rk) rk).
Proof.
  intros B. destruct Nk_cases as (HN & _).
  assert (H : forall n, (n <= Nk)%nat -> let rk' := for_ 0 n (fun i rk => for_ 0 4 (fun b rk => rk.[(i * 4 + b)%nat <- key.[(i * 4 + b)%nat]]) rk) rk in
    block 240 rk' /\ forall p, (p < n * 4)%nat -> rk'.[p] = key.[p]).
  { induction n as [|n IH]; intros Hn; cbv zeta; [rewrite for_nil by lia; split; [done|intros; lia]|].
    rewrite for_S by lia. destruct IH as [B' E]; [lia|]. revert B' E. generalize (for_ 0 n (fun i rk =>
      for_ 0 4 (fun b rk => rk.[(i * 4 + b)%nat <- key.[(i * 4 + b)%nat]]) rk) rk). intros l B' E.
    set (P := fun m l => block 240 l /\ forall p, (p < n * 4 + m)%nat -> l.[p] = key.[p]).
    assert (G : P 4%nat (for_ 0 4 (fun b rk => rk.[(n * 4 + b)%nat <- key.[(n * 4 + b)%nat]]) l)).
    { apply (for_ind P); [lia|split; [done|intros p Hp; apply E; lia]|]. intros b l' Hb [Bl El]. split.
      - apply insert_block; [done|by eapply block_nth].
      - intros p Hp. rewrite nth_insert, (block_length _ _ Bl). destruct (decide (n * 4 + b = p /\ _))%nat as [[<- _]|Hne]; [done|].
        apply El. lia. }
    destruct G as [G1 G2]. split; [done|]. intros p Hp. apply G2. lia. }
  destruct (H Nk (Nat.le_refl Nk)) as [B' E]. split; [done|]. intros i Hi. unfold schedule_word, fips_next_word.
  rewrite (proj2 (Nat.ltb_lt i Nk)) by done.
  apply list_eq_nth; [rewrite length_take, length_drop, (block_length _ _ Hkey); change (length (rk_word _ _)) with 4%nat; lia|].
  intros b Hb. change (length (rk_word _ _)) with 4%nat in Hb. rewrite rk_word_nth, nth_take, nth_drop, E by lia. f_equal. lia.
Qed.

Lemma KeyExpansion_sched rk : block 240 rk -> scheduled (4 * (Nr + 1)) (KeyExpansion rk key Nk Nr).
Proof.
  intros B. destruct Nk_cases as (HN & _ & _ & _ & V & Hle). unfold KeyExpansion, AES_NB. rewrite V. cbn [negb].
  apply (for_ind (fun n rk => scheduled n rk)); [done|by apply copy_key|]. intros i l Hi. by apply expand_word_sched.
Qed.

Lemma add_round_key_fips rk r s : scheduled (4 * (Nr + 1)) rk -> (r <= Nr)%nat -> length s = 16%nat ->
  AddRoundKey r s rk = fips_add_round_key (words (4 * (Nr + 1))) r s.
Proof.
  intros [_ W] Hr L. rewrite AddRoundKey_xor by done.
  assert (E : forall c b, (c < 4)%nat -> (b < 4)%nat -> (fips_word_at (words (4 * (Nr + 1))) (4 * r + c)).[b] = rk.[(r * 16 + 4 * c + b)%nat]).
  { intros c b Hc Hb. rewrite words_at, <- W, rk_word_nth by lia. f_equal. lia. }
  apply list_eq_nth; [rewrite (xor_block_length 16) by (done || apply round_key_length); reflexivity|].
  rewrite (xor_block_length 16) by (done || apply round_key_length). intros p Hp.
  rewrite xor_block_nth, round_key_nth by (done || by rewrite round_key_length).
  unfold fips_add_round_key, matrix. rewrite nth_map_seq by done. cbn [Nat.add]. unfold entry.
  pose proof (Nat.div_mod_eq p 4). pose proof (Nat.mod_upper_bound p 4 ltac:(lia)).
  rewrite E by lia. f_equal; f_equal; lia.
Qed.
End KeySchedule.

Lemma last_step_fips s : block 16 s -> last_step s = fips_shift_rows (fips_sub_bytes s).
Proof.
  intros Hs. unfold last_step. rewrite <- sub_bytes_fips by done. apply shift_rows_fips. by apply (block_length 16), SubBytes_block.
Qed.

(** The rounds of the code are those of the standard when the round keys are. *)
Lemma rounds_fips rk w Nr s n : Forall (fun x => is_byte x) rk ->
  (forall r s, (r <= Nr)%nat -> length s = 16%nat -> AddRoundKey r s rk = fips_add_round_key w r s) ->
  block 16 s -> (1 <= n <= Nr)%nat -> for_ 1 n (full_round rk) s = for_ 1 n (fips_round w) s.
Proof.
  intros Hrk A Hs. induction n as [|n IH]; intros Hn; [lia|]. destruct n as [|n]; [by rewrite !for_nil by lia|].
  rewrite !(for_S 1 (S n)), <- IH by lia. assert (Hy : block 16 (for_ 1 (S n) (full_round rk) s)) by by apply rounds_block.
  revert Hy. generalize (for_ 1 (S n) (full_round rk) s). intros y Hy.
  unfold fips_round. rewrite <- last_step_fips, full_round_eq by done. rewrite <- mix_columns_fips by by apply last_step_block.
  apply A; [lia|]. by apply (block_length 16), MixColumns_block, last_step_block.
Qed.

(** C5: The code is AES: for each key size and every key, its table-driven
    cipher, with the round keys its schedule leaves in the buffer, maps every
    block to what FIPS 197 defines. *)
Theorem aes_implements_fips197 key_size key x :
  let '(Nk, Nr) := aes_params_for_key_size key_size in
  block (4 * Nk) key -> block 16 x ->
  Cipher x (KeyExpansion (replicate AES_ROUND_KEY_BYTES 0) key Nk Nr) Nr = fips_cipher Nk Nr key x.
Proof.
  destruct (aes_params_for_key_size key_size) as [Nk Nr] eqn:Ep. intros Hkey Hx.
  assert (HNk : In (Nk, Nr) [(4, 10); (6, 12); (8, 14)]%nat) by (destruct key_size; injection Ep as <- <-; cbn; tauto).
  assert (HNr : (1 <= Nr <= 255)%nat) by (clear -HNk; destruct HNk as [[= <- <-]|[[= <- <-]|[[= <- <-]|[]]]]; lia).
  pose proof (KeyExpansion_sched Nk Nr key HNk Hkey _ (block_zero 240)) as S.
  change AES_ROUND_KEY_BYTES with 240%nat. revert S. generalize (KeyExpansion (replicate 240 0) key Nk Nr). intros rk S.
  assert (Hrk : Forall (fun x => is_byte x) rk) by apply S.
  pose proof (fun r s => add_round_key_fips Nk Nr key rk r s S) as A. unfold fips_cipher.
  set (w := fips_words Nk key (4 * (Nr + 1))) in *. rewrite Cipher_eq by done.
  assert (H0 : block 16 (AddRoundKey 0 x rk)) by by apply AddRoundKey_block.
  rewrite <- (A 0%nat x) by (lia || apply Hx). rewrite <- (rounds_fips rk w Nr _ Nr Hrk A H0) by lia.
  assert (G : block 16 (for_ 1 Nr (full_round rk) (AddRoundKey 0 x rk))) by by apply rounds_block.
  rewrite <- last_step_fips by done. apply A; [lia|]. by apply (block_length 16), last_step_block.
Qed.

Lemma aes_implements_fips197_witness :
  Cipher (replicate 16 0) (KeyExpansion (replicate AES_ROUND_KEY_BYTES 0) (replicate 24 0) 6 12) 12
  = fips_cipher 6 12 (replicate 24 0) (replicate 16 0).
Proof. exact (aes_implements_fips197 DSD_AES_KEY_192 (replicate 24 0) (replicate 16 0) (block_zero 24) (block_zero 16)). Defined.
