(* ===== verification/Des.v ===== *)
(** * [crypto/crypt-des.c]: DES, triple DES and DES-XL

    The cipher works on arrays of bytes, whose bits are counted from the most
    significant bit of the first byte: permutations copy bit by bit with an
    or into a cleared array, the key halves are rotated through their bytes, and
    the eight substitution tables give their four bits already in place.  On it
    stand the key streams: output feedback with one or three keys, and one bit
    per encryption of a shift register. *)
From Stdlib Require Import ZifyNat.
From S2P Require Import Prelude BlockCipher.

Definition SLUT1 : list Z := [
  0xE0; 0x00; 0x40; 0xF0; 0xD0; 0x70; 0x10; 0x40; 0x20; 0xE0; 0xF0; 0x20; 0xB0; 0xD0; 0x80; 0x10; 0x30; 0xA0;
   0xA0; 0x60; 0x60; 0xC0; 0xC0; 0xB0; 0x50; 0x90; 0x90; 0x50; 0x00; 0x30; 0x70; 0x80; 0x40; 0xF0; 0x10; 0xC0;
   0xE0; 0x80; 0x80; 0x20; 0xD0; 0x40; 0x60; 0x90; 0x20; 0x10; 0xB0; 0x70; 0xF0; 0x50; 0xC0; 0xB0; 0x90; 0x30;
   0x70; 0xE0; 0x30; 0xA0; 0xA0; 0x00; 0x50; 0x60; 0x00; 0xD0].
Definition SLUT2 : list Z := [
  0x0F; 0x03; 0x01; 0x0D; 0x08; 0x04; 0x0E; 0x07; 0x06; 0x0F; 0x0B; 0x02; 0x03; 0x08; 0x04; 0x0E; 0x09; 0x0C;
   0x07; 0x00; 0x02; 0x01; 0x0D; 0x0A; 0x0C; 0x06; 0x00; 0x09; 0x05; 0x0B; 0x0A; 0x05; 0x00; 0x0D; 0x0E; 0x08;
   0x07; 0x0A; 0x0B; 0x01; 0x0A; 0x03; 0x04; 0x0F; 0x0D; 0x04; 0x01; 0x02; 0x05; 0x0B; 0x08; 0x06; 0x0C; 0x07;
   0x06; 0x0C; 0x09; 0x00; 0x03; 0x05; 0x02; 0x0E; 0x0F; 0x09].
Definition SLUT3 : list Z := [
  0xA0; 0xD0; 0x00; 0x70; 0x90; 0x00; 0xE0; 0x90; 0x60; 0x30; 0x30; 0x40; 0xF0; 0x60; 0x50; 0xA0; 0x10; 0x20;
   0xD0; 0x80; 0xC0; 0x50; 0x70; 0xE0; 0xB0; 0xC0; 0x40; 0xB0; 0x20; 0xF0; 0x80; 0x10; 0xD0; 0x10; 0x60; 0xA0;
   0x40; 0xD0; 0x90; 0x00; 0x80; 0x60; 0xF0; 0x90; 0x30; 0x80; 0x00; 0x70; 0xB0; 0x40; 0x10; 0xF0; 0x20; 0xE0;
   0xC0; 0x30; 0x50; 0xB0; 0xA0; 0x50; 0xE0; 0x20; 0x70; 0xC0].
Definition SLUT4 : list Z := [
  0x07; 0x0D; 0x0D; 0x08; 0x0E; 0x0B; 0x03; 0x05; 0x00; 0x06; 0x06; 0x0F; 0x09; 0x00; 0x0A; 0x03; 0x01; 0x04;
   0x02; 0x07; 0x08; 0x02; 0x05; 0x0C; 0x0B; 0x01; 0x0C; 0x0A; 0x04; 0x0E; 0x0F; 0x09; 0x0A; 0x03; 0x06; 0x0F;
   0x09; 0x00; 0x00; 0x06; 0x0C; 0x0A; 0x0B; 0x01; 0x07; 0x0D; 0x0D; 0x08; 0x0F; 0x09; 0x01; 0x04; 0x03; 0x05;
   0x0E; 0x0B; 0x05; 0x0C; 0x02; 0x07; 0x08; 0x02; 0x04; 0x0E].
Definition SLUT5 : list Z := [
  0x20; 0xE0; 0xC0; 0xB0; 0x40; 0x20; 0x10; 0xC0; 0x70; 0x40; 0xA0; 0x70; 0xB0; 0xD0; 0x60; 0x10; 0x80; 0x50;
   0x50; 0x00; 0x30; 0xF0; 0xF0; 0xA0; 0xD0; 0x30; 0x00; 0x90; 0xE0; 0x80; 0x90; 0x60; 0x40; 0xB0; 0x20; 0x80;
   0x10; 0xC0; 0xB0; 0x70; 0xA0; 0x10; 0xD0; 0xE0; 0x70; 0x20; 0x80; 0xD0; 0xF0; 0x60; 0x90; 0xF0; 0xC0; 0x00;
   0x50; 0x90; 0x60; 0xA0; 0x30; 0x40; 0x00; 0x50; 0xE0; 0x30].
Definition SLUT6 : list Z := [
  0x0C; 0x0A; 0x01; 0x0F; 0x0A; 0x04; 0x0F; 0x02; 0x09; 0x07; 0x02; 0x0C; 0x06; 0x09; 0x08; 0x05; 0x00; 0x06;
   0x0D; 0x01; 0x03; 0x0D; 0x04; 0x0E; 0x0E; 0x00; 0x07; 0x0B; 0x05; 0x03; 0x0B; 0x08; 0x09; 0x04; 0x0E; 0x03;
   0x0F; 0x02; 0x05; 0x0C; 0x02; 0x09; 0x08; 0x05; 0x0C; 0x0F; 0x03; 0x0A; 0x07; 0x0B; 0x00; 0x0E; 0x04; 0x01;
   0x0A; 0x07; 0x01; 0x06; 0x0D; 0x00; 0x0B; 0x08; 0x06; 0x0D].
Definition SLUT7 : list Z := [
  0x40; 0xD0; 0xB0; 0x00; 0x20; 0xB0; 0xE0; 0x70; 0xF0; 0x40; 0x00; 0x90; 0x80; 0x10; 0xD0; 0xA0; 0x30; 0xE0;
   0xC0; 0x30; 0x90; 0x50; 0x70; 0xC0; 0x50; 0x20; 0xA0; 0xF0; 0x60; 0x80; 0x10; 0x60; 0x10; 0x60; 0x40; 0xB0;
   0xB0; 0xD0; 0xD0; 0x80; 0xC0; 0x10; 0x30; 0x40; 0x70; 0xA0; 0xE0; 0x70; 0xA0; 0x90; 0xF0; 0x50; 0x60; 0x00;
   0x80; 0xF0; 0x00; 0xE0; 0x50; 0x20; 0x90; 0x30; 0x20; 0xC0].
Definition SLUT8 : list Z := [
  0x0D; 0x01; 0x02; 0x0F; 0x08; 0x0D; 0x04; 0x08; 0x06; 0x0A; 0x0F; 0x03; 0x0B; 0x07; 0x01; 0x04; 0x0A; 0x0C;
   0x09; 0x05; 0x03; 0x06; 0x0E; 0x0B; 0x05; 0x00; 0x00; 0x0E; 0x0C; 0x09; 0x07; 0x02; 0x07; 0x02; 0x0B; 0x01;
   0x04; 0x0E; 0x01; 0x07; 0x09; 0x04; 0x0C; 0x0A; 0x0E; 0x08; 0x02; 0x0D; 0x00; 0x0F; 0x06; 0x0C; 0x0A; 0x09;
   0x0D; 0x00; 0x0F; 0x03; 0x03; 0x05; 0x05; 0x06; 0x08; 0x0B].

Definition initial_register_permutation : list Z := [
  58; 50; 42; 34; 26; 18; 10; 2; 60; 52; 44; 36; 28; 20; 12; 4; 62; 54; 46; 38; 30; 22; 14; 6; 64; 56; 48; 40;
   32; 24; 16; 8; 57; 49; 41; 33; 25; 17; 9; 1; 59; 51; 43; 35; 27; 19; 11; 3; 61; 53; 45; 37; 29; 21; 13; 5;
   63; 55; 47; 39; 31; 23; 15; 7].
Definition message_expansion : list Z := [
  32; 1; 2; 3; 4; 5; 4; 5; 6; 7; 8; 9; 8; 9; 10; 11; 12; 13; 12; 13; 14; 15; 16; 17; 16; 17; 18; 19; 20; 21;
   20; 21; 22; 23; 24; 25; 24; 25; 26; 27; 28; 29; 28; 29; 30; 31; 32; 1].
Definition right_half_permutation : list Z := [
  16; 7; 20; 21; 29; 12; 28; 17; 1; 15; 23; 26; 5; 18; 31; 10; 2; 8; 24; 14; 32; 27; 3; 9; 19; 13; 30; 6; 22;
   11; 4; 25].
Definition final_register_permutation : list Z := [
  40; 8; 48; 16; 56; 24; 64; 32; 39; 7; 47; 15; 55; 23; 63; 31; 38; 6; 46; 14; 54; 22; 62; 30; 37; 5; 45; 13;
   53; 21; 61; 29; 36; 4; 44; 12; 52; 20; 60; 28; 35; 3; 43; 11; 51; 19; 59; 27; 34; 2; 42; 10; 50; 18; 58; 26;
   33; 1; 41; 9; 49; 17; 57; 25].
Definition pc1_key_permutation : list Z := [
  57; 49; 41; 33; 25; 17; 9; 1; 58; 50; 42; 34; 26; 18; 10; 2; 59; 51; 43; 35; 27; 19; 11; 3; 60; 52; 44; 36;
   63; 55; 47; 39; 31; 23; 15; 7; 62; 54; 46; 38; 30; 22; 14; 6; 61; 53; 45; 37; 29; 21; 13; 5; 28; 20; 12; 4].
Definition pc2_key_permutation : list Z := [
  14; 17; 11; 24; 1; 5; 3; 28; 15; 6; 21; 10; 23; 19; 12; 4; 26; 8; 16; 7; 27; 20; 13; 2; 13; 24; 3; 9; 19; 27;
   2; 12; 23; 17; 5; 20; 16; 21; 11; 28; 6; 25; 18; 14; 22; 8; 1; 4].
Definition key_shift_sizes : list Z := [1; 1; 1; 2; 2; 2; 2; 2; 2; 1; 2; 2; 2; 2; 2; 2; 1].
Definition key_shift_x : list Z := [8; 8; 8; 4].
Definition key_shift_y : list Z := [1; 2; 3; 0].
Definition key_shift_bytes : list Z := [0x80; 0x80; 0x80; 0xC0; 0xC0; 0xC0; 0xC0; 0xC0; 0xC0; 0x80; 0xC0; 0xC0; 0xC0; 0xC0; 0xC0; 0xC0; 0x80].

(** One turn of [permute]: bit [table[i] - 1] of the input goes to bit [i]. *)
Definition permute_step (input table : list Z) (i : nat) (output : list Z) : list Z :=
  let tdiv := (table.[i] - 1) / 8 in
  let tmod := (table.[i] - 1) mod 8 in
  let idiv := (i / 8)%nat in
  let imod := Z.of_nat (i mod 8) in
  let bit := u8 (Z.shiftr (Z.shiftl (Z.land (input.[Z.to_nat tdiv]) (Z.shiftr 0x80 tmod)) tmod) imod) in
  output.[idiv <- Z.lor (output.[idiv]) bit].

Definition permute (input output table : list Z) (start end_ : nat) : list Z :=
  for_ start end_ (permute_step input table) output.

(** ** The key schedule *)

Definition rotate_half (K : list Z) (shift_size shift_byte : Z) : list Z :=
  let sb := map (fun i => Z.land shift_byte (K.[i])) (seq 0 4) in
  for_ 0 4 (fun i K =>
    let x := key_shift_x.[i] in
    let y := Z.to_nat (key_shift_y.[i]) in
    let K := K.[i <- u8 (Z.shiftl (K.[i]) shift_size)] in
    K.[i <- Z.lor (K.[i]) (Z.shiftr (sb.[y]) (x - shift_size))]) K.

(** The two halves are rotated independently. *)
Definition rotate_sub_keys (Kc Kd : list Z) (shift_size shift_byte : Z) : list Z * list Z :=
  (rotate_half Kc shift_size shift_byte, rotate_half Kd shift_size shift_byte).

(** The halves of the permuted key: 28 bits each, from the top of four bytes. *)
Definition key_halves (main_key : list Z) : list Z * list Z :=
  let K := permute main_key (replicate 7 0) pc1_key_permutation 0 56 in
  (map (fun i => K.[i]) (seq 0 3) ++ [Z.land (K.[3%nat]) 0xF0],
   map (fun i => Z.lor (u8 (Z.shiftl (Z.land (K.[(i + 3)%nat]) 0x0F) 4)) (Z.shiftr (Z.land (K.[(i + 4)%nat]) 0xF0) 4)) (seq 0 3)
     ++ [u8 (Z.shiftl (Z.land (K.[6%nat]) 0x0F) 4)]).

(** One turn: the halves and the round keys so far. *)
Definition round_key_step (i : nat) (st : (list Z * list Z) * list (list Z)) : (list Z * list Z) * list (list Z) :=
  let '((Kc, Kd), Ks) := st in
  let '(Kc, Kd) := rotate_sub_keys Kc Kd (key_shift_sizes.[S i]) (key_shift_bytes.[S i]) in
  let row := permute Kc (replicate 7 0) pc2_key_permutation 0 24 in
  let row := permute Kd row pc2_key_permutation 24 48 in
  ((Kc, Kd), Ks ++ [row]).

Definition des_prepare_round_keys (main_key : list Z) : list (list Z) :=
  snd (for_ 0 16 round_key_step (key_halves main_key, [])).

(** ** The cipher *)

(** The right half through expansion, key, substitution and permutation. *)
Definition des_round_function (right_ K : list Z) : list Z :=
  let exp := permute right_ (replicate 6 0) message_expansion 0 48 in
  let exp := for_ 0 6 (fun i exp => exp.[i <- Z.lxor (exp.[i]) (K.[i])]) exp in
  let e := fun i => exp.[i] in
  let e1 := Z.shiftr (e 0%nat) 2 in
  let e2 := Z.lor (Z.shiftl (Z.land (e 0%nat) 0x3) 4) (Z.shiftr (e 1%nat) 4) in
  let e3 := Z.lor (Z.shiftl (Z.land (e 1%nat) 0xF) 2) (Z.shiftr (e 2%nat) 6) in
  let e4 := Z.land (e 2%nat) 0x3F in
  let e5 := Z.shiftr (e 3%nat) 2 in
  let e6 := Z.lor (Z.shiftl (Z.land (e 3%nat) 0x3) 4) (Z.shiftr (e 4%nat) 4) in
  let e7 := Z.lor (Z.shiftl (Z.land (e 4%nat) 0xF) 2) (Z.shiftr (e 5%nat) 6) in
  let e8 := Z.land (e 5%nat) 0x3F in
  let sel := [Z.lor (SLUT1.[Z.to_nat e1]) (SLUT2.[Z.to_nat e2]); Z.lor (SLUT3.[Z.to_nat e3]) (SLUT4.[Z.to_nat e4]);
              Z.lor (SLUT5.[Z.to_nat e5]) (SLUT6.[Z.to_nat e6]); Z.lor (SLUT7.[Z.to_nat e7]) (SLUT8.[Z.to_nat e8])] in
  permute sel (replicate 4 0) right_half_permutation 0 32.

Definition des_round (K : list Z) (halves : list Z * list Z) : list Z * list Z :=
  let '(left_, right_) := halves in
  let rperm := des_round_function right_ K in
  let rperm := for_ 0 4 (fun i rperm => rperm.[i <- Z.lxor (rperm.[i]) (left_.[i])]) rperm in
  (right_, rperm).

(** [de] is 1 to encrypt.  The result is or-ed into [output_register]. *)
Definition des_cipher (main_key input_register output_register : list Z) (de : Z) : list Z :=
  let Ks := des_prepare_round_keys main_key in
  let initial_permutation := permute input_register (replicate 8 0) initial_register_permutation 0 64 in
  let '(left_, right_) :=
    for_ 0 16 (fun f => des_round (nth (if de =? 1 then f else (15 - f)%nat) Ks []))
      (take 4 initial_permutation, drop 4 initial_permutation) in
  permute (right_ ++ left_) output_register final_register_permutation 0 64.

(** ** The key streams *)

Definition des56_ofb_keystream_output (main_key iv ks_bytes : list Z) (de : Z) (nblocks : nat) : list Z :=
  snd (for_ 0 nblocks (fun i '(input_register, ks_bytes) =>
         let output_register := des_cipher main_key input_register (replicate 8 0) de in
         (output_register, blit ks_bytes (i * 8) output_register)) (take 8 iv, ks_bytes)).

(** The register, the direction flag and the key stream. *)
Definition tdea_step (K1 K2 K3 : list Z) (i : nat) (st : list Z * Z * list Z) : list Z * Z * list Z :=
  let '(input_register, de, ks_bytes) := st in
  let input_register := des_cipher K1 input_register (replicate 8 0) de in
  let de := Z.land (Z.lxor de 1) 1 in
  let input_register := des_cipher K2 input_register (replicate 8 0) de in
  let de := Z.land (Z.lxor de 1) 1 in
  let input_register := des_cipher K3 input_register (replicate 8 0) de in
  (input_register, de, blit ks_bytes (i * 8) input_register).

Definition tdea_tofb_keystream_output_bytes (K1 K2 K3 iv ks_bytes : list Z) (de : Z) (nblocks : nat) : list Z :=
  snd (for_ 0 nblocks (tdea_step K1 K2 K3) (take 8 iv, de, ks_bytes)).

(** Eight bytes of a 64-bit word, most significant first. *)
Definition u64_bytes (v : Z) : list Z := map (fun i => u8 (Z.shiftr v (8 * (7 - Z.of_nat i)))) (seq 0 8).

Definition ca_fb (lfsr : Z) : Z :=
  Z.land (Z.lxor (Z.lxor (Z.lxor (Z.lxor (Z.lxor (Z.shiftr lfsr 63) (Z.shiftr lfsr 61)) (Z.shiftr lfsr 45))
    (Z.shiftr lfsr 37)) (Z.shiftr lfsr 26)) (Z.shiftr lfsr 14)) 1.

Definition ca_word (iv : list Z) : Z :=
  u64 (Z.shiftl (iv.[0%nat]) 56 + Z.shiftl (iv.[1%nat]) 48 + Z.shiftl (iv.[2%nat]) 40 + Z.shiftl (iv.[3%nat]) 32
       + Z.shiftl (iv.[4%nat]) 24 + Z.shiftl (iv.[5%nat]) 16 + Z.shiftl (iv.[6%nat]) 8 + Z.shiftl (iv.[7%nat]) 0).

(** The array with the register's new value. *)
Definition lfsr_64_to_len_ca (iv : list Z) (len : nat) : list Z :=
  let lfsr := for_ 0 len (fun _ lfsr => Z.lor (u64 (Z.shiftl lfsr 1)) (ca_fb lfsr)) (ca_word iv) in
  map (fun i => Z.land (Z.shiftr lfsr (56 - Z.of_nat i * 8)) 0xFF) (seq 0 8).

Definition ca_step (main_key : list Z) (de : Z) (i : nat) (st : list Z * list Z) : list Z * list Z :=
  let '(input_register, ks_bytes) := st in
  let output_register := des_cipher main_key input_register (replicate 8 0) de in
  let b := (i / 8)%nat in
  let ks_bytes := ks_bytes.[b <- u8 (Z.shiftl (ks_bytes.[b]) 1)] in
  let ks_bytes := ks_bytes.[b <- Z.lor (ks_bytes.[b]) (Z.land (Z.shiftr (output_register.[0%nat]) 7) 1)] in
  (lfsr_64_to_len_ca input_register 1, ks_bytes).

Definition des56_ca_keystream_output (main_key iv ks_bytes : list Z) (de : Z) (ff nbits : nat) : list Z :=
  snd (for_ 0 nbits (ca_step main_key de) (lfsr_64_to_len_ca (take 8 iv) ff, ks_bytes)).

(** [(int16_t)x]: the loops count in sixteen bits, the callers in an [int]. *)
Definition int16 (x : Z) : Z := u16 (x + 0x8000) - 0x8000.

Definition des_ofb_keystream_output (mi key_ulli : Z) (output : list Z) (nblocks : Z) : list Z :=
  des56_ofb_keystream_output (u64_bytes key_ulli) (u64_bytes mi) output 1 (Z.to_nat (int16 nblocks)).

Definition tdea_tofb_keystream_output (mi : Z) (key output : list Z) (nblocks : Z) : list Z :=
  tdea_tofb_keystream_output_bytes (take 8 key) (take 8 (drop 8 key)) (take 8 (drop 16 key)) (u64_bytes mi) output 1
    (Z.to_nat (int16 nblocks)).

Definition des_xl_keystream_output (mi key_ulli : Z) (output : list Z) (late_entry : Z) : list Z :=
  let fast_forward := (110 + (if (late_entry =? 0)%Z then 696 else 0))%nat in
  des56_ca_keystream_output (u64_bytes key_ulli) (u64_bytes mi) output 1 fast_forward 1704.

(** ** Arrays of bytes as strings of bits *)

Ltac ndiv := zify; Z.to_euclidean_division_equations; lia.

Definition bit_at (l : list Z) (p : nat) : bool := Z.testbit (l.[(p / 8)%nat]) (7 - Z.of_nat (p mod 8)).

(** The bit permutation of bytes is a permutation of bits. *)
Lemma byte_ext a b : is_byte a -> is_byte b -> (forall k, 0 <= k < 8 -> Z.testbit a k = Z.testbit b k) -> a = b.
Proof.
  intros Ha Hb H. apply Z.bits_inj'. intros k Hk. destruct (Z_lt_ge_dec k 8) as [H8|H8]; [by apply H|].
  by rewrite !(testbit_ge_pow2 8) by (done || lia).
Qed.

Lemma bytes_ext n a b : block n a -> block n b -> (forall p, (p < 8 * n)%nat -> bit_at a p = bit_at b p) -> a = b.
Proof.
  intros Ha Hb H. apply list_eq_nth; [by rewrite (block_length _ _ Ha), (block_length _ _ Hb)|].
  intros i Hi. rewrite (block_length _ _ Ha) in Hi. apply byte_ext; [by eapply block_nth..|]. intros k Hk.
  specialize (H (8 * i + (7 - Z.to_nat k))%nat ltac:(lia)). unfold bit_at in H.
  replace ((8 * i + (7 - Z.to_nat k)) / 8)%nat with i in H by ndiv.
  replace (7 - Z.of_nat ((8 * i + (7 - Z.to_nat k)) mod 8)) with k in H by ndiv. done.
Qed.

Lemma bit_at_app n a b p : length a = n -> bit_at (a ++ b) p = if decide (p < 8 * n)%nat then bit_at a p else bit_at b (p - 8 * n).
Proof.
  intros L. unfold bit_at. destruct (decide _) as [Hp|Hp]; [by rewrite app_nth1 by (rewrite L; ndiv)|].
  rewrite app_nth2 by (rewrite L; ndiv). rewrite L.
  replace ((p - 8 * n) / 8)%nat with (p / 8 - n)%nat by ndiv. by replace ((p - 8 * n) mod 8)%nat with (p mod 8)%nat by ndiv.
Qed.

Lemma bit_at_zero n p : bit_at (replicate n 0) p = false.
Proof. unfold bit_at. rewrite nth_replicate. apply Z.bits_0. Qed.

Lemma bit_at_xor n a b p : length a = n -> length b = n -> bit_at (xor_block a b) p = xorb (bit_at a p) (bit_at b p).
Proof. intros <- L. unfold bit_at. by rewrite xor_block_nth, Z.lxor_spec. Qed.

Lemma bit_at_take n l p : (p < 8 * n)%nat -> bit_at (take n l) p = bit_at l p.
Proof. intros H. unfold bit_at. by rewrite nth_take by ndiv. Qed.

Lemma bit_at_drop n l p : bit_at (drop n l) p = bit_at l (8 * n + p).
Proof.
  unfold bit_at. rewrite nth_drop. replace ((8 * n + p) / 8)%nat with (n + p / 8)%nat by ndiv.
  by replace ((8 * n + p) mod 8)%nat with (p mod 8)%nat by ndiv.
Qed.

Lemma byte_u8 x : is_byte (u8 x).
Proof. apply (Z.mod_pos_bound x 256). lia. Qed.

Lemma byte_lor a b : is_byte a -> is_byte b -> is_byte (Z.lor a b).
Proof.
  intros Ha Hb. assert (0 <= Z.lor a b) by (apply Z.lor_nonneg; lia). split; [done|]. apply (lt_pow2_testbit 8); [lia|done|].
  intros i Hi. by rewrite Z.lor_spec, !(testbit_ge_pow2 8) by (done || lia).
Qed.

Lemma byte_land a b : is_byte a -> is_byte (Z.land a b).
Proof.
  intros Ha. assert (0 <= Z.land a b) by (apply Z.land_nonneg; lia). split; [done|]. apply (lt_pow2_testbit 8); [lia|done|].
  intros i Hi. by rewrite Z.land_spec, (testbit_ge_pow2 8) by (done || lia).
Qed.

Lemma u8_testbit x k : 0 <= k < 8 -> Z.testbit (u8 x) k = Z.testbit x k.
Proof. intros Hk. unfold u8, wrap. by rewrite Z.mod_pow2_bits_low by lia. Qed.

(** The masked bit, moved from place [7 - m] to place [7 - n]. *)
Lemma moved_bit x m n k : 0 <= m < 8 -> 0 <= n < 8 -> 0 <= k < 8 ->
  Z.testbit (u8 (Z.shiftr (Z.shiftl (Z.land x (Z.shiftr 0x80 m)) m) n)) k = (7 - n =? k) && Z.testbit x (7 - m).
Proof.
  intros Hm Hn Hk. rewrite u8_testbit, Z.shiftr_spec by lia.
  assert (Em : Z.shiftr 0x80 m = 2 ^ (7 - m)).
  { rewrite Z.shiftr_div_pow2 by lia. change 0x80 with (2 ^ 7). rewrite <- Z.pow_sub_r by lia. done. }
  rewrite Em. destruct (Z_lt_ge_dec (k + n) m) as [Hlt|Hge].
  { rewrite Z.shiftl_spec_low by lia. by destruct (Z.eqb_spec (7 - n) k); [lia|]. }
  rewrite Z.shiftl_spec, Z.land_spec, Z.pow2_bits_eqb by lia.
  destruct (Z.eqb_spec (7 - n) k) as [Ek|Ek].
  - replace (k + n - m) with (7 - m) by lia. rewrite Z.eqb_refl. apply andb_true_r.
  - destruct (Z.eqb_spec (7 - m) (k + n - m)); [lia|]. apply andb_false_r.
Qed.

Section Permute.
Context (input table : list Z) (n : nat).
Implicit Types (output : list Z) (p i : nat).

Definition from_table (p : nat) : nat := Z.to_nat (table.[p] - 1).

Lemma permute_step_length i output : length (permute_step input table i output) = length output.
Proof. apply length_insert. Qed.

Lemma permute_step_block i output : block n output -> block n (permute_step input table i output).
Proof.
  intros [L B]. split; [by rewrite permute_step_length|]. apply Forall_insert; [done|].
  apply byte_lor; [by apply (block_nth n)|apply byte_u8].
Qed.

Lemma permute_step_bit i output p : length output = n -> (i < 8 * n)%nat -> 0 < table.[i] ->
  bit_at (permute_step input table i output) p = bit_at output p || (bool_decide (p = i) && bit_at input (from_table i)).
Proof.
  intros L Hi Ht. unfold permute_step, bit_at, from_table. cbv zeta.
  replace (Z.to_nat ((table.[i] - 1) / 8)) with (Z.to_nat (table.[i] - 1) / 8)%nat by ndiv.
  replace ((table.[i] - 1) mod 8) with (Z.of_nat (Z.to_nat (table.[i] - 1) mod 8)) by ndiv.
  set (q := Z.to_nat (table.[i] - 1)). rewrite nth_insert. destruct (decide _) as [[E _]|E].
  - rewrite Z.lor_spec, moved_bit by ndiv. rewrite E. do 2 f_equal. destruct (bool_decide_reflect (p = i)); [subst; lia|].
    destruct (Z.eqb_spec (7 - Z.of_nat (i mod 8)) (7 - Z.of_nat (p mod 8))); [ndiv|done].
  - rewrite bool_decide_eq_false_2; [by rewrite orb_false_r|]. intros ->. apply E. rewrite L. split; [done|ndiv].
Qed.

Lemma permute_length output a b : length (permute input output table a b) = length output.
Proof. apply (for_inv (fun o => length o = length output)); [done|]. intros i o _ <-. apply permute_step_length. Qed.

Lemma permute_block output a b : block n output -> block n (permute input output table a b).
Proof. intros H. apply (for_inv (block n)); [done|]. intros. by apply permute_step_block. Qed.

(** What [permute] does to the bits: those of the range are or-ed in from where
    the table says, the others stay. *)
Lemma permute_bit output a b p : length output = n -> (a <= b <= 8 * n)%nat ->
  forallb (fun t => 0 <? t) (take (b - a) (drop a table)) = true -> (b <= length table)%nat ->
  bit_at (permute input output table a b) p
  = bit_at output p || (bool_decide (a <= p < b)%nat && bit_at input (from_table p)).
Proof.
  intros L [Hab Hb] Ht Hlen. rewrite forallb_forall in Ht.
  enough (H : forall m, (a <= m <= b)%nat -> bit_at (permute input output table a m) p
            = bit_at output p || (bool_decide (a <= p < m)%nat && bit_at input (from_table p))) by (apply H; lia).
  intros m [Hm1 Hm2]. unfold permute. induction Hm1 as [|m Hm1 IH].
  { rewrite for_nil by done. rewrite bool_decide_eq_false_2 by lia. by rewrite orb_false_r. }
  rewrite for_S by done. fold (permute input output table a m). fold (permute input output table a m) in IH.
  assert (Htm : 0 < table.[m]).
  { apply Z.ltb_lt, Ht. replace (table.[m]) with ((take (b - a) (drop a table)).[(m - a)%nat]) by (rewrite drop_take_nth by lia; f_equal; lia).
    apply nth_In. rewrite length_take, length_drop. lia. }
  rewrite permute_step_bit by (rewrite ?permute_length; done || lia). rewrite IH by lia.
  destruct (bool_decide_reflect (p = m)) as [->|Hne].
  - rewrite bool_decide_eq_false_2, bool_decide_eq_true_2 by lia. by rewrite orb_false_r.
  - rewrite orb_false_r. f_equal. f_equal. apply bool_decide_ext. lia.
Qed.
End Permute.

(** Into a cleared array, with the whole of it covered. *)
Lemma permute_all input table n p : length table = (8 * n)%nat -> forallb (fun t => 0 <? t) table = true -> (p < 8 * n)%nat ->
  bit_at (permute input (replicate n 0) table 0 (8 * n)) p = bit_at input (from_table table p).
Proof.
  intros L Ht Hp. rewrite (permute_bit _ _ n); [|by rewrite length_replicate|lia|by rewrite drop_0, take_ge by lia|lia].
  by rewrite bit_at_zero, bool_decide_eq_true_2 by lia.
Qed.

Lemma permute_zero_block input table n a b : block n (permute input (replicate n 0) table a b).
Proof. apply permute_block, block_zero. Qed.

#[export] Hint Resolve permute_zero_block block_zero : dsd.

(** ** The rounds *)

Lemma des_round_function_block r k : block 4 (des_round_function r k).
Proof. apply permute_zero_block. Qed.

Lemma xor_loop n a b : length a = n -> length b = n -> for_ 0 n (fun i a => a.[i <- Z.lxor (a.[i]) (b.[i])]) a = xor_block a b.
Proof.
  intros La Lb. destruct (for_update n (fun i x => Z.lxor x (b.[i])) a ltac:(lia)) as [H1 H2].
  apply list_eq_nth; [by rewrite H1, (xor_block_length n)|]. intros i Hi. rewrite H1 in Hi. rewrite H2.
  rewrite decide_True by lia. symmetry. by apply xor_block_nth; rewrite La, Lb.
Qed.

Lemma des_round_feistel k x : halves_ok 4 x -> des_round k x = feistel_step des_round_function k x.
Proof.
  destruct x as [l r]. intros [Hl Hr]. cbn [des_round feistel_step]. f_equal.
  apply (xor_loop 4); [apply (block_length 4), des_round_function_block|apply Hl].
Qed.

(** The key of round [f] in the direction [de]. *)
Definition round_key (main_key : list Z) (de : Z) (f : nat) : list Z :=
  nth (if de =? 1 then f else (15 - f)%nat) (des_prepare_round_keys main_key) [].

Definition des_rounds (main_key : list Z) (de : Z) (x : list Z * list Z) : list Z * list Z :=
  for_ 0 16 (fun f => feistel_step des_round_function (round_key main_key de f)) x.

Lemma feistel_rounds main_key de x m : halves_ok 4 x ->
  halves_ok 4 (for_ 0 m (fun f => feistel_step des_round_function (round_key main_key de f)) x).
Proof. intros H. apply feistel_ok; [|done]. intros. apply des_round_function_block. Qed.

Lemma des_rounds_eq main_key de x : halves_ok 4 x ->
  for_ 0 16 (fun f => des_round (nth (if de =? 1 then f else (15 - f)%nat) (des_prepare_round_keys main_key) [])) x
  = des_rounds main_key de x.
Proof.
  intros H. unfold des_rounds. generalize 16%nat as m. induction m as [|m IH]; [done|]. rewrite !for_S, IH by lia.
  apply des_round_feistel. by apply feistel_rounds.
Qed.

Lemma des_rounds_ok main_key de x : halves_ok 4 x -> halves_ok 4 (des_rounds main_key de x).
Proof. intros H. unfold des_rounds. by apply feistel_rounds. Qed.

Lemma des_rounds_undo main_key x : halves_ok 4 x ->
  des_rounds main_key 0 (swap (des_rounds main_key 1 x)) = swap x /\ des_rounds main_key 1 (swap (des_rounds main_key 0 x)) = swap x.
Proof.
  intros H. unfold des_rounds.
  split; apply (feistel_reverse 4); [intros; apply des_round_function_block|done| |intros; apply des_round_function_block|done|];
    intros f Hf; unfold round_key; change (0 =? 1) with false; change (1 =? 1) with true; cbv iota; f_equal; lia.
Qed.

(** ** The cipher *)

Definition initial_halves (x : list Z) : list Z * list Z :=
  let y := permute x (replicate 8 0) initial_register_permutation 0 64 in (take 4 y, drop 4 y).
Definition final_block (x : list Z * list Z) : list Z := permute (snd x ++ fst x) (replicate 8 0) final_register_permutation 0 64.

Lemma initial_halves_ok x : halves_ok 4 (initial_halves x).
Proof. apply (block_take_drop 4 4). apply permute_zero_block. Qed.

Lemma final_block_ok x : block 8 (final_block x).
Proof. apply permute_zero_block. Qed.

Lemma des_cipher_eq main_key x de : des_cipher main_key x (replicate 8 0) de = final_block (des_rounds main_key de (initial_halves x)).
Proof.
  unfold des_cipher. cbv zeta. fold (initial_halves x). rewrite des_rounds_eq by apply initial_halves_ok. unfold final_block.
  by destruct (des_rounds main_key de (initial_halves x)).
Qed.

(** The last permutation undoes the first, on either side. *)
Lemma initial_final y : block 8 y ->
  permute (permute y (replicate 8 0) final_register_permutation 0 64) (replicate 8 0) initial_register_permutation 0 64 = y /\
  permute (permute y (replicate 8 0) initial_register_permutation 0 64) (replicate 8 0) final_register_permutation 0 64 = y.
Proof.
  assert (H : forall t t' , length t = 64%nat -> length t' = 64%nat -> forallb (fun t => 0 <? t) t = true ->
    forallb (fun t => 0 <? t) t' = true ->
    forallb (fun p => (from_table t (from_table t' p) =? p)%nat && (from_table t' p <? 64)%nat) (seq 0 64) = true ->
    block 8 y -> permute (permute y (replicate 8 0) t 0 64) (replicate 8 0) t' 0 64 = y).
  { intros t t' L L' P P' T By. apply (bytes_ext 8); [apply permute_zero_block|done|]. intros p Hp.
    pose proof (check_nat _ _ T p Hp) as Tp. apply andb_true_iff in Tp as [E%Nat.eqb_eq R%Nat.ltb_lt].
    rewrite (permute_all _ _ 8), (permute_all _ _ 8) by done. by rewrite E. }
  intros Hy. split; by apply H.
Qed.

Lemma initial_final_halves x : halves_ok 4 x -> initial_halves (final_block x) = swap x.
Proof.
  destruct x as [l r]. intros [Hl Hr]. unfold initial_halves, final_block. cbn [fst snd] in *.
  destruct (initial_final (r ++ l)) as [-> _]; [by apply (block_app 4 4)|].
  rewrite take_app_length', drop_app_length' by (symmetry; by apply block_length). done.
Qed.

Lemma final_initial_halves x : block 8 x -> final_block (swap (initial_halves x)) = x.
Proof.
  intros H. unfold final_block, initial_halves, swap. cbn [fst snd]. rewrite take_drop. by apply initial_final.
Qed.

(** ** DES as a block cipher *)

#[local] Opaque des_cipher des_rounds.

Definition des_encrypt (key x : list Z) : list Z := des_cipher key x (replicate 8 0) 1.
Definition des_decrypt (key x : list Z) : list Z := des_cipher key x (replicate 8 0) 0.

Lemma des_cipher_block key x de : block 8 (des_cipher key x (replicate 8 0) de).
Proof. rewrite des_cipher_eq. apply final_block_ok. Qed.

Lemma des_undo key x de de' : block 8 x -> (de = 1 /\ de' = 0 \/ de = 0 /\ de' = 1) ->
  des_cipher key (des_cipher key x (replicate 8 0) de) (replicate 8 0) de' = x.
Proof.
  intros Hx Hde. rewrite !des_cipher_eq. set (h := initial_halves x). pose proof (initial_halves_ok x) as Hh. fold h in Hh.
  rewrite initial_final_halves by (exact (des_rounds_ok key de h Hh)).
  assert (E : des_rounds key de' (swap (des_rounds key de h)) = swap h)
    by (destruct Hde as [[-> ->]|[-> ->]]; [exact (proj1 (des_rounds_undo key h Hh))|exact (proj2 (des_rounds_undo key h Hh))]).
  rewrite E. by apply final_initial_halves.
Qed.

#[export, program] Instance des : BlockCipher (list Z) := {
  valid_key k := block 8 k;
  block_len := 8%nat;
  encrypt := des_encrypt;
  decrypt := des_decrypt
}.
Next Obligation. intros k x _ _. apply des_cipher_block. Qed.
Next Obligation. intros k x _ _. apply des_cipher_block. Qed.
Next Obligation. intros k x _ Hx. apply des_undo; auto. Qed.
Next Obligation. intros k x _ Hx. apply des_undo; auto. Qed.

Lemma u64_bytes_block v : block 8 (u64_bytes v).
Proof. split; [done|]. apply Forall_fmap, Forall_true. intros i. apply byte_u8. Qed.

#[export] Hint Resolve u64_bytes_block : dsd.
