(* ===== verification/DesModes.v ===== *)
(** * [crypto/crypt-des.c]: what the key streams are

    The block cipher undoes itself; output feedback with one key and with three
    is the output feedback of [BlockCipher] over DES and over triple DES; DES-XL
    gives one bit for each state of the 64-bit register of [Lfsr]. *)
From Stdlib Require Import ZifyNat.
From S2P Require Import Prelude BlockCipher Lfsr Des.

#[local] Opaque des_cipher.

(** ** Output feedback *)

Notation tdes := (triple des).

Lemma des56_ofb key iv ks_bytes n : block 8 key -> block 8 iv -> (n * 8 <= length ks_bytes)%nat ->
  des56_ofb_keystream_output key iv ks_bytes 1 n = ofb_stream (C := des) key iv n ++ drop (n * 8) ks_bytes.
Proof.
  intros Hk Hi Hn. unfold des56_ofb_keystream_output. rewrite take_ge by (rewrite (block_length _ _ Hi); lia).
  exact (f_equal snd (ofb_loop (C := des) key iv ks_bytes n Hk Hi Hn)).
Qed.

(** The direction flag is flipped twice for each block. *)
Lemma tdea_step_eq K1 K2 K3 i x ks :
  tdea_step K1 K2 K3 i (x, 1, ks) = (encrypt (BlockCipher := tdes) (K1, K2, K3) x, 1, blit ks (i * 8) (encrypt (BlockCipher := tdes) (K1, K2, K3) x)).
Proof. reflexivity. Qed.

Lemma tdea_loop K1 K2 K3 iv ks n :
  for_ 0 n (tdea_step K1 K2 K3) (iv, 1, ks)
  = let '(r, ks) := for_ 0 n (fun i '(r, out) => let r := encrypt (BlockCipher := tdes) (K1, K2, K3) r in (r, blit out (i * 8) r)) (iv, ks) in
    (r, 1, ks).
Proof.
  induction n as [|n IH]; [done|]. rewrite !for_S, IH by lia. destruct (for_ 0 n _ (iv, ks)) as [r out]. apply tdea_step_eq.
Qed.

Lemma tdea_tofb K1 K2 K3 iv ks_bytes n : block 8 K1 -> block 8 K2 -> block 8 K3 -> block 8 iv -> (n * 8 <= length ks_bytes)%nat ->
  tdea_tofb_keystream_output_bytes K1 K2 K3 iv ks_bytes 1 n = ofb_stream (C := tdes) (K1, K2, K3) iv n ++ drop (n * 8) ks_bytes.
Proof.
  intros H1 H2 H3 Hi Hn. unfold tdea_tofb_keystream_output_bytes. rewrite take_ge by (rewrite (block_length _ _ Hi); lia).
  rewrite tdea_loop.
  pose proof (ofb_loop (C := tdes) (K1, K2, K3) iv ks_bytes n (conj H1 (conj H2 H3)) Hi Hn) as E.
  change (block_len (BlockCipher := tdes)) with 8%nat in E. rewrite E. done.
Qed.

Lemma int16_nat n : 0 <= n < 0x8000 -> int16 n = n.
Proof. intros H. unfold int16, u16, wrap. rewrite Z.mod_small by lia. lia. Qed.

Lemma one_key_stream key iv n : block 8 key -> block 8 iv ->
  ofb_stream (C := tdes) (key, key, key) iv n = ofb_stream (C := des) key iv n.
Proof. intros Hk Hi. apply ofb_stream_ext; [done..|]. intros x Hx. by apply (triple_one_key (C := des)). Qed.

(** ** The register of DES-XL *)

Lemma land_ff x : Z.land x 0xFF = u8 x.
Proof. change 0xFF with (Z.ones 8). by rewrite Z.land_ones by lia. Qed.

Lemma u64_bytes_nth v i : (i < 8)%nat -> (u64_bytes v).[i] = v / 2 ^ (8 * (7 - Z.of_nat i)) mod 256.
Proof. intros Hi. unfold u64_bytes. rewrite nth_map_seq by done. rewrite Z.shiftr_div_pow2 by lia. done. Qed.

Lemma byte_digit v k : 0 <= k -> v / 2 ^ k = 256 * (v / 2 ^ (k + 8)) + v / 2 ^ k mod 256.
Proof.
  intros Hk. rewrite Z.pow_add_r, <- Z.div_div by lia. change (2 ^ 8) with 256. apply Z.div_mod. lia.
Qed.

Lemma ca_word_bytes v : 0 <= v < 2 ^ 64 -> ca_word (u64_bytes v) = v.
Proof.
  intros Hv. unfold ca_word. rewrite !u64_bytes_nth, !Z.shiftl_mul_pow2 by lia. unfold u64, wrap.
  pose proof (byte_digit v 0 ltac:(clear; lia)) as D0. pose proof (byte_digit v 8 ltac:(clear; lia)) as D1.
  pose proof (byte_digit v 16 ltac:(clear; lia)) as D2. pose proof (byte_digit v 24 ltac:(clear; lia)) as D3.
  pose proof (byte_digit v 32 ltac:(clear; lia)) as D4. pose proof (byte_digit v 40 ltac:(clear; lia)) as D5.
  pose proof (byte_digit v 48 ltac:(clear; lia)) as D6. pose proof (byte_digit v 56 ltac:(clear; lia)) as D7.
  assert (D8 : v / 2 ^ 64 = 0) by (by apply Z.div_small).
  change (0 + 8) with 8 in D0. change (8 + 8) with 16 in D1. change (16 + 8) with 24 in D2. change (24 + 8) with 32 in D3.
  change (32 + 8) with 40 in D4. change (40 + 8) with 48 in D5. change (48 + 8) with 56 in D6. change (56 + 8) with 64 in D7.
  rewrite D8 in D7. change (2 ^ 0) with 1 in D0. rewrite Z.div_1_r in D0.
  repeat match goal with |- context [2 ^ (8 * (7 - Z.of_nat ?i))] =>
    let e := eval vm_compute in (8 * (7 - Z.of_nat i)) in change (8 * (7 - Z.of_nat i)) with e end.
  change (2 ^ 0) with 1. rewrite Z.div_1_r, Z.mul_1_r. change 18446744073709551616 with (2 ^ 64).
  repeat match goal with |- context [?a mod 256] => generalize dependent (a mod 256); intros end.
  rewrite Z.mod_small by lia. lia.
Qed.

Lemma step64_range v : 0 <= v < 2 ^ 64 -> 0 <= step64 v < 2 ^ 64.
Proof.
  intros Hv. unfold step64. pose proof (Z.mod_pos_bound (Z.shiftl v 1) (2 ^ 64) ltac:(lia)) as Hw.
  assert (Hb : 0 <= fb64 v < 2) by (destruct (fb64_bit v) as [-> | ->]; lia).
  assert (H0 : 0 <= Z.lor (u64 (Z.shiftl v 1)) (fb64 v)) by (apply Z.lor_nonneg; unfold u64, wrap; lia).
  split; [done|]. apply (lt_pow2_testbit 64); [lia|done|]. intros i Hi. rewrite Z.lor_spec.
  rewrite (testbit_ge_pow2 64 (u64 _)) by done. apply (testbit_ge_pow2 1); lia.
Qed.

Lemma iter_step64_range v n : 0 <= v < 2 ^ 64 -> 0 <= Nat.iter n step64 v < 2 ^ 64.
Proof. intros H. induction n as [|n IH]; [done|]. rewrite Nat.iter_succ. by apply step64_range. Qed.

(** The register keeps its word in eight bytes. *)
Lemma lfsr_bytes v n : 0 <= v < 2 ^ 64 -> lfsr_64_to_len_ca (u64_bytes v) n = u64_bytes (Nat.iter n step64 v).
Proof.
  intros Hv. unfold lfsr_64_to_len_ca. rewrite ca_word_bytes by done. change (fun _ lfsr => _) with (fun (_ : nat) => step64).
  rewrite for_iter. apply map_ext_in. intros i Hi. apply in_seq in Hi. rewrite land_ff. do 2 f_equal. lia.
Qed.

(** ** Bits shifted into an array of bytes *)

Definition shift_in (bit : Z) (b : nat) (ks : list Z) : list Z :=
  let ks := ks.[b <- u8 (Z.shiftl (ks.[b]) 1)] in ks.[b <- Z.lor (ks.[b]) bit].

Lemma shift_in_length bit b ks : length (shift_in bit b ks) = length ks.
Proof. unfold shift_in. by rewrite !length_insert. Qed.

Lemma shift_in_bit bit b ks p : is_bit bit -> (b < length ks)%nat ->
  bit_at (shift_in bit b ks) p
  = if decide (p / 8 = b)%nat then (if decide (p mod 8 = 7)%nat then bit =? 1 else bit_at ks (S p)) else bit_at ks p.
Proof.
  intros Hb Hl. unfold shift_in, bit_at. cbv zeta.
  rewrite (nth_insert (_.[b <- _])), length_insert, nth_insert_eq by done.
  destruct (decide (b = p / 8 /\ _)%nat) as [[E _]|E].
  - rewrite decide_True by done. rewrite Z.lor_spec, u8_testbit by ndiv. destruct (decide (p mod 8 = 7)%nat) as [E7|E7].
    + rewrite E7. cbn [Z.of_nat Z.sub]. change (7 - Z.of_nat 7) with 0. rewrite Z.shiftl_spec_low by lia. by destruct Hb as [-> | ->].
    + replace (S p / 8)%nat with b by ndiv. rewrite Z.shiftl_spec by lia.
      replace (7 - Z.of_nat (S p mod 8)) with (7 - Z.of_nat (p mod 8) - 1) by ndiv.
      rewrite (testbit_ge_pow2 1 bit), orb_false_r by (ndiv || (destruct Hb as [-> | ->]; lia)). done.
  - rewrite decide_False by (intros <-; apply E; done). by rewrite nth_insert_ne by (intros ->; by apply E).
Qed.

(** A loop of them fills byte after byte, most significant bit first. *)
Lemma shift_in_loop (f : nat -> Z) ks n : (forall i, is_bit (f i)) -> (n <= 8 * length ks)%nat ->
  let r := for_ 0 n (fun i => shift_in (f i) (i / 8)) ks in
  length r = length ks /\
  forall p, bit_at r p = if decide (8 * (p / 8) + 8 <= n)%nat then f p =? 1
                         else if decide (n <= 8 * (p / 8))%nat then bit_at ks p
                         else if decide (8 <= p mod 8 + n mod 8)%nat then f (p + n mod 8 - 8)%nat =? 1 else bit_at ks (p + n mod 8).
Proof.
  intros Hf Hn r. subst r. induction n as [|n IH].
  { rewrite for_nil by done. split; [done|]. intros p. by repeat destruct (decide _); try lia. }
  rewrite for_S by lia. destruct IH as [IHl IH]; [lia|]. rewrite shift_in_length. split; [done|]. intros p.
  rewrite shift_in_bit by (done || (rewrite IHl; ndiv)).
  destruct (decide (p / 8 = n / 8)%nat) as [E|E].
  - assert (Hd : forall q, (q / 8 = n / 8)%nat -> ~ (8 * (q / 8) + 8 <= n)%nat /\ ~ (n < 8 * (q / 8))%nat) by ndiv.
    destruct (decide (p mod 8 = 7)%nat) as [E7|E7].
    + destruct (decide (n mod 8 = 7)%nat) as [N7|N7].
      * rewrite decide_True by ndiv. by replace p with n by ndiv.
      * rewrite !decide_False by ndiv. rewrite decide_True by ndiv. do 2 f_equal. ndiv.
    + rewrite IH. replace (S p / 8)%nat with (p / 8)%nat by ndiv. rewrite (decide_False (P := (_ <= n)%nat)) by ndiv.
      destruct (decide (n mod 8 = 7)%nat) as [N7|N7].
      * rewrite (decide_True (P := (8 * (p / 8) + 8 <= S n)%nat)) by ndiv. rewrite decide_False by ndiv.
        rewrite decide_True by ndiv. do 2 f_equal. ndiv.
      * rewrite (decide_False (P := (8 * (p / 8) + 8 <= S n)%nat)) by ndiv.
        rewrite (decide_False (P := (S n <= 8 * (p / 8))%nat)) by ndiv.
        destruct (decide (n <= 8 * (p / 8))%nat) as [Z0|Z0].
        -- rewrite decide_False by ndiv. f_equal. ndiv.
        -- destruct (decide (8 <= S p mod 8 + n mod 8)%nat) as [G|G].
           ++ rewrite decide_True by ndiv. do 2 f_equal. ndiv.
           ++ rewrite decide_False by ndiv. f_equal. ndiv.
  - rewrite IH. destruct (decide (8 * (p / 8) + 8 <= n)%nat) as [G|G]; [by rewrite decide_True by ndiv|].
    rewrite (decide_True (P := (n <= 8 * (p / 8))%nat)) by ndiv.
    by rewrite decide_False, decide_True by ndiv.
Qed.

(** ** The output of DES-XL *)

Definition xl_bit (key : list Z) (mi : Z) (i : nat) : Z :=
  Z.land (Z.shiftr ((encrypt (BlockCipher := des) key (u64_bytes (Nat.iter i step64 mi))).[0%nat]) 7) 1.

Lemma xl_bit_spec key mi i : (xl_bit key mi i =? 1) = bit_at (encrypt (BlockCipher := des) key (u64_bytes (Nat.iter i step64 mi))) 0.
Proof.
  unfold xl_bit. generalize (encrypt (BlockCipher := des) key (u64_bytes (Nat.iter i step64 mi))) as l. intros l.
  rewrite shiftr_land1 by lia. change (bit_at l 0) with (Z.testbit (l.[0%nat]) 7). by destruct (Z.testbit (l.[0%nat]) 7).
Qed.

Lemma ca_loop key mi ff ks n : 0 <= mi < 2 ^ 64 ->
  for_ 0 n (ca_step key 1) (u64_bytes (Nat.iter ff step64 mi), ks)
  = (u64_bytes (Nat.iter (n + ff) step64 mi), for_ 0 n (fun i => shift_in (xl_bit key mi (i + ff)) (i / 8)) ks).
Proof.
  intros Hmi. induction n as [|n IH]; [done|]. rewrite !for_S, IH by lia. unfold ca_step. f_equal.
  rewrite (lfsr_bytes _ 1) by by apply iter_step64_range. done.
Qed.

Lemma des_xl_bits mi key_ulli output late_entry : 0 <= mi < 2 ^ 64 -> (213 <= length output)%nat ->
  let out := des_xl_keystream_output mi key_ulli output late_entry in
  let start := if (late_entry =? 0)%Z then 806%nat else 110%nat in
  (forall p, bit_at out p
    = if decide (p < 1704)%nat then bit_at (encrypt (BlockCipher := des) (u64_bytes key_ulli) (u64_bytes (Nat.iter (p + start) step64 mi))) 0
      else bit_at output p) /\
  drop 213 out = drop 213 output.
Proof.
  intros Hmi Hl out start. subst out. unfold des_xl_keystream_output, des56_ca_keystream_output. cbv zeta.
  replace (110 + (if (late_entry =? 0)%Z then 696 else 0))%nat with start by (unfold start; by destruct (late_entry =? 0)%Z).
  rewrite take_ge by (rewrite (block_length 8) by apply u64_bytes_block; lia).
  rewrite lfsr_bytes, ca_loop by done. cbn [snd].
  destruct (shift_in_loop (fun i => xl_bit (u64_bytes key_ulli) mi (i + start)) output 1704) as [H1 H2];
    [intros i; apply land1_bit|lia|]. split.
  2: { apply (for_inv (fun o => drop 213 o = drop 213 output)); [done|]. intros i o Hi <-. unfold shift_in.
    by rewrite !drop_insert_lt by ndiv. }
  intros p. rewrite H2. destruct (decide (p < 1704)%nat) as [Hp|Hp].
  - rewrite decide_True by ndiv. apply xl_bit_spec.
  - rewrite decide_False, decide_True by ndiv. done.
Qed.

(** ** The properties *)

(** Decryption undoes encryption and encryption undoes decryption: with the
    output register cleared, as every caller does, running the sixteen rounds
    with the keys in the other order on the result gives the input, for every
    key and every block. *)
Lemma des_block_roundtrip key x : block 8 x ->
  des_cipher key (des_cipher key x (replicate 8 0) 1) (replicate 8 0) 0 = x /\
  des_cipher key (des_cipher key x (replicate 8 0) 0) (replicate 8 0) 1 = x.
Proof. intros Hx. split; apply des_undo; auto. Qed.

(** C8: The triple DES key stream is the output feedback of
    encrypt-decrypt-encrypt with the three thirds of the key, the buffer behind
    it stays, and with one key three times it is the key stream of single DES. *)
Theorem tdea_single_key mi key key_ulli output nblocks :
  block 24 key -> 0 <= nblocks < 0x8000 -> nblocks * 8 <= Z.of_nat (length output) ->
  let n := Z.to_nat nblocks in
  let third i := take 8 (drop (8 * i) key) in
  tdea_tofb_keystream_output mi key output nblocks
  = ofb_stream (C := triple des) (third 0%nat, third 1%nat, third 2%nat) (u64_bytes mi) n ++ drop (n * 8) output /\
  let one := u64_bytes key_ulli in
  tdea_tofb_keystream_output mi (one ++ one ++ one) output nblocks = des_ofb_keystream_output mi key_ulli output nblocks.
Proof.
  intros Hk Hn Hl n third. pose proof (u64_bytes_block mi) as Hi. pose proof (u64_bytes_block key_ulli) as Hone.
  destruct (block_take_drop 8 16 key Hk) as [H1 H2]. destruct (block_take_drop 8 8 (drop 8 key) H2) as [H3 H4].
  rewrite drop_drop in H4. change (8 + 8)%nat with 16%nat in H4.
  rewrite <- (take_ge (drop 16 key) 8) in H4 by (rewrite (block_length _ _ H4); lia). assert (Hn8 : (n * 8 <= length output)%nat) by lia. cbv zeta.
  unfold tdea_tofb_keystream_output, des_ofb_keystream_output. rewrite int16_nat by done. fold n. split.
  - unfold third. rewrite drop_0. by apply tdea_tofb.
  - set (one := u64_bytes key_ulli) in *. pose proof (block_length _ _ Hone) as L.
    rewrite take_app_length', drop_app_length', take_app_length' by done.
    rewrite (app_assoc one), drop_app_length' by (rewrite length_app; lia).
    rewrite (take_ge one), tdea_tofb, des56_ofb, one_key_stream by (done || lia). done.
Qed.

(** DES-XL gives one bit for each state of the message indicator's 64-bit
    register: bit [p] of the stream is the first bit of the encryption of the
    register [p] steps after the start, which is 806 steps from the indicator,
    110 on late entry; nothing that was in the 213 bytes is left, and nothing
    behind them is touched. *)
Lemma des_xl_keystream mi key_ulli output late_entry : 0 <= mi < 2 ^ 64 -> (213 <= length output)%nat ->
  let out := des_xl_keystream_output mi key_ulli output late_entry in
  let start := if (late_entry =? 0)%Z then 806%nat else 110%nat in
  (forall p, (p < 1704)%nat ->
     bit_at out p = bit_at (des_encrypt (u64_bytes key_ulli) (u64_bytes (Nat.iter (p + start) step64 mi))) 0) /\
  drop 213 out = drop 213 output.
Proof.
  intros Hmi Hl out start. destruct (des_xl_bits mi key_ulli output late_entry Hmi Hl) as [H1 H2]. split; [|exact H2].
  intros p Hp. unfold out. rewrite H1. by rewrite decide_True by done.
Qed.

(** ** The hypotheses hold *)

Definition des_key : Z := 0x133457799BBCDFF1.
Definition des_text : Z := 0x0123456789ABCDEF.

Lemma des_vector : des_cipher (u64_bytes des_key) (u64_bytes des_text) (replicate 8 0) 1 = u64_bytes 0x85E813540F0AB405.
Proof. vm_compute. reflexivity. Qed.

Lemma des_block_roundtrip_witness :
  block 8 (u64_bytes des_text) /\ des_cipher (u64_bytes des_key) (u64_bytes 0x85E813540F0AB405) (replicate 8 0) 0 = u64_bytes des_text.
Proof.
  split; [apply u64_bytes_block|].
  pose proof (proj1 (des_block_roundtrip (u64_bytes des_key) (u64_bytes des_text) (u64_bytes_block _))) as H.
  rewrite des_vector in H. exact H.
Defined.

Lemma tdea_single_key_witness :
  let one := u64_bytes des_key in
  tdea_tofb_keystream_output des_text (one ++ one ++ one) (replicate 17 0xFF) 2 = des_ofb_keystream_output des_text des_key (replicate 17 0xFF) 2.
Proof.
  refine (proj2 (tdea_single_key des_text (replicate 24 0) des_key (replicate 17 0xFF) 2 _ _ _)); [apply block_zero|lia|by rewrite length_replicate].
Defined.

Lemma des_xl_keystream_witness :
  let out := des_xl_keystream_output des_text des_key (replicate 216 0xFF) 0 in
  bit_at out 1703 = bit_at (des_encrypt (u64_bytes des_key) (u64_bytes (Nat.iter 2509 step64 des_text))) 0.
Proof.
  refine (proj1 (des_xl_keystream des_text des_key (replicate 216 0xFF) 0 _ _) 1703%nat _); [|rewrite length_replicate; lia|lia].
  unfold des_text. lia.
Defined.
