(* ===== verification/DesSpec.v ===== *)
(** * The Data Encryption Standard

    FIPS 46 as it is written, on strings of bits numbered from the left: the
    initial permutation and its inverse, sixteen rounds with expansion, key,
    eight selection functions given by row and column, and permutation, and the
    key schedule that rotates two halves of 28 bits.  The theorem of the file:
    the bytes, masks and rearranged tables of [crypto/crypt-des.c] compute it. *)
From Stdlib Require Import ZifyNat Btauto.
From S2P Require Import Prelude BlockCipher Des.

(** ** The standard *)

(** A table lists the places the bits come from, the first place being 1. *)
Definition select (table : list nat) (x : list bool) : list bool := map (fun t => nth (t - 1) x false) table.
Definition xor_bits (x y : list bool) : list bool := zip_with xorb x y.

(** The initial permutation takes every eighth bit, from the last row up. *)
Definition IP : list nat := concat (map (fun r => map (fun c => r - 8 * c)%nat (seq 0 8)) [58; 60; 62; 64; 57; 59; 61; 63]%nat).
Fixpoint position (p : nat) (t : list nat) : nat :=
  match t with [] => O | q :: t => if (q =? p)%nat then O else S (position p t) end.
Definition IP_inverse : list nat := map (fun p => S (position p IP)) (seq 1 64).

(** Six bits for each four, the neighbours at either end. *)
Definition E : list nat := concat (map (fun k => map (fun j => S ((4 * k + j + 31) mod 32)) (seq 0 6)) (seq 0 8)).
Definition P : list nat := [
   16; 7; 20; 21; 29; 12; 28; 17; 1; 15; 23; 26; 5; 18; 31; 10;
   2; 8; 24; 14; 32; 27; 3; 9; 19; 13; 30; 6; 22; 11; 4; 25]%nat.
Definition PC1 : list nat := [
   57; 49; 41; 33; 25; 17; 9; 1; 58; 50; 42; 34; 26; 18; 10; 2; 59; 51; 43; 35; 27; 19; 11; 3; 60; 52; 44; 36;
   63; 55; 47; 39; 31; 23; 15; 7; 62; 54; 46; 38; 30; 22; 14; 6; 61; 53; 45; 37; 29; 21; 13; 5; 28; 20; 12; 4]%nat.
Definition PC2 : list nat := [
   14; 17; 11; 24; 1; 5; 3; 28; 15; 6; 21; 10; 23; 19; 12; 4; 26; 8; 16; 7; 27; 20; 13; 2;
   41; 52; 31; 37; 47; 55; 30; 40; 51; 45; 33; 48; 44; 49; 39; 56; 34; 53; 46; 42; 50; 36; 29; 32]%nat.
Definition left_shifts : list nat := [1; 1; 2; 2; 2; 2; 2; 2; 1; 2; 2; 2; 2; 2; 2; 1]%nat.

(** The selection functions: rows and columns. *)
Definition selection : list (list (list Z)) := [
  [[14; 4; 13; 1; 2; 15; 11; 8; 3; 10; 6; 12; 5; 9; 0; 7];
   [0; 15; 7; 4; 14; 2; 13; 1; 10; 6; 12; 11; 9; 5; 3; 8];
   [4; 1; 14; 8; 13; 6; 2; 11; 15; 12; 9; 7; 3; 10; 5; 0];
   [15; 12; 8; 2; 4; 9; 1; 7; 5; 11; 3; 14; 10; 0; 6; 13]];
  [[15; 1; 8; 14; 6; 11; 3; 4; 9; 7; 2; 13; 12; 0; 5; 10];
   [3; 13; 4; 7; 15; 2; 8; 14; 12; 0; 1; 10; 6; 9; 11; 5];
   [0; 14; 7; 11; 10; 4; 13; 1; 5; 8; 12; 6; 9; 3; 2; 15];
   [13; 8; 10; 1; 3; 15; 4; 2; 11; 6; 7; 12; 0; 5; 14; 9]];
  [[10; 0; 9; 14; 6; 3; 15; 5; 1; 13; 12; 7; 11; 4; 2; 8];
   [13; 7; 0; 9; 3; 4; 6; 10; 2; 8; 5; 14; 12; 11; 15; 1];
   [13; 6; 4; 9; 8; 15; 3; 0; 11; 1; 2; 12; 5; 10; 14; 7];
   [1; 10; 13; 0; 6; 9; 8; 7; 4; 15; 14; 3; 11; 5; 2; 12]];
  [[7; 13; 14; 3; 0; 6; 9; 10; 1; 2; 8; 5; 11; 12; 4; 15];
   [13; 8; 11; 5; 6; 15; 0; 3; 4; 7; 2; 12; 1; 10; 14; 9];
   [10; 6; 9; 0; 12; 11; 7; 13; 15; 1; 3; 14; 5; 2; 8; 4];
   [3; 15; 0; 6; 10; 1; 13; 8; 9; 4; 5; 11; 12; 7; 2; 14]];
  [[2; 12; 4; 1; 7; 10; 11; 6; 8; 5; 3; 15; 13; 0; 14; 9];
   [14; 11; 2; 12; 4; 7; 13; 1; 5; 0; 15; 10; 3; 9; 8; 6];
   [4; 2; 1; 11; 10; 13; 7; 8; 15; 9; 12; 5; 6; 3; 0; 14];
   [11; 8; 12; 7; 1; 14; 2; 13; 6; 15; 0; 9; 10; 4; 5; 3]];
  [[12; 1; 10; 15; 9; 2; 6; 8; 0; 13; 3; 4; 14; 7; 5; 11];
   [10; 15; 4; 2; 7; 12; 9; 5; 6; 1; 13; 14; 0; 11; 3; 8];
   [9; 14; 15; 5; 2; 8; 12; 3; 7; 0; 4; 10; 1; 13; 11; 6];
   [4; 3; 2; 12; 9; 5; 15; 10; 11; 14; 1; 7; 6; 0; 8; 13]];
  [[4; 11; 2; 14; 15; 0; 8; 13; 3; 12; 9; 7; 5; 10; 6; 1];
   [13; 0; 11; 7; 4; 9; 1; 10; 14; 3; 5; 12; 2; 15; 8; 6];
   [1; 4; 11; 13; 12; 3; 7; 14; 10; 15; 6; 8; 0; 5; 9; 2];
   [6; 11; 13; 8; 1; 4; 10; 7; 9; 5; 0; 15; 14; 2; 3; 12]];
  [[13; 2; 8; 4; 6; 15; 11; 1; 10; 9; 3; 14; 5; 0; 12; 7];
   [1; 15; 13; 8; 10; 3; 7; 4; 12; 5; 6; 11; 0; 14; 9; 2];
   [7; 11; 4; 1; 9; 12; 14; 2; 0; 6; 10; 13; 15; 3; 5; 8];
   [2; 1; 14; 7; 4; 10; 8; 13; 15; 12; 9; 0; 3; 5; 6; 11]]].

Definition number (x : list bool) : nat := fold_left (fun (n : nat) (b : bool) => 2 * n + (if b then 1 else 0))%nat x O.

(** The outer bits give the row, the inner ones the column. *)
Definition S_box (k : nat) (x : list bool) : list bool :=
  let row := number [nth 0 x false; nth 5 x false] in
  let col := number [nth 1 x false; nth 2 x false; nth 3 x false; nth 4 x false] in
  let v := (nth row (nth k selection []) []).[col] in
  [Z.testbit v 3; Z.testbit v 2; Z.testbit v 1; Z.testbit v 0].

Definition cipher_function (R K : list bool) : list bool :=
  let x := xor_bits (select E R) K in
  select P (concat (map (fun k => S_box k (take 6 (drop (6 * k) x))) (seq 0 8))).

Definition rotate (n : nat) (x : list bool) : list bool := drop n x ++ take n x.

Fixpoint key_halves_at (key : list bool) (n : nat) : list bool * list bool :=
  match n with
  | O => (take 28 (select PC1 key), drop 28 (select PC1 key))
  | S n => let '(C, D) := key_halves_at key n in
           let s := nth n left_shifts 0%nat in (rotate s C, rotate s D)
  end.

(** The keys [K_1] to [K_16]. *)
Definition subkey (key : list bool) (n : nat) : list bool := let '(C, D) := key_halves_at key n in select PC2 (C ++ D).

Definition round (K : list bool) (x : list bool * list bool) : list bool * list bool :=
  let '(L, R) := x in (R, xor_bits (cipher_function R K) L).

(** The key of the round after [i] rounds is [K_(order i)]. *)
Definition des_standard (key : list bool) (order : nat -> nat) (x : list bool) : list bool :=
  let y := select IP x in
  let '(L, R) := for_ 0 16 (fun i => round (subkey key (order i))) (take 32 y, drop 32 y) in
  select IP_inverse (R ++ L).

Definition enciphering (key : list bool) : list bool -> list bool := des_standard key S.
Definition deciphering (key : list bool) : list bool -> list bool := des_standard key (fun i => 16 - i)%nat.

Example tables : map Z.of_nat IP = initial_register_permutation /\ map Z.of_nat IP_inverse = final_register_permutation /\
  map Z.of_nat E = message_expansion.
Proof. vm_compute. done. Qed.

(** ** Bytes as strings of bits *)

Definition bits_of (n : nat) (l : list Z) : list bool := map (bit_at l) (seq 0 n).

Lemma bits_of_length n l : length (bits_of n l) = n.
Proof. unfold bits_of. by rewrite length_map, length_seq. Qed.

Lemma bits_of_nth n l p : (p < n)%nat -> nth p (bits_of n l) false = bit_at l p.
Proof.
  intros Hp. unfold bits_of. rewrite (nth_indep _ false (bit_at l 0)) by (by rewrite length_map, length_seq).
  rewrite map_nth, seq_nth by done. done.
Qed.

Lemma bits_eq n l (x : list bool) : length x = n -> (forall p, (p < n)%nat -> bit_at l p = nth p x false) -> bits_of n l = x.
Proof.
  intros L H. apply (nth_ext _ _ false false); [by rewrite bits_of_length|]. intros p Hp. rewrite bits_of_length in Hp.
  rewrite bits_of_nth by done. by apply H.
Qed.

Lemma select_nth table x p : (p < length table)%nat -> nth p (select table x) false = nth (nth p table 0 - 1)%nat x false.
Proof.
  intros Hp. unfold select. rewrite (nth_indep _ false (nth (0 - 1) x false)) by (by rewrite length_map).
  by rewrite (map_nth (fun t => nth (t - 1) x false)).
Qed.

Lemma select_length table x : length (select table x) = length table.
Proof. apply length_map. Qed.

Definition in_range (m : nat) (table : list Z) : bool := forallb (fun t => (0 <? t) && (t <=? Z.of_nat m)) table.

Lemma in_range_nth m table p : in_range m table = true -> (p < length table)%nat -> 0 < table.[p] <= Z.of_nat m.
Proof. unfold in_range. rewrite forallb_forall. intros H Hp. specialize (H _ (nth_In table 0 Hp)). lia. Qed.

Lemma in_range_pos m table : in_range m table = true -> forallb (fun t => 0 <? t) table = true.
Proof. unfold in_range. rewrite !forallb_forall. intros H t Ht. specialize (H t Ht). lia. Qed.

(** [permute] into a cleared array selects. *)
Lemma permute_select input table t n m : length table = (8 * n)%nat -> in_range m table = true -> map Z.of_nat t = table ->
  bits_of (8 * n) (permute input (replicate n 0) table 0 (8 * n)) = select t (bits_of m input).
Proof.
  intros L R Ht. apply bits_eq; [by rewrite select_length, <- (length_map Z.of_nat), Ht|]. intros p Hp.
  rewrite permute_all by (done || by eapply in_range_pos). pose proof (in_range_nth m table p R ltac:(lia)) as Rp.
  assert (Et : table.[p] = Z.of_nat (nth p t O)) by (rewrite <- Ht; exact (map_nth Z.of_nat t O p)).
  rewrite select_nth by (by rewrite <- (length_map Z.of_nat t), Ht, L). rewrite bits_of_nth by lia. unfold from_table. rewrite Et. f_equal. lia.
Qed.

Lemma bits_of_take n m l : (n <= m)%nat -> take n (bits_of m l) = bits_of n l.
Proof.
  intros H. symmetry. apply bits_eq; [by rewrite length_take, bits_of_length; lia|]. intros p Hp.
  rewrite nth_lookup, lookup_take_lt, <- nth_lookup, bits_of_nth by lia. done.
Qed.

Lemma bits_of_drop n k l : drop (8 * n) (bits_of (8 * n + k) l) = bits_of k (drop n l).
Proof.
  symmetry. apply bits_eq; [by rewrite length_drop, bits_of_length; lia|]. intros p Hp.
  rewrite nth_lookup, lookup_drop, <- nth_lookup, bits_of_nth by lia. apply bit_at_drop.
Qed.

Lemma bits_of_take_list n k l : (k <= 8 * n)%nat -> bits_of k (take n l) = bits_of k l.
Proof. intros H. apply map_ext_in. intros p Hp. apply in_seq in Hp. apply bit_at_take. lia. Qed.

Lemma bits_of_app n k a b : length a = n -> bits_of (8 * n + k) (a ++ b) = bits_of (8 * n) a ++ bits_of k b.
Proof.
  intros L. apply bits_eq; [by rewrite length_app, !bits_of_length|]. intros p Hp. rewrite (bit_at_app n) by done.
  destruct (decide (p < 8 * n)%nat).
  - rewrite app_nth1 by (by rewrite bits_of_length). by rewrite bits_of_nth.
  - rewrite app_nth2, bits_of_length, bits_of_nth by (rewrite ?bits_of_length; lia). done.
Qed.

Lemma xor_bits_nth x y p : length x = length y -> nth p (xor_bits x y) false = xorb (nth p x false) (nth p y false).
Proof.
  revert y p. induction x as [|b x IH]; intros [|c y] p L; cbn in L; try lia; [by destruct p|]. destruct p as [|p]; [done|].
  exact (IH y p ltac:(lia)).
Qed.

Lemma xor_bits_length n x y : length x = n -> length y = n -> length (xor_bits x y) = n.
Proof. intros Lx Ly. unfold xor_bits. rewrite length_zip_with. lia. Qed.

Lemma bits_of_xor n k a b : length a = n -> length b = n -> bits_of k (xor_block a b) = xor_bits (bits_of k a) (bits_of k b).
Proof.
  intros La Lb. apply bits_eq; [by rewrite (xor_bits_length k) by apply bits_of_length|]. intros p Hp.
  rewrite (bit_at_xor n) by done. rewrite xor_bits_nth by (by rewrite !bits_of_length). by rewrite !bits_of_nth.
Qed.

(** ** The selection functions *)

#[local] Opaque permute.

Definition SLUTs : list (list Z) := [SLUT1; SLUT2; SLUT3; SLUT4; SLUT5; SLUT6; SLUT7; SLUT8].

(** The eight groups of six bits of 48, as numbers. *)
Definition sixes (x : list Z) : list Z := [
  Z.shiftr (x.[0%nat]) 2;
  Z.lor (Z.shiftl (Z.land (x.[0%nat]) 0x3) 4) (Z.shiftr (x.[1%nat]) 4);
  Z.lor (Z.shiftl (Z.land (x.[1%nat]) 0xF) 2) (Z.shiftr (x.[2%nat]) 6);
  Z.land (x.[2%nat]) 0x3F;
  Z.shiftr (x.[3%nat]) 2;
  Z.lor (Z.shiftl (Z.land (x.[3%nat]) 0x3) 4) (Z.shiftr (x.[4%nat]) 4);
  Z.lor (Z.shiftl (Z.land (x.[4%nat]) 0xF) 2) (Z.shiftr (x.[5%nat]) 6);
  Z.land (x.[5%nat]) 0x3F].

Definition selected (x : list Z) : list Z :=
  let s k := (nth k SLUTs []).[Z.to_nat ((sixes x).[k])] in
  [Z.lor (s 0%nat) (s 1%nat); Z.lor (s 2%nat) (s 3%nat); Z.lor (s 4%nat) (s 5%nat); Z.lor (s 6%nat) (s 7%nat)].

Lemma des_round_function_eq r K : length K = 7%nat ->
  des_round_function r K
  = permute (selected (xor_block (permute r (replicate 6 0) message_expansion 0 48) (take 6 K))) (replicate 4 0) right_half_permutation 0 32.
Proof.
  intros L. rewrite <- (xor_loop 6) by (rewrite ?permute_length, ?length_replicate, ?length_take; lia).
  rewrite (for_ext 0 6 (fun i a => a.[i <- Z.lxor (a.[i]) ((take 6 K).[i])]) (fun i a => a.[i <- Z.lxor (a.[i]) (K.[i])]))
    by (intros i a Hi; by rewrite nth_take by lia).
  reflexivity.
Qed.

(** Every bit of a term with concrete shifts and masks. *)
Ltac norm_bits := repeat match goal with
  | |- context [Z.testbit (Zpos ?p) ?i] => let v := eval vm_compute in (Z.testbit (Zpos p) i) in change (Z.testbit (Zpos p) i) with v
  | |- context [Z.testbit ?a ?i] => let v := eval vm_compute in i in progress change (Z.testbit a i) with (Z.testbit a v)
  | H : is_byte ?a |- context [Z.testbit ?a ?i] => rewrite (testbit_ge_pow2 8 a i) by (exact H || (clear; lia))
  end.
Ltac blast := repeat (norm_bits; first [rewrite Z.lor_spec | rewrite Z.land_spec | rewrite Z.shiftr_spec by (clear; lia)
  | rewrite Z.shiftl_spec_low by (clear; lia) | rewrite Z.shiftl_spec by (clear; lia) | rewrite u8_testbit by (clear; lia)]); norm_bits;
  repeat match goal with H : Z.testbit ?a ?i = false |- context [Z.testbit ?a ?i] => rewrite H end; btauto.

Lemma sixes_bits x k j : block 6 x -> (k < 8)%nat -> (j < 6)%nat -> Z.testbit ((sixes x).[k]) (5 - Z.of_nat j) = bit_at x (6 * k + j).
Proof.
  intros H Hk Hj.
  pose proof (block_nth 6 x 0 H) as B0. pose proof (block_nth 6 x 1 H) as B1. pose proof (block_nth 6 x 2 H) as B2.
  pose proof (block_nth 6 x 3 H) as B3. pose proof (block_nth 6 x 4 H) as B4. pose proof (block_nth 6 x 5 H) as B5.
  unfold bit_at.
  do 8 (destruct k as [|k]; [cbn [sixes nth]; do 6 (destruct j as [|j]; [cbn -[Z.testbit nth Z.lor Z.land Z.shiftl Z.shiftr]; blast|]); lia|]). lia.
Qed.

Lemma sixes_range x k : block 6 x -> (k < 8)%nat -> 0 <= (sixes x).[k] < 64.
Proof.
  intros H Hk. assert (B : forall i, is_byte (x.[i])) by (intros i; by apply (block_nth 6)).
  assert (N : 0 <= (sixes x).[k]).
  { do 8 (destruct k as [|k]; [cbn [sixes nth]; rewrite ?Z.lor_nonneg, ?Z.shiftl_nonneg, ?Z.shiftr_nonneg, ?Z.land_nonneg; split_and?; (apply B || (left; apply B))|]). lia. }
  split; [done|]. apply (lt_pow2_testbit 6); [lia|done|]. intros i Hi.
  do 8 (destruct k as [|k]; [cbn [sixes nth]; rewrite ?Z.lor_spec, ?Z.shiftl_spec, ?Z.shiftr_spec, ?Z.land_spec by lia;
    repeat match goal with |- context [Z.testbit (x.[?a]) ?i] => rewrite (testbit_ge_pow2 8 (x.[a]) i) by (apply B || lia) end;
    rewrite ?(testbit_ge_pow2 2 3), ?(testbit_ge_pow2 4 15), ?(testbit_ge_pow2 6 63) by lia; btauto|]). lia.
Qed.

Lemma group_bits n l a m : (a + m <= n)%nat -> take m (drop a (bits_of n l)) = map (bit_at l) (seq a m).
Proof. intros H. unfold bits_of. rewrite skipn_map, firstn_map. f_equal. rewrite skipn_seq. cbn [Nat.add]. rewrite take_seq. f_equal. lia. Qed.

Definition six_bits (e : Z) : list bool := map (fun j => Z.testbit e (5 - Z.of_nat j)) (seq 0 6).

Lemma sixes_group x k : block 6 x -> (k < 8)%nat -> take 6 (drop (6 * k) (bits_of 48 x)) = six_bits ((sixes x).[k]).
Proof.
  intros H Hk. rewrite group_bits by lia. unfold six_bits.
  rewrite <- (Nat.add_0_r (6 * k)) at 1. rewrite <- fmap_add_seq. change fmap with (@map nat nat). rewrite map_map. apply map_ext_in. intros j Hj. apply in_seq in Hj. symmetry. apply sixes_bits; (done || lia).
Qed.

(** The rearranged tables are the standard's: the four bits in the half of the
    byte where they go, the other half clear. *)
Definition SLUT_ok (k e : nat) : bool :=
  forallb (fun j => Bool.eqb (Z.testbit ((nth k SLUTs []).[e]) (7 - Z.of_nat j))
    (if (j / 4 =? k mod 2)%nat then nth (j mod 4) (S_box k (six_bits (Z.of_nat e))) false else false)) (seq 0 8).

Lemma SLUTs_ok : forallb (fun k => forallb (SLUT_ok k) (seq 0 64)) (seq 0 8) = true.
Proof. vm_compute. reflexivity. Qed.

Lemma SLUT_bit k e j : (k < 8)%nat -> 0 <= e < 64 -> (j < 8)%nat ->
  Z.testbit ((nth k SLUTs []).[Z.to_nat e]) (7 - Z.of_nat j)
  = if (j / 4 =? k mod 2)%nat then nth (j mod 4) (S_box k (six_bits e)) false else false.
Proof.
  intros Hk He Hj. pose proof (check_nat _ _ SLUTs_ok k Hk) as H1. cbv beta in H1.
  pose proof (check_nat _ _ H1 (Z.to_nat e) ltac:(lia)) as H2. pose proof (check_nat _ _ H2 j Hj) as H3.
  cbv beta in H3. apply eqb_prop in H3. rewrite Z2Nat.id in H3 by lia. exact H3.
Qed.

Lemma selected_bit x p : block 6 x -> (p < 32)%nat ->
  bit_at (selected x) p = nth (p mod 4) (S_box (p / 4) (take 6 (drop (6 * (p / 4)) (bits_of 48 x)))) false.
Proof.
  intros H Hp. rewrite sixes_group by (done || ndiv). unfold bit_at.
  assert (E : (selected x).[(p / 8)%nat] = Z.lor ((nth (2 * (p / 8)) SLUTs []).[Z.to_nat ((sixes x).[(2 * (p / 8))%nat])])
    ((nth (2 * (p / 8) + 1) SLUTs []).[Z.to_nat ((sixes x).[(2 * (p / 8) + 1)%nat])])).
  { assert (Hd : (p / 8 < 4)%nat) by ndiv. destruct (p / 8)%nat as [|[|[|[|]]]]; [reflexivity..|lia]. }
  rewrite E, Z.lor_spec, !SLUT_bit by (ndiv || apply sixes_range; (done || ndiv)).
  replace ((p mod 8) mod 4)%nat with (p mod 4)%nat by ndiv.
  destruct (decide (p mod 8 < 4)%nat) as [Hm|Hm].
  - replace (p / 4)%nat with (2 * (p / 8))%nat by ndiv.
    replace (p mod 8 / 4)%nat with 0%nat by ndiv. replace ((2 * (p / 8)) mod 2)%nat with 0%nat by ndiv.
    replace ((2 * (p / 8) + 1) mod 2)%nat with 1%nat by ndiv. apply orb_false_r.
  - replace (p / 4)%nat with (2 * (p / 8) + 1)%nat by ndiv.
    replace (p mod 8 / 4)%nat with 1%nat by ndiv. replace ((2 * (p / 8)) mod 2)%nat with 0%nat by ndiv.
    replace ((2 * (p / 8) + 1) mod 2)%nat with 1%nat by ndiv. reflexivity.
Qed.

Lemma nth_concat_map m (f : nat -> list bool) n lo p : (forall k, length (f k) = m) -> (0 < m)%nat -> (p < m * n)%nat ->
  nth p (concat (map f (seq lo n))) false = nth (p mod m) (f (lo + p / m)%nat) false.
Proof.
  intros L Hm. revert lo p. induction n as [|n IH]; intros lo p Hp; [lia|]. cbn [seq map concat].
  destruct (decide (p < m)%nat) as [H|H].
  - rewrite app_nth1, Nat.mod_small, Nat.div_small, Nat.add_0_r by (rewrite ?L; lia). done.
  - rewrite app_nth2, L, IH by (rewrite ?L; lia). replace p with ((p - m) + 1 * m)%nat at 3 4 by lia.
    rewrite Nat.Div0.mod_add, Nat.div_add by lia. f_equal. f_equal. lia.
Qed.

Lemma selected_bits x : block 6 x ->
  bits_of 32 (selected x) = concat (map (fun k => S_box k (take 6 (drop (6 * k) (bits_of 48 x)))) (seq 0 8)).
Proof.
  intros H. apply bits_eq; [reflexivity|]. intros p Hp. rewrite (nth_concat_map 4) by (done || lia). by apply selected_bit.
Qed.

Lemma cipher_function_bits r K : length K = 7%nat -> block 4 r -> Forall (fun x => is_byte x) K ->
  bits_of 32 (des_round_function r K) = cipher_function (bits_of 32 r) (bits_of 48 K).
Proof.
  intros L Hr HK. rewrite des_round_function_eq by done. unfold cipher_function.
  set (e := permute r (replicate 6 0) message_expansion 0 48).
  assert (He : block 6 e) by apply permute_zero_block.
  assert (HK6 : block 6 (take 6 K)) by (split; [by rewrite length_take, L|by apply Forall_take]).
  rewrite (permute_select _ _ P 4 32) by (reflexivity || done). f_equal. rewrite selected_bits by by apply xor_block_block.
  rewrite (bits_of_xor 6), bits_of_take_list by (apply He || apply HK6 || lia).
  assert (Ee : bits_of 48 e = select E (bits_of 32 r)) by exact (permute_select r message_expansion E 6 32 eq_refl eq_refl eq_refl).
  by rewrite Ee.
Qed.

(** ** The key schedule *)

(** A half of the key: 28 bits from the top of four bytes. *)
Record key_half (K : list Z) : Prop := {
  half_block : block 4 K;
  half_clear : forall p, (28 <= p < 32)%nat -> bit_at K p = false
}.

Lemma block_bytes4 K : block 4 K -> exists a b c d, K = [a; b; c; d] /\ is_byte a /\ is_byte b /\ is_byte c /\ is_byte d.
Proof.
  intros H. pose proof (block_length _ _ H) as L. destruct K as [|a [|b [|c [|d [|]]]]]; try discriminate L.
  exists a, b, c, d. split; [done|].
  exact (conj (block_nth 4 _ 0 H) (conj (block_nth 4 _ 1 H) (conj (block_nth 4 _ 2 H) (block_nth 4 _ 3 H)))).
Qed.

(** A proof for each place of an array of four bytes. *)
Ltac each_bit p := do 32 (destruct p as [|p]; [cbn -[Z.testbit nth Z.lor Z.land Z.shiftl Z.shiftr u8]; cbn [nth]; blast|]); lia.

Lemma rotate_half_eq a b c d s mask :
  rotate_half [a; b; c; d] s mask = [
    Z.lor (u8 (Z.shiftl a s)) (Z.shiftr (Z.land mask b) (8 - s)); Z.lor (u8 (Z.shiftl b s)) (Z.shiftr (Z.land mask c) (8 - s));
    Z.lor (u8 (Z.shiftl c s)) (Z.shiftr (Z.land mask d) (8 - s)); Z.lor (u8 (Z.shiftl d s)) (Z.shiftr (Z.land mask a) (4 - s))].
Proof. reflexivity. Qed.

Lemma rotate_half_bit K s mask p : key_half K -> (s = 1%nat /\ mask = 0x80 \/ s = 2%nat /\ mask = 0xC0) -> (p < 32)%nat ->
  bit_at (rotate_half K (Z.of_nat s) mask) p = if (p <? 28)%nat then bit_at K ((p + s) mod 28) else false.
Proof.
  intros [HK Hc] Hs Hp. destruct (block_bytes4 K HK) as (a & b & c & d & -> & Ba & Bb & Bc & Bd).
  pose proof (Hc 28%nat ltac:(lia) : Z.testbit d 3 = false) as C0. pose proof (Hc 29%nat ltac:(lia) : Z.testbit d 2 = false) as C1.
  pose proof (Hc 30%nat ltac:(lia) : Z.testbit d 1 = false) as C2. pose proof (Hc 31%nat ltac:(lia) : Z.testbit d 0 = false) as C3.
  unfold bit_at. rewrite rotate_half_eq.
  destruct Hs as [[-> ->]|[-> ->]].
  - each_bit p.
  - each_bit p.
Qed.

Lemma rotate_half_half K s mask : key_half K -> (s = 1%nat /\ mask = 0x80 \/ s = 2%nat /\ mask = 0xC0) -> key_half (rotate_half K (Z.of_nat s) mask).
Proof.
  intros H Hs. split.
  - destruct (block_bytes4 K (half_block K H)) as (a & b & c & d & -> & Ba & Bb & Bc & Bd). rewrite rotate_half_eq.
    assert (B : forall x y k, is_byte x -> 0 <= k -> is_byte (Z.lor (u8 y) (Z.shiftr (Z.land mask x) k))).
    { intros x y k Hx Hk. apply byte_lor; [apply byte_u8|]. rewrite Z.shiftr_div_pow2 by done. rewrite Z.land_comm.
      pose proof (byte_land x mask Hx) as Bl. pose proof (Z.pow_pos_nonneg 2 k ltac:(lia) Hk).
      split; [apply Z.div_pos; lia|]. apply Z.div_lt_upper_bound; nia. }
    split; [done|]. repeat (apply Forall_cons_2; [apply B; [done|lia]|]). done.
  - intros p Hp. rewrite (rotate_half_bit K s mask) by (done || lia). by destruct (Nat.ltb_spec p 28); [lia|].
Qed.

(** The rotation of 28 bits. *)
Lemma rotate_half_bits K s mask : key_half K -> (s = 1%nat /\ mask = 0x80 \/ s = 2%nat /\ mask = 0xC0) ->
  bits_of 28 (rotate_half K (Z.of_nat s) mask) = rotate s (bits_of 28 K).
Proof.
  intros H Hs. apply bits_eq; [unfold rotate; rewrite length_app, length_drop, length_take, bits_of_length; lia|].
  intros p Hp. rewrite rotate_half_bit by (done || lia). destruct (Nat.ltb_spec p 28); [|lia]. unfold rotate.
  destruct (decide (p < 28 - s)%nat) as [G|G].
  - rewrite app_nth1 by (rewrite length_drop, bits_of_length; lia).
    rewrite nth_lookup, lookup_drop, <- nth_lookup, bits_of_nth by lia. f_equal. rewrite Nat.mod_small; lia.
  - rewrite app_nth2 by (rewrite length_drop, bits_of_length; lia). rewrite length_drop, bits_of_length.
    rewrite nth_lookup, lookup_take_lt, <- nth_lookup, bits_of_nth by lia. f_equal.
    replace (p + s)%nat with (p + s - 28 + 1 * 28)%nat by lia. rewrite Nat.Div0.mod_add, Nat.mod_small; lia.
Qed.

Definition first_half (K : list Z) : list Z := map (fun i => K.[i]) (seq 0 3) ++ [Z.land (K.[3%nat]) 0xF0].
Definition second_half (K : list Z) : list Z :=
  map (fun i => Z.lor (u8 (Z.shiftl (Z.land (K.[(i + 3)%nat]) 0x0F) 4)) (Z.shiftr (Z.land (K.[(i + 4)%nat]) 0xF0) 4)) (seq 0 3)
    ++ [u8 (Z.shiftl (Z.land (K.[6%nat]) 0x0F) 4)].

Lemma halves_bit K p : block 7 K -> (p < 32)%nat ->
  bit_at (first_half K) p = (if (p <? 28)%nat then bit_at K p else false) /\
  bit_at (second_half K) p = (if (p <? 28)%nat then bit_at K (28 + p) else false).
Proof.
  intros H Hp. pose proof (block_nth 7 K 3 H) as B3. pose proof (block_nth 7 K 4 H) as B4. pose proof (block_nth 7 K 5 H) as B5.
  pose proof (block_nth 7 K 6 H) as B6. unfold bit_at, first_half, second_half. cbn [map seq Nat.add app]. split.
  - each_bit p.
  - each_bit p.
Qed.

Lemma halves_key K : block 7 K -> key_half (first_half K) /\ key_half (second_half K).
Proof.
  intros H. assert (B : forall i, is_byte (K.[i])) by (intros i; by apply (block_nth 7)).
  split; split.
  - split; [done|]. unfold first_half. cbn [map seq Nat.add app]. repeat (apply Forall_cons_2; [apply B || by apply byte_land|]). done.
  - intros p Hp. destruct (halves_bit K p H ltac:(lia)) as [-> _]. by destruct (Nat.ltb_spec p 28); [lia|].
  - split; [done|]. unfold second_half. cbn [map seq Nat.add app].
    assert (N : forall x, is_byte x -> is_byte (Z.shiftr (Z.land x 0xF0) 4)).
    { intros x Hx. pose proof (byte_land x 0xF0 Hx). rewrite Z.shiftr_div_pow2 by lia. split; [apply Z.div_pos; lia|apply Z.div_lt_upper_bound; lia]. }
    repeat (apply Forall_cons_2; [(apply byte_lor; [apply byte_u8|by apply N]) || apply byte_u8|]). done.
  - intros p Hp. destruct (halves_bit K p H ltac:(lia)) as [_ ->]. by destruct (Nat.ltb_spec p 28); [lia|].
Qed.

(** The state of the schedule after [n] turns. *)
Record halves_rel (key : list bool) (n : nat) (st : list Z * list Z) : Prop := {
  rel_C : key_half (fst st);
  rel_D : key_half (snd st);
  rel_CD : (bits_of 28 (fst st), bits_of 28 (snd st)) = key_halves_at key n
}.

Lemma halves_start main_key : halves_rel (bits_of 64 main_key) 0 (key_halves main_key).
Proof.
  set (K := permute main_key (replicate 7 0) pc1_key_permutation 0 56). assert (HK : block 7 K) by apply permute_zero_block.
  change (key_halves main_key) with (first_half K, second_half K). destruct (halves_key K HK) as [H1 H2].
  split; [done..|]. cbn [fst snd key_halves_at].
  assert (EK : bits_of 56 K = select PC1 (bits_of 64 main_key)) by exact (permute_select main_key pc1_key_permutation PC1 7 64 eq_refl eq_refl eq_refl).
  rewrite <- EK. f_equal; apply bits_eq.
  - by rewrite length_take, bits_of_length.
  - intros p Hp. destruct (halves_bit K p HK ltac:(lia)) as [-> _]. destruct (Nat.ltb_spec p 28); [|lia].
    by rewrite nth_lookup, lookup_take_lt, <- nth_lookup, bits_of_nth by lia.
  - by rewrite length_drop, bits_of_length.
  - intros p Hp. destruct (halves_bit K p HK ltac:(lia)) as [_ ->]. destruct (Nat.ltb_spec p 28); [|lia].
    by rewrite nth_lookup, lookup_drop, <- nth_lookup, bits_of_nth by lia.
Qed.

Definition shifts_ok (i : nat) : bool :=
  let s := nth i left_shifts 0%nat in
  (key_shift_sizes.[S i] =? Z.of_nat s) && ((s =? 1)%nat && (key_shift_bytes.[S i] =? 0x80) || (s =? 2)%nat && (key_shift_bytes.[S i] =? 0xC0)).

Lemma shifts_table i : (i < 16)%nat ->
  let s := nth i left_shifts 0%nat in
  key_shift_sizes.[S i] = Z.of_nat s /\ (s = 1%nat /\ key_shift_bytes.[S i] = 0x80 \/ s = 2%nat /\ key_shift_bytes.[S i] = 0xC0).
Proof.
  intros Hi s. pose proof (check_nat shifts_ok 16 eq_refl i Hi) as H. unfold shifts_ok in H. fold s in H.
  apply andb_true_iff in H as [E%Z.eqb_eq H]. split; [done|].
  apply orb_true_iff in H as [H|H]; apply andb_true_iff in H as [H1%Nat.eqb_eq H2%Z.eqb_eq]; auto.
Qed.

Lemma halves_step key n st : (n < 16)%nat -> halves_rel key n st ->
  halves_rel key (S n) (rotate_sub_keys (fst st) (snd st) (key_shift_sizes.[S n]) (key_shift_bytes.[S n])).
Proof.
  intros Hn [HC HD E]. destruct (shifts_table n Hn) as [-> Hs]. unfold rotate_sub_keys. split; cbn [fst snd].
  - by apply rotate_half_half.
  - by apply rotate_half_half.
  - cbn [key_halves_at]. rewrite <- E. by rewrite !rotate_half_bits.
Qed.

(** The second table in the file counts the places of its half. *)
Definition PC2_ok (p : nat) : bool :=
  let f := from_table pc2_key_permutation p in (f <? 28)%nat && (nth p PC2 0 - 1 =? (if (p <? 24)%nat then f else 28 + f))%nat.

Lemma subkey_row Kc Kd (C D : list bool) : block 4 Kc -> block 4 Kd -> bits_of 28 Kc = C -> bits_of 28 Kd = D ->
  let row := permute Kd (permute Kc (replicate 7 0) pc2_key_permutation 0 24) pc2_key_permutation 24 48 in
  block 7 row /\ bits_of 48 row = select PC2 (C ++ D).
Proof.
  intros Hc Hd <- <- row. split; [apply permute_block, permute_zero_block|]. apply bits_eq; [reflexivity|]. intros p Hp.
  assert (Z7 : length (permute Kc (replicate 7 0) pc2_key_permutation 0 24) = 7%nat) by (by rewrite permute_length, length_replicate).
  unfold row. rewrite (permute_bit _ _ 7) by (done || lia || (cbn; lia)). rewrite (permute_bit _ _ 7) by (done || lia || (cbn; lia)). rewrite bit_at_zero.
  pose proof (check_nat PC2_ok 48 eq_refl p Hp) as H. unfold PC2_ok in H. apply andb_true_iff in H as [H1%Nat.ltb_lt H2%Nat.eqb_eq].
  rewrite select_nth, H2 by done. cbn [orb]. destruct (Nat.ltb_spec p 24) as [G|G].
  - rewrite bool_decide_eq_true_2, bool_decide_eq_false_2, orb_false_r by lia. cbn [andb].
    rewrite app_nth1, bits_of_nth by (rewrite ?bits_of_length; lia). done.
  - rewrite bool_decide_eq_false_2, bool_decide_eq_true_2 by lia. cbn [andb orb].
    rewrite app_nth2, bits_of_length, bits_of_nth by (rewrite ?bits_of_length; lia). f_equal. lia.
Qed.

Lemma round_keys_bits main_key : forall i, (i < 16)%nat ->
  let K := nth i (des_prepare_round_keys main_key) [] in
  length K = 7%nat /\ Forall (fun x => is_byte x) K /\ bits_of 48 K = subkey (bits_of 64 main_key) (S i).
Proof.
  set (key := bits_of 64 main_key). unfold des_prepare_round_keys.
  enough (H : forall n, (n <= 16)%nat -> let r := for_ 0 n round_key_step (key_halves main_key, []) in
    halves_rel key n (fst r) /\ length (snd r) = n /\
    forall i, (i < n)%nat -> let K := nth i (snd r) [] in block 7 K /\ bits_of 48 K = subkey key (S i)).
  { destruct (H 16%nat ltac:(lia)) as (_ & _ & H3). intros i Hi. destruct (H3 i Hi) as [[L B] E1]. exact (conj L (conj B E1)). }
  intros n Hn. induction n as [|n IH].
  { rewrite for_nil by lia. split; [apply halves_start|]. split; [done|]. intros i Hi. lia. }
  rewrite for_S by lia. cbv zeta in IH |- *. destruct IH as (H1 & H2 & H3); [lia|].
  destruct (for_ 0 n round_key_step _) as [[Kc Kd] Ks]. cbn [fst snd] in H1, H2, H3. unfold round_key_step.
  pose proof (halves_step key n (Kc, Kd) ltac:(lia) H1) as HS. cbn [fst snd] in HS.
  destruct (rotate_sub_keys Kc Kd _ _) as [Kc' Kd']. cbn [fst snd]. split; [done|]. split; [rewrite length_app, H2; cbn; lia|].
  intros i Hi. destruct (decide (i < n)%nat) as [G|G]; [rewrite app_nth1 by lia; by apply H3|].
  replace i with n by lia. rewrite app_nth2, H2, Nat.sub_diag by lia. destruct HS as [[Bc _] [Bd _] E]. cbn [fst snd] in *.
  unfold subkey. rewrite <- E. cbn [nth]. by apply subkey_row.
Qed.

(** ** The cipher *)

#[local] Opaque des_round_function des_prepare_round_keys.

Definition halves_bits (x : list Z * list Z) : list bool * list bool := (bits_of 32 (fst x), bits_of 32 (snd x)).

Lemma round_bits K x : length K = 7%nat -> Forall (fun x => is_byte x) K -> halves_ok 4 x ->
  halves_bits (feistel_step des_round_function K x) = round (bits_of 48 K) (halves_bits x).
Proof.
  intros L HK. destruct x as [l r]. intros [Hl Hr]. cbn [fst snd] in Hl, Hr. unfold halves_bits, round. cbn [feistel_step fst snd].
  f_equal. rewrite (bits_of_xor 4) by (apply (block_length 4), des_round_function_block || apply Hl). by rewrite cipher_function_bits.
Qed.

(** Which key the code uses, counted from 1. *)
Definition key_order (de : Z) (i : nat) : nat := if de =? 1 then S i else (16 - i)%nat.

Lemma rounds_bits main_key de x : halves_ok 4 x ->
  halves_bits (des_rounds main_key de x)
  = for_ 0 16 (fun i => round (subkey (bits_of 64 main_key) (key_order de i))) (halves_bits x).
Proof.
  intros Hx. unfold des_rounds.
  enough (H : forall n, (n <= 16)%nat ->
    halves_bits (for_ 0 n (fun f => feistel_step des_round_function (round_key main_key de f)) x)
    = for_ 0 n (fun i => round (subkey (bits_of 64 main_key) (key_order de i))) (halves_bits x)) by (by apply H).
  intros n Hn. induction n as [|n IH]; [done|]. rewrite !for_S by lia. rewrite <- IH by lia.
  assert (Hi : ((if (de =? 1)%Z then n else 15 - n) < 16)%nat) by (destruct (de =? 1); lia).
  destruct (round_keys_bits main_key _ Hi) as (L & B & E). fold (round_key main_key de n) in L, B, E.
  rewrite round_bits by (done || by apply feistel_rounds). f_equal. rewrite E. f_equal. unfold key_order. destruct (de =? 1); lia.
Qed.

Lemma initial_halves_bits x :
  halves_bits (initial_halves x) = let y := select IP (bits_of 64 x) in (take 32 y, drop 32 y).
Proof.
  unfold initial_halves. set (y := permute x (replicate 8 0) initial_register_permutation 0 64). cbv zeta.
  assert (Ey : bits_of 64 y = select IP (bits_of 64 x)) by exact (permute_select x initial_register_permutation IP 8 64 eq_refl eq_refl eq_refl).
  rewrite <- Ey. unfold halves_bits. cbn [fst snd]. rewrite bits_of_take_list, bits_of_take by lia.
  by rewrite <- (bits_of_drop 4 32 y).
Qed.

Lemma final_block_bits x : halves_ok 4 x -> bits_of 64 (final_block x) = select IP_inverse (bits_of 32 (snd x) ++ bits_of 32 (fst x)).
Proof.
  intros [Hl Hr]. unfold final_block.
  assert (Ey : bits_of 64 (permute (snd x ++ fst x) (replicate 8 0) final_register_permutation 0 64) = select IP_inverse (bits_of 64 (snd x ++ fst x)))
    by exact (permute_select (snd x ++ fst x) final_register_permutation IP_inverse 8 64 eq_refl eq_refl eq_refl).
  rewrite Ey. f_equal. exact (bits_of_app 4 32 (snd x) (fst x) (block_length _ _ Hr)).
Qed.

#[local] Opaque des_rounds.

Lemma des_cipher_bits main_key x de :
  bits_of 64 (des_cipher main_key x (replicate 8 0) de) = des_standard (bits_of 64 main_key) (key_order de) (bits_of 64 x).
Proof.
  rewrite des_cipher_eq. pose proof (initial_halves_ok x) as Hx. pose proof (des_rounds_ok main_key de _ Hx) as Hr.
  rewrite final_block_bits by done. unfold des_standard. pose proof (rounds_bits main_key de _ Hx) as E.
  rewrite initial_halves_bits in E. cbv zeta in E |- *. rewrite <- E. reflexivity.
Qed.

(** C6: The cipher of the file is the Data Encryption Standard: on the bits of
    every key and every block, with the output register cleared, the direction 1
    enciphers and every other deciphers as FIPS 46 has it, the parity bits of
    the key ignored. *)
Theorem des_implements_fips46 main_key x de :
  bits_of 64 (des_cipher main_key x (replicate 8 0) de)
  = (if de =? 1 then enciphering else deciphering) (bits_of 64 main_key) (bits_of 64 x) /\
  (forall main_key', (forall p, (p mod 8 <> 7)%nat -> bit_at main_key' p = bit_at main_key p) ->
     bits_of 64 (des_cipher main_key' x (replicate 8 0) de) = bits_of 64 (des_cipher main_key x (replicate 8 0) de)).
Proof.
  split.
  - rewrite des_cipher_bits. unfold key_order, enciphering, deciphering. by destruct (de =? 1).
  - intros k' Hk. rewrite !des_cipher_bits.
    assert (E : forall n, subkey (bits_of 64 k') n = subkey (bits_of 64 main_key) n).
    2: { unfold des_standard. cbv zeta.
      rewrite (for_ext 0 16 _ (fun i => round (subkey (bits_of 64 main_key) (key_order de i)))) by (intros; by rewrite E). done. }
    assert (E0 : select PC1 (bits_of 64 k') = select PC1 (bits_of 64 main_key)).
    { apply map_ext_in. intros t Ht.
      assert (T : ((t - 1) mod 8 <> 7 /\ t - 1 < 64)%nat).
      { pose proof (proj1 (forallb_forall (fun t => negb ((t - 1) mod 8 =? 7)%nat && (t - 1 <? 64)%nat) PC1) eq_refl t Ht) as H.
        apply andb_true_iff in H as [H1%negb_true_iff%Nat.eqb_neq H2%Nat.ltb_lt]. done. }
      rewrite !bits_of_nth by lia. exact (Hk _ (proj1 T)). }
    assert (EH : forall n, key_halves_at (bits_of 64 k') n = key_halves_at (bits_of 64 main_key) n).
    { induction n as [|n IH]; cbn [key_halves_at]; [by rewrite E0|by rewrite IH]. }
    intros n. unfold subkey. by rewrite EH.
Qed.

Lemma des_implements_fips46_witness :
  bits_of 64 (des_cipher [0x12; 0x34; 0x56; 0x78; 0x9A; 0xBC; 0xDE; 0xF0] (u64_bytes 0x0123456789ABCDEF) (replicate 8 0) 1)
  = bits_of 64 (des_cipher [0x13; 0x34; 0x57; 0x79; 0x9B; 0xBC; 0xDF; 0xF1] (u64_bytes 0x0123456789ABCDEF) (replicate 8 0) 1).
Proof.
  refine (proj2 (des_implements_fips46 [0x13; 0x34; 0x57; 0x79; 0x9B; 0xBC; 0xDF; 0xF1] _ 1) [0x12; 0x34; 0x56; 0x78; 0x9A; 0xBC; 0xDE; 0xF0] _).
  intros p Hp. destruct (decide (p < 64)%nat) as [H|H]; [|unfold bit_at; by rewrite !nth_overflow by (apply (Nat.div_le_lower_bound p 8 8); lia)].
  pose proof (check_nat (fun p => (p mod 8 =? 7)%nat || Bool.eqb (bit_at [0x12; 0x34; 0x56; 0x78; 0x9A; 0xBC; 0xDE; 0xF0] p)
    (bit_at [0x13; 0x34; 0x57; 0x79; 0x9B; 0xBC; 0xDF; 0xF1] p)) 64 eq_refl p H) as C.
  apply orb_true_iff in C as [C%Nat.eqb_eq|C%eqb_prop]; [by destruct Hp|exact C].
Defined.
