(* ===== verification/Convolution.v ===== *)
(** * [protocol/tetra/tetra_fec.c]: the convolutional codes and their decoder

    The 16-state codes of the signalling channels (four coded bits for each
    input bit) and of speech (three), the encoder, and the Viterbi search with
    its scalar add-compare-select step.  A soft cost is 16 bits wide: 0 is a
    confident 0, 0xFFFF a confident 1.  The rows of predecessors are never
    cleared by the code: what they hold before is an argument here. *)
From Stdlib Require Import ZifyNat Btauto.
From S2P Require Import Prelude.

Definition TETRA_VITERBI_MAX_BITS : nat := 512.
Definition TETRA_VITERBI_STATES : nat := 16.
Definition TETRA_SOFT_NEUTRAL : Z := 0x7FFF.

Record tetra_conv_code := mk_conv_code {
  lanes : nat;             (* coded bits for each input bit *)
  taps : list Z;
  shift_up : bool;
  incoming : list Z        (* coded word on the edge from the lower predecessor *)
}.

Definition k_signalling_code : tetra_conv_code :=
  mk_conv_code 4 [0x19; 0x1E; 0x1B; 0x1D] true [0; 15; 13; 2; 6; 9; 11; 4; 10; 5; 7; 8; 12; 3; 1; 14].
Definition k_speech_code : tetra_conv_code :=
  mk_conv_code 3 [0x1F; 0x1B; 0x15; 0x00] false [0; 3; 5; 6; 3; 0; 6; 5; 7; 4; 2; 1; 4; 7; 1; 2].

Definition parity5 (value : Z) : Z :=
  let value := Z.lxor value (Z.shiftr value 4) in
  let value := Z.lxor value (Z.shiftr value 2) in
  let value := Z.lxor value (Z.shiftr value 1) in
  Z.land value 1.

Definition conv_next_state (code : tetra_conv_code) (state bit : Z) : Z :=
  if shift_up code then Z.lor (Z.land (Z.shiftl state 1) 0xE) bit else Z.lor (Z.shiftl bit 3) (Z.shiftr state 1).

Definition conv_input_of (code : tetra_conv_code) (next_state : Z) : Z :=
  if shift_up code then Z.land next_state 1 else Z.shiftr next_state 3.

Definition TETRA_VITERBI_INF : Z := 0xFFFFFFFF / 4.

(** ** One step *)

(** The cost of the edge from the lower predecessor into each state. *)
Definition acs_branch (code : tetra_conv_code) (costs : list Z) : list Z :=
  for_ 0 (lanes code) (fun lane branch =>
    let zero := costs.[lane] in
    let one := 65535 - zero in
    for_ 0 TETRA_VITERBI_STATES (fun to branch =>
      branch.[to <- u32 (branch.[to] + (if Z.land (Z.shiftr ((incoming code).[to]) (Z.of_nat lane)) 1 =? 0 then zero else one))])
      branch) (replicate TETRA_VITERBI_STATES 0).

Definition acs_low (code : tetra_conv_code) (to : Z) : Z :=
  if shift_up code then Z.shiftr to 1 else Z.land (Z.shiftl to 1) 15.
Definition acs_high (code : tetra_conv_code) (to : Z) : Z := acs_low code to + (if shift_up code then 8 else 1).

(** The survivor into [to] and its predecessor. *)
Definition acs_select (code : tetra_conv_code) (prev branch : list Z) (to : nat) : Z * Z :=
  let complement := Z.of_nat (lanes code) * 65535 in
  let low := acs_low code (Z.of_nat to) in
  let high := acs_high code (Z.of_nat to) in
  let a := u32 (prev.[Z.to_nat low] + branch.[to]) in
  let b := u32 (prev.[Z.to_nat high] + (complement - branch.[to])) in
  let best := if b <? a then b else a in
  (if best <? TETRA_VITERBI_INF then best else TETRA_VITERBI_INF,
   if best <? TETRA_VITERBI_INF then u8 (if b <? a then high else low) else 0).

(** The new metrics and the row of predecessors. *)
Definition conv_acs_step (code : tetra_conv_code) (prev costs : list Z) : list Z * list Z :=
  let branch := acs_branch code costs in
  (map (fun to => fst (acs_select code prev branch to)) (seq 0 TETRA_VITERBI_STATES),
   map (fun to => snd (acs_select code prev branch to)) (seq 0 TETRA_VITERBI_STATES)).

Definition conv_acs_run_scalar (code : tetra_conv_code) (metric costs : list Z) (nsteps : nat) (pred : list Z) : list Z * list Z :=
  for_ 0 nsteps (fun pos '(metric, pred) =>
    let '(next, row) := conv_acs_step code metric (drop (pos * lanes code) costs) in
    (next, blit pred (pos * TETRA_VITERBI_STATES) row)) (metric, pred).

(** ** Decoder and encoder *)

Definition start_metric : list Z :=
  map (fun state => if (state =? 0)%nat then 0 else TETRA_VITERBI_INF) (seq 0 TETRA_VITERBI_STATES).

(** The state the path ends in. *)
Definition end_state (metric : list Z) : Z :=
  if metric.[0%nat] =? TETRA_VITERBI_INF then
    for_ 1 TETRA_VITERBI_STATES (fun candidate state =>
      if metric.[candidate] <? metric.[Z.to_nat state] then Z.of_nat candidate else state) 0
  else 0.

(** [for (pos = nbits - 1; pos >= 0; pos--)] *)
Definition trace_back (code : tetra_conv_code) (pred : list Z) (nbits : nat) (state : Z) (out_bits : list Z) : list Z :=
  snd (for_ 0 nbits (fun k '(state, out_bits) =>
    let pos := (nbits - 1 - k)%nat in
    (pred.[(pos * TETRA_VITERBI_STATES + Z.to_nat state)%nat], out_bits.[pos <- u8 (conv_input_of code state)])) (state, out_bits)).

Definition conv_viterbi (code : tetra_conv_code) (junk costs : list Z) (nbits : nat) (out_bits : list Z) : list Z :=
  let '(metric, pred) := conv_acs_run_scalar code start_metric costs nbits junk in
  trace_back code pred nbits (end_state metric) out_bits.

Definition conv_encode (code : tetra_conv_code) (bits : list Z) (nbits : nat) (coded : list Z) : list Z :=
  snd (for_ 0 nbits (fun pos '(state, coded) =>
    let bit := Z.land (bits.[pos]) 1 in
    let involved := u8 (Z.lor (Z.shiftl bit 4) state) in
    let coded := for_ 0 (lanes code) (fun lane coded =>
      coded.[(pos * lanes code + lane)%nat <- parity5 (Z.land involved ((taps code).[lane]))]) coded in
    (conv_next_state code state bit, coded)) (0, coded)).

Definition tetra_viterbi_decode_soft (junk : list Z) (depunc : option (list Z)) (depunc_len : Z) (out_bits : option (list Z)) (out_bits_len : Z)
  : option (list Z) * Z :=
  match depunc, out_bits with
  | Some costs, Some out =>
      if (depunc_len <=? 0) || negb (Z.land depunc_len 3 =? 0) then (out_bits, -1)
      else
        let nbits := Z.quot depunc_len 4 in
        if (Z.of_nat TETRA_VITERBI_MAX_BITS <? nbits) || (out_bits_len <? nbits) then (out_bits, -1)
        else (Some (conv_viterbi k_signalling_code junk costs (Z.to_nat nbits) out), nbits)
  | _, _ => (out_bits, -1)
  end.

(** ** The code as a trellis *)

(** The coded bit of a lane on the edge from [state] with input [bit]. *)
Definition edge (code : tetra_conv_code) (state bit : Z) (lane : nat) : Z :=
  parity5 (Z.land (u8 (Z.lor (Z.shiftl bit 4) state)) ((taps code).[lane])).

(** What the tables of a code have to agree on. *)
Definition state_ok (code : tetra_conv_code) (to : nat) : bool :=
  let z := Z.of_nat to in
  let b := conv_input_of code z in
  let l := acs_low code z in
  let h := acs_high code z in
  ((b =? 0) || (b =? 1)) && (0 <=? l) && (l <? h) && (h <? 16) &&
  (conv_next_state code l b =? z) && (conv_next_state code h b =? z) &&
  forallb (fun lane => let w := Z.land (Z.shiftr ((incoming code).[to]) (Z.of_nat lane)) 1 in
    (edge code l b lane =? w) && (edge code h b lane =? 1 - w)) (seq 0 (lanes code)).

Definition input_ok (code : tetra_conv_code) (s : nat) : bool :=
  forallb (fun b => let n := conv_next_state code (Z.of_nat s) b in
    (0 <=? n) && (n <? 16) && (conv_input_of code n =? b) &&
    ((acs_low code n =? Z.of_nat s) || (acs_high code n =? Z.of_nat s))) [0; 1].

Definition code_ok (code : tetra_conv_code) : bool :=
  (lanes code <=? 4)%nat && (conv_next_state code 0 0 =? 0) && forallb (state_ok code) (seq 0 16) && forallb (input_ok code) (seq 0 16).

Lemma signalling_ok : code_ok k_signalling_code = true.
Proof. vm_compute. reflexivity. Qed.

Lemma speech_ok : code_ok k_speech_code = true.
Proof. vm_compute. reflexivity. Qed.

(** What a cost says against a bit. *)
Definition bit_cost (c b : Z) : Z := if b =? 0 then c else 65535 - c.

Definition is_cost (c : Z) : Prop := 0 <= c <= 65535.

Lemma sum_upto_range n f B : (forall i, (i < n)%nat -> 0 <= f i <= B) -> 0 <= sum_upto n f <= Z.of_nat n * B.
Proof.
  intros H. induction n as [|n IH]; [cbn; lia|]. rewrite sum_upto_S. pose proof (H n ltac:(lia)).
  specialize (IH ltac:(intros; apply H; lia)). lia.
Qed.

Lemma bit_cost_range c b : is_cost c -> 0 <= bit_cost c b <= 65535.
Proof. unfold is_cost, bit_cost. destruct (b =? 0); lia. Qed.

Section Code.
Context (code : tetra_conv_code) (Hcode : code_ok code = true).
Notation next := (conv_next_state code).
Notation input := (conv_input_of code).
Notation low := (acs_low code).
Notation high := (acs_high code).
Notation n_lanes := (lanes code).

Lemma lanes_le : (n_lanes <= 4)%nat.
Proof using Hcode. unfold code_ok in Hcode. apply andb_true_iff in Hcode as [H _]. apply andb_true_iff in H as [H _]. apply andb_true_iff in H as [H _]. by apply Nat.leb_le. Qed.

Lemma zero_loop : next 0 0 = 0.
Proof using Hcode. unfold code_ok in Hcode. apply andb_true_iff in Hcode as [H _]. apply andb_true_iff in H as [H _]. apply andb_true_iff in H as [_ H]. by apply Z.eqb_eq. Qed.

(** The edges into a state. *)
Lemma into (to : nat) : (to < 16)%nat -> let z := Z.of_nat to in let b := input z in
  is_bit b /\ 0 <= low z < high z /\ high z < 16 /\ next (low z) b = z /\ next (high z) b = z /\
  forall lane, (lane < n_lanes)%nat -> let w := Z.land (Z.shiftr ((incoming code).[to]) (Z.of_nat lane)) 1 in
    edge code (low z) b lane = w /\ edge code (high z) b lane = 1 - w.
Proof using Hcode.
  intros Hto z b. unfold code_ok in Hcode. apply andb_true_iff in Hcode as [H _]. apply andb_true_iff in H as [_ H].
  pose proof (check_nat _ _ H to Hto) as C. unfold state_ok in C. fold z b in C. rewrite !andb_true_iff in C.
  destruct C as ((((((C1 & C2) & C3) & C4) & C5) & C6) & C7).
  split; [apply orb_true_iff in C1; unfold is_bit; lia|]. repeat (split; [lia|]).
  intros lane Hl. pose proof (check_nat _ _ C7 lane Hl) as C. cbv beta zeta in C. apply andb_true_iff in C. lia.
Qed.

(** The edges out of a state. *)
Lemma out_of s b : 0 <= s < 16 -> is_bit b -> let z := next s b in
  0 <= z < 16 /\ input z = b /\ (low z = s \/ high z = s).
Proof using Hcode.
  intros Hs Hb. unfold code_ok in Hcode. apply andb_true_iff in Hcode as [_ H].
  pose proof (check_nat _ _ H (Z.to_nat s) ltac:(lia)) as C. unfold input_ok in C. rewrite Z2Nat.id in C by lia.
  rewrite forallb_forall in C. specialize (C b ltac:(destruct Hb as [-> | ->]; cbn; auto)). cbv beta zeta in C.
  rewrite !andb_true_iff, orb_true_iff in C. cbv zeta. lia.
Qed.

Lemma edge_bit s b lane : is_bit (edge code s b lane).
Proof. unfold edge, parity5. apply land1_bit. Qed.

(** *** Paths: the input bit at each time *)

Implicit Types (u v : nat -> Z) (costs : list Z).

Fixpoint state_at u (n : nat) : Z :=
  match n with O => 0 | S n => next (state_at u n) (u n) end.

Definition path_bits u (n : nat) : Prop := forall t, (t < n)%nat -> is_bit (u t).

Definition edge_cost (costs : list Z) (pos : nat) (s b : Z) : Z :=
  sum_upto n_lanes (fun lane => bit_cost (costs.[(pos * n_lanes + lane)%nat]) (edge code s b lane)).

Definition path_cost costs u (n : nat) : Z := sum_upto n (fun pos => edge_cost costs pos (state_at u pos) (u pos)).

Lemma path_bits_S u n : path_bits u (S n) -> path_bits u n.
Proof. intros H t Ht. apply H. lia. Qed.

Lemma state_at_range u n : path_bits u n -> 0 <= state_at u n < 16.
Proof using Hcode.
  intros H. induction n as [|n IH]; [cbn; lia|]. cbn [state_at].
  by apply out_of; [apply IH, path_bits_S|apply H; lia].
Qed.

Lemma path_ext u v n : (forall t, (t < n)%nat -> u t = v t) -> state_at u n = state_at v n.
Proof. intros H. induction n as [|n IH]; [done|]. cbn [state_at]. rewrite IH by (intros; apply H; lia). by rewrite H by lia. Qed.

Lemma conv_path_cost_S costs u n : path_cost costs u (S n) = path_cost costs u n + edge_cost costs n (state_at u n) (u n).
Proof. apply sum_upto_S. Qed.

Lemma conv_path_cost_ext costs u v n : (forall t, (t < n)%nat -> u t = v t) -> path_cost costs u n = path_cost costs v n.
Proof.
  intros H. apply sum_upto_ext. intros t Ht. rewrite (path_ext u v t) by (intros; apply H; lia). by rewrite H.
Qed.

Lemma edge_cost_range costs pos s b : Forall is_cost costs -> 0 <= edge_cost costs pos s b <= 262140.
Proof using Hcode.
  intros Hc. assert (H : forall i, is_cost (costs.[i])).
  { intros i. destruct (decide (i < length costs)%nat) as [Hi|Hi]; [|rewrite nth_overflow by lia; unfold is_cost; lia].
    rewrite nth_lookup. destruct (lookup_lt_is_Some_2 costs i Hi) as [x Hx]. rewrite Hx. exact (Forall_lookup_1 _ _ _ _ Hc Hx). }
  pose proof (sum_upto_range n_lanes (fun lane => bit_cost (costs.[(pos * n_lanes + lane)%nat]) (edge code s b lane)) 65535
    (fun i _ => bit_cost_range _ _ (H _))). pose proof lanes_le. unfold edge_cost. lia.
Qed.

Lemma path_cost_range costs u n : Forall is_cost costs -> 0 <= path_cost costs u n <= Z.of_nat n * 262140.
Proof using Hcode. intros H. apply sum_upto_range. intros. by apply edge_cost_range. Qed.

(** *** One step of the search *)

Lemma cost_nth costs i : Forall is_cost costs -> is_cost (costs.[i]).
Proof.
  intros Hc. destruct (decide (i < length costs)%nat) as [Hi|Hi]; [|rewrite nth_overflow by lia; unfold is_cost; lia].
  rewrite nth_lookup. destruct (lookup_lt_is_Some_2 costs i Hi) as [x Hx]. rewrite Hx. exact (Forall_lookup_1 _ _ _ _ Hc Hx).
Qed.

Lemma edge_cost_drop costs pos s b : edge_cost (drop (pos * n_lanes) costs) 0 s b = edge_cost costs pos s b.
Proof. apply sum_upto_ext. intros lane _. by rewrite nth_drop. Qed.

Lemma acs_branch_spec costs : Forall is_cost costs ->
  length (acs_branch code costs) = 16%nat /\
  forall to, (to < 16)%nat -> let z := Z.of_nat to in (acs_branch code costs).[to] = edge_cost costs 0 (low z) (input z).
Proof using Hcode.
  intros Hc. pose proof lanes_le as HL.
  enough (H : forall n, (n <= n_lanes)%nat -> let r := for_ 0 n (fun lane branch =>
      let zero := costs.[lane] in
      let one := 65535 - zero in
      for_ 0 TETRA_VITERBI_STATES (fun to branch =>
        branch.[to <- u32 (branch.[to] + (if Z.land (Z.shiftr ((incoming code).[to]) (Z.of_nat lane)) 1 =? 0 then zero else one))])
        branch) (replicate TETRA_VITERBI_STATES 0) in
    length r = 16%nat /\ forall to, (to < 16)%nat -> let z := Z.of_nat to in
      r.[to] = sum_upto n (fun lane => bit_cost (costs.[lane]) (edge code (low z) (input z) lane))) by (by apply H).
  intros n Hn. induction n as [|n IH]; [split; [done|]; intros to Hto; apply nth_replicate|].
  rewrite for_S by lia. cbv zeta in IH |- *. destruct IH as [IHl IH]; [lia|].
  set (r := for_ 0 n _ _) in *.
  destruct (for_update TETRA_VITERBI_STATES (fun to x => u32 (x + (if Z.land (Z.shiftr ((incoming code).[to]) (Z.of_nat n)) 1 =? 0
    then costs.[n] else 65535 - costs.[n]))) r) as [H1 H2]; [rewrite IHl; unfold TETRA_VITERBI_STATES; lia|].
  split; [by rewrite H1|]. intros to Hto. rewrite H2. rewrite decide_True by (unfold TETRA_VITERBI_STATES; lia).
  rewrite IH, sum_upto_S by done. destruct (into to Hto) as (Hb & Hl & Hh & _ & _ & He). destruct (He n ltac:(lia)) as [E _].
  rewrite E. unfold bit_cost at 3. apply u32_small.
  pose proof (sum_upto_range n (fun lane => bit_cost (costs.[lane]) (edge code (low (Z.of_nat to)) (input (Z.of_nat to)) lane)) 65535
    (fun i _ => bit_cost_range _ _ (cost_nth costs i Hc))). pose proof (cost_nth costs n Hc) as Hcn. unfold is_cost in Hcn.
  destruct (_ =? 0); lia.
Qed.

(** The edge from the higher predecessor carries the complement. *)
Lemma high_edge costs to : (to < 16)%nat -> let z := Z.of_nat to in
  edge_cost costs 0 (high z) (input z) = Z.of_nat n_lanes * 65535 - edge_cost costs 0 (low z) (input z).
Proof using Hcode.
  intros Hto z. destruct (into to Hto) as (_ & _ & _ & _ & _ & He). fold z in He. unfold edge_cost.
  assert (H : forall m, (m <= n_lanes)%nat -> sum_upto m (fun lane => bit_cost (costs.[(0 * n_lanes + lane)%nat]) (edge code (high z) (input z) lane))
    = Z.of_nat m * 65535 - sum_upto m (fun lane => bit_cost (costs.[(0 * n_lanes + lane)%nat]) (edge code (low z) (input z) lane))).
  { induction m as [|m IH]; [done|]. intros Hm. rewrite !sum_upto_S, IH by lia. destruct (He m ltac:(lia)) as [E1 E2].
    rewrite E1, E2. unfold bit_cost. destruct (land1_bit (Z.shiftr ((incoming code).[to]) (Z.of_nat m))) as [-> | ->];
      [change (1 - 0 =? 0) with false; change (0 =? 0) with true|change (1 - 1 =? 0) with true; change (1 =? 0) with false]; cbv iota; lia. }
  by apply H.
Qed.

Definition live (m : Z) : Prop := m < TETRA_VITERBI_INF.
Definition metrics_ok (M : list Z) : Prop := length M = 16%nat /\ Forall (fun m => 0 <= m <= TETRA_VITERBI_INF) M.

Lemma metrics_nth M s : metrics_ok M -> 0 <= M.[s] <= TETRA_VITERBI_INF.
Proof.
  intros [L H]. destruct (decide (s < length M)%nat) as [Hi|Hi]; [|rewrite nth_overflow by lia; vm_compute; split; discriminate].
  rewrite nth_lookup. destruct (lookup_lt_is_Some_2 M s Hi) as [x Hx]. rewrite Hx. exact (Forall_lookup_1 _ _ _ _ H Hx).
Qed.

(** The new metric of a state is the least over its two edges, at most the
    bound, and its predecessor is the start of a least edge, the lower at a tie. *)
Lemma acs_step_spec M costs : metrics_ok M -> Forall is_cost costs ->
  let '(M', row) := conv_acs_step code M costs in
  metrics_ok M' /\ length row = 16%nat /\
  forall to, (to < 16)%nat -> let z := Z.of_nat to in
    let a := M.[Z.to_nat (low z)] + edge_cost costs 0 (low z) (input z) in
    let b := M.[Z.to_nat (high z)] + edge_cost costs 0 (high z) (input z) in
    M'.[to] = Z.min (Z.min a b) TETRA_VITERBI_INF /\
    row.[to] = (if Z.min a b <? TETRA_VITERBI_INF then (if b <? a then high z else low z) else 0).
Proof using Hcode.
  intros HM Hc. unfold conv_acs_step. destruct (acs_branch_spec costs Hc) as [_ HB]. set (branch := acs_branch code costs) in *.
  assert (H : forall to, (to < 16)%nat -> let z := Z.of_nat to in
    let a := M.[Z.to_nat (low z)] + edge_cost costs 0 (low z) (input z) in
    let b := M.[Z.to_nat (high z)] + edge_cost costs 0 (high z) (input z) in
    acs_select code M branch to = (Z.min (Z.min a b) TETRA_VITERBI_INF,
      if Z.min a b <? TETRA_VITERBI_INF then (if b <? a then high z else low z) else 0)).
  { intros to Hto z a b. unfold acs_select. fold z. rewrite HB by done. fold z. destruct (into to Hto) as (_ & Hl & Hh & _). fold z in Hl, Hh.
    assert (Eb : Z.of_nat n_lanes * 65535 - edge_cost costs 0 (low z) (input z) = edge_cost costs 0 (high z) (input z))
      by (symmetry; apply (high_edge costs to Hto)).
    rewrite Eb. pose proof (edge_cost_range costs 0 (low z) (input z) Hc). pose proof (edge_cost_range costs 0 (high z) (input z) Hc).
    pose proof (metrics_nth M (Z.to_nat (low z)) HM). pose proof (metrics_nth M (Z.to_nat (high z)) HM).
    assert (HI : TETRA_VITERBI_INF = 1073741823) by reflexivity.
    rewrite !u32_small by lia. fold a b. cbv zeta.
    assert (Em : (if b <? a then b else a) = Z.min a b) by (destruct (Z.ltb_spec b a); lia). rewrite Em. f_equal.
    - destruct (Z.ltb_spec (Z.min a b) TETRA_VITERBI_INF); lia.
    - destruct (Z.min a b <? TETRA_VITERBI_INF); [|done]. apply Z.mod_small. destruct (b <? a); lia. }
  split; [|split; [by rewrite length_map, length_seq|]].
  - split; [by rewrite length_map, length_seq|]. apply Forall_fmap, Forall_forall. intros to Hto. apply elem_of_seq in Hto.
    unfold TETRA_VITERBI_STATES in Hto. change (0 <= fst (acs_select code M branch to) <= TETRA_VITERBI_INF).
    rewrite H by lia. cbn [fst].
    destruct (into to ltac:(lia)) as (_ & Hl & Hh & _).
    pose proof (edge_cost_range costs 0 (low (Z.of_nat to)) (input (Z.of_nat to)) Hc).
    pose proof (edge_cost_range costs 0 (high (Z.of_nat to)) (input (Z.of_nat to)) Hc).
    pose proof (metrics_nth M (Z.to_nat (low (Z.of_nat to))) HM). pose proof (metrics_nth M (Z.to_nat (high (Z.of_nat to))) HM).
    assert (HI : TETRA_VITERBI_INF = 1073741823) by reflexivity. lia.
  - intros to Hto. specialize (H to Hto). cbv zeta in H |- *. rewrite !nth_map_seq by (unfold TETRA_VITERBI_STATES; lia).
    cbn [Nat.add]. rewrite H. done.
Qed.

(** *** The search *)

(** The state [d] steps before the end of the path traced back from [s] at time [n]. *)
Fixpoint back_state (pred : list Z) (n : nat) (s : Z) (d : nat) : Z :=
  match d with
  | O => s
  | S d => pred.[((n - 1 - d) * 16 + Z.to_nat (back_state pred n s d))%nat]
  end.

Definition back_path (pred : list Z) (n : nat) (s : Z) (t : nat) : Z := input (back_state pred n s (n - 1 - t)).

Lemma conv_back_state_cons pred n s d : back_state pred (S n) s (S d) = back_state pred n (pred.[(n * 16 + Z.to_nat s)%nat]) d.
Proof using.
  induction d as [|d IH]; [cbn [back_state]; do 2 f_equal; lia|].
  change (back_state pred (S n) s (S (S d))) with (pred.[((S n - 1 - S d) * 16 + Z.to_nat (back_state pred (S n) s (S d)))%nat]).
  rewrite IH. cbn [back_state]. do 3 f_equal. lia.
Qed.

Lemma conv_back_state_ext pred pred' n s d : (d <= n)%nat -> (forall a, (a < n * 16)%nat -> pred.[a] = pred'.[a]) ->
  (forall d', (d' < d)%nat -> 0 <= back_state pred n s d' < 16) -> back_state pred n s d = back_state pred' n s d.
Proof using.
  intros Hd He. induction d as [|d IH]; [done|]. intros Hr. cbn [back_state].
  rewrite <- IH by (lia || (intros; apply Hr; lia)). apply He. specialize (Hr d ltac:(lia)). nia.
Qed.

Record search_inv (costs : list Z) (n : nat) (M pred : list Z) : Prop := {
  inv_metrics : metrics_ok M;
  inv_least : forall u, path_bits u n -> M.[Z.to_nat (state_at u n)] <= path_cost costs u n;
  inv_states : forall s, 0 <= s < 16 -> live (M.[Z.to_nat s]) -> forall d, (d <= n)%nat -> 0 <= back_state pred n s d < 16;
  inv_attained : forall s, 0 <= s < 16 -> live (M.[Z.to_nat s]) ->
    path_bits (back_path pred n s) n /\ state_at (back_path pred n s) n = s /\ path_cost costs (back_path pred n s) n = M.[Z.to_nat s]
}.

Lemma input_bit s : 0 <= s < 16 -> is_bit (input s).
Proof using Hcode. intros Hs. destruct (into (Z.to_nat s) ltac:(lia)) as [H _]. by rewrite Z2Nat.id in H by lia. Qed.

Lemma search_start costs junk : search_inv costs 0 start_metric junk.
Proof using.
  assert (HM : metrics_ok start_metric) by (split; [done|apply (bool_decide_unpack _); vm_compute; exact I]).
  assert (Hlive : forall s, 0 <= s < 16 -> live (start_metric.[Z.to_nat s]) -> s = 0).
  { intros s Hs H. destruct (decide (s = 0)) as [|Hne]; [done|]. exfalso. unfold live, start_metric in H.
    rewrite nth_map_seq in H by (unfold TETRA_VITERBI_STATES; lia). cbn [Nat.add] in H.
    destruct (Nat.eqb_spec (Z.to_nat s) 0); lia. }
  split; [done| | |].
  - intros u _. change (0 <= 0). lia.
  - intros s Hs H d Hd. replace d with 0%nat by lia. done.
  - intros s Hs H. rewrite (Hlive s Hs H). split; [intros t Ht; lia|]. done.
Qed.

(** The row written at step [n]. *)
Lemma blit_row pred n row a : length row = 16%nat -> (S n * 16 <= length pred)%nat ->
  (blit pred (n * 16) row).[a] = if decide (n * 16 <= a < S n * 16)%nat then row.[(a - n * 16)%nat] else pred.[a].
Proof using.
  intros L Hl. unfold blit. rewrite L. destruct (decide (a < n * 16)%nat) as [H1|H1].
  - rewrite app_nth1 by (rewrite length_take; lia). rewrite nth_take by lia. destruct (decide _); [lia|done].
  - rewrite app_nth2 by (rewrite length_take; lia). rewrite length_take, Nat.min_l by lia.
    destruct (decide (a < S n * 16)%nat) as [H2|H2].
    + rewrite app_nth1 by lia. by destruct (decide _); [|lia].
    + rewrite app_nth2, L, nth_drop by lia. destruct (decide _); [lia|]. f_equal. lia.
Qed.

Lemma conv_search_step costs n M pred : Forall is_cost costs -> (S n * 16 <= length pred)%nat -> search_inv costs n M pred ->
  let '(M', row) := conv_acs_step code M (drop (n * n_lanes) costs) in
  length row = 16%nat /\ search_inv costs (S n) M' (blit pred (n * 16) row).
Proof using Hcode.
  intros Hc Hl [IM IL IS IA]. pose proof (acs_step_spec M (drop (n * n_lanes) costs) IM (Forall_drop _ _ _ Hc)) as H.
  destruct (conv_acs_step code M _) as [M' row]. destruct H as (HM' & Lr & H). split; [done|].
  assert (H' : forall to, 0 <= to < 16 ->
    let a := M.[Z.to_nat (low to)] + edge_cost costs n (low to) (input to) in
    let b := M.[Z.to_nat (high to)] + edge_cost costs n (high to) (input to) in
    M'.[Z.to_nat to] = Z.min (Z.min a b) TETRA_VITERBI_INF /\
    row.[Z.to_nat to] = (if Z.min a b <? TETRA_VITERBI_INF then (if b <? a then high to else low to) else 0)).
  { intros to Hto. specialize (H (Z.to_nat to) ltac:(lia)). rewrite Z2Nat.id in H by lia. cbv zeta in H |- *. by rewrite !edge_cost_drop in H. }
  clear H. set (pred' := blit pred (n * 16) row).
  assert (Hp : forall s, 0 <= s < 16 -> live (M'.[Z.to_nat s]) -> exists p, 0 <= p < 16 /\ live (M.[Z.to_nat p]) /\
    pred'.[(n * 16 + Z.to_nat s)%nat] = p /\ next p (input s) = s /\ M'.[Z.to_nat s] = M.[Z.to_nat p] + edge_cost costs n p (input s)).
  { intros s Hs Hlive. destruct (H' s Hs) as [EM Er]. unfold live in Hlive.
    destruct (into (Z.to_nat s) ltac:(lia)) as (_ & Hlo & Hhi & Nl & Nh & _). rewrite Z2Nat.id in * by lia.
    pose proof (edge_cost_range costs n (low s) (input s) Hc). pose proof (edge_cost_range costs n (high s) (input s) Hc).
    assert (Er' : pred'.[(n * 16 + Z.to_nat s)%nat] = row.[Z.to_nat s]).
    { unfold pred'. rewrite blit_row by done. rewrite decide_True by lia. f_equal. lia. }
    rewrite (proj2 (Z.ltb_lt _ _)) in Er by lia.
    exists (row.[Z.to_nat s]). rewrite Er', Er. unfold live. destruct (Z.ltb_spec (M.[Z.to_nat (high s)] + edge_cost costs n (high s) (input s))
      (M.[Z.to_nat (low s)] + edge_cost costs n (low s) (input s))); repeat split; (done || lia). }
  assert (Hold : forall a, (a < n * 16)%nat -> pred.[a] = pred'.[a]).
  { intros a Ha. unfold pred'. rewrite blit_row by done. by rewrite decide_False by lia. }
  assert (Hback : forall s p d, pred'.[(n * 16 + Z.to_nat s)%nat] = p -> 0 <= p < 16 -> live (M.[Z.to_nat p]) -> (d <= n)%nat ->
    back_state pred' (S n) s (S d) = back_state pred n p d).
  { intros s p d Ep Hpr Hpl Hd. rewrite conv_back_state_cons, Ep. symmetry. apply conv_back_state_ext; [done|done|].
    intros d' Hd'. apply IS; [done|done|lia]. }
  split; [done| | |].
  - intros u Hu. cbn [state_at]. rewrite conv_path_cost_S. pose proof (state_at_range u n (path_bits_S u n Hu)) as Hs.
    destruct (out_of (state_at u n) (u n) Hs (Hu n ltac:(lia))) as (Hz & Ei & Hor). set (z := next (state_at u n) (u n)) in *.
    destruct (H' z Hz) as [EM _]. rewrite EM, Ei. pose proof (IL u (path_bits_S u n Hu)).
    destruct Hor as [E|E]; rewrite <- E in *; lia.
  - intros s Hs Hlive d Hd. destruct d as [|d]; [done|]. destruct (Hp s Hs Hlive) as (p & Hpr & Hpl & Ep & _ & _).
    rewrite (Hback s p d) by (done || lia). apply IS; [done|done|lia].
  - intros s Hs Hlive. destruct (Hp s Hs Hlive) as (p & Hpr & Hpl & Ep & Hnext & EM).
    destruct (IA p Hpr Hpl) as (A1 & A2 & A3).
    assert (E0 : back_path pred' (S n) s n = input s) by (unfold back_path; by replace (S n - 1 - n)%nat with 0%nat by lia).
    assert (E1 : forall t, (t < n)%nat -> back_path pred' (S n) s t = back_path pred n p t).
    { intros t Ht. unfold back_path. replace (S n - 1 - t)%nat with (S (n - 1 - t)) by lia.
      rewrite (Hback s p) by (done || lia). done. }
    assert (Es : state_at (back_path pred' (S n) s) n = p) by (rewrite (path_ext _ (back_path pred n p)) by done; done).
    split; [|split].
    + intros t Ht. destruct (decide (t = n)) as [->|]; [rewrite E0; by apply input_bit|]. rewrite E1 by lia. apply A1. lia.
    + cbn [state_at]. by rewrite Es, E0.
    + rewrite conv_path_cost_S, Es, E0, (conv_path_cost_ext _ _ (back_path pred n p)), A3 by done. by rewrite EM.
Qed.

Lemma conv_search_run costs n junk : Forall is_cost costs -> (n * 16 <= length junk)%nat ->
  let '(M, pred) := conv_acs_run_scalar code start_metric costs n junk in
  length pred = length junk /\ search_inv costs n M pred.
Proof using Hcode.
  intros Hc Hl. unfold conv_acs_run_scalar. induction n as [|n IH]; [split; [done|apply search_start]|].
  rewrite for_S by lia. specialize (IH ltac:(lia)). destruct (for_ 0 n _ _) as [M pred]. destruct IH as [IHl IH].
  pose proof (conv_search_step costs n M pred Hc ltac:(lia) IH) as H.
  destruct (conv_acs_step code M _) as [M' row]. destruct H as [Lr H].
  split; [|exact H]. unfold TETRA_VITERBI_STATES. rewrite length_blit by lia. exact IHl.
Qed.

(** The all-zero path keeps state 0 within reach: the other states are never looked at. *)
Lemma zero_state n : state_at (fun _ => 0) n = 0.
Proof using Hcode. induction n as [|n IH]; [done|]. cbn [state_at]. by rewrite IH, zero_loop. Qed.

Lemma zero_live costs n M pred : Forall is_cost costs -> (n <= 512)%nat -> search_inv costs n M pred -> live (M.[0%nat]).
Proof using Hcode.
  intros Hc Hn [_ IL _ _]. specialize (IL (fun _ => 0) ltac:(intros t _; by left)). rewrite zero_state in IL.
  pose proof (path_cost_range costs (fun _ => 0) n Hc). unfold live. assert (TETRA_VITERBI_INF = 1073741823) by reflexivity.
  change (Z.to_nat 0) with 0%nat in IL. lia.
Qed.

Lemma trace_back_spec pred n s out : (n <= length out)%nat -> (forall d, (d <= n)%nat -> 0 <= back_state pred n s d < 16) ->
  let r := trace_back code pred n s out in
  length r = length out /\ forall t, r.[t] = if decide (t < n)%nat then back_path pred n s t else out.[t].
Proof using Hcode.
  intros Hn Hr. unfold trace_back.
  enough (H : forall k, (k <= n)%nat -> let q := for_ 0 k (fun k '(state, out_bits) =>
      let pos := (n - 1 - k)%nat in
      (pred.[(pos * TETRA_VITERBI_STATES + Z.to_nat state)%nat], out_bits.[pos <- u8 (conv_input_of code state)])) (s, out) in
    fst q = back_state pred n s k /\ length (snd q) = length out /\
    forall t, (snd q).[t] = if decide (n - k <= t < n)%nat then back_path pred n s t else out.[t]).
  { destruct (H n ltac:(lia)) as (_ & H2 & H3). split; [exact H2|]. intros t. rewrite H3. rewrite Nat.sub_diag.
    by repeat destruct (decide _); try lia. }
  intros k Hk. induction k as [|k IH].
  { rewrite for_nil by lia. split; [done|]. split; [done|]. intros t. by destruct (decide _); [lia|]. }
  rewrite for_S by lia. destruct IH as (H1 & H2 & H3); [lia|]. destruct (for_ 0 k _ _) as [st o]. cbn [fst snd] in *. subst st.
  split; [done|]. rewrite length_insert. split; [done|]. intros t. rewrite nth_insert, H2.
  destruct (decide (n - 1 - k = t /\ _)%nat) as [[<- _]|Hne].
  - rewrite decide_True by lia. unfold back_path. replace (n - 1 - (n - 1 - k))%nat with k by lia.
    destruct (input_bit (back_state pred n s k) (Hr k ltac:(lia))) as [-> | ->]; done.
  - rewrite H3. repeat destruct (decide _); try done; lia.
Qed.

(** The decoder finds a cheapest path among those that end in state 0. *)
Lemma viterbi_optimal junk costs n out : Forall is_cost costs -> (n <= 512)%nat -> (n * 16 <= length junk)%nat -> (n <= length out)%nat ->
  let r := conv_viterbi code junk costs n out in
  let u t := r.[t] in
  length r = length out /\ (forall t, (n <= t)%nat -> r.[t] = out.[t]) /\ path_bits u n /\ state_at u n = 0 /\
  forall v, path_bits v n -> state_at v n = 0 -> path_cost costs u n <= path_cost costs v n.
Proof using Hcode.
  intros Hc Hn Hj Ho. unfold conv_viterbi. pose proof (conv_search_run costs n junk Hc Hj) as H.
  destruct (conv_acs_run_scalar code start_metric costs n junk) as [M pred]. destruct H as [Lp HI].
  pose proof (zero_live costs n M pred Hc Hn HI) as H0. destruct HI as [IM IL IS IA].
  assert (E0 : end_state M = 0).
  { unfold end_state. unfold live in H0. destruct (Z.eqb_spec (M.[0%nat]) TETRA_VITERBI_INF); [lia|done]. }
  rewrite E0. specialize (IA 0 ltac:(lia) H0). specialize (IS 0 ltac:(lia) H0). destruct IA as (A1 & A2 & A3).
  destruct (trace_back_spec pred n 0 out Ho IS) as [T1 T2]. cbv zeta. set (r := trace_back code pred n 0 out) in *.
  assert (E : forall t, (t < n)%nat -> r.[t] = back_path pred n 0 t) by (intros t Ht; rewrite T2; by rewrite decide_True).
  split; [exact T1|]. split; [intros t Ht; rewrite T2; by rewrite decide_False by lia|].
  split; [intros t Ht; rewrite E by done; by apply A1|].
  split; [by rewrite (path_ext _ (back_path pred n 0)) by exact E|].
  intros v Hv Ev. rewrite (conv_path_cost_ext _ _ (back_path pred n 0)), A3 by exact E. specialize (IL v Hv). by rewrite Ev in IL.
Qed.

(** The encoder writes the bits of the edges of its path. *)
Definition code_bit u (i : nat) : Z := edge code (state_at u (i / n_lanes)) (u (i / n_lanes)%nat) (i mod n_lanes).

Lemma conv_encode_spec bits n coded : (0 < n_lanes)%nat -> (n * n_lanes <= length coded)%nat ->
  let r := conv_encode code bits n coded in
  length r = length coded /\
  forall i, r.[i] = if decide (i < n * n_lanes)%nat then code_bit (fun t => Z.land (bits.[t]) 1) i else coded.[i].
Proof using.
  intros H0 Hl. unfold conv_encode. set (u := fun t => Z.land (bits.[t]) 1).
  enough (H : forall k, (k <= n)%nat -> let q := for_ 0 k (fun pos '(state, coded) =>
      let bit := Z.land (bits.[pos]) 1 in
      let involved := u8 (Z.lor (Z.shiftl bit 4) state) in
      let coded := for_ 0 n_lanes (fun lane coded =>
        coded.[(pos * n_lanes + lane)%nat <- parity5 (Z.land involved ((taps code).[lane]))]) coded in
      (conv_next_state code state bit, coded)) (0, coded) in
    fst q = state_at u k /\ length (snd q) = length coded /\
    forall i, (snd q).[i] = if decide (i < k * n_lanes)%nat then code_bit u i else coded.[i]).
  { destruct (H n ltac:(lia)) as (_ & H2 & H3). by split. }
  intros k Hk. induction k as [|k IH].
  { rewrite for_nil by lia. split; [done|]. split; [done|]. intros i. by destruct (decide _); [lia|]. }
  rewrite for_S by lia. destruct IH as (H1 & H2 & H3); [lia|]. destruct (for_ 0 k _ _) as [st c]. cbn [fst snd] in *. subst st.
  split; [done|]. cbv zeta. assert (Hkn : (S k * n_lanes <= n * n_lanes)%nat) by (apply Nat.mul_le_mono_r; lia).
  assert (Hs := length_stores (fun lane => (k * n_lanes + lane)%nat)
    (fun lane => parity5 (Z.land (u8 (Z.lor (Z.shiftl (Z.land (bits.[k]) 1) 4) (state_at u k))) ((taps code).[lane]))) n_lanes c).
  unfold stores in Hs. rewrite Hs. split; [done|]. intros i.
  destruct (decide (k * n_lanes <= i < S k * n_lanes)%nat) as [Hi|Hi].
  - rewrite decide_True by lia. assert (Ei : i = (k * n_lanes + (i - k * n_lanes))%nat) by lia. rewrite Ei at 1.
    etransitivity; [apply (stores_hit (fun lane => (k * n_lanes + lane)%nat)
      (fun lane => parity5 (Z.land (u8 (Z.lor (Z.shiftl (Z.land (bits.[k]) 1) 4) (state_at u k))) ((taps code).[lane]))) n_lanes c);
      [lia|intros; lia|lia]|].
    unfold code_bit. assert (Eq : (i / n_lanes = k)%nat) by (symmetry; apply (Nat.div_unique i n_lanes k (i - k * n_lanes)); lia).
    assert (Em : (i mod n_lanes = i - k * n_lanes)%nat) by (rewrite Nat.Div0.mod_eq, Eq; lia). rewrite Eq, Em. done.
  - etransitivity; [apply (stores_miss (fun lane => (k * n_lanes + lane)%nat)); intros; lia|]. rewrite H3.
    repeat destruct (decide _); try done; lia.
Qed.

(** *** When the search finds what was sent

    Two paths differ in a path again, and its coded bits are the differences.
    The least weight of a path that is not all zero is computed along the
    trellis; weights say what a wrong bit costs. *)

Definition linear_ok : bool :=
  forallb (fun s => forallb (fun s' => forallb (fun b => forallb (fun b' =>
    let x := Z.of_nat s in let y := Z.of_nat s' in
    (next (Z.lxor x y) (Z.lxor b b') =? Z.lxor (next x b) (next y b')) &&
    forallb (fun lane => edge code (Z.lxor x y) (Z.lxor b b') lane =? Z.lxor (edge code x b lane) (edge code y b' lane)) (seq 0 n_lanes))
    [0; 1]) [0; 1]) (seq 0 16)) (seq 0 16).

Context (Hlin : linear_ok = true).

Lemma linear x y b b' : 0 <= x < 16 -> 0 <= y < 16 -> is_bit b -> is_bit b' ->
  next (Z.lxor x y) (Z.lxor b b') = Z.lxor (next x b) (next y b') /\
  forall lane, (lane < n_lanes)%nat -> edge code (Z.lxor x y) (Z.lxor b b') lane = Z.lxor (edge code x b lane) (edge code y b' lane).
Proof using Hlin.
  intros Hx Hy Hb Hb'. pose proof (check_nat _ _ Hlin (Z.to_nat x) ltac:(lia)) as C1. cbv beta in C1.
  pose proof (check_nat _ _ C1 (Z.to_nat y) ltac:(lia)) as C2. cbv beta in C2. rewrite forallb_forall in C2.
  specialize (C2 b ltac:(destruct Hb as [-> | ->]; cbn; auto)). rewrite forallb_forall in C2.
  specialize (C2 b' ltac:(destruct Hb' as [-> | ->]; cbn; auto)). cbv zeta in C2. rewrite !Z2Nat.id in C2 by lia.
  apply andb_true_iff in C2 as [E1%Z.eqb_eq E2]. split; [exact E1|]. intros lane Hl.
  pose proof (check_nat _ _ E2 lane Hl) as E. by apply Z.eqb_eq in E.
Qed.

Definition difference u v (t : nat) : Z := Z.lxor (u t) (v t).

Lemma difference_bits u v n : path_bits u n -> path_bits v n -> path_bits (difference u v) n.
Proof using. intros Hu Hv t Ht. unfold difference. apply is_bit_lxor; [by apply Hu|by apply Hv]. Qed.

Lemma difference_state u v n : path_bits u n -> path_bits v n -> state_at (difference u v) n = Z.lxor (state_at u n) (state_at v n).
Proof using Hcode Hlin.
  intros Hu Hv. induction n as [|n IH]; [done|]. cbn [state_at]. rewrite IH by (by apply path_bits_S).
  apply linear; [apply state_at_range; by apply path_bits_S..|apply Hu; lia|apply Hv; lia].
Qed.

Definition edge_weight (w : list Z) (pos : nat) (s b : Z) : Z :=
  sum_upto n_lanes (fun lane => if edge code s b lane =? 0 then 0 else w.[(pos * n_lanes + lane)%nat]).
Definition path_weight (w : list Z) u (n : nat) : Z := sum_upto n (fun pos => edge_weight w pos (state_at u pos) (u pos)).

(** What a cost adds when the bit [b] is replaced by the other. *)
Definition gain (c b : Z) : Z := if b =? 0 then 65535 - 2 * c else 2 * c - 65535.

Lemma bit_cost_gain c b d : is_bit b -> is_bit d -> bit_cost c (Z.lxor b d) = bit_cost c b + (if d =? 0 then 0 else gain c b).
Proof using.
  intros Hb Hd. unfold bit_cost, gain.
  destruct Hb as [-> | ->], Hd as [-> | ->];
    [change (Z.lxor 0 0) with 0|change (Z.lxor 0 1) with 1|change (Z.lxor 1 0) with 1|change (Z.lxor 1 1) with 0];
    change (0 =? 0) with true; change (1 =? 0) with false; cbv iota; lia.
Qed.

Lemma path_cost_difference costs w u u0 n : path_bits u n -> path_bits u0 n ->
  (forall i, (i < n * n_lanes)%nat -> 65535 * w.[i] - 1 <= gain (costs.[i]) (code_bit u0 i)) ->
  path_cost costs u0 n + 65535 * path_weight w (difference u u0) n - Z.of_nat (n * n_lanes) <= path_cost costs u n.
Proof using Hcode Hlin.
  intros Hu Hu0 Hw. enough (H : forall m, (m <= n)%nat ->
    path_cost costs u0 m + 65535 * path_weight w (difference u u0) m - Z.of_nat (m * n_lanes) <= path_cost costs u m) by (by apply H).
  intros m Hm. induction m as [|m IH]; [cbn; lia|]. rewrite !conv_path_cost_S. unfold path_weight. rewrite sum_upto_S.
  fold (path_weight w (difference u u0) m). specialize (IH ltac:(lia)).
  assert (Hum : path_bits u m) by (intros t Ht; apply Hu; lia). assert (Hu0m : path_bits u0 m) by (intros t Ht; apply Hu0; lia).
  rewrite difference_state by done. set (s := state_at u m). set (s0 := state_at u0 m).
  assert (Hs : 0 <= s < 16) by by apply state_at_range. assert (Hs0 : 0 <= s0 < 16) by by apply state_at_range.
  enough (H : forall k, (k <= n_lanes)%nat ->
    sum_upto k (fun lane => bit_cost (costs.[(m * n_lanes + lane)%nat]) (edge code s0 (u0 m) lane))
    + 65535 * sum_upto k (fun lane => if edge code (Z.lxor s s0) (difference u u0 m) lane =? 0 then 0 else w.[(m * n_lanes + lane)%nat])
    - Z.of_nat k <= sum_upto k (fun lane => bit_cost (costs.[(m * n_lanes + lane)%nat]) (edge code s (u m) lane))).
  { specialize (H n_lanes ltac:(lia)). unfold edge_cost, edge_weight. nia. }
  intros k Hk. induction k as [|k IHk]; [cbn; lia|]. rewrite !sum_upto_S. specialize (IHk ltac:(lia)).
  unfold difference at 2. destruct (linear s s0 (u m) (u0 m) Hs Hs0 (Hu m ltac:(lia)) (Hu0 m ltac:(lia))) as [_ HE].
  rewrite HE by lia. set (e := edge code s (u m) k). set (e0 := edge code s0 (u0 m) k).
  assert (Ee : e = Z.lxor e0 (Z.lxor e e0)) by xor_solve. rewrite Ee at 2.
  rewrite bit_cost_gain by (try apply is_bit_lxor; apply edge_bit). specialize (Hw (m * n_lanes + k)%nat ltac:(nia)).
  assert (Ec : code_bit u0 (m * n_lanes + k) = e0).
  { unfold code_bit. assert (Eq : ((m * n_lanes + k) / n_lanes = m)%nat) by (symmetry; apply (Nat.div_unique _ n_lanes m k); lia).
    assert (Em : ((m * n_lanes + k) mod n_lanes = k)%nat) by (rewrite Nat.Div0.mod_eq, Eq; lia). by rewrite Eq, Em. }
  rewrite Ec in Hw. destruct (Z.lxor e e0 =? 0); lia.
Qed.

(** The least weights of the paths to each state that are not all zero, from the
    weights of each step and the edges, as lists. *)
Definition edges (s b : Z) : list bool := map (fun lane => negb (edge code s b lane =? 0)) (seq 0 n_lanes).
Definition trellis : list (nat * nat * (list bool * list bool)) :=
  map (fun to => let z := Z.of_nat to in
    (Z.to_nat (low z), Z.to_nat (high z), (edges (low z) (input z), edges (high z) (input z)))) (seq 0 16).

Fixpoint masked (m : list bool) (ws : list Z) : Z :=
  match m, ws with b :: m, w :: ws => if b then w + masked m ws else masked m ws | _, _ => 0 end.

Definition weight_step (tr : list (nat * nat * (list bool * list bool))) (leave : nat) (first : list bool) (D : list Z) (ws : list Z) : list Z :=
  let D' := map (fun '(l, h, (ml, mh)) => Z.min (D.[l] + masked ml ws) (D.[h] + masked mh ws)) tr in
  D'.[leave <- Z.min (D'.[leave]) (masked first ws)].

Fixpoint chunks (k n : nat) (w : list Z) : list (list Z) :=
  match n with O => [] | S n => take k w :: chunks k n (drop k w) end.

Definition least_weight (w : list Z) (n : nat) : Z :=
  (fold_left (weight_step trellis (Z.to_nat (next 0 1)) (edges 0 1)) (chunks n_lanes n w) (replicate 16 1000000)).[0%nat].

Lemma sum_upto_first n (f : nat -> Z) : sum_upto (S n) f = f 0%nat + sum_upto n (fun i => f (S i)).
Proof using. induction n as [|n IH]; [cbn; lia|]. rewrite sum_upto_S, IH, (sum_upto_S n). lia. Qed.

Lemma masked_sum (f : nat -> bool) a k ws : masked (map f (seq a k)) ws = sum_upto k (fun lane => if f (a + lane)%nat then ws.[lane] else 0).
Proof using.
  revert a ws. induction k as [|k IH]; intros a ws; [done|]. rewrite sum_upto_first, Nat.add_0_r. cbn [seq map]. destruct ws as [|w ws].
  - cbn [masked]. transitivity (sum_upto (S k) (fun _ => 0)); [by rewrite sum_upto_0|]. rewrite sum_upto_first. f_equal; [by destruct (f a)|].
    apply sum_upto_ext. intros i _. by destruct (f (a + S i)%nat).
  - cbn [masked]. rewrite IH. cbn [nth].
    rewrite (sum_upto_ext k (fun i => if f (a + S i)%nat then ws.[i] else 0) (fun lane => if f (S a + lane)%nat then ws.[lane] else 0))
      by (intros i _; by rewrite Nat.add_succ_r).
    destruct (f a); lia.
Qed.

Lemma masked_edges w pos s b : masked (edges s b) (take n_lanes (drop (pos * n_lanes) w)) = edge_weight w pos s b.
Proof using.
  unfold edges. rewrite masked_sum. apply sum_upto_ext. intros lane Hl. cbn [Nat.add]. rewrite drop_take_nth by done.
  by destruct (edge code s b lane =? 0).
Qed.

Lemma chunks_snoc k n w : chunks k (S n) w = chunks k n w ++ [take k (drop (n * k) w)].
Proof using.
  revert w. induction n as [|n IH]; intros w; [done|]. change (chunks k (S (S n)) w) with (take k w :: chunks k (S n) (drop k w)).
  rewrite IH. cbn [chunks app]. rewrite drop_drop. done.
Qed.

Lemma zero_edge lane : (lane < n_lanes)%nat -> edge code 0 0 lane = 0.
Proof using Hlin.
  intros Hl. destruct (linear 0 0 0 0 ltac:(lia) ltac:(lia) ltac:(by left) ltac:(by left)) as [_ H].
  specialize (H lane Hl). by rewrite Z.lxor_nilpotent in H.
Qed.

Lemma zero_weight w u n : (forall t, (t < n)%nat -> u t = 0) -> state_at u n = 0 /\ path_weight w u n = 0.
Proof using Hcode Hlin.
  intros H. assert (Hs : forall m, (m <= n)%nat -> state_at u m = 0).
  { intros m Hm. rewrite (path_ext u (fun _ => 0)) by (intros; apply H; lia). apply zero_state. }
  split; [by apply Hs|]. unfold path_weight. transitivity (sum_upto n (fun _ => 0)); [|apply sum_upto_0]. apply sum_upto_ext.
  intros t Ht. rewrite Hs, H by lia. unfold edge_weight. transitivity (sum_upto n_lanes (fun _ => 0)); [|apply sum_upto_0].
  apply sum_upto_ext. intros lane Hl. by rewrite zero_edge.
Qed.

Lemma trellis_nth to : (to < 16)%nat -> let z := Z.of_nat to in
  nth to trellis (0%nat, 0%nat, ([], [])) = (Z.to_nat (low z), Z.to_nat (high z), (edges (low z) (input z), edges (high z) (input z))).
Proof using.
  intros Hto z. unfold trellis. set (F := fun to : nat => let z := Z.of_nat to in
    (Z.to_nat (low z), Z.to_nat (high z), (edges (low z) (input z), edges (high z) (input z)))).
  rewrite (nth_indep _ _ (F 0%nat)) by (rewrite length_map, length_seq; lia). rewrite (map_nth F), seq_nth by done. done.
Qed.

Lemma weight_step_le D w n (s b : Z) : length D = 16%nat -> 0 <= s < 16 -> is_bit b ->
  let D' := weight_step trellis (Z.to_nat (next 0 1)) (edges 0 1) D (take n_lanes (drop (n * n_lanes) w)) in
  length D' = 16%nat /\
  D'.[Z.to_nat (next s b)] <= D.[Z.to_nat s] + edge_weight w n s b /\
  (s = 0 -> b = 1 -> D'.[Z.to_nat (next s b)] <= edge_weight w n 0 1).
Proof using Hcode.
  intros L Hs Hb. unfold weight_step. set (E := map _ trellis). assert (LE : length E = 16%nat) by done.
  split; [by rewrite length_insert|]. destruct (out_of s b Hs Hb) as (Hz & Ei & Hor). set (z := next s b) in *.
  assert (HE : E.[Z.to_nat z] <= D.[Z.to_nat s] + edge_weight w n s b).
  { unfold E. set (F := fun '(l, h, (ml, mh)) => Z.min (D.[l] + masked ml (take n_lanes (drop (n * n_lanes) w)))
      (D.[h] + masked mh (take n_lanes (drop (n * n_lanes) w)))).
    rewrite (nth_indep _ 0 (F (0%nat, 0%nat, ([], [])))) by (rewrite length_map; cbn; lia).
    rewrite (map_nth F), trellis_nth by lia. unfold F. rewrite !masked_edges, Z2Nat.id by lia. rewrite Ei.
    destruct Hor as [E1|E1]; rewrite E1; lia. }
  split.
  - rewrite nth_insert. destruct (decide _) as [[E1 _]|_]; [|done]. rewrite E1. lia.
  - intros -> ->. fold z. rewrite nth_insert_eq by (rewrite LE; lia). rewrite masked_edges. lia.
Qed.

Lemma least_weight_le w v n : path_bits v n -> state_at v n = 0 -> (exists t, (t < n)%nat /\ v t <> 0) -> least_weight w n <= path_weight w v n.
Proof using Hcode Hlin.
  intros Hv H0 Hne. unfold least_weight.
  set (D n := fold_left (weight_step trellis (Z.to_nat (next 0 1)) (edges 0 1)) (chunks n_lanes n w) (replicate 16 1000000)).
  enough (H : length (D n) = 16%nat /\ (path_bits v n -> (exists t, (t < n)%nat /\ v t <> 0) -> (D n).[Z.to_nat (state_at v n)] <= path_weight w v n)).
  { destruct H as [_ H]. specialize (H Hv Hne). by rewrite H0 in H. }
  clear Hv Hne H0. induction n as [|n IH]; [split; [done|intros _ (t & Ht & _); lia]|]. destruct IH as [L IH].
  assert (ED : D (S n) = weight_step trellis (Z.to_nat (next 0 1)) (edges 0 1) (D n) (take n_lanes (drop (n * n_lanes) w))).
  { unfold D. rewrite chunks_snoc, fold_left_app. done. }
  rewrite ED. split; [by apply (weight_step_le (D n) w n 0 0 L ltac:(lia) ltac:(by left))|]. intros Hv (t & Ht & Hvt).
  pose proof (path_bits_S v n Hv) as Hv'. pose proof (state_at_range v n Hv') as Hs.
  destruct (weight_step_le (D n) w n (state_at v n) (v n) L Hs (Hv n ltac:(lia))) as (_ & W1 & W2). cbv zeta in W1, W2.
  cbn [state_at]. unfold path_weight. rewrite sum_upto_S. fold (path_weight w v n).
  destruct (forallb (fun t => v t =? 0) (seq 0 n)) eqn:EZ.
  - assert (Hz : forall t, (t < n)%nat -> v t = 0).
    { intros t' Ht'. apply Z.eqb_eq. rewrite forallb_forall in EZ. apply EZ, in_seq. lia. }
    destruct (zero_weight w v n Hz) as [E1 E2]. assert (t = n) as -> by (destruct (decide (t = n)); [done|]; destruct Hvt; apply Hz; lia).
    assert (E3 : v n = 1) by (destruct (Hv n ltac:(lia)); done). specialize (W2 E1 E3). rewrite E2, E3, E1 in *. lia.
  - assert (Hex : exists t, (t < n)%nat /\ v t <> 0).
    { apply not_true_iff_false in EZ. destruct (decide (Exists (fun t => v t <> 0) (seq 0 n))) as [X|X].
      - apply Exists_exists in X as (t' & Ht' & Hx). apply elem_of_seq in Ht'. exists t'. split; [lia|done].
      - destruct EZ. apply forallb_forall. intros t' Ht'. apply Z.eqb_eq. destruct (decide (v t' = 0)) as [|N]; [done|]. destruct X.
        apply Exists_exists. exists t'. split; [by apply list_elem_of_In|done]. }
    specialize (IH Hv' Hex). lia.
Qed.

(** The costs decide for the path [u0] against all others when no path that is
    not all zero has a weight below one. *)
Lemma viterbi_decides_weight junk costs n out u0 w : Forall is_cost costs -> (n <= 512)%nat -> (n * 16 <= length junk)%nat -> (n <= length out)%nat ->
  path_bits u0 n -> state_at u0 n = 0 ->
  (forall i, (i < n * n_lanes)%nat -> 65535 * w.[i] - 1 <= gain (costs.[i]) (code_bit u0 i)) ->
  (forall v, path_bits v n -> state_at v n = 0 -> (exists t, (t < n)%nat /\ v t <> 0) -> 1 <= path_weight w v n) ->
  let r := conv_viterbi code junk costs n out in
  length r = length out /\ forall t, r.[t] = if decide (t < n)%nat then u0 t else out.[t].
Proof using Hcode Hlin.
  intros Hc Hn Hj Ho Hu0 E0 Hw Hd r. destruct (viterbi_optimal junk costs n out Hc Hn Hj Ho) as (L & Hrest & Hu & Eu & Hopt).
  fold r in L, Hrest, Hu, Eu, Hopt. split; [done|]. intros t. destruct (decide (t < n)%nat) as [Ht|Ht]; [|apply Hrest; lia].
  destruct (decide (r.[t] = u0 t)) as [|Hne]; [done|]. exfalso. set (u := fun t => r.[t]) in *.
  pose proof (path_cost_difference costs w u u0 n Hu Hu0 Hw) as HD. specialize (Hopt u0 Hu0 E0).
  assert (HW : 1 <= path_weight w (difference u u0) n).
  { apply Hd; [by apply difference_bits|by rewrite difference_state, Eu, E0 by done|].
    exists t. split; [done|]. unfold difference. intros EX. apply Hne. by apply Z.lxor_eq in EX. }
  pose proof lanes_le. nia.
Qed.

Lemma viterbi_decides junk costs n out u0 w : Forall is_cost costs -> (n <= 512)%nat -> (n * 16 <= length junk)%nat -> (n <= length out)%nat ->
  path_bits u0 n -> state_at u0 n = 0 ->
  (forall i, (i < n * n_lanes)%nat -> 65535 * w.[i] - 1 <= gain (costs.[i]) (code_bit u0 i)) ->
  1 <= least_weight w n ->
  let r := conv_viterbi code junk costs n out in
  length r = length out /\ forall t, r.[t] = if decide (t < n)%nat then u0 t else out.[t].
Proof using Hcode Hlin.
  intros Hc Hn Hj Ho Hu0 E0 Hw Hd. apply (viterbi_decides_weight junk costs n out u0 w); try done.
  intros v Hv Ev Hne. pose proof (least_weight_le w v n Hv Ev Hne). lia.
Qed.

(** One wrong bit takes two from the weight of a path at most. *)
Lemma path_weight_one w k u n : w.[k] <= 1 -> path_weight w u n - 2 <= path_weight (w.[k <- -1]) u n.
Proof using.
  intros Hk.
  assert (HE : forall pos s b, edge_weight w pos s b - (if decide (pos * n_lanes <= k < S pos * n_lanes)%nat then 2 else 0)
    <= edge_weight (w.[k <- -1]) pos s b).
  { intros pos s b. unfold edge_weight.
    enough (H : forall m, sum_upto m (fun lane => if edge code s b lane =? 0 then 0 else w.[(pos * n_lanes + lane)%nat])
      - (if decide (pos * n_lanes <= k < pos * n_lanes + m)%nat then 2 else 0)
      <= sum_upto m (fun lane => if edge code s b lane =? 0 then 0 else (w.[k <- -1]).[(pos * n_lanes + lane)%nat])).
    { specialize (H n_lanes). replace (S pos * n_lanes)%nat with (pos * n_lanes + n_lanes)%nat by lia. exact H. }
    induction m as [|m IH]; [destruct (decide _); cbn; lia|]. rewrite !sum_upto_S, nth_insert.
    destruct (edge code s b m =? 0); [repeat destruct (decide _); lia|].
    destruct (decide (k = _ /\ _)) as [[E _]|Hne]; [rewrite <- E|]; repeat destruct (decide _); lia. }
  enough (H : forall m, path_weight w u m - (if decide (k < m * n_lanes)%nat then 2 else 0) <= path_weight (w.[k <- -1]) u m).
  { specialize (H n). destruct (decide _); lia. }
  induction m as [|m IH]; [destruct (decide _); [lia|cbn; lia]|]. unfold path_weight in *. rewrite !sum_upto_S.
  specialize (HE m (state_at u m) (u m)). repeat destruct (decide _); lia.
Qed.

(** Weights of at least three bear any one wrong bit. *)
Lemma viterbi_decides_one junk costs n out u0 w k : Forall is_cost costs -> (n <= 512)%nat -> (n * 16 <= length junk)%nat -> (n <= length out)%nat ->
  path_bits u0 n -> state_at u0 n = 0 -> w.[k] <= 1 ->
  (forall i, (i < n * n_lanes)%nat -> 65535 * (w.[k <- -1]).[i] - 1 <= gain (costs.[i]) (code_bit u0 i)) ->
  3 <= least_weight w n ->
  let r := conv_viterbi code junk costs n out in
  length r = length out /\ forall t, r.[t] = if decide (t < n)%nat then u0 t else out.[t].
Proof using Hcode Hlin.
  intros Hc Hn Hj Ho Hu0 E0 Hk Hw Hd. apply (viterbi_decides_weight junk costs n out u0 (w.[k <- -1])); try done.
  intros v Hv Ev Hne. pose proof (least_weight_le w v n Hv Ev Hne). pose proof (path_weight_one w k v n Hk). lia.
Qed.
End Code.
