(* ===== verification/ConvSimd.v ===== *)
(** * [protocol/tetra/tetra_fec.c]: the SSE2 kernel of the Viterbi search

    The add-compare-select step as the SSE2 kernel computes it, and the proof
    that a run of it gives the metrics and predecessors of the scalar reference.
    Four vectors of four 32-bit lanes are one list of 16 lanes, lane [4 k + i]
    the lane [i] of vector [k]; the intrinsics the kernel uses are written out
    lane by lane as Intel documents them. *)
From Stdlib Require Import ZifyNat.
From S2P Require Import Prelude Convolution.

(** ** The intrinsics *)

Definition signed32 (x : Z) : Z := if x <? 2 ^ 31 then x else x - 2 ^ 32.
Definition mask32 (b : bool) : Z := if b then 0xFFFFFFFF else 0.

Definition set1_epi32 (x : Z) : list Z := replicate 16 (u32 x).
Definition set1_epi8 (x : Z) : list Z := replicate 16 (u8 x).
Definition add_epi32 (a b : list Z) : list Z := zip_with (fun x y => u32 (x + y)) a b.
Definition sub_epi32 (a b : list Z) : list Z := zip_with (fun x y => u32 (x - y)) a b.
Definition cmpgt_epi32 (a b : list Z) : list Z := zip_with (fun x y => mask32 (signed32 y <? signed32 x)) a b.
Definition cmpeq_epi32 (a b : list Z) : list Z := zip_with (fun x y => mask32 (x =? y)) a b.
Definition and_si128 (a b : list Z) : list Z := zip_with Z.land a b.
Definition or_si128 (a b : list Z) : list Z := zip_with Z.lor a b.
Definition andnot_si128 (a b : list Z) : list Z := zip_with (fun x y => Z.land (0xFFFFFFFF - x) y) a b.
Definition add_epi8 (a b : list Z) : list Z := zip_with (fun x y => u8 (x + y)) a b.

(** 32-bit lanes to 16 and to 8 bits with signed saturation. *)
Definition saturate (w x : Z) : Z := Z.max (- 2 ^ (w - 1)) (Z.min x (2 ^ (w - 1) - 1)).
Definition packs (x : Z) : Z := u8 (saturate 8 (saturate 16 (signed32 x))).

(** Shuffles of single vectors. *)
Definition vector (p : list Z) (k : nat) : list Z := take 4 (drop (4 * k) p).
Definition unpacklo_epi32 (a b : list Z) : list Z := [a.[0%nat]; b.[0%nat]; a.[1%nat]; b.[1%nat]].
Definition unpackhi_epi32 (a b : list Z) : list Z := [a.[2%nat]; b.[2%nat]; a.[3%nat]; b.[3%nat]].

(** ** SSE2 *)

Definition acs_select_sse2 (mask when_set otherwise : list Z) : list Z :=
  or_si128 (and_si128 mask when_set) (andnot_si128 mask otherwise).

Definition acs_deinterleave_sse2 (a b : list Z) (odd : bool) : list Z :=
  if odd then [a.[1%nat]; a.[3%nat]; b.[1%nat]; b.[3%nat]] else [a.[0%nat]; a.[2%nat]; b.[0%nat]; b.[2%nat]].

(** The survivors, which came from the higher predecessor, which are below the bound. *)
Definition acs_vector_sse2 (low high branch complement reachable : list Z) (clamp : bool) : list Z * list Z * list Z :=
  let inf := set1_epi32 TETRA_VITERBI_INF in
  let a := add_epi32 low branch in
  let b := add_epi32 high (sub_epi32 complement branch) in
  let took_high := cmpgt_epi32 a b in
  let best := acs_select_sse2 took_high b a in
  if negb clamp then (best, took_high, reachable)
  else
    let reachable := cmpgt_epi32 inf best in
    (acs_select_sse2 reachable best inf, took_high, reachable).

Definition acs_narrow_masks_sse2 (m : list Z) : list Z := map packs m.

(** [l0..l3] and [h0..h3]. *)
Definition acs_lows (p : list Z) (shift_up : bool) : list Z :=
  if shift_up then
    unpacklo_epi32 (vector p 0) (vector p 0) ++ unpackhi_epi32 (vector p 0) (vector p 0)
    ++ unpacklo_epi32 (vector p 1) (vector p 1) ++ unpackhi_epi32 (vector p 1) (vector p 1)
  else
    let l0 := acs_deinterleave_sse2 (vector p 0) (vector p 1) false in
    let l1 := acs_deinterleave_sse2 (vector p 2) (vector p 3) false in
    l0 ++ l1 ++ l0 ++ l1.
Definition acs_highs (p : list Z) (shift_up : bool) : list Z :=
  if shift_up then
    unpacklo_epi32 (vector p 2) (vector p 2) ++ unpackhi_epi32 (vector p 2) (vector p 2)
    ++ unpacklo_epi32 (vector p 3) (vector p 3) ++ unpackhi_epi32 (vector p 3) (vector p 3)
  else
    let h0 := acs_deinterleave_sse2 (vector p 0) (vector p 1) true in
    let h1 := acs_deinterleave_sse2 (vector p 2) (vector p 3) true in
    h0 ++ h1 ++ h0 ++ h1.

Definition low_index (shift_up : bool) : list Z :=
  if shift_up then [0; 0; 1; 1; 2; 2; 3; 3; 4; 4; 5; 5; 6; 6; 7; 7] else [0; 2; 4; 6; 8; 10; 12; 14; 0; 2; 4; 6; 8; 10; 12; 14].

(** [b0..b3] *)
Definition acs_branches (lane_mask : list (list Z)) (step : list Z) (lanes : nat) : list Z :=
  let base := for_ 0 lanes (fun lane base => base + step.[lane]) 0 in
  for_ 0 lanes (fun lane b =>
    let diff := set1_epi32 (65535 - 2 * step.[lane]) in
    add_epi32 b (and_si128 (nth lane lane_mask []) diff)) (set1_epi32 base).

(** The survivors and the row of predecessors. *)
Definition acs_step_sse2 (p : list Z) (lane_mask : list (list Z)) (step : list Z) (lanes : nat) (shift_up clamp : bool) : list Z * list Z :=
  let complement := set1_epi32 (Z.of_nat lanes * 65535) in
  let delta := set1_epi8 (if shift_up then 8 else 1) in
  let b := acs_branches lane_mask step lanes in
  let '(p, t, r) := acs_vector_sse2 (acs_lows p shift_up) (acs_highs p shift_up) b complement (replicate 16 0) clamp in
  let chosen := add_epi8 (low_index shift_up) (and_si128 (acs_narrow_masks_sse2 t) delta) in
  (p, if clamp then and_si128 (acs_narrow_masks_sse2 r) chosen else chosen).

Definition conv_acs_safe_limit (remaining lanes : nat) : Z :=
  let growth := Z.of_nat remaining * Z.of_nat lanes * 65535 in
  if growth <? TETRA_VITERBI_INF then TETRA_VITERBI_INF - growth else 0.

Definition acs_all_below_sse2 (p : list Z) (limit : Z) : bool :=
  forallb (fun m => m =? 0xFFFFFFFF) (cmpgt_epi32 (set1_epi32 limit) p).

Definition sse2_lane_mask (code : tetra_conv_code) (lane : nat) : list Z :=
  let bit := set1_epi32 (Z.shiftl 1 (Z.of_nat lane)) in
  cmpeq_epi32 (and_si128 (incoming code) bit) bit.

(** The loop that clamps leaves at the first step the test allows it to; the
    loop after it does the rest. *)
Fixpoint acs_clamped (steps : nat) (code : tetra_conv_code) (lane_mask : list (list Z)) (costs : list Z) (nsteps pos : nat) (lanes : nat)
  (shift_up : bool) (p pred : list Z) : nat * (list Z * list Z) :=
  match steps with
  | O => (pos, (p, pred))
  | S steps =>
      if acs_all_below_sse2 p (conv_acs_safe_limit (nsteps - pos) lanes) then (pos, (p, pred))
      else
        let '(p, row) := acs_step_sse2 p lane_mask (drop (pos * lanes) costs) lanes shift_up true in
        acs_clamped steps code lane_mask costs nsteps (pos + 1) lanes shift_up p (blit pred (pos * TETRA_VITERBI_STATES) row)
  end.

Definition conv_acs_run_simd (code : tetra_conv_code) (metric costs : list Z) (nsteps : nat) (pred : list Z) (lanes : nat) (shift_up : bool)
  : list Z * list Z :=
  let lane_mask := map (sse2_lane_mask code) (seq 0 lanes) in
  let '(pos, (p, pred)) := acs_clamped nsteps code lane_mask costs nsteps 0 lanes shift_up metric pred in
  for_ pos nsteps (fun pos '(p, pred) =>
    let '(p, row) := acs_step_sse2 p lane_mask (drop (pos * lanes) costs) lanes shift_up false in
    (p, blit pred (pos * TETRA_VITERBI_STATES) row)) (p, pred).

Definition conv_acs_run (code : tetra_conv_code) (metric costs : list Z) (nsteps : nat) (pred : list Z) : list Z * list Z :=
  if (lanes code =? 4)%nat && shift_up code then conv_acs_run_simd code metric costs nsteps pred 4 true
  else if (lanes code =? 3)%nat && negb (shift_up code) then conv_acs_run_simd code metric costs nsteps pred 3 false
  else conv_acs_run_scalar code metric costs nsteps pred.

(** ** Lane by lane *)

Lemma zip_nth (f : Z -> Z -> Z) (a b : list Z) i : length a = 16%nat -> length b = 16%nat -> (i < 16)%nat -> (zip_with f a b).[i] = f (a.[i]) (b.[i]).
Proof.
  intros La Lb Hi. rewrite !nth_lookup, lookup_zip_with.
  destruct (lookup_lt_is_Some_2 a i ltac:(lia)) as [x Hx]. destruct (lookup_lt_is_Some_2 b i ltac:(lia)) as [y Hy]. by rewrite Hx, Hy.
Qed.

Lemma zip_length (f : Z -> Z -> Z) (a b : list Z) : length a = 16%nat -> length b = 16%nat -> length (zip_with f a b) = 16%nat.
Proof. intros La Lb. rewrite length_zip_with. lia. Qed.

Lemma set1_nth x i : (i < 16)%nat -> (set1_epi32 x).[i] = u32 x.
Proof. intros Hi. unfold set1_epi32. by rewrite nth_lookup, lookup_replicate_2. Qed.

Lemma land_all w x : 0 <= w -> 0 <= x < 2 ^ w -> Z.land (Z.ones w) x = x.
Proof. intros Hw Hx. rewrite Z.land_comm, Z.land_ones by done. by apply Z.mod_small. Qed.

Lemma select_lane (c : bool) x y : 0 <= x < 2 ^ 32 -> 0 <= y < 2 ^ 32 ->
  Z.lor (Z.land (mask32 c) x) (Z.land (0xFFFFFFFF - mask32 c) y) = if c then x else y.
Proof.
  intros Hx Hy. unfold mask32. destruct c.
  - change (0xFFFFFFFF - 0xFFFFFFFF) with 0. rewrite Z.land_0_l, Z.lor_0_r. by apply (land_all 32).
  - change (0xFFFFFFFF - 0) with (Z.ones 32). rewrite Z.land_0_l, Z.lor_0_l. by apply land_all.
Qed.

Lemma signed_small x : 0 <= x < 2 ^ 31 -> signed32 x = x.
Proof. intros Hx. unfold signed32. by rewrite (proj2 (Z.ltb_lt _ _)) by lia. Qed.

Lemma packs_mask c : packs (mask32 c) = if c then 0xFF else 0.
Proof. by destruct c. Qed.

Definition lanes16 (l : list Z) : Prop := length l = 16%nat.

Lemma select_sse2_nth mask a b (c : nat -> bool) i : lanes16 mask -> lanes16 a -> lanes16 b -> (i < 16)%nat ->
  mask.[i] = mask32 (c i) -> 0 <= a.[i] < 2 ^ 32 -> 0 <= b.[i] < 2 ^ 32 -> (acs_select_sse2 mask a b).[i] = if c i then a.[i] else b.[i].
Proof.
  intros Lm La Lb Hi Em Ha Hb. unfold acs_select_sse2, or_si128, and_si128, andnot_si128.
  rewrite zip_nth, !zip_nth by (done || by apply zip_length). rewrite Em. by apply select_lane.
Qed.

(** What a lane's survivor is. *)
Lemma acs_vector_spec low high branch comp reach clamp : lanes16 low -> lanes16 high -> lanes16 branch -> lanes16 reach -> 0 <= comp <= 262140 ->
  (forall i, (i < 16)%nat -> 0 <= low.[i] <= TETRA_VITERBI_INF /\ 0 <= high.[i] <= TETRA_VITERBI_INF /\ 0 <= branch.[i] <= comp) ->
  let '(best, took, below) := acs_vector_sse2 low high branch (set1_epi32 comp) reach clamp in
  lanes16 best /\ lanes16 took /\ lanes16 below /\ forall i, (i < 16)%nat ->
    let a := low.[i] + branch.[i] in
    let b := high.[i] + (comp - branch.[i]) in
    best.[i] = (if clamp then Z.min (Z.min a b) TETRA_VITERBI_INF else Z.min a b) /\
    took.[i] = mask32 (b <? a) /\ below.[i] = if clamp then mask32 (Z.min a b <? TETRA_VITERBI_INF) else reach.[i].
Proof.
  intros Ll Lh Lb Lr Hc Hr. unfold acs_vector_sse2. assert (HI : TETRA_VITERBI_INF = 1073741823) by reflexivity.
  assert (Ls : forall x, lanes16 (set1_epi32 x)) by (intros; apply length_replicate).
  set (A := add_epi32 low branch). set (B := add_epi32 high (sub_epi32 (set1_epi32 comp) branch)).
  assert (LA : lanes16 A) by by apply zip_length. assert (LB : lanes16 B) by (apply zip_length; [done|by apply zip_length]).
  assert (EA : forall i, (i < 16)%nat -> A.[i] = low.[i] + branch.[i]).
  { intros i Hi. unfold A, add_epi32. rewrite zip_nth by done. specialize (Hr i Hi). apply u32_small. lia. }
  assert (EB : forall i, (i < 16)%nat -> B.[i] = high.[i] + (comp - branch.[i])).
  { intros i Hi. unfold B, add_epi32, sub_epi32. specialize (Hr i Hi). rewrite zip_nth, zip_nth, set1_nth by (done || by apply zip_length).
    rewrite (u32_small comp), (u32_small (comp - _)) by lia. apply u32_small. lia. }
  set (took := cmpgt_epi32 A B). assert (LT : lanes16 took) by by apply zip_length.
  assert (ET : forall i, (i < 16)%nat -> took.[i] = mask32 (B.[i] <? A.[i])).
  { intros i Hi. unfold took, cmpgt_epi32. rewrite zip_nth by done. specialize (Hr i Hi). rewrite !signed_small by (rewrite ?EA, ?EB by done; lia). done. }
  set (best := acs_select_sse2 took B A). assert (LBe : lanes16 best) by (unfold best, acs_select_sse2; repeat apply zip_length; done).
  assert (EBe : forall i, (i < 16)%nat -> best.[i] = Z.min (A.[i]) (B.[i])).
  { intros i Hi. unfold best. specialize (Hr i Hi). rewrite (select_sse2_nth took B A (fun i => B.[i] <? A.[i])) by (done || (by apply ET) || (rewrite ?EA, ?EB by done; lia)).
    destruct (Z.ltb_spec (B.[i]) (A.[i])); lia. }
  destruct clamp; cbn [negb].
  - set (below := cmpgt_epi32 (set1_epi32 TETRA_VITERBI_INF) best). assert (LBl : lanes16 below) by (apply zip_length; done).
    assert (EBl : forall i, (i < 16)%nat -> below.[i] = mask32 (best.[i] <? TETRA_VITERBI_INF)).
    { intros i Hi. unfold below, cmpgt_epi32. rewrite zip_nth, set1_nth by done. specialize (Hr i Hi). rewrite (u32_small TETRA_VITERBI_INF) by lia.
      rewrite !signed_small by (rewrite ?EBe, ?EA, ?EB by done; lia). done. }
    split; [unfold acs_select_sse2; repeat apply zip_length; done|]. split; [done|]. split; [done|]. intros i Hi. specialize (Hr i Hi).
    set (a := low.[i] + branch.[i]). set (b := high.[i] + (comp - branch.[i])).
    assert (Eb : best.[i] = Z.min a b) by (rewrite EBe, EA, EB by done; done).
    split; [|split; [rewrite ET, EA, EB by done; done|rewrite EBl, Eb by done; done]].
    rewrite (select_sse2_nth below best (set1_epi32 TETRA_VITERBI_INF) (fun i => best.[i] <? TETRA_VITERBI_INF))
      by (done || (by apply EBl) || (rewrite ?Eb, ?set1_nth, ?u32_small by (done || lia); lia)).
    rewrite Eb, set1_nth, u32_small by (done || lia). destruct (Z.ltb_spec (Z.min a b) TETRA_VITERBI_INF); lia.
  - split; [done|]. split; [done|]. split; [done|]. intros i Hi.
    split; [rewrite EBe, EA, EB by done; done|]. split; [rewrite ET, EA, EB by done; done|done].
Qed.

(** ** The step *)

(** What the tables of a code have to agree on for the kernels. *)
Definition masks_ok (code : tetra_conv_code) : bool :=
  (length (incoming code) =? 16)%nat &&
  forallb (fun lane => forallb (fun to =>
    (sse2_lane_mask code lane).[to] =? mask32 (negb (Z.land (Z.shiftr ((incoming code).[to]) (Z.of_nat lane)) 1 =? 0))) (seq 0 16))
    (seq 0 (lanes code)) &&
  forallb (fun to => let z := Z.of_nat to in
    ((low_index (shift_up code)).[to] =? acs_low code z) && (acs_high code z =? acs_low code z + (if shift_up code then 8 else 1))) (seq 0 16).

Lemma signalling_masks : masks_ok k_signalling_code = true.
Proof. vm_compute. reflexivity. Qed.

Lemma speech_masks : masks_ok k_speech_code = true.
Proof. vm_compute. reflexivity. Qed.

(** The shuffles fetch each state's two predecessors. *)
Lemma shuffles code p to : length p = 16%nat -> (to < 16)%nat ->
  (acs_lows p (shift_up code)).[to] = p.[Z.to_nat (acs_low code (Z.of_nat to))] /\
  (acs_highs p (shift_up code)).[to] = p.[Z.to_nat (acs_high code (Z.of_nat to))].
Proof.
  intros Lp Hto. do 16 (destruct p as [|? p]; [done|]). destruct p; [|done].
  unfold acs_low, acs_high, acs_low, acs_lows, acs_highs. destruct (shift_up code);
    do 16 (destruct to as [|to]; [split; reflexivity|]); lia.
Qed.

Lemma shuffle_lengths p up : lanes16 (acs_lows p up) /\ lanes16 (acs_highs p up).
Proof. by destruct up. Qed.

Section Simd.
Context (code : tetra_conv_code) (Hcode : code_ok code = true) (Hmask : masks_ok code = true).
Notation low := (acs_low code).
Notation high := (acs_high code).
Notation input := (conv_input_of code).
Notation up := (shift_up code).
Notation n_lanes := (lanes code).

Definition masks : list (list Z) := map (sse2_lane_mask code) (seq 0 n_lanes).

Lemma masks_nth lane : (lane < n_lanes)%nat -> lanes16 (nth lane masks []) /\
  forall to, (to < 16)%nat -> (nth lane masks []).[to] = mask32 (negb (edge code (low (Z.of_nat to)) (input (Z.of_nat to)) lane =? 0)).
Proof using Hcode Hmask.
  intros Hl. unfold masks_ok in Hmask. apply andb_true_iff in Hmask as [H _]. apply andb_true_iff in H as [HL H]. apply Nat.eqb_eq in HL.
  assert (E : nth lane masks [] = sse2_lane_mask code lane).
  { unfold masks. rewrite (nth_indep _ [] (sse2_lane_mask code 0)) by (by rewrite length_map, length_seq). by rewrite map_nth, seq_nth. }
  rewrite E. split.
  - unfold sse2_lane_mask, cmpeq_epi32, and_si128. apply zip_length; [apply zip_length; [done|apply length_replicate]|apply length_replicate].
  - intros to Hto. pose proof (check_nat _ _ H lane Hl) as C. cbv beta in C. pose proof (check_nat _ _ C to Hto) as C'. apply Z.eqb_eq in C'. rewrite C'.
    destruct (into code Hcode to Hto) as (_ & _ & _ & _ & _ & He). destruct (He lane Hl) as [E1 _]. by rewrite E1.
Qed.

Lemma index_nth to : (to < 16)%nat -> let z := Z.of_nat to in (low_index up).[to] = low z /\ high z = low z + (if up then 8 else 1).
Proof using Hmask.
  intros Hto. unfold masks_ok in Hmask. apply andb_true_iff in Hmask as [_ H]. pose proof (check_nat _ _ H to Hto) as C. cbv zeta beta in C.
  apply andb_true_iff in C as [C1%Z.eqb_eq C2%Z.eqb_eq]. done.
Qed.

(** The branch metrics, summed modulo [2 ^ 32] from differences that may be negative. *)
Lemma acs_branches_spec step : Forall is_cost step ->
  lanes16 (acs_branches masks step n_lanes) /\
  forall to, (to < 16)%nat -> (acs_branches masks step n_lanes).[to] = edge_cost code step 0 (low (Z.of_nat to)) (input (Z.of_nat to)).
Proof using Hcode Hmask.
  intros Hc. unfold acs_branches. set (base := for_ 0 n_lanes (fun lane base => base + step.[lane]) 0).
  set (e to lane := edge code (low (Z.of_nat to)) (input (Z.of_nat to)) lane).
  enough (H : forall k, (k <= n_lanes)%nat -> let r := for_ 0 k (fun lane b =>
      add_epi32 b (and_si128 (nth lane masks []) (set1_epi32 (65535 - 2 * step.[lane])))) (set1_epi32 base) in
    lanes16 r /\ forall to, (to < 16)%nat -> r.[to] = u32 (base + sum_upto k (fun lane => if e to lane =? 0 then 0 else 65535 - 2 * step.[lane]))).
  { destruct (H n_lanes (le_n _)) as [L E]. split; [exact L|]. intros to Hto. cbv zeta in E. rewrite E by done.
    assert (Es : base + sum_upto n_lanes (fun lane => if e to lane =? 0 then 0 else 65535 - 2 * step.[lane])
      = edge_cost code step 0 (low (Z.of_nat to)) (input (Z.of_nat to))).
    { unfold base, edge_cost. fold (sum_upto n_lanes (fun lane => step.[lane])). rewrite <- sum_upto_add. apply sum_upto_ext.
      intros lane _. fold (e to lane). unfold bit_cost. destruct (e to lane =? 0); cbn [Nat.mul Nat.add]; lia. }
    rewrite Es. apply u32_small. pose proof (edge_cost_range code Hcode step 0 (low (Z.of_nat to)) (input (Z.of_nat to)) Hc). lia. }
  intros k Hk. cbv zeta. induction k as [|k IH].
  { split; [apply length_replicate|]. intros to Hto. rewrite for_nil, set1_nth by (done || lia). f_equal. cbn. lia. }
  rewrite for_S by lia. destruct (IH ltac:(lia)) as [L E]. destruct (masks_nth k ltac:(lia)) as [Lm Em]. set (r := for_ 0 k _ _) in *.
  assert (Ld : lanes16 (and_si128 (nth k masks []) (set1_epi32 (65535 - 2 * step.[k])))) by (apply zip_length; [done|apply length_replicate]).
  split; [by apply zip_length|]. intros to Hto. unfold add_epi32. rewrite zip_nth, E by done. unfold and_si128.
  rewrite zip_nth, set1_nth, Em, sum_upto_S by (done || apply length_replicate). fold (e to k).
  assert (Ex : Z.land (mask32 (negb (e to k =? 0))) (u32 (65535 - 2 * step.[k])) = u32 (if e to k =? 0 then 0 else 65535 - 2 * step.[k])).
  { destruct (e to k =? 0); cbn [negb mask32]; [by rewrite Z.land_0_l|]. apply (land_all 32); [lia|]. apply Z.mod_pos_bound. lia. }
  rewrite Ex. unfold u32, wrap. rewrite <- Zplus_mod. f_equal. lia.
Qed.

(** No edge costs more than its lanes allow. *)
Lemma edge_range step s b : Forall is_cost step -> 0 <= edge_cost code step 0 s b <= Z.of_nat n_lanes * 65535.
Proof using. intros Hc. apply sum_upto_range. intros i _. apply bit_cost_range. by apply cost_nth. Qed.

(** The predecessors picked by the masks. *)
Lemma chosen_row took below row (clamp : bool) : lanes16 took -> lanes16 below -> length row = 16%nat ->
  (forall to, (to < 16)%nat -> exists a b, took.[to] = mask32 (b <? a) /\ (clamp = true -> below.[to] = mask32 (Z.min a b <? TETRA_VITERBI_INF)) /\
    (clamp = false -> Z.min a b < TETRA_VITERBI_INF) /\
    row.[to] = (if Z.min a b <? TETRA_VITERBI_INF then (if b <? a then high (Z.of_nat to) else low (Z.of_nat to)) else 0)) ->
  (let chosen := add_epi8 (low_index up) (and_si128 (acs_narrow_masks_sse2 took) (set1_epi8 (if up then 8 else 1))) in
   if clamp then and_si128 (acs_narrow_masks_sse2 below) chosen else chosen) = row.
Proof using Hcode Hmask.
  intros Lt Lb Lr H. cbv zeta. set (chosen := add_epi8 _ _).
  assert (Ln : forall m, lanes16 m -> lanes16 (acs_narrow_masks_sse2 m)) by (intros m Hm; unfold lanes16, acs_narrow_masks_sse2; by rewrite length_map).
  assert (En : forall m i, lanes16 m -> (i < 16)%nat -> (acs_narrow_masks_sse2 m).[i] = packs (m.[i])).
  { intros m i Hm Hi. unfold acs_narrow_masks_sse2. rewrite (nth_indep _ 0 (packs 0)) by (rewrite length_map, Hm; lia). apply map_nth. }
  assert (Ld : lanes16 (set1_epi8 (if up then 8 else 1))) by apply length_replicate.
  assert (Ed : forall i, (i < 16)%nat -> (set1_epi8 (if up then 8 else 1)).[i] = if up then 8 else 1)
    by (intros i Hi; unfold set1_epi8; rewrite nth_lookup, lookup_replicate_2 by done; by destruct up).
  assert (Li : lanes16 (low_index up)) by by destruct up.
  assert (Lc : lanes16 chosen) by (apply zip_length; [done|apply zip_length; [by apply Ln|done]]).
  assert (Ec : forall to a b, (to < 16)%nat -> took.[to] = mask32 (b <? a) ->
    chosen.[to] = (if b <? a then high (Z.of_nat to) else low (Z.of_nat to)) /\ 0 <= chosen.[to] < 16).
  { intros to a b Hto E. destruct (index_nth to Hto) as [I1 I2]. destruct (into code Hcode to Hto) as (_ & Hlo & Hhi & _).
    unfold chosen, add_epi8, and_si128. rewrite !zip_nth by (done || (by apply Ln) || (apply zip_length; [by apply Ln|done])).
    rewrite En, E, packs_mask, I1, Ed by done. destruct (b <? a).
    - rewrite (land_all 8) by (destruct up; lia). rewrite <- I2. unfold u8, wrap. rewrite Z.mod_small by lia. lia.
    - rewrite Z.land_0_l, Z.add_0_r. unfold u8, wrap. rewrite Z.mod_small by lia. lia. }
  apply list_eq_nth; [destruct clamp; [|congruence]; rewrite Lr; apply zip_length; [by apply Ln|done]|].
  assert (L16 : length (if clamp then and_si128 (acs_narrow_masks_sse2 below) chosen else chosen) = 16%nat)
    by (destruct clamp; [apply zip_length; [by apply Ln|done]|done]).
  intros to Hto. rewrite L16 in Hto. destruct (H to Hto) as (a & b & E1 & E2 & E3 & E4). destruct (Ec to a b Hto E1) as [E5 R]. rewrite E4.
  destruct clamp.
  - unfold and_si128. rewrite zip_nth, En, E2, packs_mask by (done || by apply Ln). destruct (Z.min a b <? TETRA_VITERBI_INF).
    + rewrite (land_all 8) by lia. done.
    + apply Z.land_0_l.
  - rewrite (proj2 (Z.ltb_lt _ _)) by (by apply E3). done.
Qed.

(** One vector step is one scalar step, clamped, or unclamped from metrics low enough. *)
Lemma acs_step_sse2_spec M step clamp : metrics_ok M -> Forall is_cost step ->
  (clamp = false -> forall i, (i < 16)%nat -> M.[i] + Z.of_nat n_lanes * 65535 < TETRA_VITERBI_INF) ->
  acs_step_sse2 M masks step n_lanes up clamp = conv_acs_step code M step.
Proof using Hcode Hmask.
  intros HM Hc Hlow. pose proof (acs_step_spec code Hcode M step HM Hc) as HS.
  destruct (conv_acs_step code M step) as [M' row]. destruct HS as ([LM' _] & Lrow & HS). destruct HM as [LM HMf] eqn:E0. clear E0.
  unfold acs_step_sse2. destruct (acs_branches_spec step Hc) as [LB EB]. set (b := acs_branches masks step n_lanes) in *.
  destruct (shuffle_lengths M up) as [Ll Lh]. pose proof (lanes_le code Hcode) as Hln.
  pose proof (acs_vector_spec (acs_lows M up) (acs_highs M up) b (Z.of_nat n_lanes * 65535) (replicate 16 0) clamp Ll Lh LB (length_replicate _ _) ltac:(lia)) as HV.
  destruct (acs_vector_sse2 _ _ _ _ _ _) as [[best took] below].
  assert (Hpt : forall to, (to < 16)%nat -> let z := Z.of_nat to in 
    (acs_lows M up).[to] = M.[Z.to_nat (low z)] /\ (acs_highs M up).[to] = M.[Z.to_nat (high z)] /\
    b.[to] = edge_cost code step 0 (low z) (input z) /\ Z.of_nat n_lanes * 65535 - b.[to] = edge_cost code step 0 (high z) (input z)).
  { intros to Hto z. destruct (shuffles code M to LM Hto) as [S1 S2]. split; [done|]. split; [done|]. split; [by apply EB|].
    rewrite EB by done. symmetry. by apply (high_edge code Hcode). }
  destruct HV as (Lbest & Ltook & Lbelow & HV).
  { intros i Hi. destruct (Hpt i Hi) as (E1 & E2 & E3 & _). rewrite E1, E2, E3.
    split; [by apply metrics_nth|]. split; [by apply metrics_nth|].
    pose proof (edge_cost_range code Hcode step 0 (high (Z.of_nat i)) (input (Z.of_nat i)) Hc) as R.
    destruct (Hpt i Hi) as (_ & _ & E3' & E4). pose proof (edge_cost_range code Hcode step 0 (low (Z.of_nat i)) (input (Z.of_nat i)) Hc). lia. }
  set (A to := M.[Z.to_nat (low (Z.of_nat to))] + edge_cost code step 0 (low (Z.of_nat to)) (input (Z.of_nat to))).
  set (B to := M.[Z.to_nat (high (Z.of_nat to))] + edge_cost code step 0 (high (Z.of_nat to)) (input (Z.of_nat to))).
  assert (HV' : forall to, (to < 16)%nat -> best.[to] = Z.min (Z.min (A to) (B to)) TETRA_VITERBI_INF /\ took.[to] = mask32 (B to <? A to) /\
    (clamp = true -> below.[to] = mask32 (Z.min (A to) (B to) <? TETRA_VITERBI_INF)) /\ (clamp = false -> Z.min (A to) (B to) < TETRA_VITERBI_INF)).
  { intros to Hto. destruct (HV to Hto) as (V1 & V2 & V3). destruct (Hpt to Hto) as (E1 & E2 & E3 & E4). cbv zeta in E1, E2, E3, E4.
    rewrite E4, E1, E2, E3 in V1, V2, V3. fold (A to) (B to) in V1, V2, V3. split; [|split; [done|split]].
    - destruct clamp; [done|]. rewrite V1. specialize (Hlow eq_refl (Z.to_nat (low (Z.of_nat to)))).
      destruct (into code Hcode to Hto) as (_ & Hlo & Hhi & _). specialize (Hlow ltac:(lia)).
      pose proof (edge_range step (low (Z.of_nat to)) (input (Z.of_nat to)) Hc). unfold A, B. lia.
    - intros ->. done.
    - intros ->. specialize (Hlow eq_refl (Z.to_nat (low (Z.of_nat to)))).
      destruct (into code Hcode to Hto) as (_ & Hlo & Hhi & _). specialize (Hlow ltac:(lia)).
      pose proof (edge_range step (low (Z.of_nat to)) (input (Z.of_nat to)) Hc). unfold A, B. lia. }
  clear HV Hpt. f_equal.
  - apply list_eq_nth; [congruence|]. intros to Hto. rewrite Lbest in Hto. destruct (HS to Hto) as [E _]. by rewrite E, (proj1 (HV' to Hto)).
  - apply chosen_row; [done..|]. intros to Hto. destruct (HS to Hto) as [_ E]. destruct (HV' to Hto) as (_ & V2 & V3 & V4). by exists (A to), (B to).
Qed.

(** ** The run *)

Context (costs : list Z) (Hcosts : Forall is_cost costs) (nsteps : nat).

Definition scalar_step (pos : nat) (s : list Z * list Z) : list Z * list Z :=
  let '(metric, pred) := s in
  let '(next, row) := conv_acs_step code metric (drop (pos * n_lanes) costs) in (next, blit pred (pos * TETRA_VITERBI_STATES) row).

Lemma vector_step pos p pred clamp : metrics_ok p ->
  (clamp = false -> forall i, (i < 16)%nat -> p.[i] + Z.of_nat n_lanes * 65535 < TETRA_VITERBI_INF) ->
  (let '(p, row) := acs_step_sse2 p masks (drop (pos * n_lanes) costs) n_lanes up clamp in (p, blit pred (pos * TETRA_VITERBI_STATES) row))
  = scalar_step pos (p, pred).
Proof using Hcode Hmask Hcosts.
  intros HM Hl. rewrite acs_step_sse2_spec; [done|done|by apply Forall_drop|done].
Qed.

Lemma scalar_step_ok pos s : metrics_ok (fst s) -> metrics_ok (fst (scalar_step pos s)) /\
  forall B, (forall i, (i < 16)%nat -> (fst s).[i] + Z.of_nat n_lanes * 65535 < B) -> forall i, (i < 16)%nat -> (fst (scalar_step pos s)).[i] < B.
Proof using Hcode Hcosts.
  destruct s as [M pred]. cbn [fst]. intros HM. unfold scalar_step.
  pose proof (acs_step_spec code Hcode M (drop (pos * n_lanes) costs) HM (Forall_drop _ _ _ Hcosts)) as H.
  destruct (conv_acs_step code M _) as [M' row]. destruct H as (HM' & _ & H). cbn [fst]. split; [done|]. intros B HB i Hi.
  destruct (H i Hi) as [E _]. cbv zeta in E. destruct (into code Hcode i Hi) as (_ & Hlo & Hhi & _).
  pose proof (edge_range (drop (pos * n_lanes) costs) (low (Z.of_nat i)) (input (Z.of_nat i)) (Forall_drop _ _ _ Hcosts)).
  specialize (HB (Z.to_nat (low (Z.of_nat i))) ltac:(lia)). lia.
Qed.

Lemma all_below_spec M limit : metrics_ok M -> 0 <= limit <= TETRA_VITERBI_INF -> acs_all_below_sse2 M limit = true ->
  forall i, (i < 16)%nat -> M.[i] < limit.
Proof using.
  intros HM Hl H i Hi. assert (HI : TETRA_VITERBI_INF = 1073741823) by reflexivity. pose proof (metrics_nth M i HM) as Hr.
  destruct HM as [LM _]. unfold acs_all_below_sse2 in H. rewrite forallb_forall in H.
  specialize (H ((cmpgt_epi32 (set1_epi32 limit) M).[i])). unfold cmpgt_epi32 in H.
  assert (Hin : In ((zip_with (fun x y => mask32 (signed32 y <? signed32 x)) (set1_epi32 limit) M).[i])
    (zip_with (fun x y => mask32 (signed32 y <? signed32 x)) (set1_epi32 limit) M))
    by (apply nth_In; rewrite zip_length by (done || apply length_replicate); done).
  specialize (H Hin). rewrite zip_nth, set1_nth, (u32_small limit) in H by (done || lia || apply length_replicate).
  rewrite !signed_small in H by lia. destruct (Z.ltb_spec (M.[i]) limit); [done|discriminate].
Qed.

Lemma safe_limit_range remaining : 0 <= conv_acs_safe_limit remaining n_lanes <= TETRA_VITERBI_INF /\
  forall m, 0 <= m -> m < conv_acs_safe_limit remaining n_lanes -> m + Z.of_nat remaining * Z.of_nat n_lanes * 65535 < TETRA_VITERBI_INF.
Proof using.
  unfold conv_acs_safe_limit. assert (HI : TETRA_VITERBI_INF = 1073741823) by reflexivity. destruct (Z.ltb_spec (Z.of_nat remaining * Z.of_nat n_lanes * 65535) TETRA_VITERBI_INF).
  - split; [lia|]. intros m _ Hm. lia.
  - split; [lia|]. intros m H0 Hm. lia.
Qed.

(** The loop that clamps, up to where the test lets it stop. *)
Lemma acs_clamped_spec steps pos p pred : (pos + steps = nsteps)%nat -> metrics_ok p ->
  exists pos', (pos <= pos' <= nsteps)%nat /\
    acs_clamped steps code masks costs nsteps pos n_lanes up p pred = (pos', for_ pos pos' scalar_step (p, pred)) /\
    metrics_ok (fst (for_ pos pos' scalar_step (p, pred))) /\
    (pos' = nsteps \/ forall i, (i < 16)%nat -> (fst (for_ pos pos' scalar_step (p, pred))).[i] + Z.of_nat (nsteps - pos') * Z.of_nat n_lanes * 65535 < TETRA_VITERBI_INF).
Proof using Hcode Hmask Hcosts.
  revert pos p pred. induction steps as [|steps IH]; intros pos p pred Hs HM; cbn [acs_clamped].
  { exists pos. rewrite for_nil by lia. split; [lia|]. split; [done|]. split; [done|left; lia]. }
  destruct (acs_all_below_sse2 p _) eqn:EB.
  { exists pos. rewrite for_nil by lia. split; [lia|]. split; [done|]. split; [done|right]. intros i Hi. cbn [fst].
    destruct (safe_limit_range (nsteps - pos)) as [R1 R2]. apply R2; [apply (metrics_nth p i HM)|]. by apply (all_below_spec p _ HM R1 EB). }
  pose proof (vector_step pos p pred true HM ltac:(done)) as EV. destruct (acs_step_sse2 p masks _ _ _ _) as [p1 row1].
  destruct (scalar_step_ok pos (p, pred) HM) as [HM1 _]. rewrite <- EV in HM1. cbn [fst] in HM1.
  destruct (IH (pos + 1)%nat p1 (blit pred (pos * TETRA_VITERBI_STATES) row1) ltac:(lia) HM1) as (pos' & Hp & E1 & E2 & E3).
  exists pos'. assert (EF : for_ pos pos' scalar_step (p, pred) = for_ (pos + 1) pos' scalar_step (p1, blit pred (pos * TETRA_VITERBI_STATES) row1)).
  { rewrite (for_app pos (pos + 1) pos') by lia. f_equal. rewrite Nat.add_1_r, for_S, for_nil by lia. symmetry. exact EV. }
  rewrite EF. split; [lia|]. done.
Qed.

(** The loop that does not clamp. *)
Lemma unclamped_spec pos p pred : metrics_ok p -> (pos <= nsteps)%nat ->
  (pos = nsteps \/ forall i, (i < 16)%nat -> p.[i] + Z.of_nat (nsteps - pos) * Z.of_nat n_lanes * 65535 < TETRA_VITERBI_INF) ->
  for_ pos nsteps (fun pos '(p, pred) =>
    let '(p, row) := acs_step_sse2 p masks (drop (pos * n_lanes) costs) n_lanes up false in
    (p, blit pred (pos * TETRA_VITERBI_STATES) row)) (p, pred) = for_ pos nsteps scalar_step (p, pred).
Proof using Hcode Hmask Hcosts.
  intros HM Hp [->|Hlow]; [by rewrite !for_nil by lia|].
  enough (H : forall hi, (pos <= hi <= nsteps)%nat -> let r := for_ pos hi scalar_step (p, pred) in
    for_ pos hi (fun pos '(p, pred) =>
      let '(p, row) := acs_step_sse2 p masks (drop (pos * n_lanes) costs) n_lanes up false in
      (p, blit pred (pos * TETRA_VITERBI_STATES) row)) (p, pred) = r /\ metrics_ok (fst r) /\
    forall i, (i < 16)%nat -> (fst r).[i] + Z.of_nat (nsteps - hi) * Z.of_nat n_lanes * 65535 < TETRA_VITERBI_INF) by (apply H; lia).
  intros hi Hhi. cbv zeta. induction hi as [|hi IH].
  { assert (pos = 0%nat) as -> by lia. rewrite !for_nil by lia. done. }
  destruct (decide (pos = S hi)) as [->|Hne]; [rewrite !for_nil by lia; done|]. destruct (IH ltac:(lia)) as (E & HMr & Hr).
  rewrite !for_S by lia. rewrite E. destruct (for_ pos hi scalar_step (p, pred)) as [M pr]. cbn [fst] in HMr, Hr.
  destruct (scalar_step_ok hi (M, pr) HMr) as [HM' HB]. split; [|split; [exact HM'|]].
  - apply vector_step; [done|]. intros _ i Hi. specialize (Hr i Hi). replace (nsteps - hi)%nat with (S (nsteps - S hi)) in Hr by lia. rewrite Nat2Z.inj_succ, Z.mul_succ_l in Hr.
    pose proof (Z.mul_nonneg_nonneg (Z.of_nat (nsteps - S hi)) (Z.of_nat n_lanes) ltac:(lia) ltac:(lia)). lia.
  - intros i Hi. specialize (HB (TETRA_VITERBI_INF - Z.of_nat (nsteps - S hi) * Z.of_nat n_lanes * 65535)). cbn [fst] in HB.
    enough ((fst (scalar_step hi (M, pr))).[i] < TETRA_VITERBI_INF - Z.of_nat (nsteps - S hi) * Z.of_nat n_lanes * 65535) by lia.
    apply HB; [|done]. intros j Hj. specialize (Hr j Hj). replace (nsteps - hi)%nat with (S (nsteps - S hi)) in Hr by lia. rewrite Nat2Z.inj_succ, Z.mul_succ_l in Hr. lia.
Qed.

Lemma simd_is_scalar metric pred : metrics_ok metric ->
  conv_acs_run_simd code metric costs nsteps pred n_lanes up = conv_acs_run_scalar code metric costs nsteps pred.
Proof using Hcode Hmask Hcosts.
  intros HM. unfold conv_acs_run_simd. fold masks.
  destruct (acs_clamped_spec nsteps 0 metric pred ltac:(lia) HM) as (pos & Hp & E & HM' & Hlow). rewrite E.
  unfold conv_acs_run_scalar. transitivity (for_ 0 nsteps scalar_step (metric, pred)); [|reflexivity].
  rewrite (for_app 0 pos nsteps) by lia. destruct (for_ 0 pos scalar_step (metric, pred)) as [M pr]. cbv iota beta.
  apply unclamped_spec; [exact HM'|lia|exact Hlow].
Qed.
End Simd.

(** C32: The SSE2 kernel of the Viterbi search computes what the scalar
    reference computes, bit for bit: for both codes, every cost and any number
    of steps, a run from metrics within the bound (the start of a decode among
    them) gives the same metrics and the same predecessors, although the kernel
    sums the branch metrics modulo 2^32, compares signed numbers and stops clamping
    as soon as no survivor can reach the bound any more. *)
Theorem sse2_matches_scalar code metric costs nsteps pred : In code [k_signalling_code; k_speech_code] ->
  metrics_ok metric -> Forall is_cost costs ->
  conv_acs_run code metric costs nsteps pred = conv_acs_run_scalar code metric costs nsteps pred.
Proof.
  intros [<-|[<-|[]]] HM Hc; unfold conv_acs_run; cbn [lanes shift_up k_signalling_code k_speech_code Nat.eqb andb negb].
  - exact (simd_is_scalar k_signalling_code signalling_ok signalling_masks costs Hc nsteps metric pred HM).
  - exact (simd_is_scalar k_speech_code speech_ok speech_masks costs Hc nsteps metric pred HM).
Qed.

Lemma sse2_matches_scalar_witness :
  conv_acs_run k_speech_code start_metric (replicate 30 40000) 10 (replicate 160 9) =
  conv_acs_run_scalar k_speech_code start_metric (replicate 30 40000) 10 (replicate 160 9).
Proof.
  apply sse2_matches_scalar; [right; left; reflexivity|split; [reflexivity|by_decide]|].
  apply Forall_replicate. unfold is_cost. lia.
Defined.
