(* ===== verification/TetraFec.v ===== *)
(** * [protocol/tetra/tetra_fec.c]: the channel coding of TETRA

    Puncturing, interleaving, scrambling and the checks around the codes of
    [Convolution], the signalling channel SCH/HU and the two speech channels.
    A buffer is a list; a function that writes through a pointer returns it.
    What the uninitialised arrays of predecessors hold is an argument. *)
From Stdlib Require Import ZifyNat.
From S2P Require Import Prelude Crc Convolution.

(** ** Puncturing *)

Variant tetra_punct_i := PUNCT_I_EQUALS_J | PUNCT_I_SKIP_65 | PUNCT_I_SKIP_35.

Record tetra_puncturer := mk_puncturer { P : list Z; p_t : Z; period : Z; i_rule : tetra_punct_i }.

Definition k_p_2_3 : list Z := [1; 2; 5].
Definition k_p_1_3 : list Z := [1; 2; 3; 5; 6; 7].
Definition k_p_8_12 : list Z := [1; 2; 4].
Definition k_p_8_18 : list Z := [1; 2; 3; 4; 5; 7; 8; 10; 11].
Definition k_p_8_17 : list Z := [1; 2; 3; 4; 5; 7; 8; 10; 11; 13; 14; 16; 17; 19; 20; 22; 23].

Definition k_puncturers : list tetra_puncturer := [
  mk_puncturer k_p_2_3 3 8 PUNCT_I_EQUALS_J; mk_puncturer k_p_1_3 6 8 PUNCT_I_EQUALS_J; mk_puncturer k_p_2_3 3 8 PUNCT_I_SKIP_65;
  mk_puncturer k_p_1_3 6 8 PUNCT_I_SKIP_35; mk_puncturer k_p_8_12 3 6 PUNCT_I_EQUALS_J; mk_puncturer k_p_8_18 9 12 PUNCT_I_EQUALS_J;
  mk_puncturer k_p_8_17 17 24 PUNCT_I_EQUALS_J].

Definition TETRA_RCPC_PUNCT_2_3 : Z := 0.
Definition TETRA_RCPC_PUNCT_SPEECH_8_12 : Z := 4.
Definition TETRA_RCPC_PUNCT_SPEECH_8_18 : Z := 5.
Definition TETRA_RCPC_PUNCT_SPEECH_8_17 : Z := 6.

Definition tetra_puncturer_of (punct_id : Z) : option tetra_puncturer :=
  if (punct_id <? 0) || (Z.of_nat (length k_puncturers) <=? punct_id) then None else k_puncturers !! Z.to_nat punct_id.

(** One-based position in the mother code of the one-based bit [j]; 0 for none. *)
Definition tetra_puncturer_k (p : tetra_puncturer) (j : Z) : Z :=
  if j =? 0 then 0
  else
    let i := match i_rule p with
             | PUNCT_I_EQUALS_J => j
             | PUNCT_I_SKIP_65 => u32 (j + (j - 1) / 65)
             | PUNCT_I_SKIP_35 => u32 (j + (j - 1) / 35)
             end in
    let block := (i - 1) / p_t p in
    u32 (period p * block + (P p).[Z.to_nat (i - 1 - p_t p * block)]).

Definition tetra_rcpc_map_j_to_k (punct_id j : Z) : Z :=
  match tetra_puncturer_of punct_id with
  | None => -1
  | Some p => if (j =? 0) || (0xFFFFFF <? j) then -1 else tetra_puncturer_k p j
  end.

(** The buffer written and the value returned. *)
Definition tetra_rcpc_depuncture_by_id (punct_id : Z) (in_costs : list Z) (in_len : Z) (out_costs : list Z) (out_len : Z) : list Z * Z :=
  match tetra_puncturer_of punct_id with
  | None => (out_costs, -1)
  | Some p =>
      if (in_len <? 0) || (out_len <? 0) then (out_costs, -1)
      else
        let out_costs := for_ 0 (Z.to_nat out_len) (fun k out_costs => out_costs.[k <- TETRA_SOFT_NEUTRAL]) out_costs in
        (for_ 1 (S (Z.to_nat in_len)) (fun j out_costs =>
           let k := tetra_puncturer_k p (Z.of_nat j) in
           if (1 <=? k) && (k <=? out_len) then out_costs.[Z.to_nat (k - 1) <- in_costs.[(j - 1)%nat]] else out_costs) out_costs, out_len)
  end.

Definition tetra_rcpc_puncture_by_id (punct_id : Z) (mother : list Z) (mother_len : Z) (out : list Z) (out_len : Z) : list Z * Z :=
  match tetra_puncturer_of punct_id with
  | None => (out, -1)
  | Some p =>
      if (mother_len <? 0) || (out_len <? 0) then (out, -1)
      else
        (for_ 1 (S (Z.to_nat out_len)) (fun j out =>
           let k := tetra_puncturer_k p (Z.of_nat j) in
           out.[(j - 1)%nat <- if (1 <=? k) && (k <=? mother_len) then mother.[Z.to_nat (k - 1)] else 0xFF]) out, out_len)
  end.

(** ** Interleaving and scrambling *)

Definition tetra_block_interleave (in_bits out_bits : list Z) (len a : Z) : list Z :=
  if (len <=? 0) || (a <=? 0) then out_bits
  else for_ 1 (S (Z.to_nat len)) (fun i out_bits => out_bits.[Z.to_nat (u32 (a * Z.of_nat i) mod len) <- in_bits.[(i - 1)%nat]]) out_bits.

Definition tetra_block_deinterleave_soft (in_costs out_costs : list Z) (len a : Z) : list Z :=
  if (len <=? 0) || (a <=? 0) then out_costs
  else for_ 1 (S (Z.to_nat len)) (fun i out_costs => out_costs.[(i - 1)%nat <- in_costs.[Z.to_nat (u32 (a * Z.of_nat i) mod len)]]) out_costs.

Definition tetra_speech_deinterleave_soft (in_costs out_costs : list Z) : list Z :=
  for_ 0 18 (fun column out_costs =>
    for_ 0 24 (fun line out_costs => out_costs.[(line * 18 + column)%nat <- in_costs.[(column * 24 + line)%nat]]) out_costs) out_costs.

(** The register after the step and the bit put out. *)
Definition tetra_lfsr32_next (lfsr : Z) : Z * Z :=
  let s := lfsr in
  let bit := Z.land (foldr Z.lxor 0 (map (Z.shiftr s) [0; 6; 9; 10; 16; 20; 21; 22; 24; 25; 27; 28; 30; 31])) 1 in
  (Z.lor (Z.shiftr s 1) (u32 (Z.shiftl bit 31)), bit).

Definition tetra_descramble_soft (costs : list Z) (len lfsr_init : Z) : list Z :=
  let state := if lfsr_init =? 0 then 3 else lfsr_init in
  snd (for_ 0 (Z.to_nat len) (fun i '(state, costs) =>
         let '(state, bit) := tetra_lfsr32_next state in
         (state, if negb (bit =? 0) && negb (costs.[i] =? TETRA_SOFT_NEUTRAL) then costs.[i <- u16 (Z.lxor 0xFFFF (costs.[i]))] else costs))
       (state, costs)).

Definition tetra_hard_bits_to_soft (bits costs : list Z) (len : Z) : list Z :=
  for_ 0 (Z.to_nat len) (fun i costs => costs.[i <- if Z.land (bits.[i]) 1 =? 0 then 0x0000 else 0xFFFF]) costs.

Definition TETRA_CRC16_OK : Z := 0x1D0F.

Definition tetra_crc16_ccitt_bits (bits : list Z) (len : Z) : Z :=
  if len <=? 0 then 0xFFFF
  else for_ 0 (Z.to_nat len) (fun i crc =>
    let crc := Z.lxor crc (u16 (Z.shiftl (Z.land (bits.[i]) 1) 15)) in
    if negb (Z.land crc 0x8000 =? 0) then u16 (Z.lxor (Z.shiftl crc 1) 0x1021) else u16 (Z.shiftl crc 1)) 0xFFFF.

Definition tetra_compute_scramb_seed (mcc mnc colour : Z) : Z :=
  let s := Z.lor (Z.lor (Z.land colour 0x3f) (Z.shiftl (Z.land mnc 0x3fff) 6)) (u32 (Z.shiftl (Z.land mcc 0x3ff) 20)) in
  Z.lor (u32 (Z.shiftl s 2)) 3.

(** ** SCH/HU: the MAC bits and 1 when the check passes *)

Definition tetra_sch_hu_decode (junk : list Z) (type4 out_bits : list Z) : list Z * Z :=
  let K := 168 in
  let deint := tetra_block_deinterleave_soft type4 (replicate 168 0) K 13 in
  let '(depunc, r1) := tetra_rcpc_depuncture_by_id TETRA_RCPC_PUNCT_2_3 deint K (replicate 448 0) 448 in
  if r1 <? 0 then (out_bits, 0)
  else
    let '(decoded, r2) := tetra_viterbi_decode_soft junk (Some depunc) 448 (Some (replicate 112 0)) 112 in
    let decoded := default [] decoded in
    if (r2 <? 112) || negb (tetra_crc16_ccitt_bits decoded 108 =? TETRA_CRC16_OK) then (out_bits, 0)
    else (blit out_bits 0 (take 92 decoded), 1).

(** ** From dibits to costs

    [include/dsd-neo/dsp/tetra_training.h] and [tetra_expand_dibits_as].  What
    [soft_symbol_to_viterbi_cost] makes of a soft value for the two bits of its
    dibit, floating point arithmetic, is part of the input. *)

Definition tetra_dibit_rotate90 (dibit : Z) : Z :=
  let d := Z.land dibit 3 in Z.lxor (Z.lor (Z.shiftl (Z.land d 1) 1) (Z.shiftr d 1)) 1.

Definition tetra_dibit_from_symbol (symbol : Z) : Z := Z.land symbol 3.

Definition tetra_dibit_derotate (symbol rot : Z) : Z :=
  let d := tetra_dibit_from_symbol symbol in
  let rot := Z.land rot 3 in
  let d := if negb (Z.land rot 1 =? 0) then Z.lor (Z.shiftl (Z.land d 1) 1) (Z.shiftr d 1) else d in
  Z.lxor d (Z.lxor rot (Z.shiftr rot 1)).

Definition tetra_expand_dibits_as (phase_rot : Z) (inverted : bool) (dibits : list Z) (soft_in : option (list (Z * Z))) (count : nat)
  (out : list Z) : list Z :=
  let phase_rot := Z.land phase_rot 3 in
  let soft_in := if negb (phase_rot =? 0) then None else soft_in in
  for_ 0 count (fun i out =>
    let d := Z.land (Z.lxor (tetra_dibit_derotate (dibits.[i]) phase_rot) (if inverted then 2 else 0)) 3 in
    match soft_in with
    | Some soft =>
        let out := out.[(i * 2)%nat <- fst (nth i soft (0, 0))] in
        let out := out.[(i * 2 + 1)%nat <- snd (nth i soft (0, 0))] in
        if inverted then out.[(i * 2)%nat <- u16 (0xFFFF - out.[(i * 2)%nat])] else out
    | None =>
        let out := out.[(i * 2)%nat <- if Z.land (Z.shiftr d 1) 1 =? 0 then 0x0000 else 0xFFFF] in
        out.[(i * 2 + 1)%nat <- if Z.land d 1 =? 0 then 0x0000 else 0xFFFF]
    end) out.

(** ** The other signalling blocks of [protocol/tetra/tetra.c]: the decoded bits and whether the check passes

    [tetra_sb_decode_block] is from the costs it expands on. *)

Definition tetra_hd_decode_bits (junk soft decoded : list Z) : list Z * bool :=
  let deint := tetra_block_deinterleave_soft soft (replicate 216 0) 216 101 in
  let depunc := fst (tetra_rcpc_depuncture_by_id TETRA_RCPC_PUNCT_2_3 deint 216 (replicate 576 0) 576) in
  let decoded := blit decoded 0 (replicate 144 0) in
  let '(decoded, r) := tetra_viterbi_decode_soft junk (Some depunc) 576 (Some decoded) 144 in
  let decoded := default [] decoded in
  (decoded, (r =? 144) && (tetra_crc16_ccitt_bits decoded 140 =? TETRA_CRC16_OK)).

Definition tetra_schf_decode_bits (junk type4 decoded : list Z) : list Z * bool :=
  let deint := tetra_block_deinterleave_soft type4 (replicate 432 0) 432 103 in
  let depunc := fst (tetra_rcpc_depuncture_by_id TETRA_RCPC_PUNCT_2_3 deint 432 (replicate 1152 0) 1152) in
  let decoded := blit decoded 0 (replicate 288 0) in
  let '(decoded, r) := tetra_viterbi_decode_soft junk (Some depunc) 1152 (Some decoded) 288 in
  let decoded := default [] decoded in
  (decoded, (r =? 288) && (tetra_crc16_ccitt_bits decoded 284 =? TETRA_CRC16_OK)).

Definition TETRA_SB_SCRAMB_SEED : Z := 3.

Definition tetra_sb_decode_block (junk costs decoded : list Z) : list Z * bool :=
  let costs := tetra_descramble_soft costs 120 TETRA_SB_SCRAMB_SEED in
  let deint := tetra_block_deinterleave_soft costs (replicate 120 0) 120 11 in
  let depunc := fst (tetra_rcpc_depuncture_by_id TETRA_RCPC_PUNCT_2_3 deint 120 (replicate 320 0) 320) in
  let decoded := blit decoded 0 (replicate 80 0) in
  let '(decoded, r) := tetra_viterbi_decode_soft junk (Some depunc) 320 (Some decoded) 80 in
  let decoded := default [] decoded in
  (decoded, (r =? 80) && (tetra_crc16_ccitt_bits decoded 76 =? TETRA_CRC16_OK)).

(** ** Speech *)

Record tetra_speech_layout := mk_layout {
  l_coded : nat; class0 : nat; class1 : nat; class2 : nat; l_parity : nat; class2_punct : Z }.

Definition TETRA_SPEECH_TAIL : nat := 4.
Definition k_speech_full : tetra_speech_layout := mk_layout 432 102 112 60 8 TETRA_RCPC_PUNCT_SPEECH_8_18.
Definition k_speech_half : tetra_speech_layout := mk_layout 216 51 56 30 4 TETRA_RCPC_PUNCT_SPEECH_8_17.

Definition speech_coded_inputs (lay : tetra_speech_layout) : nat := (class1 lay + class2 lay + l_parity lay + TETRA_SPEECH_TAIL)%nat.
Definition speech_class1_coded (lay : tetra_speech_layout) : nat := (class1 lay * 3 / 2)%nat.
Definition c1_mother (lay : tetra_speech_layout) : nat := (class1 lay * 3)%nat.
Definition c2_mother (lay : tetra_speech_layout) : nat := ((speech_coded_inputs lay - class1 lay) * 3)%nat.
Definition c2_coded (lay : tetra_speech_layout) : nat := (l_coded lay - class0 lay - speech_class1_coded lay)%nat.

(** The coded type-3 bits of the inputs. *)
Definition speech_recode (lay : tetra_speech_layout) (inputs : list Z) : list Z :=
  let mother := conv_encode k_speech_code inputs (speech_coded_inputs lay) (replicate (c1_mother lay + c2_mother lay) 0) in
  fst (tetra_rcpc_puncture_by_id TETRA_RCPC_PUNCT_SPEECH_8_12 mother (Z.of_nat (c1_mother lay))
         (replicate (speech_class1_coded lay) 0) (Z.of_nat (speech_class1_coded lay)))
  ++ fst (tetra_rcpc_puncture_by_id (class2_punct lay) (drop (c1_mother lay) mother) (Z.of_nat (c2_mother lay))
         (replicate (c2_coded lay) 0) (Z.of_nat (c2_coded lay))).

Definition hard_bit (c : Z) : Z := if TETRA_SOFT_NEUTRAL <? c then 1 else 0.

Definition speech_mismatches (lay : tetra_speech_layout) (deint inputs : list Z) : Z :=
  let coded := speech_recode lay inputs in
  for_ 0 (speech_class1_coded lay + c2_coded lay) (fun i bad =>
    if hard_bit (deint.[(class0 lay + i)%nat]) =? coded.[i] then bad else bad + 1) 0.

(** [for (i = len - 1; i >= 0; i--)] *)
Definition speech_crc (bits : list Z) (len : nat) (degree low : Z) : Z :=
  let top := u8 (Z.shiftl 1 (degree - 1)) in
  let mask := u8 (Z.shiftl 1 degree - 1) in
  for_ 0 len (fun k reg =>
    let i := (len - 1 - k)%nat in
    let feedback := xorb (negb (Z.land reg top =? 0)) (negb (Z.land (bits.[i]) 1 =? 0)) in
    let reg := u8 (Z.land (Z.shiftl reg 1) mask) in
    if feedback then Z.lxor reg low else reg) 0.

Definition speech_parity_matches (sent : list Z) (count : nat) (computed : Z) : bool :=
  forallb (fun i => Z.land (sent.[i]) 1 =? Z.land (Z.shiftr computed (Z.of_nat i)) 1) (seq 0 count).

Definition speech_full_crc_ok (class2 : list Z) : bool :=
  if negb (speech_parity_matches (drop 60 class2) 7 (speech_crc class2 60 7 0x09)) then false
  else
    let sum := for_ 0 67 (fun i sum => Z.lxor sum (Z.land (class2.[i]) 1)) 0 in
    sum =? Z.land (class2.[67%nat]) 1.

Definition speech_half_crc_ok (class2 : list Z) : bool := speech_parity_matches (drop 30 class2) 4 (speech_crc class2 30 4 0x03).

(** The type-2 bits: class 0, then the inputs of the trellis. *)
Definition speech_decode (junk : list Z) (lay : tetra_speech_layout) (deint : list Z) : list Z :=
  let mother :=
    fst (tetra_rcpc_depuncture_by_id TETRA_RCPC_PUNCT_SPEECH_8_12 (drop (class0 lay) deint) (Z.of_nat (speech_class1_coded lay))
           (replicate (c1_mother lay) 0) (Z.of_nat (c1_mother lay)))
    ++ fst (tetra_rcpc_depuncture_by_id (class2_punct lay) (drop (class0 lay + speech_class1_coded lay) deint) (Z.of_nat (c2_coded lay))
           (replicate (c2_mother lay) 0) (Z.of_nat (c2_mother lay))) in
  map (fun i => hard_bit (deint.[i])) (seq 0 (class0 lay))
  ++ conv_viterbi k_speech_code junk mother (speech_coded_inputs lay) (replicate (speech_coded_inputs lay) 0).

(** The type-1 bits, whether the check passes, and the number of mismatches. *)
Definition tetra_speech_full_decode (junk deinterleaved : list Z) : list Z * bool * Z :=
  let lay := k_speech_full in
  let type2 := speech_decode junk lay deinterleaved in
  (take 274 type2, speech_full_crc_ok (drop (class0 lay + class1 lay) type2),
   speech_mismatches lay deinterleaved (drop (class0 lay) type2)).

Definition tetra_speech_half_decode (junk deinterleaved : list Z) : list Z * bool * Z :=
  let lay := k_speech_half in
  let type2 := speech_decode junk lay deinterleaved in
  (take 137 type2, speech_half_crc_ok (drop (class0 lay + class1 lay) type2),
   speech_mismatches lay deinterleaved (drop (class0 lay) type2)).
