(* ===== verification/TetraChannels.v ===== *)
(** * What the channel decoders of [protocol/tetra/tetra_fec.c] recover

    Puncturing keeps different bits of the mother code, interleaving is a
    permutation; with the search of [Convolution] a block of SCH/HU comes out
    right whatever burst of thirteen bits hit it, and a speech frame whatever
    single coded bit is wrong. *)
From Stdlib Require Import ZifyNat.
From S2P Require Import Prelude Crc Convolution TetraFec.

(** ** Puncturing *)

(** Zero-based places in the mother code of the first [n] punctured bits. *)
Definition kept (p : tetra_puncturer) (n : nat) : list nat := map (fun j => Z.to_nat (tetra_puncturer_k p (Z.of_nat (S j)) - 1)) (seq 0 n).

Definition kept_ok (p : tetra_puncturer) (n m : nat) : bool :=
  forallb (fun j => let k := tetra_puncturer_k p (Z.of_nat (S j)) in (1 <=? k) && (k <=? Z.of_nat m)) (seq 0 n)
  && forallb (fun j => tetra_puncturer_k p (Z.of_nat (S j)) <? tetra_puncturer_k p (Z.of_nat (S (S j)))) (seq 0 (n - 1)).

Section Punctured.
Context (id : Z) (p : tetra_puncturer) (n m : nat) (Hid : tetra_puncturer_of id = Some p) (Hok : kept_ok p n m = true).

Notation place j := (Z.to_nat (tetra_puncturer_k p (Z.of_nat (S j)) - 1)).

Lemma kept_range j : (j < n)%nat -> 1 <= tetra_puncturer_k p (Z.of_nat (S j)) <= Z.of_nat m.
Proof using Hok.
  intros Hj. unfold kept_ok in Hok. apply andb_true_iff in Hok as [H _]. pose proof (check_nat _ _ H j Hj) as C. cbv beta zeta in C. lia.
Qed.

Lemma kept_test j : (j < n)%nat -> let k := tetra_puncturer_k p (Z.of_nat (S j)) in (1 <=? k) && (k <=? Z.of_nat m) = true.
Proof using Hok. intros Hj. pose proof (kept_range j Hj). cbv zeta. apply andb_true_iff. split; apply Z.leb_le; lia. Qed.

Lemma kept_nth j : (j < n)%nat -> kept p n !! j = Some (place j).
Proof using. intros Hj. unfold kept. by rewrite list_lookup_fmap, lookup_seq_lt. Qed.

Lemma kept_increasing i j : (i < j)%nat -> (j < n)%nat -> tetra_puncturer_k p (Z.of_nat (S i)) < tetra_puncturer_k p (Z.of_nat (S j)).
Proof using Hok.
  intros Hi Hj. unfold kept_ok in Hok. apply andb_true_iff in Hok as [_ H].
  induction j as [|j IH]; [lia|]. pose proof (check_nat _ _ H j ltac:(lia)) as C. apply Z.ltb_lt in C.
  destruct (decide (i = j)) as [->|]; [done|]. specialize (IH ltac:(lia) ltac:(lia)). lia.
Qed.

Lemma kept_inj i j : (i < n)%nat -> (j < n)%nat -> place i = place j -> i = j.
Proof using Hok.
  intros Hi Hj E. pose proof (kept_range i Hi). pose proof (kept_range j Hj).
  destruct (lt_eq_lt_dec i j) as [[L| ->]|L]; [|done|]; pose proof (kept_increasing _ _ L ltac:(lia)); lia.
Qed.

Lemma puncture_stores mother out :
  fst (tetra_rcpc_puncture_by_id id mother (Z.of_nat m) out (Z.of_nat n)) = stores (fun j => j) (fun j => mother.[place j]) n out.
Proof using Hid Hok.
  unfold tetra_rcpc_puncture_by_id. rewrite Hid, !(proj2 (Z.ltb_ge _ 0)) by lia. cbn [orb fst]. rewrite Nat2Z.id.
  change (S n) with (1 + n)%nat. change 1%nat with (1 + 0)%nat at 1. rewrite (for_shift 0 n 1). unfold stores.
  apply for_ext. intros j r Hj. cbn [Nat.add]. rewrite (kept_test j) by lia. by replace (S j - 1)%nat with j by lia.
Qed.

Lemma depuncture_stores costs out :
  fst (tetra_rcpc_depuncture_by_id id costs (Z.of_nat n) out (Z.of_nat m)) =
  stores (fun j => place j) (fun j => costs.[j]) n (stores (fun k => k) (fun _ => TETRA_SOFT_NEUTRAL) m out).
Proof using Hid Hok.
  unfold tetra_rcpc_depuncture_by_id. rewrite Hid, !(proj2 (Z.ltb_ge _ 0)) by lia. cbn [orb fst]. rewrite !Nat2Z.id.
  change (S n) with (1 + n)%nat. change 1%nat with (1 + 0)%nat at 1. rewrite (for_shift 0 n 1). unfold stores.
  apply for_ext. intros j r Hj. cbn [Nat.add]. rewrite (kept_test j) by lia. by replace (S j - 1)%nat with j by lia.
Qed.

Lemma puncture_spec mother out : (n <= length out)%nat ->
  let r := fst (tetra_rcpc_puncture_by_id id mother (Z.of_nat m) out (Z.of_nat n)) in
  length r = length out /\ forall j, (j < n)%nat -> r.[j] = mother.[place j].
Proof using Hid Hok.
  intros Hl. rewrite puncture_stores. cbv zeta. split; [apply length_stores|]. intros j Hj.
  apply (stores_hit (fun j => j)); [done|intros; lia|lia].
Qed.

Lemma depuncture_spec costs out : length out = m ->
  let r := fst (tetra_rcpc_depuncture_by_id id costs (Z.of_nat n) out (Z.of_nat m)) in
  length r = m /\ (forall j, (j < n)%nat -> r.[place j] = costs.[j]) /\
  (forall i, (i < m)%nat -> i ∉ kept p n -> r.[i] = TETRA_SOFT_NEUTRAL).
Proof using Hid Hok.
  intros Hl. rewrite depuncture_stores. cbv zeta. set (out0 := stores _ _ m out).
  assert (L0 : length out0 = m) by (unfold out0; by rewrite length_stores).
  split; [by rewrite length_stores|]. split.
  - intros j Hj. pose proof (kept_range j Hj). apply (stores_hit (fun j => place j)); [done| |lia].
    intros i Hi Hne E. apply Hne. by apply kept_inj.
  - intros i Hi Hni. rewrite stores_miss.
    + apply (stores_hit (fun k => k) (fun _ => TETRA_SOFT_NEUTRAL)); [done|intros; lia|lia].
    + intros j Hj E. apply Hni. rewrite <- E. apply list_elem_of_lookup. exists j. by apply kept_nth.
Qed.

Lemma depuncture_costs costs : Forall is_cost costs ->
  Forall is_cost (fst (tetra_rcpc_depuncture_by_id id costs (Z.of_nat n) (replicate m 0) (Z.of_nat m))).
Proof using Hid Hok.
  intros Hc. destruct (depuncture_spec costs (replicate m 0) (length_replicate m 0)) as (L & H1 & H2).
  set (r := fst _) in *. apply Forall_forall. intros x Hx. apply list_elem_of_lookup in Hx as [i Hx].
  pose proof (lookup_lt_Some _ _ _ Hx) as Hi. assert (E : x = r.[i]) by (by rewrite nth_lookup, Hx).
  destruct (decide (i ∈ kept p n)) as [Hin|Hni].
  - apply list_elem_of_lookup in Hin as [j Hj]. pose proof (lookup_lt_Some _ _ _ Hj) as Hjn. unfold kept in Hjn. rewrite length_map, length_seq in Hjn.
    rewrite kept_nth in Hj by done. injection Hj as <-. rewrite E, H1 by done. by apply cost_nth.
  - rewrite E, H2 by (done || lia). unfold is_cost, TETRA_SOFT_NEUTRAL. lia.
Qed.
End Punctured.

(** ** Interleaving *)

Section Interleaved.
Context (len a : Z) (Hl : 0 < len) (Ha : 0 < a) (Hal : a * len < 2 ^ 32).

(** Zero-based place of the zero-based bit [j] in the interleaved block. *)
Definition interleaved (j : nat) : nat := Z.to_nat (a * Z.of_nat (S j) mod len).

Lemma interleaved_lt j : (interleaved j < Z.to_nat len)%nat.
Proof using Hl. clear Ha Hal. unfold interleaved. pose proof (Z.mod_pos_bound (a * Z.of_nat (S j)) len Hl). lia. Qed.

Lemma interleave_stores bits out :
  tetra_block_interleave bits out len a = stores interleaved (fun j => bits.[j]) (Z.to_nat len) out.
Proof using Hl Ha Hal.
  unfold tetra_block_interleave. rewrite !(proj2 (Z.leb_gt _ 0)) by lia. cbn [orb].
  change (S (Z.to_nat len)) with (1 + Z.to_nat len)%nat. change 1%nat with (1 + 0)%nat at 1. rewrite (for_shift 0 _ 1). unfold stores.
  apply for_ext. intros j r Hj. cbn [Nat.add]. unfold interleaved. rewrite u32_small by nia. by replace (S j - 1)%nat with j by lia.
Qed.

Lemma deinterleave_stores costs out :
  tetra_block_deinterleave_soft costs out len a = stores (fun j => j) (fun j => costs.[interleaved j]) (Z.to_nat len) out.
Proof using Hl Ha Hal.
  unfold tetra_block_deinterleave_soft. rewrite !(proj2 (Z.leb_gt _ 0)) by lia. cbn [orb].
  change (S (Z.to_nat len)) with (1 + Z.to_nat len)%nat. change 1%nat with (1 + 0)%nat at 1. rewrite (for_shift 0 _ 1). unfold stores.
  apply for_ext. intros j r Hj. cbn [Nat.add]. unfold interleaved. rewrite u32_small by nia. by replace (S j - 1)%nat with j by lia.
Qed.

Lemma interleaved_inj i j : Z.gcd a len = 1 -> (i < Z.to_nat len)%nat -> (j < Z.to_nat len)%nat -> interleaved i = interleaved j -> i = j.
Proof using Hl.
  clear Ha Hal. intros Hg Hi Hj E. unfold interleaved in E.
  apply (f_equal Z.of_nat) in E. rewrite !Z2Nat.id in E by (apply Z.mod_pos_bound; lia).
  assert (D : (len | a * (Z.of_nat i - Z.of_nat j))).
  { replace (a * (Z.of_nat i - Z.of_nat j)) with (a * Z.of_nat (S i) - a * Z.of_nat (S j)) by lia.
    apply Z.mod_divide; [lia|]. rewrite Zminus_mod, E, Z.sub_diag. apply Z.mod_0_l. lia. }
  apply Z.gauss in D; [|by rewrite Z.gcd_comm]. destruct D as [q D]. assert (-len < Z.of_nat i - Z.of_nat j < len) by lia.
  clear E Hg. assert (q = 0) as -> by nia. lia.
Qed.
End Interleaved.

(** ** The check sequence of the signalling channels *)

Lemma tetra_crc_run l n : (0 < n)%nat ->
  tetra_crc16_ccitt_bits l (Z.of_nat n) = crc_run 16 0x1021 0xFFFF n (fun i => Z.land (l.[i]) 1).
Proof.
  intros Hn. unfold tetra_crc16_ccitt_bits. rewrite (proj2 (Z.leb_gt _ 0)), Nat2Z.id by lia. apply for_ext. intros i c _.
  unfold crc_step. change (Z.of_nat 16 - 1) with 15. change (wrap (Z.of_nat 16)) with u16.
  assert (Et : forall x, negb (Z.land x 0x8000 =? 0) = Z.testbit x 15).
  { intros x. change 0x8000 with (2 ^ 15).
    assert (E : Z.land x (2 ^ 15) = if Z.testbit x 15 then 2 ^ 15 else 0).
    { apply Z.bits_inj'. intros k Hk. rewrite Z.land_spec, Z.pow2_bits_eqb by lia. destruct (Z.eqb_spec 15 k) as [<-|Hne].
      - by destruct (Z.testbit x 15).
      - rewrite andb_false_r. destruct (Z.testbit x 15); [|by rewrite Z.bits_0]. rewrite Z.pow2_bits_eqb by lia.
        by rewrite (proj2 (Z.eqb_neq 15 k)). }
    rewrite E. by destruct (Z.testbit x 15). }
  rewrite Et, Z.lxor_spec. destruct (land1_bit (l.[i])) as [-> | ->].
  - change (u16 (Z.shiftl 0 15)) with 0. rewrite !Z.lxor_0_r, Z.bits_0, xorb_false_r. destruct (Z.testbit c 15); cbn [Z.b2z Z.eqb];
      [unfold u16; by rewrite wrap_lxor by lia|by rewrite Z.lxor_0_r].
  - change (u16 (Z.shiftl 1 15)) with 0x8000. change (Z.testbit 0x8000 15) with true.
    assert (Es : u16 (Z.shiftl (Z.lxor c 0x8000) 1) = u16 (Z.shiftl c 1))
      by (rewrite Z.shiftl_lxor; unfold u16; rewrite wrap_lxor by lia; change (wrap 16 (Z.shiftl 0x8000 1)) with 0; apply Z.lxor_0_r).
    destruct (Z.testbit c 15); cbn [Z.b2z xorb]; [change (Z.lxor 1 1) with 0|change (Z.lxor 0 1) with 1]; cbn [Z.eqb].
    + by rewrite Es, Z.lxor_0_r.
    + unfold u16 in *. rewrite wrap_lxor, Es by lia. done.
Qed.

(** The check bits sent: the register's complement, most significant first. *)
Definition check_bits (msg : list Z) : list Z := map (fun b => 1 - b) (crc_bits 16 (tetra_crc16_ccitt_bits msg (Z.of_nat (length msg)))).

Lemma check_residue msg rest : bits msg -> (0 < length msg)%nat ->
  tetra_crc16_ccitt_bits (msg ++ check_bits msg ++ rest) (Z.of_nat (length msg + 16)) = TETRA_CRC16_OK.
Proof.
  intros Hb Hl. unfold check_bits. rewrite !tetra_crc_run, crc_run_app by lia. set (n := length msg) in *.
  set (c := crc_run 16 0x1021 0xFFFF n (fun i => Z.land (msg.[i]) 1)).
  assert (Hc : 0 <= c < 2 ^ Z.of_nat 16) by (apply crc_run_range; [lia| |]; cbn; lia).
  rewrite (crc_run_ext 16 0x1021 0xFFFF n _ (fun i => Z.land (msg.[i]) 1)) by (intros i Hi; by rewrite app_nth1).
  fold c. destruct (crc_bits_spec 16 c) as (Lc & Bc & Ec).
  assert (Hf : forall i, is_bit ((crc_bits 16 c).[i])) by (intros; by apply bits_nth).
  rewrite (crc_run_ext 16 0x1021 c 16 _ (fun i => Z.lxor ((crc_bits 16 c).[i]) 1)).
  2: { intros i Hi. rewrite app_nth2 by lia. replace (n + i - length msg)%nat with i by lia.
    rewrite app_nth1 by (rewrite length_map, Lc; lia).
    change 0 with ((fun b => 1 - b) 1) at 1. rewrite (nth_indep _ _ (1 - 0)) by (rewrite length_map, Lc; lia). rewrite (map_nth (fun b => 1 - b)).
    destruct (Hf i) as [-> | ->]; done. }
  rewrite <- (Z.lxor_0_r c) at 1.
  rewrite (crc_run_lxor 16 0x1021 ltac:(lia) c 0 16 (fun i => (crc_bits 16 c).[i]) (fun _ => 1) Hf (fun _ => or_intror eq_refl)).
  pose proof (crc_run_self 16 0x1021 ltac:(lia) 16 (fun i => (crc_bits 16 c).[i]) (le_n 16) Hf) as S.
  rewrite Z.sub_diag, Z.mul_1_r in S. rewrite (bits_value_ext 16 _ _ Ec), bits_value_testbit in S by lia. rewrite S. reflexivity.
Qed.

(** ** The signalling blocks: rate 2/3, interleaved *)

Definition p_2_3 : tetra_puncturer := mk_puncturer k_p_2_3 3 8 PUNCT_I_EQUALS_J.

Definition flush_ok (code : tetra_conv_code) : bool :=
  forallb (fun s => Nat.iter 4 (fun s => conv_next_state code s 0) (Z.of_nat s) =? 0) (seq 0 16).

(** Four zeros end the path in state 0. *)
Lemma tail_state code u n : code_ok code = true -> flush_ok code = true -> path_bits u n ->
  (forall t, (n <= t < n + 4)%nat -> u t = 0) -> state_at code u (n + 4) = 0.
Proof.
  intros Hc Hf Hb H0. pose proof (state_at_range code Hc u n Hb) as Hs. rewrite Nat.add_comm. cbn [Nat.add state_at].
  rewrite !H0 by lia. pose proof (check_nat _ _ Hf (Z.to_nat (state_at code u n)) ltac:(lia)) as C. cbv beta in C.
  rewrite Z2Nat.id in C by lia. by apply Z.eqb_eq in C.
Qed.

Definition burst_weight (B st q : Z) : Z := if q <? 0 then 0 else if (st <=? q) && (q <? st + B) then -1 else 1.

(** ** A decoder that takes its costs from a block

    [src] says for each bit of the mother code which place of the block carries
    it, -1 for none. *)
Section Placed.
Context (code : tetra_conv_code) (Hcode : code_ok code = true) (Hlin : linear_ok code = true) (n : nat) (src block costs : list Z) (u0 : nat -> Z).
Notation size := (n * lanes code)%nat.

Record placed : Prop := {
  placed_path : path_bits u0 n /\ state_at code u0 n = 0;
  placed_src : length src = size;
  placed_block : Forall is_cost block;
  placed_costs : Forall is_cost costs;
  placed_unique : forall i i', (i < size)%nat -> (i' < size)%nat -> 0 <= src.[i] -> src.[i] = src.[i'] -> i = i';
  placed_from : forall i, (i < size)%nat -> costs.[i] = if src.[i] <? 0 then TETRA_SOFT_NEUTRAL else block.[Z.to_nat (src.[i])] }.

(** The block is right and sure outside [B] places from [st] on. *)
Definition right_outside (st B : Z) : Prop :=
  forall i, (i < size)%nat -> 0 <= src.[i] -> ~ st <= src.[i] < st + B -> block.[Z.to_nat (src.[i])] = 65535 * code_bit code u0 i.

Lemma map_src f i : placed -> (i < size)%nat -> (map f src).[i] = f (src.[i]).
Proof using. intros HP Hi. rewrite (nth_indep _ 0 (f 0)) by (rewrite length_map, (placed_src HP); lia). apply map_nth. Qed.

Lemma placed_gain st B : placed -> right_outside st B -> forall i, (i < size)%nat ->
  65535 * (map (burst_weight B st) src).[i] - 1 <= gain (costs.[i]) (code_bit code u0 i).
Proof using.
  intros HP Hr i Hi. rewrite map_src, (placed_from HP) by done. unfold burst_weight. destruct (Z.ltb_spec (src.[i]) 0).
  - unfold gain, TETRA_SOFT_NEUTRAL. destruct (_ =? 0); lia.
  - pose proof (cost_nth block (Z.to_nat (src.[i])) (placed_block HP)) as Hc. unfold is_cost in Hc.
    destruct (decide (st <= src.[i] < st + B)) as [Hin|Hout].
    + rewrite (proj2 (andb_true_iff _ _)) by (split; [apply Z.leb_le|apply Z.ltb_lt]; lia). unfold gain. destruct (_ =? 0); lia.
    + rewrite (proj2 (andb_false_iff _ _)) by (rewrite Z.leb_gt, Z.ltb_ge; lia). rewrite Hr by done. unfold gain.
      destruct (edge_bit code (state_at code u0 (i / lanes code)) (u0 (i / lanes code)%nat) (i mod lanes code)) as [E|E];
        unfold code_bit; rewrite E; cbn; lia.
Qed.

(** The decoder finds the path [u0]. *)
Definition found (junk out : list Z) : Prop :=
  let r := conv_viterbi code junk costs n out in
  length r = length out /\ forall t, r.[t] = if decide (t < n)%nat then u0 t else out.[t].

Context (junk out : list Z) (Hn : (n <= 512)%nat) (Hj : (n * 16 <= length junk)%nat) (Ho : (n <= length out)%nat).

Lemma placed_burst st B : placed -> right_outside st B -> 1 <= least_weight code (map (burst_weight B st) src) n -> found junk out.
Proof using Hcode Hlin Hn Hj Ho.
  intros HP Hr Hw. destruct (placed_path HP).
  apply (viterbi_decides code Hcode Hlin junk costs n out u0 (map (burst_weight B st) src)); try done; [apply (placed_costs HP)|by apply placed_gain].
Qed.

Lemma placed_one st : placed -> right_outside st 1 -> 0 <= st -> 3 <= least_weight code (map (burst_weight 0 0) src) n -> found junk out.
Proof using Hcode Hlin Hn Hj Ho.
  intros HP Hr Hst Hw. set (w := map (burst_weight 0 0) src) in *. destruct (placed_path HP).
  assert (Hk : exists k, forall i, (i < size)%nat -> (w.[k <- -1]).[i] <= (map (burst_weight 1 st) src).[i]).
  { assert (Hne : forall i, (i < size)%nat -> src.[i] <> st -> w.[i] <= (map (burst_weight 1 st) src).[i]).
    { intros i Hi Hne. unfold w. rewrite !map_src by done. unfold burst_weight. destruct (Z.ltb_spec (src.[i]) 0); [done|].
      rewrite (proj2 (andb_false_iff _ _)) by (rewrite Z.leb_gt, Z.ltb_ge; lia).
      by rewrite (proj2 (andb_false_iff _ _)) by (rewrite Z.leb_gt, Z.ltb_ge; lia). }
    destruct (decide (Exists (fun i => src.[i] = st) (seq 0 size))) as [X|X].
    - apply Exists_exists in X as (k & Hk & Ek). apply elem_of_seq in Hk. exists k. intros i Hi. rewrite nth_insert.
      destruct (decide (k = i /\ _)) as [[<- _]|Hne'].
      + rewrite map_src by done. unfold burst_weight. rewrite Ek, (proj2 (Z.ltb_ge _ 0)) by lia.
        by rewrite (proj2 (andb_true_iff _ _)) by (split; [apply Z.leb_le|apply Z.ltb_lt]; lia).
      + apply Hne; [done|]. intros Ei. apply Hne'. split; [|unfold w; rewrite length_map, (placed_src HP); lia].
        apply (placed_unique HP); [lia|done|lia|congruence].
    - exists size. intros i Hi. rewrite nth_insert_ne by lia. apply Hne; [done|]. intros Ei. apply X, Exists_exists.
      exists i. split; [apply elem_of_seq; lia|done]. }
  destruct Hk as [k Hk].
  apply (viterbi_decides_one code Hcode Hlin junk costs n out u0 w k); try done; [apply (placed_costs HP)| |].
  - destruct (decide (k < size)%nat) as [Hi|Hi]; [|rewrite nth_overflow by (unfold w; rewrite length_map, (placed_src HP); lia); lia].
    unfold w. rewrite map_src by done. unfold burst_weight. destruct (_ <? 0); [lia|]. destruct (_ && _); lia.
  - intros i Hi. specialize (Hk i Hi). pose proof (placed_gain st 1 HP Hr i Hi). lia.
Qed.
End Placed.

(** What is sent for a block of [t2] bits: encode, puncture to [K] bits, interleave. *)
Definition signalling_transmit (K t2 : nat) (a : Z) (frame : list Z) : list Z :=
  let mother := conv_encode k_signalling_code frame t2 (replicate (t2 * 4) 0) in
  let type3 := fst (tetra_rcpc_puncture_by_id TETRA_RCPC_PUNCT_2_3 mother (Z.of_nat (t2 * 4)) (replicate K 0) (Z.of_nat K)) in
  tetra_block_interleave type3 (replicate K 0) (Z.of_nat K) a.

(** The costs of the mother code the decoder looks at. *)
Definition signalling_costs (K t2 : nat) (a : Z) (type4 : list Z) : list Z :=
  fst (tetra_rcpc_depuncture_by_id TETRA_RCPC_PUNCT_2_3 (tetra_block_deinterleave_soft type4 (replicate K 0) (Z.of_nat K) a)
         (Z.of_nat K) (replicate (t2 * 4) 0) (Z.of_nat (t2 * 4))).

(** For each bit of the mother code its place in the block, -1 for none; and a
    weight for it. *)
Definition sources (K n : nat) (a : Z) : list Z :=
  stores (fun j => Z.to_nat (tetra_puncturer_k p_2_3 (Z.of_nat (S j)) - 1)) (fun j => Z.of_nat (interleaved (Z.of_nat K) a j)) K (replicate n (-1)).

Definition bursts_ok (K t2 : nat) (a : Z) (B : nat) : bool :=
  let src := sources K (t2 * 4) a in
  forallb (fun st => 1 <=? least_weight k_signalling_code (map (burst_weight (Z.of_nat B) (Z.of_nat st)) src) t2) (seq 0 (S (K - B))).

Definition one_ok (K t2 : nat) (a : Z) : bool := 3 <=? least_weight k_signalling_code (map (burst_weight 0 0) (sources K (t2 * 4) a)) t2.

Lemma signalling_linear : linear_ok k_signalling_code = true.
Proof. vm_compute. reflexivity. Qed.

Lemma speech_linear : linear_ok k_speech_code = true.
Proof. vm_compute. reflexivity. Qed.

(** What the sizes of a block have to satisfy. *)
Record block_sizes (K t2 : nat) (a : Z) : Prop := {
  size_K : (0 < K)%nat; size_a : 0 < a; size_product : a * Z.of_nat K < 2 ^ 32; size_coprime : Z.gcd a (Z.of_nat K) = 1;
  size_t2 : (4 <= t2 <= 512)%nat; size_kept : kept_ok p_2_3 K (t2 * 4) = true }.

Section Signalling.
Context (K t2 : nat) (a : Z) (HK : (0 < K)%nat) (Ha : 0 < a) (Hal : a * Z.of_nat K < 2 ^ 32) (Hg : Z.gcd a (Z.of_nat K) = 1)
  (Ht2 : (4 <= t2 <= 512)%nat) (Hkept : kept_ok p_2_3 K (t2 * 4) = true).
Notation place j := (Z.to_nat (tetra_puncturer_k p_2_3 (Z.of_nat (S j)) - 1)).
Notation at_ j := (interleaved (Z.of_nat K) a j).
Notation path frame := (fun t => Z.land (frame.[t]) 1).
Implicit Types frame out : list Z.

Lemma at_lt j : (at_ j < K)%nat.
Proof using HK Ha Hal Hg Ht2 Hkept. pose proof (interleaved_lt (Z.of_nat K) a ltac:(lia) j). lia. Qed.

Lemma transmit_spec frame : let tx := signalling_transmit K t2 a frame in
  length tx = K /\ forall j, (j < K)%nat -> tx.[at_ j] = code_bit k_signalling_code (path frame) (place j).
Proof using HK Ha Hal Hg Ht2 Hkept.
  unfold signalling_transmit. cbv zeta. rewrite interleave_stores by lia. rewrite Nat2Z.id.
  destruct (conv_encode_spec k_signalling_code frame t2 (replicate (t2 * 4) 0) ltac:(cbn; lia) ltac:(rewrite length_replicate; cbn [lanes k_signalling_code]; lia)) as [Lm Hm].
  cbv zeta in Lm, Hm. set (mother := conv_encode _ _ _ _) in *.
  destruct (puncture_spec TETRA_RCPC_PUNCT_2_3 p_2_3 K (t2 * 4) eq_refl Hkept mother (replicate K 0) ltac:(len)) as [L3 H3].
  cbv zeta in L3, H3. set (type3 := fst _) in *. split; [rewrite length_stores; len|]. intros j Hj.
  rewrite (stores_hit (fun j => at_ j)); [|done| |rewrite length_replicate; apply at_lt].
  - rewrite H3 by done. rewrite Hm. pose proof (kept_range p_2_3 K (t2 * 4) Hkept j Hj). apply decide_True. cbn [lanes k_signalling_code]. lia.
  - intros i Hi Hne E. apply Hne. apply (interleaved_inj (Z.of_nat K) a ltac:(lia)); [done|lia|lia|done].
Qed.

Lemma transmit_bits frame : bits (signalling_transmit K t2 a frame).
Proof using HK Ha Hal Hg Ht2 Hkept.
  unfold signalling_transmit. cbv zeta. rewrite interleave_stores by lia. rewrite Nat2Z.id.
  destruct (conv_encode_spec k_signalling_code frame t2 (replicate (t2 * 4) 0) ltac:(cbn; lia) ltac:(rewrite length_replicate; cbn [lanes k_signalling_code]; lia)) as [Lm Hm].
  cbv zeta in Lm, Hm. set (mother := conv_encode _ _ _ _) in *.
  destruct (puncture_spec TETRA_RCPC_PUNCT_2_3 p_2_3 K (t2 * 4) eq_refl Hkept mother (replicate K 0) ltac:(len)) as [L3 H3].
  cbv zeta in L3, H3. set (type3 := fst _) in *. unfold stores.
  apply (for_inv bits); [apply Forall_replicate; by left|]. intros j s Hj Hs. apply bits_insert; [done|]. rewrite H3, Hm by lia.
  pose proof (kept_range p_2_3 K (t2 * 4) Hkept j ltac:(lia)). rewrite decide_True by (cbn [lanes k_signalling_code]; lia). apply edge_bit.
Qed.

Lemma costs_spec type4 : Forall is_cost type4 -> let r := signalling_costs K t2 a type4 in
  Forall is_cost r /\ (forall j, (j < K)%nat -> r.[place j] = type4.[at_ j]) /\
  forall i, (i < t2 * 4)%nat -> i ∉ kept p_2_3 K -> r.[i] = TETRA_SOFT_NEUTRAL.
Proof using HK Ha Hal Hg Ht2 Hkept.
  intros Hc. unfold signalling_costs. cbv zeta. rewrite deinterleave_stores by lia. rewrite Nat2Z.id.
  set (deint := stores _ _ K (replicate K 0)).
  assert (Hd : forall j, (j < K)%nat -> deint.[j] = type4.[at_ j])
    by (intros j Hj; apply (stores_hit (fun j => j) (fun j => type4.[at_ j])); [done|intros; lia|len]).
  destruct (depuncture_spec TETRA_RCPC_PUNCT_2_3 p_2_3 K (t2 * 4) eq_refl Hkept deint (replicate (t2 * 4) 0) ltac:(len)) as (L & H1 & H2).
  split; [|split; [intros j Hj; by rewrite H1, Hd|done]].
  apply (depuncture_costs TETRA_RCPC_PUNCT_2_3 p_2_3 K (t2 * 4) eq_refl Hkept). apply Forall_forall. intros x Hx.
  apply list_elem_of_lookup in Hx as [i Hx]. pose proof (lookup_lt_Some _ _ _ Hx) as Hi. unfold deint in Hi. rewrite length_stores, length_replicate in Hi.
  assert (E : x = deint.[i]) by (by rewrite nth_lookup, Hx). rewrite E, Hd by done. by apply cost_nth.
Qed.

Lemma sources_spec : length (sources K (t2 * 4) a) = (t2 * 4)%nat /\
  (forall j, (j < K)%nat -> (sources K (t2 * 4) a).[place j] = Z.of_nat (at_ j)) /\
  forall i, (i < t2 * 4)%nat -> i ∉ kept p_2_3 K -> (sources K (t2 * 4) a).[i] = -1.
Proof using HK Ha Hal Hg Ht2 Hkept.
  unfold sources. split; [rewrite length_stores; len|]. split.
  - intros j Hj. pose proof (kept_range p_2_3 K (t2 * 4) Hkept j Hj).
    apply (stores_hit (fun j => place j) (fun j => Z.of_nat (at_ j))); [done| |rewrite length_replicate; lia].
    intros i Hi Hne E. apply Hne. by apply (kept_inj p_2_3 K (t2 * 4) Hkept).
  - intros i Hi Hni. rewrite stores_miss.
    + rewrite nth_lookup, lookup_replicate_2; done.
    + intros j Hj E. apply Hni. rewrite <- E. apply list_elem_of_lookup. exists j. by apply kept_nth.
Qed.

Lemma frame_path frame : bits frame -> length frame = t2 -> (forall t, (t2 - 4 <= t)%nat -> frame.[t] = 0) ->
  path_bits (path frame) t2 /\ state_at k_signalling_code (path frame) t2 = 0.
Proof using HK Ha Hal Hg Ht2 Hkept.
  intros Hb Hl H0. assert (Hp : forall n, path_bits (path frame) n) by (intros n t _; apply land1_bit). split; [apply Hp|].
  replace t2 with (t2 - 4 + 4)%nat by lia. apply tail_state; [apply signalling_ok|by vm_compute|apply Hp|].
  intros t Ht. by rewrite H0 by lia.
Qed.

Lemma frame_back frame out r : bits frame -> length frame = t2 -> length out = t2 -> length r = length out ->
  (forall t, r.[t] = if decide (t < t2)%nat then path frame t else out.[t]) -> r = frame.
Proof using HK Ha Hal Hg Ht2 Hkept.
  intros Hb Hl Ho Lr H. apply list_eq_nth; [congruence|]. intros t Ht. rewrite H, decide_True by lia. apply land1_id. by apply bits_nth.
Qed.

(** The mother code's bit that the place [q] of the block carries, if any. *)
Lemma source_unique i i' : (i < t2 * 4)%nat -> (i' < t2 * 4)%nat -> 0 <= (sources K (t2 * 4) a).[i] ->
  (sources K (t2 * 4) a).[i] = (sources K (t2 * 4) a).[i'] -> i = i'.
Proof using HK Ha Hal Hg Ht2 Hkept.
  intros Hi Hi' H0 E. destruct sources_spec as (_ & Hs1 & Hs2).
  assert (HP : forall k, (k < t2 * 4)%nat -> 0 <= (sources K (t2 * 4) a).[k] -> exists j, (j < K)%nat /\ k = place j).
  { intros k Hk Hk0. destruct (decide (k ∈ kept p_2_3 K)) as [Hin|Hni]; [|rewrite Hs2 in Hk0; lia || done].
    apply list_elem_of_lookup in Hin as [j Hj]. pose proof (lookup_lt_Some _ _ _ Hj) as Hjn. unfold kept in Hjn. rewrite length_map, length_seq in Hjn.
    rewrite kept_nth in Hj by done. injection Hj as <-. by exists j. }
  destruct (HP i Hi H0) as (j & Hj & ->). destruct (HP i' Hi' ltac:(lia)) as (j' & Hj' & ->). rewrite !Hs1 in E by done.
  apply Nat2Z.inj in E. f_equal. f_equal. f_equal. f_equal.
  by rewrite (interleaved_inj (Z.of_nat K) a ltac:(lia) j j' Hg ltac:(lia) ltac:(lia) E).
Qed.

Lemma block_placed frame type4 : bits frame -> length frame = t2 -> (forall t, (t2 - 4 <= t)%nat -> frame.[t] = 0) -> Forall is_cost type4 ->
  placed k_signalling_code t2 (sources K (t2 * 4) a) type4 (signalling_costs K t2 a type4) (path frame).
Proof using HK Ha Hal Hg Ht2 Hkept.
  intros Hb Hl H0 Hc. destruct sources_spec as (Ls & Hs1 & Hs2). destruct (costs_spec type4 Hc) as (Hc0 & Hc1 & Hc2). cbv zeta in Hc1, Hc2.
  split; [by apply frame_path|done|done|done|exact source_unique|]. intros i Hi. change (lanes k_signalling_code) with 4%nat in Hi.
  destruct (decide (i ∈ kept p_2_3 K)) as [Hin|Hni].
  - apply list_elem_of_lookup in Hin as [j Hj]. pose proof (lookup_lt_Some _ _ _ Hj) as Hjn. unfold kept in Hjn. rewrite length_map, length_seq in Hjn.
    rewrite kept_nth in Hj by done. injection Hj as <-. rewrite Hs1, Hc1 by done. by rewrite (proj2 (Z.ltb_ge _ 0)), Nat2Z.id by lia.
  - by rewrite Hs2, Hc2 by done.
Qed.

Lemma block_right frame type4 st (B : nat) :
  (forall q, (q < K)%nat -> ~ (st <= q < st + B)%nat -> type4.[q] = 65535 * (signalling_transmit K t2 a frame).[q]) ->
  right_outside k_signalling_code t2 (sources K (t2 * 4) a) type4 (path frame) (Z.of_nat st) (Z.of_nat B).
Proof using HK Ha Hal Hg Ht2 Hkept.
  intros Hq i Hi H0 Hout. change (lanes k_signalling_code) with 4%nat in Hi. destruct sources_spec as (_ & Hs1 & Hs2).
  destruct (transmit_spec frame) as [_ Ht]. cbv zeta in Ht.
  destruct (decide (i ∈ kept p_2_3 K)) as [Hin|Hni]; [|rewrite Hs2 in H0 by done; lia].
  apply list_elem_of_lookup in Hin as [j Hj]. pose proof (lookup_lt_Some _ _ _ Hj) as Hjn. unfold kept in Hjn. rewrite length_map, length_seq in Hjn.
  rewrite kept_nth in Hj by done. injection Hj as <-. rewrite Hs1 in * by done. rewrite Nat2Z.id, Hq by (apply at_lt || lia). by rewrite Ht.
Qed.

(** Costs that are right and sure outside a window of [B] are enough. *)
Lemma signalling_burst junk frame type4 out (B : nat) st : bursts_ok K t2 a B = true ->
  bits frame -> length frame = t2 -> (forall t, (t2 - 4 <= t)%nat -> frame.[t] = 0) ->
  Forall is_cost type4 -> (t2 * 16 <= length junk)%nat -> length out = t2 -> (st + B <= K)%nat ->
  (forall q, (q < K)%nat -> ~ (st <= q < st + B)%nat -> type4.[q] = 65535 * (signalling_transmit K t2 a frame).[q]) ->
  conv_viterbi k_signalling_code junk (signalling_costs K t2 a type4) t2 out = frame.
Proof using HK Ha Hal Hg Ht2 Hkept.
  intros HB Hb Hl H0 Hc Hj Ho Hst Hq. pose proof (check_nat _ _ HB st ltac:(lia)) as C. apply Z.leb_le in C.
  destruct (placed_burst k_signalling_code signalling_ok signalling_linear t2 (sources K (t2 * 4) a) type4 (signalling_costs K t2 a type4)
    (path frame) junk out ltac:(lia) Hj ltac:(lia) (Z.of_nat st) (Z.of_nat B)) as [Lr Hr];
    [by apply block_placed|by apply block_right|done|by apply (frame_back frame out)].
Qed.

(** So are costs that are right and sure but at one place. *)
Lemma signalling_one junk frame type4 out st : one_ok K t2 a = true ->
  bits frame -> length frame = t2 -> (forall t, (t2 - 4 <= t)%nat -> frame.[t] = 0) ->
  Forall is_cost type4 -> (t2 * 16 <= length junk)%nat -> length out = t2 ->
  (forall q, (q < K)%nat -> q <> st -> type4.[q] = 65535 * (signalling_transmit K t2 a frame).[q]) ->
  conv_viterbi k_signalling_code junk (signalling_costs K t2 a type4) t2 out = frame.
Proof using HK Ha Hal Hg Ht2 Hkept.
  intros HB Hb Hl H0 Hc Hj Ho Hq. unfold one_ok in HB. apply Z.leb_le in HB.
  destruct (placed_one k_signalling_code signalling_ok signalling_linear t2 (sources K (t2 * 4) a) type4 (signalling_costs K t2 a type4)
    (path frame) junk out ltac:(lia) Hj ltac:(lia) (Z.of_nat st)) as [Lr Hr];
    [by apply block_placed|apply (block_right frame type4 st 1); intros; apply Hq; lia|lia|done|by apply (frame_back frame out)].
Qed.
End Signalling.

(** The bits of a block: the message, its check sequence, the tail. *)
Definition signalling_frame (msg : list Z) : list Z := msg ++ check_bits msg ++ replicate 4 0.

Lemma check_bits_spec msg : length (check_bits msg) = 16%nat /\ bits (check_bits msg).
Proof.
  unfold check_bits. destruct (crc_bits_spec 16 (tetra_crc16_ccitt_bits msg (Z.of_nat (length msg)))) as (L & B & _).
  split; [by rewrite length_map|]. apply Forall_fmap. eapply Forall_impl; [exact B|]. intros b [-> | ->]; [by right|by left].
Qed.

Lemma signalling_frame_spec msg : bits msg -> bits (signalling_frame msg) /\ length (signalling_frame msg) = (length msg + 20)%nat /\
  (forall t, (length msg + 16 <= t)%nat -> (signalling_frame msg).[t] = 0) /\ take (length msg) (signalling_frame msg) = msg.
Proof.
  intros Hb. destruct (check_bits_spec msg) as [L B]. unfold signalling_frame. split; [|split; [|split]].
  - apply Forall_app. split; [done|]. apply Forall_app. split; [done|]. apply Forall_replicate. by left.
  - rewrite !length_app, L. done.
  - intros t Ht. rewrite app_nth2, app_nth2 by lia. apply nth_replicate.
  - rewrite take_app_le by lia. by apply take_ge.
Qed.

Lemma viterbi_block junk costs t2 out : (0 < t2 <= 512)%nat ->
  tetra_viterbi_decode_soft junk (Some costs) (Z.of_nat (t2 * 4)) (Some out) (Z.of_nat t2) =
  (Some (conv_viterbi k_signalling_code junk costs t2 out), Z.of_nat t2).
Proof.
  intros Ht. unfold tetra_viterbi_decode_soft. rewrite (proj2 (Z.leb_gt _ 0)) by lia.
  change 3 with (Z.ones 2). rewrite Z.land_ones by lia. change (2 ^ 2) with 4.
  replace (Z.of_nat (t2 * 4)) with (Z.of_nat t2 * 4) by lia. rewrite Z.mod_mul, Z.quot_mul by lia. cbn [orb negb Z.eqb].
  change (Z.of_nat TETRA_VITERBI_MAX_BITS) with 512. rewrite !(proj2 (Z.ltb_ge _ _)) by lia. cbn [orb]. by rewrite Nat2Z.id.
Qed.

(** A block as the decoders take it apart. *)
Lemma block_recovered K t2 a junk msg type4 out : (4 <= t2 <= 512)%nat -> length msg = (t2 - 20)%nat -> (20 < t2)%nat -> bits msg ->
  conv_viterbi k_signalling_code junk (signalling_costs K t2 a type4) t2 out = signalling_frame msg ->
  tetra_viterbi_decode_soft junk (Some (signalling_costs K t2 a type4)) (Z.of_nat (t2 * 4)) (Some out) (Z.of_nat t2) =
    (Some (signalling_frame msg), Z.of_nat t2) /\
  tetra_crc16_ccitt_bits (signalling_frame msg) (Z.of_nat (t2 - 4)) = TETRA_CRC16_OK.
Proof.
  intros Ht Hl H20 Hb E. split; [rewrite viterbi_block, E by lia; done|]. replace (t2 - 4)%nat with (length msg + 16)%nat by lia.
  apply check_residue; [done|lia].
Qed.

Lemma block_burst K t2 a (B : nat) junk msg type4 out st : block_sizes K t2 a -> bursts_ok K t2 a B = true -> (20 < t2)%nat ->
  bits msg -> length msg = (t2 - 20)%nat -> Forall is_cost type4 -> (st + B <= K)%nat -> length out = t2 ->
  (TETRA_VITERBI_MAX_BITS * TETRA_VITERBI_STATES <= length junk)%nat ->
  (forall q, (q < K)%nat -> ~ (st <= q < st + B)%nat -> type4.[q] = 65535 * (signalling_transmit K t2 a (signalling_frame msg)).[q]) ->
  tetra_viterbi_decode_soft junk (Some (signalling_costs K t2 a type4)) (Z.of_nat (t2 * 4)) (Some out) (Z.of_nat t2) =
    (Some (signalling_frame msg), Z.of_nat t2) /\
  tetra_crc16_ccitt_bits (signalling_frame msg) (Z.of_nat (t2 - 4)) = TETRA_CRC16_OK.
Proof.
  intros [S1 S2 S3 S4 S5 S6] HB H20 Hb Hl Hc Hst Ho Hj Hq. destruct (signalling_frame_spec msg Hb) as (Fb & Fl & F0 & _).
  apply block_recovered; [lia|done|done|done|]. unfold TETRA_VITERBI_MAX_BITS, TETRA_VITERBI_STATES in Hj.
  apply (signalling_burst K t2 a S1 S2 S3 S4 S5 S6 junk (signalling_frame msg) type4 out B st); [done|done|lia| |done|lia|done|done|done].
  intros t Ht. apply F0. lia.
Qed.

Lemma block_one K t2 a junk msg type4 out st : block_sizes K t2 a -> one_ok K t2 a = true -> (20 < t2)%nat ->
  bits msg -> length msg = (t2 - 20)%nat -> Forall is_cost type4 -> length out = t2 ->
  (TETRA_VITERBI_MAX_BITS * TETRA_VITERBI_STATES <= length junk)%nat ->
  (forall q, (q < K)%nat -> q <> st -> type4.[q] = 65535 * (signalling_transmit K t2 a (signalling_frame msg)).[q]) ->
  tetra_viterbi_decode_soft junk (Some (signalling_costs K t2 a type4)) (Z.of_nat (t2 * 4)) (Some out) (Z.of_nat t2) =
    (Some (signalling_frame msg), Z.of_nat t2) /\
  tetra_crc16_ccitt_bits (signalling_frame msg) (Z.of_nat (t2 - 4)) = TETRA_CRC16_OK.
Proof.
  intros [S1 S2 S3 S4 S5 S6] HB H20 Hb Hl Hc Ho Hj Hq. destruct (signalling_frame_spec msg Hb) as (Fb & Fl & F0 & _).
  apply block_recovered; [lia|done|done|done|]. unfold TETRA_VITERBI_MAX_BITS, TETRA_VITERBI_STATES in Hj.
  apply (signalling_one K t2 a S1 S2 S3 S4 S5 S6 junk (signalling_frame msg) type4 out st); [done|done|lia| |done|lia|done|done].
  intros t Ht. apply F0. lia.
Qed.

Lemma depuncture_block K t2 a type4 :
  tetra_rcpc_depuncture_by_id TETRA_RCPC_PUNCT_2_3 (tetra_block_deinterleave_soft type4 (replicate K 0) (Z.of_nat K) a) (Z.of_nat K)
    (replicate (t2 * 4) 0) (Z.of_nat (t2 * 4)) = (signalling_costs K t2 a type4, Z.of_nat (t2 * 4)).
Proof.
  unfold signalling_costs, tetra_rcpc_depuncture_by_id. change (tetra_puncturer_of TETRA_RCPC_PUNCT_2_3) with (Some p_2_3). cbv iota beta.
  by rewrite !(proj2 (Z.ltb_ge _ 0)) by lia.
Qed.

(** *** The four kinds of block *)

Lemma sch_hu_sizes : block_sizes 168 112 13.
Proof. split; [lia|lia|lia|reflexivity|lia|vm_compute; reflexivity]. Qed.

Lemma sch_hd_sizes : block_sizes 216 144 101.
Proof. split; [lia|lia|lia|reflexivity|lia|vm_compute; reflexivity]. Qed.

Lemma sch_f_sizes : block_sizes 432 288 103.
Proof. split; [lia|lia|lia|reflexivity|lia|vm_compute; reflexivity]. Qed.

Lemma bsch_sizes : block_sizes 120 80 11.
Proof. split; [lia|lia|lia|reflexivity|lia|vm_compute; reflexivity]. Qed.

Lemma sch_hu_bursts : bursts_ok 168 112 13 13 = true.
Proof. vm_compute. reflexivity. Qed.

Lemma sch_hd_bursts : bursts_ok 216 144 101 14 = true.
Proof. vm_compute. reflexivity. Qed.

Lemma sch_f_one : one_ok 432 288 103 = true.
Proof. vm_compute. reflexivity. Qed.

Lemma bsch_bursts : bursts_ok 120 80 11 10 = true.
Proof. vm_compute. reflexivity. Qed.

(** C27: SCH/HU decoding recovers a message of 92 bits from its coded block when
    the costs are right and sure outside a window of thirteen consecutive
    received bits, whatever the costs in the window say: the message is written
    out and the decoder reports success. *)
Theorem sch_hu_corrects_bursts junk msg type4 out_bits st :
  bits msg -> length msg = 92%nat -> Forall is_cost type4 -> (st + 13 <= 168)%nat ->
  (TETRA_VITERBI_MAX_BITS * TETRA_VITERBI_STATES <= length junk)%nat ->
  (forall q, (q < 168)%nat -> ~ (st <= q < st + 13)%nat -> type4.[q] = 65535 * (signalling_transmit 168 112 13 (signalling_frame msg)).[q]) ->
  tetra_sch_hu_decode junk type4 out_bits = (blit out_bits 0 msg, 1).
Proof.
  intros Hb Hl Hc Hst Hj Hq. destruct (signalling_frame_spec msg Hb) as (_ & _ & _ & Ft). rewrite Hl in Ft.
  destruct (block_burst 168 112 13 13 junk msg type4 (replicate 112 0) st sch_hu_sizes sch_hu_bursts ltac:(lia) Hb Hl Hc Hst
    (length_replicate 112 0) Hj Hq) as [Ev Ec].
  change (Z.of_nat (112 * 4)) with 448 in Ev. change (Z.of_nat 112) with 112 in Ev. change (Z.of_nat (112 - 4)) with 108 in Ec.
  unfold tetra_sch_hu_decode. cbv zeta.
  pose proof (depuncture_block 168 112 13 type4) as ED. change (Z.of_nat (112 * 4)) with 448 in ED. change (Z.of_nat 168) with 168 in ED.
  change (112 * 4)%nat with 448%nat in ED. rewrite ED. cbv iota beta. change (448 <? 0) with false. cbv iota. rewrite Ev. cbv iota beta. change (default [] (Some (signalling_frame msg))) with (signalling_frame msg). rewrite Ec, Ft. reflexivity.
Qed.

(** ** Scrambling *)

Definition scrambler (seed : Z) (n : nat) : Z :=
  Nat.iter n (fun s => fst (tetra_lfsr32_next s)) (if seed =? 0 then 3 else seed).

Definition scrambled (seed : Z) (q : nat) (c : Z) : Z :=
  if negb (snd (tetra_lfsr32_next (scrambler seed q)) =? 0) && negb (c =? TETRA_SOFT_NEUTRAL) then 65535 - c else c.

Lemma descramble_spec costs n seed : (n <= length costs)%nat -> Forall is_cost costs ->
  let r := tetra_descramble_soft costs (Z.of_nat n) seed in
  length r = length costs /\ forall q, r.[q] = if decide (q < n)%nat then scrambled seed q (costs.[q]) else costs.[q].
Proof.
  intros Hn Hc. unfold tetra_descramble_soft. rewrite Nat2Z.id.
  enough (H : forall k, (k <= n)%nat -> let p := for_ 0 k (fun i '(state, costs) =>
      let '(state, bit) := tetra_lfsr32_next state in
      (state, if negb (bit =? 0) && negb (costs.[i] =? TETRA_SOFT_NEUTRAL) then costs.[i <- u16 (Z.lxor 0xFFFF (costs.[i]))] else costs))
      (if seed =? 0 then 3 else seed, costs) in
    fst p = scrambler seed k /\ length (snd p) = length costs /\
    forall q, (snd p).[q] = if decide (q < k)%nat then scrambled seed q (costs.[q]) else costs.[q]) by (destruct (H n (le_n n)) as (_ & H2 & H3); done).
  intros k Hk. induction k as [|k IH]; [done|]. rewrite for_S by lia. destruct IH as (H1 & H2 & H3); [lia|].
  destruct (for_ 0 k _ _) as [st c]. cbn [fst snd] in *. subst st.
  assert (Es : scrambler seed (S k) = fst (tetra_lfsr32_next (scrambler seed k))) by done. rewrite Es.
  assert (Eb : forall x, scrambled seed k x = if negb (snd (tetra_lfsr32_next (scrambler seed k)) =? 0) && negb (x =? TETRA_SOFT_NEUTRAL) then 65535 - x else x) by done.
  destruct (tetra_lfsr32_next (scrambler seed k)) as [st b]. cbn [fst snd] in *. split; [done|].
  assert (Ec : c.[k] = costs.[k]) by (rewrite H3; by destruct (decide (k < k)%nat); [lia|]).
  assert (Ex : u16 (Z.lxor 0xFFFF (costs.[k])) = 65535 - costs.[k]).
  { pose proof (cost_nth costs k Hc) as Hr. unfold is_cost in Hr. rewrite Z.lxor_comm. unfold u16, wrap.
    replace (65535 - costs.[k]) with ((- (costs.[k]) - 1) mod 2 ^ 16) by (symmetry; apply (Z.mod_unique _ _ (-1)); lia).
    rewrite <- (Z.land_ones (Z.lxor _ _)), <- (Z.land_ones (- _ - 1)) by lia. apply Z.bits_inj'. intros m Hm.
    rewrite !Z.land_spec, Z.lxor_spec. change 65535 with (Z.ones 16).
    change (- costs.[k] - 1) with (Z.pred (- costs.[k])). fold (Z.lnot (costs.[k])). rewrite Z.lnot_spec by done.
    rewrite Z.testbit_ones_nonneg by lia. destruct (m <? 16); [by destruct (Z.testbit _ _)|by rewrite !andb_false_r]. }
  rewrite Ec. split; [by destruct (_ && _); rewrite ?length_insert|]. intros q.
  destruct (decide (q = k)) as [->|Hq].
  - rewrite decide_True, Eb by lia. destruct (_ && _); [|done]. rewrite Ex. apply nth_insert_eq. lia.
  - transitivity (c.[q]); [destruct (_ && _); [by apply nth_insert_ne|done]|]. rewrite H3. repeat destruct (decide _); lia || done.
Qed.

Lemma scrambled_cost seed q c : is_cost c -> is_cost (scrambled seed q c).
Proof. unfold scrambled, is_cost. destruct (_ && _); lia. Qed.

(** A sure bit comes back when it is scrambled twice. *)
Lemma scrambled_twice seed q b : is_bit b -> scrambled seed q (scrambled seed q (65535 * b)) = 65535 * b.
Proof. unfold scrambled, TETRA_SOFT_NEUTRAL. intros [-> | ->]; destruct (negb (snd _ =? 0)); reflexivity. Qed.

(** ** The downlink blocks *)

Lemma transmit_length K t2 a frame : block_sizes K t2 a -> length (signalling_transmit K t2 a frame) = K.
Proof. intros [S1 S2 S3 S4 S5 S6]. by apply transmit_spec. Qed.

(** A decoder gives back any message when the costs are those sent, but for [B]
    consecutive ones. *)
Definition recovers (decode : list Z -> list Z * bool) (send : list Z -> list Z) (K n B : nat) : Prop :=
  forall msg type4 st, bits msg -> length msg = n -> Forall is_cost type4 -> length type4 = K -> (st + B <= K)%nat ->
  (forall q, (q < K)%nat -> ~ (st <= q < st + B)%nat -> type4.[q] = (send msg).[q]) ->
  decode type4 = (signalling_frame msg, true).

Definition sure (tx : list Z) : list Z := map (Z.mul 65535) tx.

Lemma sure_nth tx q : (sure tx).[q] = 65535 * tx.[q].
Proof. unfold sure. change 0 with (65535 * 0) at 1. apply map_nth. Qed.

(** The last steps of each decoder, once the search has found the frame. *)
Lemma block_verdict K t2 a junk type4 out msg :
  tetra_viterbi_decode_soft junk (Some (signalling_costs K t2 a type4)) (Z.of_nat (t2 * 4)) (Some out) (Z.of_nat t2) =
    (Some (signalling_frame msg), Z.of_nat t2) /\
  tetra_crc16_ccitt_bits (signalling_frame msg) (Z.of_nat (t2 - 4)) = TETRA_CRC16_OK ->
  (let '(decoded, r) := tetra_viterbi_decode_soft junk (Some (signalling_costs K t2 a type4)) (Z.of_nat (t2 * 4)) (Some out) (Z.of_nat t2) in
   let decoded := default [] decoded in
   (decoded, (r =? Z.of_nat t2) && (tetra_crc16_ccitt_bits decoded (Z.of_nat (t2 - 4)) =? TETRA_CRC16_OK))) = (signalling_frame msg, true).
Proof.
  intros [E1 E2]. rewrite E1. cbv iota beta zeta. change (default [] (Some (signalling_frame msg))) with (signalling_frame msg).
  by rewrite E2, !Z.eqb_refl.
Qed.

Lemma sch_hd_recovers junk decoded : (TETRA_VITERBI_MAX_BITS * TETRA_VITERBI_STATES <= length junk)%nat -> length decoded = 144%nat ->
  recovers (fun c => tetra_hd_decode_bits junk c decoded) (fun m => sure (signalling_transmit 216 144 101 (signalling_frame m))) 216 124 14.
Proof.
  intros Hj Hd msg type4 st Hb Hl Hc _ Hst Hq.
  assert (Lo : length (blit decoded 0 (replicate 144 0)) = 144%nat) by (rewrite length_blit, Hd; [done|rewrite Hd; len]).
  apply (block_verdict 216 144 101 junk type4 (blit decoded 0 (replicate 144 0)) msg).
  apply (block_burst 216 144 101 14 junk msg type4 _ st sch_hd_sizes sch_hd_bursts ltac:(lia) Hb Hl Hc Hst Lo Hj).
  intros q Hqk Hn. rewrite <- sure_nth. by apply Hq.
Qed.

Lemma sch_f_recovers junk decoded : (TETRA_VITERBI_MAX_BITS * TETRA_VITERBI_STATES <= length junk)%nat -> length decoded = 288%nat ->
  recovers (fun c => tetra_schf_decode_bits junk c decoded) (fun m => sure (signalling_transmit 432 288 103 (signalling_frame m))) 432 268 1.
Proof.
  intros Hj Hd msg type4 st Hb Hl Hc _ Hst Hq.
  assert (Lo : length (blit decoded 0 (replicate 288 0)) = 288%nat) by (rewrite length_blit, Hd; [done|rewrite Hd; len]).
  apply (block_verdict 432 288 103 junk type4 (blit decoded 0 (replicate 288 0)) msg).
  apply (block_one 432 288 103 junk msg type4 _ st sch_f_sizes sch_f_one ltac:(lia) Hb Hl Hc Lo Hj).
  intros q Hqk Hn. rewrite <- sure_nth. apply Hq; [done|lia].
Qed.

Lemma bsch_recovers junk decoded : (TETRA_VITERBI_MAX_BITS * TETRA_VITERBI_STATES <= length junk)%nat -> length decoded = 80%nat ->
  recovers (fun c => tetra_sb_decode_block junk c decoded)
    (fun m => tetra_descramble_soft (sure (signalling_transmit 120 80 11 (signalling_frame m))) 120 TETRA_SB_SCRAMB_SEED) 120 60 10.
Proof.
  intros Hj Hd msg type4 st Hb Hl Hc L4 Hst Hq.
  assert (Lo : length (blit decoded 0 (replicate 80 0)) = 80%nat) by (rewrite length_blit, Hd; [done|rewrite Hd; len]).
  set (tx := signalling_transmit 120 80 11 (signalling_frame msg)) in *.
  assert (Ltx : length tx = 120%nat) by (apply transmit_length, bsch_sizes).
  assert (Btx : bits tx) by (destruct bsch_sizes; by apply transmit_bits).
  destruct (descramble_spec type4 120 TETRA_SB_SCRAMB_SEED ltac:(lia) Hc) as [Lr Hr].
  destruct (descramble_spec (sure tx) 120 TETRA_SB_SCRAMB_SEED) as [_ Hs].
  { unfold sure. rewrite length_map. lia. }
  { apply Forall_fmap. eapply Forall_impl; [exact Btx|]. intros b [-> | ->]; unfold is_cost; cbn; lia. }
  change (Z.of_nat 120) with 120 in Lr, Hr, Hs. set (c := tetra_descramble_soft type4 120 TETRA_SB_SCRAMB_SEED) in *.
  assert (Hcc : Forall is_cost c).
  { apply Forall_forall. intros x Hx. apply list_elem_of_lookup in Hx as [i Hx]. assert (E : x = c.[i]) by (by rewrite nth_lookup, Hx).
    rewrite E, Hr. pose proof (cost_nth type4 i Hc). destruct (decide _); [by apply scrambled_cost|done]. }
  apply (block_verdict 120 80 11 junk c (blit decoded 0 (replicate 80 0)) msg).
  apply (block_burst 120 80 11 10 junk msg c _ st bsch_sizes bsch_bursts ltac:(lia) Hb Hl Hcc Hst Lo Hj).
  intros q Hqk Hn. fold tx. rewrite Hr, decide_True, (Hq q Hqk Hn), Hs, decide_True, sure_nth by done.
  apply scrambled_twice. by apply bits_nth.
Qed.

(** C29: The downlink's block decoders recover what was sent: SCH/HD and STCH
    when all costs but fourteen consecutive ones are right, the BSCH (scrambled
    with the all-zero colour code) when all but ten are, SCH/F when all but one
    are; and each reports that the check passed. *)
Theorem downlink_blocks_recovered junk hd f sb : (TETRA_VITERBI_MAX_BITS * TETRA_VITERBI_STATES <= length junk)%nat ->
  length hd = 144%nat -> length f = 288%nat -> length sb = 80%nat ->
  recovers (fun c => tetra_hd_decode_bits junk c hd) (fun m => sure (signalling_transmit 216 144 101 (signalling_frame m))) 216 124 14 /\
  recovers (fun c => tetra_sb_decode_block junk c sb)
    (fun m => tetra_descramble_soft (sure (signalling_transmit 120 80 11 (signalling_frame m))) 120 TETRA_SB_SCRAMB_SEED) 120 60 10 /\
  recovers (fun c => tetra_schf_decode_bits junk c f) (fun m => sure (signalling_transmit 432 288 103 (signalling_frame m))) 432 268 1.
Proof.
  intros Hj H1 H2 H3. split; [by apply sch_hd_recovers|]. split; [by apply bsch_recovers|by apply sch_f_recovers].
Qed.

(** ** The search is a nearest-codeword search *)

(** What the costs have against the coded bits. *)
Definition distance (costs coded : list Z) (n : nat) : Z := sum_upto n (fun i => bit_cost (costs.[i]) (coded.[i])).

Lemma sum_upto_blocks n k f : sum_upto (n * k) f = sum_upto n (fun i => sum_upto k (fun j => f (i * k + j)%nat)).
Proof.
  induction n as [|n IH]; [done|]. rewrite sum_upto_S, <- IH. replace (S n * k)%nat with (n * k + k)%nat by lia. clear IH.
  enough (H : forall m, sum_upto (n * k + m) f = sum_upto (n * k) f + sum_upto m (fun j => f (n * k + j)%nat)) by apply H.
  induction m as [|m IH]; [rewrite Nat.add_0_r; cbn; lia|]. rewrite Nat.add_succ_r, !sum_upto_S, IH. lia.
Qed.

Lemma encode_distance code costs bits n coded : (0 < lanes code)%nat -> (n * lanes code <= length coded)%nat ->
  distance costs (conv_encode code bits n coded) (n * lanes code) = path_cost code costs (fun t => Z.land (bits.[t]) 1) n.
Proof.
  intros H0 Hl. destruct (conv_encode_spec code bits n coded H0 Hl) as [_ H]. unfold distance. rewrite sum_upto_blocks.
  apply sum_upto_ext. intros pos Hp. apply sum_upto_ext. intros lane Hla. rewrite H.
  assert ((pos * lanes code + lane < n * lanes code)%nat) by nia. rewrite decide_True by done. f_equal. unfold code_bit.
  assert (Eq : ((pos * lanes code + lane) / lanes code = pos)%nat) by (symmetry; apply (Nat.div_unique _ _ pos lane); lia).
  assert (Em : ((pos * lanes code + lane) mod lanes code = lane)%nat) by (rewrite Nat.Div0.mod_eq, Eq; lia). by rewrite Eq, Em.
Qed.

Definition ends_ok (code : tetra_conv_code) : bool :=
  forallb (fun s => forallb (fun b1 => forallb (fun b2 => forallb (fun b3 => forallb (fun b4 =>
    negb (conv_next_state code (conv_next_state code (conv_next_state code (conv_next_state code (Z.of_nat s) b1) b2) b3) b4 =? 0)
    || ((b1 =? 0) && (b2 =? 0) && (b3 =? 0) && (b4 =? 0))) [0; 1]) [0; 1]) [0; 1]) [0; 1]) (seq 0 16).

(** Only four zeros end in state 0. *)
Lemma state_tail code u n : code_ok code = true -> ends_ok code = true -> path_bits u (n + 4) -> state_at code u (n + 4) = 0 ->
  forall t, (n <= t < n + 4)%nat -> u t = 0.
Proof.
  intros Hc He Hb E. pose proof (state_at_range code Hc u n ltac:(intros t Ht; apply Hb; lia)) as Hs.
  assert (HIn : forall i, (n <= i < n + 4)%nat -> In (u i) [0; 1]) by (intros i Hi; destruct (Hb i ltac:(lia)) as [-> | ->]; cbn; auto).
  rewrite Nat.add_comm in E. cbn [Nat.add state_at] in E.
  pose proof (check_nat _ _ He (Z.to_nat (state_at code u n)) ltac:(lia)) as C. cbv beta in C. rewrite Z2Nat.id in C by lia.
  rewrite forallb_forall in C. specialize (C _ (HIn n ltac:(lia))). rewrite forallb_forall in C. specialize (C _ (HIn (S n) ltac:(lia))).
  rewrite forallb_forall in C. specialize (C _ (HIn (S (S n)) ltac:(lia))). rewrite forallb_forall in C. specialize (C _ (HIn (S (S (S n))) ltac:(lia))).
  rewrite E, Z.eqb_refl in C. cbn [negb orb] in C. rewrite !andb_true_iff, !Z.eqb_eq in C. destruct C as (((C1 & C2) & C3) & C4).
  intros t Ht. destruct (decide (t = n)) as [->|]; [done|]. destruct (decide (t = S n)) as [->|]; [done|].
  destruct (decide (t = S (S n))) as [->|]; [done|]. by replace t with (S (S (S n))) by lia.
Qed.

(** C28: The soft Viterbi decoder is a nearest-codeword decoder: whatever the
    buffer of predecessors held, it returns the number of bits decoded and bits
    that end in the encoder's four zeros, and re-encoding no other message that
    ends so comes closer to the costs. *)
Theorem tetra_viterbi_nearest junk costs n out : Forall is_cost costs -> (4 <= n <= TETRA_VITERBI_MAX_BITS)%nat -> (n <= length out)%nat ->
  (TETRA_VITERBI_MAX_BITS * TETRA_VITERBI_STATES <= length junk)%nat ->
  let coded msg := conv_encode k_signalling_code msg n (replicate (n * 4) 0) in
  exists r, tetra_viterbi_decode_soft junk (Some costs) (Z.of_nat (n * 4)) (Some out) (Z.of_nat (length out)) = (Some r, Z.of_nat n) /\
    length r = length out /\ (forall t, (n <= t)%nat -> r.[t] = out.[t]) /\ bits (take n r) /\
    (forall t, (n - 4 <= t < n)%nat -> r.[t] = 0) /\
    forall msg, bits msg -> (forall t, (n - 4 <= t < n)%nat -> msg.[t] = 0) ->
      distance costs (coded r) (n * 4) <= distance costs (coded msg) (n * 4).
Proof.
  intros Hc Hn Hl Hj coded. unfold TETRA_VITERBI_MAX_BITS, TETRA_VITERBI_STATES in *.
  destruct (viterbi_optimal k_signalling_code signalling_ok junk costs n out Hc ltac:(lia) ltac:(lia) Hl) as (L & Hrest & Hu & Eu & Hopt).
  set (r := conv_viterbi k_signalling_code junk costs n out) in *. exists r.
  assert (Hr : forall t, (t < n)%nat -> Z.land (r.[t]) 1 = r.[t]) by (intros t Ht; apply land1_id; by apply Hu).
  assert (HD : forall msg, distance costs (coded msg) (n * 4) = path_cost k_signalling_code costs (fun t => Z.land (msg.[t]) 1) n)
    by (intros msg; apply (encode_distance k_signalling_code); [cbn; lia|rewrite length_replicate; cbn [lanes k_signalling_code]; lia]).
  split; [|split; [exact L|]; split; [exact Hrest|]; split; [|split]].
  - unfold tetra_viterbi_decode_soft. rewrite (proj2 (Z.leb_gt _ 0)) by lia.
    change 3 with (Z.ones 2). rewrite Z.land_ones by lia. change (2 ^ 2) with 4.
    replace (Z.of_nat (n * 4)) with (Z.of_nat n * 4) by lia. rewrite Z.mod_mul, Z.quot_mul by lia. cbn [orb negb Z.eqb].
    change (Z.of_nat TETRA_VITERBI_MAX_BITS) with 512. rewrite !(proj2 (Z.ltb_ge _ _)) by lia. cbn [orb]. by rewrite Nat2Z.id.
  - apply Forall_lookup. intros i x Hx. apply lookup_take_Some in Hx as [Hx Hi]. specialize (Hu i Hi). cbv beta in Hu. by rewrite nth_lookup, Hx in Hu.
  - intros t Ht. apply (state_tail k_signalling_code (fun t => r.[t]) (n - 4) signalling_ok); [by vm_compute| | |lia];
      (replace (n - 4 + 4)%nat with n by lia; done).
  - intros msg Hm Ht. rewrite !HD. rewrite (conv_path_cost_ext k_signalling_code costs _ (fun t => r.[t]) n Hr).
    apply Hopt; [intros t _; apply land1_bit|]. replace n with (n - 4 + 4)%nat by lia.
    apply tail_state; [apply signalling_ok|by vm_compute|intros t _; apply land1_bit|]. intros t Hlt. rewrite Ht by lia. done.
Qed.

Lemma tetra_viterbi_nearest_witness : exists r, tetra_viterbi_decode_soft (replicate 8192 3) (Some (replicate 32 40000)) 32 (Some (replicate 8 0)) 8 = (Some r, 8).
Proof.
  assert (Hc : Forall is_cost (replicate 32 40000)) by (apply Forall_replicate; unfold is_cost; lia).
  assert (Hn : (4 <= 8 <= TETRA_VITERBI_MAX_BITS)%nat) by (unfold TETRA_VITERBI_MAX_BITS; lia).
  assert (Ho : (8 <= length (replicate 8 0))%nat) by (cbn; lia).
  assert (Hj : (TETRA_VITERBI_MAX_BITS * TETRA_VITERBI_STATES <= length (replicate 8192 3))%nat) by (by rewrite length_replicate).
  destruct (tetra_viterbi_nearest (replicate 8192 3) (replicate 32 40000) 8 (replicate 8 0) Hc Hn Ho Hj) as (r & E & _). by exists r.
Defined.

(** A message and what is received of it with a burst of wrong bits. *)
Definition sample_message (n : nat) : list Z := map (fun i => Z.of_nat ((i * i + i / 3) mod 2)) (seq 0 n).
Definition sample_received (sent : list Z) (st B : nat) : list Z :=
  map (fun i => if (st <=? i)%nat && (i <? st + B)%nat then 65535 - sent.[i] else sent.[i]) (seq 0 (length sent)).

Lemma sample_received_spec sent st B q : (q < length sent)%nat -> ~ (st <= q < st + B)%nat -> (sample_received sent st B).[q] = sent.[q].
Proof.
  intros Hq Hn. unfold sample_received. rewrite nth_map_seq by done. cbn [Nat.add].
  destruct (Nat.leb_spec st q), (Nat.ltb_spec q (st + B)); done || lia.
Qed.

Lemma sample_received_cost sent st B : Forall is_cost sent -> Forall is_cost (sample_received sent st B).
Proof.
  intros Hs. apply Forall_fmap, Forall_forall. intros i _. pose proof (cost_nth sent i Hs) as H. unfold is_cost in H.
  unfold compose, is_cost. case_match; lia.
Qed.

Lemma sure_cost l : bits l -> Forall is_cost (sure l).
Proof. intros Hb. apply Forall_fmap. eapply Forall_impl; [exact Hb|]. intros b [-> | ->]; unfold is_cost; cbn; lia. Qed.

Lemma sch_hu_corrects_bursts_witness :
  let sent := sure (signalling_transmit 168 112 13 (signalling_frame (sample_message 92))) in
  tetra_sch_hu_decode (replicate 8192 3) (sample_received sent 50 13) (replicate 92 7) = (blit (replicate 92 7) 0 (sample_message 92), 1).
Proof.
  intros sent. assert (L : length sent = 168%nat) by (unfold sent, sure; rewrite length_map; apply transmit_length, sch_hu_sizes).
  apply (sch_hu_corrects_bursts (replicate 8192 3) (sample_message 92) (sample_received sent 50 13) (replicate 92 7) 50).
  - by_decide.
  - reflexivity.
  - apply sample_received_cost, sure_cost. destruct sch_hu_sizes. by apply transmit_bits.
  - lia.
  - by rewrite length_replicate.
  - intros q Hq Hn. rewrite sample_received_spec by (done || lia). apply sure_nth.
Defined.

Lemma downlink_blocks_recovered_witness :
  let sent := sure (signalling_transmit 216 144 101 (signalling_frame (sample_message 124))) in
  tetra_hd_decode_bits (replicate 8192 3) (sample_received sent 100 14) (replicate 144 9) = (signalling_frame (sample_message 124), true).
Proof.
  intros sent. assert (L : length sent = 216%nat) by (unfold sent, sure; rewrite length_map; apply transmit_length, sch_hd_sizes).
  assert (Hj : (TETRA_VITERBI_MAX_BITS * TETRA_VITERBI_STATES <= length (replicate 8192 3))%nat) by (by rewrite length_replicate).
  refine (proj1 (downlink_blocks_recovered (replicate 8192 3) (replicate 144 9) (replicate 288 9) (replicate 80 9) Hj
    (length_replicate _ _) (length_replicate _ _) (length_replicate _ _)) (sample_message 124) (sample_received sent 100 14) 100%nat _ _ _ _ _ _).
  - by_decide.
  - reflexivity.
  - apply sample_received_cost, sure_cost. destruct sch_hd_sizes. by apply transmit_bits.
  - unfold sample_received. by rewrite length_map, length_seq.
  - lia.
  - intros q Hq Hn. rewrite sample_received_spec by (done || lia). reflexivity.
Defined.
