(* ===== verification/TetraRm.v ===== *)
(** * [protocol/tetra/tetra_fec.c]: the shortened (30,14) Reed-Muller code

    The code of the access assignment channel: the encoder, the search for an
    error of at most three bits, the decoder; and [tetra_ndb_aach] of
    [protocol/tetra/tetra.c] from the costs of the 30 bits on.  Words are read
    as numbers, the last bit sent in bit 0. *)
From Stdlib Require Import ZifyNat.
From S2P Require Import Prelude Convolution TetraFec TetraChannels.

Definition RM3014_BITS : nat := 30.
Definition RM3014_INFO_BITS : nat := 14.

Definition k_rm3014_parity : list Z := [
  0x9B60; 0x2DE0; 0xFC20; 0xE03C; 0x983A; 0x5436; 0x2C2E; 0xFFDF; 0x8339; 0x42B5; 0x21AD; 0x1273; 0x096B; 0x04E7].

Definition rm3014_parity (info : Z) : Z :=
  for_ 0 RM3014_INFO_BITS (fun i parity =>
    if negb (Z.land (Z.shiftr info (Z.of_nat (RM3014_INFO_BITS - 1 - i))) 1 =? 0) then Z.lxor parity (k_rm3014_parity.[i]) else parity) 0.

Definition rm3014_bit_syndrome (k : nat) : Z :=
  if (16 <=? k)%nat then k_rm3014_parity.[(RM3014_BITS - 1 - k)%nat] else u16 (Z.shiftl 1 (Z.of_nat k)).

Definition tetra_rm3014_encode (info : Z) : Z :=
  let info := Z.land info (Z.shiftl 1 (Z.of_nat RM3014_INFO_BITS) - 1) in
  Z.lor (u32 (Z.shiftl info 16)) (rm3014_parity info).

(** A loop that returns from its body. *)
Definition search {A} (lo hi : nat) (f : nat -> option A) : option A :=
  for_ lo hi (fun i found => match found with Some _ => found | None => f i end) None.

(** The error and its weight. *)
Definition rm3014_error_for (s : Z) : option (Z * Z) :=
  search 0 RM3014_BITS (fun a =>
    let sa := rm3014_bit_syndrome a in
    if sa =? s then Some (Z.shiftl 1 (Z.of_nat a), 1)
    else search (a + 1) RM3014_BITS (fun b =>
      let sab := Z.lxor sa (rm3014_bit_syndrome b) in
      if sab =? s then Some (Z.lor (Z.shiftl 1 (Z.of_nat a)) (Z.shiftl 1 (Z.of_nat b)), 2)
      else search (b + 1) RM3014_BITS (fun c =>
        if Z.lxor sab (rm3014_bit_syndrome c) =? s
        then Some (Z.lor (Z.lor (Z.shiftl 1 (Z.of_nat a)) (Z.shiftl 1 (Z.of_nat b))) (Z.shiftl 1 (Z.of_nat c)), 3)
        else None))).

(** What [info] points to afterwards, and the number of bits corrected. *)
Definition tetra_rm3014_decode (received : Z) (info : option Z) : option Z * Z :=
  if negb (Z.shiftr received (Z.of_nat RM3014_BITS) =? 0) then (info, -1)
  else
    let s := u16 (Z.lxor (rm3014_parity (u16 (Z.shiftr received 16))) (Z.land received 0xFFFF)) in
    match (if s =? 0 then Some (0, 0) else rm3014_error_for s) with
    | None => (info, -1)
    | Some (error, corrected) =>
        (match info with Some _ => Some (u16 (Z.shiftr (Z.lxor received error) 16)) | None => None end, corrected)
    end.

(** The carrier's phase and polarity, half 1 when the frame sync captured it, half 2. *)
Definition tetra_ndb_aach (phase_rot : Z) (inverted : bool) (half1 : option (list Z)) (half2 : list Z) (seed pdu : Z) : Z * bool :=
  match half1 with
  | None => (pdu, false)
  | Some half1 =>
      let costs := tetra_expand_dibits_as phase_rot inverted half1 None 7 (replicate 14 0)
                   ++ tetra_expand_dibits_as phase_rot inverted half2 None 8 (replicate 16 0) in
      let costs := tetra_descramble_soft costs 30 seed in
      let word := for_ 0 30 (fun i word => Z.lor (u32 (Z.shiftl word 1)) (if TETRA_SOFT_NEUTRAL <? costs.[i] then 1 else 0)) 0 in
      let '(pdu, r) := tetra_rm3014_decode word (Some pdu) in
      (default 0 pdu, 0 <=? r)
  end.

(** ** The code is linear *)

Definition row_sum (f : nat -> bool) (n : nat) : Z := for_ 0 n (fun i p => if f i then Z.lxor p (k_rm3014_parity.[i]) else p) 0.

Lemma row_sum_lxor f g n : row_sum (fun i => xorb (f i) (g i)) n = Z.lxor (row_sum f n) (row_sum g n).
Proof.
  unfold row_sum. induction n as [|n IH]; [done|]. rewrite !for_S, IH by lia. destruct (f n), (g n); cbn [xorb]; xor_solve.
Qed.

Lemma parity_rows info : rm3014_parity info = row_sum (fun i => Z.testbit info (Z.of_nat (13 - i))) 14.
Proof.
  unfold rm3014_parity, row_sum. apply for_ext. intros i p _. rewrite shiftr_land1 by lia.
  change (RM3014_INFO_BITS - 1 - i)%nat with (13 - i)%nat. by destruct (Z.testbit _ _).
Qed.

Lemma parity_lxor a b : rm3014_parity (Z.lxor a b) = Z.lxor (rm3014_parity a) (rm3014_parity b).
Proof.
  rewrite !parity_rows, <- row_sum_lxor. unfold row_sum. apply for_ext. intros i p _. by rewrite Z.lxor_spec.
Qed.

Lemma parity_range info : 0 <= rm3014_parity info < 2 ^ 16.
Proof.
  unfold rm3014_parity. apply (for_inv (fun p => 0 <= p < 2 ^ 16)); [lia|]. intros i p Hi Hp. destruct (negb _); [|done].
  apply lxor_range; [lia|done|].
  assert (H : forallb (fun i => (0 <=? k_rm3014_parity.[i]) && (k_rm3014_parity.[i] <? 2 ^ 16)) (seq 0 14) = true) by (vm_compute; reflexivity).
  pose proof (check_nat _ _ H i ltac:(unfold RM3014_INFO_BITS in Hi; lia)) as C. apply andb_true_iff in C. lia.
Qed.

(** The syndrome of a word of 30 bits. *)
Definition rm_syndrome (r : Z) : Z := Z.lxor (rm3014_parity (Z.shiftr r 16)) (Z.land r 0xFFFF).

Lemma rm_syndrome_lxor a b : rm_syndrome (Z.lxor a b) = Z.lxor (rm_syndrome a) (rm_syndrome b).
Proof.
  unfold rm_syndrome. rewrite Z.shiftr_lxor, parity_lxor. change 0xFFFF with (Z.ones 16). rewrite !Z.land_ones by lia.
  fold (wrap 16 (Z.lxor a b)). rewrite wrap_lxor by lia. unfold wrap. xor_solve.
Qed.

Lemma rm_syndrome_range r : 0 <= rm_syndrome r < 2 ^ 16.
Proof.
  unfold rm_syndrome. apply lxor_range; [lia|apply parity_range|]. change 0xFFFF with (Z.ones 16). rewrite Z.land_ones by lia.
  apply Z.mod_pos_bound. lia.
Qed.

Lemma rm_encode_word info : 0 <= info < 2 ^ 14 -> tetra_rm3014_encode info = info * 2 ^ 16 + rm3014_parity info.
Proof.
  intros Hi. unfold tetra_rm3014_encode. change (Z.shiftl 1 (Z.of_nat RM3014_INFO_BITS) - 1) with (Z.ones 14).
  rewrite Z.land_ones, Z.mod_small by lia. rewrite u32_small by (rewrite Z.shiftl_mul_pow2 by lia; lia).
  apply lor_shiftl; [lia|apply parity_range].
Qed.

Lemma rm_encode_parts info : 0 <= info < 2 ^ 14 ->
  0 <= tetra_rm3014_encode info < 2 ^ 30 /\ Z.shiftr (tetra_rm3014_encode info) 16 = info /\ rm_syndrome (tetra_rm3014_encode info) = 0.
Proof.
  intros Hi. pose proof (parity_range info) as Hp. assert (Es : Z.shiftr (tetra_rm3014_encode info) 16 = info).
  { rewrite rm_encode_word, Z.shiftr_div_pow2 by lia. rewrite Z.div_add_l by lia. rewrite (Z.div_small (rm3014_parity info)) by lia. lia. }
  split; [rewrite rm_encode_word by lia; lia|]. split; [done|]. unfold rm_syndrome. rewrite Es. change 0xFFFF with (Z.ones 16).
  rewrite Z.land_ones, rm_encode_word, Z.add_comm, Z.mod_add, (Z.mod_small (rm3014_parity info)) by lia. apply Z.lxor_nilpotent.
Qed.

(** A word without a syndrome is the codeword of its first 14 bits. *)
Lemma rm_zero_syndrome r : 0 <= r < 2 ^ 30 -> rm_syndrome r = 0 -> r = tetra_rm3014_encode (Z.shiftr r 16) /\ 0 <= Z.shiftr r 16 < 2 ^ 14.
Proof.
  intros Hr H. unfold rm_syndrome in H. apply Z.lxor_eq in H. change 0xFFFF with (Z.ones 16) in H. rewrite Z.land_ones in H by lia.
  rewrite Z.shiftr_div_pow2 in * by lia. assert (Hq : 0 <= r / 2 ^ 16 < 2 ^ 14) by (split; [apply Z.div_pos; lia|apply Z.div_lt_upper_bound; lia]).
  split; [|done]. rewrite rm_encode_word, H by done. pose proof (Z.div_mod r (2 ^ 16)). lia.
Qed.

(** ** Weights *)

Definition popcount (r : Z) : Z := sum_upto 30 (fun k => Z.b2z (Z.testbit r (Z.of_nat k))).

Lemma popcount_lxor a b : popcount (Z.lxor a b) <= popcount a + popcount b.
Proof.
  unfold popcount. rewrite <- sum_upto_add. generalize 30%nat. induction n as [|n IH]; [cbn; lia|]. rewrite !sum_upto_S, Z.lxor_spec.
  destruct (Z.testbit a (Z.of_nat n)), (Z.testbit b (Z.of_nat n)); cbn [xorb Z.b2z]; lia.
Qed.

Definition heavy (info : Z) : bool := 7 <=? popcount (tetra_rm3014_encode info).

Fixpoint all_heavy (n : nat) (info : Z) : bool :=
  match n with O => (info =? 0) || heavy info | S n => all_heavy n (2 * info) && all_heavy n (2 * info + 1) end.

Lemma all_heavy_spec n info : all_heavy n info = true -> forall x, info * 2 ^ Z.of_nat n <= x < (info + 1) * 2 ^ Z.of_nat n -> x = 0 \/ heavy x = true.
Proof.
  revert info. induction n as [|n IH]; intros info H x Hx.
  - change (2 ^ Z.of_nat 0) with 1 in Hx. replace x with info by lia. cbn [all_heavy] in H. apply orb_true_iff in H as [H|H]; [left; lia|by right].
  - cbn [all_heavy] in H. apply andb_true_iff in H as [H1 H2]. rewrite Nat2Z.inj_succ, Z.pow_succ_r in Hx by lia.
    destruct (Z_lt_ge_dec x ((2 * info + 1) * 2 ^ Z.of_nat n)); [apply (IH _ H1)|apply (IH _ H2)]; lia.
Qed.

Lemma rm_heavy : all_heavy 14 0 = true.
Proof. vm_compute. reflexivity. Qed.

Lemma heavy_le x : heavy x = true -> 7 <= popcount (tetra_rm3014_encode x).
Proof. apply Z.leb_le. Qed.

(** Every codeword but zero has at least seven ones. *)
Lemma rm_distance info : 0 <= info < 16384 -> info = 0 \/ 7 <= popcount (tetra_rm3014_encode info).
Proof.
  intros Hi. assert (Hr : 0 * 2 ^ Z.of_nat 14 <= info < (0 + 1) * 2 ^ Z.of_nat 14) by exact Hi.
  destruct (all_heavy_spec 14 0 rm_heavy info Hr) as [H|H]; [by left|right; by apply heavy_le].
Qed.

(** ** Errors *)

(** The word with ones at the places of [l]. *)
Definition error_of (l : list nat) : Z := foldr (fun k e => Z.lxor (Z.shiftl 1 (Z.of_nat k)) e) 0 l.

(** Different places of a word. *)
Definition places (l : list nat) : Prop := NoDup l /\ Forall (fun k => k < 30)%nat l.

Lemma shiftl_one k i : 0 <= i -> Z.testbit (Z.shiftl 1 (Z.of_nat k)) i = (i =? Z.of_nat k).
Proof. intros Hi. rewrite Z.shiftl_mul_pow2, Z.mul_1_l by lia. rewrite Z.pow2_bits_eqb by lia. apply Z.eqb_sym. Qed.

Lemma error_range l : Forall (fun k => k < 30)%nat l -> 0 <= error_of l < 2 ^ 30.
Proof.
  induction 1 as [|k l Hk _ IH]; [cbn; lia|]. change (error_of (k :: l)) with (Z.lxor (Z.shiftl 1 (Z.of_nat k)) (error_of l)).
  apply lxor_range; [lia| |done]. rewrite Z.shiftl_mul_pow2, Z.mul_1_l by lia. split; [lia|]. apply Z.pow_lt_mono_r; lia.
Qed.

Lemma error_bit l k : NoDup l -> Z.testbit (error_of l) (Z.of_nat k) = bool_decide (k ∈ l).
Proof.
  induction l as [|j l IH]; intros Hn; [by rewrite Z.bits_0|]. apply NoDup_cons in Hn as [Hj Hn].
  change (error_of (j :: l)) with (Z.lxor (Z.shiftl 1 (Z.of_nat j)) (error_of l)). rewrite Z.lxor_spec, shiftl_one, IH by (lia || done).
  destruct (Z.eqb_spec (Z.of_nat k) (Z.of_nat j)) as [E|E].
  - apply Nat2Z.inj in E as ->. rewrite bool_decide_false, bool_decide_true by (done || apply list_elem_of_here). done.
  - cbn [xorb]. apply bool_decide_ext. rewrite elem_of_cons. split; [auto|]. intros [->|]; done.
Qed.

Lemma error_weight l : places l -> popcount (error_of l) = Z.of_nat (length l).
Proof.
  intros [Hn Hr]. unfold popcount. induction l as [|j l IH]; [reflexivity|]. apply NoDup_cons in Hn as [Hj Hn]. apply Forall_cons in Hr as [Hjr Hr].
  cbn [length]. rewrite Nat2Z.inj_succ, <- IH by done. clear IH.
  enough (H : forall n, sum_upto n (fun k => Z.b2z (Z.testbit (error_of (j :: l)) (Z.of_nat k)))
    = sum_upto n (fun k => Z.b2z (Z.testbit (error_of l) (Z.of_nat k))) + (if decide (j < n)%nat then 1 else 0)).
  { rewrite H, decide_True by done. lia. }
  induction n as [|n IH]; [by destruct (decide _); [lia|]|]. rewrite !sum_upto_S, IH.
  change (error_of (j :: l)) with (Z.lxor (Z.shiftl 1 (Z.of_nat j)) (error_of l)). rewrite Z.lxor_spec, shiftl_one, (error_bit l n) by (lia || done).
  destruct (Z.eqb_spec (Z.of_nat n) (Z.of_nat j)) as [E|E].
  - apply Nat2Z.inj in E as ->. rewrite bool_decide_false by done. cbn [xorb Z.b2z]. repeat destruct (decide _); lia.
  - cbn [xorb]. repeat destruct (decide _); lia.
Qed.

Lemma bit_syndromes : forallb (fun k => rm_syndrome (Z.shiftl 1 (Z.of_nat k)) =? rm3014_bit_syndrome k) (seq 0 30) = true.
Proof. vm_compute. reflexivity. Qed.

Lemma error_syndrome l : Forall (fun k => k < 30)%nat l -> rm_syndrome (error_of l) = foldr (fun k s => Z.lxor (rm3014_bit_syndrome k) s) 0 l.
Proof.
  induction 1 as [|k l Hk _ IH]; [reflexivity|]. change (error_of (k :: l)) with (Z.lxor (Z.shiftl 1 (Z.of_nat k)) (error_of l)).
  rewrite rm_syndrome_lxor, IH. pose proof (check_nat _ _ bit_syndromes k Hk) as C. apply Z.eqb_eq in C. by rewrite C.
Qed.

(** Two errors of three bits at most with one syndrome are the same word. *)
Lemma error_unique l l' : places l -> places l' -> (length l <= 3)%nat -> (length l' <= 3)%nat ->
  rm_syndrome (error_of l) = rm_syndrome (error_of l') -> error_of l = error_of l'.
Proof.
  intros Hl Hl' H3 H3' E. apply Z.lxor_eq. set (x := Z.lxor (error_of l) (error_of l')).
  assert (Hx : 0 <= x < 2 ^ 30) by (apply lxor_range; [lia|apply error_range, Hl|apply error_range, Hl']).
  assert (Hs : rm_syndrome x = 0) by (unfold x; by rewrite rm_syndrome_lxor, E, Z.lxor_nilpotent).
  destruct (rm_zero_syndrome x Hx Hs) as [Ex Hr]. pose proof (popcount_lxor (error_of l) (error_of l')) as Hp. fold x in Hp.
  rewrite !error_weight in Hp by done. destruct (rm_distance (Z.shiftr x 16) Hr) as [E0|Hh]; [|rewrite <- Ex in Hh; lia].
  rewrite E0 in Ex. rewrite Ex. reflexivity.
Qed.

(** ** The search *)

Lemma search_some {A} lo hi (f : nat -> option A) x : search lo hi f = Some x -> exists i, (lo <= i < hi)%nat /\ f i = Some x.
Proof.
  unfold search. destruct (decide (lo <= hi)%nat) as [H|H]; [|by rewrite for_nil by lia].
  induction hi as [|hi IH]; [by rewrite for_nil by lia|]. destruct (decide (lo <= hi)%nat) as [H'|H']; [|by rewrite for_nil by lia].
  rewrite for_S by lia. destruct (for_ lo hi _ _) as [y|].
  - intros Ex. destruct (IH H' Ex) as (i & Hi & E). exists i. split; [lia|done].
  - intros Ex. exists hi. split; [lia|done].
Qed.

Lemma search_hit {A} lo hi (f : nat -> option A) i : (lo <= i < hi)%nat -> f i <> None -> search lo hi f <> None.
Proof.
  intros Hi Hf. unfold search. rewrite (for_app lo (S i) hi) by lia.
  apply (for_inv (fun found => found <> None)).
  - rewrite for_S by lia. by destruct (for_ lo i _ _).
  - intros j found _ Hne. by destruct found.
Qed.

Lemma places_two a b : (a < b < 30)%nat -> places [a; b].
Proof.
  intros H. split; [|rewrite !Forall_cons; repeat split; try lia; apply Forall_nil_2].
  rewrite !NoDup_cons, ?elem_of_cons, ?elem_of_nil. repeat split; try apply NoDup_nil_2; intuition lia.
Qed.

Lemma places_three a b c : (a < b)%nat -> (b < c < 30)%nat -> places [a; b; c].
Proof.
  intros H H'. split; [|rewrite !Forall_cons; repeat split; try lia; apply Forall_nil_2].
  rewrite !NoDup_cons, ?elem_of_cons, ?elem_of_nil. repeat split; try apply NoDup_nil_2; intuition lia.
Qed.

Lemma error_two a b : (a < b)%nat -> Z.lor (Z.shiftl 1 (Z.of_nat a)) (Z.shiftl 1 (Z.of_nat b)) = error_of [a; b].
Proof.
  intros Hab. cbn [error_of foldr]. rewrite Z.lxor_0_r. apply Z.bits_inj'. intros i Hi. rewrite Z.lor_spec, Z.lxor_spec, !shiftl_one by done.
  destruct (Z.eqb_spec i (Z.of_nat a)), (Z.eqb_spec i (Z.of_nat b)); done || lia.
Qed.

Lemma error_three a b c : (a < b)%nat -> (b < c)%nat ->
  Z.lor (Z.lor (Z.shiftl 1 (Z.of_nat a)) (Z.shiftl 1 (Z.of_nat b))) (Z.shiftl 1 (Z.of_nat c)) = error_of [a; b; c].
Proof.
  intros Hab Hbc. cbn [error_of foldr]. rewrite Z.lxor_0_r. apply Z.bits_inj'. intros i Hi. rewrite !Z.lor_spec, !Z.lxor_spec, !shiftl_one by done.
  destruct (Z.eqb_spec i (Z.of_nat a)), (Z.eqb_spec i (Z.of_nat b)), (Z.eqb_spec i (Z.of_nat c)); done || lia.
Qed.

Lemma error_one a : Z.shiftl 1 (Z.of_nat a) = error_of [a].
Proof. cbn [error_of foldr]. by rewrite Z.lxor_0_r. Qed.

(** An error with the syndrome. *)
Definition explains (s : Z) (found : Z * Z) : Prop :=
  exists l, places l /\ found = (error_of l, Z.of_nat (length l)) /\ (1 <= length l <= 3)%nat /\ rm_syndrome (error_of l) = s.

Lemma explains_list s l : places l -> (1 <= length l <= 3)%nat -> foldr (fun k s => Z.lxor (rm3014_bit_syndrome k) s) 0 l = s ->
  explains s (error_of l, Z.of_nat (length l)).
Proof. intros Hp Hl E. exists l. by rewrite error_syndrome by apply Hp. Qed.

Lemma error_for_eq s : rm3014_error_for s =
  search 0 30 (fun a => if rm3014_bit_syndrome a =? s then Some (Z.shiftl 1 (Z.of_nat a), 1)
    else search (a + 1) 30 (fun b => if Z.lxor (rm3014_bit_syndrome a) (rm3014_bit_syndrome b) =? s
      then Some (Z.lor (Z.shiftl 1 (Z.of_nat a)) (Z.shiftl 1 (Z.of_nat b)), 2)
      else search (b + 1) 30 (fun c => if Z.lxor (Z.lxor (rm3014_bit_syndrome a) (rm3014_bit_syndrome b)) (rm3014_bit_syndrome c) =? s
        then Some (Z.lor (Z.lor (Z.shiftl 1 (Z.of_nat a)) (Z.shiftl 1 (Z.of_nat b))) (Z.shiftl 1 (Z.of_nat c)), 3) else None))).
Proof. reflexivity. Qed.

(** What the search finds is an error of one to three bits with the syndrome. *)
Lemma error_for_sound s x : rm3014_error_for s = Some x -> explains s x.
Proof.
  rewrite error_for_eq. intros H. apply search_some in H as (a & Ha & H).
  destruct (Z.eqb_spec (rm3014_bit_syndrome a) s) as [Es|_].
  { injection H as <-. rewrite error_one. apply (explains_list s [a]); [|cbn; lia|cbn [foldr]; by rewrite Z.lxor_0_r].
    split; [apply NoDup_singleton|apply Forall_singleton; lia]. }
  apply search_some in H as (b & Hb & H).
  destruct (Z.eqb_spec (Z.lxor (rm3014_bit_syndrome a) (rm3014_bit_syndrome b)) s) as [Es|_].
  { injection H as <-. rewrite error_two by lia.
    apply (explains_list s [a; b]); [apply places_two; lia|cbn; lia|cbn [foldr]; by rewrite Z.lxor_0_r]. }
  apply search_some in H as (c & Hc & H).
  destruct (Z.eqb_spec (Z.lxor (Z.lxor (rm3014_bit_syndrome a) (rm3014_bit_syndrome b)) (rm3014_bit_syndrome c)) s) as [Es|_]; [|done].
  injection H as <-. rewrite error_three by lia.
  apply (explains_list s [a; b; c]); [apply places_three; lia|cbn; lia|cbn [foldr]; by rewrite Z.lxor_0_r, <- Z.lxor_assoc].
Qed.

(** Two or three different places in order, under one exclusive or. *)
Lemma two_sorted (f : nat -> Z) (a b : nat) : a <> b -> (a < 30)%nat -> (b < 30)%nat ->
  exists x y, (x < y < 30)%nat /\ Z.lxor (f a) (Z.lxor (f b) 0) = Z.lxor (f x) (f y).
Proof.
  intros Hne Ha Hb. destruct (decide (a < b)%nat); [exists a, b|exists b, a]; (split; [lia|xor_solve]).
Qed.

Lemma three_sorted (f : nat -> Z) (a b c : nat) : a <> b -> a <> c -> b <> c -> (a < 30)%nat -> (b < 30)%nat -> (c < 30)%nat ->
  exists x y z, (x < y)%nat /\ (y < z < 30)%nat /\ Z.lxor (f a) (Z.lxor (f b) (Z.lxor (f c) 0)) = Z.lxor (Z.lxor (f x) (f y)) (f z).
Proof.
  intros H1 H2 H3 Ha Hb Hc.
  destruct (decide (a < b)%nat), (decide (b < c)%nat), (decide (a < c)%nat); try lia;
    [exists a, b, c|exists a, c, b|exists c, a, b|exists b, a, c|exists b, c, a|exists c, b, a];
    (split; [lia|]; split; [lia|xor_solve]).
Qed.

(** It finds one when there is one. *)
Lemma error_for_complete l : places l -> (1 <= length l <= 3)%nat -> rm3014_error_for (rm_syndrome (error_of l)) <> None.
Proof.
  intros [Hn Hr] Hl. rewrite error_syndrome by done. rewrite error_for_eq.
  destruct l as [|a [|b [|c [|? ?]]]]; cbn [length] in Hl; [lia| | | |lia]; rewrite !Forall_cons in Hr; rewrite !NoDup_cons, ?elem_of_cons in Hn; cbn [foldr].
  - apply (search_hit 0 30 _ a); [lia|]. by rewrite Z.lxor_0_r, Z.eqb_refl.
  - destruct (two_sorted rm3014_bit_syndrome a b) as (x & y & Hxy & E); [tauto..|]. rewrite E.
    apply (search_hit 0 30 _ x); [lia|]. destruct (_ =? _); [done|].
    apply (search_hit (x + 1) 30 _ y); [lia|]. by rewrite Z.eqb_refl.
  - destruct (three_sorted rm3014_bit_syndrome a b c) as (x & y & z & Hxy & Hyz & E); [tauto..|]. rewrite E.
    apply (search_hit 0 30 _ x); [lia|]. destruct (_ =? _); [done|].
    apply (search_hit (x + 1) 30 _ y); [lia|]. destruct (_ =? _); [done|].
    apply (search_hit (y + 1) 30 _ z); [lia|]. by rewrite Z.eqb_refl.
Qed.

(** ** The decoder *)

#[local] Opaque rm3014_error_for tetra_rm3014_encode rm3014_parity error_of.

(** A word within three bits of the codeword of [x]. *)
Definition near (received x : Z) (l : list nat) : Prop :=
  0 <= x < 2 ^ 14 /\ places l /\ (length l <= 3)%nat /\ received = Z.lxor (tetra_rm3014_encode x) (error_of l).

Lemma rm_decode_eq received info : 0 <= received < 2 ^ 30 -> tetra_rm3014_decode received info =
  match (if rm_syndrome received =? 0 then Some (0, 0) else rm3014_error_for (rm_syndrome received)) with
  | None => (info, -1)
  | Some (error, corrected) =>
      (match info with Some _ => Some (u16 (Z.shiftr (Z.lxor received error) 16)) | None => None end, corrected)
  end.
Proof.
  intros Hr. assert (Hs : 0 <= Z.shiftr received 16 < 2 ^ 16)
    by (rewrite Z.shiftr_div_pow2 by lia; split; [apply Z.div_pos; lia|apply Z.div_lt_upper_bound; lia]).
  assert (E30 : Z.shiftr received (Z.of_nat RM3014_BITS) = 0) by (rewrite Z.shiftr_div_pow2 by lia; by apply Z.div_small).
  unfold tetra_rm3014_decode. rewrite E30. change (negb (0 =? 0)) with false. cbv iota zeta. rewrite (u16_small (Z.shiftr received 16)) by done.
  fold (rm_syndrome received). by rewrite (u16_small (rm_syndrome received)) by apply rm_syndrome_range.
Qed.

Lemma near_range received x l : near received x l -> 0 <= received < 2 ^ 30 /\ rm_syndrome received = rm_syndrome (error_of l) /\
  Z.lxor received (error_of l) = tetra_rm3014_encode x.
Proof.
  intros (Hx & Hl & H3 & ->). destruct (rm_encode_parts x Hx) as (Hr & _ & Hs).
  split; [apply lxor_range; [lia|done|apply error_range, Hl]|]. split; [by rewrite rm_syndrome_lxor, Hs, Z.lxor_0_l|].
  rewrite Z.lxor_assoc, Z.lxor_nilpotent. apply Z.lxor_0_r.
Qed.

Lemma near_info x : 0 <= x < 2 ^ 14 -> u16 (Z.shiftr (tetra_rm3014_encode x) 16) = x.
Proof. intros Hx. destruct (rm_encode_parts x Hx) as (_ & -> & _). apply u16_small. lia. Qed.

Lemma rm_decode_near received x l info : near received x l ->
  tetra_rm3014_decode received info = (match info with Some _ => Some x | None => None end, Z.of_nat (length l)).
Proof.
  intros Hn. destruct (near_range _ _ _ Hn) as (Hr & Hs & He). destruct Hn as (Hx & Hl & H3 & _). rewrite rm_decode_eq, Hs by done.
  destruct (Z.eqb_spec (rm_syndrome (error_of l)) 0) as [E0|Hne].
  - assert (Hnil : places []) by (split; [apply NoDup_nil_2|apply Forall_nil_2]).
    pose proof (error_unique l [] Hl Hnil H3 ltac:(cbn; lia) E0) as E. pose proof (error_weight l Hl) as W. rewrite E, error_weight in W by done.
    change (error_of []) with 0 in E. rewrite E in He. rewrite He, near_info by done. by rewrite <- W.
  - assert (H1 : (1 <= length l)%nat) by (destruct l; [by destruct Hne|cbn; lia]).
    pose proof (error_for_complete l Hl (conj H1 H3)) as Hc. destruct (rm3014_error_for _) as [p|] eqn:Ep; [|done].
    apply error_for_sound in Ep as (l' & Hl' & -> & H3' & Hs').
    pose proof (error_unique l' l Hl' Hl ltac:(lia) H3 Hs') as E. pose proof (error_weight l Hl) as W. pose proof (error_weight l' Hl') as W'.
    rewrite E in W'. rewrite E, He, near_info by done. do 2 f_equal. lia.
Qed.

Lemma rm_decode_far received info : 0 <= received < 2 ^ 32 -> (forall x l, ~ near received x l) -> tetra_rm3014_decode received info = (info, -1).
Proof.
  intros Hr Hf. destruct (Z_lt_ge_dec received (2 ^ 30)) as [H|H].
  - rewrite rm_decode_eq by lia. destruct (Z.eqb_spec (rm_syndrome received) 0) as [E0|Hne].
    + exfalso. destruct (rm_zero_syndrome received ltac:(lia) E0) as [E Hx]. apply (Hf (Z.shiftr received 16) []).
      split; [done|]. split; [split; [apply NoDup_nil_2|apply Forall_nil_2]|]. split; [cbn; lia|]. change (error_of []) with 0. by rewrite Z.lxor_0_r.
    + destruct (rm3014_error_for (rm_syndrome received)) as [p|] eqn:Ep; [|done]. exfalso.
      apply error_for_sound in Ep as (l & Hl & _ & H3 & Hs). set (c := Z.lxor received (error_of l)).
      assert (Hc : 0 <= c < 2 ^ 30) by (apply lxor_range; [lia|lia|apply error_range, Hl]).
      destruct (rm_zero_syndrome c Hc) as [E Hx]; [unfold c; by rewrite rm_syndrome_lxor, Hs, Z.lxor_nilpotent|].
      apply (Hf (Z.shiftr c 16) l). split; [done|]. split; [done|]. split; [lia|]. rewrite <- E. unfold c. xor_solve.
  - unfold tetra_rm3014_decode. rewrite (proj2 (Z.eqb_neq _ 0)); [done|]. rewrite Z.shiftr_div_pow2 by lia.
    change (2 ^ Z.of_nat RM3014_BITS) with (2 ^ 30). pose proof (Z.div_le_mono (2 ^ 30) received (2 ^ 30)) as D. rewrite Z.div_same in D by lia. lia.
Qed.

(** ** The access assignment channel *)

(** Bit [i] of a half as sliced, phase and polarity undone. *)
Definition received_bit (phase_rot : Z) (inverted : bool) (dibits : list Z) (i : nat) : bool :=
  Z.testbit (Z.lxor (tetra_dibit_derotate (dibits.[(i / 2)%nat]) (Z.land phase_rot 3)) (if inverted then 2 else 0)) (1 - Z.of_nat i mod 2).

Lemma expand_hard phase_rot inverted dibits n : let r := tetra_expand_dibits_as phase_rot inverted dibits None n (replicate (n * 2) 0) in
  length r = (n * 2)%nat /\ forall i, (i < n * 2)%nat -> r.[i] = 65535 * Z.b2z (received_bit phase_rot inverted dibits i).
Proof.
  unfold tetra_expand_dibits_as. set (soft := if negb _ then None else None).
  assert (Es : soft = None) by (unfold soft; by destruct (negb _)). rewrite Es. clear soft Es.
  set (d i := Z.lxor (tetra_dibit_derotate (dibits.[i]) (Z.land phase_rot 3)) (if inverted then 2 else 0)).
  assert (H3 : forall x k, 0 <= k < 2 -> Z.testbit (Z.land x 3) k = Z.testbit x k).
  { intros x k Hk. change 3 with (Z.ones 2). by rewrite Z.land_spec, Z.ones_spec_low, andb_true_r by lia. }
  enough (H : forall k, (k <= n)%nat -> let r := for_ 0 k (fun i out =>
      let d := Z.land (d i) 3 in
      let out := out.[(i * 2)%nat <- if Z.land (Z.shiftr d 1) 1 =? 0 then 0x0000 else 0xFFFF] in
      out.[(i * 2 + 1)%nat <- if Z.land d 1 =? 0 then 0x0000 else 0xFFFF]) (replicate (n * 2) 0) in
    length r = (n * 2)%nat /\ forall i, (i < k * 2)%nat -> r.[i] = 65535 * Z.b2z (received_bit phase_rot inverted dibits i)) by (by apply H).
  intros k Hk. cbv zeta. induction k as [|k IH]; [split; [apply length_replicate|intros i Hi; lia]|].
  rewrite for_S by lia. destruct (IH ltac:(lia)) as [L IH']. clear IH. rename IH' into IH.
  set (r := for_ 0 k _ _) in *. rewrite !length_insert. split; [done|]. intros i Hi.
  rewrite shiftr_land1, land1_testbit, !H3 by lia. rewrite !nth_insert, length_insert, L.
  destruct (decide (i < k * 2)%nat) as [Hl|Hl].
  { repeat destruct (decide _); try lia. by apply IH. }
  unfold received_bit. fold (d (i / 2)%nat). assert (Hi2 : i = (k * 2)%nat \/ i = (k * 2 + 1)%nat) by lia. destruct Hi2 as [-> | ->].
  - rewrite decide_False, decide_True by lia. replace (k * 2 / 2)%nat with k by (symmetry; by apply Nat.div_mul).
    replace (1 - Z.of_nat (k * 2) mod 2) with 1 by (rewrite Nat2Z.inj_mul, Z.mod_mul by lia; lia). by destruct (Z.testbit (d k) 1).
  - rewrite decide_True by lia. replace ((k * 2 + 1) / 2)%nat with k by (apply (Nat.div_unique _ 2 k 1); lia).
    replace (1 - Z.of_nat (k * 2 + 1) mod 2) with 0 by (rewrite Nat2Z.inj_add, Nat2Z.inj_mul, Z.add_comm, Z.mod_add by lia; done).
    by destruct (Z.testbit (d k) 0).
Qed.

(** The scrambling sequence, defined as the generator runs. *)
Definition scrambling_bit (seed : Z) (q : nat) : bool :=
  negb (snd (tetra_lfsr32_next (scrambler seed q)) =? 0).

(** The dibits of both halves carry the 30 bits of a word, scrambled. *)
Definition aach_carries (phase_rot : Z) (inverted : bool) (half1 half2 : list Z) (seed word : Z) : Prop :=
  forall i, (i < 30)%nat ->
  (if decide (i < 14)%nat then received_bit phase_rot inverted half1 i else received_bit phase_rot inverted half2 (i - 14))
  = xorb (Z.testbit word (Z.of_nat (29 - i))) (scrambling_bit seed i).

Lemma aach_word phase_rot inverted half1 half2 seed word : 0 <= word < 2 ^ 30 -> aach_carries phase_rot inverted half1 half2 seed word ->
  let costs := tetra_descramble_soft (tetra_expand_dibits_as phase_rot inverted half1 None 7 (replicate 14 0)
    ++ tetra_expand_dibits_as phase_rot inverted half2 None 8 (replicate 16 0)) 30 seed in
  for_ 0 30 (fun i word => Z.lor (u32 (Z.shiftl word 1)) (if TETRA_SOFT_NEUTRAL <? costs.[i] then 1 else 0)) 0 = word.
Proof.
  intros Hw Hc. destruct (expand_hard phase_rot inverted half1 7) as [L1 H1]. destruct (expand_hard phase_rot inverted half2 8) as [L2 H2].
  change (7 * 2)%nat with 14%nat in *. change (8 * 2)%nat with 16%nat in *. cbv zeta in *.
  set (c1 := tetra_expand_dibits_as phase_rot inverted half1 None 7 (replicate 14 0)) in *.
  set (c2 := tetra_expand_dibits_as phase_rot inverted half2 None 8 (replicate 16 0)) in *.
  assert (Hb : forall i, (i < 30)%nat -> (c1 ++ c2).[i] = 65535 * Z.b2z (xorb (Z.testbit word (Z.of_nat (29 - i))) (scrambling_bit seed i))).
  { intros i Hi. rewrite <- Hc by done. destruct (decide (i < 14)%nat) as [Hl|Hl].
    - rewrite app_nth1 by lia. by apply H1.
    - rewrite app_nth2, L1 by lia. apply H2. lia. }
  assert (Hk : Forall is_cost (c1 ++ c2)).
  { apply Forall_forall. intros x Hx. apply list_elem_of_lookup in Hx as [i Hx]. pose proof (lookup_lt_Some _ _ _ Hx) as Hi. rewrite length_app, L1, L2 in Hi.
    assert (E : x = (c1 ++ c2).[i]) by (by rewrite nth_lookup, Hx). rewrite E, Hb by done. unfold is_cost. destruct (xorb _ _); cbn; lia. }
  destruct (descramble_spec (c1 ++ c2) 30 seed ltac:(rewrite length_app, L1, L2; lia) Hk) as [_ Hd]. change (Z.of_nat 30) with 30 in Hd.
  set (c := tetra_descramble_soft (c1 ++ c2) 30 seed) in *.
  rewrite (for_ext 0 30 _ (fun i word' => Z.lor (wrap 32 (Z.shiftl word' 1)) (Z.b2z (Z.testbit word (Z.of_nat (30 - 1 - i)))))).
  - rewrite (proj1 (collect_lor 32 30 ltac:(lia) (fun i => Z.b2z (Z.testbit word (Z.of_nat (30 - 1 - i)))) ltac:(intros; apply b2z_bit))).
    by apply bits_value_testbit.
  - intros i w Hi. unfold u32. f_equal. rewrite Hd, decide_True, Hb by lia. replace (30 - 1 - i)%nat with (29 - i)%nat by lia.
    unfold scrambled, scrambling_bit. destruct (negb (snd _ =? 0)), (Z.testbit word _); reflexivity.
Qed.

(** C31: The access assignment of a downlink burst is decoded from its 15 dibits,
    whatever the phase step and polarity they were sliced in: when the 30 bits
    they carry under the cell's scrambling are within three of a codeword, its 14
    bits come out; when they are not within three of any codeword, nothing is
    written and the burst is reported undecoded. *)
Theorem aach_decoded phase_rot inverted half1 half2 seed pdu word : 0 <= word < 2 ^ 30 ->
  aach_carries phase_rot inverted half1 half2 seed word ->
  (forall x l, near word x l -> tetra_ndb_aach phase_rot inverted (Some half1) half2 seed pdu = (x, true)) /\
  ((forall x l, ~ near word x l) -> tetra_ndb_aach phase_rot inverted (Some half1) half2 seed pdu = (pdu, false)).
Proof.
  intros Hr Hc. unfold tetra_ndb_aach. rewrite (aach_word _ _ _ _ _ _ Hr Hc). split.
  - intros x l Hn. rewrite (rm_decode_near word x l) by done. cbv iota beta. by rewrite (proj2 (Z.leb_le 0 _)) by lia.
  - intros Hf. by rewrite rm_decode_far by (done || lia).
Qed.

Lemma aach_decoded_witness : tetra_ndb_aach 1 true (Some [3; 1; 0; 1; 3; 2; 0]) [2; 2; 1; 1; 0; 1; 0; 3] 0xABCDEF3 0 = (0x1234, true).
Proof.
  set (word := Z.lxor (tetra_rm3014_encode 0x1234) (error_of [0%nat; 5%nat])).
  assert (Hr : 0 <= word < 2 ^ 30) by (vm_compute; split; [discriminate|reflexivity]).
  assert (Hc : aach_carries 1 true [3; 1; 0; 1; 3; 2; 0] [2; 2; 1; 1; 0; 1; 0; 3] 0xABCDEF3 word)
    by (intros i Hi; apply eqb_prop; revert i Hi; apply check_nat; vm_compute; reflexivity).
  apply (proj1 (aach_decoded 1 true [3; 1; 0; 1; 3; 2; 0] [2; 2; 1; 1; 0; 1; 0; 3] 0xABCDEF3 0 word Hr Hc) 0x1234 [0%nat; 5%nat]).
  split; [lia|]. split; [split; by_decide|]. split; [cbn; lia|reflexivity].
Defined.
