(* ===== verification/TetraSpeech.v ===== *)
(** * What the speech decoders of [protocol/tetra/tetra_fec.c] recover

    A speech frame is three classes of bits; classes 1 and 2 share a trellis
    whose puncturing changes between them.  A frame comes back right, with its
    check and its count of mismatches, though any one of its coded bits is
    wrong; whatever is received, the count is the distance to the re-encoded
    frame. *)
From Stdlib Require Import ZifyNat.
From S2P Require Import Prelude Crc Convolution TetraFec TetraChannels.

(** ** Values at the places of a puncturing scheme *)

Section Kept.
Context (p : tetra_puncturer) (n m : nat) (Hok : kept_ok p n m = true).
Notation place j := (Z.to_nat (tetra_puncturer_k p (Z.of_nat (S j)) - 1)).

Lemma kept_stores v d : let r := stores (fun j => place j) v n (replicate m d) in
  length r = m /\ (forall j, (j < n)%nat -> r.[place j] = v j) /\ forall i, (i < m)%nat -> i ∉ kept p n -> r.[i] = d.
Proof using Hok.
  cbv zeta. split; [by rewrite length_stores, length_replicate|]. split.
  - intros j Hj. pose proof (kept_range p n m Hok j Hj). apply (stores_hit (fun j => place j)); [done| |rewrite length_replicate; lia].
    intros i Hi Hne E. apply Hne. by apply (kept_inj p n m Hok).
  - intros i Hi Hni. rewrite stores_miss.
    + by rewrite nth_lookup, lookup_replicate_2.
    + intros j Hj E. apply Hni. rewrite <- E. apply list_elem_of_lookup. exists j. by apply kept_nth.
Qed.

Lemma kept_cases i : (exists j, (j < n)%nat /\ i = place j) \/ i ∉ kept p n.
Proof using.
  destruct (decide (i ∈ kept p n)) as [Hin|Hni]; [left|by right].
  apply list_elem_of_lookup in Hin as [j Hj]. pose proof (lookup_lt_Some _ _ _ Hj) as Hjn. unfold kept in Hjn. rewrite length_map, length_seq in Hjn.
  rewrite kept_nth in Hj by done. injection Hj as <-. by exists j.
Qed.
End Kept.

Definition p_8_12 : tetra_puncturer := mk_puncturer k_p_8_12 3 6 PUNCT_I_EQUALS_J.

(** For each mother bit its place in the block, -1 for none. *)
Definition speech_sources (lay : tetra_speech_layout) (p2 : tetra_puncturer) : list Z :=
  stores (fun j => Z.to_nat (tetra_puncturer_k p_8_12 (Z.of_nat (S j)) - 1)) (fun j => Z.of_nat (class0 lay + j))
    (speech_class1_coded lay) (replicate (c1_mother lay) (-1))
  ++ stores (fun j => Z.to_nat (tetra_puncturer_k p2 (Z.of_nat (S j)) - 1)) (fun j => Z.of_nat (class0 lay + speech_class1_coded lay + j))
    (c2_coded lay) (replicate (c2_mother lay) (-1)).

Record layout_ok (lay : tetra_speech_layout) (p2 : tetra_puncturer) : Prop := {
  lay_puncturer : tetra_puncturer_of (class2_punct lay) = Some p2;
  lay_class1 : kept_ok p_8_12 (speech_class1_coded lay) (c1_mother lay) = true;
  lay_class2 : kept_ok p2 (c2_coded lay) (c2_mother lay) = true;
  lay_mother : (c1_mother lay + c2_mother lay = speech_coded_inputs lay * 3)%nat;
  lay_coded : (class0 lay + (speech_class1_coded lay + c2_coded lay) = l_coded lay)%nat;
  lay_inputs : (4 <= speech_coded_inputs lay <= 512)%nat;
  lay_weight : 3 <= least_weight k_speech_code (map (burst_weight 0 0) (speech_sources lay p2)) (speech_coded_inputs lay) }.

Lemma full_layout_ok : layout_ok k_speech_full (mk_puncturer k_p_8_18 9 12 PUNCT_I_EQUALS_J).
Proof. split; [done|vm_compute; reflexivity|vm_compute; reflexivity|done|done|vm_compute; lia|by apply Z.leb_le; vm_compute]. Qed.

Lemma half_layout_ok : layout_ok k_speech_half (mk_puncturer k_p_8_17 17 24 PUNCT_I_EQUALS_J).
Proof. split; [done|vm_compute; reflexivity|vm_compute; reflexivity|done|done|vm_compute; lia|by apply Z.leb_le; vm_compute]. Qed.

Section Speech.
Context (lay : tetra_speech_layout) (p2 : tetra_puncturer) (Hlay : layout_ok lay p2).
Notation N := (speech_coded_inputs lay).
Notation c0 := (class0 lay).
Notation k1 := (speech_class1_coded lay).
Notation k2 := (c2_coded lay).
Notation m1 := (c1_mother lay).
Notation m2 := (c2_mother lay).
Notation place1 j := (Z.to_nat (tetra_puncturer_k p_8_12 (Z.of_nat (S j)) - 1)).
Notation place2 j := (Z.to_nat (tetra_puncturer_k p2 (Z.of_nat (S j)) - 1)).
Notation path inputs := (fun t => Z.land (inputs.[t]) 1).
Notation src := (speech_sources lay p2).

(** The costs the search sees. *)
Definition speech_costs (deint : list Z) : list Z :=
  fst (tetra_rcpc_depuncture_by_id TETRA_RCPC_PUNCT_SPEECH_8_12 (drop c0 deint) (Z.of_nat k1) (replicate m1 0) (Z.of_nat m1))
  ++ fst (tetra_rcpc_depuncture_by_id (class2_punct lay) (drop (c0 + k1) deint) (Z.of_nat k2) (replicate m2 0) (Z.of_nat m2)).

Lemma place1_lt j : (j < k1)%nat -> (place1 j < m1)%nat.
Proof using Hlay. intros Hj. pose proof (kept_range _ _ _ (lay_class1 _ _ Hlay) j Hj). lia. Qed.

Lemma place2_lt j : (j < k2)%nat -> (place2 j < m2)%nat.
Proof using Hlay. intros Hj. pose proof (kept_range _ _ _ (lay_class2 _ _ Hlay) j Hj). lia. Qed.

(** A mother bit of class 1, of the rest, or punctured. *)
Lemma mother_cases i : (i < N * 3)%nat ->
  (exists j, (j < k1)%nat /\ i = place1 j) \/ (exists j, (j < k2)%nat /\ i = (m1 + place2 j)%nat) \/
  ((i < m1)%nat /\ i ∉ kept p_8_12 k1) \/ ((m1 <= i)%nat /\ (i - m1 ∉ kept p2 k2)%nat /\ (i - m1 < m2)%nat).
Proof using Hlay.
  intros Hi. rewrite <- (lay_mother _ _ Hlay) in Hi. destruct (decide (i < m1)%nat) as [H|H].
  - destruct (kept_cases p_8_12 k1 i) as [(j & Hj & E)|Hn]; [left; by exists j|right; right; by left].
  - destruct (kept_cases p2 k2 (i - m1)) as [(j & Hj & E)|Hn]; [right; left; exists j; split; [done|lia]|].
    right; right; right. split; [lia|]. split; [done|lia].
Qed.

(** Both halves of a list over the mother code. *)
Lemma halves (v1 v2 : nat -> Z) (d : Z) :
  let r := stores (fun j => place1 j) v1 k1 (replicate m1 d) ++ stores (fun j => place2 j) v2 k2 (replicate m2 d) in
  length r = (N * 3)%nat /\ (forall j, (j < k1)%nat -> r.[place1 j] = v1 j) /\ (forall j, (j < k2)%nat -> r.[(m1 + place2 j)%nat] = v2 j) /\
  (forall i, (i < m1)%nat -> i ∉ kept p_8_12 k1 -> r.[i] = d) /\
  forall i, (m1 <= i)%nat -> (i - m1 < m2)%nat -> (i - m1 ∉ kept p2 k2)%nat -> r.[i] = d.
Proof using Hlay.
  destruct (kept_stores _ _ _ (lay_class1 _ _ Hlay) v1 d) as (L1 & A1 & B1). destruct (kept_stores _ _ _ (lay_class2 _ _ Hlay) v2 d) as (L2 & A2 & B2).
  cbv zeta in *. set (r1 := stores _ v1 k1 _) in *. set (r2 := stores _ v2 k2 _) in *.
  split; [rewrite length_app, L1, L2; apply (lay_mother _ _ Hlay)|]. split; [|split; [|split]].
  - intros j Hj. rewrite app_nth1 by (rewrite L1; by apply place1_lt). by apply A1.
  - intros j Hj. rewrite app_nth2, L1 by lia. replace (m1 + place2 j - m1)%nat with (place2 j) by lia. by apply A2.
  - intros i Hi Hn. rewrite app_nth1 by lia. by apply B1.
  - intros i Hi Hi' Hn. rewrite app_nth2, L1 by lia. by apply B2.
Qed.

Lemma speech_costs_spec deint : (c0 + (k1 + k2) <= length deint)%nat -> Forall is_cost deint -> let r := speech_costs deint in
  Forall is_cost r /\ (forall j, (j < k1)%nat -> r.[place1 j] = deint.[(c0 + j)%nat]) /\
  (forall j, (j < k2)%nat -> r.[(m1 + place2 j)%nat] = deint.[(c0 + k1 + j)%nat]) /\
  (forall i, (i < m1)%nat -> i ∉ kept p_8_12 k1 -> r.[i] = TETRA_SOFT_NEUTRAL) /\
  forall i, (m1 <= i)%nat -> (i - m1 < m2)%nat -> (i - m1 ∉ kept p2 k2)%nat -> r.[i] = TETRA_SOFT_NEUTRAL.
Proof using Hlay.
  intros Hl Hc. unfold speech_costs. cbv zeta.
  destruct (depuncture_spec _ p_8_12 k1 m1 (eq_refl : tetra_puncturer_of TETRA_RCPC_PUNCT_SPEECH_8_12 = Some p_8_12) (lay_class1 _ _ Hlay)
    (drop c0 deint) (replicate m1 0) (length_replicate _ _)) as (L1 & A1 & B1).
  destruct (depuncture_spec _ p2 k2 m2 (lay_puncturer _ _ Hlay) (lay_class2 _ _ Hlay) (drop (c0 + k1) deint) (replicate m2 0) (length_replicate _ _)) as (L2 & A2 & B2).
  pose proof (depuncture_costs _ p_8_12 k1 m1 (eq_refl : tetra_puncturer_of TETRA_RCPC_PUNCT_SPEECH_8_12 = Some p_8_12) (lay_class1 _ _ Hlay)
    (drop c0 deint) (Forall_drop _ _ _ Hc)) as C1.
  pose proof (depuncture_costs _ p2 k2 m2 (lay_puncturer _ _ Hlay) (lay_class2 _ _ Hlay) (drop (c0 + k1) deint) (Forall_drop _ _ _ Hc)) as C2.
  cbv zeta in *. set (r1 := fst _) in L1, A1, B1, C1 |- *. set (r2 := fst _) in L2, A2, B2, C2 |- *.
  split; [by apply Forall_app|]. split; [|split; [|split]].
  - intros j Hj. rewrite app_nth1 by (rewrite L1; by apply place1_lt). rewrite A1, nth_drop by done. done.
  - intros j Hj. rewrite app_nth2, L1 by lia. replace (m1 + place2 j - m1)%nat with (place2 j) by lia. rewrite A2, nth_drop by done. done.
  - intros i Hi Hn. rewrite app_nth1 by lia. by apply B1.
  - intros i Hi Hi' Hn. rewrite app_nth2, L1 by lia. by apply B2.
Qed.

Lemma recode_spec inputs : let r := speech_recode lay inputs in
  length r = (k1 + k2)%nat /\ (forall j, (j < k1)%nat -> r.[j] = code_bit k_speech_code (path inputs) (place1 j)) /\
  forall j, (j < k2)%nat -> r.[(k1 + j)%nat] = code_bit k_speech_code (path inputs) (m1 + place2 j).
Proof using Hlay.
  unfold speech_recode. cbv zeta. pose proof (lay_mother _ _ Hlay) as HM.
  destruct (conv_encode_spec k_speech_code inputs N (replicate (m1 + m2) 0) ltac:(cbn; lia)) as [Lm Hm];
    [rewrite length_replicate; change (lanes k_speech_code) with 3%nat; lia|]. cbv zeta in Lm, Hm. rewrite length_replicate in Lm.
  set (mother := conv_encode _ _ _ _) in *. change (lanes k_speech_code) with 3%nat in Hm.
  destruct (puncture_spec _ p_8_12 k1 m1 (eq_refl : tetra_puncturer_of TETRA_RCPC_PUNCT_SPEECH_8_12 = Some p_8_12) (lay_class1 _ _ Hlay)
    mother (replicate k1 0) ltac:(rewrite length_replicate; lia)) as [L1 A1].
  destruct (puncture_spec _ p2 k2 m2 (lay_puncturer _ _ Hlay) (lay_class2 _ _ Hlay) (drop m1 mother) (replicate k2 0) ltac:(rewrite length_replicate; lia)) as [L2 A2].
  cbv zeta in *. set (r1 := fst _) in L1, A1 |- *. set (r2 := fst _) in L2, A2 |- *. rewrite length_replicate in L1, L2.
  split; [by rewrite length_app, L1, L2|]. split; intros j Hj.
  - rewrite app_nth1, A1, Hm by lia. pose proof (place1_lt j Hj). by rewrite decide_True by lia.
  - rewrite app_nth2, L1 by lia. replace (k1 + j - k1)%nat with j by lia. rewrite A2, nth_drop, Hm by done. pose proof (place2_lt j Hj).
    by rewrite decide_True by lia.
Qed.

Lemma recode_bits inputs : bits (speech_recode lay inputs).
Proof using Hlay.
  destruct (recode_spec inputs) as (L & H1 & H2). cbv zeta in *. apply Forall_forall. intros x Hx. apply list_elem_of_lookup in Hx as [i Hx].
  pose proof (lookup_lt_Some _ _ _ Hx) as Hi. rewrite L in Hi. assert (E : x = (speech_recode lay inputs).[i]) by (by rewrite nth_lookup, Hx).
  rewrite E. destruct (decide (i < k1)%nat); [rewrite H1 by done; apply edge_bit|].
  replace i with (k1 + (i - k1))%nat by lia. rewrite H2 by lia. apply edge_bit.
Qed.

Lemma sources_halves : length src = (N * 3)%nat /\ (forall j, (j < k1)%nat -> src.[place1 j] = Z.of_nat (c0 + j)) /\
  (forall j, (j < k2)%nat -> src.[(m1 + place2 j)%nat] = Z.of_nat (c0 + k1 + j)) /\
  (forall i, (i < m1)%nat -> i ∉ kept p_8_12 k1 -> src.[i] = -1) /\
  forall i, (m1 <= i)%nat -> (i - m1 < m2)%nat -> (i - m1 ∉ kept p2 k2)%nat -> src.[i] = -1.
Proof using Hlay. apply (halves (fun j => Z.of_nat (c0 + j)) (fun j => Z.of_nat (c0 + k1 + j)) (-1)). Qed.

(** The mother bit a place of the block carries is one of those sent. *)
Lemma speech_source i : (i < N * 3)%nat -> 0 <= src.[i] ->
  (exists j, (j < k1)%nat /\ i = place1 j /\ src.[i] = Z.of_nat (c0 + j)) \/
  (exists j, (j < k2)%nat /\ i = (m1 + place2 j)%nat /\ src.[i] = Z.of_nat (c0 + k1 + j)).
Proof using Hlay.
  intros Hi H0. destruct sources_halves as (_ & S1 & S2 & S3 & S4).
  destruct (mother_cases i Hi) as [(j & Hj & ->)|[(j & Hj & ->)|[[H Hn]|(H & Hn & H')]]].
  - left. exists j. split; [done|]. split; [done|by apply S1].
  - right. exists j. split; [done|]. split; [done|by apply S2].
  - rewrite S3 in H0 by done. lia.
  - rewrite S4 in H0 by done. lia.
Qed.

Lemma speech_unique i i' : (i < N * 3)%nat -> (i' < N * 3)%nat -> 0 <= src.[i] -> src.[i] = src.[i'] -> i = i'.
Proof using Hlay.
  intros Hi Hi' H0 E. destruct (speech_source i Hi H0) as [(j & Hj & Ei & Es)|(j & Hj & Ei & Es)];
    destruct (speech_source i' Hi' ltac:(lia)) as [(j' & Hj' & Ei' & Es')|(j' & Hj' & Ei' & Es')];
    rewrite Es, Es' in E; try lia; (replace j' with j in Ei' by lia); congruence.
Qed.

Lemma speech_placed inputs deint : bits inputs -> length inputs = N -> (forall t, (N - 4 <= t)%nat -> inputs.[t] = 0) ->
  Forall is_cost deint -> length deint = l_coded lay ->
  placed k_speech_code N src deint (speech_costs deint) (path inputs).
Proof using Hlay.
  intros Hb Hl H0 Hc Ld. destruct sources_halves as (Ls & S1 & S2 & S3 & S4). pose proof (lay_inputs _ _ Hlay) as HN. pose proof (lay_coded _ _ Hlay) as HC.
  destruct (speech_costs_spec deint ltac:(lia) Hc) as (C0 & C1 & C2 & C3 & C4). cbv zeta in *.
  split; [|done|done|done|exact speech_unique|].
  - assert (Hp : forall n, path_bits (path inputs) n) by (intros n t _; apply land1_bit). split; [apply Hp|].
    replace N with (N - 4 + 4)%nat by lia. apply tail_state; [apply speech_ok|by vm_compute|apply Hp|]. intros t Ht. by rewrite H0 by lia.
  - intros i Hi. change (lanes k_speech_code) with 3%nat in Hi.
    destruct (mother_cases i Hi) as [(j & Hj & ->)|[(j & Hj & ->)|[[H Hn]|(H & Hn & H')]]].
    + rewrite C1, S1 by done. by rewrite (proj2 (Z.ltb_ge _ 0)), Nat2Z.id by lia.
    + rewrite C2, S2 by done. by rewrite (proj2 (Z.ltb_ge _ 0)), Nat2Z.id by lia.
    + by rewrite C3, S3 by done.
    + by rewrite C4, S4 by done.
Qed.

(** The coded bits of a frame in the block, all right and sure but at [st]. *)
Definition right_but (inputs deint : list Z) (st : nat) : Prop :=
  forall q, (q < k1 + k2)%nat -> (c0 + q <> st)%nat -> deint.[(c0 + q)%nat] = 65535 * (speech_recode lay inputs).[q].

Lemma speech_right inputs deint st : right_but inputs deint st ->
  right_outside k_speech_code N src deint (path inputs) (Z.of_nat st) 1.
Proof using Hlay.
  intros Hq i Hi H0 Hout. change (lanes k_speech_code) with 3%nat in Hi. destruct (recode_spec inputs) as (_ & R1 & R2). cbv zeta in *.
  destruct (speech_source i Hi H0) as [(j & Hj & -> & Es)|(j & Hj & -> & Es)]; rewrite Es in *; rewrite Nat2Z.id.
  - rewrite Hq by lia. by rewrite R1.
  - replace (c0 + k1 + j)%nat with (c0 + (k1 + j))%nat in * by lia. rewrite Hq by lia. by rewrite R2.
Qed.

(** The trellis gives the inputs back. *)
Lemma speech_trellis junk inputs deint st : bits inputs -> length inputs = N -> (forall t, (N - 4 <= t)%nat -> inputs.[t] = 0) ->
  Forall is_cost deint -> length deint = l_coded lay -> (N * 16 <= length junk)%nat -> right_but inputs deint st ->
  conv_viterbi k_speech_code junk (speech_costs deint) N (replicate N 0) = inputs.
Proof using Hlay.
  intros Hb Hl H0 Hc Ld Hj Hq. pose proof (lay_inputs _ _ Hlay) as HN.
  destruct (placed_one k_speech_code speech_ok speech_linear N src deint (speech_costs deint) (path inputs) junk (replicate N 0)
    ltac:(lia) Hj ltac:(by rewrite length_replicate) (Z.of_nat st)) as [Lr Hr];
    [by apply speech_placed|by apply speech_right|lia|exact (lay_weight _ _ Hlay)|].
  rewrite length_replicate in Lr. apply list_eq_nth; [congruence|]. intros t Ht. rewrite Hr, decide_True by lia. apply land1_id. by apply bits_nth.
Qed.

Lemma hard_sure b : is_bit b -> hard_bit (65535 * b) = b.
Proof. intros [-> | ->]; reflexivity. Qed.

Lemma speech_decode_one junk class0_bits inputs deint st : bits class0_bits -> length class0_bits = c0 ->
  bits inputs -> length inputs = N -> (forall t, (N - 4 <= t)%nat -> inputs.[t] = 0) ->
  Forall is_cost deint -> length deint = l_coded lay -> (N * 16 <= length junk)%nat ->
  (forall q, (q < c0)%nat -> deint.[q] = 65535 * class0_bits.[q]) -> right_but inputs deint st ->
  speech_decode junk lay deint = class0_bits ++ inputs.
Proof using Hlay.
  intros Hb0 L0 Hb Hl H0 Hc Ld Hj Hq0 Hq. unfold speech_decode. cbv zeta. fold (speech_costs deint).
  rewrite (speech_trellis junk inputs deint st) by done. f_equal.
  apply list_eq_nth; [by rewrite length_map, length_seq|]. intros q Hqn. rewrite length_map, length_seq in Hqn.
  rewrite nth_map_seq, Hq0 by done. cbn [Nat.add]. rewrite hard_sure; [done|by apply bits_nth].
Qed.

(** *** Mismatches *)

(** The number of mismatches is the Hamming distance of the coded bits. *)
Lemma mismatches_sum deint inputs : speech_mismatches lay deint inputs =
  sum_upto (k1 + k2) (fun i => if hard_bit (deint.[(c0 + i)%nat]) =? (speech_recode lay inputs).[i] then 0 else 1).
Proof using. unfold speech_mismatches, sum_upto. apply for_ext. intros i bad _. destruct (_ =? _); lia. Qed.

Lemma sum_one (f : nat -> Z) n st : (forall i, i <> st -> f i = 0) -> 0 <= f st <= 1 -> 0 <= sum_upto n f <= 1.
Proof using.
  intros Hz H1. enough (H : sum_upto n f = if decide (st < n)%nat then f st else 0) by (rewrite H; destruct (decide _); lia).
  induction n as [|n IH]; [by destruct (decide _); [lia|]|]. rewrite sum_upto_S, IH. destruct (decide (n = st)) as [->|Hne].
  - repeat destruct (decide _); lia.
  - rewrite (Hz n) by done. repeat destruct (decide _); lia.
Qed.

Lemma mismatches_one inputs deint st : right_but inputs deint st -> 0 <= speech_mismatches lay deint inputs <= 1.
Proof using Hlay.
  intros Hq. rewrite mismatches_sum. set (f := fun i => _).
  assert (Ef : sum_upto (k1 + k2) f = sum_upto (k1 + k2) (fun i => if decide (c0 + i = st)%nat then f i else 0)).
  { apply sum_upto_ext. intros i Hi. destruct (decide _) as [|Hne]; [done|]. unfold f. rewrite Hq by done.
    rewrite hard_sure by (apply bits_nth, recode_bits). by rewrite Z.eqb_refl. }
  rewrite Ef. destruct (decide (c0 <= st)%nat) as [H|H].
  - apply (sum_one _ _ (st - c0)); [intros i Hi; by rewrite decide_False by lia|]. rewrite decide_True by lia. unfold f. destruct (_ =? _); lia.
  - apply (sum_one _ _ 0%nat); [intros i Hi; by rewrite decide_False by lia|]. rewrite decide_False by lia. lia.
Qed.
End Speech.

(** ** The checks of the two frames *)

Definition crc_parity (bits : list Z) (len : nat) (degree low : Z) (n : nat) : list Z :=
  map (fun i => Z.b2z (Z.testbit (speech_crc bits len degree low) (Z.of_nat i))) (seq 0 n).

(** The parity bits sent for class 2. *)
Definition full_parity (b2 : list Z) : list Z :=
  let crc := crc_parity b2 60 7 0x09 7 in
  crc ++ [for_ 0 67 (fun i sum => Z.lxor sum (Z.land ((b2 ++ crc).[i]) 1)) 0].
Definition half_parity (b2 : list Z) : list Z := crc_parity b2 30 4 0x03 4.

Lemma crc_parity_spec b len degree low n : length (crc_parity b len degree low n) = n /\ bits (crc_parity b len degree low n).
Proof. unfold crc_parity. split; [len|]. apply Forall_fmap, Forall_true. intros. apply b2z_bit. Qed.

Lemma parity_spec b2 : (length (full_parity b2) = 8%nat /\ bits (full_parity b2)) /\ length (half_parity b2) = 4%nat /\ bits (half_parity b2).
Proof.
  destruct (crc_parity_spec b2 60 7 0x09 7) as [L B]. destruct (crc_parity_spec b2 30 4 0x03 4) as [L' B'].
  split; [|done]. unfold full_parity. cbv zeta. split; [by rewrite length_app, L|]. apply Forall_app. split; [done|]. apply Forall_singleton.
  apply (for_inv is_bit); [by left|]. intros i s _ Hs. apply is_bit_lxor; [done|apply land1_bit].
Qed.

Lemma speech_crc_app b rest len degree low : length b = len -> speech_crc (b ++ rest) len degree low = speech_crc b len degree low.
Proof. intros Hl. apply for_ext. intros k reg Hk. cbv beta zeta. by rewrite app_nth1 by lia. Qed.

Lemma parity_matches b len degree low n rest : speech_parity_matches (crc_parity b len degree low n ++ rest) n (speech_crc b len degree low) = true.
Proof.
  unfold speech_parity_matches. apply forallb_forall. intros i Hi. apply in_seq in Hi. destruct (crc_parity_spec b len degree low n) as [L B].
  rewrite app_nth1 by lia. apply Z.eqb_eq. rewrite shiftr_land1 by lia. unfold crc_parity. rewrite nth_map_seq by lia. cbn [Nat.add]. apply land1_id, b2z_bit.
Qed.

Lemma full_crc_passes b2 rest : length b2 = 60%nat -> speech_full_crc_ok (b2 ++ full_parity b2 ++ rest) = true.
Proof.
  intros Hl. destruct (crc_parity_spec b2 60 7 0x09 7) as [L B]. destruct (parity_spec b2) as [[LF BF] _]. unfold speech_full_crc_ok.
  rewrite speech_crc_app by done. replace (drop 60 (b2 ++ full_parity b2 ++ rest)) with (full_parity b2 ++ rest) by (symmetry; by apply drop_app_length').
  unfold full_parity at 1. cbv zeta. rewrite <- app_assoc, parity_matches. cbn [negb]. apply Z.eqb_eq.
  rewrite (app_nth2 b2), Hl by lia. change (67 - 60)%nat with 7%nat. rewrite app_nth1 by lia.
  unfold full_parity at 2. cbv zeta. rewrite app_nth2, L by lia. change (7 - 7)%nat with 0%nat. cbn [nth].
  set (crc := crc_parity b2 60 7 0x09 7) in *. rewrite land1_id.
  - apply for_ext. intros i s Hi. unfold full_parity. cbv zeta. fold crc. rewrite <- (app_assoc crc), (app_assoc b2 crc).
    by rewrite (app_nth1 (b2 ++ crc)) by (rewrite length_app; lia).
  - apply (for_inv is_bit); [by left|]. intros i s _ Hs. apply is_bit_lxor; [done|apply land1_bit].
Qed.

Lemma half_crc_passes b2 rest : length b2 = 30%nat -> speech_half_crc_ok (b2 ++ half_parity b2 ++ rest) = true.
Proof.
  intros Hl. unfold speech_half_crc_ok. rewrite speech_crc_app by done.
  replace (drop 30 (b2 ++ half_parity b2 ++ rest)) with (half_parity b2 ++ rest) by (symmetry; by apply drop_app_length'). apply parity_matches.
Qed.

(** ** The frames *)

(** What is sent: class 0 as it is, classes 1 and 2 with parity and tail coded. *)
Definition speech_inputs (b1 b2 parity : list Z) : list Z := b1 ++ b2 ++ parity ++ replicate 4 0.
Definition speech_transmit (lay : tetra_speech_layout) (b0 inputs : list Z) : list Z := b0 ++ speech_recode lay inputs.

Lemma speech_inputs_spec b1 b2 parity : bits b1 -> bits b2 -> bits parity -> let r := speech_inputs b1 b2 parity in
  bits r /\ length r = (length b1 + length b2 + length parity + 4)%nat /\ forall t, (length b1 + length b2 + length parity <= t)%nat -> r.[t] = 0.
Proof.
  intros B1 B2 BP. unfold speech_inputs. cbv zeta. split; [|split].
  - apply Forall_app. split; [done|]. apply Forall_app. split; [done|]. apply Forall_app. split; [done|]. apply Forall_replicate. by left.
  - rewrite !length_app, length_replicate. lia.
  - intros t Ht. rewrite !app_nth2 by lia. apply nth_replicate.
Qed.

(** The costs received are those of the bits sent, but for one coded bit. *)
Definition all_but_one (lay : tetra_speech_layout) (sent deint : list Z) (st : nat) : Prop :=
  Forall is_cost deint /\ length deint = l_coded lay /\ (class0 lay <= st)%nat /\
  forall q, (q < l_coded lay)%nat -> q <> st -> deint.[q] = 65535 * sent.[q].

Lemma speech_received lay p2 junk b0 inputs deint st : layout_ok lay p2 -> bits b0 -> length b0 = class0 lay ->
  bits inputs -> length inputs = speech_coded_inputs lay -> (forall t, (speech_coded_inputs lay - 4 <= t)%nat -> inputs.[t] = 0) ->
  (TETRA_VITERBI_MAX_BITS * TETRA_VITERBI_STATES <= length junk)%nat -> all_but_one lay (speech_transmit lay b0 inputs) deint st ->
  speech_decode junk lay deint = b0 ++ inputs /\ 0 <= speech_mismatches lay deint inputs <= 1.
Proof.
  intros Hlay B0 L0 B L H0 Hj (Hc & Ld & Hst & Hq). pose proof (lay_coded _ _ Hlay) as HC. pose proof (lay_inputs _ _ Hlay) as HN.
  unfold TETRA_VITERBI_MAX_BITS, TETRA_VITERBI_STATES in Hj. unfold speech_transmit in Hq.
  assert (Hr : right_but lay inputs deint st).
  { intros q Hqn Hne. rewrite Hq, app_nth2 by lia. do 2 f_equal. lia. }
  split; [|by apply (mismatches_one lay p2 Hlay inputs deint st)].
  apply (speech_decode_one lay p2 Hlay junk b0 inputs deint st); try done; [lia|].
  intros q Hqn. rewrite Hq, app_nth1 by lia. done.
Qed.

(** The parts of a decoded frame. *)
Lemma frame_parts b0 b1 b2 parity :
  take (length b0 + length b1 + length b2) (b0 ++ speech_inputs b1 b2 parity) = b0 ++ b1 ++ b2 /\
  drop (length b0 + length b1) (b0 ++ speech_inputs b1 b2 parity) = b2 ++ parity ++ replicate 4 0 /\
  drop (length b0) (b0 ++ speech_inputs b1 b2 parity) = speech_inputs b1 b2 parity.
Proof.
  unfold speech_inputs. split; [|split].
  - rewrite !app_assoc. rewrite <- (app_assoc _ parity), take_app_length'; [done|]. rewrite !length_app. lia.
  - rewrite app_assoc. apply drop_app_length'. by rewrite length_app.
  - by apply drop_app_length'.
Qed.

Lemma full_decode_eq junk deint type2 : speech_decode junk k_speech_full deint = type2 ->
  tetra_speech_full_decode junk deint =
  (take 274 type2, speech_full_crc_ok (drop 214 type2), speech_mismatches k_speech_full deint (drop 102 type2)).
Proof. intros <-. reflexivity. Qed.

Lemma half_decode_eq junk deint type2 : speech_decode junk k_speech_half deint = type2 ->
  tetra_speech_half_decode junk deint =
  (take 137 type2, speech_half_crc_ok (drop 107 type2), speech_mismatches k_speech_half deint (drop 51 type2)).
Proof. intros <-. reflexivity. Qed.

(** C30: A TETRA speech frame comes back whole though any one of its coded bits
    is received wrong or not at all: the three classes of bits, a check that
    passes and at most one mismatch with the re-encoded frame; for full-slot
    frames and for half-slot frames. *)
Theorem speech_frames_recovered junk b0 b1 b2 deint st : bits b0 -> bits b1 -> bits b2 ->
  (TETRA_VITERBI_MAX_BITS * TETRA_VITERBI_STATES <= length junk)%nat ->
  (length b0 = 102%nat -> length b1 = 112%nat -> length b2 = 60%nat ->
   all_but_one k_speech_full (speech_transmit k_speech_full b0 (speech_inputs b1 b2 (full_parity b2))) deint st ->
   exists mismatches, tetra_speech_full_decode junk deint = (b0 ++ b1 ++ b2, true, mismatches) /\ 0 <= mismatches <= 1) /\
  (length b0 = 51%nat -> length b1 = 56%nat -> length b2 = 30%nat ->
   all_but_one k_speech_half (speech_transmit k_speech_half b0 (speech_inputs b1 b2 (half_parity b2))) deint st ->
   exists mismatches, tetra_speech_half_decode junk deint = (b0 ++ b1 ++ b2, true, mismatches) /\ 0 <= mismatches <= 1).
Proof.
  intros B0 B1 B2 Hj. destruct (parity_spec b2) as ((LF & BF) & LH & BH). split; intros L0 L1 L2 Hd.
  - destruct (speech_inputs_spec b1 b2 (full_parity b2) B1 B2 BF) as (Bi & Li & Hi). cbv zeta in Bi, Li, Hi. rewrite L1, L2, LF in Li, Hi.
    destruct (speech_received _ _ junk b0 _ deint st full_layout_ok B0 L0 Bi Li Hi Hj Hd) as [E M].
    rewrite (full_decode_eq junk deint _ E). destruct (frame_parts b0 b1 b2 (full_parity b2)) as (F1 & F2 & F3). rewrite L0, L1 in F2. rewrite L0 in F3.
    rewrite L0, L1, L2 in F1. change (102 + 112 + 60)%nat with 274%nat in F1. change (102 + 112)%nat with 214%nat in F2.
    rewrite F1, F2, F3, full_crc_passes by done. by eexists.
  - destruct (speech_inputs_spec b1 b2 (half_parity b2) B1 B2 BH) as (Bi & Li & Hi). cbv zeta in Bi, Li, Hi. rewrite L1, L2, LH in Li, Hi.
    destruct (speech_received _ _ junk b0 _ deint st half_layout_ok B0 L0 Bi Li Hi Hj Hd) as [E M].
    rewrite (half_decode_eq junk deint _ E). destruct (frame_parts b0 b1 b2 (half_parity b2)) as (F1 & F2 & F3). rewrite L0, L1 in F2. rewrite L0 in F3.
    rewrite L0, L1, L2 in F1. change (51 + 56 + 30)%nat with 137%nat in F1. change (51 + 56)%nat with 107%nat in F2.
    rewrite F1, F2, F3, half_crc_passes by done. by eexists.
Qed.

Lemma speech_transmit_length lay p2 b0 inputs : layout_ok lay p2 -> length b0 = class0 lay ->
  length (speech_transmit lay b0 inputs) = l_coded lay.
Proof.
  intros Hlay L0. unfold speech_transmit. destruct (recode_spec lay p2 Hlay inputs) as [L _]. cbv zeta in L.
  rewrite length_app, L, L0. apply (lay_coded _ _ Hlay).
Qed.

Lemma speech_frames_recovered_witness :
  let b0 := sample_message 102 in let b1 := sample_message 112 in let b2 := sample_message 60 in
  let sent := sure (speech_transmit k_speech_full b0 (speech_inputs b1 b2 (full_parity b2))) in
  exists mismatches, tetra_speech_full_decode (replicate 8192 3) (sample_received sent 200 1) = (b0 ++ b1 ++ b2, true, mismatches) /\ 0 <= mismatches <= 1.
Proof.
  intros b0 b1 b2 sent.
  assert (Bs : forall n, bits (sample_message n)) by (intros n; apply Forall_fmap, Forall_true; intros i; unfold is_bit, compose; lia).
  assert (Hj : (TETRA_VITERBI_MAX_BITS * TETRA_VITERBI_STATES <= length (replicate 8192 3))%nat) by (by rewrite length_replicate).
  assert (L : length sent = 432%nat)
    by (unfold sent, sure; rewrite length_map; exact (speech_transmit_length _ _ _ _ full_layout_ok (eq_refl : length b0 = 102%nat))).
  refine (proj1 (speech_frames_recovered (replicate 8192 3) b0 b1 b2 (sample_received sent 200 1) 200 (Bs _) (Bs _) (Bs _) Hj) eq_refl eq_refl eq_refl _).
  split; [|split; [|split]].
  - apply sample_received_cost, sure_cost, Forall_app. split; [apply Bs|apply (recode_bits _ _ full_layout_ok)].
  - unfold sample_received. by rewrite length_map, length_seq.
  - cbn. lia.
  - intros q Hq Hn. change (l_coded k_speech_full) with 432%nat in Hq. rewrite sample_received_spec by lia. apply sure_nth.
Defined.
