(* ===== verification/NxdnFec.v ===== *)
(** * NXDN channel coding

    [protocol/nxdn/nxdn_convolution.c] (the Viterbi decoder of the rate 1/2,
    constraint length 5 code; its tables, metrics and decisions are the file's
    statics, which M17 shares), the step by step decoder [trellis_decode] of
    [core/util/dsd_misc.c] used when the former's guess fails its check, and
    the channel halves of [nxdn_deperm.c] and [nxdn_dcr_utils.c]: interleaving,
    puncturing, the checks and the decoders of the seven channels up to the
    handler they call. *)
From S2P Require Import Prelude BitPacking.

(** ** [nxdn_convolution.c] *)

Definition BRANCH_TABLE1 : list Z := [0; 0; 0; 0; 2; 2; 2; 2].
Definition BRANCH_TABLE2 : list Z := [0; 2; 2; 0; 0; 2; 2; 0].
Definition NUM_OF_STATES_D2 : nat := 8.
Definition CNXDN_M : Z := 4.
Definition CNXDN_K : Z := 5.

Record conv_statics := mk_conv {
  m_metrics1 : list Z;
  m_metrics2 : list Z;
  m_decisions : list Z;
  old_is_1 : bool;          (** [m_oldMetrics == m_metrics1], else [m_metrics2] *)
  m_dp : nat                (** as an index of [m_decisions] *)
}.

Definition m_oldMetrics (c : conv_statics) : list Z := if old_is_1 c then m_metrics1 c else m_metrics2 c.
Definition m_newMetrics (c : conv_statics) : list Z := if old_is_1 c then m_metrics2 c else m_metrics1 c.

Definition CNXDNConvolution_init (c : conv_statics) : conv_statics :=
  mk_conv (replicate 16 0) (replicate 16 0) (replicate (8 * 300) 0) (old_is_1 c) (m_dp c).

Definition CNXDNConvolution_start (c : conv_statics) : conv_statics :=
  mk_conv (m_metrics1 c) (m_metrics2 c) (m_decisions c) true 0.

(** The statics at start up. *)
Definition conv_fresh : conv_statics := CNXDNConvolution_init (mk_conv [] [] [] false 0).

(** Store the new metrics and the word of decisions, and swap. *)
Definition conv_advance (c : conv_statics) (new : list Z) (word : Z) : conv_statics :=
  mk_conv (if old_is_1 c then m_metrics1 c else new) (if old_is_1 c then new else m_metrics2 c)
    (m_decisions c).[m_dp c <- word] (negb (old_is_1 c)) (S (m_dp c)).

Definition CNXDNConvolution_decode (s0 s1 : Z) (c : conv_statics) : conv_statics :=
  let old := m_oldMetrics c in
  let '(new, word) := for_ 0 NUM_OF_STATES_D2 (fun i '(new, word) =>
    let j := (i * 2)%nat in
    let metric := u16 (Z.abs (BRANCH_TABLE1.[i] - s0) + Z.abs (BRANCH_TABLE2.[i] - s1)) in
    let m0 := u16 (old.[i] + metric) in
    let m1 := u16 (old.[(i + NUM_OF_STATES_D2)%nat] + u32 (CNXDN_M - metric)) in
    let decision0 := if m1 <=? m0 then 1 else 0 in
    let new := new.[(j + 0)%nat <- if negb (decision0 =? 0) then m1 else m0] in
    let m0 := u16 (old.[i] + u32 (CNXDN_M - metric)) in
    let m1 := u16 (old.[(i + NUM_OF_STATES_D2)%nat] + metric) in
    let decision1 := if m1 <=? m0 then 1 else 0 in
    let new := new.[(j + 1)%nat <- if negb (decision1 =? 0) then m1 else m0] in
    (new, Z.lor word (Z.lor (Z.shiftl decision1 (Z.of_nat (j + 1))) (Z.shiftl decision0 (Z.of_nat (j + 0))))))
    (m_newMetrics c, 0) in
  conv_advance c new word.

Definition CNXDNConvolution_decode_soft (s0 s1 r0 r1 : Z) (c : conv_statics) : conv_statics :=
  let scale := 128 in
  let full_metric := CNXDN_M * 256 / scale in
  let old := m_oldMetrics c in
  let '(new, word) := for_ 0 NUM_OF_STATES_D2 (fun i '(new, word) =>
    let j := (i * 2)%nat in
    let diff0 := Z.abs (BRANCH_TABLE1.[i] - s0) in
    let diff1 := Z.abs (BRANCH_TABLE2.[i] - s1) in
    let metric := u32 (diff0 * r0 + diff1 * r1) / scale in
    let metric := if full_metric <? metric then full_metric else metric in
    let m0 := u32 (old.[i] + metric) in
    let m1 := u32 (old.[(i + NUM_OF_STATES_D2)%nat] + (full_metric - metric)) in
    let decision0 := if m1 <=? m0 then 1 else 0 in
    let new := new.[(j + 0)%nat <- u16 (if negb (decision0 =? 0) then m1 else m0)] in
    let m0 := u32 (old.[i] + (full_metric - metric)) in
    let m1 := u32 (old.[(i + NUM_OF_STATES_D2)%nat] + metric) in
    let decision1 := if m1 <=? m0 then 1 else 0 in
    let new := new.[(j + 1)%nat <- u16 (if negb (decision1 =? 0) then m1 else m0)] in
    (new, Z.lor word (Z.lor (Z.shiftl decision1 (Z.of_nat (j + 1))) (Z.shiftl decision0 (Z.of_nat (j + 0))))))
    (m_newMetrics c, 0) in
  conv_advance c new word.

Definition BIT_MASK_TABLE : list Z := [0x80; 0x40; 0x20; 0x10; 0x08; 0x04; 0x02; 0x01].

(** [WRITE_BIT1] *)
Definition WRITE_BIT1 (p : list Z) (i : nat) (b : bool) : list Z :=
  let mask := BIT_MASK_TABLE.[(i mod 8)%nat] in
  p.[(i / 8)%nat <- if b then Z.lor (p.[(i / 8)%nat]) mask else u8 (Z.land (p.[(i / 8)%nat]) (Z.lnot mask))].

(** [while (nBits-- > 0)] *)
Fixpoint chainback_loop (nBits : nat) (m_dec : list Z) (dp : nat) (state : Z) (out : list Z) : nat * list Z :=
  match nBits with
  | O => (dp, out)
  | S nBits =>
      let dp := Nat.pred dp in
      let i := Z.shiftr state (9 - CNXDN_K) in
      let bit := Z.land (u8 (Z.shiftr (m_dec.[dp]) i)) 1 in
      let state := Z.lor (Z.shiftl bit 7) (Z.shiftr state 1) in
      chainback_loop nBits m_dec dp state (WRITE_BIT1 out nBits (negb (bit =? 0)))
  end.

Definition CNXDNConvolution_chainback (out : list Z) (nBits : nat) (c : conv_statics) : conv_statics * list Z :=
  let '(dp, out) := chainback_loop nBits (m_decisions c) (m_dp c) 0 out in
  (mk_conv (m_metrics1 c) (m_metrics2 c) (m_decisions c) (old_is_1 c) dp, out).

(** ** [core/util/dsd_misc.c] *)

Definition PARITY : list Z :=
  [0; 1; 1; 0; 1; 0; 0; 1; 1; 0; 0; 1; 0; 1; 1; 0; 1; 0; 0; 1; 0; 1; 1; 0; 0; 1; 1; 0; 1; 0; 0; 1].

(** [for (i = 0; i < result_len; i += 2)], [k = i >> 1] *)
Definition trellis_encode (result source : list Z) (result_len : nat) (reg : Z) : list Z :=
  snd (for_ 0 (Nat.div2 (S result_len)) (fun k '(reg, result) =>
    let reg := Z.land (Z.lor (Z.shiftl reg 1) (source.[k])) 0x1F in
    let result := result.[(2 * k)%nat <- PARITY.[Z.to_nat (Z.land reg 0x19)]] in
    (reg, result.[(2 * k + 1)%nat <- PARITY.[Z.to_nat (Z.land reg 0x17)]])) (reg, result)).

Definition NTEST : nat := 4.
Definition NTESTC : nat := 16.

(** The four bits of a candidate. *)
Definition candidate_bits (i : nat) : list Z :=
  let i := Z.of_nat i in
  [Z.shiftr (Z.land i 8) 3; Z.shiftr (Z.land i 4) 2; Z.shiftr (Z.land i 2) 1; Z.land i 1].

(** [bt] and [tt] are overwritten whole for each candidate. *)
Definition trellis_decode (result source : list Z) (result_len : nat) : list Z :=
  let '(_, _, _, result) := for_ 0 result_len (fun p '(reg, min_d, min_bt, result) =>
    let '(min_d, min_bt) := for_ 0 NTESTC (fun i '(min_d, min_bt) =>
      let bt := candidate_bits i in
      let tt := trellis_encode (replicate (NTEST * 2) 0) bt (NTEST * 2) reg in
      let sum := for_ 0 (NTEST * 2) (fun j sum => sum + Z.lxor (tt.[j]) (source.[(p * 2 + j)%nat])) 0 in
      if (i =? 0)%nat || (sum <? min_d) then (sum, bt.[0%nat]) else (min_d, min_bt)) (min_d, min_bt) in
    let result := result.[p <- min_bt] in
    (Z.land (Z.lor (Z.shiftl reg 1) min_bt) 0x1F, min_d, min_bt, result)) (0, 9999, 0, result) in
  result.

(** ** [nxdn_deperm.c]: interleaving and puncturing

    Each routine fills a buffer of bits and one of reliabilities. *)

Definition nxdn_depermute_rel (input reliab : list Z) (len : nat) (perm : list Z) (deperm deperm_rel : list Z)
  : list Z * list Z :=
  for_ 0 len (fun i '(deperm, deperm_rel) =>
    (deperm.[Z.to_nat (perm.[i]) <- input.[i]], deperm_rel.[Z.to_nat (perm.[i]) <- reliab.[i]])) (deperm, deperm_rel).

(** The same on a table of octets. *)
Definition nxdn_depermute_rel_u8 := nxdn_depermute_rel.

(** One entry of a puncturing map: 0xFF for a bit that was not sent. *)
Definition depuncture_entry (deperm deperm_rel : list Z) (base : nat) (m : Z) (out : nat) (b : list Z * list Z) : list Z * list Z :=
  if m =? 0xFF then ((fst b).[out <- 0], (snd b).[out <- 0])
  else ((fst b).[out <- deperm.[(base + Z.to_nat m)%nat]], (snd b).[out <- deperm_rel.[(base + Z.to_nat m)%nat]]).

(** [groups] times the map, [stride] received bits each. *)
Definition depuncture_groups (map : list Z) (stride groups : nat) (deperm deperm_rel : list Z) (b : list Z * list Z)
  : list Z * list Z :=
  snd (for_ 0 groups (fun k s => for_ 0 (length map) (fun i '(out, b) =>
    (S out, depuncture_entry deperm deperm_rel (k * stride) (map.[i]) out b)) s) (0%nat, b)).

Definition map_12_5 : list Z := [0; 1; 2; 3; 4; 0xFF; 5; 6; 7; 8; 9; 0xFF].
Definition nxdn_depuncture_12_5_rel (deperm deperm_rel depunc depunc_rel : list Z) : list Z * list Z :=
  depuncture_groups map_12_5 10 6 deperm deperm_rel (depunc, depunc_rel).

(** The body of the loop spells out four entries. *)
Definition nxdn_depuncture_16_9_rel (deperm deperm_rel depunc depunc_rel : list Z) : list Z * list Z :=
  snd (for_ 0 48 (fun k '(out, (depunc, depunc_rel)) =>
    let i := (k * 3)%nat in
    let depunc := depunc.[out <- deperm.[(i + 0)%nat]] in
    let depunc_rel := depunc_rel.[out <- deperm_rel.[(i + 0)%nat]] in
    let out := S out in
    let depunc := depunc.[out <- 0] in
    let depunc_rel := depunc_rel.[out <- 0] in
    let out := S out in
    let depunc := depunc.[out <- deperm.[(i + 1)%nat]] in
    let depunc_rel := depunc_rel.[out <- deperm_rel.[(i + 1)%nat]] in
    let out := S out in
    let depunc := depunc.[out <- deperm.[(i + 2)%nat]] in
    let depunc_rel := depunc_rel.[out <- deperm_rel.[(i + 2)%nat]] in
    (S out, (depunc, depunc_rel))) (0%nat, (depunc, depunc_rel))).

Definition map_12_group : list Z := [0; 1; 2; 0xFF; 3; 4; 5; 6; 7; 8; 9; 0xFF; 10; 11].
Definition nxdn_depuncture_12_group_rel (deperm deperm_rel : list Z) (groups : nat) (depunc depunc_rel : list Z)
  : list Z * list Z :=
  depuncture_groups map_12_group 12 groups deperm deperm_rel (depunc, depunc_rel).

Definition nxdn_conv_decode_soft (depunc depunc_rel : list Z) (depunc_len : nat) (m_data : list Z) (chainback_bits : nat)
    (c : conv_statics) : conv_statics * list Z :=
  let c := for_ 0 (depunc_len / 2) (fun i c =>
    let s0 := u8 (Z.shiftl (depunc.[(i * 2)%nat]) 1) in
    let s1 := u8 (Z.shiftl (depunc.[(i * 2 + 1)%nat]) 1) in
    let r0 := depunc_rel.[(i * 2)%nat] in
    let r1 := depunc_rel.[(i * 2 + 1)%nat] in
    CNXDNConvolution_decode_soft s0 s1 r0 r1 c) (CNXDNConvolution_start c) in
  CNXDNConvolution_chainback m_data chainback_bits c.

(** The loop of the decoders of [m17.c], on hard bits. *)
Definition m17_conv_decode (m17_depunc : list Z) (steps : nat) (m_data : list Z) (nBits : nat) (c : conv_statics)
  : conv_statics * list Z :=
  let c := for_ 0 steps (fun i c =>
    let s0 := u8 (Z.shiftl (m17_depunc.[(2 * i)%nat]) 1) in
    let s1 := u8 (Z.shiftl (m17_depunc.[(2 * i + 1)%nat]) 1) in
    CNXDNConvolution_decode s0 s1 c) (CNXDNConvolution_start c) in
  CNXDNConvolution_chainback m_data nBits c.

(** The first [m_data_bytes] octets of [m_data] are cleared and packed. *)
Definition nxdn_hard_fallback_decode (trellis_size : nat) (m_data : list Z) (m_data_bytes : nat) (depunc : list Z)
    (chainback_bits : nat) : list Z * list Z :=
  let trellis_buf := trellis_decode (replicate trellis_size 0) depunc chainback_bits in
  let m_data := blit m_data 0 (replicate m_data_bytes 0) in
  (trellis_buf, default m_data (fst (dsd_pack_bits_to_bytes (Some trellis_buf) trellis_size (Some m_data) m_data_bytes m_data_bytes))).

(** [DSD_UNPACK_ARRAY_TO_BITS(m_data, trellis_buf, n)] *)
Definition unpack_array (m_data trellis_buf : list Z) (n : nat) : list Z :=
  default trellis_buf (fst (dsd_unpack_bytes_to_bits (Some m_data) (length m_data) (Some trellis_buf) (length trellis_buf) n)).

(** ** The interleaving tables of [nxdn_const.h] *)

Definition PERM_12_5 : list Z := [
    0; 12; 24; 36; 48; 1; 13; 25; 37; 49; 2; 14; 26; 38; 50; 3; 15; 27; 39; 51; 4; 16; 28; 40; 52; 5; 17; 29; 41; 53;
    6; 18; 30; 42; 54; 7; 19; 31; 43; 55; 8; 20; 32; 44; 56; 9; 21; 33; 45; 57; 10; 22; 34; 46; 58; 11; 23; 35; 47;
    59].

Definition PERM_16_9 : list Z := [
    0; 16; 32; 48; 64; 80; 96; 112; 128; 1; 17; 33; 49; 65; 81; 97; 113; 129; 2; 18; 34; 50; 66; 82; 98; 114; 130; 3;
    19; 35; 51; 67; 83; 99; 115; 131; 4; 20; 36; 52; 68; 84; 100; 116; 132; 5; 21; 37; 53; 69; 85; 101; 117; 133; 6;
    22; 38; 54; 70; 86; 102; 118; 134; 7; 23; 39; 55; 71; 87; 103; 119; 135; 8; 24; 40; 56; 72; 88; 104; 120; 136; 9;
    25; 41; 57; 73; 89; 105; 121; 137; 10; 26; 42; 58; 74; 90; 106; 122; 138; 11; 27; 43; 59; 75; 91; 107; 123; 139;
    12; 28; 44; 60; 76; 92; 108; 124; 140; 13; 29; 45; 61; 77; 93; 109; 125; 141; 14; 30; 46; 62; 78; 94; 110; 126;
    142; 15; 31; 47; 63; 79; 95; 111; 127; 143].

Definition PERM_12_25 : list Z := [
    0; 12; 24; 36; 48; 60; 72; 84; 96; 108; 120; 132; 144; 156; 168; 180; 192; 204; 216; 228; 240; 252; 264; 276; 288;
    1; 13; 25; 37; 49; 61; 73; 85; 97; 109; 121; 133; 145; 157; 169; 181; 193; 205; 217; 229; 241; 253; 265; 277; 289;
    2; 14; 26; 38; 50; 62; 74; 86; 98; 110; 122; 134; 146; 158; 170; 182; 194; 206; 218; 230; 242; 254; 266; 278; 290;
    3; 15; 27; 39; 51; 63; 75; 87; 99; 111; 123; 135; 147; 159; 171; 183; 195; 207; 219; 231; 243; 255; 267; 279; 291;
    4; 16; 28; 40; 52; 64; 76; 88; 100; 112; 124; 136; 148; 160; 172; 184; 196; 208; 220; 232; 244; 256; 268; 280;
    292; 5; 17; 29; 41; 53; 65; 77; 89; 101; 113; 125; 137; 149; 161; 173; 185; 197; 209; 221; 233; 245; 257; 269;
    281; 293; 6; 18; 30; 42; 54; 66; 78; 90; 102; 114; 126; 138; 150; 162; 174; 186; 198; 210; 222; 234; 246; 258;
    270; 282; 294; 7; 19; 31; 43; 55; 67; 79; 91; 103; 115; 127; 139; 151; 163; 175; 187; 199; 211; 223; 235; 247;
    259; 271; 283; 295; 8; 20; 32; 44; 56; 68; 80; 92; 104; 116; 128; 140; 152; 164; 176; 188; 200; 212; 224; 236;
    248; 260; 272; 284; 296; 9; 21; 33; 45; 57; 69; 81; 93; 105; 117; 129; 141; 153; 165; 177; 189; 201; 213; 225;
    237; 249; 261; 273; 285; 297; 10; 22; 34; 46; 58; 70; 82; 94; 106; 118; 130; 142; 154; 166; 178; 190; 202; 214;
    226; 238; 250; 262; 274; 286; 298; 11; 23; 35; 47; 59; 71; 83; 95; 107; 119; 131; 143; 155; 167; 179; 191; 203;
    215; 227; 239; 251; 263; 275; 287; 299].

Definition PERM_12_29 : list Z := [
    0; 12; 24; 36; 48; 60; 72; 84; 96; 108; 120; 132; 144; 156; 168; 180; 192; 204; 216; 228; 240; 252; 264; 276; 288;
    300; 312; 324; 336; 1; 13; 25; 37; 49; 61; 73; 85; 97; 109; 121; 133; 145; 157; 169; 181; 193; 205; 217; 229; 241;
    253; 265; 277; 289; 301; 313; 325; 337; 2; 14; 26; 38; 50; 62; 74; 86; 98; 110; 122; 134; 146; 158; 170; 182; 194;
    206; 218; 230; 242; 254; 266; 278; 290; 302; 314; 326; 338; 3; 15; 27; 39; 51; 63; 75; 87; 99; 111; 123; 135; 147;
    159; 171; 183; 195; 207; 219; 231; 243; 255; 267; 279; 291; 303; 315; 327; 339; 4; 16; 28; 40; 52; 64; 76; 88;
    100; 112; 124; 136; 148; 160; 172; 184; 196; 208; 220; 232; 244; 256; 268; 280; 292; 304; 316; 328; 340; 5; 17;
    29; 41; 53; 65; 77; 89; 101; 113; 125; 137; 149; 161; 173; 185; 197; 209; 221; 233; 245; 257; 269; 281; 293; 305;
    317; 329; 341; 6; 18; 30; 42; 54; 66; 78; 90; 102; 114; 126; 138; 150; 162; 174; 186; 198; 210; 222; 234; 246;
    258; 270; 282; 294; 306; 318; 330; 342; 7; 19; 31; 43; 55; 67; 79; 91; 103; 115; 127; 139; 151; 163; 175; 187;
    199; 211; 223; 235; 247; 259; 271; 283; 295; 307; 319; 331; 343; 8; 20; 32; 44; 56; 68; 80; 92; 104; 116; 128;
    140; 152; 164; 176; 188; 200; 212; 224; 236; 248; 260; 272; 284; 296; 308; 320; 332; 344; 9; 21; 33; 45; 57; 69;
    81; 93; 105; 117; 129; 141; 153; 165; 177; 189; 201; 213; 225; 237; 249; 261; 273; 285; 297; 309; 321; 333; 345;
    10; 22; 34; 46; 58; 70; 82; 94; 106; 118; 130; 142; 154; 166; 178; 190; 202; 214; 226; 238; 250; 262; 274; 286;
    298; 310; 322; 334; 346; 11; 23; 35; 47; 59; 71; 83; 95; 107; 119; 131; 143; 155; 167; 179; 191; 203; 215; 227;
    239; 251; 263; 275; 287; 299; 311; 323; 335; 347].

(** ** The checks

    Shift registers held as arrays of bits, first bit out first. *)

Definition crc6 (buf : list Z) (len : nat) : Z :=
  convert_bits_into_output (for_ 0 len (fun i s =>
    let a := Z.lxor (buf.[i]) (s.[0%nat]) in
    [Z.lxor a (s.[1%nat]); s.[2%nat]; s.[3%nat]; Z.lxor a (s.[4%nat]); Z.lxor a (s.[5%nat]); a]) (replicate 6 1)) 6.

Definition crc7_scch (bits : list Z) (len : nat) : Z :=
  convert_bits_into_output (for_ 0 len (fun i s =>
    let a := Z.lxor (bits.[i]) (s.[0%nat]) in
    [s.[1%nat]; s.[2%nat]; s.[3%nat]; Z.lxor a (s.[4%nat]); s.[5%nat]; s.[6%nat]; a]) (replicate 7 1)) 7.

Definition crc12f (buf : list Z) (len : nat) : Z :=
  convert_bits_into_output (for_ 0 len (fun i s =>
    let a := Z.lxor (buf.[i]) (s.[0%nat]) in
    [Z.lxor a (s.[1%nat]); s.[2%nat]; s.[3%nat]; s.[4%nat]; s.[5%nat]; s.[6%nat]; s.[7%nat]; s.[8%nat];
     Z.lxor a (s.[9%nat]); Z.lxor a (s.[10%nat]); Z.lxor a (s.[11%nat]); a]) (replicate 12 1)) 12.

Definition crc15 (buf : list Z) (len : nat) : Z :=
  convert_bits_into_output (for_ 0 len (fun i s =>
    let a := Z.lxor (buf.[i]) (s.[0%nat]) in
    [Z.lxor a (s.[1%nat]); s.[2%nat]; s.[3%nat]; Z.lxor a (s.[4%nat]); Z.lxor a (s.[5%nat]); s.[6%nat]; s.[7%nat];
     Z.lxor a (s.[8%nat]); Z.lxor a (s.[9%nat]); s.[10%nat]; s.[11%nat]; s.[12%nat]; Z.lxor a (s.[13%nat]);
     s.[14%nat]; a]) (replicate 15 1)) 15.

Definition crc16cac (buf : list Z) (len : nat) : Z :=
  let poly := Z.shiftl 1 12 + Z.shiftl 1 5 + 1 in
  let crc := for_ 0 len (fun i crc =>
    let crc := Z.land (Z.lor (u32 (Z.shiftl crc 1)) (buf.[i])) 0x1ffff in
    if negb (Z.land crc 0x10000 =? 0) then Z.lxor (Z.land crc 0xffff) poly else crc) 0xc3ee in
  Z.land (Z.lxor crc 0xffff) 0xffff.

Definition nxdn_scch_crc7_check_from_trellis (trellis_bits : list Z) : Z := convert_bits_into_output (drop 25 trellis_bits) 7.
Definition nxdn_facch_crc12_payload_from_trellis (trellis_bits : list Z) : Z := crc12f trellis_bits 80.
Definition nxdn_facch_crc12_check_from_trellis (trellis_bits : list Z) : Z := convert_bits_into_output (drop 80 trellis_bits) 12.
Definition nxdn_facch2_udch_crc15_payload_from_trellis (trellis_bits : list Z) : Z := crc15 trellis_bits 184.
Definition nxdn_facch2_udch_crc15_check_from_trellis (trellis_bits : list Z) : Z :=
  convert_bits_into_output (drop 184 trellis_bits) 15.

(** ** The channels

    What a channel's decoder hands to its handler: the bits, the octets, the
    check computed and the check received. *)
Record channel := mk_channel { trellis_buf : list Z; m_data : list Z; crc : Z; check : Z }.

Definition good (ch : channel) : bool := crc ch =? check ch.

Notation ff n := (replicate n 255).

(** The soft decoding of a channel, then the fallback when its check fails;
    [sum] and [sent] compute the two checks from the bits. *)
Definition soft_then_fallback (sum sent : list Z -> Z) (depunc depunc_rel m_data : list Z) (bytes bits_len nbits : nat)
    (c : conv_statics) : conv_statics * channel :=
  let '(c, m_data) := nxdn_conv_decode_soft depunc depunc_rel (length depunc) m_data nbits c in
  let trellis_buf := unpack_array m_data (replicate bits_len 0) bytes in
  if negb (sum trellis_buf =? sent trellis_buf) then
    let '(trellis_buf, m_data) := nxdn_hard_fallback_decode bits_len m_data bytes depunc nbits in
    (c, mk_channel trellis_buf m_data (sum trellis_buf) (sent trellis_buf))
  else (c, mk_channel trellis_buf m_data (sum trellis_buf) (sent trellis_buf)).

(** [nxdn_deperm_sacch_soft] and [nxdn_deperm_sacch2_soft]. *)
Definition sacch_decode (bits reliab : list Z) (c : conv_statics) : conv_statics * channel :=
  let '(deperm, deperm_rel) := nxdn_depermute_rel_u8 bits reliab 60 PERM_12_5 (replicate 60 0) (ff 60) in
  let '(depunc, depunc_rel) := nxdn_depuncture_12_5_rel deperm deperm_rel (replicate 72 0) (ff 72) in
  soft_then_fallback (fun t => crc6 t 26) (fun t => u8 (convert_bits_into_output (drop 26 t) 6))
    depunc depunc_rel (replicate 5 0) 4 32 32 c.

(** [nxdn_deperm_scch_soft]. *)
Definition scch_decode (bits reliab : list Z) (c : conv_statics) : conv_statics * channel :=
  let '(deperm, deperm_rel) := nxdn_depermute_rel_u8 bits reliab 60 PERM_12_5 (replicate 60 0) (ff 60) in
  let '(depunc, depunc_rel) := nxdn_depuncture_12_5_rel deperm deperm_rel (replicate 72 0) (ff 72) in
  soft_then_fallback (fun t => crc7_scch t 25) nxdn_scch_crc7_check_from_trellis
    depunc depunc_rel (replicate 5 0) 4 32 32 c.

(** [nxdn_deperm_facch_soft] and [nxdn_deperm_pich_tch_soft], with 20 octets,
    and a block of [nxdn_deperm_facch3_udch2_soft], with 12. *)
Definition facch_decode (octets : nat) (bits reliab : list Z) (c : conv_statics) : conv_statics * channel :=
  let '(deperm, deperm_rel) := nxdn_depermute_rel_u8 bits reliab 144 PERM_16_9 (replicate 144 0) (ff 144) in
  let '(depunc, depunc_rel) := nxdn_depuncture_16_9_rel deperm deperm_rel (replicate 192 0) (ff 192) in
  soft_then_fallback nxdn_facch_crc12_payload_from_trellis nxdn_facch_crc12_check_from_trellis
    depunc depunc_rel (replicate octets 0) 12 96 92 c.

(** [nxdn_deperm_facch2_udch_soft]. *)
Definition facch2_udch_decode (bits reliab : list Z) (c : conv_statics) : conv_statics * channel :=
  let '(deperm, deperm_rel) := nxdn_depermute_rel bits reliab 348 PERM_12_29 (replicate 348 0) (ff 348) in
  let '(depunc, depunc_rel) := nxdn_depuncture_12_group_rel deperm deperm_rel 29 (replicate 406 0) (ff 406) in
  soft_then_fallback nxdn_facch2_udch_crc15_payload_from_trellis nxdn_facch2_udch_crc15_check_from_trellis
    depunc depunc_rel (replicate 26 0) 26 208 199 c.

(** [nxdn_deperm_cac_soft]: the check is a remainder that has to vanish. *)
Definition cac_decode (bits reliab : list Z) (c : conv_statics) : conv_statics * channel :=
  let '(deperm, deperm_rel) := nxdn_depermute_rel bits reliab 300 PERM_12_25 (replicate 300 0) (ff 300) in
  let '(depunc, depunc_rel) := nxdn_depuncture_12_group_rel deperm deperm_rel 25 (replicate 350 0) (ff 350) in
  soft_then_fallback (fun t => crc16cac t 171) (fun _ => 0) depunc depunc_rel (replicate 22 0) 22 176 171 c.

(** The two blocks of [nxdn_deperm_facch3_udch2_soft] ([block]s of 144 bits). *)
Record nxdn_facch3_udch2_message := mk_message { msg_bits : list Z; msg_bytes : list Z; msg_crc : list Z; msg_check : list Z }.

Definition nxdn_store_facch3_udch2_block (message : nxdn_facch3_udch2_message) (block : nat) (trellis_buf m_data : list Z)
  : nxdn_facch3_udch2_message :=
  mk_message (for_ 0 80 (fun i b => b.[(i + block * 80)%nat <- trellis_buf.[i]]) (msg_bits message))
    (for_ 0 12 (fun i b => b.[(i + block * 12)%nat <- m_data.[i]]) (msg_bytes message)) (msg_crc message) (msg_check message).

Definition nxdn_decode_facch3_udch2_block_soft (bits reliab : list Z) (block : nat) (message : nxdn_facch3_udch2_message)
    (c : conv_statics) : conv_statics * nxdn_facch3_udch2_message :=
  let offset := (block * 144)%nat in
  let '(c, ch) := facch_decode 12 (drop offset bits) (drop offset reliab) c in
  let message := mk_message (msg_bits message) (msg_bytes message) (msg_crc message).[block <- crc ch]
    (msg_check message).[block <- check ch] in
  (c, nxdn_store_facch3_udch2_block message block (trellis_buf ch) (m_data ch)).

Definition facch3_udch2_decode (bits reliab : list Z) (c : conv_statics) : conv_statics * nxdn_facch3_udch2_message :=
  for_ 0 2 (fun block '(c, message) => nxdn_decode_facch3_udch2_block_soft bits reliab block message c)
    (c, mk_message (replicate 160 0) (replicate 24 0) [0; 0] [0; 0]).

Definition nxdn_facch3_udch2_crc_ok (message : nxdn_facch3_udch2_message) : bool :=
  ((msg_crc message).[0%nat] =? (msg_check message).[0%nat]) && ((msg_crc message).[1%nat] =? (msg_check message).[1%nat]).
