(* ===== verification/NxdnClean.v ===== *)
(** * NXDN: what the fallback decoder recovers

    The step by step decoder looks four input bits ahead and keeps the first
    bit of the nearest candidate.  For each puncturing scheme, when nothing was
    hit on the way, that bit is the one sent: a clean frame that the soft
    decoder does not get past its own check is decoded to what was sent
    ([clean_frames_recovered]).  A FACCH3 or UDCH2 is two such frames, and its
    message their contents one after the other. *)
From S2P Require Import Prelude BitPacking NxdnFec.

(** ** The encoder *)

(** The register before input bit [k]. *)
Fixpoint reg_at (source : list Z) (reg : Z) (k : nat) : Z :=
  match k with
  | O => reg
  | S k => Z.land (Z.lor (Z.shiftl (reg_at source reg k) 1) (source.[k])) 0x1F
  end.

(** Coded bit [q]. *)
Definition coded_bit (source : list Z) (reg : Z) (q : nat) : Z :=
  PARITY.[Z.to_nat (Z.land (reg_at source reg (S (q / 2))) (if (q mod 2 =? 0)%nat then 0x19 else 0x17))].

Lemma trellis_encode_spec result source n reg : (2 * n <= length result)%nat ->
  let r := trellis_encode result source (2 * n) reg in
  length r = length result /\
  forall q, r.[q] = if decide (q < 2 * n)%nat then coded_bit source reg q else result.[q].
Proof.
  intros Hl. unfold trellis_encode. replace (Nat.div2 (S (2 * n))) with n by (pose proof (Nat.div2_odd (S (2 * n))); pose proof (Nat.div2_succ_double n); lia).
  set (f := fun k '(reg, result) => _).
  enough (H : let '(g, r) := for_ 0 n f (reg, result) in g = reg_at source reg n /\ length r = length result /\
    forall q, r.[q] = if decide (q < 2 * n)%nat then coded_bit source reg q else result.[q]).
  { destruct (for_ 0 n f (reg, result)) as [g r]. apply H. }
  induction n as [|n IH].
  - rewrite for_nil by lia. split; [done|]. split; [done|]. intros q. by destruct (decide _); [lia|].
  - rewrite for_S by lia. specialize (IH ltac:(lia)). destruct (for_ 0 n f (reg, result)) as [g r]. destruct IH as (-> & L & H).
    unfold f. split; [done|]. split; [by rewrite !length_insert|]. intros q. rewrite !nth_insert, length_insert, L, H.
    unfold coded_bit. destruct (decide (2 * n + 1 = q /\ _)%nat) as [[<- _]|N1].
    { rewrite decide_True by lia. replace ((2 * n + 1) / 2)%nat with n by (apply (Nat.div_unique _ 2 n 1); lia).
      replace ((2 * n + 1) mod 2)%nat with 1%nat by (apply (Nat.mod_unique _ 2 n 1); lia). done. }
    destruct (decide (2 * n = q /\ _)%nat) as [[<- _]|N2].
    { rewrite decide_True by lia. replace (2 * n / 2)%nat with n by (apply (Nat.div_unique _ 2 n 0); lia).
      replace (2 * n mod 2)%nat with 0%nat by (apply (Nat.mod_unique _ 2 n 0); lia). done. }
    destruct (decide (q < 2 * n)%nat), (decide (q < 2 * S n)%nat); lia || done.
Qed.

(** The encoder of a window starts with the register reached. *)
Lemma reg_at_window source reg p k bt : (forall j, (j < k)%nat -> bt.[j] = source.[(p + j)%nat]) ->
  reg_at bt (reg_at source reg p) k = reg_at source reg (p + k).
Proof.
  intros H. induction k as [|k IH]; [by rewrite Nat.add_0_r|]. rewrite Nat.add_succ_r. cbn [reg_at].
  rewrite IH by (intros; apply H; lia). by rewrite H by lia.
Qed.

Lemma coded_bit_window source reg p n q bt : (forall j, (j < n)%nat -> bt.[j] = source.[(p + j)%nat]) -> (q < 2 * n)%nat ->
  coded_bit bt (reg_at source reg p) q = coded_bit source reg (2 * p + q).
Proof.
  intros H Hq. unfold coded_bit. replace ((2 * p + q) / 2)%nat with (p + q / 2)%nat by (rewrite Nat.mul_comm, Nat.div_add_l; lia).
  replace ((2 * p + q) mod 2)%nat with (q mod 2)%nat by (rewrite Nat.mul_comm, Nat.add_comm, Nat.Div0.mod_add; lia).
  assert (q / 2 < n)%nat by (apply Nat.Div0.div_lt_upper_bound; lia).
  rewrite reg_at_window by (intros; apply H; lia). by rewrite Nat.add_succ_r.
Qed.

Lemma reg_at_range source reg k : bits source -> 0 <= reg < 32 -> 0 <= reg_at source reg k < 32.
Proof.
  intros Hs Hr. destruct k as [|k]; [done|]. cbn [reg_at]. change 31 with (Z.ones 5). rewrite Z.land_ones by lia.
  apply Z.mod_pos_bound. lia.
Qed.

(** ** One step of the decoder *)

(** The search over the candidates, given their distances. *)
Definition pick (D : nat -> Z) (s : Z * Z) : Z * Z :=
  for_ 0 NTESTC (fun i '(min_d, min_bt) =>
    if (i =? 0)%nat || (D i <? min_d) then (D i, (candidate_bits i).[0%nat]) else (min_d, min_bt)) s.

Lemma pick_ext D E s s' : (forall i, (i < NTESTC)%nat -> D i = E i) -> pick D s = pick E s'.
Proof.
  intros H. unfold pick. change NTESTC with (S 15). rewrite !(for_first 15). destruct s as [a b], s' as [a' b'].
  rewrite H by (unfold NTESTC; lia). apply for_ext. intros i [m t] Hi. by rewrite H by (unfold NTESTC; lia).
Qed.

Definition distance8 (tt c : list Z) : Z := for_ 0 (NTEST * 2) (fun j sum => sum + Z.lxor (tt.[j]) (c.[j])) 0.
Definition candidate_words (reg : Z) : list (list Z) :=
  map (fun i => trellis_encode (replicate (NTEST * 2) 0) (candidate_bits i) (NTEST * 2) reg) (seq 0 NTESTC).

Lemma candidate_words_nth reg i : (i < NTESTC)%nat ->
  nth i (candidate_words reg) [] = trellis_encode (replicate (NTEST * 2) 0) (candidate_bits i) (NTEST * 2) reg.
Proof.
  intros Hi. unfold candidate_words. set (F := fun i => trellis_encode (replicate (NTEST * 2) 0) (candidate_bits i) (NTEST * 2) reg).
  change (nth i (map F (seq 0 NTESTC)) [] = F i). clearbody F. rewrite (nth_indep _ _ (F 0%nat)) by (rewrite length_map, length_seq; exact Hi). rewrite map_nth, seq_nth by exact Hi. reflexivity.
Qed.

Definition masked8 (mask : list bool) (w : list Z) : list Z := zip_with (fun (b : bool) x => if b then x else 0) mask w.

(** Every window, masked, is nearest to a candidate with its own first bit. *)
Definition window_ok (mask : list bool) (reg : nat) : bool :=
  let ws := candidate_words (Z.of_nat reg) in
  forallb (fun i => let c := masked8 mask (nth i ws []) in
    snd (pick (fun i => distance8 (nth i ws []) c) (0, 0)) =? (candidate_bits i).[0%nat]) (seq 0 NTESTC).

Definition kept_bit (pm : list Z) (q : nat) : bool := negb (pm.[(q mod length pm)%nat] =? 0xFF).
Definition phase_mask (pm : list Z) (q : nat) : list bool := map (fun j => kept_bit pm (q + j)) (seq 0 8).

Definition map_ok (pm : list Z) : bool :=
  forallb (fun k => forallb (window_ok (phase_mask pm (2 * k))) (seq 0 32)) (seq 0 (Nat.div2 (length pm))).

Definition map_16_9 : list Z := [0; 0xFF; 1; 2].

Lemma map_12_5_ok : map_ok map_12_5 = true.
Proof. vm_compute. reflexivity. Qed.

Lemma map_16_9_ok : map_ok map_16_9 = true.
Proof. vm_compute. reflexivity. Qed.

Lemma map_12_group_ok : map_ok map_12_group = true.
Proof. vm_compute. reflexivity. Qed.

Lemma candidate_of a b c d : is_bit a -> is_bit b -> is_bit c -> is_bit d ->
  exists i, (i < NTESTC)%nat /\ candidate_bits i = [a; b; c; d].
Proof.
  intros Ha Hb Hc Hd. exists (Z.to_nat (8 * a + 4 * b + 2 * c + d)). unfold NTESTC.
  destruct Ha as [-> | ->], Hb as [-> | ->], Hc as [-> | ->], Hd as [-> | ->]; (split; [lia|reflexivity]).
Qed.

Lemma phase_mask_mod pm q : length pm <> 0%nat -> phase_mask pm q = phase_mask pm (q mod length pm).
Proof.
  intros Hl. unfold phase_mask. apply map_ext. intros j. unfold kept_bit. by rewrite Nat.Div0.add_mod_idemp_l.
Qed.

Lemma window_ok_picks mask reg i : window_ok mask reg = true -> (i < NTESTC)%nat ->
  let ws := candidate_words (Z.of_nat reg) in
  snd (pick (fun i' => distance8 (nth i' ws []) (masked8 mask (nth i ws []))) (0, 0)) = (candidate_bits i).[0%nat].
Proof.
  unfold window_ok. generalize (candidate_words (Z.of_nat reg)). intros ws H Hi. cbv zeta in H |- *.
  rewrite forallb_forall in H. apply Z.eqb_eq. apply (H i). apply in_seq. lia.
Qed.

Lemma window_picks pm reg p i : map_ok pm = true -> Nat.Even (length pm) -> length pm <> 0%nat ->
  0 <= reg < 32 -> (i < NTESTC)%nat ->
  let c := masked8 (phase_mask pm (2 * p)) (trellis_encode (replicate (NTEST * 2) 0) (candidate_bits i) (NTEST * 2) reg) in
  snd (pick (fun i => distance8 (trellis_encode (replicate (NTEST * 2) 0) (candidate_bits i) (NTEST * 2) reg) c) (0, 0))
  = (candidate_bits i).[0%nat].
Proof.
  intros Hm [h Hh] Hne Hreg Hi c.
  assert (Hp : ((2 * p) mod length pm = 2 * (p mod h))%nat) by (rewrite Hh, Nat.Div0.mul_mod_distr_l; lia).
  unfold map_ok in Hm. rewrite Hh in Hm. replace (Nat.div2 (2 * h)) with h in Hm by (by rewrite Nat.div2_double).
  pose proof (check_nat _ _ Hm (p mod h) ltac:(apply Nat.mod_upper_bound; lia)) as H. cbv beta in H.
  pose proof (check_nat _ _ H (Z.to_nat reg) ltac:(lia)) as H'.
  pose proof (window_ok_picks _ _ i H' Hi) as H''. cbv zeta in H''. rewrite Z2Nat.id in H'' by lia.
  rewrite <- H''. f_equal. apply pick_ext. intros i' Hi'. rewrite !candidate_words_nth by done. unfold c. by rewrite (phase_mask_mod pm (2 * p)), Hp by done.
Qed.

(** ** The decoder on a masked codeword *)

Lemma masked8_nth mask w j : length mask = length w -> (masked8 mask w).[j] = if nth j mask false then w.[j] else 0.
Proof.
  revert w j. induction mask as [|b mask IH]; intros [|x w] j H; try done; [by destruct j|].
  destruct j as [|j]; [done|]. exact (IH w j (eq_add_S _ _ H)).
Qed.

Lemma phase_mask_nth pm q j : (j < 8)%nat -> nth j (phase_mask pm q) false = kept_bit pm (q + j).
Proof.
  intros Hj. unfold phase_mask. rewrite (nth_indep _ false (kept_bit pm (q + 0))) by (rewrite length_map, length_seq; lia).
  rewrite (map_nth (fun j => kept_bit pm (q + j))), seq_nth by done. done.
Qed.

(** A codeword whose unsent bits read as zeros decodes to its message. *)
Lemma trellis_decode_clean pm source data n result : map_ok pm = true -> Nat.Even (length pm) -> length pm <> 0%nat ->
  bits data -> (n <= length result)%nat ->
  (forall q, (q < 2 * (n + 3))%nat -> source.[q] = if kept_bit pm q then coded_bit data 0 q else 0) ->
  let r := trellis_decode result source n in
  length r = length result /\ forall k, r.[k] = if decide (k < n)%nat then data.[k] else result.[k].
Proof.
  intros Hm He Hl Hd Hr Hs. unfold trellis_decode. set (f := fun p '(reg, min_d, min_bt, result) => _).
  enough (H : forall m, (m <= n)%nat -> let '(reg, _, _, r) := for_ 0 m f (0, 9999, 0, result) in
    reg = reg_at data 0 m /\ length r = length result /\ forall k, r.[k] = if decide (k < m)%nat then data.[k] else result.[k]).
  { specialize (H n (le_n n)). destruct (for_ 0 n f _) as [[[reg a] b] r]. apply H. }
  intros m. induction m as [|m IH]; intros Hmn.
  { rewrite for_nil by lia. split; [done|]. split; [done|]. intros k. by destruct (decide (k < 0)%nat); [lia|]. }
  rewrite for_S by lia. specialize (IH ltac:(lia)). destruct (for_ 0 m f _) as [[[reg md] mb] r]. destruct IH as (-> & L & H).
  set (reg := reg_at data 0 m). assert (Hreg : 0 <= reg < 32) by (by apply reg_at_range).
  unfold f. cbv beta iota.
  set (c := map (fun j => source.[(m * 2 + j)%nat]) (seq 0 8)).
  destruct (candidate_of (data.[m]) (data.[(m + 1)%nat]) (data.[(m + 2)%nat]) (data.[(m + 3)%nat])) as (i0 & Hi0 & E0); [by apply bits_nth..|].
  assert (Ebits : forall j, (j < 4)%nat -> (candidate_bits i0).[j] = data.[(m + j)%nat]).
  { intros j Hj. rewrite E0. do 4 (destruct j as [|j]; [cbn [nth]; f_equal; lia|]). lia. }
  set (w := trellis_encode (replicate (NTEST * 2) 0) (candidate_bits i0) (NTEST * 2) reg).
  assert (Hw : length w = 8%nat /\ forall q, (q < 8)%nat -> w.[q] = coded_bit data 0 (2 * m + q)).
  { destruct (trellis_encode_spec (replicate (NTEST * 2) 0) (candidate_bits i0) 4 reg ltac:(done)) as [Lw Hq].
    split; [exact Lw|]. intros q Hqlt. unfold w. change (NTEST * 2)%nat with (2 * 4)%nat. rewrite Hq, decide_True by lia.
    apply (coded_bit_window data 0 m 4); [done|lia]. }
  destruct Hw as [Lw Hw].
  assert (Ec : c = masked8 (phase_mask pm (2 * m)) w).
  { apply list_eq_nth; [unfold masked8; rewrite length_zip_with, Lw; done|]. intros j Hj. change (length c) with 8%nat in Hj.
    rewrite masked8_nth by (by rewrite Lw). rewrite phase_mask_nth, Hw by done. unfold c. rewrite nth_map_seq by done.
    rewrite Hs by lia. cbn [Nat.add]. by replace (m * 2 + j)%nat with (2 * m + j)%nat by lia. }
  match goal with |- context [for_ 0 NTESTC ?g ?s] => assert (Ep : for_ 0 NTESTC g s
    = pick (fun i => distance8 (trellis_encode (replicate (NTEST * 2) 0) (candidate_bits i) (NTEST * 2) reg) c) s) end.
  { apply for_ext. intros i [a b] Hi.
    assert (Es : forall tt, for_ 0 (NTEST * 2) (fun j sum => sum + Z.lxor (tt.[j]) (source.[(m * 2 + j)%nat])) 0 = distance8 tt c).
    { intros tt. apply for_ext. intros j s Hj. unfold c. rewrite nth_map_seq by (cbn in Hj; lia). done. }
    by rewrite Es. }
  rewrite Ep. clear Ep.
  pose proof (window_picks pm reg m i0 Hm He Hl Hreg Hi0) as HW. cbv zeta in HW. fold w in HW. rewrite <- Ec in HW.
  rewrite (pick_ext _ _ _ (md, mb) (fun i _ => eq_refl)) in HW. destruct (pick _ (md, mb)) as [a b]. cbn [snd] in HW.
  rewrite Ebits, Nat.add_0_r in HW by lia. subst b. split; [done|]. split; [by rewrite length_insert|].
  intros k. rewrite nth_insert, L, H. destruct (decide (m = k /\ _)) as [[<- _]|N].
  - by rewrite decide_True by lia.
  - destruct (decide (k < m)%nat), (decide (k < S m)%nat); lia || done.
Qed.

(** ** What is sent

    The coded bits the map keeps, a group at a time, in the order the
    interleaver sends them. *)

Definition kept_entries (pm : list Z) : list nat := List.filter (fun i => negb (pm.[i] =? 0xFF)) (seq 0 (length pm)).

Definition puncture (pm : list Z) (groups : nat) (coded : list Z) : list Z :=
  flat_map (fun k => map (fun i => coded.[(k * length pm + i)%nat]) (kept_entries pm)) (seq 0 groups).

Definition interleave (perm sent : list Z) : list Z := map (fun p => sent.[Z.to_nat p]) perm.

(** Four zeros empty the encoder. *)
Definition with_tail (data : list Z) : list Z := data ++ [0; 0; 0; 0].

Definition transmit (perm pm : list Z) (groups : nat) (data : list Z) : list Z :=
  let n := (2 * length (with_tail data))%nat in
  interleave perm (puncture pm groups (trellis_encode (replicate n 0) (with_tail data) n 0)).

(** A table of [n] addresses that takes each value once. *)
Definition inverse (n : nat) (perm : list Z) : list Z :=
  for_ 0 n (fun i inv => inv.[Z.to_nat (perm.[i]) <- Z.of_nat i]) (replicate n 0).
Definition perm_ok (n : nat) (perm : list Z) : bool :=
  let inv := inverse n perm in
  (length perm =? n)%nat && forallb (fun i => inv.[Z.to_nat (perm.[i])] =? Z.of_nat i) (seq 0 n)
  && forallb (fun j => let i := inv.[j] in (0 <=? i) && (i <? Z.of_nat n) && (perm.[Z.to_nat i] =? Z.of_nat j)) (seq 0 n).

Lemma perms_ok : (perm_ok 60 PERM_12_5 = true /\ perm_ok 144 PERM_16_9 = true) /\
  perm_ok 300 PERM_12_25 = true /\ perm_ok 348 PERM_12_29 = true.
Proof. repeat split; vm_compute; reflexivity. Qed.

Lemma depermute_fst input reliab len perm deperm rel :
  fst (nxdn_depermute_rel input reliab len perm deperm rel)
  = stores (fun i => Z.to_nat (perm.[i])) (fun i => input.[i]) len deperm.
Proof.
  unfold nxdn_depermute_rel, stores. revert deperm rel. induction len as [|n IH]; intros; [done|].
  rewrite !for_S by lia. rewrite <- (IH deperm rel). by destruct (for_ 0 n _ (deperm, rel)).
Qed.

Lemma depermute_interleave n perm sent reliab rel : perm_ok n perm = true ->
  let r := fst (nxdn_depermute_rel (interleave perm sent) reliab n perm (replicate n 0) rel) in
  length r = n /\ forall j, (j < n)%nat -> r.[j] = sent.[j].
Proof.
  intros Hp. cbv zeta. rewrite depermute_fst. split; [rewrite length_stores; len|]. intros j Hj.
  unfold perm_ok in Hp. apply andb_true_iff in Hp as [Hp H2]. apply andb_true_iff in Hp as [Hl H1]. apply Nat.eqb_eq in Hl.
  pose proof (check_nat _ _ H2 j Hj) as C. cbv beta zeta in C. set (i := (inverse n perm).[j]) in *.
  apply andb_true_iff in C as [C E]. apply andb_true_iff in C as [C0 C1]. apply Z.eqb_eq in E. apply Z.leb_le in C0. apply Z.ltb_lt in C1.
  assert (Ej : Z.to_nat (perm.[Z.to_nat i]) = j) by lia.
  rewrite <- Ej at 1. rewrite (stores_hit (fun i => Z.to_nat (perm.[i]))).
  - unfold interleave. rewrite (nth_indep _ 0 ((fun p => sent.[Z.to_nat p]) 0)) by (rewrite length_map; lia).
    rewrite (map_nth (fun p => sent.[Z.to_nat p])). by rewrite Ej.
  - lia.
  - intros i' Hi' Hne Eq. apply Hne. pose proof (check_nat _ _ H1 i' Hi') as C. cbv beta in C. rewrite Eq in C.
    pose proof (check_nat _ _ H1 (Z.to_nat i) ltac:(lia)) as C'. cbv beta in C'. apply Z.eqb_eq in C, C'. lia.
  - len.
Qed.

Lemma flat_map_nth (F : nat -> list Z) w a g k m : (forall k, length (F k) = w) -> (k < g)%nat -> (m < w)%nat ->
  (flat_map F (seq a g)).[(k * w + m)%nat] = (F (a + k)%nat).[m].
Proof.
  intros HF. revert a k. induction g as [|g IH]; intros a k Hk Hm; [lia|]. cbn [seq flat_map]. destruct k as [|k].
  - rewrite app_nth1 by (rewrite HF; lia). by rewrite Nat.add_0_r.
  - rewrite app_nth2 by (rewrite HF; lia). rewrite HF. replace (S k * w + m - w)%nat with (k * w + m)%nat by lia.
    rewrite IH by lia. by rewrite Nat.add_succ_comm.
Qed.

(** The entries of a map number the kept ones from zero. *)
Definition entries_ok (pm : list Z) (stride : nat) : bool :=
  (length (kept_entries pm) =? stride)%nat &&
  forallb (fun i => (pm.[i] =? 0xFF) || ((0 <=? pm.[i]) && (pm.[i] <? Z.of_nat stride)
    && (nth (Z.to_nat (pm.[i])) (kept_entries pm) 0%nat =? i)%nat)) (seq 0 (length pm)).

Lemma puncture_nth pm stride groups coded k i : entries_ok pm stride = true -> (k < groups)%nat -> (i < length pm)%nat ->
  pm.[i] <> 0xFF -> (puncture pm groups coded).[(k * stride + Z.to_nat (pm.[i]))%nat] = coded.[(k * length pm + i)%nat].
Proof.
  intros He Hk Hi Hne. unfold entries_ok in He. apply andb_true_iff in He as [Hl He]. apply Nat.eqb_eq in Hl.
  pose proof (check_nat _ _ He i Hi) as C. cbv beta in C. apply orb_true_iff in C as [C|C]; [apply Z.eqb_eq in C; done|].
  apply andb_true_iff in C as [C E]. apply andb_true_iff in C as [C0 C1]. apply Nat.eqb_eq in E. apply Z.leb_le in C0. apply Z.ltb_lt in C1.
  unfold puncture. rewrite (flat_map_nth _ stride); [|by intros; rewrite length_map|done|lia].
  rewrite (nth_indep _ 0 ((fun i => coded.[(k * length pm + i)%nat]) 0%nat)) by (rewrite length_map; lia).
  rewrite (map_nth (fun i => coded.[(k * length pm + i)%nat])). by rewrite E.
Qed.

Lemma depuncture_groups_spec pm stride groups deperm rel b : (groups * length pm <= length (fst b))%nat ->
  let r := fst (depuncture_groups pm stride groups deperm rel b) in
  length r = length (fst b) /\
  forall k i, (k < groups)%nat -> (i < length pm)%nat ->
    r.[(k * length pm + i)%nat] = if pm.[i] =? 0xFF then 0 else deperm.[(k * stride + Z.to_nat (pm.[i]))%nat].
Proof.
  unfold depuncture_groups. set (L := length pm). set (inner := fun k i '(out, b) => (S out, depuncture_entry deperm rel (k * stride) (pm.[i]) out b)).
  set (val := fun k i => if pm.[i] =? 0xFF then 0 else deperm.[(k * stride + Z.to_nat (pm.[i]))%nat]).
  assert (Hin : forall n k out (b : list Z * list Z), let '(out', b') := for_ 0 n (inner k) (out, b) in
    out' = (out + n)%nat /\ fst b' = stores (fun j => (out + j)%nat) (val k) n (fst b)).
  { intros n k out b'. induction n as [|n IH]; [by rewrite Nat.add_0_r|]. rewrite for_S by lia.
    destruct (for_ 0 n (inner k) (out, b')) as [o' b'']. destruct IH as [-> E]. split; [lia|].
    unfold stores. rewrite for_S by lia. fold (stores (fun j => (out + j)%nat) (val k) n (fst b')). rewrite <- E.
    unfold depuncture_entry, val. by destruct (pm.[n] =? 0xFF). }
  intros Hb.
  enough (H : forall n, (n <= groups)%nat -> let '(out, b') := for_ 0 n (fun k s => for_ 0 L (inner k) s) (0%nat, b) in
    out = (n * L)%nat /\ length (fst b') = length (fst b) /\
    forall k i, (k < n)%nat -> (i < L)%nat -> (fst b').[(k * L + i)%nat] = val k i).
  { specialize (H groups (le_n _)). destruct (for_ 0 groups _ _) as [out b']. destruct H as (_ & H1 & H2). by split. }
  intros n. induction n as [|n IH]; intros Hn; [split; [done|]; split; [done|]; lia|]. rewrite for_S by lia.
  specialize (IH ltac:(lia)). destruct (for_ 0 n _ _) as [out b']. destruct IH as (-> & IL & IH).
  specialize (Hin L n (n * L)%nat b'). destruct (for_ 0 L (inner n) _) as [o' b'']. destruct Hin as [-> E].
  split; [lia|]. rewrite E, length_stores. split; [done|]. intros k i Hk Hi. destruct (decide (k = n)) as [->|Hne].
  - apply (stores_hit (fun j => (n * L + j)%nat) (val n)); [done|intros; lia|]. rewrite IL. nia.
  - rewrite stores_miss; [apply IH; [lia|done]|]. intros j Hj. nia.
Qed.

Lemma depuncture_16_9_groups deperm rel a b :
  nxdn_depuncture_16_9_rel deperm rel a b = depuncture_groups map_16_9 3 48 deperm rel (a, b).
Proof.
  reflexivity.
Qed.

(** The bits a receiver has before it decodes a clean frame. *)
Lemma received_clean pm stride groups perm n data reliab drel rel b :
  perm_ok n perm = true -> entries_ok pm stride = true -> n = (groups * stride)%nat ->
  (2 * length (with_tail data) = groups * length pm)%nat -> length pm <> 0%nat ->
  (groups * length pm <= length (fst b))%nat ->
  forall q, (q < groups * length pm)%nat ->
  (fst (depuncture_groups pm stride groups
     (fst (nxdn_depermute_rel (transmit perm pm groups data) reliab n perm (replicate n 0) drel)) rel b)).[q]
  = if kept_bit pm q then coded_bit (with_tail data) 0 q else 0.
Proof.
  intros Hp He Hn Hl Hpm Hb q Hq. unfold transmit. set (N := length (with_tail data)) in *.
  destruct (depermute_interleave n perm (puncture pm groups (trellis_encode (replicate (2 * N) 0) (with_tail data) (2 * N) 0))
    reliab drel Hp) as [_ Hd]. cbv zeta in Hd. set (dp := fst (nxdn_depermute_rel _ _ _ _ _ _)) in *. clearbody dp.
  destruct (depuncture_groups_spec pm stride groups dp rel b Hb) as [_ Hs]. cbv zeta in Hs.
  assert (Eq : q = (q / length pm * length pm + q mod length pm)%nat) by (rewrite (Nat.div_mod_eq q (length pm)) at 1; lia).
  assert (Hk : (q / length pm < groups)%nat) by (apply Nat.Div0.div_lt_upper_bound; lia).
  assert (Hi : (q mod length pm < length pm)%nat) by (by apply Nat.mod_upper_bound).
  rewrite Eq at 1. rewrite Hs by done. unfold kept_bit. destruct (Z.eqb_spec (pm.[(q mod length pm)%nat]) 0xFF) as [E|E]; cbn [negb]; [done|].
  rewrite Hd.
  - rewrite puncture_nth by done. rewrite <- Eq.
    destruct (trellis_encode_spec (replicate (2 * N) 0) (with_tail data) N 0 ltac:(len)) as [_ H]. rewrite H.
    rewrite decide_True by lia. done.
  - unfold entries_ok in He. apply andb_true_iff in He as [_ He]. pose proof (check_nat _ _ He _ Hi) as C. cbv beta in C.
    apply orb_true_iff in C as [C|C]; [apply Z.eqb_eq in C; done|].
    apply andb_true_iff in C as [C _]. apply andb_true_iff in C as [C0 C1]. apply Z.leb_le in C0. apply Z.ltb_lt in C1. nia.
Qed.

(** ** The channels *)

(** [FACCH3_UDCH2] is one of the two blocks of such a message. *)
Variant nxdn_channel := SACCH | SCCH | FACCH | FACCH3_UDCH2 | FACCH2_UDCH | CAC.

(** The table, the puncturing map, the bits a group of it stands for and the
    number of groups, of a channel's decoder. *)
Definition scheme (k : nxdn_channel) : list Z * list Z * nat * nat :=
  match k with
  | SACCH | SCCH => (PERM_12_5, map_12_5, 10, 6)
  | FACCH | FACCH3_UDCH2 => (PERM_16_9, map_16_9, 3, 48)
  | FACCH2_UDCH => (PERM_12_29, map_12_group, 12, 29)
  | CAC => (PERM_12_25, map_12_group, 12, 25)
  end%nat.

(** The bits of the message with its check, and of the bit buffer. *)
Definition message_len (k : nxdn_channel) : nat := match k with SACCH | SCCH => 32 | FACCH | FACCH3_UDCH2 => 92 | FACCH2_UDCH => 199 | CAC => 171 end.
Definition buf_len (k : nxdn_channel) : nat := match k with SACCH | SCCH => 32 | FACCH | FACCH3_UDCH2 => 96 | FACCH2_UDCH => 208 | CAC => 176 end.

Definition checks (k : nxdn_channel) (t : list Z) : bool :=
  match k with
  | SACCH => crc6 t 26 =? u8 (convert_bits_into_output (drop 26 t) 6)
  | SCCH => crc7_scch t 25 =? nxdn_scch_crc7_check_from_trellis t
  | FACCH | FACCH3_UDCH2 => nxdn_facch_crc12_payload_from_trellis t =? nxdn_facch_crc12_check_from_trellis t
  | FACCH2_UDCH => nxdn_facch2_udch_crc15_payload_from_trellis t =? nxdn_facch2_udch_crc15_check_from_trellis t
  | CAC => crc16cac t 171 =? 0
  end.

Definition channel_decode (k : nxdn_channel) : list Z -> list Z -> conv_statics -> conv_statics * channel :=
  match k with
  | SACCH => sacch_decode | SCCH => scch_decode | FACCH => facch_decode 20 | FACCH3_UDCH2 => facch_decode 12
  | FACCH2_UDCH => facch2_udch_decode | CAC => cac_decode
  end.

(** The channels as the air interface has them: a block written by rows and
    read by columns, and which coded bits of a group are sent. *)
Definition block_interleaver (rows cols : nat) : list Z :=
  map (fun i => Z.of_nat (i mod cols * rows + i / cols)) (seq 0 (rows * cols)).

Fixpoint numbered (sent : list bool) (n : Z) : list Z :=
  match sent with
  | [] => []
  | true :: sent => n :: numbered sent (n + 1)
  | false :: sent => 0xFF :: numbered sent n
  end.

(** Of 12, the sixth and the twelfth are left out; of 4, the second; of 14,
    the fourth and the twelfth. *)
Definition unsent (n : nat) (left_out : list nat) : list Z :=
  numbered (map (fun i => negb (existsb (Nat.eqb i) left_out)) (seq 1 n)) 0.

Definition air_scheme (k : nxdn_channel) : list Z * list Z * nat * nat :=
  match k with
  | SACCH | SCCH => (block_interleaver 12 5, unsent 12 [6; 12], 10, 6)
  | FACCH | FACCH3_UDCH2 => (block_interleaver 16 9, unsent 4 [2], 3, 48)
  | FACCH2_UDCH => (block_interleaver 12 29, unsent 14 [4; 12], 12, 29)
  | CAC => (block_interleaver 12 25, unsent 14 [4; 12], 12, 25)
  end%nat.

Lemma scheme_on_air k : air_scheme k = scheme k.
Proof. destruct k; vm_compute; reflexivity. Qed.

Definition frame_of (k : nxdn_channel) (data : list Z) : list Z :=
  let '(perm, pm, _, groups) := air_scheme k in transmit perm pm groups data.

Lemma frame_of_scheme k data : frame_of k data = let '(perm, pm, _, groups) := scheme k in transmit perm pm groups data.
Proof. unfold frame_of. rewrite scheme_on_air. reflexivity. Qed.

(** What the soft decoder makes of a frame. *)
Definition soft_guess (k : nxdn_channel) (bits reliab : list Z) (c : conv_statics) : list Z :=
  let '(perm, pm, stride, groups) := scheme k in
  let n := (groups * stride)%nat in
  let '(deperm, deperm_rel) := nxdn_depermute_rel bits reliab n perm (replicate n 0) (ff n) in
  let len := (groups * length pm)%nat in
  let '(depunc, depunc_rel) := depuncture_groups pm stride groups deperm deperm_rel (replicate len 0, ff len) in
  let octets := match k with SACCH | SCCH => 5 | FACCH => 20 | FACCH3_UDCH2 => 12 | FACCH2_UDCH => 26 | CAC => 22 end%nat in
  let bytes := match k with SACCH | SCCH => 4 | FACCH | FACCH3_UDCH2 => 12 | FACCH2_UDCH => 26 | CAC => 22 end%nat in
  unpack_array (snd (nxdn_conv_decode_soft depunc depunc_rel len (replicate octets 0) (message_len k) c)) (replicate (buf_len k) 0) bytes.

Lemma soft_then_fallback_trellis sum sent depunc rel m_data bytes blen nbits c :
  let g := unpack_array (snd (nxdn_conv_decode_soft depunc rel (length depunc) m_data nbits c)) (replicate blen 0) bytes in
  let t := trellis_buf (snd (soft_then_fallback sum sent depunc rel m_data bytes blen nbits c)) in
  let ch := snd (soft_then_fallback sum sent depunc rel m_data bytes blen nbits c) in
  t = (if sum g =? sent g then g else trellis_decode (replicate blen 0) depunc nbits) /\ crc ch = sum t /\ check ch = sent t.
Proof.
  unfold soft_then_fallback. destruct (nxdn_conv_decode_soft _ _ _ _ _ _) as [c' m]. cbn [snd].
  destruct (_ =? _); cbn [negb]; done.
Qed.

(** A channel's decoder, with its table and puncturing spelled out. *)
Lemma channel_decode_trellis k bits reliab c :
  let '(perm, pm, stride, groups) := scheme k in
  let n := (groups * stride)%nat in
  let len := (groups * length pm)%nat in
  let dp := nxdn_depermute_rel bits reliab n perm (replicate n 0) (ff n) in
  let depunc := fst (depuncture_groups pm stride groups (fst dp) (snd dp) (replicate len 0, ff len)) in
  length depunc = len ->
  let ch := snd (channel_decode k bits reliab c) in
  let g := soft_guess k bits reliab c in
  trellis_buf ch = (if checks k g then g else trellis_decode (replicate (buf_len k) 0) depunc (message_len k)) /\
  good ch = checks k (trellis_buf ch).
Proof.
  destruct k; cbn [scheme channel_decode message_len buf_len]; cbv zeta;
    unfold soft_guess, sacch_decode, scch_decode, facch_decode, facch2_udch_decode, cac_decode, nxdn_depermute_rel_u8,
      nxdn_depuncture_12_5_rel, nxdn_depuncture_12_group_rel, good; cbn [scheme message_len buf_len];
    repeat match goal with |- context [(?a * ?b)%nat] => let v := eval vm_compute in (a * b)%nat in change (a * b)%nat with v end;
    (match goal with |- context [nxdn_depermute_rel ?bs ?rl ?n ?p ?a ?b] =>
       destruct (nxdn_depermute_rel bs rl n p a b) as [deperm deperm_rel] end); cbn [fst snd];
    rewrite ?depuncture_16_9_groups;
    (match goal with |- context [depuncture_groups ?p ?s ?g ?d ?r ?b] =>
       destruct (depuncture_groups p s g d r b) as [depunc depunc_rel] end); cbn [fst snd]; intros Hlen;
    (match goal with |- context [soft_then_fallback ?a ?b ?d ?r ?m ?y ?l ?n ?c] =>
       destruct (soft_then_fallback_trellis a b d r m y l n c) as (E1 & E2 & E3) end); rewrite Hlen in E1;
    cbn [checks]; cbv beta in E1, E2, E3;
    (split; [exact E1|rewrite E2, E3; reflexivity]).
Qed.

(** The message in the bit buffer. *)
Definition padded (k : nxdn_channel) (data : list Z) : list Z := data ++ replicate (buf_len k - length data) 0.

Lemma scheme_ok k : let '(perm, pm, stride, groups) := scheme k in
  perm_ok (groups * stride) perm = true /\ entries_ok pm stride = true /\ map_ok pm = true /\ Nat.Even (length pm) /\
  length pm <> 0%nat /\ (2 * (message_len k + 4) = groups * length pm)%nat /\ (message_len k <= buf_len k)%nat.
Proof.
  destruct perms_ok as [[P1 P2] [P3 P4]].
  destruct k; cbn [scheme message_len buf_len].
  1,2: split; [exact P1|split; [reflexivity|split; [exact map_12_5_ok|split; [by exists 6%nat|split; [done|split; [done|lia]]]]]].
  1,2: split; [exact P2|split; [reflexivity|split; [exact map_16_9_ok|split; [by exists 2%nat|split; [done|split; [done|lia]]]]]].
  - split; [exact P4|split; [reflexivity|split; [exact map_12_group_ok|split; [by exists 7%nat|split; [done|split; [done|lia]]]]]].
  - split; [exact P3|split; [reflexivity|split; [exact map_12_group_ok|split; [by exists 7%nat|split; [done|split; [done|lia]]]]]].
Qed.

Lemma fallback_clean k data reliab c : bits data -> length data = message_len k ->
  let ch := snd (channel_decode k (frame_of k data) reliab c) in
  let guess := soft_guess k (frame_of k data) reliab c in
  trellis_buf ch = (if checks k guess then guess else padded k data) /\ good ch = checks k (trellis_buf ch).
Proof.
  intros Hd Hl. pose proof (scheme_ok k) as S. pose proof (channel_decode_trellis k (frame_of k data) reliab c) as D.
  rewrite frame_of_scheme in D |- *. destruct (scheme k) as [[[perm pm] stride] groups]. destruct S as (S1 & S2 & S3 & S4 & S5 & S6 & S7).
  cbv zeta in D |- *. set (n := (groups * stride)%nat) in *. set (total := (groups * length pm)%nat) in *.
  set (dp := nxdn_depermute_rel _ _ n perm _ _) in *.
  destruct (depuncture_groups_spec pm stride groups (fst dp) (snd dp) (replicate total 0, ff total)) as [L _]; [cbn [fst]; len|].
  cbn [fst] in L. rewrite length_replicate in L. specialize (D L). destruct D as [D1 D2]. split; [|exact D2]. rewrite D1.
  destruct (checks k _); [done|].
  assert (Lt : length (with_tail data) = (message_len k + 4)%nat) by (unfold with_tail; rewrite length_app; cbn; lia).
  destruct (trellis_decode_clean pm (fst (depuncture_groups pm stride groups (fst dp) (snd dp) (replicate total 0, ff total)))
    (with_tail data) (message_len k) (replicate (buf_len k) 0) S3 S4 S5) as [R1 R2].
  - apply Forall_app. split; [done|]. repeat constructor.
  - by rewrite length_replicate.
  - intros q Hq. apply (received_clean pm stride groups perm n data reliab (ff n) (snd dp)); try done.
    + by rewrite Lt.
    + cbn [fst]. by rewrite length_replicate.
    + change (q < total)%nat. lia.
  - apply list_eq_nth; [rewrite R1, length_replicate; unfold padded; len|]. intros i _. rewrite R2. unfold padded, with_tail.
    rewrite !nth_replicate. destruct (decide (i < message_len k)%nat); [by rewrite !app_nth1 by lia|].
    rewrite app_nth2 by lia. by rewrite nth_replicate.
Qed.

(** What is delivered of a clean frame: the bits sent, unless the soft
    decoder's own guess passes the check. *)
Definition delivered (k : nxdn_channel) (data reliab : list Z) (c : conv_statics) : list Z :=
  let guess := soft_guess k (frame_of k data) reliab c in
  if checks k guess then guess else padded k data.

Lemma clean_delivered k data reliab c :
  bits data -> length data = message_len k -> checks k (padded k data) = true ->
  let ch := snd (channel_decode k (frame_of k data) reliab c) in
  good ch = true /\ trellis_buf ch = delivered k data reliab c.
Proof.
  intros Hd Hl Hc. destruct (fallback_clean k data reliab c Hd Hl) as [H1 H2]. cbv zeta. unfold delivered. rewrite H2, H1. split; [|done].
  by destruct (checks k (soft_guess _ _ _ _)) eqn:E.
Qed.

(** ** Two blocks of a FACCH3 or UDCH2 *)

Lemma depermute_prefix a b reliab n perm deperm rel : (n <= length a)%nat ->
  nxdn_depermute_rel (a ++ b) reliab n perm deperm rel = nxdn_depermute_rel a reliab n perm deperm rel.
Proof. intros Hn. apply for_ext. intros i [d r] Hi. by rewrite app_nth1 by lia. Qed.

Lemma facch_decode_prefix octets a b reliab c : (144 <= length a)%nat ->
  facch_decode octets (a ++ b) reliab c = facch_decode octets a reliab c.
Proof. intros Ha. unfold facch_decode, nxdn_depermute_rel_u8. by rewrite depermute_prefix. Qed.

Lemma length_block_frame data : length (frame_of FACCH3_UDCH2 data) = 144%nat.
Proof. reflexivity. Qed.

Lemma length_chainback out n c : length (snd (CNXDNConvolution_chainback out n c)) = length out.
Proof.
  unfold CNXDNConvolution_chainback. enough (H : forall dec dp state out, length (snd (chainback_loop n dec dp state out)) = length out).
  { specialize (H (m_decisions c) (m_dp c) 0 out). by destruct (chainback_loop n _ _ _ _). }
  induction n as [|n IH]; intros dec dp state o; [done|]. cbn [chainback_loop]. rewrite IH. unfold WRITE_BIT1. by rewrite length_insert.
Qed.

(** Octets and bits say the same. *)
Lemma unpack_array_spec octets out n : (n <= length octets)%nat -> (8 * n <= length out)%nat ->
  let r := unpack_array octets out n in
  length r = length out /\
  (forall i k, (i < n)%nat -> (k < 8)%nat -> r.[(i * 8 + k)%nat] = Z.b2z (Z.testbit (octets.[i]) (Z.of_nat (7 - k)))) /\
  forall a, (8 * n <= a)%nat -> r.[a] = out.[a].
Proof.
  intros Ho Hn r. subst r. unfold unpack_array, dsd_unpack_bytes_to_bits, unpack_bounded. cbn [fst default].
  rewrite clamp_to_capacity_min. assert (Hd : (n <= length out / 8)%nat) by (apply Nat.div_le_lower_bound; lia).
  replace (Nat.min n (Nat.min (length octets) (length out / 8))) with n by lia.
  rewrite unpack_octets. by apply unpack_spec.
Qed.

Lemma packed_bits trellis dst n : bits trellis -> (length trellis = 8 * n)%nat -> length dst = n ->
  let m := default dst (fst (dsd_pack_bits_to_bytes (Some trellis) (8 * n) (Some dst) n n)) in
  length m = n /\ unpack_array m (replicate (8 * n) 0) n = trellis.
Proof.
  intros Hb Hl Hd m. assert (Em : m = stores (fun i => i) (fun i => u8 (pack_8_bits_msb (fun k => trellis.[(i * 8 + k)%nat]))) n dst).
  { subst m. unfold dsd_pack_bits_to_bytes, pack_bounded. cbn [fst default]. rewrite clamp_to_capacity_min.
    rewrite (Nat.mul_comm 8 n), Nat.div_mul, !Nat.min_id by lia. reflexivity. }
  assert (Lm : length m = n) by (by rewrite Em, length_stores). split; [done|].
  destruct (unpack_array_spec m (replicate (8 * n) 0) n) as (L & H & _); [lia|len|].
  apply list_eq_nth; [rewrite L; len|]. intros a Ha. rewrite L, length_replicate in Ha.
  assert (Ea : a = (a / 8 * 8 + a mod 8)%nat) by (rewrite (Nat.div_mod_eq a 8) at 1; lia).
  assert (a / 8 < n)%nat by (apply Nat.Div0.div_lt_upper_bound; lia). assert (a mod 8 < 8)%nat by (by apply Nat.mod_upper_bound).
  rewrite Ea at 1. rewrite H, Em by done. rewrite (stores_hit (fun i => i)) by lia. rewrite pack_8_bits_msb_value.
  assert (Hf : forall k, is_bit (Z.land (trellis.[(a / 8 * 8 + k)%nat]) 1)) by (intros; apply land1_bit).
  pose proof (bits_value_range 8 (fun k => Z.land (trellis.[(a / 8 * 8 + k)%nat]) 1) ltac:(intros; apply Hf)) as R.
  unfold u8, wrap. rewrite Z.mod_small by lia. replace (7 - a mod 8)%nat with (8 - 1 - a mod 8)%nat by lia.
  rewrite testbit_bits_value by (done || lia). rewrite <- Ea. apply land1_id. by apply bits_nth.
Qed.

Lemma trellis_decode_bits result source n : bits result ->
  bits (trellis_decode result source n) /\ length (trellis_decode result source n) = length result.
Proof.
  intros Hr. unfold trellis_decode. match goal with |- context [for_ 0 n ?f ?s] =>
    assert (H : let '(_, _, bt, r) := for_ 0 n f s in is_bit bt /\ bits r /\ length r = length result) end.
  2: { destruct (for_ 0 n _ _) as [[[? ?] ?] ?]. tauto. }
  apply (for_inv (fun s : Z * Z * Z * list Z => let '(_, _, bt, r) := s in is_bit bt /\ bits r /\ length r = length result)).
  { split; [by left|done]. }
  intros p [[[reg d] bt] r] _ (Hbt & Hb & Hl).
  match goal with |- context [for_ 0 NTESTC ?f ?s] => assert (H : is_bit (snd (for_ 0 NTESTC f s))) end.
  { apply (for_inv (fun s : Z * Z => is_bit (snd s))); [done|]. intros i [a b] Hi H.
    match goal with |- context [if ?x then _ else _] => destruct x end; [|done]. cbn [snd].
    unfold NTESTC in Hi. do 16 (destruct i as [|i]; [first [by left|by right]|]). lia. }
  destruct (for_ 0 NTESTC _ _) as [d' bt']. cbn [snd] in H. split; [done|]. split; [|by rewrite length_insert].
  by apply Forall_insert.
Qed.

(** The octets a channel's decoder returns are its bits. *)
Lemma soft_then_fallback_octets sum sent depunc rel octets n nbits c : length octets = n ->
  let ch := snd (soft_then_fallback sum sent depunc rel octets n (8 * n) nbits c) in
  length (m_data ch) = n /\ unpack_array (m_data ch) (replicate (8 * n) 0) n = trellis_buf ch /\
  length (trellis_buf ch) = (8 * n)%nat.
Proof.
  intros Hn. unfold soft_then_fallback, nxdn_conv_decode_soft.
  match goal with |- context [CNXDNConvolution_chainback ?o ?k ?s] => pose proof (length_chainback o k s) as L;
    destruct (CNXDNConvolution_chainback o k s) as [c' m] end. cbn [snd] in L.
  destruct (unpack_array_spec m (replicate (8 * n) 0) n) as (Lu & _); [lia|len|].
  destruct (negb _); cbn [snd m_data trellis_buf]; [|split; [lia|split; [done|len]]].
  unfold nxdn_hard_fallback_decode. cbn [snd m_data trellis_buf].
  destruct (trellis_decode_bits (replicate (8 * n) 0) depunc nbits) as [B Lt]; [apply Forall_replicate; by left|].
  rewrite length_replicate in Lt.
  destruct (packed_bits (trellis_decode (replicate (8 * n) 0) depunc nbits) (blit m 0 (replicate n 0)) n) as [P1 P2];
    [done|done|rewrite length_blit; len|]. done.
Qed.

Lemma block_octets bs reliab c :
  let ch := snd (channel_decode FACCH3_UDCH2 bs reliab c) in
  length (m_data ch) = 12%nat /\ unpack_array (m_data ch) (replicate 96 0) 12 = trellis_buf ch /\ length (trellis_buf ch) = 96%nat.
Proof.
  cbn [channel_decode]. unfold facch_decode. destruct (nxdn_depermute_rel_u8 _ _ _ _ _ _) as [d dr].
  destruct (nxdn_depuncture_16_9_rel d dr _ _) as [p pr]. by apply (soft_then_fallback_octets _ _ p pr (replicate 12 0) 12 92 c).
Qed.

(** Two blocks stored one after the other. *)
Lemma store_two n w t0 t1 : n = (2 * w)%nat -> (w <= length t0)%nat -> (w <= length t1)%nat ->
  for_ 0 w (fun i b => b.[(i + 1 * w)%nat <- t1.[i]]) (for_ 0 w (fun i b => b.[(i + 0 * w)%nat <- t0.[i]]) (replicate n 0))
  = take w t0 ++ take w t1.
Proof.
  intros -> H0 H1. change (for_ 0 w (fun i b => b.[(i + 0 * w)%nat <- t0.[i]]) (replicate (2 * w) 0))
    with (stores (fun i => (i + 0 * w)%nat) (fun i => t0.[i]) w (replicate (2 * w) 0)).
  set (b := stores _ _ w _). change (stores (fun i => (i + 1 * w)%nat) (fun i => t1.[i]) w b = take w t0 ++ take w t1).
  assert (Lb : length b = (2 * w)%nat) by (unfold b; rewrite length_stores; len).
  apply list_eq_nth; [rewrite length_stores; len|]. intros a Ha. rewrite length_stores, Lb in Ha. destruct (decide (a < w)%nat) as [Hw|Hw].
  - rewrite stores_miss by lia. rewrite app_nth1, nth_take by len. unfold b. replace a with (a + 0 * w)%nat at 1 by lia.
    apply (stores_hit (fun i => (i + 0 * w)%nat)); [done|lia|len].
  - rewrite app_nth2, nth_take by len. replace (a - length (take w t0))%nat with (a - w)%nat by len.
    replace a with (a - w + 1 * w)%nat at 1 by lia. apply (stores_hit (fun i => (i + 1 * w)%nat)); lia.
Qed.

Lemma block_decode bits reliab c : channel_decode FACCH3_UDCH2 bits reliab c = facch_decode 12 bits reliab c.
Proof. reflexivity. Qed.

Lemma facch3_udch2_blocks frame0 frame1 reliab c : length frame0 = 144%nat -> length frame1 = 144%nat ->
  let '(c0, ch0) := channel_decode FACCH3_UDCH2 frame0 reliab c in
  let '(c1, ch1) := channel_decode FACCH3_UDCH2 frame1 (drop 144 reliab) c0 in
  facch3_udch2_decode (frame0 ++ frame1) reliab c
  = (c1, mk_message (take 80 (trellis_buf ch0) ++ take 80 (trellis_buf ch1)) (m_data ch0 ++ m_data ch1)
      [crc ch0; crc ch1] [check ch0; check ch1]).
Proof.
  intros L0 L1. pose proof (block_octets frame0 reliab c) as B0. cbv zeta in B0. rewrite block_decode in B0 |- *.
  destruct (facch_decode 12 frame0 reliab c) as [c0 ch0] eqn:E0. cbn [snd] in B0. destruct B0 as (M0 & _ & T0).
  pose proof (block_octets frame1 (drop 144 reliab) c0) as B1. cbv zeta in B1. rewrite block_decode in B1 |- *.
  destruct (facch_decode 12 frame1 (drop 144 reliab) c0) as [c1 ch1] eqn:E1. cbn [snd] in B1. destruct B1 as (M1 & _ & T1).
  unfold facch3_udch2_decode. rewrite !for_S, for_nil by lia.
  unfold nxdn_decode_facch3_udch2_block_soft. cbv zeta. change (0 * 144)%nat with 0%nat. change (1 * 144)%nat with 144%nat.
  rewrite !drop_0, facch_decode_prefix, E0 by lia. rewrite drop_app_length' by done. rewrite E1.
  unfold nxdn_store_facch3_udch2_block. cbn [msg_bits msg_bytes msg_crc msg_check].
  rewrite (store_two 160 80), (store_two 24 12) by lia. by rewrite !(take_ge _ 12) by lia.
Qed.

(** C33: A clean frame gets through.  On each of the channels (SACCH, SCCH,
    FACCH1 with PICH and TCH, a block of a FACCH3 or UDCH2, FACCH2 with UDCH,
    and CAC), a frame encoded, punctured and interleaved as on the air and
    received without an error is accepted, whatever the reliabilities and
    whatever the decoder's metrics held; and the bits delivered are those sent,
    unless the soft decoder's own guess passed the channel's check first.  A
    FACCH3 or UDCH2, two such frames one after the other, is accepted, and its
    message holds the 80 content bits of each block in their order and the
    twelve octets of each, which are the block's bits. *)
Theorem clean_frames_recovered :
  (forall k data reliab c, bits data -> length data = message_len k -> checks k (padded k data) = true ->
    let ch := snd (channel_decode k (frame_of k data) reliab c) in
    let guess := soft_guess k (frame_of k data) reliab c in
    good ch = true /\ trellis_buf ch = (if checks k guess then guess else padded k data)) /\
  (forall data0 data1 reliab c,
    let block k data := bits data /\ length data = message_len k /\ checks k (padded k data) = true in
    block FACCH3_UDCH2 data0 -> block FACCH3_UDCH2 data1 ->
    let frame0 := frame_of FACCH3_UDCH2 data0 in
    let frame1 := frame_of FACCH3_UDCH2 data1 in
    let left := fst (channel_decode FACCH3_UDCH2 frame0 reliab c) in
    let b0 := delivered FACCH3_UDCH2 data0 reliab c in
    let b1 := delivered FACCH3_UDCH2 data1 (drop 144 reliab) left in
    let m := snd (facch3_udch2_decode (frame0 ++ frame1) reliab c) in
    nxdn_facch3_udch2_crc_ok m = true /\ msg_bits m = take 80 b0 ++ take 80 b1 /\ length (msg_bytes m) = 24%nat /\
    unpack_array (take 12 (msg_bytes m)) (replicate 96 0) 12 = b0 /\
    unpack_array (drop 12 (msg_bytes m)) (replicate 96 0) 12 = b1).
Proof.
  split; [exact clean_delivered|]. intros data0 data1 reliab c block (D0 & L0 & C0) (D1 & L1 & C1) frame0 frame1 left b0 b1.
  pose proof (facch3_udch2_blocks frame0 frame1 reliab c eq_refl eq_refl) as E.
  destruct (clean_delivered _ data0 reliab c D0 L0 C0) as [G0 T0]. fold frame0 in G0, T0.
  destruct (clean_delivered _ data1 (drop 144 reliab) left D1 L1 C1) as [G1 T1]. fold frame1 in G1, T1.
  destruct (block_octets frame0 reliab c) as (M0 & U0 & _). destruct (block_octets frame1 (drop 144 reliab) left) as (M1 & U1 & _).
  fold b0 in T0. fold b1 in T1. clearbody b0 b1. subst left.
  destruct (channel_decode FACCH3_UDCH2 frame0 reliab c) as [c0 ch0]. cbn [fst snd] in *.
  destruct (channel_decode FACCH3_UDCH2 frame1 (drop 144 reliab) c0) as [c1 ch1]. cbn [fst snd] in *. rewrite E. cbn [snd].
  unfold nxdn_facch3_udch2_crc_ok. cbn [msg_crc msg_check msg_bits msg_bytes]. unfold good in G0, G1. cbn [nth]. rewrite G0, G1, <- T0, <- T1.
  split; [done|]. split; [done|]. split; [len|]. rewrite take_app_length', drop_app_length' by done. split; [exact U0|exact U1].
Qed.

(** Clean frames at full reliability: a SACCH and a FACCH1. *)
Definition ex_sacch : list Z :=
  [1; 1; 1; 0; 0; 1; 0; 1; 1; 0; 0; 0; 1; 0; 0; 1; 1; 1; 1; 0; 0; 0; 1; 1; 1; 0; 1; 0; 0; 1; 1; 0].
Definition ex_facch : list Z :=
  [1; 0; 1; 1; 1; 1; 1; 1; 1; 1; 1; 1; 1; 0; 1; 1; 0; 1; 0; 0; 0; 1; 1; 0; 1; 1; 1; 1; 1; 0; 1; 0; 1; 0; 1; 0; 0; 0; 0; 1;
   0; 1; 0; 0; 0; 1; 1; 0; 1; 1; 0; 1; 1; 0; 0; 0; 1; 0; 0; 1; 1; 1; 1; 1; 0; 1; 0; 0; 0; 1; 1; 0; 0; 1; 0; 0; 0; 1; 0; 1;
   0; 1; 1; 0; 1; 1; 1; 0; 1; 1; 1; 1].

(** The soft decoder misreads them, and what it makes of them passes their
    six and twelve bit checks: the content delivered is not what was sent. *)
Lemma soft_decoder_misreads_clean_frames :
  let s := snd (sacch_decode (frame_of SACCH ex_sacch) (ff 60) conv_fresh) in
  let f := snd (facch_decode 20 (frame_of FACCH ex_facch) (ff 144) conv_fresh) in
  checks SACCH ex_sacch = true /\ good s = true /\ trellis_buf s <> ex_sacch /\
  checks FACCH ex_facch = true /\ good f = true /\ take 92 (trellis_buf f) <> ex_facch.
Proof.
  cbv zeta. repeat match goal with |- _ /\ _ => split end; first [vm_compute; reflexivity|vm_compute; discriminate].
Qed.

Definition ex_sacch2 : list Z :=
  [1; 0; 0; 1; 0; 1; 1; 1; 0; 0; 1; 0; 1; 1; 0; 1; 0; 0; 1; 1; 1; 0; 1; 0; 1; 1; 0; 0; 0; 0; 1; 1].

Definition ex_facch3 : list Z :=
  [1; 1; 0; 1; 0; 0; 0; 0; 1; 1; 0; 1; 0; 0; 0; 0; 1; 1; 0; 1; 0; 0; 0; 1; 0; 0; 0; 0; 0; 0; 0; 0; 1; 1; 0; 0; 0; 0; 1; 1;
   0; 1; 1; 0; 0; 1; 0; 1; 1; 0; 1; 0; 1; 1; 1; 1; 1; 0; 1; 1; 0; 0; 1; 0; 1; 1; 0; 1; 1; 1; 0; 1; 0; 0; 0; 0; 0; 1; 1; 1;
   1; 0; 1; 1; 0; 0; 0; 1; 1; 0; 1; 1].

(** Its soft guess fails the check; the fallback delivers it.  A FACCH3 of two
    blocks is accepted. *)
Lemma clean_frames_recovered_witness :
  (let ch := snd (channel_decode SACCH (frame_of SACCH ex_sacch2) (ff 60) conv_fresh) in
   good ch = true /\ trellis_buf ch = ex_sacch2) /\
  nxdn_facch3_udch2_crc_ok (snd (facch3_udch2_decode (frame_of FACCH3_UDCH2 ex_facch ++ frame_of FACCH3_UDCH2 ex_facch3) (ff 288) conv_fresh))
    = true.
Proof.
  split.
  - intros ch. destruct (proj1 clean_frames_recovered SACCH ex_sacch2 (ff 60) conv_fresh) as [H1 H2];
      [by_decide|reflexivity|vm_compute; reflexivity|].
    split; [exact H1|]. assert (E : checks SACCH (soft_guess SACCH (frame_of SACCH ex_sacch2) (ff 60) conv_fresh) = false)
      by (vm_compute; reflexivity).
    rewrite E in H2. exact H2.
  - destruct (proj2 clean_frames_recovered ex_facch ex_facch3 (ff 288) conv_fresh) as [H _];
      [split; [by_decide|split; [reflexivity|vm_compute; reflexivity]]..|]. exact H.
Defined.
