(* ===== verification/NxdnViterbi.v ===== *)
(** * The Viterbi decoder that NXDN and M17 share

    [CNXDNConvolution_decode] and [CNXDNConvolution_decode_soft] add, compare
    and select against a table of branch metrics; [CNXDNConvolution_chainback]
    reads the survivor that ends in state zero.  Whatever the branch metrics
    are, that survivor is the cheapest path, where the metrics the previous
    decoding left behind count as the price of the state a path starts in
    ([start] does not clear them); and nothing wraps while they are small. *)
From S2P Require Import Prelude BitPacking NxdnFec.

(** ** Paths *)

(** States are the last four input bits. *)
Definition next_state (s : nat) (b : bool) : nat := ((2 * s + (if b then 1 else 0)) mod 16)%nat.

Fixpoint state_after (s : nat) (u : nat -> bool) (t : nat) : nat :=
  match t with O => s | S t => next_state (state_after s u t) (u t) end.

Lemma state_after_range s u t : (s < 16)%nat -> (state_after s u t < 16)%nat.
Proof. intros H. destruct t; [done|]. unfold state_after, next_state. by apply Nat.mod_upper_bound. Qed.

Section Paths.
(** The branch metric of each step for the first eight states; the label of an
    edge from state [s] with input [b] is the table's at [s mod 8] or its
    complement. *)
Context (full : Z) (metric : nat -> nat -> Z).

Definition branch_cost (t s : nat) (b : bool) : Z :=
  let m := metric t (s mod 8) in if Bool.eqb (8 <=? s)%nat b then m else full - m.

Definition walk_cost (s : nat) (u : nat -> bool) (n : nat) : Z := sum_upto n (fun t => branch_cost t (state_after s u t) (u t)).

Context (Hm : forall t i, (i < 8)%nat -> 0 <= metric t i <= full).

Lemma branch_cost_range t s b : 0 <= branch_cost t s b <= full.
Proof using Hm.
  unfold branch_cost. pose proof (Hm t (s mod 8) ltac:(by apply Nat.mod_upper_bound)). case_match; lia.
Qed.

(** *** The select step *)

Definition arrive0 (old : list Z) (t to : nat) : Z := old.[(to / 2)%nat] + branch_cost t (to / 2) (Nat.odd to).
Definition arrive1 (old : list Z) (t to : nat) : Z := old.[(to / 2 + 8)%nat] + branch_cost t (to / 2 + 8) (Nat.odd to).

(** One step of the code. *)
Definition advances (t : nat) (c c' : conv_statics) : Prop :=
  let old := m_oldMetrics c in
  length (m_oldMetrics c') = 16%nat /\ length (m_newMetrics c') = 16%nat /\
  (forall to, (to < 16)%nat -> (m_oldMetrics c').[to] = Z.min (arrive0 old t to) (arrive1 old t to)) /\
  exists word, m_decisions c' = (m_decisions c).[m_dp c <- word] /\ m_dp c' = S (m_dp c) /\
    forall to, (to < 16)%nat -> Z.testbit word (Z.of_nat to) = (arrive1 old t to <=? arrive0 old t to).

(** The loop of eight states. *)
Lemma acs_loop (a0 a1 d0 d1 : nat -> Z) new n : (forall i, is_bit (d0 i)) -> (forall i, is_bit (d1 i)) ->
  (n <= 8)%nat -> length new = 16%nat ->
  let '(r, word) := for_ 0 n (fun i '(new, word) =>
    let j := (i * 2)%nat in
    (new.[(j + 0)%nat <- a0 i].[(j + 1)%nat <- a1 i],
     Z.lor word (Z.lor (Z.shiftl (d1 i) (Z.of_nat (j + 1))) (Z.shiftl (d0 i) (Z.of_nat (j + 0)))))) (new, 0) in
  length r = 16%nat /\
  (forall to, (to < 2 * n)%nat -> r.[to] = if Nat.odd to then a1 (to / 2)%nat else a0 (to / 2)%nat) /\
  (forall to, Z.testbit word (Z.of_nat to)
     = (to <? 2 * n)%nat && negb ((if Nat.odd to then d1 (to / 2)%nat else d0 (to / 2)%nat) =? 0)).
Proof.
  intros H0 H1 Hn Hl. induction n as [|n IH].
  { rewrite for_nil by lia. split; [done|]. split; [lia|]. intros to. by rewrite Z.bits_0. }
  rewrite for_S by lia. specialize (IH ltac:(lia)). destruct (for_ 0 n _ _) as [r word]. destruct IH as (L & IHr & IHw).
  assert (Hdiv : forall to, (2 * n <= to < 2 * S n)%nat -> (to / 2 = n)%nat /\ (to = 2 * n + (if Nat.odd to then 1 else 0))%nat).
  { intros to Ht. split; [symmetry; apply (Nat.div_unique _ 2 n (to - 2 * n)); lia|].
    destruct (decide (to = 2 * n)%nat) as [->|]; [by rewrite Nat.odd_even; lia|].
    assert (to = 2 * n + 1)%nat as -> by lia. by rewrite Nat.odd_odd. }
  split; [by rewrite !length_insert|]. split.
  - intros to Ht. rewrite !nth_insert, length_insert, L. destruct (decide (n * 2 + 1 = to /\ _)%nat) as [[<- _]|N1].
    { destruct (Hdiv (n * 2 + 1)%nat ltac:(lia)) as [-> E]. by destruct (Nat.odd (n * 2 + 1)); [|lia]. }
    destruct (decide (n * 2 + 0 = to /\ _)%nat) as [[<- _]|N2].
    { destruct (Hdiv (n * 2 + 0)%nat ltac:(lia)) as [-> E]. by destruct (Nat.odd (n * 2 + 0)); [lia|]. }
    apply IHr. lia.
  - intros to. rewrite !Z.lor_spec, IHw.
    assert (B : forall d k, is_bit d -> Z.testbit (Z.shiftl d (Z.of_nat k)) (Z.of_nat to) = (to =? k)%nat && negb (d =? 0)).
    { intros d k Hd. rewrite Z.shiftl_spec by lia. destruct (Nat.eqb_spec to k) as [->|Hne].
      - rewrite Z.sub_diag. by destruct Hd as [-> | ->].
      - destruct Hd as [-> | ->]; [by rewrite Z.bits_0|]. destruct (decide (Z.of_nat to < Z.of_nat k)); [by apply Z.testbit_neg_r; lia|].
        apply Z.bits_above_log2; cbn; lia. }
    rewrite !B by done. destruct (decide (to < 2 * n)%nat) as [Ht|Ht].
    + rewrite (proj2 (Nat.ltb_lt to (2 * n)) Ht), (proj2 (Nat.ltb_lt to (2 * S n))) by lia.
      rewrite (proj2 (Nat.eqb_neq to (n * 2 + 1))), (proj2 (Nat.eqb_neq to (n * 2 + 0))) by lia. by rewrite !orb_false_r.
    + rewrite (proj2 (Nat.ltb_ge to (2 * n))) by lia. destruct (decide (to < 2 * S n)%nat) as [Ht'|Ht'].
      * rewrite (proj2 (Nat.ltb_lt to (2 * S n)) Ht'). destruct (Hdiv to ltac:(lia)) as [-> E]. destruct (Nat.odd to).
        -- rewrite (proj2 (Nat.eqb_eq to (n * 2 + 1))), (proj2 (Nat.eqb_neq to (n * 2 + 0))) by lia. by rewrite orb_false_r.
        -- rewrite (proj2 (Nat.eqb_neq to (n * 2 + 1))), (proj2 (Nat.eqb_eq to (n * 2 + 0))) by lia. done.
      * rewrite (proj2 (Nat.ltb_ge to (2 * S n))) by lia.
        by rewrite (proj2 (Nat.eqb_neq to (n * 2 + 1))), (proj2 (Nat.eqb_neq to (n * 2 + 0))) by lia.
Qed.

Definition conv_wf (c : conv_statics) : Prop := length (m_metrics1 c) = 16%nat /\ length (m_metrics2 c) = 16%nat.

Lemma select_min a b : (if b <=? a then b else a) = Z.min a b.
Proof. destruct (Z.leb_spec b a); lia. Qed.

(** The two decoders share this step: [a0], [a1] are the new metrics of an
    even and an odd state, [d0], [d1] their decisions. *)
Lemma step_advances t c (body : nat -> list Z * Z -> list Z * Z) : conv_wf c ->
  let old := m_oldMetrics c in
  (forall i r word, (i < 8)%nat ->
     let m0 := old.[i] + metric t i in let m1 := old.[(i + 8)%nat] + (full - metric t i) in
     let n0 := old.[i] + (full - metric t i) in let n1 := old.[(i + 8)%nat] + metric t i in
     body i (r, word) =
     (r.[(i * 2 + 0)%nat <- if m1 <=? m0 then m1 else m0].[(i * 2 + 1)%nat <- if n1 <=? n0 then n1 else n0],
      Z.lor word (Z.lor (Z.shiftl (Z.b2z (n1 <=? n0)) (Z.of_nat (i * 2 + 1))) (Z.shiftl (Z.b2z (m1 <=? m0)) (Z.of_nat (i * 2 + 0)))))) ->
  let '(new, word) := for_ 0 NUM_OF_STATES_D2 body (m_newMetrics c, 0) in
  advances t c (conv_advance c new word) /\ conv_wf (conv_advance c new word).
Proof.
  intros [W1 W2] old Hbody.
  set (m0 := fun i => old.[i] + metric t i). set (m1 := fun i => old.[(i + 8)%nat] + (full - metric t i)).
  set (n0 := fun i => old.[i] + (full - metric t i)). set (n1 := fun i => old.[(i + 8)%nat] + metric t i).
  pose proof (acs_loop (fun i => Z.min (m0 i) (m1 i)) (fun i => Z.min (n0 i) (n1 i)) (fun i => Z.b2z (m1 i <=? m0 i))
    (fun i => Z.b2z (n1 i <=? n0 i)) (m_newMetrics c) 8 ltac:(intros; apply b2z_bit) ltac:(intros; apply b2z_bit) (le_n 8)
    ltac:(unfold m_newMetrics; by destruct (old_is_1 c))) as H.
  rewrite <- (for_ext 0 8 body) in H.
  2: { intros i [r word] Hi. rewrite Hbody by lia. cbv zeta. by rewrite !select_min. }
  change NUM_OF_STATES_D2 with 8%nat. destruct (for_ 0 8 body _) as [new word]. destruct H as (L & Hr & Hw).
  assert (Eo : m_oldMetrics (conv_advance c new word) = new) by (unfold m_oldMetrics, conv_advance; cbn; by destruct (old_is_1 c)).
  assert (Earr : forall to, (to < 16)%nat ->
    arrive0 old t to = (if Nat.odd to then n0 (to / 2)%nat else m0 (to / 2)%nat) /\
    arrive1 old t to = (if Nat.odd to then n1 (to / 2)%nat else m1 (to / 2)%nat)).
  { intros to Hto. assert (Hi : (to / 2 < 8)%nat) by (apply Nat.Div0.div_lt_upper_bound; lia). unfold arrive0, arrive1, branch_cost.
    rewrite Nat.mod_small by lia. replace ((to / 2 + 8) mod 8)%nat with (to / 2)%nat
      by (replace (to / 2 + 8)%nat with (to / 2 + 1 * 8)%nat by lia; rewrite Nat.Div0.mod_add, Nat.mod_small; lia).
    rewrite (proj2 (Nat.leb_gt 8 (to / 2))), (proj2 (Nat.leb_le 8 (to / 2 + 8))) by lia.
    destruct (Nat.odd to); cbn [Bool.eqb]; split; reflexivity. }
  split.
  - unfold advances. cbv zeta. fold old. rewrite Eo. split; [done|]. split.
    { unfold m_newMetrics, conv_advance. cbn. by destruct (old_is_1 c). }
    split.
    + intros to Hto. rewrite Hr by lia. destruct (Earr to Hto) as [-> ->]. by destruct (Nat.odd to).
    + exists word. split; [done|]. split; [done|]. intros to Hto. rewrite Hw. rewrite (proj2 (Nat.ltb_lt to (2 * 8))) by lia. cbn [andb].
      destruct (Earr to Hto) as [-> ->]. by destruct (Nat.odd to), (_ <=? _).
  - unfold conv_wf, conv_advance. cbn. by destruct (old_is_1 c).
Qed.
End Paths.

(** ** The two decoders *)

Definition hard_metric (s0 s1 : Z) (i : nat) : Z := Z.abs (BRANCH_TABLE1.[i] - s0) + Z.abs (BRANCH_TABLE2.[i] - s1).
Definition soft_metric (s0 s1 r0 r1 : Z) (i : nat) : Z :=
  Z.min 8 ((Z.abs (BRANCH_TABLE1.[i] - s0) * r0 + Z.abs (BRANCH_TABLE2.[i] - s1) * r1) / 128).

Definition is_symbol (s : Z) : Prop := s = 0 \/ s = 2.

Lemma table_diff1 i s : (i < 8)%nat -> is_symbol s -> 0 <= Z.abs (BRANCH_TABLE1.[i] - s) <= 2.
Proof. intros Hi [-> | ->]; do 8 (destruct i as [|i]; [cbn; lia|]); lia. Qed.

Lemma table_diff2 i s : (i < 8)%nat -> is_symbol s -> 0 <= Z.abs (BRANCH_TABLE2.[i] - s) <= 2.
Proof. intros Hi [-> | ->]; do 8 (destruct i as [|i]; [cbn; lia|]); lia. Qed.

Lemma hard_metric_range s0 s1 i : (i < 8)%nat -> is_symbol s0 -> is_symbol s1 -> 0 <= hard_metric s0 s1 i <= 4.
Proof. intros Hi H0 H1. unfold hard_metric. pose proof (table_diff1 i s0 Hi H0). pose proof (table_diff2 i s1 Hi H1). lia. Qed.

Lemma soft_metric_range s0 s1 r0 r1 i : (i < 8)%nat -> is_symbol s0 -> is_symbol s1 -> 0 <= r0 -> 0 <= r1 ->
  0 <= soft_metric s0 s1 r0 r1 i <= 8.
Proof.
  intros Hi H0 H1 Hr0 Hr1. unfold soft_metric. pose proof (table_diff1 i s0 Hi H0). pose proof (table_diff2 i s1 Hi H1).
  pose proof (Z.div_pos (Z.abs (BRANCH_TABLE1.[i] - s0) * r0 + Z.abs (BRANCH_TABLE2.[i] - s1) * r1) 128 ltac:(nia) ltac:(lia)). lia.
Qed.

(** Metrics too small to wrap in the step. *)
Definition below (B : Z) (l : list Z) : Prop := forall i, (i < 16)%nat -> 0 <= l.[i] <= B.

Lemma hard_advances metric t s0 s1 c : (forall i, (i < 8)%nat -> metric t i = hard_metric s0 s1 i) -> is_symbol s0 -> is_symbol s1 ->
  conv_wf c -> below 65531 (m_oldMetrics c) ->
  advances 4 metric t c (CNXDNConvolution_decode s0 s1 c) /\ conv_wf (CNXDNConvolution_decode s0 s1 c).
Proof.
  intros Hm H0 H1 Hw Hb. unfold CNXDNConvolution_decode.
  match goal with |- context [for_ 0 NUM_OF_STATES_D2 ?body _] => pose proof (step_advances 4 metric t c body Hw) as S end.
  cbv zeta in S. match type of S with ?P -> _ => assert (HP : P) end.
  2: { specialize (S HP). by destruct (for_ 0 NUM_OF_STATES_D2 _ _). }
  clear S. intros i r word Hi. rewrite Hm by done. pose proof (hard_metric_range s0 s1 i Hi H0 H1) as R.
  pose proof (Hb i ltac:(lia)). pose proof (Hb (i + 8)%nat ltac:(lia)).
  fold (hard_metric s0 s1 i). change NUM_OF_STATES_D2 with 8%nat. change CNXDN_M with 4. set (m := hard_metric s0 s1 i) in *.
  rewrite (u16_small m), (u32_small (4 - m)) by lia. rewrite !u16_small by lia.
  destruct (Z.leb_spec ((m_oldMetrics c).[(i + 8)%nat] + (4 - m)) ((m_oldMetrics c).[i] + m)),
    (Z.leb_spec ((m_oldMetrics c).[(i + 8)%nat] + m) ((m_oldMetrics c).[i] + (4 - m))); reflexivity.
Qed.

Lemma soft_advances metric t s0 s1 r0 r1 c : (forall i, (i < 8)%nat -> metric t i = soft_metric s0 s1 r0 r1 i) ->
  is_symbol s0 -> is_symbol s1 -> 0 <= r0 <= 255 -> 0 <= r1 <= 255 -> conv_wf c -> below 65527 (m_oldMetrics c) ->
  advances 8 metric t c (CNXDNConvolution_decode_soft s0 s1 r0 r1 c) /\ conv_wf (CNXDNConvolution_decode_soft s0 s1 r0 r1 c).
Proof.
  intros Hm H0 H1 Hr0 Hr1 Hw Hb. unfold CNXDNConvolution_decode_soft. cbv zeta. change (CNXDN_M * 256 / 128) with 8.
  match goal with |- context [for_ 0 NUM_OF_STATES_D2 ?body _] => pose proof (step_advances 8 metric t c body Hw) as S end.
  cbv zeta in S. match type of S with ?P -> _ => assert (HP : P) end.
  2: { specialize (S HP). by destruct (for_ 0 NUM_OF_STATES_D2 _ _). }
  clear S. intros i r word Hi. rewrite Hm by done. pose proof (soft_metric_range s0 s1 r0 r1 i Hi H0 H1 ltac:(lia) ltac:(lia)) as R.
  pose proof (Hb i ltac:(lia)). pose proof (Hb (i + 8)%nat ltac:(lia)). change NUM_OF_STATES_D2 with 8%nat.
  pose proof (table_diff1 i s0 Hi H0). pose proof (table_diff2 i s1 Hi H1).
  rewrite (u32_small (_ * r0 + _ * r1)) by nia.
  set (x := (Z.abs (BRANCH_TABLE1.[i] - s0) * r0 + Z.abs (BRANCH_TABLE2.[i] - s1) * r1) / 128) in *.
  assert (E : (if 8 <? x then 8 else x) = soft_metric s0 s1 r0 r1 i).
  { unfold soft_metric. fold x. destruct (Z.ltb_spec 8 x); lia. }
  rewrite E. set (m := soft_metric s0 s1 r0 r1 i) in *. rewrite !u32_small by lia.
  destruct (Z.leb_spec ((m_oldMetrics c).[(i + 8)%nat] + (8 - m)) ((m_oldMetrics c).[i] + m)),
    (Z.leb_spec ((m_oldMetrics c).[(i + 8)%nat] + m) ((m_oldMetrics c).[i] + (8 - m))); cbn [Z.eqb negb Z.b2z];
    rewrite !u16_small by lia; reflexivity.
Qed.

(** ** The output bits *)

Definition out_bit (out : list Z) (k : nat) : bool := Z.testbit (out.[(k / 8)%nat]) (Z.of_nat (7 - k mod 8)).

Lemma write_bit_spec p i b : (i / 8 < length p)%nat ->
  length (WRITE_BIT1 p i b) = length p /\ forall k, out_bit (WRITE_BIT1 p i b) k = if decide (k = i) then b else out_bit p k.
Proof.
  intros Hi. unfold WRITE_BIT1. split; [by rewrite length_insert|]. intros k. unfold out_bit. rewrite nth_insert.
  assert (Hr : (i mod 8 < 8)%nat) by (by apply Nat.mod_upper_bound).
  assert (Hk8 : (k mod 8 < 8)%nat) by (by apply Nat.mod_upper_bound).
  assert (Hmask : BIT_MASK_TABLE.[(i mod 8)%nat] = 2 ^ Z.of_nat (7 - i mod 8)).
  { generalize dependent (i mod 8)%nat. intros r Hr. do 8 (destruct r as [|r]; [done|]). lia. }
  destruct (decide (k = i)) as [->|Hne].
  - rewrite decide_True by done. rewrite Hmask. destruct b.
    + by rewrite Z.lor_spec, Z.pow2_bits_true, orb_true_r by lia.
    + unfold u8, wrap. rewrite Z.mod_pow2_bits_low by lia. by rewrite Z.land_spec, Z.lnot_spec, Z.pow2_bits_true, andb_false_r by lia.
  - destruct (decide (i / 8 = k / 8 /\ _)%nat) as [[E _]|]; [|done]. rewrite Hmask.
    assert (Hd : Z.of_nat (7 - i mod 8) <> Z.of_nat (7 - k mod 8)).
    { intros Eq. apply Hne. rewrite (Nat.div_mod_eq k 8), (Nat.div_mod_eq i 8). lia. }
    rewrite <- E. destruct b.
    + by rewrite Z.lor_spec, Z.pow2_bits_false, orb_false_r by lia.
    + unfold u8, wrap. rewrite Z.mod_pow2_bits_low by lia. by rewrite Z.land_spec, Z.lnot_spec, Z.pow2_bits_false, andb_true_r by lia.
Qed.

(** ** The survivor *)

Section Run.
(** The decoder after each step, from [start] on. *)
Context (full : Z) (metric : nat -> nat -> Z) (c : nat -> conv_statics).
Notation metrics t := (m_oldMetrics (c t)).
Notation branch := (branch_cost full metric).
Notation walk := (walk_cost full metric).

Definition decides (t to : nat) : bool := arrive1 full metric (metrics t) t to <=? arrive0 full metric (metrics t) t to.
Definition pred (t to : nat) : nat := (to / 2 + if decides t to then 8 else 0)%nat.

Lemma pred_spec t to : (to < 16)%nat -> (pred t to < 16)%nat /\ next_state (pred t to) (Nat.odd to) = to /\
  (8 <=? pred t to)%nat = decides t to.
Proof using.
  intros Hto. assert (H2 : (to / 2 < 8)%nat) by (apply Nat.Div0.div_lt_upper_bound; lia).
  assert (E : (to = 2 * (to / 2) + (if Nat.odd to then 1 else 0))%nat).
  { rewrite (Nat.div_mod_eq to 2) at 1. f_equal. rewrite <- Nat.bit0_mod, Nat.bit0_odd. by destruct (Nat.odd to). }
  unfold pred. split; [destruct (decides t to); lia|]. split.
  - unfold next_state. destruct (decides t to).
    + replace (2 * (to / 2 + 8) + (if Nat.odd to then 1 else 0))%nat with (to + 1 * 16)%nat by lia.
      by rewrite Nat.Div0.mod_add, Nat.mod_small.
    + rewrite Nat.add_0_r, <- E. by apply Nat.mod_small.
  - destruct (decides t to); [by apply Nat.leb_le; lia|by apply Nat.leb_gt; lia].
Qed.

Context (n : nat) (Hstart : m_dp (c 0%nat) = 0%nat) (Hcap : (n <= length (m_decisions (c 0%nat)))%nat)
  (Hrun : forall t, (t < n)%nat -> advances full metric t (c t) (c (S t))).

Lemma run_dp t : (t <= n)%nat -> m_dp (c t) = t /\ length (m_decisions (c t)) = length (m_decisions (c 0%nat)).
Proof using Hcap Hrun Hstart.
  induction t as [|t IH]; intros Ht; [done|]. destruct (Hrun t ltac:(lia)) as (_ & _ & _ & word & E1 & E2 & _).
  destruct (IH ltac:(lia)) as [I1 I2]. rewrite E2, E1, I1, length_insert. done.
Qed.

(** The word of step [t] is still there after the later steps. *)
Lemma run_decisions k t to : (t < k <= n)%nat -> (to < 16)%nat -> Z.testbit ((m_decisions (c k)).[t]) (Z.of_nat to) = decides t to.
Proof using Hcap Hrun Hstart.
  intros [Ht Hk] Hto. induction k as [|k IH]; [lia|]. destruct (Hrun k ltac:(lia)) as (_ & _ & _ & word & E1 & _ & E3).
  destruct (run_dp k ltac:(lia)) as [D1 D2]. rewrite E1, D1, nth_insert. destruct (decide (k = t /\ _)) as [[-> _]|Hne].
  - rewrite E3 by done. reflexivity.
  - apply IH; [|lia]. destruct (decide (k = t)) as [->|]; [exfalso; apply Hne; split; [done|]; lia|lia].
Qed.

(** The metric of a state bounds the price of every path to it. *)
Lemma run_lower s u t : (t <= n)%nat -> (s < 16)%nat -> (metrics t).[state_after s u t] <= (metrics 0%nat).[s] + walk s u t.
Proof using Hcap Hrun Hstart.
  intros Ht Hs. induction t as [|t IH]; [unfold walk_cost, sum_upto; cbn; lia|].
  specialize (IH ltac:(lia)). destruct (Hrun t ltac:(lia)) as (_ & _ & E & _).
  pose proof (state_after_range s u t Hs) as Hx. set (x := state_after s u t) in *.
  unfold walk_cost. rewrite sum_upto_S. fold (walk s u t). cbn [state_after]. fold x.
  assert (Hto : (next_state x (u t) < 16)%nat) by (by apply Nat.mod_upper_bound). rewrite E by done.
  set (to := next_state x (u t)) in *.
  assert (Hodd : Nat.odd to = u t /\ (to / 2 = x mod 8)%nat).
  { unfold to, next_state. do 16 (destruct x as [|x]; [by destruct (u t)|]). lia. }
  destruct Hodd as [Ho Hd]. unfold arrive0, arrive1. rewrite Ho, Hd.
  assert (x = x mod 8 \/ x = x mod 8 + 8)%nat as Hcase.
  { do 16 (destruct x as [|x]; [(by left) || (by right)|]). lia. }
  destruct Hcase as [Ex|Ex]; rewrite <- Ex; lia.
Qed.

(** The survivor into state zero: its state [j] steps before the end, and
    its inputs. *)
Fixpoint survivor (j : nat) : nat := match j with O => O | S j => pred (n - 1 - j) (survivor j) end.
Definition survivor_input (t : nat) : bool := Nat.odd (survivor (n - S t)).

Lemma survivor_range j : (survivor j < 16)%nat.
Proof using Hcap Hrun Hstart. induction j as [|j IH]; [cbn; lia|]. by apply pred_spec. Qed.

Lemma survivor_step t : (t < n)%nat -> survivor (n - t) = pred t (survivor (n - S t)).
Proof using Hcap Hrun Hstart.
  intros Ht. replace (n - t)%nat with (S (n - S t)) by lia. cbn [survivor]. f_equal. lia.
Qed.

Lemma survivor_path t : (t <= n)%nat -> state_after (survivor n) survivor_input t = survivor (n - t).
Proof using Hcap Hrun Hstart.
  induction t as [|t IH]; intros Ht; [by rewrite Nat.sub_0_r|]. cbn [state_after]. rewrite IH, survivor_step by lia.
  apply pred_spec, survivor_range.
Qed.

Lemma survivor_price t : (t <= n)%nat ->
  (metrics t).[survivor (n - t)] = (metrics 0%nat).[survivor n] + walk (survivor n) survivor_input t.
Proof using Hcap Hrun Hstart.
  induction t as [|t IH]; intros Ht; [rewrite Nat.sub_0_r; unfold walk_cost, sum_upto; cbn; lia|].
  unfold walk_cost. rewrite sum_upto_S. fold (walk (survivor n) survivor_input t). rewrite survivor_path by lia.
  destruct (Hrun t ltac:(lia)) as (_ & _ & E & _). specialize (IH ltac:(lia)).
  pose proof (survivor_range (n - S t)) as Hy. rewrite E by done. rewrite (survivor_step t) in IH |- * by lia.
  change (survivor_input t) with (Nat.odd (survivor (n - S t))). set (y := survivor (n - S t)) in *.
  assert (Ep : Z.min (arrive0 full metric (metrics t) t y) (arrive1 full metric (metrics t) t y)
    = (metrics t).[pred t y] + branch t (pred t y) (Nat.odd y)).
  { unfold pred, decides. destruct (Z.leb_spec (arrive1 full metric (metrics t) t y) (arrive0 full metric (metrics t) t y));
      [rewrite Z.min_r by lia; done|rewrite Z.min_l by lia]. by rewrite Nat.add_0_r. }
  rewrite Ep. lia.
Qed.

Lemma survivor_cheapest s u : (s < 16)%nat -> state_after s u n = 0%nat ->
  (metrics 0%nat).[survivor n] + walk (survivor n) survivor_input n <= (metrics 0%nat).[s] + walk s u n.
Proof using Hcap Hrun Hstart.
  intros Hs H0. pose proof (run_lower s u n (le_n n) Hs) as H. rewrite H0 in H.
  pose proof (survivor_price n (le_n n)) as E. rewrite Nat.sub_diag in E. cbn [survivor] in E. lia.
Qed.

Lemma oldest_input y b0 b1 b2 b3 : (y < 16)%nat ->
  (8 <=? next_state (next_state (next_state (next_state y b0) b1) b2) b3)%nat = b0.
Proof using Hcap Hrun Hstart. intros Hy. do 16 (destruct y as [|y]; [by destruct b0, b1, b2, b3|]). lia. Qed.

Lemma survivor_oldest k : (k + 4 <= n)%nat -> (8 <=? survivor (n - (k + 4)))%nat = survivor_input k.
Proof using Hcap Hrun Hstart.
  intros Hk. rewrite <- survivor_path by lia. replace (k + 4)%nat with (S (S (S (S k)))) by lia. cbn [state_after].
  apply oldest_input, state_after_range, survivor_range.
Qed.

(** The loop of [chainback] reads the survivor's oldest inputs off the decisions. *)
Lemma chainback_survivor dec k state out : (forall t to, (t < n)%nat -> (to < 16)%nat ->
    Z.testbit (dec.[t]) (Z.of_nat to) = decides t to) ->
  (k + 4 <= n)%nat -> (k <= 8 * length out)%nat -> 0 <= state < 256 -> Z.shiftr state 4 = Z.of_nat (survivor (n - (k + 4))) ->
  let r := snd (chainback_loop k dec (k + 4) state out) in
  length r = length out /\ forall j, out_bit r j = if decide (j < k)%nat then survivor_input j else out_bit out j.
Proof using Hcap Hrun Hstart.
  intros Hdec. revert state out. induction k as [|k IH]; intros state out Hk Hl Hs Hst.
  { split; [done|]. intros j. by destruct (decide (j < 0)%nat); [lia|]. }
  cbn [chainback_loop]. change (S k + 4)%nat with (S (k + 4)). cbn [Nat.pred]. change (9 - CNXDN_K) with 4.
  rewrite Hst. set (y := survivor (n - (S k + 4))) in *. pose proof (survivor_range (n - (S k + 4))) as Hy. fold y in Hy.
  assert (Eb : Z.land (u8 (Z.shiftr (dec.[(k + 4)%nat]) (Z.of_nat y))) 1 = Z.b2z (survivor_input k)).
  { rewrite land1_testbit. unfold u8, wrap. rewrite Z.mod_pow2_bits_low, Z.shiftr_spec, Z.add_0_l by lia. f_equal.
    rewrite Hdec by lia. rewrite <- survivor_oldest by lia. rewrite (survivor_step (k + 4)) by lia.
    symmetry. apply pred_spec, survivor_range. }
  rewrite Eb. assert (Ed : negb (Z.b2z (survivor_input k) =? 0) = survivor_input k) by (by destruct (survivor_input k)). rewrite Ed.
  assert (H2 : 0 <= Z.shiftr state 1 < 128) by (rewrite Z.shiftr_div_pow2 by lia; split; [apply Z.div_pos; lia|apply Z.div_lt_upper_bound; lia]).
  assert (Ev : Z.lor (Z.shiftl (Z.b2z (survivor_input k)) 7) (Z.shiftr state 1) = Z.b2z (survivor_input k) * 128 + Z.shiftr state 1).
  { rewrite lor_shiftl by lia. reflexivity. }
  destruct (write_bit_spec out k (survivor_input k)) as [W1 W2]; [apply Nat.Div0.div_lt_upper_bound; lia|].
  destruct (IH (Z.lor (Z.shiftl (Z.b2z (survivor_input k)) 7) (Z.shiftr state 1)) (WRITE_BIT1 out k (survivor_input k))) as [I1 I2].
  - lia.
  - rewrite W1. lia.
  - rewrite Ev. destruct (survivor_input k); cbn [Z.b2z]; lia.
  - rewrite Ev. rewrite (survivor_step (k + 4)) by lia. change (n - S (k + 4))%nat with (n - (S k + 4))%nat. fold y.
    assert (E5 : Z.shiftr (Z.shiftr state 1) 4 = Z.of_nat (y / 2)).
    { rewrite Z.shiftr_shiftr by lia. replace (1 + 4) with (4 + 1) by lia. rewrite <- Z.shiftr_shiftr, Hst by lia.
      rewrite Z.shiftr_div_pow2, Nat2Z.inj_div by lia. reflexivity. }
    rewrite Z.shiftr_div_pow2 in E5 |- * by lia. change (2 ^ 4) with 16 in *.
    replace (Z.b2z (survivor_input k) * 128 + Z.shiftr state 1) with (Z.shiftr state 1 + Z.b2z (survivor_input k) * 8 * 16) by lia.
    rewrite Z.div_add, E5 by lia. rewrite <- survivor_oldest by lia. rewrite (survivor_step (k + 4)) by lia.
    change (n - S (k + 4))%nat with (n - (S k + 4))%nat. fold y. destruct (pred_spec (k + 4) y Hy) as (_ & _ & ->).
    unfold pred. destruct (decides (k + 4) y); cbn [Z.b2z]; lia.
  - cbv zeta in I1, I2. split; [by rewrite I1, W1|]. intros j. rewrite I2, W2.
    destruct (decide (j < k)%nat), (decide (j < S k)%nat), (decide (j = k)) as [->|]; lia || done.
Qed.
End Run.

(** ** Runs that do not wrap *)

Lemma branch_cost_le full metric t s b : (forall i, (i < 8)%nat -> 0 <= metric t i <= full) -> 0 <= branch_cost full metric t s b <= full.
Proof. intros Hm. unfold branch_cost. pose proof (Hm (s mod 8)%nat ltac:(by apply Nat.mod_upper_bound)). case_match; lia. Qed.

Section Runs.
Context (full B : Z) (metric : nat -> nat -> Z) (step : nat -> conv_statics -> conv_statics) (n : nat) (c0 : conv_statics).
Context (Hm : forall t i, (t < n)%nat -> (i < 8)%nat -> 0 <= metric t i <= full)
  (Hwf : conv_wf c0) (Hdec : (n <= length (m_decisions c0))%nat)
  (Hbelow : below B (m_metrics1 c0)) (Hsmall : B + full * Z.of_nat n <= 65535) (Hfull : 0 <= full)
  (Hstep : forall t c, (t < n)%nat -> conv_wf c -> below (65535 - full) (m_oldMetrics c) ->
     advances full metric t c (step t c) /\ conv_wf (step t c)).

Definition conv_run (t : nat) : conv_statics := for_ 0 t step (CNXDNConvolution_start c0).

Lemma run_S t : conv_run (S t) = step t (conv_run t).
Proof using. unfold conv_run. apply for_S, Nat.le_0_l. Qed.

Lemma run_small t : (t <= n)%nat -> conv_wf (conv_run t) /\ below (B + full * Z.of_nat t) (m_oldMetrics (conv_run t)) /\
  ((t < n)%nat -> advances full metric t (conv_run t) (conv_run (S t))).
Proof using Hm Hwf Hdec Hbelow Hsmall Hfull Hstep.
  induction t as [|t IH]; intros Ht.
  - assert (H0 : conv_wf (conv_run 0) /\ below (B + full * Z.of_nat 0) (m_oldMetrics (conv_run 0))).
    { split; [exact Hwf|]. intros i Hi. pose proof (Hbelow i Hi). change (m_oldMetrics (conv_run 0)) with (m_metrics1 c0). lia. }
    destruct H0 as [H1 H2]. split; [done|]. split; [done|]. intros Hn. rewrite (run_S 0). apply Hstep; [done|done|].
    intros i Hi. specialize (H2 i Hi). nia.
  - destruct (IH ltac:(lia)) as (I1 & I2 & I3). specialize (I3 ltac:(lia)).
    assert (Hw : conv_wf (conv_run (S t))).
    { rewrite run_S. apply Hstep; [lia|done|]. intros i Hi. specialize (I2 i Hi). nia. }
    assert (Hb : below (B + full * Z.of_nat (S t)) (m_oldMetrics (conv_run (S t)))).
    { intros to Hto. destruct I3 as (_ & _ & E & _). rewrite E by done. unfold arrive0, arrive1.
      assert (H8 : (to / 2 < 8)%nat) by (apply Nat.Div0.div_lt_upper_bound; lia).
      pose proof (I2 (to / 2)%nat ltac:(lia)). pose proof (I2 (to / 2 + 8)%nat ltac:(lia)).
      pose proof (branch_cost_le full metric t (to / 2) (Nat.odd to) ltac:(intros; apply Hm; lia)).
      pose proof (branch_cost_le full metric t (to / 2 + 8) (Nat.odd to) ltac:(intros; apply Hm; lia)). lia. }
    split; [done|]. split; [done|]. intros Hn. rewrite (run_S (S t)). apply Hstep; [done|done|].
    intros i Hi. specialize (Hb i Hi). nia.
Qed.

(** What [chainback] returns is the cheapest path that ends in state zero. *)
Lemma run_cheapest nBits out : (n = nBits + 4)%nat -> (nBits <= 8 * length out)%nat ->
  let r := snd (CNXDNConvolution_chainback out nBits (conv_run n)) in
  exists s u, (s < 16)%nat /\ state_after s u n = 0%nat /\ length r = length out /\
    (forall k, out_bit r k = if decide (k < nBits)%nat then u k else out_bit out k) /\
    forall s' u', (s' < 16)%nat -> state_after s' u' n = 0%nat ->
      (m_metrics1 c0).[s] + walk_cost full metric s u n <= (m_metrics1 c0).[s'] + walk_cost full metric s' u' n.
Proof using Hm Hwf Hdec Hbelow Hsmall Hfull Hstep.
  intros Hn Ho. assert (Hrun : forall t, (t < n)%nat -> advances full metric t (conv_run t) (conv_run (S t))) by (intros t Ht; by apply run_small; lia).
  assert (Hcap : (n <= length (m_decisions (conv_run 0)))%nat) by exact Hdec.
  pose proof (run_dp full metric conv_run n eq_refl Hcap Hrun n (le_n n)) as [Hdp _].
  destruct (chainback_survivor full metric conv_run n eq_refl Hcap Hrun (m_decisions (conv_run n)) nBits 0 out) as [R1 R2].
  - intros t to Ht Hto. by apply (run_decisions full metric conv_run n eq_refl Hcap Hrun).
  - lia.
  - done.
  - lia.
  - by replace (n - (nBits + 4))%nat with 0%nat by lia.
  - cbv zeta in R1, R2. unfold CNXDNConvolution_chainback. rewrite Hdp, Hn. rewrite Hn in R1, R2.
    destruct (chainback_loop nBits _ _ _ _) as [dp r]. cbn [snd] in *.
    exists (survivor full metric conv_run n n), (survivor_input full metric conv_run n).
    split; [by apply (survivor_range full metric conv_run n eq_refl Hcap Hrun)|].
    split; [rewrite <- Hn; rewrite (survivor_path full metric conv_run n eq_refl Hcap Hrun n) by lia; by rewrite Nat.sub_diag|].
    split; [done|]. split; [intros k; rewrite R2, Hn; done|]. intros s' u' Hs' H0. rewrite <- Hn in H0 |- *.
    exact (survivor_cheapest full metric conv_run n eq_refl Hcap Hrun s' u' Hs' H0).
Qed.

(** What a decoding leaves to the next. *)
Lemma run_leaves : (0 < n)%nat -> (forall t c, m_newMetrics (step t c) = m_oldMetrics c) ->
  conv_wf (conv_run n) /\ length (m_decisions (conv_run n)) = length (m_decisions c0) /\
  below (B + full * Z.of_nat n) (m_metrics1 (conv_run n)).
Proof using Hm Hwf Hdec Hbelow Hsmall Hfull Hstep.
  intros Hn Hswap. assert (Hrun : forall t, (t < n)%nat -> advances full metric t (conv_run t) (conv_run (S t))) by (intros t Ht; by apply run_small; lia).
  destruct (run_small n ltac:(lia)) as (W & Bo & _). split; [done|]. split.
  { by destruct (run_dp full metric conv_run n eq_refl Hdec Hrun n (le_n n)). }
  destruct (run_small (n - 1) ltac:(lia)) as (_ & Bn & _). specialize (Hswap (n - 1)%nat (conv_run (n - 1))).
  rewrite <- run_S, <- Hswap in Bn || rewrite <- Hswap, <- run_S in Bn. replace (S (n - 1)) with n in Bn by lia.
  unfold m_oldMetrics in Bo. unfold m_newMetrics in Bn. destruct (old_is_1 (conv_run n)); [done|].
  intros i Hi. specialize (Bn i Hi). nia.
Qed.
End Runs.

(** ** Theorems *)

Lemma symbol_of b : is_bit b -> is_symbol (u8 (Z.shiftl b 1)).
Proof. intros [-> | ->]; [by left|by right]. Qed.

Definition soft_table (depunc depunc_rel : list Z) (t i : nat) : Z :=
  soft_metric (u8 (Z.shiftl (depunc.[(t * 2)%nat]) 1)) (u8 (Z.shiftl (depunc.[(t * 2 + 1)%nat]) 1))
    (depunc_rel.[(t * 2)%nat]) (depunc_rel.[(t * 2 + 1)%nat]) i.

Lemma soft_swaps s0 s1 r0 r1 c : m_newMetrics (CNXDNConvolution_decode_soft s0 s1 r0 r1 c) = m_oldMetrics c.
Proof.
  unfold CNXDNConvolution_decode_soft. destruct (for_ 0 _ _ _) as [new word].
  unfold m_newMetrics, m_oldMetrics, conv_advance. cbn. by destruct (old_is_1 c).
Qed.

(** C35: The soft decoder returns the cheapest path while no metric can wrap.
    Let the metrics the previous decoding left be at most B, and eight for each
    step of this one still fit: B + 8 n <= 65535.  Then for any received bits
    and reliabilities, among all paths through the code that end in state zero,
    from any state, the inputs of the one the decoder writes cost least by the
    decoder's own branch metric, the metrics left over counting as the price of
    the starting state; no other output bit is touched; and what is left to the
    next decoding is at most B + 8 n.  So the claim holds from start-up for as
    many frames as have 8191 steps together (227 of a SACCH), and says nothing
    of later ones: the code never clears the metrics. *)
Theorem soft_decoder_cheapest depunc depunc_rel nBits m_data B c :
  let n := (nBits + 4)%nat in
  bits depunc -> Forall (fun r => 0 <= r <= 255) depunc_rel -> conv_wf c -> (n <= length (m_decisions c))%nat ->
  below B (m_metrics1 c) -> B + 8 * Z.of_nat n <= 65535 -> (nBits <= 8 * length m_data)%nat ->
  let '(c', r) := nxdn_conv_decode_soft depunc depunc_rel (2 * n) m_data nBits c in
  (conv_wf c' /\ length (m_decisions c') = length (m_decisions c) /\ below (B + 8 * Z.of_nat n) (m_metrics1 c')) /\
  exists s u, (s < 16)%nat /\ state_after s u n = 0%nat /\ length r = length m_data /\
    (forall k, out_bit r k = if decide (k < nBits)%nat then u k else out_bit m_data k) /\
    forall s' u', (s' < 16)%nat -> state_after s' u' n = 0%nat ->
      (m_metrics1 c).[s] + walk_cost 8 (soft_table depunc depunc_rel) s u n
      <= (m_metrics1 c).[s'] + walk_cost 8 (soft_table depunc depunc_rel) s' u' n.
Proof.
  intros n Hb Hr Hw Hd Hm HB Ho. unfold nxdn_conv_decode_soft.
  assert (Hrel : forall i, 0 <= depunc_rel.[i] <= 255).
  { intros i. destruct (decide (i < length depunc_rel)%nat) as [Hi|Hi]; [|rewrite nth_overflow by lia; lia].
    rewrite nth_lookup. destruct (lookup_lt_is_Some_2 _ _ Hi) as [x Hx]. rewrite Hx. exact (Forall_lookup_1 _ _ _ _ Hr Hx). }
  assert (E2 : (2 * n / 2 = n)%nat) by (rewrite Nat.mul_comm; by apply Nat.div_mul). rewrite E2.
  set (step := fun i c => CNXDNConvolution_decode_soft _ _ _ _ c).
  assert (Hrange : forall t i, (t < n)%nat -> (i < 8)%nat -> 0 <= soft_table depunc depunc_rel t i <= 8).
  { intros t i Ht Hi. apply soft_metric_range; [done|apply symbol_of, bits_nth, Hb|apply symbol_of, bits_nth, Hb|apply Hrel|apply Hrel]. }
  assert (Hstep : forall t c, (t < n)%nat -> conv_wf c -> below (65535 - 8) (m_oldMetrics c) ->
    advances 8 (soft_table depunc depunc_rel) t c (step t c) /\ conv_wf (step t c)).
  { intros t c' Ht Hw' Hb'. unfold step. apply soft_advances; [done|apply symbol_of, bits_nth, Hb|apply symbol_of, bits_nth, Hb|apply Hrel|apply Hrel|done|done]. }
  pose proof (run_leaves 8 B (soft_table depunc depunc_rel) step n c Hrange Hw Hd Hm HB ltac:(lia) Hstep ltac:(lia)
    (fun t c => soft_swaps _ _ _ _ c)) as L.
  pose proof (run_cheapest 8 B (soft_table depunc depunc_rel) step n c Hrange Hw Hd Hm HB ltac:(lia) Hstep nBits m_data eq_refl Ho) as R.
  unfold conv_run in L, R. set (c1 := for_ 0 n step _) in *. clearbody c1. unfold CNXDNConvolution_chainback in R |- *.
  destruct (chainback_loop nBits _ _ _ _) as [dp r]. by split.
Qed.

(** The two bits sent on an edge. *)
Definition edge_bits (s : nat) (b : bool) : Z * Z :=
  let reg := Z.of_nat (2 * s + if b then 1 else 0) in
  (PARITY.[Z.to_nat (Z.land reg 0x19)], PARITY.[Z.to_nat (Z.land reg 0x17)]).

(** The number of received bits that differ from those of a path. *)
Definition path_distance (x : list Z) (s : nat) (u : nat -> bool) (n : nat) : Z :=
  sum_upto n (fun t => let '(o0, o1) := edge_bits (state_after s u t) (u t) in
    Z.abs (x.[(2 * t)%nat] - o0) + Z.abs (x.[(2 * t + 1)%nat] - o1)).

Definition hard_table (x : list Z) (t i : nat) : Z :=
  hard_metric (u8 (Z.shiftl (x.[(2 * t)%nat]) 1)) (u8 (Z.shiftl (x.[(2 * t + 1)%nat]) 1)) i.

Lemma hard_cost_distance x s u n : bits x -> (s < 16)%nat -> walk_cost 4 (hard_table x) s u n = 2 * path_distance x s u n.
Proof.
  intros Hx Hs. unfold walk_cost, path_distance. rewrite <- sum_upto_mul_l. apply sum_upto_ext. intros t _.
  pose proof (state_after_range s u t Hs) as Hy. set (y := state_after s u t) in *. clearbody y. unfold branch_cost, hard_table.
  destruct (bits_nth x (2 * t) Hx) as [-> | ->], (bits_nth x (2 * t + 1) Hx) as [-> | ->];
    do 16 (destruct y as [|y]; [by destruct (u t)|]); lia.
Qed.

(** C34: The hard decoder M17 uses returns the nearest codeword.  When the
    metrics left over are equal and small enough, the bits it writes are the
    inputs of a path into state zero that differs from the received bits in as
    few places as any such path. *)
Theorem hard_decoder_nearest x nBits m_data B c :
  let n := (nBits + 4)%nat in
  bits x -> conv_wf c -> (n <= length (m_decisions c))%nat ->
  m_metrics1 c = replicate 16 B -> 0 <= B -> B + 4 * Z.of_nat n <= 65535 -> (nBits <= 8 * length m_data)%nat ->
  let r := snd (m17_conv_decode x n m_data nBits c) in
  exists s u, (s < 16)%nat /\ state_after s u n = 0%nat /\ (forall k, (k < nBits)%nat -> out_bit r k = u k) /\
    forall s' u', (s' < 16)%nat -> state_after s' u' n = 0%nat -> path_distance x s u n <= path_distance x s' u' n.
Proof.
  intros n Hb Hw Hd Hm HB0 HB Ho r.
  assert (HBn : forall i, (i < 16)%nat -> (m_metrics1 c).[i] = B).
  { intros i Hi. rewrite Hm. do 16 (destruct i as [|i]; [done|]). lia. }
  destruct (run_cheapest 4 B (hard_table x) (fun i c => CNXDNConvolution_decode (u8 (Z.shiftl (x.[(2 * i)%nat]) 1))
    (u8 (Z.shiftl (x.[(2 * i + 1)%nat]) 1)) c) n c) with (nBits := nBits) (out := m_data) as (s & u & Hs & H0 & _ & Hout & Hopt); try done; try lia.
  - intros t i Ht Hi. apply hard_metric_range; [done|apply symbol_of, bits_nth, Hb|apply symbol_of, bits_nth, Hb].
  - intros i Hi. rewrite HBn by done. lia.
  - intros t c' Ht Hw' Hb'. apply hard_advances; try done; apply symbol_of; by apply bits_nth.
  - exists s, u. split; [done|]. split; [done|]. split.
    + intros k Hk. unfold r, m17_conv_decode. pose proof (Hout k) as E. rewrite decide_True in E by done. exact E.
    + intros s' u' Hs' H0'. specialize (Hopt s' u' Hs' H0'). rewrite !HBn, !hard_cost_distance in Hopt by done. lia.
Qed.

(** A pair of which only the first bit was sent, and arrived as a 1 with full
    reliability: the branch that agrees costs five, and one that does not,
    three. *)
Lemma unsent_bit_charged :
  let m := fun _ => soft_metric 2 0 255 0 in
  fst (edge_bits 8 false) = 1 /\ branch_cost 8 m 0 8 false = 5 /\
  fst (edge_bits 0 false) = 0 /\ branch_cost 8 m 0 0 false = 3.
Proof. vm_compute. done. Qed.

Definition ex_sent : list Z := trellis_encode (replicate 24 0) [1; 1; 0; 1; 0; 0; 1; 1; 0; 0; 0; 0] 24 0.

(** Metrics as frames leave them, near 2^16: the next clean frame is misread
    when they wrap; from cleared metrics it is not. *)
Lemma wrapped_metrics_misread :
  let old := [65522; 65526; 65528; 65528; 65530; 65530; 65528; 65526; 65530; 65530; 65524; 65528; 65528; 65528; 65528; 65528] in
  snd (m17_conv_decode ex_sent 12 [0] 8 (mk_conv old (replicate 16 0) (replicate 2400 0) true 0)) = [0x53] /\
  snd (m17_conv_decode ex_sent 12 [0] 8 conv_fresh) = [0xD3].
Proof. vm_compute. done. Qed.

Lemma hard_decoder_nearest_witness :
  exists s u, (s < 16)%nat /\ state_after s u 12 = 0%nat /\
    (forall k, (k < 8)%nat -> out_bit [0xD3] k = u k) /\
    forall s' u', (s' < 16)%nat -> state_after s' u' 12 = 0%nat ->
      path_distance (ex_sent.[5%nat <- 1]) s u 12 <= path_distance (ex_sent.[5%nat <- 1]) s' u' 12.
Proof.
  assert (E : snd (m17_conv_decode (ex_sent.[5%nat <- 1]) 12 [0] 8 conv_fresh) = [0xD3]) by (vm_compute; reflexivity).
  rewrite <- E. apply (hard_decoder_nearest (ex_sent.[5%nat <- 1]) 8 [0] 0 conv_fresh); try by_decide; done.
Defined.

Lemma soft_decoder_cheapest_witness :
  let '(c', r) := nxdn_conv_decode_soft ex_sent (replicate 24 255) 24 [0] 8 conv_fresh in
  (conv_wf c' /\ length (m_decisions c') = 2400%nat /\ below 96 (m_metrics1 c')) /\
  exists s u, (s < 16)%nat /\ state_after s u 12 = 0%nat /\ length r = 1%nat /\
    (forall k, out_bit r k = if decide (k < 8)%nat then u k else out_bit [0] k) /\
    forall s' u', (s' < 16)%nat -> state_after s' u' 12 = 0%nat ->
      (m_metrics1 conv_fresh).[s] + walk_cost 8 (soft_table ex_sent (replicate 24 255)) s u 12
      <= (m_metrics1 conv_fresh).[s'] + walk_cost 8 (soft_table ex_sent (replicate 24 255)) s' u' 12.
Proof.
  apply (soft_decoder_cheapest ex_sent (replicate 24 255) 8 [0] 0 conv_fresh); try by_decide; try done.
  intros i Hi. assert (E : m_metrics1 conv_fresh = replicate 16 0) by reflexivity. rewrite E, nth_replicate. lia.
Defined.
