(* ===== verification/NxdnChecks.v ===== *)
(** * NXDN: what the channel checks detect

    The checks of [nxdn_deperm.c] and [nxdn_dcr_utils.c] are shift registers
    held as arrays of bits (CRC-6, 7, 12 and 15), or a remainder that has to
    vanish (the CAC).  Each is the register of [Crc]'s theory, and no error
    within as many consecutive bits as the check has goes undetected. *)
From S2P Require Import Prelude BitPacking Crc NxdnFec NxdnClean.

(** ** Registers held as arrays *)

Definition value (w : nat) (s : list Z) : Z := bits_value w (fun i => s.[i]).

(** One turn of a register with feedback [a]. *)
Definition register_step (w : nat) (poly : Z) (s s' : list Z) (a : Z) : Prop :=
  length s' = w /\ forall i, (i < w)%nat ->
    s'.[i] = Z.lxor (if (S i <? w)%nat then s.[S i] else 0) (if Z.testbit poly (Z.of_nat (w - 1 - i)) then a else 0).

Section Register.
Context (w : nat) (poly : Z) (Hw : (0 < w <= 16)%nat) (Hpoly : 0 <= poly < 2 ^ Z.of_nat w).

Lemma register_crc_step s s' b : bits s -> is_bit b -> register_step w poly s s' (Z.lxor b (s.[0%nat])) ->
  bits s' /\ value w s' = crc_step w poly (value w s) b.
Proof using Hw Hpoly.
  intros Hs Hb [Hl H]. assert (Hs' : bits s').
  { apply Forall_lookup_2. intros i x Hx. pose proof (lookup_lt_Some _ _ _ Hx) as Hi. rewrite Hl in Hi.
    assert (Ex : x = s'.[i]) by (by rewrite nth_lookup, Hx). rewrite Ex, (H i Hi).
    apply is_bit_lxor.
    - destruct (S i <? w)%nat; [by apply bits_nth|by left].
    - destruct (Z.testbit _ _); [by apply is_bit_lxor; [|apply bits_nth]|by left]. }
  split; [done|]. assert (Hr : 0 <= value w s < 2 ^ Z.of_nat w) by (apply bits_value_range; intros; by apply bits_nth).
  assert (Hr' : 0 <= value w s' < 2 ^ Z.of_nat w) by (apply bits_value_range; intros; by apply bits_nth).
  assert (Hc : 0 <= crc_step w poly (value w s) b < 2 ^ Z.of_nat w) by (apply crc_step_range; lia).
  apply Z.bits_inj'. intros m Hm. destruct (decide (m < Z.of_nat w)) as [Hlt|].
  2: { rewrite !(testbit_ge_pow2 (Z.of_nat w)) by lia. done. }
  assert (Em : m = Z.of_nat (w - 1 - (w - 1 - Z.to_nat m))) by lia. set (i := (w - 1 - Z.to_nat m)%nat) in *.
  assert (Hi : (i < w)%nat) by lia.
  rewrite crc_step_bit by lia. apply Z.b2z_inj. rewrite Em at 1. unfold value at 1. rewrite testbit_bits_value by (lia || (intros; by apply bits_nth)).
  rewrite (H i Hi). replace (w - 1 - i)%nat with (Z.to_nat m) by lia. rewrite Z2Nat.id by lia.
  assert (Etop : Z.b2z (Z.testbit (value w s) (Z.of_nat w - 1)) = s.[0%nat]).
  { replace (Z.of_nat w - 1) with (Z.of_nat (w - 1 - 0)) by lia. apply testbit_bits_value; [intros; by apply bits_nth|lia]. }
  assert (Elow : (if (S i <? w)%nat then s.[S i] else 0) = Z.b2z (if decide (m = 0) then false else Z.testbit (value w s) (m - 1))).
  { destruct (Nat.ltb_spec (S i) w) as [Hlt'|Hge], (decide (m = 0)) as [E0|E0]; try lia; [|done].
    replace (m - 1) with (Z.of_nat (w - 1 - S i)) by lia. symmetry. apply testbit_bits_value; [intros; by apply bits_nth|lia]. }
  rewrite Elow, Etop. rewrite (Z.lxor_comm (s.[0%nat])).
  destruct (is_bit_lxor b (s.[0%nat]) Hb (bits_nth s 0 Hs)) as [-> | ->]; cbn [Z.eqb].
  - rewrite xorb_false_r. destruct (Z.testbit poly m); by rewrite Z.lxor_0_r.
  - destruct (if decide (m = 0) then false else _), (Z.testbit poly m); reflexivity.
Qed.

(** The loop of a check. *)
Lemma register_run (step : Z -> list Z -> list Z) s0 n (f : nat -> Z) : bits s0 -> (forall i, is_bit (f i)) ->
  (forall b s, bits s -> length s = w -> is_bit b -> register_step w poly s (step b s) (Z.lxor b (s.[0%nat]))) -> length s0 = w ->
  let s := for_ 0 n (fun i s => step (f i) s) s0 in
  bits s /\ length s = w /\ convert_bits_into_output s w = crc_run w poly (value w s0) n f.
Proof using Hw Hpoly.
  intros H0 Hf Hstep L0 s. enough (H : bits s /\ length s = w /\ value w s = crc_run w poly (value w s0) n f).
  { destruct H as (Hb & Hl & Hv). split; [done|]. split; [done|]. rewrite convert_bits_into_output_value, <- Hv.
    rewrite (bits_value_ext w _ (fun i => s.[i])) by (intros; apply land1_id; by apply bits_nth).
    apply Z.mod_small. pose proof (bits_value_range w (fun i => s.[i]) ltac:(intros; by apply bits_nth)).
    assert (2 ^ Z.of_nat w <= 2 ^ 16) by (apply Z.pow_le_mono_r; lia). unfold value. lia. }
  subst s. induction n as [|n IH]; [by rewrite for_nil by lia|]. unfold crc_run. rewrite !for_S by lia.
  fold (crc_run w poly (value w s0) n f). destruct IH as (IHb & IHl & IHv). set (s := for_ 0 n _ s0) in *.
  pose proof (Hstep (f n) s IHb IHl (Hf n)) as HR. destruct (register_crc_step s (step (f n) s) (f n) IHb (Hf n) HR) as [R1 R2].
  split; [done|]. split; [apply HR|]. by rewrite R2, IHv.
Qed.
End Register.

(** Each array step is a turn of the register. *)
Ltac register_turn s Hl :=
  split; [reflexivity|]; intros i Hi;
  repeat (destruct s as [|? s]; [discriminate Hl|]); destruct s; [|discriminate Hl];
  repeat (destruct i as [|i]; [cbn [nth Nat.ltb Nat.leb]; first [reflexivity|by rewrite Z.lxor_0_r|by rewrite Z.lxor_0_l|apply Z.lxor_comm]|]); lia.

Section Checks.
Context (t : list Z) (Ht : bits t).
Notation f := (fun i => t.[i]).

Lemma received_check_bits n w : (w <= 16)%nat -> convert_bits_into_output (drop n t) w = bits_value w (fun i => t.[(n + i)%nat]).
Proof using Ht.
  intros Hw. rewrite convert_bits_into_output_value.
  rewrite (bits_value_ext w _ (fun i => t.[(n + i)%nat])) by (intros; rewrite nth_drop; apply land1_id; by apply bits_nth).
  apply Z.mod_small. pose proof (bits_value_range w (fun i => t.[(n + i)%nat]) ltac:(intros; by apply bits_nth)).
  assert (2 ^ Z.of_nat w <= 2 ^ 16) by (apply Z.pow_le_mono_r; lia). lia.
Qed.

Lemma ones_bits n : bits (replicate n 1).
Proof using. apply Forall_replicate. by right. Qed.

Lemma crc6_run n : crc6 t n = crc_run 6 0x27 0x3F n f.
Proof using Ht.
  apply (register_run 6 0x27 ltac:(lia) ltac:(by_decide) (fun b s => let a := Z.lxor b (s.[0%nat]) in
    [Z.lxor a (s.[1%nat]); s.[2%nat]; s.[3%nat]; Z.lxor a (s.[4%nat]); Z.lxor a (s.[5%nat]); a]) (replicate 6 1) n f);
    [apply ones_bits|intros; by apply bits_nth| |done]. intros b s _ Hl _. register_turn s Hl.
Qed.

Lemma crc7_run n : crc7_scch t n = crc_run 7 0x09 0x7F n f.
Proof using Ht.
  apply (register_run 7 0x09 ltac:(lia) ltac:(by_decide) (fun b s => let a := Z.lxor b (s.[0%nat]) in
    [s.[1%nat]; s.[2%nat]; s.[3%nat]; Z.lxor a (s.[4%nat]); s.[5%nat]; s.[6%nat]; a]) (replicate 7 1) n f);
    [apply ones_bits|intros; by apply bits_nth| |done]. intros b s _ Hl _. register_turn s Hl.
Qed.

Lemma crc12f_run n : crc12f t n = crc_run 12 0x80F 0xFFF n f.
Proof using Ht.
  apply (register_run 12 0x80F ltac:(lia) ltac:(by_decide) (fun b s => let a := Z.lxor b (s.[0%nat]) in
    [Z.lxor a (s.[1%nat]); s.[2%nat]; s.[3%nat]; s.[4%nat]; s.[5%nat]; s.[6%nat]; s.[7%nat]; s.[8%nat];
     Z.lxor a (s.[9%nat]); Z.lxor a (s.[10%nat]); Z.lxor a (s.[11%nat]); a]) (replicate 12 1) n f);
    [apply ones_bits|intros; by apply bits_nth| |done]. intros b s _ Hl _. register_turn s Hl.
Qed.

Lemma crc15_run n : crc15 t n = crc_run 15 0x4CC5 0x7FFF n f.
Proof using Ht.
  apply (register_run 15 0x4CC5 ltac:(lia) ltac:(by_decide) (fun b s => let a := Z.lxor b (s.[0%nat]) in
    [Z.lxor a (s.[1%nat]); s.[2%nat]; s.[3%nat]; Z.lxor a (s.[4%nat]); Z.lxor a (s.[5%nat]); s.[6%nat]; s.[7%nat];
     Z.lxor a (s.[8%nat]); Z.lxor a (s.[9%nat]); s.[10%nat]; s.[11%nat]; s.[12%nat]; Z.lxor a (s.[13%nat]);
     s.[14%nat]; a]) (replicate 15 1) n f);
    [apply ones_bits|intros; by apply bits_nth| |done]. intros b s _ Hl _. register_turn s Hl.
Qed.
End Checks.

(** ** The remainder of the CAC *)

Definition cac_step (c b : Z) : Z := Z.lxor (crc_step 16 0x1021 c 0) b.
Definition cac_run (c : Z) (n : nat) (f : nat -> Z) : Z := for_ 0 n (fun i c => cac_step c (f i)) c.

Lemma cac_step_range c b : is_bit b -> 0 <= cac_step c b < 2 ^ 16.
Proof.
  intros Hb. unfold cac_step. apply lxor_range; [lia|apply (crc_step_range 16 0x1021); [lia|by_decide]|].
  destruct Hb as [-> | ->]; lia.
Qed.

Lemma cac_run_range c n f : 0 <= c < 2 ^ 16 -> (forall i, is_bit (f i)) -> 0 <= cac_run c n f < 2 ^ 16.
Proof. intros Hc Hf. apply (for_inv (fun c => 0 <= c < 2 ^ 16)); [done|]. intros. by apply cac_step_range. Qed.

Lemma crc16cac_run t n : bits t -> crc16cac t n = Z.lxor (cac_run 0xc3ee n (fun i => t.[i])) 0xffff.
Proof.
  intros Ht. unfold crc16cac. set (g := for_ 0 n _ 0xc3ee).
  enough (E : g = cac_run 0xc3ee n (fun i => t.[i])).
  { rewrite E. change 0xffff with (Z.ones 16) at 2. rewrite Z.land_ones by lia. apply Z.mod_small.
    apply lxor_range; [lia| |lia]. apply cac_run_range; [lia|]. intros. by apply bits_nth. }
  assert (H : g = cac_run 0xc3ee n (fun i => t.[i]) /\ 0 <= g < 2 ^ 16); [|apply H]. subst g.
  induction n as [|n [IH1 IH2]]; [rewrite for_nil by lia; split; [done|lia]|].
  unfold cac_run. rewrite !for_S by lia. fold (cac_run 0xc3ee n (fun i => t.[i])). rewrite <- IH1. set (c := for_ 0 n _ _) in *.
  pose proof (bits_nth t n Ht) as Hb. set (b := t.[n]) in *. clearbody b c. clear IH1.
  enough (E : (let crc := Z.land (Z.lor (u32 (Z.shiftl c 1)) b) 0x1ffff in
    if negb (Z.land crc 0x10000 =? 0) then Z.lxor (Z.land crc 0xffff) (Z.shiftl 1 12 + Z.shiftl 1 5 + 1) else crc) = cac_step c b).
  { cbv zeta in E. rewrite E. split; [done|]. by apply cac_step_range. }
  cbv zeta. rewrite Z.shiftl_mul_pow2 by lia. change (2 ^ 1) with 2. rewrite u32_small by lia.
  replace (c * 2) with (Z.shiftl c 1) by (rewrite Z.shiftl_mul_pow2 by lia; lia).
  rewrite lor_shiftl by (destruct Hb as [-> | ->]; lia). change (2 ^ 1) with 2.
  change 0x1ffff with (Z.ones 17). change 0xffff with (Z.ones 16). rewrite !Z.land_ones by lia.
  rewrite (Z.mod_small (c * 2 + b) (2 ^ 17)) by (destruct Hb as [-> | ->]; lia).
  assert (Et : Z.land (c * 2 + b) 0x10000 = if Z.testbit c 15 then 0x10000 else 0).
  { change 0x10000 with (Z.shiftl 1 16). apply Z.bits_inj'. intros m Hm. rewrite Z.land_spec, Z.shiftl_spec by lia.
    destruct (decide (m = 16)) as [->|Hne].
    - rewrite Z.sub_diag. change (Z.testbit 1 0) with true. rewrite andb_true_r.
      replace 16 with (Z.succ 15) at 1 by lia. rewrite Z.mul_comm. destruct Hb as [-> | ->].
      + rewrite Z.add_0_r, Z.testbit_even_succ by lia. by destruct (Z.testbit c 15).
      + rewrite Z.testbit_odd_succ by lia. by destruct (Z.testbit c 15).
    - assert (E1 : Z.testbit 1 (m - 16) = false).
      { destruct (decide (m < 16)); [apply Z.testbit_neg_r; lia|]. apply Z.bits_above_log2; cbn; lia. }
      rewrite E1, andb_false_r. destruct (Z.testbit c 15); [|by rewrite Z.bits_0]. symmetry. exact (Z.pow2_bits_false 16 m ltac:(lia)). }
  rewrite Et. unfold cac_step, crc_step. change (Z.of_nat 16 - 1) with 15. rewrite Z.lxor_0_r.
  assert (El : Z.lxor (Z.lxor (wrap (Z.of_nat 16) (Z.shiftl c 1)) (if Z.b2z (Z.testbit c 15) =? 0 then 0 else 4129)) b
    = Z.lxor ((c * 2 + b) mod 2 ^ 16) (if Z.testbit c 15 then 4129 else 0)).
  { assert (Ew : (c * 2 + b) mod 2 ^ 16 = Z.lxor (wrap (Z.of_nat 16) (Z.shiftl c 1)) b).
    { assert (E0 : c * 2 + b = Z.lxor (2 * c + 0) (2 * 0 + b)).
      { rewrite lxor_double_bit by (try done; by left). rewrite Z.lxor_0_r, Z.lxor_0_l. lia. }
      rewrite E0. change ((?x) mod 2 ^ 16) with (wrap 16 x). rewrite wrap_lxor by lia. f_equal.
      - unfold wrap. f_equal. rewrite Z.shiftl_mul_pow2; lia.
      - destruct Hb as [-> | ->]; reflexivity. }
    rewrite Ew. destruct (Z.testbit c 15); cbn [Z.b2z Z.eqb]; xor_solve. }
  rewrite El. destruct (Z.testbit c 15) eqn:E15; cbn [Z.eqb negb]; [reflexivity|]. rewrite Z.lxor_0_r. symmetry. apply Z.mod_small.
  assert (c < 2 ^ 15).
  { apply lt_pow2_testbit; [lia..|]. intros i Hi. destruct (decide (i = 15)) as [->|]; [done|]. apply (testbit_ge_pow2 16); lia. }
  destruct Hb as [-> | ->]; lia.
Qed.

Lemma cac_step_lxor c c' b b' : cac_step (Z.lxor c c') (Z.lxor b b') = Z.lxor (cac_step c b) (cac_step c' b').
Proof.
  unfold cac_step. pose proof (crc_step_lxor 16 0x1021 ltac:(lia) c c' 0 0 ltac:(by left) ltac:(by left)) as E.
  rewrite Z.lxor_0_l in E. rewrite E. xor_solve.
Qed.

Lemma cac_run_lxor c c' n f g : cac_run (Z.lxor c c') n (fun i => Z.lxor (f i) (g i)) = Z.lxor (cac_run c n f) (cac_run c' n g).
Proof. unfold cac_run. induction n as [|n IH]; [done|]. rewrite !for_S, IH by lia. apply cac_step_lxor. Qed.

Lemma cac_run_app c n m f : cac_run c (n + m) f = cac_run (cac_run c n f) m (fun i => f (n + i)%nat).
Proof.
  unfold cac_run. rewrite (for_app 0 n) by lia. rewrite <- (for_shift 0 m n (fun i c => cac_step c (f i))). by rewrite Nat.add_0_r.
Qed.

Lemma cac_run_ext c n f g : (forall i, (i < n)%nat -> f i = g i) -> cac_run c n f = cac_run c n g.
Proof. intros H. apply for_ext. intros i s Hi. by rewrite H by lia. Qed.

(** Sixteen bits fill an empty register. *)
Lemma cac_run_fill n f : (n <= 16)%nat -> (forall i, is_bit (f i)) -> cac_run 0 n f = bits_value n f.
Proof.
  intros Hn Hf. induction n as [|n IH]; [done|]. unfold cac_run. rewrite for_S by lia. fold (cac_run 0 n f).
  rewrite IH, bits_value_S by lia. pose proof (bits_value_range n f ltac:(intros; apply Hf)) as R.
  assert (Hp : 2 ^ Z.of_nat n <= 2 ^ 15) by (apply Z.pow_le_mono_r; lia). set (v := bits_value n f) in *.
  unfold cac_step, crc_step. rewrite (testbit_ge_pow2 15) by (change (Z.of_nat 16 - 1) with 15; lia).
  cbn [Z.b2z]. rewrite Z.lxor_0_r. unfold wrap. rewrite Z.shiftl_mul_pow2 by lia.
  change (2 ^ 1) with 2. rewrite Z.mod_small by lia. replace (v * 2) with (2 * v + 0) by lia.
  transitivity (Z.lxor (2 * v + 0) (2 * 0 + f n)); [f_equal; lia|]. rewrite lxor_double_bit by (try apply Hf; by left).
  by rewrite Z.lxor_0_r, Z.lxor_0_l.
Qed.

Lemma cac_run_zeros c n : cac_run c n (fun _ => 0) = crc_run 16 0x1021 c n (fun _ => 0).
Proof. apply for_ext. intros i s _. apply Z.lxor_0_r. Qed.

Lemma cac_run_burst n p e : (forall i, is_bit (e i)) -> (p + 16 <= n)%nat -> (forall i, ~ (p <= i < p + 16)%nat -> e i = 0) ->
  cac_run 0 n e = 0 -> forall i, e i = 0.
Proof.
  intros He Hn Hout H. replace n with (p + (16 + (n - p - 16)))%nat in H by lia. rewrite !cac_run_app in H.
  rewrite (cac_run_ext 0 p e (fun _ => 0)), cac_run_zeros, crc_run_0 in H by (intros; apply Hout; lia).
  set (b := fun i => e (p + i)%nat) in *. assert (Hb : forall i, is_bit (b i)) by (intros; apply He).
  rewrite (cac_run_fill 16 b) in H by done.
  rewrite (cac_run_ext _ (n - p - 16) _ (fun _ => 0)), cac_run_zeros in H by (intros; apply Hout; lia).
  apply (crc_run_zeros_inj 16 0x1021 ltac:(lia) ltac:(by_decide) eq_refl) in H; [|by apply (bits_value_range 16)].
  intros i. destruct (decide (p <= i < p + 16)%nat) as [Hi|Hi]; [|by apply Hout].
  replace i with (p + (i - p))%nat by lia. change (b (i - p)%nat = 0).
  rewrite <- (testbit_bits_value 16) by (done || lia). by rewrite H, Z.bits_0.
Qed.

(** ** Bursts *)

Definition check_len (k : nxdn_channel) : nat := match k with SACCH => 6 | SCCH => 7 | FACCH | FACCH3_UDCH2 => 12 | FACCH2_UDCH => 15 | CAC => 16 end.

(** A frame passes a register check when its last bits are the register. *)
Lemma checks_accepts k t : bits t ->
  match k with
  | SACCH => checks k t = true <-> crc_accepts 6 0x27 0x3F 0 26 (fun i => t.[i])
  | SCCH => checks k t = true <-> crc_accepts 7 0x09 0x7F 0 25 (fun i => t.[i])
  | FACCH | FACCH3_UDCH2 => checks k t = true <-> crc_accepts 12 0x80F 0xFFF 0 80 (fun i => t.[i])
  | FACCH2_UDCH => checks k t = true <-> crc_accepts 15 0x4CC5 0x7FFF 0 184 (fun i => t.[i])
  | CAC => checks k t = true <-> cac_run 0xc3ee 171 (fun i => t.[i]) = 0xffff
  end.
Proof.
  intros Ht. unfold crc_accepts. destruct k; cbn [checks]; rewrite Z.eqb_eq, ?Z.lxor_0_r.
  - rewrite crc6_run, received_check_bits by (done || lia). unfold u8, wrap. rewrite Z.mod_small; [done|].
    pose proof (bits_value_range 6 (fun i => t.[(26 + i)%nat]) ltac:(intros; by apply bits_nth)). lia.
  - unfold nxdn_scch_crc7_check_from_trellis. by rewrite crc7_run, received_check_bits by (done || lia).
  - unfold nxdn_facch_crc12_payload_from_trellis, nxdn_facch_crc12_check_from_trellis. by rewrite crc12f_run, received_check_bits by (done || lia).
  - unfold nxdn_facch_crc12_payload_from_trellis, nxdn_facch_crc12_check_from_trellis. by rewrite crc12f_run, received_check_bits by (done || lia).
  - unfold nxdn_facch2_udch_crc15_payload_from_trellis, nxdn_facch2_udch_crc15_check_from_trellis.
    by rewrite crc15_run, received_check_bits by (done || lia).
  - rewrite crc16cac_run by done. split; [intros H; by apply Z.lxor_eq in H|intros ->; done].
Qed.

(** C36: The channel checks detect bursts.  Of two frames of a channel that
    differ only within as many consecutive bits as its check is long (6 on a
    SACCH, 7 on an SCCH, 12 on a FACCH1 or a
    block of a FACCH3 or UDCH2, 15 on a FACCH2 or UDCH, 16 on a CAC),
    check bits included, at most one passes. *)
Theorem channel_checks_detect_bursts k t t' p :
  bits t -> bits t' -> (p + check_len k <= message_len k)%nat ->
  (forall j, ~ (p <= j < p + check_len k)%nat -> t'.[j] = t.[j]) ->
  checks k t = true -> checks k t' = true -> forall i, t'.[i] = t.[i].
Proof.
  intros Ht Ht' Hp Hout Hc Hc' i. pose proof (checks_accepts k t Ht) as A. pose proof (checks_accepts k t' Ht') as A'.
  assert (Hf : forall i, is_bit (t.[i])) by (intros; by apply bits_nth).
  assert (Hf' : forall i, is_bit (t'.[i])) by (intros; by apply bits_nth).
  destruct k; cbn [check_len message_len] in Hp, Hout; apply A in Hc; apply A' in Hc'; clear A A'.
  - apply (crc_detects 6 0x27 ltac:(lia) ltac:(by_decide) eq_refl 0x3F 0 26 p (fun i => t'.[i]) (fun i => t.[i])); auto; lia.
  - apply (crc_detects 7 0x09 ltac:(lia) ltac:(by_decide) eq_refl 0x7F 0 25 p (fun i => t'.[i]) (fun i => t.[i])); auto; lia.
  - apply (crc_detects 12 0x80F ltac:(lia) ltac:(by_decide) eq_refl 0xFFF 0 80 p (fun i => t'.[i]) (fun i => t.[i])); auto; lia.
  - apply (crc_detects 12 0x80F ltac:(lia) ltac:(by_decide) eq_refl 0xFFF 0 80 p (fun i => t'.[i]) (fun i => t.[i])); auto; lia.
  - apply (crc_detects 15 0x4CC5 ltac:(lia) ltac:(by_decide) eq_refl 0x7FFF 0 184 p (fun i => t'.[i]) (fun i => t.[i])); auto; lia.
  - apply Z.lxor_eq. apply (cac_run_burst 171 p (fun i => Z.lxor (t'.[i]) (t.[i]))); [|lia| |].
    + intros j. by apply is_bit_lxor.
    + intros j Hj. rewrite (Hout j Hj). apply Z.lxor_nilpotent.
    + change 0 with (Z.lxor 0xc3ee 0xc3ee) at 1. rewrite cac_run_lxor, Hc, Hc'. apply Z.lxor_nilpotent.
Qed.

(** Three wrong bits of a SACCH, six apart at most. *)
Lemma channel_checks_detect_bursts_witness :
  checks SACCH ex_sacch = true /\ checks SACCH (ex_sacch.[3%nat <- 1].[5%nat <- 0].[8%nat <- 0]) = false.
Proof.
  split; [vm_compute; reflexivity|]. destruct (checks SACCH (ex_sacch.[3%nat <- 1].[5%nat <- 0].[8%nat <- 0])) eqn:E; [|done].
  pose proof (channel_checks_detect_bursts SACCH ex_sacch (ex_sacch.[3%nat <- 1].[5%nat <- 0].[8%nat <- 0]) 3
    ltac:(by_decide) ltac:(by_decide) ltac:(cbn; lia)) as H.
  assert (Hout : forall j, ~ (3 <= j < 3 + check_len SACCH)%nat -> (ex_sacch.[3%nat <- 1].[5%nat <- 0].[8%nat <- 0]).[j] = ex_sacch.[j]).
  { intros j Hj. cbn [check_len] in Hj. by rewrite !nth_insert_ne by lia. }
  specialize (H Hout ltac:(vm_compute; reflexivity) E 3%nat). vm_compute in H. discriminate H.
Defined.
