(* ===== verification/R34Viterbi.v ===== *)
(** * [protocol/dmr/dmr_34_viterbi.c] and [fec/trellis34.c]: DMR rate 3/4

    49 received nibbles, two dibits each, are decoded by a Viterbi search over the
    eight states of the trellis: hard decisions on constellation points, soft ones
    with a weight per dibit, and a list of the best candidates with their metrics.
    [dmr_r34_candidate_metric] scores a payload against the received dibits.
    Arrays of two dimensions are flat.  The back pointers are never initialised by
    the hard and soft searches: they are an argument here, on which no result
    depends. *)
From S2P Require Import Prelude.

Definition R34_T : nat := 49.
Definition R34_S : nat := 8.
Definition R34_K : nat := 32.
Definition R34_INF : Z := 1000000000.

Definition dsd_trellis_interleave_98 : list nat :=
  [0; 1; 8; 9; 16; 17; 24; 25; 32; 33; 40; 41; 48; 49; 56; 57; 64; 65; 72; 73; 80; 81; 88; 89; 96;
   97; 2; 3; 10; 11; 18; 19; 26; 27; 34; 35; 42; 43; 50; 51; 58; 59; 66; 67; 74; 75; 82; 83; 90; 91;
   4; 5; 12; 13; 20; 21; 28; 29; 36; 37; 44; 45; 52; 53; 60; 61; 68; 69; 76; 77; 84; 85; 92; 93; 6;
   7; 14; 15; 22; 23; 30; 31; 38; 39; 46; 47; 54; 55; 62; 63; 70; 71; 78; 79; 86; 87; 94; 95]%nat.

Definition dsd_trellis34_constellation : list Z := [11; 12; 0; 7; 14; 9; 5; 2; 10; 13; 1; 6; 15; 8; 4; 3].

Definition dsd_trellis34_inverse_constellation : list Z := [2; 10; 7; 15; 14; 6; 11; 3; 13; 5; 8; 0; 1; 9; 4; 12].

Definition dsd_trellis34_fsm : list Z :=
  [0; 8; 4; 12; 2; 10; 6; 14; 4; 12; 2; 10; 6; 14; 0; 8; 1; 9; 5; 13; 3; 11;
   7; 15; 5; 13; 3; 11; 7; 15; 1; 9; 3; 11; 7; 15; 1; 9; 5; 13; 7; 15; 1; 9;
   5; 13; 3; 11; 2; 10; 6; 14; 0; 8; 4; 12; 6; 14; 0; 8; 4; 12; 2; 10].

(** [__builtin_popcountll] *)
Definition dsd_popcount64 (x : Z) : Z := sum_upto 64 (fun i => Z.b2z (Z.testbit x (Z.of_nat i))).

(** ** Preparing the observations *)

(** The stores into a fresh array of 98; every cell is written. *)
Definition r34_deinterleave_dibits (dibits98 : list Z) : list Z :=
  for_ 0 98 (fun i dei => dei.[nth i dsd_trellis_interleave_98 0%nat <- Z.land (dibits98.[i]) 3]) (replicate 98 0).

Definition r34_pack_nibbles (dei : list Z) : list Z :=
  map (fun i => let d0 := Z.land (dei.[(i * 2 + 0)%nat]) 3 in
                let d1 := Z.land (dei.[(i * 2 + 1)%nat]) 3 in
                u8 (Z.lor (Z.shiftl d0 2) d1)) (seq 0 R34_T).

Definition r34_prepare_nibbles (dibits98 : list Z) : list Z :=
  r34_pack_nibbles (r34_deinterleave_dibits dibits98).

Definition r34_map_nibbles_to_points (nibs : list Z) : list Z :=
  map (fun i => dsd_trellis34_constellation.[Z.to_nat (Z.land (nibs.[i]) 0x0F)]) (seq 0 R34_T).

Definition r34_deinterleave_reliability (reliab98 : list Z) : list Z :=
  for_ 0 98 (fun i dei => dei.[nth i dsd_trellis_interleave_98 0%nat <- reliab98.[i]]) (replicate 98 0).

(** The weights of the high and of the low dibits. *)
Definition r34_split_reliability (dei : list Z) : list Z * list Z :=
  (map (fun i => dei.[(i * 2 + 0)%nat]) (seq 0 R34_T), map (fun i => dei.[(i * 2 + 1)%nat]) (seq 0 R34_T)).

Definition r34_set_uniform_reliability (value : Z) : list Z * list Z :=
  (replicate R34_T value, replicate R34_T value).

(** [None] for a null pointer, with which [weighted] is false. *)
Definition r34_prepare_reliability_weights (reliab98 : option (list Z)) : list Z * list Z :=
  match reliab98 with
  | Some reliab98 => r34_split_reliability (r34_deinterleave_reliability reliab98)
  | None => r34_set_uniform_reliability 1
  end.

(** ** Costs *)

Definition r34_weighted_nibble_cost (expect_nib obs_nib rhi rlo : Z) : Z :=
  let x := Z.lxor expect_nib obs_nib in
  let cost := 0 in
  let cost := if negb (Z.land x 8 =? 0) then cost + rhi else cost in
  let cost := if negb (Z.land x 4 =? 0) then cost + rhi else cost in
  let cost := if negb (Z.land x 2 =? 0) then cost + rlo else cost in
  if negb (Z.land x 1 =? 0) then cost + rlo else cost.

Definition r34_unweighted_list_cost (expect_nib obs_nib : Z) : Z :=
  let x := Z.lxor expect_nib obs_nib in
  let bitcnt := Z.land (Z.shiftr x 0) 1 + Z.land (Z.shiftr x 1) 1 + Z.land (Z.shiftr x 2) 1 + Z.land (Z.shiftr x 3) 1 in
  if negb (x =? 0) then 256 + bitcnt else 0.

(** The point sent on the transition from [ps] to [ns], and its nibble. *)
Definition expect_point (ps ns : nat) : Z := dsd_trellis34_fsm.[(ps * 8 + ns)%nat].
Definition expect_nib (ps ns : nat) : Z := dsd_trellis34_inverse_constellation.[Z.to_nat (expect_point ps ns)].

(** ** The search the hard and soft decoders share *)

Definition r34_metric_init_1d : list Z := (replicate R34_S R34_INF).[0%nat <- 0].

(** One step of the trellis: the new metrics and the back pointers. *)
Definition viterbi_step (cost : nat -> nat -> Z) (t : nat) (metric_prev backptr : list Z) : list Z * list Z :=
  for_ 0 R34_S (fun ps '(metric_curr, backptr) =>
    if R34_INF <=? metric_prev.[ps] then (metric_curr, backptr)
    else for_ 0 R34_S (fun ns '(metric_curr, backptr) =>
      let m := metric_prev.[ps] + cost ps ns in
      if m <? metric_curr.[ns]
      then (metric_curr.[ns <- m], backptr.[(t * R34_S + ns)%nat <- Z.of_nat ps])
      else (metric_curr, backptr)) (metric_curr, backptr)) (replicate R34_S R34_INF, backptr).

Definition viterbi_run (cost : nat -> nat -> nat -> Z) (backptr : list Z) : list Z * list Z :=
  for_ 0 R34_T (fun t '(metric_prev, backptr) => viterbi_step (cost t) t metric_prev backptr)
    (r34_metric_init_1d, backptr).

Definition r34_run_viterbi_hard (obs_point backptr : list Z) : list Z * list Z :=
  viterbi_run (fun t ps ns => dsd_popcount64 (Z.land (Z.lxor (expect_point ps ns) (obs_point.[t])) 0x0F)) backptr.

Definition r34_run_viterbi_soft (nibs rhi rlo backptr : list Z) : list Z * list Z :=
  viterbi_run (fun t ps ns => r34_weighted_nibble_cost (expect_nib ps ns) (nibs.[t]) (rhi.[t]) (rlo.[t])) backptr.

(** [for (t = R34_T - 1; t >= 0; t--)] *)
Definition r34_traceback_states (backptr : list Z) (end_state : nat) : list Z :=
  fst (for_ 0 R34_T (fun k '(states, s) =>
    let t := (R34_T - 1 - k)%nat in
    (states.[t <- Z.of_nat s], Z.to_nat (backptr.[(t * R34_S + s)%nat]))) (replicate R34_T 0, end_state)).

Definition r34_pack_states_to_bytes (states : list Z) : list Z :=
  flat_map (fun g =>
    let temp := for_ 0 8 (fun k temp => Z.lor (u32 (Z.shiftl temp 3)) (Z.land (states.[(g * 8 + k)%nat]) 7)) 0 in
    [u8 (Z.land (Z.shiftr temp 16) 0xFF); u8 (Z.land (Z.shiftr temp 8) 0xFF); u8 (Z.land temp 0xFF)]) (seq 0 6).

(** ** Entry points: the bytes written and the value returned *)

Definition dmr_r34_viterbi_decode (junk : list Z) (dibits98 out_bytes18 : option (list Z)) : option (list Z) * Z :=
  match dibits98, out_bytes18 with
  | Some dibits98, Some _ =>
      let nibs := r34_prepare_nibbles dibits98 in
      let obs_point := r34_map_nibbles_to_points nibs in
      let '(_, backptr) := r34_run_viterbi_hard obs_point junk in
      (Some (r34_pack_states_to_bytes (r34_traceback_states backptr 0)), 0)
  | _, _ => (out_bytes18, -1)
  end.

Definition dmr_r34_viterbi_decode_soft (junk : list Z) (dibits98 reliab98 out_bytes18 : option (list Z))
  : option (list Z) * Z :=
  match dibits98, reliab98, out_bytes18 with
  | Some dibits98, Some _, Some _ =>
      let nibs := r34_prepare_nibbles dibits98 in
      let '(rhi, rlo) := r34_prepare_reliability_weights reliab98 in
      let '(_, backptr) := r34_run_viterbi_soft nibs rhi rlo junk in
      (Some (r34_pack_states_to_bytes (r34_traceback_states backptr 0)), 0)
  | _, _, _ => (out_bytes18, -1)
  end.

(** The 49 states a payload stands for, the last one being zero. *)
Definition r34_unpack_states (bytes18 : list Z) : list Z :=
  flat_map (fun group =>
    let b := (group * 3)%nat in
    let packed := Z.lor (Z.lor (Z.shiftl (bytes18.[b]) 16) (Z.shiftl (bytes18.[(b + 1)%nat]) 8)) (bytes18.[(b + 2)%nat]) in
    map (fun item => Z.land (Z.shiftr packed (21 - Z.of_nat item * 3)) 7) (seq 0 8)) (seq 0 6) ++ [0].

Definition dmr_r34_candidate_metric (dibits98 reliab98 bytes18 : option (list Z)) (out_metric : option Z) : option Z * Z :=
  match dibits98, bytes18, out_metric with
  | Some dibits98, Some bytes18, Some _ =>
      let nibs := r34_prepare_nibbles dibits98 in
      let '(rhi, rlo) := r34_prepare_reliability_weights reliab98 in
      let states := r34_unpack_states bytes18 in
      let metric := for_ 0 R34_T (fun t metric =>
        let previous := if (t =? 0)%nat then 0 else states.[(t - 1)%nat] in
        let next := states.[t] in
        let point := dsd_trellis34_fsm.[Z.to_nat (previous * Z.of_nat R34_S + next)] in
        let expected_nibble := dsd_trellis34_inverse_constellation.[Z.to_nat point] in
        metric + r34_weighted_nibble_cost expected_nibble (nibs.[t]) (rhi.[t]) (rlo.[t])) 0 in
      (Some metric, 0)
  | _, _, _ => (out_metric, -1)
  end.

(** ** Correctness of the search

    [cost t ps ns] is the cost of the transition from [ps] to [ns] at time [t];
    a path is the state after each step, the one before the first being 0. *)

Definition prev_state (path : nat -> nat) (t : nat) : nat :=
  match t with O => 0%nat | S t => path t end.

Definition path_cost (cost : nat -> nat -> nat -> Z) (n : nat) (path : nat -> nat) : Z :=
  sum_upto n (fun t => cost t (prev_state path t) (path t)).

(** The state [d] steps before the end of the path traced back from [s] at time
    [n - 1]. *)
Fixpoint back_state (backptr : list Z) (n s d : nat) : nat :=
  match d with
  | O => s
  | S d => Z.to_nat (backptr.[((n - 1 - d) * R34_S + back_state backptr n s d)%nat])
  end.

Definition back_path (backptr : list Z) (n s t : nat) : nat := back_state backptr n s (n - 1 - t).

Section Step.
Context (cost : nat -> nat -> Z) (t : nat) (prev : list Z).

Definition relax_row (ps : nat) (q : list Z * list Z) : list Z * list Z :=
  for_ 0 R34_S (fun ns '(curr, bp) =>
    let m := prev.[ps] + cost ps ns in
    if m <? curr.[ns] then (curr.[ns <- m], bp.[(t * R34_S + ns)%nat <- Z.of_nat ps]) else (curr, bp)) q.

Lemma relax_row_spec ps curr bp :
  length curr = R34_S -> (S t * R34_S <= length bp)%nat ->
  let q := relax_row ps (curr, bp) in
  length (fst q) = R34_S /\ length (snd q) = length bp /\
  (forall ns, (ns < R34_S)%nat -> (fst q).[ns] = Z.min (curr.[ns]) (prev.[ps] + cost ps ns)) /\
  (forall ns, (ns < R34_S)%nat -> (snd q).[(t * R34_S + ns)%nat] =
     if prev.[ps] + cost ps ns <? curr.[ns] then Z.of_nat ps else bp.[(t * R34_S + ns)%nat]) /\
  (forall a, (a < t * R34_S)%nat -> (snd q).[a] = bp.[a]).
Proof.
  intros Hc Hb. unfold relax_row.
  enough (H : forall n, (n <= R34_S)%nat -> let q := for_ 0 n (fun ns '(curr, bp) =>
      let m := prev.[ps] + cost ps ns in
      if m <? curr.[ns] then (curr.[ns <- m], bp.[(t * R34_S + ns)%nat <- Z.of_nat ps]) else (curr, bp)) (curr, bp) in
    length (fst q) = R34_S /\ length (snd q) = length bp /\
    (forall ns, (fst q).[ns] = if decide (ns < n)%nat then Z.min (curr.[ns]) (prev.[ps] + cost ps ns) else curr.[ns]) /\
    (forall ns, (ns < R34_S)%nat -> (snd q).[(t * R34_S + ns)%nat] =
       if decide (ns < n)%nat then if prev.[ps] + cost ps ns <? curr.[ns] then Z.of_nat ps else bp.[(t * R34_S + ns)%nat]
       else bp.[(t * R34_S + ns)%nat]) /\
    (forall a, (a < t * R34_S)%nat -> (snd q).[a] = bp.[a])).
  { destruct (H R34_S (le_n _)) as (H1 & H2 & H3 & H4 & H5). split; [done|]. split; [done|].
    split; [|split; [|done]]; intros ns Hns; rewrite ?H3, ?H4 by done; by destruct (decide _); [|lia]. }
  intros n. induction n as [|n IH]; intros Hn q.
  - subst q. rewrite for_nil by lia. cbn [fst snd]. split; [done|]. split; [done|].
    split; [|split; [|done]]; intros; by destruct (decide _); [lia|].
  - subst q. rewrite for_S by lia. destruct IH as (H1 & H2 & H3 & H4 & H5); [lia|].
    destruct (for_ 0 n _ (curr, bp)) as [c b]. cbn [fst snd] in *.
    assert (Hcn : c.[n] = curr.[n]) by (rewrite H3; by destruct (decide _); [lia|]).
    rewrite Hcn. destruct (Z.ltb_spec (prev.[ps] + cost ps n) (curr.[n])) as [Hlt|Hge]; cbn [fst snd].
    + rewrite !length_insert. split; [done|]. split; [done|]. split; [|split].
      * intros ns. rewrite nth_insert, H1. destruct (decide (n = ns /\ _)) as [[<- _]|Hne].
        -- destruct (decide _); lia.
        -- rewrite H3. repeat destruct (decide _); done || lia.
      * intros ns Hns. rewrite nth_insert, H2. destruct (decide (_ = _ /\ _)) as [[E _]|Hne].
        -- assert (ns = n) as -> by lia. destruct (decide _); [|lia]. by rewrite (proj2 (Z.ltb_lt _ _)).
        -- rewrite H4 by done. repeat destruct (decide _); done || lia.
      * intros a Ha. rewrite nth_insert_ne by lia. by apply H5.
    + split; [done|]. split; [done|]. split; [|split].
      * intros ns. rewrite H3. repeat destruct (decide _); try lia. assert (ns = n) as -> by lia. lia.
      * intros ns Hns. rewrite H4 by done. repeat destruct (decide _); try done || lia.
        assert (ns = n) as -> by lia. by rewrite (proj2 (Z.ltb_ge _ _)).
      * done.
Qed.
End Step.

(** One step: each new metric is the least over the live states, the back pointer
    names a state that attains it, and earlier rows are untouched. *)
Lemma viterbi_step_spec cost t prev bp0 :
  (S t * R34_S <= length bp0)%nat ->
  let q := viterbi_step cost t prev bp0 in
  length (fst q) = R34_S /\ length (snd q) = length bp0 /\
  (forall ns p, (ns < R34_S)%nat -> (p < R34_S)%nat -> prev.[p] < R34_INF -> (fst q).[ns] <= prev.[p] + cost p ns) /\
  (forall ns, (ns < R34_S)%nat -> (fst q).[ns] < R34_INF -> exists p, (p < R34_S)%nat /\ prev.[p] < R34_INF /\
     (snd q).[(t * R34_S + ns)%nat] = Z.of_nat p /\ (fst q).[ns] = prev.[p] + cost p ns) /\
  (forall a, (a < t * R34_S)%nat -> (snd q).[a] = bp0.[a]).
Proof.
  intros Hb. unfold viterbi_step.
  apply (for_ind (fun k q =>
    length (fst q) = R34_S /\ length (snd q) = length bp0 /\
    (forall ns p, (ns < R34_S)%nat -> (p < k)%nat -> prev.[p] < R34_INF -> (fst q).[ns] <= prev.[p] + cost p ns) /\
    (forall ns, (ns < R34_S)%nat -> (fst q).[ns] < R34_INF -> exists p, (p < k)%nat /\ prev.[p] < R34_INF /\
       (snd q).[(t * R34_S + ns)%nat] = Z.of_nat p /\ (fst q).[ns] = prev.[p] + cost p ns) /\
    (forall a, (a < t * R34_S)%nat -> (snd q).[a] = bp0.[a]))); [lia| |].
  - cbn [fst snd]. split; [done|]. split; [done|]. split; [lia|]. split; [|done].
    intros ns Hns H. rewrite nth_lookup, lookup_replicate_2 in H by done. cbn in H. lia.
  - intros p [curr bp] Hp (H1 & H2 & H3 & H4 & H5). cbn [fst snd] in *.
    destruct (Z.leb_spec R34_INF (prev.[p])) as [Hinf|Hlive]; cbn [fst snd].
    + split; [done|]. split; [done|]. split; [|split; [|done]].
      * intros ns p' Hns Hp' Hl. destruct (decide (p' = p)) as [->|]; [lia|]. apply H3; [done|lia|done].
      * intros ns Hns H. destruct (H4 ns Hns H) as (p' & Hp' & Hr). exists p'. split; [lia|done].
    + destruct (relax_row_spec cost t prev p curr bp H1 ltac:(lia)) as (R1 & R2 & R3 & R4 & R5).
      fold (relax_row cost t prev p (curr, bp)). set (q := relax_row cost t prev p (curr, bp)) in *.
      split; [done|]. split; [lia|]. split; [|split].
      * intros ns p' Hns Hp' Hl. rewrite R3 by done.
        destruct (decide (p' = p)) as [->|]; [lia|]. specialize (H3 ns p' Hns ltac:(lia) Hl). lia.
      * intros ns Hns H. rewrite R3 in * by done. rewrite R4 by done.
        destruct (Z.ltb_spec (prev.[p] + cost p ns) (curr.[ns])) as [Hlt|Hge].
        -- exists p. split; [lia|]. split; [done|]. split; [done|lia].
        -- destruct (H4 ns Hns ltac:(lia)) as (p' & Hp' & Hl' & E1 & E2). exists p'.
           split; [lia|]. split; [done|]. split; [done|lia].
      * intros a Ha. rewrite R5 by done. by apply H5.
Qed.

Lemma back_state_ext bp bp' n s d : (S d <= n)%nat ->
  (forall a, (a < n * R34_S)%nat -> bp.[a] = bp'.[a]) -> (forall d', (d' < d)%nat -> (back_state bp n s d' < R34_S)%nat) ->
  back_state bp n s d = back_state bp' n s d.
Proof.
  intros Hd He. induction d as [|d IH]; [done|]. intros Hlt. cbn [back_state].
  rewrite IH by (lia || (intros; apply Hlt; lia)). rewrite He; [done|].
  rewrite <- IH by (lia || (intros; apply Hlt; lia)). specialize (Hlt d ltac:(lia)). unfold R34_S in *. nia.
Qed.

(** The path back from [s] at time [n] is [s] and the path back from the state
    its back pointer names. *)
Lemma back_state_cons bp n s d :
  back_state bp (S n) s (S d) = back_state bp n (Z.to_nat (bp.[(n * R34_S + s)%nat])) d.
Proof.
  induction d as [|d IH].
  - cbn [back_state]. do 2 f_equal. lia.
  - rewrite <- (Nat.add_1_r (S d)) at 1. rewrite Nat.add_1_r. change (back_state bp (S n) s (S (S d))) with
      (Z.to_nat (bp.[((S n - 1 - S d) * R34_S + back_state bp (S n) s (S d))%nat])).
    rewrite IH. cbn [back_state]. do 3 f_equal. lia.
Qed.

Section Search.
Context (cost : nat -> nat -> nat -> Z) (B : Z).
Context (Hcost : forall t ps ns, 0 <= cost t ps ns <= B) (HB : Z.of_nat R34_T * B < R34_INF).

Definition path_ok (path : nat -> nat) : Prop := forall t, (path t < R34_S)%nat.

Lemma path_cost_S n path : path_cost cost (S n) path = path_cost cost n path + cost n (prev_state path n) (path n).
Proof. unfold path_cost. by rewrite sum_upto_S. Qed.

Lemma path_cost_ext n p q : (forall t, (t < n)%nat -> p t = q t) -> path_cost cost n p = path_cost cost n q.
Proof.
  intros H. apply sum_upto_ext. intros t Ht. rewrite H by done. f_equal.
  destruct t; [done|]. apply H. lia.
Qed.

Lemma path_cost_bounds n path : 0 <= path_cost cost n path <= Z.of_nat n * B.
Proof.
  induction n as [|n IH]; [cbn; lia|]. rewrite path_cost_S.
  pose proof (Hcost n (prev_state path n) (path n)). lia.
Qed.

(** After [n] steps: the metrics bound every path from below, and the path traced
    back from a live state has its metric. *)
Definition search_inv (n : nat) (M bp : list Z) : Prop :=
  length M = R34_S /\
  (forall path, path_ok path -> M.[prev_state path n] <= path_cost cost n path) /\
  (forall s, (s < R34_S)%nat -> M.[s] < R34_INF ->
     (forall t, (t < n)%nat -> (back_path bp n s t < R34_S)%nat) /\
     prev_state (back_path bp n s) n = s /\ path_cost cost n (back_path bp n s) = M.[s]).

Lemma search_step n M bp :
  (n < R34_T)%nat -> (S n * R34_S <= length bp)%nat -> search_inv n M bp ->
  search_inv (S n) (fst (viterbi_step (cost n) n M bp)) (snd (viterbi_step (cost n) n M bp)).
Proof.
  intros Hn Hlb (Hl & Hopt & Hatt).
  destruct (viterbi_step_spec (cost n) n M bp Hlb) as (S1 & S2 & S3 & S4 & S5).
  set (M' := fst _) in *. set (bp' := snd _) in *. split; [done|]. split.
  - intros path Hok. rewrite path_cost_S. cbn [prev_state]. specialize (Hopt path Hok).
    assert (Hp : (prev_state path n < R34_S)%nat) by (destruct n; [cbn; unfold R34_S; lia|apply Hok]).
    pose proof (path_cost_bounds n path) as Hb.
    assert (Hlive : M.[prev_state path n] < R34_INF).
    { assert (0 <= B) by (specialize (Hcost 0 0 0)%nat; lia). nia. }
    specialize (S3 (path n) (prev_state path n) (Hok n) Hp Hlive). lia.
  - intros s Hs Hlive. destruct (S4 s Hs Hlive) as (p & Hp & Hlp & Ebp & EM).
    destruct (Hatt p Hp Hlp) as (Hr & Hprev & Hc).
    assert (E0 : back_path bp' (S n) s n = s) by (unfold back_path; by replace (S n - 1 - n)%nat with 0%nat by lia).
    assert (E1 : forall t, (t < n)%nat -> back_path bp' (S n) s t = back_path bp n p t).
    { intros t Ht. unfold back_path. replace (S n - 1 - t)%nat with (S (n - 1 - t)) by lia.
      rewrite back_state_cons, Ebp, Nat2Z.id. symmetry. apply back_state_ext; [lia|intros; symmetry; by apply S5|].
      intros d Hd. specialize (Hr (n - 1 - d)%nat ltac:(lia)). unfold back_path in Hr.
      by replace (n - 1 - (n - 1 - d))%nat with d in Hr by lia. }
    split; [|split].
    + intros t Ht. destruct (decide (t = n)) as [->|]; [by rewrite E0|]. rewrite E1 by lia. apply Hr. lia.
    + exact E0.
    + rewrite path_cost_S, E0, (path_cost_ext n _ (back_path bp n p)), Hc, EM by exact E1.
      f_equal. f_equal. transitivity (prev_state (back_path bp n p) n); [|exact Hprev]. destruct n as [|n]; [done|]. apply E1. lia.
Qed.

Lemma search_init bp : search_inv 0 r34_metric_init_1d bp.
Proof.
  split; [done|]. split; [done|]. intros s Hs H. split; [lia|].
  assert (s = 0)%nat as ->; [|done].
  do 8 (destruct s as [|s]; [try done; vm_compute in H; discriminate|]). unfold R34_S in Hs. lia.
Qed.

Lemma search_run junk : length junk = (R34_T * R34_S)%nat ->
  let q := viterbi_run cost junk in
  search_inv R34_T (fst q) (snd q).
Proof.
  intros Hj q.
  enough (H : length (snd q) = (R34_T * R34_S)%nat /\ search_inv R34_T (fst q) (snd q)) by apply H.
  subst q. unfold viterbi_run.
  apply (for_ind (fun n q => length (snd q) = (R34_T * R34_S)%nat /\ search_inv n (fst q) (snd q))); [lia| |].
  - split; [done|apply search_init].
  - intros n [M bp] Hn (Hl & Hi). cbn [fst snd] in *.
    assert (Hlb : (S n * R34_S <= length bp)%nat) by (rewrite Hl; apply Nat.mul_le_mono_r; lia).
    split; [|by apply search_step; [lia|..]].
    destruct (viterbi_step_spec (cost n) n M bp Hlb) as (_ & -> & _). done.
Qed.

(** The path traced back from state 0 after the last step is a cheapest one that
    ends there; no metric comes near the bound that stands for infinity. *)
Lemma search_optimal junk : length junk = (R34_T * R34_S)%nat ->
  let bp := snd (viterbi_run cost junk) in
  let best := back_path bp R34_T 0 in
  (forall t, (t < R34_T)%nat -> (best t < R34_S)%nat) /\ best (R34_T - 1)%nat = 0%nat /\
  (forall path, path_ok path -> path (R34_T - 1)%nat = 0%nat -> path_cost cost R34_T best <= path_cost cost R34_T path).
Proof.
  intros Hj bp best. destruct (search_run junk Hj) as (Hl & Hopt & Hatt). fold bp in Hatt.
  set (M := fst (viterbi_run cost junk)) in *.
  assert (H0 : M.[0%nat] < R34_INF).
  { specialize (Hopt (fun _ => 0%nat) ltac:(intros ?; unfold R34_S; lia)). cbn [prev_state R34_T] in Hopt.
    pose proof (path_cost_bounds R34_T (fun _ => 0%nat)). unfold R34_T in *. cbn [prev_state] in Hopt. lia. }
  destruct (Hatt 0%nat ltac:(unfold R34_S; lia) H0) as (Hr & Hp & Hc).
  split; [exact Hr|]. split; [exact Hp|]. intros path Hok Hend. unfold best. rewrite Hc.
  specialize (Hopt path Hok). change (prev_state path R34_T) with (path (R34_T - 1)%nat) in Hopt.
  by rewrite Hend in Hopt.
Qed.
End Search.

(** ** Traceback and packing *)

Lemma traceback_spec bp end_state :
  length (r34_traceback_states bp end_state) = R34_T /\
  forall t, (t < R34_T)%nat -> (r34_traceback_states bp end_state).[t] = Z.of_nat (back_path bp R34_T end_state t).
Proof.
  unfold r34_traceback_states.
  pose proof (for_ind (fun k q => snd q = back_state bp R34_T end_state k /\ length (fst q) = R34_T /\
      forall d, (d < k)%nat -> (fst q).[(R34_T - 1 - d)%nat] = Z.of_nat (back_state bp R34_T end_state d))
    0 R34_T (fun k '(states, s) =>
      let t := (R34_T - 1 - k)%nat in
      (states.[t <- Z.of_nat s], Z.to_nat (bp.[(t * R34_S + s)%nat]))) (replicate R34_T 0, end_state)) as H.
  destruct H as (_ & Hl & Hs); [lia|split; [done|split; [done|lia]]| |].
  - intros k [states s] Hk (E & Hl & Hs). cbn [fst snd] in *. subst s. split; [done|]. rewrite length_insert. split; [done|].
    intros d Hd. rewrite nth_insert, Hl. destruct (decide (_ = _ /\ _)) as [[E _]|Hne].
    + by replace d with k by lia.
    + apply Hs. lia.
  - split; [done|]. intros t Ht. unfold back_path. rewrite <- Hs by lia. f_equal. lia.
Qed.

(** Eight tribits as three bytes. *)
Definition octal (a : nat -> Z) : Z := for_ 0 8 (fun k v => 8 * v + a k) 0.

Lemma pack_octal (a : nat -> Z) : (forall k, 0 <= a k < 8) ->
  for_ 0 8 (fun k temp => Z.lor (u32 (Z.shiftl temp 3)) (a k)) 0 = octal a /\ 0 <= octal a < 2 ^ 24.
Proof.
  intros Ha.
  assert (H : forall n, (n <= 8)%nat -> 0 <= for_ 0 n (fun k v => 8 * v + a k) 0 < 2 ^ (3 * Z.of_nat n) /\
    for_ 0 n (fun k temp => Z.lor (u32 (Z.shiftl temp 3)) (a k)) 0 = for_ 0 n (fun k v => 8 * v + a k) 0).
  { induction n as [|n IH]; intros Hn; [done|]. destruct IH as [IHr IH]; [lia|]. rewrite !for_S, IH by lia.
    set (v := for_ 0 n _ 0) in *. specialize (Ha n).
    replace (3 * Z.of_nat (S n)) with (3 + 3 * Z.of_nat n) by lia. rewrite Z.pow_add_r by lia. change (2 ^ 3) with 8.
    assert (2 ^ (3 * Z.of_nat n) <= 2 ^ 21) by (apply Z.pow_le_mono_r; lia).
    split; [lia|]. unfold u32, wrap. rewrite Z.mod_small by (rewrite Z.shiftl_mul_pow2 by lia; lia).
    rewrite lor_shiftl by lia. lia. }
  destruct (H 8%nat (le_n _)) as [Hr E]. split; [exact E|exact Hr].
Qed.

Lemma octal_digit (a : nat -> Z) k : (forall k, 0 <= a k < 8) -> (k < 8)%nat ->
  Z.land (Z.shiftr (octal a) (21 - Z.of_nat k * 3)) 7 = a k.
Proof.
  intros Ha Hk. change 7 with (Z.ones 3). rewrite Z.land_ones, Z.shiftr_div_pow2 by lia. change (2 ^ 3) with 8.
  unfold octal, for_. cbn [fold_left seq Nat.sub].
  pose proof (Ha 0%nat). pose proof (Ha 1%nat). pose proof (Ha 2%nat). pose proof (Ha 3%nat).
  pose proof (Ha 4%nat). pose proof (Ha 5%nat). pose proof (Ha 6%nat). pose proof (Ha 7%nat).
  do 8 (destruct k as [|k]; [match goal with |- context [2 ^ ?e] => let v := eval vm_compute in (2 ^ e) in
    change (2 ^ e) with v end; Z.div_mod_to_equations; lia|]). lia.
Qed.

Lemma three_bytes v : 0 <= v < 2 ^ 24 ->
  Z.lor (Z.lor (Z.shiftl (u8 (Z.land (Z.shiftr v 16) 0xFF)) 16) (Z.shiftl (u8 (Z.land (Z.shiftr v 8) 0xFF)) 8))
    (u8 (Z.land v 0xFF)) = v.
Proof.
  intros Hv. change 0xFF with (Z.ones 8). rewrite !Z.land_ones, !Z.shiftr_div_pow2 by lia. unfold u8, wrap.
  rewrite !Z.mod_mod by lia.
  pose proof (Z.mod_pos_bound (v / 2 ^ 16) (2 ^ 8) ltac:(lia)). pose proof (Z.mod_pos_bound (v / 2 ^ 8) (2 ^ 8) ltac:(lia)).
  pose proof (Z.mod_pos_bound v (2 ^ 8) ltac:(lia)).
  replace (Z.shiftl ((v / 2 ^ 16) mod 2 ^ 8) 16) with (Z.shiftl (Z.shiftl ((v / 2 ^ 16) mod 2 ^ 8) 8) 8)
    by (rewrite Z.shiftl_shiftl by lia; done).
  rewrite <- Z.shiftl_lor, (lor_shiftl _ ((v / 2 ^ 8) mod 2 ^ 8) 8), lor_shiftl by lia.
  change (2 ^ 24) with 16777216 in *. change (2 ^ 16) with 65536 in *. change (2 ^ 8) with 256 in *.
  Z.div_mod_to_equations. lia.
Qed.

(** The tribits of a payload are those packed into it. *)
Lemma unpack_pack states t :
  (forall t, 0 <= states.[t] < 8) -> (t < 48)%nat ->
  (r34_unpack_states (r34_pack_states_to_bytes states)).[t] = states.[t].
Proof.
  intros Hs Ht. unfold r34_pack_states_to_bytes.
  set (a := fun g k => states.[(g * 8 + k)%nat]).
  assert (Ha : forall g k, 0 <= a g k < 8) by (intros; apply Hs).
  assert (E : forall g, for_ 0 8 (fun k temp => Z.lor (u32 (Z.shiftl temp 3)) (Z.land (states.[(g * 8 + k)%nat]) 7)) 0 = octal (a g)).
  { intros g. rewrite <- (proj1 (pack_octal (a g) (Ha g))). apply for_ext. intros k s _. f_equal.
    change 7 with (Z.ones 3). rewrite Z.land_ones by lia. apply Z.mod_small, Ha. }
  cbn [flat_map seq app]. rewrite !E.
  unfold r34_unpack_states. cbn [flat_map seq app map Nat.mul Nat.add nth].
  rewrite !three_bytes by apply pack_octal, Ha.
  do 48 (destruct t as [|t]; [cbn [nth]; match goal with |- _ = states.[?n] =>
    let g := eval vm_compute in (n / 8)%nat in let k := eval vm_compute in (n mod 8)%nat in
    exact (octal_digit (a g) k (Ha g) ltac:(lia)) end|]). lia.
Qed.

(** ** The metric of a payload as the cost of its path *)

Definition soft_cost (nibs rhi rlo : list Z) (t ps ns : nat) : Z :=
  r34_weighted_nibble_cost (expect_nib ps ns) (nibs.[t]) (rhi.[t]) (rlo.[t]).

Lemma soft_run nibs rhi rlo junk : r34_run_viterbi_soft nibs rhi rlo junk = viterbi_run (soft_cost nibs rhi rlo) junk.
Proof. reflexivity. Qed.

Definition states_path (states : list Z) (t : nat) : nat := Z.to_nat (states.[t]).

(** The metric [dmr_r34_candidate_metric] computes. *)
Definition payload_metric (dibits98 : list Z) (reliab98 : option (list Z)) (bytes18 : list Z) : Z :=
  let w := r34_prepare_reliability_weights reliab98 in
  path_cost (soft_cost (r34_prepare_nibbles dibits98) (fst w) (snd w)) R34_T
    (states_path (r34_unpack_states bytes18)).

Lemma payload_metric_eq dibits98 reliab98 bytes18 : payload_metric dibits98 reliab98 bytes18 =
  path_cost (soft_cost (r34_prepare_nibbles dibits98) (fst (r34_prepare_reliability_weights reliab98))
    (snd (r34_prepare_reliability_weights reliab98))) R34_T (states_path (r34_unpack_states bytes18)).
Proof. reflexivity. Qed.

Lemma unpack_states_range bytes18 t : 0 <= (r34_unpack_states bytes18).[t] < 8.
Proof.
  assert (L : forall x, 0 <= Z.land x 7 < 8).
  { intros x. change 7 with (Z.ones 3). rewrite Z.land_ones by lia. by apply Z.mod_pos_bound. }
  assert (H : Forall (fun x => 0 <= x < 8) (r34_unpack_states bytes18)).
  { unfold r34_unpack_states. apply Forall_app. split; [|repeat constructor; lia].
    apply Forall_flat_map, Forall_true. intros g. apply Forall_fmap, Forall_true. intros k. apply L. }
  destruct (decide (t < length (r34_unpack_states bytes18))%nat); [by apply Forall_nth|].
  rewrite nth_overflow by lia. lia.
Qed.

Lemma candidate_metric_cost dibits98 reliab98 bytes18 m :
  dmr_r34_candidate_metric (Some dibits98) reliab98 (Some bytes18) (Some m)
  = (Some (payload_metric dibits98 reliab98 bytes18), 0).
Proof.
  unfold dmr_r34_candidate_metric, payload_metric. destruct (r34_prepare_reliability_weights reliab98) as [rhi rlo].
  cbn [fst snd]. do 2 f_equal. unfold path_cost, sum_upto. apply for_ext. intros t acc Ht. f_equal.
  pose proof (unpack_states_range bytes18) as R. set (st := r34_unpack_states bytes18) in *.
  unfold soft_cost, expect_nib, expect_point, states_path. do 5 f_equal. unfold R34_S.
  destruct t as [|t]; cbn [Nat.eqb prev_state].
  - specialize (R 0%nat). lia.
  - replace (S t - 1)%nat with t by lia. pose proof (R t). pose proof (R (S t)). lia.
Qed.

Definition weights (l : list Z) : Prop := Forall (fun x => 0 <= x < 256) l.

Lemma weighted_cost_bounds e o rhi rlo : 0 <= rhi < 256 -> 0 <= rlo < 256 ->
  0 <= r34_weighted_nibble_cost e o rhi rlo <= 1020.
Proof. intros H1 H2. unfold r34_weighted_nibble_cost. repeat destruct (negb _); lia. Qed.

Lemma nth_weights l i : weights l -> 0 <= l.[i] < 256.
Proof.
  intros H. destruct (decide (i < length l)%nat) as [Hi|Hi]; [by apply Forall_nth|]. rewrite nth_overflow; lia.
Qed.

Lemma prepared_weights reliab98 : match reliab98 with Some r => weights r | None => True end ->
  weights (fst (r34_prepare_reliability_weights reliab98)) /\ weights (snd (r34_prepare_reliability_weights reliab98)).
Proof.
  destruct reliab98 as [r|]; cbn [r34_prepare_reliability_weights]; intros H.
  - assert (Hd : weights (r34_deinterleave_reliability r)).
    { apply (for_inv weights); [apply Forall_replicate; lia|]. intros i s _ Hs. apply Forall_insert; [done|].
      by apply nth_weights. }
    split; apply Forall_fmap, Forall_true; intros i; by apply nth_weights.
  - split; apply Forall_replicate; lia.
Qed.

Lemma soft_cost_bounds nibs rhi rlo : weights rhi -> weights rlo ->
  forall t ps ns, 0 <= soft_cost nibs rhi rlo t ps ns <= 1020.
Proof. intros H1 H2 t ps ns. apply weighted_cost_bounds; by apply nth_weights. Qed.

(** A path that ends in state 0, written as bytes and read again. *)
Lemma path_bytes bp : let best := back_path bp R34_T 0 in
  (forall t, (t < R34_T)%nat -> (best t < R34_S)%nat) -> best (R34_T - 1)%nat = 0%nat ->
  let bytes := r34_pack_states_to_bytes (r34_traceback_states bp 0) in
  forall t, (t < R34_T)%nat -> states_path (r34_unpack_states bytes) t = best t.
Proof.
  intros best Hr Hend bytes t Ht. destruct (traceback_spec bp 0) as [Hl Hs]. fold best in Hs.
  unfold states_path. destruct (decide (t = 48)%nat) as [->|Hne].
  - change (back_path bp R34_T 0 48) with (best (R34_T - 1)%nat) in *. change (best 48%nat) with (best (R34_T - 1)%nat).
    rewrite Hend. reflexivity.
  - subst bytes. rewrite unpack_pack by (unfold R34_T in *; lia || (intros t'; destruct (decide (t' < 49)%nat);
      [rewrite Hs by done; specialize (Hr t' ltac:(done)); unfold R34_S in Hr; lia
      |rewrite nth_overflow by (rewrite Hl; unfold R34_T; lia); lia])).
    rewrite Hs by done. apply Nat2Z.id.
Qed.

Lemma soft_optimal (junk dibits98 reliab98 out : list Z) :
  length junk = (R34_T * R34_S)%nat -> weights reliab98 ->
  exists best m,
    dmr_r34_viterbi_decode_soft junk (Some dibits98) (Some reliab98) (Some out) = (Some best, 0) /\
    dmr_r34_candidate_metric (Some dibits98) (Some reliab98) (Some best) (Some 0) = (Some m, 0) /\
    forall bytes18, exists m',
      dmr_r34_candidate_metric (Some dibits98) (Some reliab98) (Some bytes18) (Some 0) = (Some m', 0) /\ m <= m'.
Proof.
  intros Hj Hw. unfold dmr_r34_viterbi_decode_soft. setoid_rewrite candidate_metric_cost. unfold payload_metric.
  destruct (prepared_weights (Some reliab98) Hw) as [Hhi Hlo].
  destruct (r34_prepare_reliability_weights (Some reliab98)) as [rhi rlo]. cbn [fst snd] in *.
  set (nibs := r34_prepare_nibbles dibits98). rewrite soft_run.
  pose proof (soft_cost_bounds nibs rhi rlo Hhi Hlo) as Hb.
  destruct (search_optimal (soft_cost nibs rhi rlo) 1020 Hb ltac:(by_decide) junk Hj) as (Hr & Hend & Hopt).
  destruct (viterbi_run (soft_cost nibs rhi rlo) junk) as [M bp]. cbn [snd] in *.
  eexists _, _. split; [done|]. split; [done|]. intros bytes18. eexists. split; [done|].
  pose proof (path_bytes bp Hr Hend) as Hp.
  rewrite (path_cost_ext _ R34_T _ (back_path bp R34_T 0)) by exact Hp. apply Hopt; [|done].
  intros t. unfold states_path. pose proof (unpack_states_range bytes18 t). unfold R34_S. lia.
Qed.

(** the soft decoder is maximum likelihood: it succeeds, and no payload
    whatever scores better against the received dibits, by the program's own
    [dmr_r34_candidate_metric], than the one it returns; what the uninitialised
    back pointers held does not matter. *)
Lemma r34_soft_decoder_optimal (junk dibits98 reliab98 out : list Z) :
  length junk = (R34_T * R34_S)%nat -> weights reliab98 ->
  exists best m,
    dmr_r34_viterbi_decode_soft junk (Some dibits98) (Some reliab98) (Some out) = (Some best, 0) /\
    dmr_r34_candidate_metric (Some dibits98) (Some reliab98) (Some best) (Some 0) = (Some m, 0) /\
    forall bytes18, exists m',
      dmr_r34_candidate_metric (Some dibits98) (Some reliab98) (Some bytes18) (Some 0) = (Some m', 0) /\ m <= m'.
Proof. apply soft_optimal. Qed.

Lemma r34_soft_decoder_optimal_witness :
  let d := map (fun i => Z.of_nat (i * 7 mod 5) mod 4) (seq 0 98) in
  let r := map (fun i => Z.of_nat (i * 37 mod 256)) (seq 0 98) in
  exists best m,
    dmr_r34_viterbi_decode_soft (replicate 392 5) (Some d) (Some r) (Some []) = (Some best, 0) /\
    dmr_r34_candidate_metric (Some d) (Some r) (Some best) (Some 0) = (Some m, 0) /\
    forall bytes18, exists m',
      dmr_r34_candidate_metric (Some d) (Some r) (Some bytes18) (Some 0) = (Some m', 0) /\ m <= m'.
Proof. intros d r. apply r34_soft_decoder_optimal; [reflexivity|by_decide]. Defined.

(** ** Reception without errors *)

(** A path without cost is determined by what was received. *)
Section ZeroPath.
Context (cost : nat -> nat -> nat -> Z) (expected : nat -> nat -> Z) (obs : nat -> Z) (n : nat).
Hypothesis cost_nonneg : forall t ps ns, 0 <= cost t ps ns.
Hypothesis cost_zero : forall t ps ns, (t < n)%nat -> (ps < R34_S)%nat -> (ns < R34_S)%nat ->
  cost t ps ns = 0 -> expected ps ns = obs t.
Hypothesis expected_inj : forall ps ns ns', (ps < R34_S)%nat -> (ns < R34_S)%nat -> (ns' < R34_S)%nat ->
  expected ps ns = expected ps ns' -> ns = ns'.

Lemma path_cost_nonneg k path : 0 <= path_cost cost k path.
Proof.
  induction k as [|k IH]; [cbn; lia|]. rewrite path_cost_S.
  pose proof (cost_nonneg k (prev_state path k) (path k)). lia.
Qed.

Lemma path_cost_zero k path t : path_cost cost k path = 0 -> (t < k)%nat -> cost t (prev_state path t) (path t) = 0.
Proof.
  intros H Ht. induction k as [|k IH]; [lia|]. rewrite path_cost_S in H.
  pose proof (path_cost_nonneg k path). pose proof (cost_nonneg k (prev_state path k) (path k)).
  destruct (decide (t = k)) as [->|]; [lia|]. apply IH; lia.
Qed.

Lemma zero_path_unique p q :
  (forall t, (t < n)%nat -> (p t < R34_S)%nat) -> (forall t, (t < n)%nat -> (q t < R34_S)%nat) ->
  path_cost cost n p = 0 -> path_cost cost n q = 0 -> forall t, (t < n)%nat -> p t = q t.
Proof.
  intros Rp Rq Hp Hq t. induction t as [t IH] using lt_wf_ind. intros Ht.
  assert (Eprev : prev_state p t = prev_state q t) by (destruct t as [|t]; [done|apply IH; lia]).
  assert (Rprev : (prev_state p t < R34_S)%nat) by (destruct t as [|t]; [unfold R34_S; cbn; lia|apply Rp; lia]).
  pose proof (path_cost_zero n p t Hp Ht) as Cp. pose proof (path_cost_zero n q t Hq Ht) as Cq. rewrite <- Eprev in Cq.
  apply (expected_inj (prev_state p t)); [done|by apply Rp|by apply Rq|].
  rewrite (cost_zero t _ _ Ht Rprev (Rp t Ht) Cp), (cost_zero t _ _ Ht Rprev (Rq t Ht) Cq). done.
Qed.
End ZeroPath.

Lemma trellis_check (P : nat -> nat -> bool) :
  forallb (fun ps => forallb (P ps) (seq 0 R34_S)) (seq 0 R34_S) = true ->
  forall ps ns, (ps < R34_S)%nat -> (ns < R34_S)%nat -> P ps ns = true.
Proof. intros H ps ns Hp Hn. apply (check_nat _ _ H) in Hp. by apply (check_nat _ _ Hp). Qed.

Lemma expect_facts ps ns : (ps < R34_S)%nat -> (ns < R34_S)%nat ->
  0 <= expect_point ps ns < 16 /\ 0 <= expect_nib ps ns < 16 /\
  dsd_trellis34_constellation.[Z.to_nat (expect_nib ps ns)] = expect_point ps ns.
Proof.
  intros Hp Hn. pose proof (trellis_check (fun ps ns => (0 <=? expect_point ps ns) && (expect_point ps ns <? 16)
    && (0 <=? expect_nib ps ns) && (expect_nib ps ns <? 16)
    && (dsd_trellis34_constellation.[Z.to_nat (expect_nib ps ns)] =? expect_point ps ns))
    ltac:(vm_compute; reflexivity) ps ns Hp Hn) as H. cbn beta in H. lia.
Qed.

Lemma expect_point_inj ps ns ns' : (ps < R34_S)%nat -> (ns < R34_S)%nat -> (ns' < R34_S)%nat ->
  expect_point ps ns = expect_point ps ns' -> ns = ns'.
Proof.
  intros Hp Hn Hn' E. pose proof (trellis_check (fun ps ns => forallb (fun ns' =>
    negb (expect_point ps ns =? expect_point ps ns') || (ns =? ns')%nat) (seq 0 R34_S))
    ltac:(vm_compute; reflexivity) ps ns Hp Hn) as H.
  apply (check_nat _ _ H) in Hn'. cbn beta in Hn'. rewrite E, Z.eqb_refl in Hn'. by apply Nat.eqb_eq.
Qed.

Lemma expect_nib_inj ps ns ns' : (ps < R34_S)%nat -> (ns < R34_S)%nat -> (ns' < R34_S)%nat ->
  expect_nib ps ns = expect_nib ps ns' -> ns = ns'.
Proof.
  intros Hp Hn Hn' E. apply (expect_point_inj ps); [done..|].
  destruct (expect_facts ps ns Hp Hn) as (_ & _ & <-), (expect_facts ps ns' Hp Hn') as (_ & _ & <-). by rewrite E.
Qed.

Lemma nibs_range dibits98 t : 0 <= (r34_prepare_nibbles dibits98).[t] < 16.
Proof.
  assert (H : Forall (fun x => 0 <= x < 16) (r34_prepare_nibbles dibits98)).
  { apply Forall_fmap, Forall_true. intros i. unfold compose. cbv zeta.
    assert (L : forall x, 0 <= Z.land x 3 < 4).
    { intros x. change 3 with (Z.ones 2). rewrite Z.land_ones by lia. by apply Z.mod_pos_bound. }
    rewrite lor_shiftl by (lia || apply L). unfold u8, wrap.
    set (dei := r34_deinterleave_dibits dibits98).
    pose proof (L (dei.[(i * 2 + 0)%nat])). pose proof (L (dei.[(i * 2 + 1)%nat])). rewrite Z.mod_small; lia. }
  destruct (decide (t < length (r34_prepare_nibbles dibits98))%nat); [by apply Forall_nth|].
  rewrite nth_overflow by lia. lia.
Qed.

(** With positive weights only the received nibble costs nothing. *)
Lemma weighted_cost_zero e o rhi rlo : 0 <= e < 16 -> 0 <= o < 16 -> 0 < rhi -> 0 < rlo ->
  r34_weighted_nibble_cost e o rhi rlo = 0 <-> e = o.
Proof.
  intros He Ho H1 H2. split; [|intros ->; unfold r34_weighted_nibble_cost; by rewrite Z.lxor_nilpotent].
  unfold r34_weighted_nibble_cost. intros H. apply Z.lxor_eq.
  pose proof (lxor_range 4 e o ltac:(lia) ltac:(lia) ltac:(lia)) as Hx. set (x := Z.lxor e o) in *.
  assert (C : forallb (fun k => let x := Z.of_nat k in (x =? 0) || negb (Z.land x 8 =? 0) || negb (Z.land x 4 =? 0)
    || negb (Z.land x 2 =? 0) || negb (Z.land x 1 =? 0)) (seq 0 16) = true) by reflexivity.
  apply (check_Z (fun x => (x =? 0) || negb (Z.land x 8 =? 0) || negb (Z.land x 4 =? 0)
    || negb (Z.land x 2 =? 0) || negb (Z.land x 1 =? 0)) 16 C) in Hx.
  destruct (negb (Z.land x 8 =? 0)), (negb (Z.land x 4 =? 0)), (negb (Z.land x 2 =? 0)), (negb (Z.land x 1 =? 0));
    try lia.
Qed.

(** ** Payload bytes *)

Lemma land7_range x : 0 <= Z.land x 7 < 8.
Proof. change 7 with (Z.ones 3). rewrite Z.land_ones by lia. by apply Z.mod_pos_bound. Qed.

Lemma three_bytes_back b0 b1 b2 : 0 <= b0 < 256 -> 0 <= b1 < 256 -> 0 <= b2 < 256 ->
  let v := Z.lor (Z.lor (Z.shiftl b0 16) (Z.shiftl b1 8)) b2 in
  let a := fun k => Z.land (Z.shiftr v (21 - Z.of_nat k * 3)) 7 in
  u8 (Z.land (Z.shiftr (octal a) 16) 0xFF) = b0 /\ u8 (Z.land (Z.shiftr (octal a) 8) 0xFF) = b1 /\
  u8 (Z.land (octal a) 0xFF) = b2.
Proof.
  intros Hb0 Hb1 Hb2 v a.
  assert (Ev : v = b0 * 65536 + b1 * 256 + b2).
  { subst v. replace (Z.shiftl b0 16) with (Z.shiftl (Z.shiftl b0 8) 8) by (rewrite Z.shiftl_shiftl by lia; done).
    rewrite <- Z.shiftl_lor, (lor_shiftl b0 b1 8), lor_shiftl by lia. lia. }
  assert (Hv : 0 <= v < 16777216) by lia.
  assert (octal a = v) as ->.
  { unfold octal, for_, a. clearbody v. cbn [fold_left seq Nat.sub]. change 7 with (Z.ones 3).
    rewrite !Z.land_ones, !Z.shiftr_div_pow2 by lia.
    repeat match goal with |- context [2 ^ ?e] => let p := eval vm_compute in (2 ^ e) in change (2 ^ e) with p end.
    clear Ev Hb0 Hb1 Hb2. Z.div_mod_to_equations. lia. }
  change 0xFF with (Z.ones 8). rewrite !Z.land_ones, !Z.shiftr_div_pow2 by lia. unfold u8, wrap.
  rewrite !Z.mod_mod by lia. change (2 ^ 16) with 65536. change (2 ^ 8) with 256. rewrite Ev. clearbody v.
  repeat split; Z.div_mod_to_equations; lia.
Qed.

Lemma pack_unpack bytes18 : length bytes18 = 18%nat -> weights bytes18 ->
  r34_pack_states_to_bytes (r34_unpack_states bytes18) = bytes18.
Proof.
  intros Hl Hw.
  set (v := fun g => let b := (g * 3)%nat in
    Z.lor (Z.lor (Z.shiftl (bytes18.[b]) 16) (Z.shiftl (bytes18.[(b + 1)%nat]) 8)) (bytes18.[(b + 2)%nat])).
  assert (Hst : forall g k, (g < 6)%nat -> (k < 8)%nat ->
    (r34_unpack_states bytes18).[(g * 8 + k)%nat] = Z.land (Z.shiftr (v g) (21 - Z.of_nat k * 3)) 7).
  { intros g k Hg Hk. do 6 (destruct g as [|g]; [do 8 (destruct k as [|k]; [reflexivity|]); lia|]). lia. }
  assert (Hg : forall g, In g (seq 0 6) ->
    (let temp := for_ 0 8 (fun k temp => Z.lor (u32 (Z.shiftl temp 3))
        (Z.land ((r34_unpack_states bytes18).[(g * 8 + k)%nat]) 7)) 0 in
     [u8 (Z.land (Z.shiftr temp 16) 0xFF); u8 (Z.land (Z.shiftr temp 8) 0xFF); u8 (Z.land temp 0xFF)])
    = [bytes18.[(g * 3)%nat]; bytes18.[(g * 3 + 1)%nat]; bytes18.[(g * 3 + 2)%nat]]).
  { intros g Hg%in_seq. cbv zeta.
    assert (for_ 0 8 (fun k temp => Z.lor (u32 (Z.shiftl temp 3))
        (Z.land ((r34_unpack_states bytes18).[(g * 8 + k)%nat]) 7)) 0
      = octal (fun k => Z.land (Z.shiftr (v g) (21 - Z.of_nat k * 3)) 7)) as ->.
    { rewrite <- (proj1 (pack_octal (fun k => Z.land (Z.shiftr (v g) (21 - Z.of_nat k * 3)) 7) (fun k => land7_range _))).
      apply for_ext. intros k s Hk. rewrite Hst by lia. f_equal. change 7 with (Z.ones 3).
      rewrite !Z.land_ones by lia. apply Z.mod_mod. lia. }
    destruct (three_bytes_back (bytes18.[(g * 3)%nat]) (bytes18.[(g * 3 + 1)%nat]) (bytes18.[(g * 3 + 2)%nat]))
      as (E0 & E1 & E2); [by apply nth_weights..|]. unfold v. by rewrite E0, E1, E2. }
  unfold r34_pack_states_to_bytes. rewrite flat_map_concat_map.
  etransitivity; [apply f_equal, map_ext_in, Hg|]. clear Hg Hst v.
  do 18 (destruct bytes18 as [|? bytes18]; [discriminate|]). destruct bytes18; [reflexivity|discriminate].
Qed.

Lemma pack_ext a b : (forall t, (t < 48)%nat -> a.[t] = b.[t]) ->
  r34_pack_states_to_bytes a = r34_pack_states_to_bytes b.
Proof.
  intros H. unfold r34_pack_states_to_bytes. rewrite !flat_map_concat_map. f_equal. apply map_ext_in.
  intros g Hg%in_seq. cbv zeta.
  rewrite (for_ext 0 8 _ (fun k temp => Z.lor (u32 (Z.shiftl temp 3)) (Z.land (b.[(g * 8 + k)%nat]) 7))); [done|].
  intros k s Hk. by rewrite H by lia.
Qed.

(** ** The decoders on a clean reception *)

Definition hard_cost (obs_point : list Z) (t ps ns : nat) : Z :=
  dsd_popcount64 (Z.land (Z.lxor (expect_point ps ns) (obs_point.[t])) 0x0F).

Lemma hard_run obs_point junk : r34_run_viterbi_hard obs_point junk = viterbi_run (hard_cost obs_point) junk.
Proof. unfold r34_run_viterbi_hard, hard_cost. reflexivity. Qed.

Lemma popcount_bounds x : 0 <= dsd_popcount64 x <= 64.
Proof.
  unfold dsd_popcount64. enough (H : forall n, 0 <= sum_upto n (fun i => Z.b2z (Z.testbit x (Z.of_nat i))) <= Z.of_nat n)
    by apply (H 64%nat).
  induction n as [|n IH]; [cbn; lia|]. rewrite sum_upto_S. destruct (Z.testbit x (Z.of_nat n)); cbn [Z.b2z]; lia.
Qed.

Lemma popcount_point_zero e o : 0 <= e < 16 -> 0 <= o < 16 -> dsd_popcount64 (Z.land (Z.lxor e o) 0x0F) = 0 <-> e = o.
Proof.
  intros He Ho. split; [|intros ->; by rewrite Z.lxor_nilpotent].
  intros H. apply Z.lxor_eq. pose proof (lxor_range 4 e o ltac:(lia) ltac:(lia) ltac:(lia)) as Hx.
  set (x := Z.lxor e o) in *. change 0x0F with (Z.ones 4) in H. rewrite Z.land_ones, Z.mod_small in H by lia.
  assert (C : forallb (fun k => (Z.of_nat k =? 0) || negb (dsd_popcount64 (Z.of_nat k) =? 0)) (seq 0 16) = true) by reflexivity.
  apply (check_Z (fun x => (x =? 0) || negb (dsd_popcount64 x =? 0)) 16 C) in Hx. rewrite H in Hx. lia.
Qed.

(** Two searches whose costs vanish on the same transitions. *)
Lemma clean_decode cost B junk path :
  (forall t ps ns, 0 <= cost t ps ns <= B) -> Z.of_nat R34_T * B < R34_INF -> length junk = (R34_T * R34_S)%nat ->
  (exists expected obs,
     (forall t ps ns, (t < R34_T)%nat -> (ps < R34_S)%nat -> (ns < R34_S)%nat -> cost t ps ns = 0 -> expected ps ns = obs t) /\
     (forall ps ns ns', (ps < R34_S)%nat -> (ns < R34_S)%nat -> (ns' < R34_S)%nat ->
        expected ps ns = expected ps ns' :> Z -> ns = ns')) ->
  path_ok path -> path (R34_T - 1)%nat = 0%nat -> path_cost cost R34_T path = 0 ->
  let bp := snd (viterbi_run cost junk) in
  forall t, (t < R34_T)%nat -> (r34_traceback_states bp 0).[t] = Z.of_nat (path t).
Proof.
  intros Hb HB Hj (expected & obs & Hz & Hinj) Hok Hend H0 bp t Ht.
  destruct (search_optimal cost B Hb HB junk Hj) as (Hr & Hbe & Hopt). fold bp in Hr, Hbe, Hopt.
  specialize (Hopt path Hok Hend). rewrite H0 in Hopt.
  assert (Hn : forall t ps ns, 0 <= cost t ps ns) by apply Hb.
  pose proof (path_cost_nonneg cost Hn R34_T (back_path bp R34_T 0)) as Hnn.
  destruct (traceback_spec bp 0) as [_ Htb]. rewrite Htb by done. f_equal.
  apply (zero_path_unique cost expected obs R34_T Hn Hz Hinj); try done; lia.
Qed.

Lemma path_bytes_eq bp bytes18 : length bytes18 = 18%nat -> weights bytes18 ->
  (forall t, (t < R34_T)%nat ->
     (r34_traceback_states bp 0).[t] = Z.of_nat (states_path (r34_unpack_states bytes18) t)) ->
  r34_pack_states_to_bytes (r34_traceback_states bp 0) = bytes18.
Proof.
  intros Hl Hw H. etransitivity; [|exact (pack_unpack bytes18 Hl Hw)]. apply pack_ext. intros t Ht.
  rewrite H by (unfold R34_T; lia). unfold states_path. pose proof (unpack_states_range bytes18 t). lia.
Qed.

Lemma deinterleaved_weights reliab98 t : (forall i, (i < 98)%nat -> 0 < reliab98.[i]) -> (t < R34_T)%nat ->
  let w := r34_prepare_reliability_weights (Some reliab98) in 0 < (fst w).[t] /\ 0 < (snd w).[t].
Proof.
  intros Hr Ht w.
  assert (Hcell : forall a, (a < 98)%nat -> 0 < (r34_deinterleave_reliability reliab98).[a]).
  { intros a Ha. change (r34_deinterleave_reliability reliab98) with
      (stores (fun i => nth i dsd_trellis_interleave_98 0%nat) (fun i => reliab98.[i]) 98 (replicate 98 0)).
    assert (C1 : forallb (fun a => existsb (fun i => (nth i dsd_trellis_interleave_98 0 =? a)%nat) (seq 0 98)) (seq 0 98)
      = true) by (vm_compute; reflexivity).
    assert (C2 : forallb (fun i => forallb (fun j => (i =? j)%nat || negb (nth i dsd_trellis_interleave_98 0 =?
      nth j dsd_trellis_interleave_98 0)%nat) (seq 0 98)) (seq 0 98) = true) by (vm_compute; reflexivity).
    apply (check_nat _ _ C1) in Ha as He. apply existsb_exists in He as (i & Hi%in_seq & E%Nat.eqb_eq).
    rewrite <- E, (stores_hit (fun i => nth i dsd_trellis_interleave_98 0%nat) (fun i => reliab98.[i])).
    - apply Hr. lia.
    - lia.
    - intros j Hj Hne Heq. apply (check_nat _ _ C2) in Hj as Hj2. assert (Hi98 : (i < 98)%nat) by lia.
      apply (check_nat _ _ Hj2) in Hi98. cbn beta in Hi98. rewrite Heq, Nat.eqb_refl in Hi98.
      apply orb_true_iff in Hi98 as [Hi98%Nat.eqb_eq|Hi98]; [lia|discriminate].
    - rewrite length_replicate. lia. }
  unfold w, r34_prepare_reliability_weights, r34_split_reliability. cbn [fst snd].
  rewrite !nth_map_seq by done. unfold R34_T in Ht. split; apply Hcell; lia.
Qed.

#[local] Opaque viterbi_run dsd_popcount64 r34_weighted_nibble_cost r34_pack_states_to_bytes r34_traceback_states
  r34_prepare_nibbles.

(** A path without cost under positive weights sends the observed nibbles. *)
Lemma soft_path_zero obs rhi rlo path : weights rhi -> weights rlo -> path_ok path ->
  (forall t, 0 <= obs.[t] < 16) -> (forall t, (t < R34_T)%nat -> 0 < rhi.[t] /\ 0 < rlo.[t]) ->
  path_cost (soft_cost obs rhi rlo) R34_T path = 0 ->
  forall t, (t < R34_T)%nat -> expect_nib (prev_state path t) (path t) = obs.[t].
Proof.
  intros Hhi Hlo Hok Ho Hpos H0 t Ht.
  assert (Hc : soft_cost obs rhi rlo t (prev_state path t) (path t) = 0).
  { refine (path_cost_zero (soft_cost obs rhi rlo) _ R34_T path t H0 Ht).
    intros t' ps ns. apply (soft_cost_bounds obs rhi rlo Hhi Hlo). }
  assert (Hprev : (prev_state path t < R34_S)%nat) by (destruct t; [by_decide|apply Hok]).
  destruct (expect_facts _ _ Hprev (Hok t)) as (_ & He & _), (Hpos t Ht) as [P1 P2].
  exact (proj1 (weighted_cost_zero _ _ _ _ He (Ho t) P1 P2) Hc).
Qed.

Lemma uniform_weights t : (t < R34_T)%nat -> let w := r34_prepare_reliability_weights None in
  0 < (fst w).[t] /\ 0 < (snd w).[t].
Proof.
  intros Ht. cbn [r34_prepare_reliability_weights r34_set_uniform_reliability fst snd].
  assert (E : (replicate R34_T 1).[t] = 1) by (rewrite nth_lookup, lookup_replicate_2 by done; done). rewrite E. lia.
Qed.

Section Clean.
Context (junk dibits98 bytes18 : list Z).
Context (Hj : length junk = (R34_T * R34_S)%nat) (Hl : length bytes18 = 18%nat) (Hw : weights bytes18).
Notation nibs := (r34_prepare_nibbles dibits98).
Notation path := (states_path (r34_unpack_states bytes18)).
Context (H0 : payload_metric dibits98 None bytes18 = 0).

Lemma clean_path_ok : path_ok path.
Proof. intros t. unfold states_path. pose proof (unpack_states_range bytes18 t). unfold R34_S. lia. Qed.

Lemma clean_prev t : (prev_state path t < R34_S)%nat.
Proof. destruct t as [|t]; [cbn; unfold R34_S; lia|apply clean_path_ok]. Qed.

Lemma clean_end : path (R34_T - 1)%nat = 0%nat.
Proof. reflexivity. Qed.

Lemma clean_nib t : (t < R34_T)%nat -> expect_nib (prev_state path t) (path t) = nibs.[t].
Proof.
  revert H0. rewrite payload_metric_eq. pose proof uniform_weights as Hu. cbv zeta in Hu. destruct (prepared_weights None I) as [Hhi Hlo].
  revert Hu Hhi Hlo. generalize (fst (r34_prepare_reliability_weights None)), (snd (r34_prepare_reliability_weights None)).
  intros rhi rlo Hu Hhi Hlo Hz. exact (soft_path_zero nibs rhi rlo path Hhi Hlo clean_path_ok (nibs_range dibits98) Hu Hz t).
Qed.

Lemma clean_path_cost cost : (forall t, (t < R34_T)%nat -> cost t (prev_state path t) (path t) = 0) ->
  path_cost cost R34_T path = 0.
Proof. intros Hc. unfold path_cost. rewrite (sum_upto_ext _ _ (fun _ => 0)) by exact Hc. apply sum_upto_0. Qed.

Lemma map_points t : (t < R34_T)%nat ->
  (r34_map_nibbles_to_points nibs).[t] = dsd_trellis34_constellation.[Z.to_nat (nibs.[t])].
Proof.
  intros Ht. unfold r34_map_nibbles_to_points. rewrite nth_map_seq by exact Ht.
  pose proof (nibs_range dibits98 t) as Hr. assert (E : Z.land (nibs.[t]) 0x0F = nibs.[t]); [|by rewrite Nat.add_0_l, E].
  change 0x0F with (Z.ones 4). rewrite Z.land_ones by lia. by apply Z.mod_small.
Qed.

Lemma clean_point t : (t < R34_T)%nat -> 0 <= (r34_map_nibbles_to_points nibs).[t] < 16 /\
  expect_point (prev_state path t) (path t) = (r34_map_nibbles_to_points nibs).[t].
Proof.
  intros Ht. rewrite map_points, <- clean_nib by exact Ht.
  destruct (expect_facts _ _ (clean_prev t) (clean_path_ok t)) as (H1 & _ & E). rewrite E. split; [exact H1|reflexivity].
Qed.

Lemma hard_cost_zero obs t ps ns : 0 <= obs.[t] < 16 -> (ps < R34_S)%nat -> (ns < R34_S)%nat ->
  hard_cost obs t ps ns = 0 <-> expect_point ps ns = obs.[t].
Proof.
  intros Ho Hps Hns. unfold hard_cost. destruct (expect_facts ps ns Hps Hns) as (He & _ & _).
  by apply popcount_point_zero.
Qed.

Lemma hard_cost_bounds obs t ps ns : 0 <= hard_cost obs t ps ns <= 64.
Proof. apply popcount_bounds. Qed.

Lemma clean_hard_path obs :
  (forall t, (t < R34_T)%nat -> 0 <= obs.[t] < 16 /\ expect_point (prev_state path t) (path t) = obs.[t]) ->
  forall t, (t < R34_T)%nat -> (r34_traceback_states (snd (viterbi_run (hard_cost obs) junk)) 0).[t] = Z.of_nat (path t).
Proof.
  intros Hp. refine (clean_decode (hard_cost obs) 64 junk path (hard_cost_bounds obs) _ Hj _ clean_path_ok clean_end _).
  - by_decide.
  - exists expect_point, (fun t => obs.[t]). split; [|exact expect_point_inj].
    intros t ps ns Ht Hps Hns Hc. exact (proj1 (hard_cost_zero obs t ps ns (proj1 (Hp t Ht)) Hps Hns) Hc).
  - apply clean_path_cost. intros t Ht. destruct (Hp t Ht) as [Hr E].
    exact (proj2 (hard_cost_zero obs t _ _ Hr (clean_prev t) (clean_path_ok t)) E).
Qed.

Lemma clean_hard :
  r34_pack_states_to_bytes (r34_traceback_states
    (snd (r34_run_viterbi_hard (r34_map_nibbles_to_points nibs) junk)) 0) = bytes18.
Proof. rewrite hard_run. apply path_bytes_eq; [exact Hl|exact Hw|]. apply clean_hard_path, clean_point. Qed.

Lemma clean_soft reliab98 : weights reliab98 -> (forall i, (i < 98)%nat -> 0 < reliab98.[i]) ->
  let w := r34_prepare_reliability_weights (Some reliab98) in
  r34_pack_states_to_bytes (r34_traceback_states (snd (r34_run_viterbi_soft nibs (fst w) (snd w) junk)) 0) = bytes18.
Proof.
  intros Hr Hpos w. destruct (prepared_weights (Some reliab98) Hr) as [Hhi Hlo]. fold w in Hhi, Hlo.
  rewrite soft_run. apply path_bytes_eq; [exact Hl|exact Hw|].
  apply (clean_decode (soft_cost nibs (fst w) (snd w)) 1020 junk path);
    [by apply soft_cost_bounds|by_decide|exact Hj| |exact clean_path_ok|exact clean_end|].
  - exists expect_nib, (fun t => nibs.[t]). split; [|exact expect_nib_inj].
    intros t ps ns Ht Hps Hns Hc. unfold soft_cost in Hc. destruct (expect_facts ps ns Hps Hns) as (_ & He & _).
    destruct (deinterleaved_weights reliab98 t Hpos Ht) as [H1 H2].
    exact (proj1 (weighted_cost_zero _ _ _ _ He (nibs_range dibits98 t) H1 H2) Hc).
  - apply clean_path_cost. intros t Ht. unfold soft_cost. rewrite clean_nib by done.
    destruct (deinterleaved_weights reliab98 t Hpos Ht) as [H1 H2].
    by apply (weighted_cost_zero _ _ _ _ (nibs_range dibits98 t) (nibs_range dibits98 t) H1 H2).
Qed.
End Clean.

(** A clean reception is decoded exactly.  When the received dibits are those
    of a payload (its metric is zero), the hard decoder returns the payload, and
    so does the soft one for all reliabilities that are positive. *)
Theorem r34_clean_reception (junk dibits98 reliab98 bytes18 out : list Z) :
  length junk = (R34_T * R34_S)%nat -> length bytes18 = 18%nat -> weights bytes18 ->
  weights reliab98 -> (forall i, (i < 98)%nat -> 0 < reliab98.[i]) ->
  dmr_r34_candidate_metric (Some dibits98) None (Some bytes18) (Some 0) = (Some 0, 0) ->
  dmr_r34_viterbi_decode junk (Some dibits98) (Some out) = (Some bytes18, 0) /\
  dmr_r34_viterbi_decode_soft junk (Some dibits98) (Some reliab98) (Some out) = (Some bytes18, 0).
Proof.
  intros Hj Hl Hw Hr Hpos. rewrite candidate_metric_cost. intros [= H0]. split.
  - pose proof (clean_hard junk dibits98 bytes18 Hj Hl Hw H0) as E. unfold dmr_r34_viterbi_decode.
    destruct (r34_run_viterbi_hard _ junk) as [M bp]. cbn [snd] in E. by rewrite E.
  - pose proof (clean_soft junk dibits98 bytes18 Hj Hl Hw H0 reliab98 Hr Hpos) as E. unfold dmr_r34_viterbi_decode_soft.
    destruct (r34_prepare_reliability_weights (Some reliab98)) as [rhi rlo]. cbn [fst snd] in E.
    destruct (r34_run_viterbi_soft _ rhi rlo junk) as [M bp]. cbn [snd] in E. by rewrite E.
Qed.

Lemma r34_clean_reception_witness :
  let d := [0; 2; 3; 1; 1; 2; 0; 1; 1; 3; 1; 3; 1; 2; 2; 0; 3; 3; 1; 0; 0; 2; 3; 2; 2; 2; 0; 2; 3; 2; 3; 1; 0; 3; 3;
    1; 0; 0; 3; 2; 1; 2; 0; 1; 3; 1; 1; 3; 1; 3; 3; 2; 0; 2; 0; 1; 0; 2; 0; 2; 2; 3; 3; 3; 0; 0; 3; 3; 2; 1; 3; 3; 0; 3;
    2; 2; 0; 1; 3; 1; 2; 3; 1; 3; 3; 0; 3; 3; 2; 3; 2; 2; 3; 2; 3; 1; 1; 2] in
  let b := [1; 2; 3; 4; 250; 6; 7; 8; 99; 10; 11; 12; 13; 14; 200; 16; 17; 18] in
  let r := map (fun i => 1 + Z.of_nat (i * 37 mod 200)) (seq 0 98) in
  dmr_r34_viterbi_decode (replicate 392 7) (Some d) (Some []) = (Some b, 0) /\
  dmr_r34_viterbi_decode_soft (replicate 392 7) (Some d) (Some r) (Some []) = (Some b, 0).
Proof.
  intros d b r. apply r34_clean_reception; [reflexivity|reflexivity|by_decide|by_decide| |by vm_compute].
  assert (C : forallb (fun i => 0 <? r.[i]) (seq 0 98) = true) by (vm_compute; reflexivity).
  intros i Hi. apply Z.ltb_lt. exact (check_nat _ _ C i Hi).
Defined.
