(* ===== verification/R34List.v ===== *)
(** * [protocol/dmr/dmr_34_viterbi.c]: the list decoder for rate 3/4

    A Viterbi search that keeps the 32 best paths into each state and returns
    their payloads.  The arrays [metric_curr], [back_state[t]] and [back_rank[t]],
    which are always written together, are one table of cells here: a row per
    state, a cell per rank.  The table of time [t] stays in [back]. *)
From stdpp Require Import sets sorting.
From S2P Require Import Prelude R34Viterbi.

Record cell := Cell { metric : Z; back_state : nat; back_rank : nat }.

#[export] Instance cell_eq_dec : EqDecision cell.
Proof. solve_decision. Defined.

(** An empty place. *)
Definition free : cell := Cell R34_INF 0 0.

(** [r34_metric_reset_2d] and the two calls to [DSD_MEMSET]. *)
Definition r34_metric_reset_2d : list (list cell) := replicate R34_S (replicate R34_K free).

Definition r34_metric_init_2d : list (list cell) :=
  <[0%nat := <[0%nat := Cell 0 0 0]> (replicate R34_K free)]> r34_metric_reset_2d.

Definition cell_at (table : list (list cell)) (s r : nat) : cell := nth r (nth s table []) free.

(** [for (sh = R34_K - 1; sh > rr; sh--)]: a place is made at [rr]. *)
Definition shift_row (rr : nat) (row : list cell) : list cell :=
  for_ 0 (R34_K - 1 - rr) (fun k row => let sh := (R34_K - 1 - k)%nat in <[sh := nth (sh - 1) row free]> row) row.

(** The row of the state [ns]; the flag says that the function has returned. *)
Definition r34_insert_topk (row : list cell) (m : Z) (ps pr : nat) : list cell :=
  fst (for_ 0 R34_K (fun rr '(row, returned) =>
    if returned : bool then (row, returned)
    else if m <=? metric (nth rr row free) then (<[rr := Cell m ps pr]> (shift_row rr row), true)
    else (row, false)) (row, false)).

Definition r34_viterbi_step_list (cost : nat -> nat -> Z) (metric_prev : list (list cell)) : list (list cell) :=
  for_ 0 R34_S (fun ps metric_curr =>
    for_ 0 R34_K (fun pr metric_curr =>
      let m0 := metric (cell_at metric_prev ps pr) in
      if R34_INF <=? m0 then metric_curr
      else for_ 0 R34_S (fun ns metric_curr =>
        <[ns := r34_insert_topk (nth ns metric_curr []) (m0 + cost ps ns) ps pr]> metric_curr) metric_curr)
      metric_curr) r34_metric_reset_2d.

Definition r34_precompute_expect_nibbles : list (list Z) :=
  map (fun ps => map (fun ns =>
    let expect_point := dsd_trellis34_fsm.[(ps * 8 + ns)%nat] in
    dsd_trellis34_inverse_constellation.[Z.to_nat expect_point]) (seq 0 R34_S)) (seq 0 R34_S).

Definition list_cost (weighted : bool) (expect_nib_tbl : list (list Z)) (obs_nib rhi rlo : Z) (ps ns : nat) : Z :=
  if weighted then r34_weighted_nibble_cost ((nth ps expect_nib_tbl []).[ns]) obs_nib rhi rlo
  else r34_unweighted_list_cost ((nth ps expect_nib_tbl []).[ns]) obs_nib.

(** The last table and the tables of all times. *)
Definition r34_run_viterbi_list (nibs rhi rlo : list Z) (expect_nib_tbl : list (list Z)) (weighted : bool)
  : list (list cell) * list (list (list cell)) :=
  for_ 0 R34_T (fun t '(metric_prev, back) =>
    let metric_curr := r34_viterbi_step_list (list_cost weighted expect_nib_tbl (nibs.[t]) (rhi.[t]) (rlo.[t])) metric_prev in
    (metric_curr, <[t := metric_curr]> back)) (r34_metric_init_2d, replicate R34_T []).

Record r34_cand_idx := CandIdx { idx_metric : Z; idx_state : nat; idx_rank : nat }.

Definition r34_collect_final_indices (metric_prev : list (list cell)) : list r34_cand_idx :=
  for_ 0 R34_K (fun r idx =>
    if metric (cell_at metric_prev 0 r) <? R34_INF then idx ++ [CandIdx (metric (cell_at metric_prev 0 r)) 0 r] else idx) [].

(** [while (j >= 0 && idx[j].metric > key.metric)]; the counter is [j + 1]. *)
Fixpoint sort_shift (j1 : nat) (idx : list r34_cand_idx) (key : r34_cand_idx) : list r34_cand_idx * nat :=
  match j1 with
  | O => (idx, O)
  | S j =>
      if idx_metric key <? idx_metric (nth j idx key) then sort_shift j (<[S j := nth j idx key]> idx) key
      else (idx, S j)
  end.

Definition r34_sort_indices_by_metric (idx : list r34_cand_idx) : list r34_cand_idx :=
  for_ 1 (length idx) (fun i idx =>
    let key := nth i idx (CandIdx 0 0 0) in
    let '(idx, j1) := sort_shift i idx key in
    <[j1 := key]> idx) idx.

Definition r34_traceback_state_rank (back : list (list (list cell))) (state rank : nat) : list Z :=
  fst (fst (for_ 0 R34_T (fun k '(states, s, r) =>
    let t := (R34_T - 1 - k)%nat in
    let c := cell_at (nth t back []) s r in
    (states.[t <- Z.of_nat s], back_state c, back_rank c)) (replicate R34_T 0, state, rank))).

Record dmr_r34_candidate := Candidate { cand_metric : Z; cand_bytes18 : list Z }.

(** The array of candidates and the number written into it. *)
Definition r34_write_list_candidates (idx : list r34_cand_idx) (back : list (list (list cell)))
    (out_candidates : list dmr_r34_candidate) (max_candidates : Z) : list dmr_r34_candidate * Z :=
  let out_n := if max_candidates <? Z.of_nat (length idx) then max_candidates else Z.of_nat (length idx) in
  let out_candidates := for_ 0 (Z.to_nat out_n) (fun ci out =>
    let c := nth ci idx (CandIdx 0 0 0) in
    <[ci := Candidate (idx_metric c)
              (r34_pack_states_to_bytes (r34_traceback_state_rank back (idx_state c) (idx_rank c)))]> out) out_candidates in
  (out_candidates, out_n).

(** The candidates, the count, and the value returned. *)
Definition dmr_r34_viterbi_decode_list (dibits98 reliab98 : option (list Z)) (out_candidates : option (list dmr_r34_candidate))
    (max_candidates : Z) (out_count : option Z) : option (list dmr_r34_candidate) * option Z * Z :=
  match dibits98, out_candidates, out_count with
  | Some dibits98, Some out, Some _ =>
      if max_candidates <=? 0 then (out_candidates, out_count, -1)
      else
        let nibs := r34_prepare_nibbles dibits98 in
        let '(rhi, rlo) := r34_prepare_reliability_weights reliab98 in
        let expect_nib_tbl := r34_precompute_expect_nibbles in
        let weighted := if reliab98 then true else false in
        let '(metric_prev, back) := r34_run_viterbi_list nibs rhi rlo expect_nib_tbl weighted in
        let idx := r34_sort_indices_by_metric (r34_collect_final_indices metric_prev) in
        let '(out, n) := r34_write_list_candidates idx back out max_candidates in
        (Some out, Some n, 0)
  | _, _, _ => (out_candidates, out_count, -1)
  end.

(** ** Insertion into a row *)

Definition sorted (row : list cell) : Prop := StronglySorted (fun a b => metric a <= metric b) row.

Lemma length_shift_row rr row : length row = R34_K -> length (shift_row rr row) = R34_K.
Proof. intros H. apply (for_inv (fun r => length r = R34_K)); [done|]. intros. by rewrite length_insert. Qed.

Lemma shift_row_lookup rr row i : length row = R34_K -> (rr < R34_K)%nat -> (i < R34_K)%nat ->
  shift_row rr row !! i = if decide (i <= rr)%nat then row !! i else row !! (i - 1)%nat.
Proof.
  intros Hl Hrr Hi. unfold shift_row.
  set (P := fun (k : nat) (r : list cell) => length r = R34_K /\ forall i, (i < R34_K)%nat ->
      r !! i = if decide (i <= R34_K - 1 - k)%nat then row !! i else row !! (i - 1)%nat).
  match goal with |- ?r !! i = _ => enough (H : P (R34_K - 1 - rr)%nat r) end.
  { destruct H as [_ H]. rewrite H by done. by replace (R34_K - 1 - (R34_K - 1 - rr))%nat with rr by lia. }
  apply (for_ind P); [lia| |].
  - split; [done|]. intros j Hj. destruct (decide _); [done|lia].
  - intros k r Hk [Hr IH]. split; [by rewrite length_insert|]. intros j Hj.
    destruct (decide (R34_K - 1 - k = j)%nat) as [<-|Hne].
    + rewrite list_lookup_insert_eq by lia. destruct (decide _); [lia|].
      assert (E : r !! (R34_K - 1 - k - 1)%nat = row !! (R34_K - 1 - k - 1)%nat)
        by (rewrite IH by lia; destruct (decide _); [done|lia]).
      destruct (lookup_lt_is_Some_2 row (R34_K - 1 - k - 1)%nat ltac:(lia)) as [c Hc].
      rewrite Hc in E. erewrite nth_lookup, E, Hc. done.
    + rewrite list_lookup_insert_ne, IH by lia. repeat destruct (decide _); done || lia.
Qed.

(** A cell goes before the first one that is not better, and the last is lost. *)
Lemma insert_topk_spec row m ps pr : length row = R34_K ->
  let row' := r34_insert_topk row m ps pr in
  (exists l1 l2 d, row = l1 ++ l2 ++ [d] /\ row' = l1 ++ Cell m ps pr :: l2 /\
     Forall (fun c => metric c < m) l1 /\ (forall c, head (l2 ++ [d]) = Some c -> m <= metric c)) \/
  (row' = row /\ Forall (fun c => metric c < m) row).
Proof.
  intros Hl. unfold r34_insert_topk.
  set (P := fun (k : nat) (q : list cell * bool) =>
    if snd q then exists l1 l2 d, row = l1 ++ l2 ++ [d] /\ fst q = l1 ++ Cell m ps pr :: l2 /\
      Forall (fun c => metric c < m) l1 /\ (forall c, head (l2 ++ [d]) = Some c -> m <= metric c)
    else fst q = row /\ Forall (fun c => metric c < m) (take k row)).
  set (q := for_ 0 R34_K _ _). enough (H : P R34_K q).
  { destruct q as [row' [|]]; unfold P in H; cbn [fst snd] in *; [by left|right].
    destruct H as [-> H]. by rewrite take_ge in H by lia. }
  subst q. apply (for_ind P); [lia|by split|].
  intros rr [r [|]] Hrr H; [done|]. destruct H as [E Hf]. cbn [fst snd] in E. subst r.
  destruct (lookup_lt_is_Some_2 row rr ltac:(lia)) as [c Hc].
  assert (Hn : nth rr row free = c) by (rewrite nth_lookup, Hc; done). rewrite Hn.
  destruct (Z.leb_spec m (metric c)) as [Hle|Hgt]; unfold P; cbn [fst snd].
  - destruct (exists_last (l := drop rr row)) as (l2 & d & Hd).
    { intros E%(f_equal length). rewrite length_drop in E. cbn in E. lia. }
    exists (take rr row), l2, d. assert (Ll : length l2 = (R34_K - 1 - rr)%nat).
    { apply (f_equal length) in Hd. rewrite length_drop, length_app in Hd. cbn in Hd. lia. }
    assert (Erow : row = take rr row ++ l2 ++ [d]) by (rewrite <- Hd; symmetry; apply take_drop).
    split; [done|]. split; [|split; [done|]].
    + apply list_eq_same_length with (n := R34_K).
      * rewrite length_app, length_take. cbn. lia.
      * rewrite length_insert. by apply length_shift_row.
      * intros i x y Hi Hx Hy. destruct (decide (i = rr)) as [->|Hne].
        -- rewrite list_lookup_insert_eq in Hx.
           2: { rewrite length_shift_row by done. lia. }
           rewrite lookup_app_r in Hy by (rewrite length_take; lia).
           replace (rr - length (take rr row))%nat with 0%nat in Hy by (rewrite length_take; lia). by simplify_eq/=.
        -- rewrite list_lookup_insert_ne, shift_row_lookup in Hx by lia.
           destruct (decide (i <= rr)%nat).
           ++ rewrite lookup_app_l in Hy by (rewrite length_take; lia). rewrite lookup_take_lt in Hy by lia. congruence.
           ++ rewrite lookup_app_r in Hy by (rewrite length_take; lia).
              rewrite Erow, lookup_app_r in Hx by (rewrite length_take; lia). rewrite length_take in *.
              rewrite lookup_app_l in Hx by lia.
              replace (i - rr `min` length row)%nat with (S (i - 1 - rr `min` length row)) in Hy by lia. cbn in Hy. by injection (eq_trans (eq_sym Hx) Hy).
    + intros c' Hc'. rewrite <- Hd in Hc'. erewrite drop_S in Hc' by exact Hc. cbn in Hc'. by simplify_eq.
  - split; [done|]. erewrite take_S_r by exact Hc. apply Forall_app_2; [done|]. by constructor.
Qed.

(** ** What a row holds

    [cm ps pr] is the metric of the path that continues the one of rank [pr] of
    the state [ps]; [D] says which of them have been offered to the row. *)

Definition live (c : cell) : Prop := metric c < R34_INF.

#[export] Instance live_dec c : Decision (live c).
Proof. unfold live. apply _. Defined.

Definition row_inv (cm : nat -> nat -> Z) (D : nat -> nat -> Prop) (row : list cell) : Prop :=
  length row = R34_K /\ sorted row /\ NoDup (filter live row) /\
  (forall c, c ∈ row -> live c -> D (back_state c) (back_rank c) /\ metric c = cm (back_state c) (back_rank c)) /\
  (forall ps pr, D ps pr -> Cell (cm ps pr) ps pr ∈ row \/ forall c, c ∈ row -> metric c <= cm ps pr).

Lemma row_inv_ext cm (D D' : nat -> nat -> Prop) row : (forall ps pr, D ps pr <-> D' ps pr) ->
  row_inv cm D row -> row_inv cm D' row.
Proof. intros H (H1 & H2 & H3 & H4 & H5). split_and!; try done; intros; [rewrite <- H; by apply H4|]. apply H5. by apply H. Qed.

Lemma sorted_replicate n c : sorted (replicate n c).
Proof. induction n as [|n IH]; cbn; constructor; [done|]. apply Forall_replicate. lia. Qed.

Lemma row_inv_init cm : row_inv cm (fun _ _ => False) (replicate R34_K free).
Proof.
  split_and!; [done|apply sorted_replicate|by constructor| |done].
  intros c [-> _]%elem_of_replicate Hc. unfold live in Hc. cbn in Hc. lia.
Qed.

Lemma sorted_least l m c : sorted l -> (forall x, head l = Some x -> m <= metric x) -> c ∈ l -> m <= metric c.
Proof.
  intros Hs Hh Hc. destruct l as [|x l]; [by apply not_elem_of_nil in Hc|]. specialize (Hh x eq_refl).
  apply StronglySorted_cons in Hs as [Hx _]. apply elem_of_cons in Hc as [->|Hc]; [done|].
  rewrite Forall_forall in Hx. specialize (Hx c Hc). cbn in Hx. lia.
Qed.

Lemma row_inv_insert cm D row ps pr : row_inv cm D row -> ~ D ps pr ->
  row_inv cm (fun p r => D p r \/ (p = ps /\ r = pr)) (r34_insert_topk row (cm ps pr) ps pr).
Proof.
  intros (Hl & Hs & Hn & Ha & Hb) Hfresh. set (x := Cell (cm ps pr) ps pr).
  destruct (insert_topk_spec row (cm ps pr) ps pr Hl) as [(l1 & l2 & d & E & -> & Hlt & Hh)|[-> Hlt]]; fold x.
  - unfold sorted in Hs. rewrite E, StronglySorted_app in Hs. destruct Hs as (H12 & Hs1 & Hs2).
    assert (Hge : forall c, c ∈ l2 ++ [d] -> cm ps pr <= metric c) by (intros c; by apply sorted_least).
    apply StronglySorted_app in Hs2 as (H2d & Hs2 & _). rewrite Forall_forall in Hlt. setoid_rewrite elem_of_app in H12.
    setoid_rewrite elem_of_app in Hge.
    assert (Hmax : forall c, c ∈ l1 ++ x :: l2 -> metric c <= metric d).
    { intros c [Hc|[->|Hc]%elem_of_cons]%elem_of_app; [apply H12; set_solver|apply (Hge d); set_solver|apply H2d; set_solver]. }
    assert (Hin : forall c, c ∈ l1 ++ l2 -> c ∈ row) by (intros c; rewrite E; set_solver).
    split_and!.
    + apply (f_equal length) in E. rewrite !length_app in *. cbn in *. lia.
    + apply StronglySorted_app_2; [|done|].
      * intros c1 c2 H1 [->|H2]%elem_of_cons; [cbn; specialize (Hlt c1 H1); cbn in Hlt; lia|apply H12; set_solver].
      * apply StronglySorted_cons. split; [|done]. apply Forall_forall. intros c Hc. apply (Hge c). set_solver.
    + rewrite <- Permutation_middle, filter_cons. rewrite E, app_assoc, filter_app in Hn. apply NoDup_app in Hn as [Hn _].
      destruct (decide (live x)) as [Hx|]; [|done]. apply NoDup_cons. split; [|done].
      intros [_ Hc]%list_elem_of_filter. by destruct (Ha x (Hin x Hc) Hx) as [HD _].
    + intros c Hc Hlive. rewrite <- Permutation_middle in Hc. apply elem_of_cons in Hc as [->|Hc]; [by split; [right|]|].
      destruct (Ha c (Hin c Hc) Hlive) as [H1 H2]. split; [by left|done].
    + intros p r [HD|[-> ->]]; [|left; set_solver]. destruct (Hb p r HD) as [Hc|Hc].
      * rewrite E in Hc. apply elem_of_app in Hc as [Hc|[Hc|Hc]%elem_of_app]; [left; set_solver|left; set_solver|].
        apply list_elem_of_singleton in Hc. right. intros c H. specialize (Hmax c H). rewrite <- Hc in Hmax. done.
      * right. intros c H. specialize (Hmax c H). specialize (Hc d ltac:(rewrite E; set_solver)). lia.
  - split_and!; [done..| |].
    + intros c Hc Hlive. destruct (Ha c Hc Hlive). split; [by left|done].
    + intros p r [HD|[-> ->]]; [by apply Hb|]. right. intros c Hc. rewrite Forall_forall in Hlt. specialize (Hlt c Hc). cbn in Hlt. lia.
Qed.

Section StepList.
Context (cost : nat -> nat -> Z) (prev : list (list cell)).

(** The metric of a path continued to the state [ns]. *)
Definition next_metric (ns ps pr : nat) : Z := metric (cell_at prev ps pr) + cost ps ns.

Definition rows_inv (D : nat -> nat -> Prop) (table : list (list cell)) : Prop :=
  length table = R34_S /\ forall ns, (ns < R34_S)%nat -> row_inv (next_metric ns) D (nth ns table []).

Lemma rows_inv_ext (D D' : nat -> nat -> Prop) table : (forall ps pr, D ps pr <-> D' ps pr) ->
  rows_inv D table -> rows_inv D' table.
Proof. intros H [Hl Hr]. split; [done|]. intros ns Hns. by apply (row_inv_ext _ D), Hr. Qed.

(** The loop over the next states. *)
Lemma offer_all D table ps pr : rows_inv D table -> ~ D ps pr ->
  rows_inv (fun p r => D p r \/ (p = ps /\ r = pr)) (for_ 0 R34_S (fun ns table =>
    <[ns := r34_insert_topk (nth ns table []) (next_metric ns ps pr) ps pr]> table) table).
Proof.
  intros [Hl Hr] Hf.
  set (P := fun (n : nat) (tb : list (list cell)) => length tb = R34_S /\ forall i, (i < R34_S)%nat ->
    row_inv (next_metric i) (fun p r => D p r \/ ((i < n)%nat /\ p = ps /\ r = pr)) (nth i tb [])).
  enough (H : P R34_S (for_ 0 R34_S (fun ns table =>
    <[ns := r34_insert_topk (nth ns table []) (next_metric ns ps pr) ps pr]> table) table)).
  { destruct H as [H1 H2]. split; [exact H1|]. intros ns Hns. refine (row_inv_ext _ _ _ _ _ (H2 ns Hns)). naive_solver. }
  apply (for_ind P); [lia|split; [done|]; intros i Hi; refine (row_inv_ext _ _ _ _ _ (Hr i Hi)); intros; split; [by left|intros [?|[? _]]; [done|lia]]|].
  intros n tb Hn [Hl' H]. split; [by rewrite length_insert|]. intros i Hi. destruct (decide (n = i)) as [->|Hne].
  - rewrite nth_lookup, list_lookup_insert_eq by lia. cbn. specialize (H i Hi).
    refine (row_inv_ext _ _ _ _ _ (row_inv_insert _ _ _ ps pr H _)); [|intros [?|[? _]]; [done|lia]].
    intros p r. split; [intros [[?|[? _]]|?]; [by left|lia|right; split; [lia|done]]|intros [?|[_ ?]]; [left; by left|by right]].
  - rewrite nth_lookup, list_lookup_insert_ne, <- nth_lookup by done. refine (row_inv_ext _ _ _ _ _ (H i Hi)).
    intros p r. assert ((i < n)%nat <-> (i < S n)%nat) as -> by lia. done.
Qed.

Definition offered (ps pr : nat) : Prop := (ps < R34_S)%nat /\ (pr < R34_K)%nat /\ live (cell_at prev ps pr).

Lemma step_list_spec : rows_inv offered (r34_viterbi_step_list cost prev).
Proof.
  set (D := fun (k j p r : nat) => offered p r /\ ((p < k)%nat \/ (p = k /\ (r < j)%nat))).
  assert (Hrow : forall k, (k < R34_S)%nat -> forall tb, rows_inv (D k 0%nat) tb ->
    rows_inv (D (S k) 0%nat) (for_ 0 R34_K (fun pr tb =>
      let m0 := metric (cell_at prev k pr) in
      if R34_INF <=? m0 then tb
      else for_ 0 R34_S (fun ns tb => <[ns := r34_insert_topk (nth ns tb []) (m0 + cost k ns) k pr]> tb) tb) tb)).
  { intros k Hk tb H0. refine (rows_inv_ext (D k R34_K) _ _ _ _).
    { intros p r. unfold D, offered. intuition lia. }
    apply (for_ind (fun j => rows_inv (D k j))); [lia|done|]. intros j tb' Hj H. cbv zeta.
    destruct (Z.leb_spec R34_INF (metric (cell_at prev k j))) as [Hd|Hlive].
    - refine (rows_inv_ext _ _ _ _ H). intros p r. unfold D, offered. split; [intuition lia|].
      intros [Ho [?|[-> Hr]]]; [intuition lia|]. assert (r <> j) by (intros ->; unfold live in Ho; lia). intuition lia.
    - refine (rows_inv_ext _ _ _ _ (offer_all _ _ k j H _)); [|unfold D; intros [_ ?]; lia].
      intros p r. unfold D, offered. split; [|intros [Ho Hr]; destruct (decide (p = k /\ r = j)); [by right|left; split; [done|lia]]].
      intros [?|[-> ->]]; [intuition lia|]. split; [|right; lia]. split; [exact Hk|]. split; [apply Hj|exact Hlive]. }
  refine (rows_inv_ext (D R34_S 0%nat) _ _ _ _); [intros p r; unfold D, offered; intuition lia|].
  unfold r34_viterbi_step_list. apply (for_ind (fun k => rows_inv (D k 0%nat))); [lia| |intros k tb Hk; apply Hrow; lia].
  split; [done|]. intros ns Hns. unfold r34_metric_reset_2d. rewrite nth_lookup, lookup_replicate_2 by done. cbn [default from_option id].
  refine (row_inv_ext _ _ _ _ _ (row_inv_init _)). unfold D. intros. split; [done|lia].
Qed.
End StepList.

#[local] Opaque r34_viterbi_step_list.

(** ** The paths the tables hold

    A path is the list of its states, the last one first. *)

Lemma nodup_filter_lookup (row : list cell) i j c : NoDup (filter live row) -> live c ->
  row !! i = Some c -> row !! j = Some c -> i = j.
Proof.
  revert i j. induction row as [|x row IH]; intros i j Hn Hc Hi Hj; [done|].
  destruct (decide (live x)) as [Hx|Hx].
  - rewrite filter_cons_True in Hn by done. apply NoDup_cons in Hn as [Hnin Hn].
    assert (Hno : forall k, row !! k = Some x -> False).
    { intros k Hk. apply Hnin, list_elem_of_filter. split; [done|]. by eapply list_elem_of_lookup_2. }
    destruct i as [|i], j as [|j]; cbn in Hi, Hj; [done| | |f_equal; by apply IH]; simplify_eq; exfalso; by eapply Hno.
  - rewrite filter_cons_False in Hn by done.
    destruct i as [|i], j as [|j]; cbn in Hi, Hj; [done|by simplify_eq|by simplify_eq|f_equal; by apply IH].
Qed.

Section Tables.
Context (cost : nat -> nat -> nat -> Z).

(** The table after [n] steps. *)
Fixpoint tables (n : nat) : list (list cell) :=
  match n with O => r34_metric_init_2d | S n => r34_viterbi_step_list (cost n) (tables n) end.

Fixpoint trace (n s r : nat) : list nat :=
  match n with
  | O => []
  | S n => s :: let c := cell_at (tables (S n)) s r in trace n (back_state c) (back_rank c)
  end.

Lemma tables_S n : tables (S n) = r34_viterbi_step_list (cost n) (tables n).
Proof. reflexivity. Qed.

Lemma trace_S n s r : trace (S n) s r =
  s :: trace n (back_state (cell_at (tables (S n)) s r)) (back_rank (cell_at (tables (S n)) s r)).
Proof. reflexivity. Qed.

Definition last_state (l : list nat) : nat := hd 0%nat l.

Fixpoint rcost (l : list nat) : Z :=
  match l with [] => 0 | s :: l => rcost l + cost (length l) (last_state l) s end.

Definition is_path (n : nat) (l : list nat) : Prop := length l = n /\ Forall (fun s => (s < R34_S)%nat) l.

Context (B : Z) (Hcost : forall t ps ns, 0 <= cost t ps ns <= B) (HB : Z.of_nat R34_T * B < R34_INF).

Lemma rcost_bounds l : 0 <= rcost l <= Z.of_nat (length l) * B.
Proof. induction l as [|s l IH]; cbn [rcost length]; [lia|]. pose proof (Hcost (length l) (last_state l) s). lia. Qed.

Lemma rcost_live n l : (n <= R34_T)%nat -> is_path n l -> rcost l < R34_INF.
Proof.
  intros Hn [Hl _]. pose proof (rcost_bounds l). pose proof (Hcost 0%nat 0%nat 0%nat).
  assert (Z.of_nat (length l) * B <= Z.of_nat R34_T * B) by (apply Z.mul_le_mono_nonneg_r; lia). lia.
Qed.

Definition tables_inv (n : nat) : Prop :=
  (forall s, (s < R34_S)%nat -> length (nth s (tables n) []) = R34_K /\ sorted (nth s (tables n) [])) /\
  (forall s r, (s < R34_S)%nat -> (r < R34_K)%nat -> live (cell_at (tables n) s r) ->
     is_path n (trace n s r) /\ last_state (trace n s r) = s /\ rcost (trace n s r) = metric (cell_at (tables n) s r)) /\
  (forall s r r', (s < R34_S)%nat -> (r < R34_K)%nat -> (r' < R34_K)%nat -> live (cell_at (tables n) s r) ->
     live (cell_at (tables n) s r') -> trace n s r = trace n s r' -> r = r') /\
  (forall l, is_path n l ->
     (exists r, (r < R34_K)%nat /\ live (cell_at (tables n) (last_state l) r) /\ trace n (last_state l) r = l) \/
     (forall r, (r < R34_K)%nat -> metric (cell_at (tables n) (last_state l) r) <= rcost l)).

Lemma last_state_range n l : is_path n l -> (last_state l < R34_S)%nat.
Proof. intros [_ H]. destruct l as [|s l]; [by_decide|]. by apply Forall_cons in H as [? _]. Qed.

Lemma tables_inv_init : tables_inv 0.
Proof.
  assert (Hat : forall s r, (s < R34_S)%nat -> (r < R34_K)%nat ->
    metric (cell_at (tables 0) s r) = if decide (s = 0%nat /\ r = 0%nat) then 0 else R34_INF).
  { assert (C : forallb (fun s => forallb (fun r => metric (cell_at (tables 0) s r) =?
      if decide (s = 0%nat /\ r = 0%nat) then 0 else R34_INF) (seq 0 R34_K)) (seq 0 R34_S) = true) by reflexivity.
    intros s r Hs Hr. apply Z.eqb_eq. exact (check_nat _ _ (check_nat _ _ C s Hs) r Hr). }
  split_and!.
  - intros s Hs. destruct s as [|s].
    + split; [done|]. change (sorted (Cell 0 0 0 :: replicate 31 free)). constructor; [apply sorted_replicate|].
      apply Forall_replicate. by_decide.
    + change (nth (S s) (tables 0) []) with (nth s (replicate 7 (replicate R34_K free)) []).
      rewrite nth_lookup, lookup_replicate_2 by (unfold R34_S in Hs; lia). cbn [default from_option id].
      split; [done|apply sorted_replicate].
  - intros s r Hs Hr Hl. unfold live in Hl. rewrite Hat in * by done. destruct (decide _) as [[-> ->]|]; [done|lia].
  - intros s r r' Hs Hr Hr' Hl Hl' _. unfold live in *. rewrite Hat in * by done. repeat destruct (decide _); lia.
  - intros l [Hl _]. destruct l; [|done]. left. exists 0%nat. split_and!; [by_decide|by_decide|done].
Qed.

(** A path of the last row: what the row invariant says of its cells. *)
Lemma tables_row n s : (s < R34_S)%nat ->
  row_inv (next_metric (cost n) (tables n) s) (offered (tables n)) (nth s (tables (S n)) []).
Proof. apply step_list_spec. Qed.

Lemma cell_at_lookup n s r c : nth s (tables n) [] !! r = Some c -> cell_at (tables n) s r = c.
Proof. intros H. unfold cell_at. by rewrite nth_lookup, H. Qed.

Lemma cell_at_elem n s r : (r < length (nth s (tables n) []))%nat -> nth s (tables n) [] !! r = Some (cell_at (tables n) s r).
Proof.
  intros Hr. destruct (lookup_lt_is_Some_2 _ _ Hr) as [c Hc]. by rewrite (cell_at_lookup n s r c Hc).
Qed.

(** When a full row has nothing worse than [l], the paths that continue it crowd
    out everything worse than [s :: l]. *)
Lemma row_full n s l : (n < R34_T)%nat -> is_path n l -> (s < R34_S)%nat ->
  (forall r, (r < R34_K)%nat -> metric (cell_at (tables n) (last_state l) r) <= rcost l) ->
  forall r, (r < R34_K)%nat -> metric (cell_at (tables (S n)) s r) <= rcost l + cost n (last_state l) s.
Proof.
  intros HnT Hp Hs Hall r Hr. destruct (tables_row n s Hs) as (HK & _ & _ & _ & HB').
  pose proof (last_state_range n l Hp) as Hs0. set (s0 := last_state l) in *.
  set (cand := fun q => Cell (next_metric (cost n) (tables n) s s0 q) s0 q).
  assert (Hcand : forall q, (q < R34_K)%nat -> metric (cand q) <= rcost l + cost n s0 s).
  { intros q Hq. cbn. unfold next_metric. specialize (Hall q Hq). lia. }
  set (c := cell_at (tables (S n)) s r).
  assert (Hc : c ∈ nth s (tables (S n)) []) by (eapply list_elem_of_lookup_2, cell_at_elem; lia).
  destruct (decide (Forall (fun q => cand q ∈ nth s (tables (S n)) []) (seq 0 R34_K))) as [Hin|Hout].
  - assert (Hsub : cand <$> seq 0 R34_K ⊆+ nth s (tables (S n)) []).
    { apply NoDup_submseteq; [apply NoDup_fmap_2; [intros a b E; by injection E|apply NoDup_seq]|].
      intros x (q & -> & Hq)%list_elem_of_fmap. rewrite Forall_forall in Hin. by apply Hin. }
    apply submseteq_length_Permutation in Hsub; [|rewrite length_fmap, length_seq; lia].
    rewrite <- Hsub in Hc. apply list_elem_of_fmap in Hc as (q & -> & Hq%elem_of_seq). apply Hcand. lia.
  - apply not_Forall_Exists in Hout; [|apply _]. apply Exists_exists in Hout as (q & Hq%elem_of_seq & Hn).
    destruct (HB' s0 q) as [H|H]; [|done|].
    + split; [done|]. split; [lia|]. unfold live. specialize (Hall q ltac:(lia)).
      pose proof (rcost_live n l ltac:(lia) Hp). lia.
    + specialize (H c Hc). specialize (Hcand q ltac:(lia)). cbn in Hcand. unfold next_metric in *. lia.
Qed.

Lemma tables_inv_step n : (n < R34_T)%nat -> tables_inv n -> tables_inv (S n).
Proof.
  intros HnT (Hw & Ha & Hn & Hc).
  assert (Hlive : forall s r, (s < R34_S)%nat -> (r < R34_K)%nat -> live (cell_at (tables (S n)) s r) ->
    let c := cell_at (tables (S n)) s r in
    offered (tables n) (back_state c) (back_rank c) /\
    metric c = metric (cell_at (tables n) (back_state c) (back_rank c)) + cost n (back_state c) s).
  { intros s r Hs Hr Hl c. destruct (tables_row n s Hs) as (HlK & _ & _ & HA & _).
    apply (HA c); [|done]. eapply list_elem_of_lookup_2, cell_at_elem. lia. }
  split_and!.
  - intros s Hs. destruct (tables_row n s Hs) as (H1 & H2 & _). done.
  - intros s r Hs Hr Hl. destruct (Hlive s r Hs Hr Hl) as ((H1 & H2 & H3) & E).
    destruct (Ha _ _ H1 H2 H3) as ([Hp Hf] & Hlast & Hm). rewrite trace_S.
    split; [split; [by rewrite length_cons, Hp|by constructor]|]. split; [done|]. cbn [rcost]. rewrite Hp, Hlast, Hm. done.
  - intros s r r' Hs Hr Hr' Hl Hl' E. rewrite !trace_S in E. apply (f_equal (@tl nat)) in E. cbn [tl] in E.
    destruct (Hlive s r Hs Hr Hl) as ((H1 & H2 & H3) & M), (Hlive s r' Hs Hr' Hl') as ((H1' & H2' & H3') & M').
    destruct (Ha _ _ H1 H2 H3) as (_ & L & _), (Ha _ _ H1' H2' H3') as (_ & L' & _).
    assert (Es : back_state (cell_at (tables (S n)) s r) = back_state (cell_at (tables (S n)) s r')) 
      by exact (eq_trans (eq_sym L) (eq_trans (f_equal last_state E) L')).
    assert (Er : back_rank (cell_at (tables (S n)) s r) = back_rank (cell_at (tables (S n)) s r')).
    { apply (Hn (back_state (cell_at (tables (S n)) s r))); try done; [by rewrite Es|]. by rewrite E, Es. }
    destruct (tables_row n s Hs) as (HK & _ & HN & _).
    apply (nodup_filter_lookup _ r r' _ HN Hl); [apply cell_at_elem; lia|].
    rewrite (cell_at_elem (S n)) by lia. f_equal. rewrite Es, Er, <- M' in M.
    destruct (cell_at (tables (S n)) s r), (cell_at (tables (S n)) s r'). cbn in *. congruence.
  - intros [|s l] [Hl Hf]; [done|]. apply Forall_cons in Hf as [Hs Hf]. injection Hl as Hl.
    destruct (tables_row n s Hs) as (HK & _ & _ & _ & HB'). cbn [last_state hd rcost]. rewrite Hl.
    destruct (Hc l (conj Hl Hf)) as [(r0 & Hr0 & Hl0 & Et)|Hall].
    + pose proof (last_state_range n l (conj Hl Hf)) as Hs0. destruct (Ha _ _ Hs0 Hr0 Hl0) as (Hp & _ & Hm). rewrite Et in Hm.
      destruct (HB' (last_state l) r0) as [Hin|Hle]; [done| |].
      * left. apply list_elem_of_lookup_1 in Hin as [r Hr]. exists r. pose proof (cell_at_lookup (S n) s r _ Hr) as E.
        split; [rewrite <- HK; by eapply lookup_lt_Some|]. split.
        -- unfold live. rewrite E. unfold next_metric. cbn [metric]. rewrite <- Hm.
           pose proof (rcost_live (S n) (s :: l) HnT) as H. cbn [rcost] in H. rewrite Hl in H. apply H.
           split; [cbn; by rewrite Hl|by constructor].
        -- rewrite trace_S, E. cbn [back_state back_rank]. by rewrite Et.
      * right. intros r Hr. rewrite Hm. apply (Hle (cell_at (tables (S n)) s r)). eapply list_elem_of_lookup_2, cell_at_elem. lia.
    + right. apply (row_full n s l); done.
Qed.

Lemma tables_inv_all n : (n <= R34_T)%nat -> tables_inv n.
Proof. induction n as [|n IH]; intros Hn; [apply tables_inv_init|]. apply tables_inv_step; [lia|]. apply IH. lia. Qed.
End Tables.

#[local] Opaque tables trace.

(** ** Paths, payloads and the last table *)

(** The list of the first [n] states of a path. *)
Fixpoint rpath (n : nat) (path : nat -> nat) : list nat :=
  match n with O => [] | S n => path n :: rpath n path end.

Lemma length_rpath n path : length (rpath n path) = n.
Proof. induction n; cbn; congruence. Qed.

Lemma last_rpath n path : last_state (rpath n path) = prev_state path n.
Proof. by destruct n. Qed.

Lemma rcost_rpath cost n path : rcost cost (rpath n path) = path_cost cost n path.
Proof.
  induction n as [|n IH]; [done|]. rewrite path_cost_S. cbn [rpath rcost]. by rewrite IH, length_rpath, last_rpath.
Qed.

Lemma rpath_eq n path l : length l = n -> (forall t, (t < n)%nat -> nth (n - 1 - t) l 0%nat = path t) -> rpath n path = l.
Proof.
  revert l. induction n as [|n IH]; intros l Hl H; [by destruct l|]. destruct l as [|s l]; [done|]. cbn [rpath]. f_equal.
  - rewrite <- (H n) by lia. by replace (S n - 1 - n)%nat with 0%nat by lia.
  - apply IH; [by injection Hl|]. intros t Ht. rewrite <- (H t) by lia.
    by replace (S n - 1 - t)%nat with (S (n - 1 - t)) by lia.
Qed.

Lemma nth_rpath n path t : (t < n)%nat -> nth (n - 1 - t) (rpath n path) 0%nat = path t.
Proof.
  induction n as [|n IH]; intros Ht; [lia|]. cbn [rpath]. destruct (decide (t = n)) as [->|].
  - by replace (S n - 1 - n)%nat with 0%nat by lia.
  - replace (S n - 1 - t)%nat with (S (n - 1 - t)) by lia. apply IH. lia.
Qed.

Section Final.
Context (cost : nat -> nat -> nat -> Z) (B : Z).
Context (Hcost : forall t ps ns, 0 <= cost t ps ns <= B) (HB : Z.of_nat R34_T * B < R34_INF).
Context (back : list (list (list cell))) (Hback : forall t, (t < R34_T)%nat -> nth t back [] = tables cost (S t)).

Lemma traceback_trace s r :
  length (r34_traceback_state_rank back s r) = R34_T /\
  forall t, (t < R34_T)%nat -> (r34_traceback_state_rank back s r).[t] = Z.of_nat (nth (R34_T - 1 - t) (trace cost R34_T s r) 0%nat).
Proof.
  set (P := fun (k : nat) (q : list Z * nat * nat) => length (fst (fst q)) = R34_T /\
    (exists l, length l = k /\ trace cost R34_T s r = l ++ trace cost (R34_T - k) (snd (fst q)) (snd q)) /\
    forall d, (d < k)%nat -> (fst (fst q)).[(R34_T - 1 - d)%nat] = Z.of_nat (nth d (trace cost R34_T s r) 0%nat)).
  unfold r34_traceback_state_rank. set (q := for_ 0 R34_T _ _). enough (H : P R34_T q).
  { destruct H as (Hl & _ & H). split; [done|]. intros t Ht. rewrite <- H by lia. f_equal. lia. }
  subst q. apply (for_ind P); [lia| |].
  - split; [done|]. split; [|lia]. exists []. split; [done|]. by rewrite Nat.sub_0_r.
  - intros k [[states s1] r1] Hk (Hl & (l & Hlen & E) & H). cbn [fst snd] in *.
    replace (R34_T - k)%nat with (S (R34_T - 1 - k)) in E by lia. rewrite trace_S in E.
    unfold P. cbn [fst snd]. split; [by rewrite length_insert|]. rewrite Hback by lia. split.
    + exists (l ++ [s1]). rewrite length_app, Hlen. split; [cbn; lia|].
      replace (R34_T - S k)%nat with (R34_T - 1 - k)%nat by lia. rewrite <- app_assoc. exact E.
    + intros d Hd. rewrite nth_insert, Hl. destruct (decide (_ = _ /\ _)) as [[Ed _]|Hne].
      * replace d with k by lia. rewrite E, app_nth2, Hlen, Nat.sub_diag by lia. done.
      * apply H. lia.
Qed.

Definition crowd (j : nat) : list nat := 0%nat :: (j / 8)%nat :: (j mod 8)%nat :: replicate 46 0%nat.

(** Every rank of the first row is taken: there are more than 32 paths. *)
Lemma last_row_full r : (r < R34_K)%nat -> live (cell_at (tables cost R34_T) 0 r).
Proof.
  intros Hr. destruct (decide (live (cell_at (tables cost R34_T) 0 r))) as [|Hdead]; [done|exfalso].
  destruct (tables_inv_all cost B Hcost HB R34_T (le_n _)) as (_ & _ & _ & Hc).
  assert (Hp : forall j, (j < 33)%nat -> is_path R34_T (crowd j)).
  { intros j Hj. split; [reflexivity|]. unfold crowd, R34_S. rewrite !Forall_cons.
    split; [lia|]. split; [apply Nat.Div0.div_lt_upper_bound; lia|]. split; [apply Nat.mod_upper_bound; lia|].
    apply Forall_replicate. lia. }
  assert (Hsub : crowd <$> seq 0 33 ⊆+ trace cost R34_T 0 <$> seq 0 R34_K).
  { apply NoDup_submseteq.
    - apply NoDup_fmap_2; [|apply NoDup_seq]. intros a b E.
      assert (E1 : (a / 8 = b / 8)%nat) by exact (f_equal (fun l => nth 1 l 0%nat) E).
      assert (E2 : (a mod 8 = b mod 8)%nat) by exact (f_equal (fun l => nth 2 l 0%nat) E).
      pose proof (Nat.div_mod_eq a 8). pose proof (Nat.div_mod_eq b 8). lia.
    - intros l (j & -> & Hj%elem_of_seq)%list_elem_of_fmap.
      destruct (Hc _ (Hp j ltac:(lia))) as [(q & Hq & _ & E)|Hall].
      + apply list_elem_of_fmap. exists q. split; [done|]. apply elem_of_seq. lia.
      + exfalso. apply Hdead. unfold live. specialize (Hall r Hr). change (last_state (crowd j)) with 0%nat in Hall.
        pose proof (rcost_live cost B Hcost HB R34_T _ (le_n _) (Hp j ltac:(lia))). lia. }
  apply submseteq_length in Hsub. rewrite !length_fmap, !length_seq in Hsub. unfold R34_K in Hsub. lia.
Qed.

(** The payload of rank [r]. *)
Definition ranked (r : nat) : list Z := r34_pack_states_to_bytes (r34_traceback_state_rank back 0 r).

Definition payload_path (bytes18 : list Z) : list nat := rpath R34_T (states_path (r34_unpack_states bytes18)).

Lemma payload_is_path bytes18 : is_path R34_T (payload_path bytes18) /\ last_state (payload_path bytes18) = 0%nat.
Proof.
  split; [split; [apply length_rpath|]|done]. unfold payload_path. generalize R34_T. intros n.
  induction n as [|n IH]; [by constructor|]. constructor; [|done].
  unfold states_path, R34_S. pose proof (unpack_states_range bytes18 n). lia.
Qed.

Lemma ranked_trace r : (r < R34_K)%nat -> payload_path (ranked r) = trace cost R34_T 0 r.
Proof.
  intros Hr. destruct (tables_inv_all cost B Hcost HB R34_T (le_n _)) as (_ & Ha & _).
  destruct (Ha 0%nat r ltac:(by_decide) Hr (last_row_full r Hr)) as ([Hl Hf] & Hlast & _).
  destruct (traceback_trace 0 r) as [Hlen Htb].
  assert (Hrange : forall t, 0 <= (r34_traceback_state_rank back 0 r).[t] < 8).
  { intros t. destruct (decide (t < R34_T)%nat) as [Ht|Ht]; [|rewrite nth_overflow by lia; lia]. rewrite Htb by done.
    assert (nth (R34_T - 1 - t) (trace cost R34_T 0 r) 0%nat < R34_S)%nat.
    { destruct (lookup_lt_is_Some_2 (trace cost R34_T 0 r) (R34_T - 1 - t)%nat ltac:(lia)) as [x Hx].
      rewrite nth_lookup, Hx. exact (Forall_lookup_1 _ _ _ _ Hf Hx). }
    unfold R34_S in *. lia. }
  apply rpath_eq; [done|]. intros t Ht. unfold states_path. destruct (decide (t = 48)%nat) as [->|Hne].
  - change (R34_T - 1 - 48)%nat with 0%nat. unfold last_state in Hlast.
    destruct (trace cost R34_T 0 r); cbn in Hlast |- *; [done|]. by rewrite Hlast.
  - unfold ranked. rewrite unpack_pack; [|exact Hrange|unfold R34_T in Ht; lia].
    rewrite Htb by exact Ht. symmetry. apply Nat2Z.id.
Qed.

Lemma ranked_cost r : (r < R34_K)%nat ->
  metric (cell_at (tables cost R34_T) 0 r) = path_cost cost R34_T (states_path (r34_unpack_states (ranked r))).
Proof.
  intros Hr. destruct (tables_inv_all cost B Hcost HB R34_T (le_n _)) as (_ & Ha & _).
  destruct (Ha 0%nat r ltac:(by_decide) Hr (last_row_full r Hr)) as (_ & _ & <-).
  rewrite <- ranked_trace by done. apply rcost_rpath.
Qed.

Lemma ranked_inj r r' : (r < R34_K)%nat -> (r' < R34_K)%nat -> ranked r = ranked r' -> r = r'.
Proof.
  intros Hr Hr' E. destruct (tables_inv_all cost B Hcost HB R34_T (le_n _)) as (_ & _ & Hn & _).
  apply (Hn 0%nat); [by_decide|done..| | |]; [by apply last_row_full..|]. rewrite <- !ranked_trace by done. by rewrite E.
Qed.

(** A payload that is not ranked is no better than any that is. *)
Lemma ranked_complete bytes18 : length bytes18 = 18%nat -> weights bytes18 ->
  (exists r, (r < R34_K)%nat /\ ranked r = bytes18) \/
  (forall r, (r < R34_K)%nat ->
     metric (cell_at (tables cost R34_T) 0 r) <= path_cost cost R34_T (states_path (r34_unpack_states bytes18))).
Proof.
  intros Hl Hw. destruct (tables_inv_all cost B Hcost HB R34_T (le_n _)) as (_ & _ & _ & Hc).
  destruct (payload_is_path bytes18) as [Hp H0].
  destruct (Hc _ Hp) as [(r & Hr & _ & E)|Hall]; rewrite H0 in *.
  - left. exists r. split; [done|]. etransitivity; [|exact (pack_unpack bytes18 Hl Hw)]. apply pack_ext. intros t Ht.
    destruct (traceback_trace 0 r) as [_ Htb]. rewrite Htb, E by (unfold R34_T; lia). unfold payload_path.
    rewrite nth_rpath by (unfold R34_T; lia). unfold states_path. pose proof (unpack_states_range bytes18 t). lia.
  - right. intros r Hr. unfold payload_path in Hall. rewrite rcost_rpath in Hall. by apply Hall.
Qed.
End Final.

(** ** From the tables to the candidates *)

Lemma run_list_tables nibs rhi rlo tbl weighted :
  let cost := fun t => list_cost weighted tbl (nibs.[t]) (rhi.[t]) (rlo.[t]) in
  let q := r34_run_viterbi_list nibs rhi rlo tbl weighted in
  fst q = tables cost R34_T /\ forall t, (t < R34_T)%nat -> nth t (snd q) [] = tables cost (S t).
Proof.
  intros cost q. set (P := fun (k : nat) (q : list (list cell) * list (list (list cell))) =>
    fst q = tables cost k /\ length (snd q) = R34_T /\ forall t, (t < k)%nat -> nth t (snd q) [] = tables cost (S t)).
  enough (H : P R34_T q) by (destruct H as (H1 & _ & H2); exact (conj H1 H2)).
  subst q. unfold r34_run_viterbi_list. apply (for_ind P); [lia|split; [reflexivity|split; [apply length_replicate|lia]]|].
  intros k [prev back] Hk (E & Hl & H). unfold P. cbn [fst snd] in *. subst prev.
  pose proof (tables_S cost k) as ES. unfold cost at 2 in ES. cbv beta zeta in ES. rewrite <- ES.
  split; [reflexivity|]. split; [by rewrite length_insert|]. intros t Ht. rewrite nth_lookup. destruct (decide (k = t)) as [->|].
  - rewrite list_lookup_insert_eq by lia. reflexivity.
  - rewrite list_lookup_insert_ne, <- nth_lookup by done. apply H. lia.
Qed.

Lemma collect_full table : (forall r, (r < R34_K)%nat -> live (cell_at table 0 r)) ->
  r34_collect_final_indices table = map (fun r => CandIdx (metric (cell_at table 0 r)) 0 r) (seq 0 R34_K).
Proof.
  intros H. unfold r34_collect_final_indices.
  apply (for_ind (fun k idx => idx = map (fun r => CandIdx (metric (cell_at table 0 r)) 0 r) (seq 0 k))); [lia|done|].
  intros k idx Hk ->. rewrite seq_S, map_app. cbn [map]. by rewrite (proj2 (Z.ltb_lt _ _)) by (apply H; lia).
Qed.

Lemma sort_sorted idx : (forall i a b, idx !! i = Some a -> idx !! S i = Some b -> idx_metric a <= idx_metric b) ->
  r34_sort_indices_by_metric idx = idx.
Proof.
  intros Hs. unfold r34_sort_indices_by_metric. set (n := length idx).
  destruct (decide (1 <= n)%nat) as [Hn|Hn]; [|rewrite for_nil by lia; done].
  apply (for_ind (fun _ l => l = idx)); [done|done|]. intros i l Hi ->. cbv zeta.
  destruct i as [|i]; [lia|]. destruct (lookup_lt_is_Some_2 idx (S i) ltac:(lia)) as [key Hkey].
  destruct (lookup_lt_is_Some_2 idx i ltac:(lia)) as [a Ha].
  assert (E : nth (S i) idx (CandIdx 0 0 0) = key) by (by rewrite nth_lookup, Hkey).
  assert (E' : nth i idx key = a) by (by rewrite nth_lookup, Ha). rewrite E. cbn [sort_shift]. rewrite E'.
  rewrite (proj2 (Z.ltb_ge _ _)) by (by eapply Hs). by apply list_insert_id.
Qed.

Lemma write_prefix {A} (f : nat -> A) n (l : list A) : (n <= length l)%nat ->
  for_ 0 n (fun i l => <[i := f i]> l) l = map f (seq 0 n) ++ drop n l.
Proof.
  intros Hn. enough (H : forall k, (k <= n)%nat -> for_ 0 k (fun i l => <[i := f i]> l) l = map f (seq 0 k) ++ drop k l)
    by (by apply H).
  induction k as [|k IH]; intros Hk; [done|]. rewrite for_S, IH by lia.
  assert (Hm : length (map f (seq 0 k)) = k) by (by rewrite length_map, length_seq).
  destruct (lookup_lt_is_Some_2 l k ltac:(lia)) as [x Hx]. rewrite (drop_S _ _ _ Hx).
  rewrite insert_app_r_alt, Hm, Nat.sub_diag by lia. cbn [insert list_insert]. rewrite seq_S, map_app, <- app_assoc. done.
Qed.

Lemma table_expect ps ns : (ps < R34_S)%nat -> (ns < R34_S)%nat ->
  (nth ps r34_precompute_expect_nibbles []).[ns] = expect_nib ps ns.
Proof.
  intros Hp Hn. apply Z.eqb_eq.
  assert (C : forallb (fun ps => forallb (fun ns => (nth ps r34_precompute_expect_nibbles []).[ns] =? expect_nib ps ns)
    (seq 0 8)) (seq 0 8) = true) by (vm_compute; reflexivity).
  exact (check_nat _ _ (check_nat _ _ C ps Hp) ns Hn).
Qed.

Lemma unweighted_bounds e o : 0 <= r34_unweighted_list_cost e o <= 1020.
Proof.
  unfold r34_unweighted_list_cost. destruct (negb _); [|lia]. change 1 with (Z.ones 1). rewrite !Z.land_ones by lia.
  repeat match goal with |- context [?x mod 2 ^ 1] => pose proof (Z.mod_pos_bound x (2 ^ 1) ltac:(lia)); generalize dependent (x mod 2 ^ 1); intros end.
  lia.
Qed.

(** The cost of a payload as the list decoder counts it: that of its path, with
    [r34_unweighted_list_cost] when there are no reliabilities. *)
Definition list_metric (dibits98 : list Z) (reliab98 : option (list Z)) (bytes18 : list Z) : Z :=
  let w := r34_prepare_reliability_weights reliab98 in
  path_cost (fun t => list_cost (if reliab98 then true else false) r34_precompute_expect_nibbles
    ((r34_prepare_nibbles dibits98).[t]) ((fst w).[t]) ((snd w).[t])) R34_T (states_path (r34_unpack_states bytes18)).

(** With reliabilities it is the metric of [dmr_r34_candidate_metric]. *)
Lemma list_metric_weighted dibits98 reliab98 bytes18 :
  list_metric dibits98 (Some reliab98) bytes18 = payload_metric dibits98 (Some reliab98) bytes18.
Proof.
  unfold list_metric, payload_metric. apply sum_upto_ext. intros t Ht. unfold soft_cost, list_cost.
  rewrite table_expect; [done| |].
  - destruct t as [|t]; [by_decide|]. unfold prev_state, states_path, R34_S. pose proof (unpack_states_range bytes18 t). lia.
  - unfold states_path, R34_S. pose proof (unpack_states_range bytes18 t). lia.
Qed.

Lemma sorted_le (row : list cell) i j a b : sorted row -> row !! i = Some a -> row !! j = Some b -> (i <= j)%nat ->
  metric a <= metric b.
Proof.
  intros Hs Ha Hb Hij. destruct (decide (i = j)) as [->|Hne]; [by simplify_eq|].
  rewrite <- (take_drop (S i) row) in Hs. refine (StronglySorted_app_1_elem_of _ _ _ a b Hs _ _).
  - apply list_elem_of_lookup_2 with i. by rewrite lookup_take_lt by lia.
  - apply list_elem_of_lookup_2 with (j - S i)%nat. rewrite lookup_drop. by replace (S i + (j - S i))%nat with j by lia.
Qed.

Lemma sorted_map_seq {A} (R : A -> A -> Prop) (f : nat -> A) lo n :
  (forall i j, (lo <= i < j)%nat -> (j < lo + n)%nat -> R (f i) (f j)) -> StronglySorted R (map f (seq lo n)).
Proof.
  revert lo. induction n as [|n IH]; intros lo H; cbn; constructor; [apply IH; intros; apply H; lia|].
  apply Forall_forall. intros x (i & -> & Hi%elem_of_seq)%list_elem_of_fmap. apply H; lia.
Qed.

(** What the decoder returns, in terms of the last table. *)
Lemma decode_list_ranked dibits98 reliab98 out max count0 :
  match reliab98 with Some r => weights r | None => True end -> 0 < max <= Z.of_nat (length out) ->
  exists cost back,
    (forall t ps ns, 0 <= cost t ps ns <= 1020) /\
    (forall t, (t < R34_T)%nat -> nth t back [] = tables cost (S t)) /\
    (forall bytes18, list_metric dibits98 reliab98 bytes18 = path_cost cost R34_T (states_path (r34_unpack_states bytes18))) /\
    let n := Z.to_nat (Z.min 32 max) in
    dmr_r34_viterbi_decode_list (Some dibits98) reliab98 (Some out) max (Some count0) =
      (Some (map (fun r => Candidate (metric (cell_at (tables cost R34_T) 0 r)) (ranked back r)) (seq 0 n) ++ drop n out),
       Some (Z.of_nat n), 0).
Proof.
  intros Hw Hmax. unfold dmr_r34_viterbi_decode_list, list_metric.
  destruct (prepared_weights reliab98 Hw) as [Hhi Hlo].
  destruct (r34_prepare_reliability_weights reliab98) as [rhi rlo]. cbn [fst snd] in *.
  set (nibs := r34_prepare_nibbles dibits98). set (weighted := if reliab98 then true else false).
  pose proof (run_list_tables nibs rhi rlo r34_precompute_expect_nibbles weighted) as [Ef Eb].
  set (cost := fun t => list_cost weighted r34_precompute_expect_nibbles (nibs.[t]) (rhi.[t]) (rlo.[t])) in *.
  destruct (r34_run_viterbi_list nibs rhi rlo r34_precompute_expect_nibbles weighted) as [last back].
  cbn [fst snd] in *. subst last.
  assert (Hcost : forall t ps ns, 0 <= cost t ps ns <= 1020).
  { intros t ps ns. unfold cost, list_cost. destruct weighted; [|apply unweighted_bounds].
    apply weighted_cost_bounds; by apply nth_weights. }
  assert (Hlive : forall r, (r < R34_K)%nat -> live (cell_at (tables cost R34_T) 0 r)).
  { exact (last_row_full cost 1020 Hcost ltac:(by_decide)). }
  exists cost, back. split; [exact Hcost|]. split; [exact Eb|]. split; [intros bytes18; reflexivity|].
  cbv zeta. set (n := Z.to_nat (Z.min 32 max)).
  rewrite (proj2 (Z.leb_gt max 0)) by lia. rewrite collect_full by exact Hlive.
  destruct (tables_inv_all cost 1020 Hcost ltac:(by_decide) R34_T (le_n _)) as (Hrows & _).
  destruct (Hrows 0%nat ltac:(by_decide)) as [Hl Hs].
  rewrite sort_sorted.
  2: { intros i a b Ha Hb. rewrite list_lookup_fmap in Ha, Hb. apply fmap_Some in Ha as (i1 & [-> Hi]%lookup_seq & ->).
       apply fmap_Some in Hb as (i2 & [-> Hi2]%lookup_seq & ->). cbn [idx_metric].
       apply (sorted_le _ i (S i) _ _ Hs); [apply cell_at_elem; lia|apply cell_at_elem; lia|lia]. }
  unfold r34_write_list_candidates. rewrite length_map, length_seq.
  assert (En : (if max <? Z.of_nat R34_K then max else Z.of_nat R34_K) = Z.of_nat n).
  { unfold n, R34_K. destruct (Z.ltb_spec max (Z.of_nat 32)); lia. }
  rewrite En, Nat2Z.id. do 4 f_equal.
  assert (Hn : (n <= R34_K)%nat) by (unfold n, R34_K; lia).
  rewrite <- write_prefix by lia. apply for_ext. intros i l Hi. f_equal.
  assert (E : nth i (map (fun r => CandIdx (metric (cell_at (tables cost R34_T) 0 r)) 0 r) (seq 0 R34_K)) (CandIdx 0 0 0)
    = CandIdx (metric (cell_at (tables cost R34_T) 0 i)) 0 i).
  { rewrite nth_lookup, list_lookup_fmap, lookup_seq_lt by lia. reflexivity. }
  cbv zeta. rewrite E. reflexivity.
Qed.

(** C21: the list decoder returns the best payloads there are.  For a capacity of
    [max] it writes [min(32, max)] candidates, all different, in the order of
    their metrics, each with the metric of its payload (with reliabilities, the
    one [dmr_r34_candidate_metric] computes); any payload left out is no better
    than those returned; and the rest of the array is untouched. *)
Theorem r34_list_decoder_k_best dibits98 reliab98 out max count0 :
  match reliab98 with Some r => weights r | None => True end -> 0 < max <= Z.of_nat (length out) ->
  exists cands,
    dmr_r34_viterbi_decode_list (Some dibits98) reliab98 (Some out) max (Some count0) =
      (Some (cands ++ drop (length cands) out), Some (Z.of_nat (length cands)), 0) /\
    Z.of_nat (length cands) = Z.min 32 max /\
    StronglySorted (fun a b => cand_metric a <= cand_metric b) cands /\
    NoDup (map cand_bytes18 cands) /\
    (forall c, c ∈ cands -> cand_metric c = list_metric dibits98 reliab98 (cand_bytes18 c)) /\
    (forall bytes18, length bytes18 = 18%nat -> weights bytes18 ->
       bytes18 ∈ map cand_bytes18 cands \/
       forall c, c ∈ cands -> cand_metric c <= list_metric dibits98 reliab98 bytes18) /\
    (forall r bytes18, reliab98 = Some r ->
       dmr_r34_candidate_metric (Some dibits98) (Some r) (Some bytes18) (Some 0) = (Some (list_metric dibits98 (Some r) bytes18), 0)).
Proof.
  intros Hw Hmax. destruct (decode_list_ranked dibits98 reliab98 out max count0 Hw Hmax) as (cost & back & Hcost & Hback & Hlm & E).
  cbv zeta in E. set (n := Z.to_nat (Z.min 32 max)) in *.
  assert (HB : Z.of_nat R34_T * 1020 < R34_INF) by by_decide.
  assert (Hn : (n <= R34_K)%nat) by (unfold n, R34_K; lia).
  destruct (tables_inv_all cost 1020 Hcost HB R34_T (le_n _)) as (Hrows & _).
  destruct (Hrows 0%nat ltac:(by_decide)) as [HlK Hs].
  assert (Hmono : forall i j, (i <= j)%nat -> (j < R34_K)%nat ->
    metric (cell_at (tables cost R34_T) 0 i) <= metric (cell_at (tables cost R34_T) 0 j)).
  { intros i j Hij Hj. apply (sorted_le _ i j _ _ Hs); [apply cell_at_elem; lia|apply cell_at_elem; lia|exact Hij]. }
  set (f := fun r => Candidate (metric (cell_at (tables cost R34_T) 0 r)) (ranked back r)) in *.
  exists (map f (seq 0 n)).
  assert (Hlen : length (map f (seq 0 n)) = n) by (by rewrite length_map, length_seq).
  rewrite Hlen. split; [exact E|]. split; [unfold n; lia|]. split; [|split; [|split; [|split]]].
  - apply sorted_map_seq. intros i j Hij Hj. apply Hmono; lia.
  - rewrite map_map. apply NoDup_fmap_2_strong; [|apply NoDup_seq].
    intros i j Hi%elem_of_seq Hj%elem_of_seq Eij. apply (ranked_inj cost 1020 Hcost HB back Hback); [lia|lia|exact Eij].
  - intros c (r & -> & Hr%elem_of_seq)%list_elem_of_fmap. unfold f. cbn [cand_metric cand_bytes18]. rewrite Hlm.
    apply (ranked_cost cost 1020 Hcost HB back Hback). lia.
  - intros bytes18 Hl Hwb. rewrite Hlm.
    assert (Hle : forall k, (forall r, (r < n)%nat -> metric (cell_at (tables cost R34_T) 0 r) <= k) ->
      forall c, c ∈ map f (seq 0 n) -> cand_metric c <= k).
    { intros k Hk c (r & -> & Hr%elem_of_seq)%list_elem_of_fmap. apply Hk. lia. }
    destruct (ranked_complete cost 1020 Hcost HB back Hback bytes18 Hl Hwb) as [(r & Hr & Er)|Hall].
    + destruct (decide (r < n)%nat) as [Hrn|Hrn].
      * left. rewrite map_map. apply list_elem_of_fmap. exists r. split; [symmetry; exact Er|]. apply elem_of_seq. lia.
      * right. apply Hle. intros r' Hr'. rewrite <- Er, <- (ranked_cost cost 1020 Hcost HB back Hback) by exact Hr.
        apply Hmono; lia.
    + right. apply Hle. intros r Hr. apply Hall. lia.
  - intros r bytes18 ->. rewrite list_metric_weighted. apply candidate_metric_cost.
Qed.

Lemma r34_list_decoder_k_best_witness :
  let d := map (fun i => Z.of_nat (i * 7 mod 5) mod 4) (seq 0 98) in
  let r := map (fun i => Z.of_nat (i * 37 mod 256)) (seq 0 98) in
  let out := replicate 40 (Candidate (-1) []) in
  exists cands,
    dmr_r34_viterbi_decode_list (Some d) (Some r) (Some out) 40 (Some 7) =
      (Some (cands ++ drop (length cands) out), Some (Z.of_nat (length cands)), 0) /\
    Z.of_nat (length cands) = 32 /\ NoDup (map cand_bytes18 cands).
Proof.
  intros d r out.
  destruct (r34_list_decoder_k_best d (Some r) out 40 7 ltac:(by_decide) ltac:(by_decide)) as (c & H1 & H2 & _ & H4 & _).
  exists c. split; [exact H1|]. split; [exact H2|exact H4].
Defined.
