(* ===== verification/DmrChecks.v ===== *)
(** * [protocol/dmr/dmr_utils.c]: checks on DMR data

    The Hamming (17,12,3) check of short link control, CRC-7, CRC-8, CRC-9,
    CRC-32 and CRC-CCITT over bits, the 5-bit checksum of embedded link control
    and the Reed-Solomon check of full link control.  The text routines of the
    same file ([dmr_debug_format_burst] and the like) are not modelled. *)
From S2P Require Import Prelude LinearCode BlockCodes Rs129 Crc.

(** ** Hamming (17,12,3) *)

(** Syndromes and the bit each one names. *)
Definition kHamming17123Corrections : list (Z * nat) :=
  [(0x01, 12%nat); (0x02, 13%nat); (0x04, 14%nat); (0x08, 15%nat); (0x10, 16%nat); (0x1B, 0%nat);
   (0x1F, 1%nat); (0x17, 2%nat); (0x07, 3%nat); (0x0E, 4%nat); (0x1C, 5%nat); (0x11, 6%nat);
   (0x0B, 7%nat); (0x16, 8%nat); (0x05, 9%nat); (0x0A, 10%nat); (0x14, 11%nat)].

Fixpoint dmr_hamming17123_apply_correction (corrections : list (Z * nat)) (d : list Z) (syndrome : Z) : list Z * bool :=
  match corrections with
  | [] => (d, false)
  | (s, bit_index) :: corrections =>
      if s =? syndrome then (d.[bit_index <- if d.[bit_index] =? 0 then 1 else 0], true)
      else dmr_hamming17123_apply_correction corrections d syndrome
  end.

(** Exclusive or of some cells, as a [bool]. *)
Definition xor_cells (d : list Z) (cells : list nat) : Z :=
  Z.b2z (negb (fold_left (fun x i => Z.lxor x (d.[i])) cells 0 =? 0)).

Definition Hamming17123 (d : list Z) : list Z * bool :=
  let c0 := xor_cells d [0; 1; 2; 3; 6; 7; 9]%nat in
  let c1 := xor_cells d [0; 1; 2; 3; 4; 7; 8; 10]%nat in
  let c2 := xor_cells d [1; 2; 3; 4; 5; 8; 9; 11]%nat in
  let c3 := xor_cells d [0; 1; 4; 5; 7; 10]%nat in
  let c4 := xor_cells d [0; 1; 2; 5; 6; 8; 11]%nat in
  let n := 0 in
  let n := Z.lor n (if negb (c0 =? d.[12%nat]) then 0x01 else 0) in
  let n := Z.lor n (if negb (c1 =? d.[13%nat]) then 0x02 else 0) in
  let n := Z.lor n (if negb (c2 =? d.[14%nat]) then 0x04 else 0) in
  let n := Z.lor n (if negb (c3 =? d.[15%nat]) then 0x08 else 0) in
  let n := Z.lor n (if negb (c4 =? d.[16%nat]) then 0x10 else 0) in
  if n =? 0 then (d, true) else dmr_hamming17123_apply_correction kHamming17123Corrections d n.

(** ** Cyclic checks *)

(** The part [crc8] and [crc7] share: long division in a buffer of 256 cells. *)
Definition crc_by_division (K : nat) (poly bits : list Z) (len : nat) : Z :=
  if (256 <? len + K)%nat then 0
  else
    let buf := for_ 0 len (fun i buf => buf.[i <- bits.[i]]) (replicate 256 0) in
    let buf := for_ 0 len (fun i buf =>
      if buf.[i] =? 0 then buf
      else for_ 0 (S K) (fun j buf => buf.[(i + j)%nat <- Z.lxor (buf.[(i + j)%nat]) (poly.[j])]) buf) buf in
    for_ 0 K (fun i crc => u8 (Z.shiftl crc 1 + buf.[(len + i)%nat])) 0.

Definition crc8 (bits : list Z) (len : nat) : Z := crc_by_division 8 [1; 0; 0; 0; 0; 0; 1; 1; 1] bits len.

Definition crc8_ok (bits : list Z) (len : nat) : bool :=
  let crc := for_ 0 8 (fun i crc => u16 (Z.shiftl crc 1 + bits.[(len + i)%nat])) 0 in
  crc =? crc8 bits len.

Definition crc7 (bits : list Z) (len : nat) : Z := crc_by_division 7 [1; 0; 1; 0; 0; 1; 1; 1] bits len.

Definition ComputeCrcCCITT (DMRData : list Z) : Z :=
  let CRC := for_ 0 80 (fun i CRC =>
    if negb (Z.lxor (Z.land (Z.shiftr CRC 15) 1) (Z.land (DMRData.[i]) 1) =? 0)
    then u16 (Z.lxor (Z.shiftl CRC 1) 0x1021)
    else u16 (Z.shiftl CRC 1)) 0 in
  Z.lxor CRC 0xFFFF.

Definition ComputeCrc9Bit (DMRData : list Z) (NbData : nat) : Z :=
  let CRC := for_ 0 NbData (fun i CRC =>
    if negb (Z.lxor (Z.land (Z.shiftr CRC 8) 1) (Z.land (DMRData.[i]) 1) =? 0)
    then u16 (Z.lxor (Z.shiftl CRC 1) 0x059)
    else u16 (Z.shiftl CRC 1)) 0 in
  let CRC := Z.land CRC 0x01FF in
  Z.lxor CRC 0x01FF.

Definition ComputeCrc32Bit (DMRData : list Z) (NbData : nat) : Z :=
  let CRC := for_ 0 NbData (fun i CRC =>
    if negb (Z.lxor (Z.land (Z.shiftr CRC 31) 1) (Z.land (DMRData.[i]) 1) =? 0)
    then Z.lxor (u32 (Z.shiftl CRC 1)) 0x04C11DB7
    else u32 (Z.shiftl CRC 1)) 0 in
  let a := u32 (Z.shiftl (Z.land CRC 0xFF) 24) in
  let b := Z.shiftl (Z.shiftr (Z.land CRC 0xFF00) 8) 16 in
  let c := Z.shiftl (Z.shiftr (Z.land CRC 0xFF0000) 16) 8 in
  let d := Z.shiftr (Z.land CRC 0xFF000000) 24 in
  u32 (a + b + c + d).

(** ** Other checks *)

Definition ComputeCrc5Bit (DMRData : list Z) : Z :=
  let Buffer := map (fun i => for_ 0 8 (fun j b => Z.lor (u8 (Z.shiftl b 1)) (DMRData.[(8 * i + j)%nat])) 0) (seq 0 9) in
  let Sum := for_ 0 9 (fun i Sum => u32 (Sum + Buffer.[i])) 0 in
  u8 (Sum mod 31).

(** The mask goes on the last three of the twelve bytes. *)
Definition apply_crc_mask (CRCMask : Z) (data : list Z) : list Z :=
  map (fun i => Z.lxor (data.[i])
    (if (i =? 9)%nat then u8 (Z.shiftr CRCMask 16)
     else if (i =? 10)%nat then u8 (Z.shiftr CRCMask 8)
     else if (i =? 11)%nat then u8 CRCMask else 0)) (seq 0 12).

(** The data bytes, [*CRCComputed], and the verdict; [junk] is the upper half of
    the syndrome, which is never initialised. *)
Definition ComputeAndCorrectFullLinkControlCrc (junk FullLinkControlDataBytes : list Z) (CRCMask : Z) : list Z * Z * Z :=
  let data := apply_crc_mask CRCMask FullLinkControlDataBytes in
  let syndrome := calc_syndrome data ++ junk in
  let '(data, result, _) :=
    if negb (check_syndrome syndrome =? 0) then rs_12_9_correct_errors data syndrome else (data, NO_ERRORS_FOUND, 0) in
  let CRCComputed := Z.lor (Z.lor (Z.land (Z.shiftl (data.[9%nat]) 16) 0xFF0000)
    (Z.land (Z.shiftl (data.[10%nat]) 8) 0x00FF00)) (Z.land (Z.shiftl (data.[11%nat]) 0) 0x0000FF) in
  match result with
  | NO_ERRORS_FOUND | ERRORS_CORRECTED =>
      (apply_crc_mask CRCMask data ++ drop 12 FullLinkControlDataBytes, CRCComputed, 1)
  | ERRORS_CANT_BE_CORRECTED => (FullLinkControlDataBytes, CRCComputed, 0)
  end.

#[local] Transparent syndrome parity_sum.

(** ** Short link control *)

(** The parity check matrix, the check of bit 16 first. *)
Definition Hamming17123_H : list Z :=
  [1; 1; 1; 0; 0; 1; 1; 0; 1; 0; 0; 1; 0; 0; 0; 0; 1;
   1; 1; 0; 0; 1; 1; 0; 1; 0; 0; 1; 0; 0; 0; 0; 1; 0;
   0; 1; 1; 1; 1; 1; 0; 0; 1; 1; 0; 1; 0; 0; 1; 0; 0;
   1; 1; 1; 1; 1; 0; 0; 1; 1; 0; 1; 0; 0; 1; 0; 0; 0;
   1; 1; 1; 1; 0; 0; 1; 1; 0; 1; 0; 0; 1; 0; 0; 0; 0].

(** The corrections as a table by syndrome. *)
Definition Hamming17123_corr : list Z :=
  fold_left (fun t '(s, i) => t.[Z.to_nat s <- Z.of_nat i]) kHamming17123Corrections (replicate 32 255).

Lemma lxor_mod2 a b : is_bit (a mod 2) -> is_bit b -> Z.lxor (a mod 2) b = (a + b) mod 2.
Proof.
  intros Ha Hb. rewrite <- Z.add_mod_idemp_l by lia. destruct Ha as [-> | ->], Hb as [-> | ->]; reflexivity.
Qed.

Lemma fold_xor_sum d cells a : bits d ->
  fold_left (fun x i => Z.lxor x (d.[i])) cells (a mod 2) = fold_left (fun x i => x + d.[i]) cells a mod 2.
Proof.
  intros Hd. revert a. induction cells as [|i cells IH]; intros a; [done|]. cbn [fold_left].
  rewrite lxor_mod2; [apply IH|apply is_bit_mod2|by apply bits_nth].
Qed.

(** A check fails when the cells and the check bit have odd weight. *)
Lemma check_bit d cells k : bits d ->
  negb (xor_cells d cells =? d.[k]) = (((fold_left (fun x i => x + d.[i]) cells 0 + d.[k]) mod 2) =? 1).
Proof.
  intros Hd. unfold xor_cells. pose proof (fold_xor_sum d cells 0 Hd) as F. change (0 mod 2) with 0 in F. rewrite F.
  rewrite <- Z.add_mod_idemp_l by lia. pose proof (bits_nth d k Hd) as Hk.
  destruct (is_bit_mod2 (fold_left (fun x i => x + d.[i]) cells 0)) as [-> | ->], Hk as [-> | ->]; reflexivity.
Qed.

(** The number the code looks up is the syndrome. *)
Lemma Hamming17123_syndrome d : bits d -> length d = 17%nat ->
  Hamming17123 d = if syndrome Hamming17123_H 17 5 d 0 =? 0 then (d, true)
    else dmr_hamming17123_apply_correction kHamming17123Corrections d (syndrome Hamming17123_H 17 5 d 0).
Proof.
  intros Hd Hl. unfold Hamming17123. rewrite !check_bit by done. cbn [fold_left].
  assert (E : syndrome Hamming17123_H 17 5 d 0 =
    let s := fun ir => parity_sum Hamming17123_H 17 ir d 0 mod 2 in
    Z.lor (Z.lor (Z.lor (Z.lor (Z.lor 0 (if s 4%nat =? 1 then 1 else 0)) (if s 3%nat =? 1 then 2 else 0))
      (if s 2%nat =? 1 then 4 else 0)) (if s 1%nat =? 1 then 8 else 0)) (if s 0%nat =? 1 then 16 else 0)).
  { unfold syndrome, sum_upto, for_. cbn [fold_left seq Nat.sub]. cbv zeta.
    destruct (is_bit_mod2 (parity_sum Hamming17123_H 17 0 d 0)) as [-> | ->],
      (is_bit_mod2 (parity_sum Hamming17123_H 17 1 d 0)) as [-> | ->], (is_bit_mod2 (parity_sum Hamming17123_H 17 2 d 0)) as [-> | ->],
      (is_bit_mod2 (parity_sum Hamming17123_H 17 3 d 0)) as [-> | ->], (is_bit_mod2 (parity_sum Hamming17123_H 17 4 d 0)) as [-> | ->];
      reflexivity. }
  rewrite E. cbv zeta. clear E Hd. do 17 (destruct d as [|? d]; [discriminate|]). destruct d; [|discriminate].
  unfold parity_sum, sum_upto, for_. cbn [fold_left seq Nat.sub nth Nat.add Nat.mul Hamming17123_H].
  rewrite ?Z.mul_1_r, ?Z.mul_0_r, ?Z.add_0_r. reflexivity.
Qed.

(** The search in the table. *)
Lemma apply_correction_corr d s : bits d -> 0 <= s < 32 ->
  dmr_hamming17123_apply_correction kHamming17123Corrections d s =
  if Hamming17123_corr.[Z.to_nat s] =? 255 then (d, false) else (flip d (Z.to_nat (Hamming17123_corr.[Z.to_nat s])), true).
Proof.
  intros Hd Hs.
  assert (F : forall i, d.[i <- if d.[i] =? 0 then 1 else 0] = flip d i).
  { intros i. unfold flip. by destruct (bits_nth d i Hd) as [-> | ->]. }
  rewrite <- (Z2Nat.id s) by lia. assert (Hn : (Z.to_nat s < 32)%nat) by lia. generalize dependent (Z.to_nat s). intros n Hn.
  rewrite Nat2Z.id. unfold kHamming17123Corrections.
  do 32 (destruct n as [|n]; [cbn [dmr_hamming17123_apply_correction]; rewrite ?F; reflexivity|]). lia.
Qed.

Lemma Hamming17123_H_bits : bits Hamming17123_H. Proof. by_decide. Qed.

Lemma Hamming17123_table : check_patterns Hamming17123_H 17 5 1 (single_chk Hamming17123_corr) = true.
Proof. vm_compute. reflexivity. Qed.

Lemma flip_ne d i : bits d -> (i < length d)%nat -> flip d i <> d.
Proof.
  intros Hd Hi E. assert (H : (flip d i).[i] = d.[i]) by (by rewrite E). unfold flip in H.
  rewrite nth_insert in H. destruct (decide _) as [_|[]]; [|by split]. by destruct (bits_nth d i Hd) as [X|X]; rewrite X in H.
Qed.

Lemma corr_range s : 0 <= s < 32 -> s <> 0 -> (Hamming17123_corr.[Z.to_nat s] =? 255) = false ->
  (Z.to_nat (Hamming17123_corr.[Z.to_nat s]) < 17)%nat.
Proof.
  intros Hs Hne E. assert (C : forallb (fun k => (Z.of_nat k =? 0) || (Hamming17123_corr.[Z.to_nat (Z.of_nat k)] =? 255) ||
    (Z.to_nat (Hamming17123_corr.[Z.to_nat (Z.of_nat k)]) <? 17)%nat) (seq 0 32) = true) by reflexivity.
  apply (check_Z (fun s => (s =? 0) || (Hamming17123_corr.[Z.to_nat s] =? 255) ||
    (Z.to_nat (Hamming17123_corr.[Z.to_nat s]) <? 17)%nat) 32 C) in Hs.
  rewrite (proj2 (Z.eqb_neq s 0) Hne), E in Hs. cbn [orb] in Hs. by apply Nat.ltb_lt.
Qed.

#[local] Opaque syndrome parity_sum Hamming17123_corr Hamming17123_H kHamming17123Corrections.

(** A word passes unchanged only as a codeword. *)
Lemma Hamming17123_pass d : bits d -> length d = 17%nat -> Hamming17123 d = (d, true) -> codeword Hamming17123_H 17 5 d.
Proof.
  intros Hd Hl. rewrite Hamming17123_syndrome by done. pose proof (syndrome_bound Hamming17123_H 17 5 d 0) as Hb. change (2 ^ Z.of_nat 5) with 32 in Hb.
  destruct (Z.eqb_spec (syndrome Hamming17123_H 17 5 d 0) 0) as [E|Hne]; [by intros _|].
  rewrite apply_correction_corr by (done || lia). destruct (_ =? 255) eqn:E255; [intros [=]|].
  intros H. exfalso. apply (f_equal fst) in H. cbn [fst] in H. revert H. apply flip_ne; [done|]. rewrite Hl.
  set (s := syndrome _ _ _ _ _) in *.
  exact (corr_range s Hb Hne E255).
Qed.

(** Short link control: if [c] is a word the check passes as it is, then a word
    that differs from it in one bit, any of the 17, is repaired to [c] and passes. *)
Theorem Hamming17123_corrects (c rx : list Z) :
  bits c -> length c = 17%nat -> Hamming17123 c = (c, true) -> within 1 c rx -> Hamming17123 rx = (c, true).
Proof.
  intros Hc Hl Hp Hw. pose proof (Hamming17123_pass c Hc Hl Hp) as Hcw. pose proof Hw as (Hlr & Hr & _).
  pose proof (single_chk_correct _ _ _ _ c rx Hamming17123_table Hamming17123_H_bits Hcw Hw) as H.
  unfold hamming_correct in H. rewrite Hamming17123_syndrome by (done || lia).
  pose proof (syndrome_bound Hamming17123_H 17 5 rx 0) as Hb. change (2 ^ Z.of_nat 5) with 32 in Hb.
  revert H Hb. generalize (syndrome Hamming17123_H 17 5 rx 0). intros s H Hb. destruct (Z.ltb_spec 0 s) as [Hs|Hs].
  - rewrite (proj2 (Z.eqb_neq s 0)), apply_correction_corr by (lia || done).
    destruct (_ =? 255); [discriminate|]. apply Some_inj in H. rewrite Nat.add_0_l in H. by rewrite H.
  - rewrite (proj2 (Z.eqb_eq s 0)) by lia. apply Some_inj in H. by rewrite H.
Qed.

Lemma Hamming17123_corrects_witness :
  let c := [1; 0; 1; 1; 0; 0; 1; 0; 1; 1; 1; 0; 1; 1; 0; 0; 0] in
  Hamming17123 (flips [6]%nat c) = (c, true).
Proof. intros c. apply (Hamming17123_corrects c); by_decide. Defined.

(** ** Full link control *)

Lemma mask_involutive mask d : length d = 12%nat -> apply_crc_mask mask (apply_crc_mask mask d) = d.
Proof.
  intros Hl. do 12 (destruct d as [|? d]; [discriminate|]). destruct d; [|discriminate].
  unfold apply_crc_mask. cbn [map seq nth Nat.eqb]. rewrite !Z.lxor_0_r. by rewrite !Z.lxor_assoc, !Z.lxor_nilpotent, !Z.lxor_0_r.
Qed.

Lemma length_mask mask d : length (apply_crc_mask mask d) = 12%nat.
Proof. unfold apply_crc_mask. len. Qed.

Lemma mask_insert mask d p v : length d = 12%nat -> (p < 12)%nat ->
  apply_crc_mask mask (d.[p <- Z.lxor (d.[p]) v]) = (apply_crc_mask mask d).[p <- Z.lxor ((apply_crc_mask mask d).[p]) v].
Proof.
  intros Hl Hp. apply list_eq_nth; [by rewrite length_insert, !length_mask|]. intros i Hi. rewrite length_mask in Hi.
  rewrite nth_insert, length_mask. unfold apply_crc_mask. rewrite !nth_map_seq, !Nat.add_0_l by done.
  rewrite nth_insert, Hl. destruct (decide (p = i /\ _)%nat) as [[-> _]|Hne]; [|done]. xor_solve.
Qed.

(** The test of the syndrome only repeats the decoder's own. *)
Lemma full_link_control_cases junk rx mask : length rx = 12%nat ->
  let d := apply_crc_mask mask rx in
  let '(c, res, _) := rs_12_9_correct_errors d (calc_syndrome d ++ junk) in
  exists crc, ComputeAndCorrectFullLinkControlCrc junk rx mask =
    match res with ERRORS_CANT_BE_CORRECTED => (rx, crc, 0) | _ => (apply_crc_mask mask c, crc, 1) end.
Proof.
  intros Hl d. unfold ComputeAndCorrectFullLinkControlCrc. fold d.
  assert (E : (if negb (check_syndrome (calc_syndrome d ++ junk) =? 0)
    then rs_12_9_correct_errors d (calc_syndrome d ++ junk) else (d, NO_ERRORS_FOUND, 0))
    = rs_12_9_correct_errors d (calc_syndrome d ++ junk)).
  { unfold rs_12_9_correct_errors. by destruct (check_syndrome (calc_syndrome d ++ junk) =? 0). }
  cbv zeta. rewrite E. destruct (rs_12_9_correct_errors d _) as [[c res] f].
  destruct res; eexists; rewrite ?drop_ge, ?app_nil_r by lia; reflexivity.
Qed.

#[local] Opaque apply_crc_mask calc_syndrome check_syndrome rs_12_9_correct_errors ComputeAndCorrectFullLinkControlCrc.

(** C25: full link control.  The twelve bytes of a Reed-Solomon codeword under the
    mask of the burst type, received with any one byte wrong, are restored and
    accepted.  And whatever is received, what is accepted is a codeword under the
    mask at most one byte away, and what is not accepted is left as it was. *)
Theorem full_link_control_repair (junk : list Z) (mask : Z) :
  length junk = 3%nat ->
  (forall c p a, length c = 12%nat -> Forall byte c -> calc_syndrome c = [0; 0; 0] -> (p < 12)%nat -> 0 < a < 256 ->
     let tx := apply_crc_mask mask c in
     let '(out, _, ok) := ComputeAndCorrectFullLinkControlCrc junk (tx.[p <- Z.lxor (tx.[p]) a]) mask in
     out = tx /\ ok = 1) /\
  (forall rx, length rx = 12%nat ->
     let '(out, _, ok) := ComputeAndCorrectFullLinkControlCrc junk rx mask in
     ok = 1 /\ calc_syndrome (apply_crc_mask mask out) = [0; 0; 0] /\
       (hamming_dist (apply_crc_mask mask rx) (apply_crc_mask mask out) <= 1)%nat
     \/ ok = 0 /\ out = rx).
Proof.
  intros Hj. split.
  - intros c p a Hl Hc H0 Hp Ha tx.
    assert (Hm : length (tx.[p <- Z.lxor (tx.[p]) a]) = 12%nat) by (rewrite length_insert; apply length_mask).
    pose proof (full_link_control_cases junk _ mask Hm) as H. cbv zeta in H.
    rewrite mask_insert in H by (apply length_mask || exact Hp). rewrite (mask_involutive mask c Hl : apply_crc_mask mask tx = c) in H.
    rewrite (correct_single c junk p a Hl Hc H0 Hp Ha Hj) in H. destruct H as [crc E]. by rewrite E.
  - intros rx Hl. pose proof (full_link_control_cases junk rx mask Hl) as H. cbv zeta in H.
    pose proof (correct_sound (apply_crc_mask mask rx) junk (length_mask mask rx)) as S.
    destruct (rs_12_9_correct_errors _ _) as [[c res] f]. destruct S as (Hlc & Hdist & Hs).
    destruct res; destruct H as [crc E]; rewrite E; [left|left|by right];
      rewrite mask_involutive by exact Hlc; (split; [reflexivity|split; [by apply Hs|exact Hdist]]).
Qed.

Lemma full_link_control_repair_witness :
  let c := [0; 16; 32; 0; 12; 48; 47; 155; 229; 76; 66; 204] in
  let tx := apply_crc_mask 0x969696 c in
  let '(out, _, ok) := ComputeAndCorrectFullLinkControlCrc [7; 8; 9] (tx.[4%nat <- Z.lxor (tx.[4%nat]) 0xA5]) 0x969696 in
  out = tx /\ ok = 1.
Proof.
  intros c tx. apply (proj1 (full_link_control_repair [7; 8; 9] 0x969696 eq_refl)); [reflexivity| |vm_compute; reflexivity|lia|lia].
  repeat constructor; unfold byte; lia.
Defined.

(** ** The registers of the shifted checks *)

Lemma ComputeCrcCCITT_run data :
  ComputeCrcCCITT data = Z.lxor (crc_run 16 0x1021 0 80 (fun i => Z.land (data.[i]) 1)) 0xFFFF.
Proof.
  unfold ComputeCrcCCITT, crc_run. cbv zeta. apply (f_equal (fun c => Z.lxor c 0xFFFF)), for_ext.
  intros i c _. unfold crc_step. rewrite shiftr_land1 by lia. change (Z.of_nat 16 - 1) with 15.
  unfold u16. change (wrap 16) with (wrap (Z.of_nat 16)). rewrite wrap_lxor by lia.
  destruct (Z.lxor (Z.b2z _) _ =? 0); cbn [negb]; [by rewrite Z.lxor_0_r|done].
Qed.

(** The register of [ComputeCrc9Bit] is kept in 16 bits; the lower nine are the
    CRC-9 register. *)
Lemma ComputeCrc9Bit_run data n :
  ComputeCrc9Bit data n = Z.lxor (crc_run 9 0x059 0 n (fun i => Z.land (data.[i]) 1)) 0x1FF.
Proof.
  unfold ComputeCrc9Bit. cbv zeta. apply (f_equal (fun c => Z.lxor c 0x1FF)). change 0x01FF with (Z.ones 9). rewrite Z.land_ones by lia. unfold crc_run.
  set (f := fun i CRC => if negb _ then _ else _).
  induction n as [|n IH]; [done|]. rewrite !for_S, <- IH by lia. generalize (for_ 0 n f 0). intros c.
  assert (E : wrap 9 (u16 (Z.shiftl c 1)) = wrap 9 (Z.shiftl (c mod 2 ^ 9) 1)).
  { unfold u16, wrap. rewrite !Z.shiftl_mul_pow2 by lia. Z.div_mod_to_equations. lia. }
  subst f. cbv beta. rewrite shiftr_land1 by lia. unfold crc_step. change (Z.of_nat 9 - 1) with 8. change (Z.of_nat 9) with 9.
  rewrite <- (Z.land_ones c 9) in * by lia. rewrite Z.land_spec, Z.ones_spec_low, andb_true_r by lia.
  change (?x mod 2 ^ 9) with (wrap 9 x).
  destruct (Z.lxor (Z.b2z _) _ =? 0); cbn [negb]; [by rewrite Z.lxor_0_r, E|].
  rewrite <- E. unfold u16. rewrite wrap_lxor by lia. change (wrap 16 (Z.shiftl c 1)) with (u16 (Z.shiftl c 1)).
  generalize (u16 (Z.shiftl c 1)). intros x. rewrite (wrap_lxor 9) by lia. done.
Qed.
