(* ===== verification/DmrBurst.v ===== *)
(** * [protocol/dmr/dmr_dburst.c]: data bursts

    A burst of 196 bits is decoded by the code its type calls for ([Bptc],
    [R34Viterbi] and [R34List], or none), checked ([DmrChecks]), its serial number
    compared with the expected one, and the result handed to one of six decoders.
    Those decoders are a parameter, [dispatch], a function of the call made to it
    and of the state it finds.  [dmr_reset_blocks] is from [dmr_block.c].  Printing,
    the DSP output file and the subtype string are not modelled. *)
From S2P Require Import Prelude LinearCode BlockCodes Bptc Rs129 BitPacking Crc R34Viterbi R34List DmrChecks.

(** ** State *)

Record dsd_opts := Opts { aggressive_framesync : Z; dmr_crc_relaxed_default : Z }.

(** What [dmr_reset_blocks] clears and nothing else here uses.  Arrays of two
    dimensions are flat, the unused text cells of [dmr_lrrp_gps] left out. *)
Record block_store := BlockStore {
  dmr_pdu_sf : list Z; data_block_poc : list Z; data_header_dd_format : list Z; data_header_bit_padding : list Z;
  data_byte_ctr : list Z; udt_uab_reserved : list Z; data_ks_start : list Z; data_header_blocks : list Z;
  dmr_lrrp_source : list Z; dmr_lrrp_target : list Z; dmr_data_target_is_group : list Z; dmr_cach_fragment : list Z;
  cap_plus_csbk_bits : list Z; cap_plus_block_num : list Z; cap_plus_csbk_crc_invalid : list Z;
  data_header_sap : list Z; dmr_lrrp_gps : list (list Z) }.

(** Arrays by slot; [data_block_crc_valid] has a row per slot. *)
Record dsd_state := State {
  currentslot : nat; input_interrupted : Z; dmr_embedded_signalling : list (list (list Z));
  tdma_carrier : Z; event_crc_invalid : list Z;
  data_p_head : list Z; data_conf_data : list Z; data_header_format : list Z; data_block_counter : list Z;
  data_block_crc_valid : list (list Z); data_header_valid : list Z; data_header_crc_invalid : list Z;
  data_dbsn_expected : list Z; data_dbsn_have : list Z; blocks : block_store }.

Definition dmr_reset_blocks (st : dsd_state) : dsd_state :=
  let z2 := [0; 0] in
  {| currentslot := currentslot st; input_interrupted := input_interrupted st;
     dmr_embedded_signalling := dmr_embedded_signalling st; tdma_carrier := tdma_carrier st;
     event_crc_invalid := event_crc_invalid st;
     data_p_head := z2; data_conf_data := z2; data_header_format := [7; 7]; data_block_counter := [1; 1];
     data_block_crc_valid := replicate 2 (replicate 127 0); data_header_valid := z2; data_header_crc_invalid := z2;
     data_dbsn_expected := z2; data_dbsn_have := z2;
     blocks := {| dmr_pdu_sf := replicate (2 * (24 * 128)) 0; data_block_poc := z2; data_header_dd_format := z2;
       data_header_bit_padding := z2; data_byte_ctr := z2; udt_uab_reserved := z2; data_ks_start := z2;
       data_header_blocks := [1; 1]; dmr_lrrp_source := z2; dmr_lrrp_target := z2; dmr_data_target_is_group := z2;
       dmr_cach_fragment := replicate (4 * 17) 1; cap_plus_csbk_bits := replicate (2 * (12 * 8 * 8)) 0;
       cap_plus_block_num := z2; cap_plus_csbk_crc_invalid := z2; data_header_sap := z2; dmr_lrrp_gps := [[]; []] |} |}.

Definition set_tdma_carrier (v : Z) (st : dsd_state) : dsd_state :=
  let '(State a b c _ e f g h i j k l m n o) := st in State a b c v e f g h i j k l m n o.
Definition set_event_crc_invalid (v : list Z) (st : dsd_state) : dsd_state :=
  let '(State a b c d _ f g h i j k l m n o) := st in State a b c d v f g h i j k l m n o.
Definition set_data_p_head (v : list Z) (st : dsd_state) : dsd_state :=
  let '(State a b c d e _ g h i j k l m n o) := st in State a b c d e v g h i j k l m n o.
Definition set_data_block_counter (v : list Z) (st : dsd_state) : dsd_state :=
  let '(State a b c d e f g h _ j k l m n o) := st in State a b c d e f g h v j k l m n o.
Definition set_data_block_crc_valid (v : list (list Z)) (st : dsd_state) : dsd_state :=
  let '(State a b c d e f g h i _ k l m n o) := st in State a b c d e f g h i v k l m n o.
Definition set_data_header_valid (v : list Z) (st : dsd_state) : dsd_state :=
  let '(State a b c d e f g h i j _ l m n o) := st in State a b c d e f g h i j v l m n o.
Definition set_data_header_crc_invalid (v : list Z) (st : dsd_state) : dsd_state :=
  let '(State a b c d e f g h i j k _ m n o) := st in State a b c d e f g h i j k v m n o.
Definition set_data_dbsn_expected (v : list Z) (st : dsd_state) : dsd_state :=
  let '(State a b c d e f g h i j k l _ n o) := st in State a b c d e f g h i j k l v n o.
Definition set_data_dbsn_have (v : list Z) (st : dsd_state) : dsd_state :=
  let '(State a b c d e f g h i j k l m _ o) := st in State a b c d e f g h i j k l m v o.

(** [state->data_block_crc_valid[slot][block] = v] *)
Definition set_block_crc (slot block : nat) (v : Z) (st : dsd_state) : dsd_state :=
  set_data_block_crc_valid (<[slot := (nth slot (data_block_crc_valid st) []).[block <- v]]> (data_block_crc_valid st)) st.

(** ** Profiles *)

Record dmr_dburst_profile := Profile { crcmask : Z; flags : Z; crclen : nat; pdu_len : nat; pdu_start : nat }.

Definition DMR_DBURST_F_BPTC : Z := 1.
Definition DMR_DBURST_F_TRELLIS : Z := 2.
Definition DMR_DBURST_F_EMB : Z := 4.
Definition DMR_DBURST_F_LC : Z := 8.
Definition DMR_DBURST_F_FULL : Z := 16.
Definition DMR_DBURST_F_UDT : Z := 128.

Definition profiles : list dmr_dburst_profile :=
  let LC := Z.lor DMR_DBURST_F_BPTC DMR_DBURST_F_LC in
  [Profile 0x6969 DMR_DBURST_F_BPTC 16 12 0; Profile 0x969696 LC 24 12 0; Profile 0x999999 LC 24 12 0;
   Profile 0xA5A5 DMR_DBURST_F_BPTC 16 12 0; Profile 0xAAAA DMR_DBURST_F_BPTC 16 12 0;
   Profile 0 DMR_DBURST_F_BPTC 0 12 0; Profile 0xCCCC DMR_DBURST_F_BPTC 16 12 0;
   Profile 0x0F0 DMR_DBURST_F_BPTC 9 12 0; Profile 0x1FF DMR_DBURST_F_TRELLIS 9 18 0; Profile 0 0 0 0 0;
   Profile 0x10F DMR_DBURST_F_FULL 9 24 0; Profile 0x3333 DMR_DBURST_F_BPTC 16 12 0].

Definition dmr_dburst_profile_resolve (databurst confirmed_data header_format : Z) : dmr_dburst_profile :=
  let out :=
    if databurst <=? 0x0B then nth (Z.to_nat databurst) profiles (Profile 0 0 0 0 0)
    else if databurst =? 0xEB then Profile 0 DMR_DBURST_F_EMB 5 9 0
    else Profile 0 DMR_DBURST_F_FULL 0 25 0 in
  if databurst =? 0x07 then
    let out := if confirmed_data =? 1 then Profile (crcmask out) (flags out) (crclen out) 10 2 else out in
    if header_format =? 0
    then Profile (crcmask out) (Z.lor (flags out) DMR_DBURST_F_UDT) (crclen out) (pdu_len out) (pdu_start out) else out
  else if databurst =? 0x08 then
    if confirmed_data =? 1 then Profile (crcmask out) (flags out) (crclen out) 16 2 else out
  else if databurst =? 0x0A then
    if confirmed_data =? 1 then Profile (crcmask out) (flags out) (crclen out) 22 2 else out
  else out.

Definition has_flag (p : dmr_dburst_profile) (f : Z) : bool := negb (Z.land (flags p) f =? 0).

Definition dmr_dburst_keeps_data_p_head (databurst : Z) : bool :=
  (databurst =? 0x06) || (databurst =? 0x07) || (databurst =? 0x08) || (databurst =? 0x0A) || (databurst =? 0x0B).

(** ** What a handler leaves in the context *)

Record decoded := Decoded {
  crc_correct : Z; irrecoverable_errors : Z; is_ras : bool; crc_original_validity : Z;
  dmr_pdu : list Z; dmr_pdu_bits : list Z; dbsn_for_seq : Z; dbsn_valid : bool }.

Definition ctx_init : decoded := Decoded 0 0 false 0 (replicate 25 0) (replicate 196 0) 0 false.

(** Uninitialised memory the decoders are given: the line buffers of the BPTC
    decoders, half of the Reed-Solomon syndrome, the Viterbi back pointers. *)
Record scratch := Scratch { buf1 : list Z; buf2 : list Z; buf3 : list Z; buf4 : list Z; buf5 : list Z;
  rs_upper : list Z; back_pointers : list Z; soft_back_pointers : list Z }.

Section Handlers.
Context (T : fec_tables) (K : scratch) (opts : dsd_opts).

(** ** BPTC (196,96) *)

Definition dmr_dburst_unpack_bptc_bytes (bptc_data_bits : list Z) : list Z :=
  map (fun i => for_ 0 8 (fun j b =>
    Z.lor (u8 (Z.shiftl b 1)) (Z.land (bptc_data_bits.[(8 * i + j)%nat]) 0x01)) 0) (seq 0 12).

(** The serial number, whether the CRC is right, and the state with the verdict of
    the block. *)
Definition dmr_dburst_bptc_crc_confirmed_1_2_rate (p : dmr_dburst_profile) (bptc_data_bits : list Z) (slot : nat)
    (st : dsd_state) : dsd_state * Z * Z :=
  let blockcounter := Z.to_nat (u8 ((data_block_counter st).[slot])) in
  let dbsn := u8 (convert_bits_into_output bptc_data_bits 7) in
  let crc_extracted := Z.lxor (u32 (convert_bits_into_output (drop 7 bptc_data_bits) 9)) (crcmask p) in
  let confdatabits := map (fun i => bptc_data_bits.[(i + 16)%nat]) (seq 0 80) ++ take 7 bptc_data_bits in
  let crc_computed := ComputeCrc9Bit confdatabits 87 in
  if crc_extracted =? crc_computed then (set_block_crc slot blockcounter 1 st, dbsn, 1)
  else (set_block_crc slot blockcounter 0 st, dbsn, 0).

(** The bytes (link control is repaired), the verdict, and the serial number of a
    confirmed block. *)
Definition dmr_dburst_handle_bptc_crc (p : dmr_dburst_profile) (databurst : Z) (bits bytes : list Z) (crc_extracted : Z)
    (slot : nat) (st : dsd_state) : dsd_state * list Z * Z * option Z :=
  if has_flag p DMR_DBURST_F_LC then
    let '(bytes, _, ok) := ComputeAndCorrectFullLinkControlCrc (rs_upper K) bytes (crcmask p) in (st, bytes, ok, None)
  else if ((data_conf_data st).[slot] =? 0) && (databurst =? 0x07) then (st, bytes, 1, None)
  else if ((data_conf_data st).[slot] =? 1) && (databurst =? 0x07) then
    let '(st, dbsn, ok) := dmr_dburst_bptc_crc_confirmed_1_2_rate p bits slot st in (st, bytes, ok, Some dbsn)
  else (st, bytes, if ComputeCrcCCITT bits =? crc_extracted then 1 else 0, None).

(** [dmr_pdu] and [dmr_pdu_bits]. *)
Definition dmr_dburst_copy_bptc_outputs (p : dmr_dburst_profile) (bits bytes pdu pdu_bits : list Z) : list Z * list Z :=
  let src_cap := 12%nat in
  if (src_cap <=? pdu_start p)%nat then (pdu, pdu_bits)
  else
    let '(bits, max_bytes) := dsd_unpack_bytes_to_bits (Some (drop (pdu_start p) bytes)) (src_cap - pdu_start p)
      (Some bits) 96 (pdu_len p) in
    let bits := default [] bits in
    (blit pdu 0 (take max_bytes (drop (pdu_start p) bytes)), blit pdu_bits 0 (take (max_bytes * 8) bits)).

Definition dmr_dburst_handle_bptc (p : dmr_dburst_profile) (databurst : Z) (info : list Z) (slot : nat)
    (st : dsd_state) (d : decoded) : dsd_state * decoded :=
  let deinterleaved := BPTCDeInterleaveDMRData info (replicate 196 0) in
  let '(bits, r, errors) := BPTC_196x96_Extract_Data T (buf1 K) (buf2 K) (buf3 K) (buf4 K) deinterleaved in
  let reserved := Z.lor (Z.lor (Z.land (r.[0%nat]) 0x01) (Z.land (Z.shiftl (r.[1%nat]) 1) 0x02))
    (Z.land (Z.shiftl (r.[2%nat]) 2) 0x04) in
  let bytes := dmr_dburst_unpack_bptc_bytes bits in
  let crc_extracted := for_ 0 (crclen p) (fun i e =>
    Z.lor (u32 (Z.shiftl e 1)) (Z.land (bits.[(i + 96 - crclen p)%nat]) 1)) 0 in
  let crc_extracted := Z.lxor crc_extracted (crcmask p) in
  let blockcounter := if ((data_conf_data st).[slot] =? 1) && (databurst =? 0x07)
    then Z.to_nat (u8 ((data_block_counter st).[slot])) else 0%nat in
  let '(st, bytes, correct, dbsn) := dmr_dburst_handle_bptc_crc p databurst bits bytes crc_extracted slot st in
  let original := correct in
  let ras := is_ras d || ((aggressive_framesync opts =? 0) && (correct =? 0) && (errors =? 0) && (reserved =? 4)) in
  let ras := if bytes.[1%nat] =? 0x68 then false else ras in
  let '(st, correct) :=
    if ras then
      (if (databurst =? 0x07) && ((data_conf_data st).[slot] =? 1) then set_block_crc slot blockcounter 2 st else st, 1)
    else (st, correct) in
  let st := if (databurst =? 0x04) || (databurst =? 0x06)
    then set_block_crc slot 0 (if original =? 0 then 0 else 1) st else st in
  let '(pdu, pdu_bits) := dmr_dburst_copy_bptc_outputs p bits bytes (dmr_pdu d) (dmr_pdu_bits d) in
  (st, Decoded correct errors ras original pdu pdu_bits (default (dbsn_for_seq d) dbsn)
         (if dbsn then true else dbsn_valid d)).

(** ** Embedded link control *)

(** The 128 bits of voice frames B to E as the matrix the decoder reads. *)
Definition emb_matrix (signalling : list (list Z)) : list Z :=
  let '(m, _, _) := for_ 0 16 (fun i s => for_ 0 8 (fun j '(m, k, burst) =>
      let m := m.[(16 * j + i)%nat <- (nth burst signalling []).[(k + 8)%nat]] in
      let k := S k in
      if (32 <=? k)%nat then (m, 0%nat, S burst) else (m, k, burst)) s) (replicate 128 0, 0%nat, 1%nat) in m.

Definition dmr_dburst_handle_emb (slot : nat) (st : dsd_state) (d : decoded) : decoded :=
  let '(lc, errors) := BPTC_128x77_Extract_Data T (buf5 K) (emb_matrix (nth slot (dmr_embedded_signalling st) [])) in
  let crc_extracted := u32 (convert_bits_into_output (drop 72 lc) 5) in
  let crc_computed := ComputeCrc5Bit lc in
  Decoded (if crc_extracted =? crc_computed then 1 else 0) errors (is_ras d) (crc_original_validity d)
    (blit (dmr_pdu d) 0 (map (fun i => u8 (convert_bits_into_output (drop (i * 8) lc) 8)) (seq 0 9)))
    (blit (dmr_pdu_bits d) 0 (take 72 lc)) (dbsn_for_seq d) (dbsn_valid d).

(** ** Rate 3/4 *)

Definition unpack18 (bytes18 bits : list Z) : list Z :=
  default [] (fst (dsd_unpack_bytes_to_bits (Some bytes18) 18 (Some bits) 196 18)).

(** The serial number of a candidate and whether its CRC is right.  The bits are
    unpacked over zeros, as [DSD_MEMSET] leaves them. *)
Definition dmr_dburst_trellis_candidate_metrics (mask : Z) (bytes18 : list Z) : Z * bool :=
  let bits := unpack18 bytes18 (replicate 196 0) in
  let cand_dbsn := u8 (convert_bits_into_output bits 7) in
  let cand_ext := Z.lxor (u32 (convert_bits_into_output (drop 7 bits) 9)) mask in
  let confdatabits := map (fun i => bits.[(i + 16)%nat]) (seq 0 128) ++ take 7 bits in
  let cand_comp := ComputeCrc9Bit confdatabits 135 in
  (cand_dbsn, cand_ext =? cand_comp).

Definition candidate_at (candidates : list dmr_r34_candidate) (i : Z) : dmr_r34_candidate :=
  nth (Z.to_nat i) candidates (Candidate 0 []).

Definition dmr_dburst_trellis_lower_metric (candidates : list dmr_r34_candidate) (current candidate : Z) : Z :=
  if (current <? 0) || (cand_metric (candidate_at candidates candidate) <? cand_metric (candidate_at candidates current))
  then candidate else current.

Definition dmr_dburst_trellis_choose_candidate_index (mask : Z) (have : bool) (expected : Z)
    (candidates : list dmr_r34_candidate) : Z :=
  let '(best_crc_dbsn, best_crc, best_dbsn, best_any) :=
    for_ 0 (length candidates) (fun ci '(best_crc_dbsn, best_crc, best_dbsn, best_any) =>
      let i := Z.of_nat ci in
      let '(cand_dbsn, cand_crc_ok) := dmr_dburst_trellis_candidate_metrics mask (cand_bytes18 (candidate_at candidates i)) in
      let lower cur := dmr_dburst_trellis_lower_metric candidates cur i in
      let best_any := lower best_any in
      let '(best_crc_dbsn, best_dbsn) :=
        if have && (cand_dbsn =? expected) then
          if cand_crc_ok : bool then (lower best_crc_dbsn, best_dbsn) else (best_crc_dbsn, lower best_dbsn)
        else (best_crc_dbsn, best_dbsn) in
      let best_crc := if cand_crc_ok then lower best_crc else best_crc in
      (best_crc_dbsn, best_crc, best_dbsn, best_any)) (-1, -1, -1, -1) in
  if 0 <=? best_crc_dbsn then best_crc_dbsn
  else if 0 <=? best_crc then best_crc
  else if 0 <=? best_dbsn then best_dbsn
  else best_any.

(** [memcmp(a, b, 18) == 0] *)
Definition memcmp18 (a b : list Z) : bool := forallb (fun i => a.[i] =? b.[i]) (seq 0 18).

Definition dmr_dburst_trellis_add_candidate (reliab98 : option (list Z)) (tdibits : list Z) (capacity : nat)
    (candidates : list dmr_r34_candidate) (bytes18 : list Z) : list dmr_r34_candidate :=
  if (capacity <=? length candidates)%nat then candidates
  else if existsb (fun c => memcmp18 (cand_bytes18 c) bytes18) candidates then candidates
  else
    match dmr_r34_candidate_metric (Some tdibits) reliab98 (Some bytes18) (Some 0) with
    | (Some metric, 0) => candidates ++ [Candidate metric bytes18]
    | _ => candidates
    end.

Definition dmr_dburst_trellis_lowest_metric_index (candidates : list dmr_r34_candidate) : Z :=
  for_ 0 (length candidates) (fun i best => dmr_dburst_trellis_lower_metric candidates best (Z.of_nat i)) (-1).

Definition R34_LIST_CAPACITY : nat := 32.
Definition R34_POOL_CAPACITY : nat := 34.

(** The candidates: the hard decoder's, the soft decoder's, the list decoder's. *)
Definition trellis_pool (reliab98 : option (list Z)) (tdibits : list Z) (confirmed : bool) : list dmr_r34_candidate :=
  let add := dmr_dburst_trellis_add_candidate reliab98 tdibits R34_POOL_CAPACITY in
  let decoded := replicate 18 0 in
  let '(decoded, candidates) :=
    match dmr_r34_viterbi_decode (back_pointers K) (Some tdibits) (Some decoded) with
    | (Some decoded, 0) => (decoded, add [] decoded)
    | _ => (decoded, [])
    end in
  let candidates :=
    match reliab98 with
    | Some _ =>
        match dmr_r34_viterbi_decode_soft (soft_back_pointers K) (Some tdibits) reliab98 (Some decoded) with
        | (Some decoded, 0) => add candidates decoded
        | _ => candidates
        end
    | None => candidates
    end in
  if confirmed || negb (if reliab98 then true else false) then
    match dmr_r34_viterbi_decode_list (Some tdibits) reliab98 (Some (replicate R34_LIST_CAPACITY (Candidate 0 (replicate 18 0))))
      (Z.of_nat R34_LIST_CAPACITY) (Some 0) with
    | (Some l, Some list_count, 0) =>
        for_ 0 (Z.to_nat list_count) (fun i cs => add cs (cand_bytes18 (candidate_at l (Z.of_nat i)))) candidates
    | _ => candidates
    end
  else candidates.

Definition dmr_dburst_pick_trellis_payload (p : dmr_dburst_profile) (reliab98 : option (list Z)) (tdibits : list Z) (slot : nat)
    (st : dsd_state) (trellis_return : list Z) : list Z :=
  let confirmed := (data_conf_data st).[slot] =? 1 in
  let candidates := trellis_pool reliab98 tdibits confirmed in
  let chosen :=
    if confirmed then dmr_dburst_trellis_choose_candidate_index (crcmask p) (negb ((data_dbsn_have st).[slot] =? 0))
      ((data_dbsn_expected st).[slot]) candidates
    else dmr_dburst_trellis_lowest_metric_index candidates in
  if 0 <=? chosen then cand_bytes18 (candidate_at candidates chosen) else trellis_return.

(** The verdict on the block, on its 144 bits. *)
Definition dmr_dburst_trellis_update_confirmed_crc (p : dmr_dburst_profile) (bits : list Z) (slot : nat) (st : dsd_state)
  : dsd_state * Z :=
  if (data_conf_data st).[slot] =? 0 then (st, 1)
  else
    let blockcounter := Z.to_nat (u8 ((data_block_counter st).[slot])) in
    let crc_extracted := Z.lxor (u32 (convert_bits_into_output (drop 7 bits) 9)) (crcmask p) in
    let confdatabits := map (fun i => bits.[(i + 16)%nat]) (seq 0 128) ++ take 7 bits in
    let crc_computed := ComputeCrc9Bit confdatabits 135 in
    if crc_extracted =? crc_computed then (set_block_crc slot blockcounter 1 st, 1)
    else (set_block_crc slot blockcounter 0 st, 0).

(** [dmr_pdu_bits] is zero when the chosen payload is unpacked: it still is as the
    context was made, or the last candidate's metrics left it zero from bit 144 on. *)
Definition dmr_dburst_handle_trellis (p : dmr_dburst_profile) (reliab98 : option (list Z)) (info : list Z) (slot : nat)
    (st : dsd_state) (d : decoded) : dsd_state * decoded :=
  let tdibits := map (fun i => u8 (Z.lor (Z.shiftl (info.[(i * 2)%nat]) 1) (info.[(i * 2 + 1)%nat]))) (seq 0 98) in
  let trellis_return := dmr_dburst_pick_trellis_payload p reliab98 tdibits slot st (replicate 18 0) in
  let pdu := for_ 0 (pdu_len p) (fun i pdu => pdu.[i <- trellis_return.[(i + pdu_start p)%nat]]) (dmr_pdu d) in
  let bits := unpack18 trellis_return (replicate 196 0) in
  let '(dbsn, valid) := if (data_conf_data st).[slot] =? 1 then (u8 (convert_bits_into_output bits 7), true)
    else (dbsn_for_seq d, dbsn_valid d) in
  let '(st, correct) := dmr_dburst_trellis_update_confirmed_crc p bits slot st in
  let start := if (pdu_start p <? 18)%nat then pdu_start p else 18%nat in
  let '(bits, _) := dsd_unpack_bytes_to_bits (Some (drop start trellis_return)) (18 - start) (Some (replicate 196 0)) 196 (pdu_len p) in
  (st, Decoded correct 0 (is_ras d) (crc_original_validity d) pdu (default [] bits) dbsn valid).

(** ** Rate 1 *)

Definition dmr_dburst_handle_full (p : dmr_dburst_profile) (info : list Z) (slot : nat) (st : dsd_state) (d : decoded)
  : dsd_state * decoded :=
  let head_bytes := if (pdu_start p <? 12)%nat then (12 - pdu_start p)%nat else 0%nat in
  let head_bits := (pdu_start p * 8)%nat in
  let head_avail := if (head_bits <? 196)%nat then (196 - head_bits)%nat else 0%nat in
  let pdu := default [] (fst (dsd_pack_bits_to_bytes (Some (drop head_bits info)) head_avail (Some (dmr_pdu d)) 25 head_bytes)) in
  let tail := default [] (fst (dsd_pack_bits_to_bytes (Some (drop 100 info)) (196 - 100)
    (Some (drop head_bytes pdu)) (25 - head_bytes) 12)) in
  let pdu := take head_bytes pdu ++ tail in
  if (data_conf_data st).[slot] =? 0 then
    (st, Decoded 1 0 (is_ras d) (crc_original_validity d) pdu info (dbsn_for_seq d) (dbsn_valid d))
  else
    let blockcounter := Z.to_nat (u8 ((data_block_counter st).[slot])) in
    let dbsn := u8 (convert_bits_into_output info 7) in
    let crc_extracted := Z.lxor (u32 (convert_bits_into_output (drop 7 info) 9)) (crcmask p) in
    let confdatabits := map (fun i => info.[i]) (seq 16 80) ++ map (fun i => info.[i]) (seq 100 96) ++ take 7 info in
    let crc_computed := ComputeCrc9Bit confdatabits 183 in
    let '(st, correct) := if crc_extracted =? crc_computed then (set_block_crc slot blockcounter 1 st, 1)
      else (set_block_crc slot blockcounter 0 st, 0) in
    (st, Decoded correct 0 (is_ras d) (crc_original_validity d) pdu info dbsn true).

(** ** The sequence of serial numbers

    [false]: the burst is dropped. *)
Definition dmr_dburst_update_dbsn_sequence (databurst : Z) (slot : nat) (d : decoded) (st : dsd_state) : dsd_state * bool :=
  if negb ((databurst =? 0x07) || (databurst =? 0x08) || (databurst =? 0x0A))
     || negb ((data_conf_data st).[slot] =? 1) || negb (dbsn_valid d)
  then (st, true)
  else
    let next := u8 (Z.land (dbsn_for_seq d + 1) 0x7F) in
    if (data_dbsn_have st).[slot] =? 0 then
      if (crc_correct d =? 1) || (aggressive_framesync opts =? 0)
      then (set_data_dbsn_have ((data_dbsn_have st).[slot <- 1])
             (set_data_dbsn_expected ((data_dbsn_expected st).[slot <- next]) st), true)
      else (st, true)
    else if (crc_correct d =? 1) && negb (dbsn_for_seq d =? (data_dbsn_expected st).[slot])
            && (aggressive_framesync opts =? 1)
    then (dmr_reset_blocks st, false)
    else if crc_correct d =? 1
    then (set_data_dbsn_expected ((data_dbsn_expected st).[slot <- next]) st, true)
    else (st, true).

(** ** The decoder a burst goes to *)

Inductive burst_call :=
  | Call_dmr_pi (pdu : list Z) (crc_correct irrecoverable_errors : Z)
  | Call_dmr_flco (pdu_bits : list Z) (crc_correct irrecoverable_errors type : Z)
  | Call_dmr_cspdu (pdu_bits pdu : list Z) (crc_correct irrecoverable_errors : Z)
  | Call_dmr_block_assembler (pdu : list Z) (len : nat) (databurst type : Z)
  | Call_dmr_dheader_classified (pdu pdu_bits : list Z) (crc_flags irrecoverable_errors : Z)
  | Call_lip_protocol_decoder (pdu_bits : list Z)
  | No_call.

(** The call, and the state it finds. *)
Definition dmr_dburst_dispatch_by_type (p : dmr_dburst_profile) (databurst crc_flags : Z) (slot : nat) (d : decoded)
    (st : dsd_state) : dsd_state * burst_call :=
  let crc := crc_correct d in
  let irr := irrecoverable_errors d in
  let assemble type := Call_dmr_block_assembler (dmr_pdu d) (pdu_len p) databurst type in
  if databurst =? 0x00 then (st, Call_dmr_pi (dmr_pdu d) crc irr)
  else if databurst =? 0x01 then (st, Call_dmr_flco (dmr_pdu_bits d) crc irr 1)
  else if databurst =? 0x02 then (st, Call_dmr_flco (dmr_pdu_bits d) crc irr 2)
  else if databurst =? 0x03 then (st, Call_dmr_cspdu (dmr_pdu_bits d) (dmr_pdu d) crc irr)
  else if databurst =? 0x04 then
    let st := set_data_block_counter ((data_block_counter st).[slot <- 0]) st in
    let st := set_data_header_valid ((data_header_valid st).[slot <-
      if negb (crc =? 0) && (irr =? 0) then 1 else 0]) st in
    let st := set_data_header_crc_invalid ((data_header_crc_invalid st).[slot <- crc_flags]) st in
    (st, assemble 2)
  else if databurst =? 0x05 then (st, assemble 2)
  else if databurst =? 0x06 then (st, Call_dmr_dheader_classified (dmr_pdu d) (dmr_pdu_bits d) crc_flags irr)
  else if databurst =? 0x07 then (st, assemble (if has_flag p DMR_DBURST_F_UDT then 3 else 1))
  else if (databurst =? 0x08) || (databurst =? 0x0A) then (st, assemble 1)
  else if databurst =? 0x0B then
    let usbd_st := u8 (convert_bits_into_output (dmr_pdu_bits d) 4) in
    let crc_rejected := (crc =? 0) && negb (aggressive_framesync opts =? 0) && (dmr_crc_relaxed_default opts =? 0) in
    (st, if (usbd_st =? 0) && negb crc_rejected then Call_lip_protocol_decoder (dmr_pdu_bits d) else No_call)
  else if databurst =? 0xEB then (st, Call_dmr_flco (dmr_pdu_bits d) crc irr 3)
  else (st, No_call).

Definition dmr_dburst_proves_tdma_carrier (databurst : Z) (d : decoded) (st : dsd_state) : bool :=
  existsb (Z.eqb databurst) [0x00; 0x01; 0x02; 0x03; 0x04; 0x06; 0x0B]
  && negb (crc_original_validity d =? 0) && negb (is_ras d) && (irrecoverable_errors d =? 0) && (input_interrupted st =? 0).

Definition DSD_CRC_FAILED : Z := 1.
Definition DSD_CRC_RAS_UNVERIFIED : Z := 2.

Definition burst_crc_flags (databurst : Z) (d : decoded) : Z :=
  if databurst =? 0x05 then 0
  else if is_ras d then DSD_CRC_RAS_UNVERIFIED
  else if crc_correct d =? 0 then DSD_CRC_FAILED else 0.

(** The code a burst is decoded with, up to [dmr_dburst_update_dbsn_sequence]. *)
Definition burst_decode (info : list Z) (databurst : Z) (reliab98 : option (list Z)) (st : dsd_state)
  : dmr_dburst_profile * dsd_state * decoded :=
  let slot := currentslot st in
  let p := dmr_dburst_profile_resolve databurst ((data_conf_data st).[slot]) ((data_header_format st).[slot]) in
  let st := if dmr_dburst_keeps_data_p_head databurst then st else set_data_p_head ((data_p_head st).[slot <- 0]) st in
  let d := ctx_init in
  let '(st, d) := if has_flag p DMR_DBURST_F_BPTC then dmr_dburst_handle_bptc p databurst info slot st d else (st, d) in
  let d := if has_flag p DMR_DBURST_F_EMB then dmr_dburst_handle_emb slot st d else d in
  let '(st, d) := if has_flag p DMR_DBURST_F_TRELLIS then dmr_dburst_handle_trellis p reliab98 info slot st d else (st, d) in
  let '(st, d) := if has_flag p DMR_DBURST_F_FULL then dmr_dburst_handle_full p info slot st d else (st, d) in
  (p, st, d).

Context (dispatch : burst_call -> dsd_state -> dsd_state).

Definition dmr_data_burst_handler (info : list Z) (databurst : Z) (reliab98 : option (list Z)) (st : dsd_state) : dsd_state :=
  let slot := currentslot st in
  let '(p, st, d) := burst_decode info databurst reliab98 st in
  let '(st, go) := dmr_dburst_update_dbsn_sequence databurst slot d st in
  if go : bool then
    let crc_flags := burst_crc_flags databurst d in
    let st := if dmr_dburst_proves_tdma_carrier databurst d st then set_tdma_carrier 1 st else st in
    let saved_crc_invalid := (event_crc_invalid st).[slot] in
    let st := set_event_crc_invalid ((event_crc_invalid st).[slot <- u8 (Z.lor saved_crc_invalid crc_flags)]) st in
    let '(st, call) := dmr_dburst_dispatch_by_type p databurst crc_flags slot d st in
    let st := match call with No_call => st | _ => dispatch call st end in
    set_event_crc_invalid ((event_crc_invalid st).[slot <- saved_crc_invalid]) st
  else st.
End Handlers.

(** ** Control bursts

    Types with a CRC-CCITT of their own: PI header, CSBK, MBC header, data header
    and unified single block data. *)

Definition control_types : list Z := [0x00; 0x03; 0x04; 0x06; 0x0B].

Definition control_mask (databurst : Z) : Z := crcmask (dmr_dburst_profile_resolve databurst 0 0).

Definition low_bits (l : list Z) : list Z := map (fun b => Z.land b 1) l.

Lemma nth_low_bits l i : (low_bits l).[i] = Z.land (l.[i]) 1.
Proof.
  unfold low_bits. rewrite !nth_lookup, list_lookup_fmap. by destruct (l !! i).
Qed.

Lemma bits_low_bits l : bits (low_bits l).
Proof. apply Forall_fmap, Forall_true. intros x. apply land1_bit. Qed.

Lemma nth_unpack_bytes l i : (i < 12)%nat ->
  (dmr_dburst_unpack_bptc_bytes l).[i] = bits_value 8 (fun j => (low_bits l).[(8 * i + j)%nat]).
Proof.
  intros Hi. unfold dmr_dburst_unpack_bptc_bytes. rewrite nth_map_seq, Nat.add_0_l by done.
  etransitivity; [apply (proj1 (collect_lor 8 8 ltac:(lia) (fun j => Z.land (l.[(8 * i + j)%nat]) 1) (fun j _ => land1_bit _)))|].
  apply bits_value_ext. intros j Hj. by rewrite nth_low_bits.
Qed.

Lemma length_unpack_bytes l : length (dmr_dburst_unpack_bptc_bytes l) = 12%nat.
Proof. unfold dmr_dburst_unpack_bptc_bytes. len. Qed.

(** The bytes are unpacked to the bits they were packed from. *)
Lemma copy_outputs p l : pdu_start p = 0%nat -> pdu_len p = 12%nat -> length l = 96%nat ->
  dmr_dburst_copy_bptc_outputs p l (dmr_dburst_unpack_bptc_bytes l) (replicate 25 0) (replicate 196 0)
  = (dmr_dburst_unpack_bptc_bytes l ++ replicate 13 0, low_bits l ++ replicate 100 0).
Proof.
  intros Hs Hn Hl. unfold dmr_dburst_copy_bptc_outputs. rewrite Hs, Hn, drop_0. cbn [Nat.leb Nat.sub].
  set (bytes := dmr_dburst_unpack_bptc_bytes l). assert (Hb : length bytes = 12%nat) by apply length_unpack_bytes.
  unfold dsd_unpack_bytes_to_bits, unpack_bounded. rewrite clamp_to_capacity_min.
  change (12 `min` (12 `min` (96 / 8)))%nat with 12%nat. rewrite unpack_octets. cbn [default].
  destruct (unpack_spec bytes 12 l ltac:(lia)) as (H1 & H2 & _). cbv zeta in H1, H2.
  set (un := for_ 0 12 _ l) in *. unfold id.
  assert (E : un = low_bits l).
  { apply list_eq_nth; [by rewrite H1; unfold low_bits; rewrite length_map|]. intros a Ha. rewrite H1, Hl in Ha.
    replace a with (a / 8 * 8 + a mod 8)%nat by (pose proof (Nat.div_mod_eq a 8); lia).
    pose proof (Nat.mod_upper_bound a 8 ltac:(lia)). assert (a / 8 < 12)%nat by (apply Nat.Div0.div_lt_upper_bound; lia).
    rewrite H2 by lia. unfold bytes. rewrite nth_unpack_bytes by lia.
    rewrite (testbit_bits_value 8) by (lia || (intros; apply bits_nth, bits_low_bits)).
    f_equal. lia. }
  rewrite E. rewrite (take_ge bytes) by lia. rewrite (take_ge (low_bits l)) by (unfold low_bits; rewrite length_map; lia).
  unfold blit. rewrite !take_0, Hb. cbn [app Nat.add]. rewrite drop_replicate.
  assert (length (low_bits l) = 96%nat) as -> by (unfold low_bits; by rewrite length_map). by rewrite drop_replicate.
Qed.

Lemma length_extracted m : length (fst (bptc_196x96_extract_payload_and_r m)) = 96%nat.
Proof. reflexivity. Qed.

Lemma length_extract_data T j1 j2 j3 j4 input : length (fst (fst (BPTC_196x96_Extract_Data T j1 j2 j3 j4 input))) = 96%nat.
Proof.
  unfold BPTC_196x96_Extract_Data. do 4 (destruct (bptc_196x96_decode_rows _ _ _) as [? ?] || destruct (bptc_196x96_decode_cols _ _ _) as [? ?]).
  pose proof (length_extracted l2) as H. destruct (bptc_196x96_extract_payload_and_r l2). exact H.
Qed.

#[local] Opaque BPTC_196x96_Extract_Data BPTCDeInterleaveDMRData dmr_dburst_unpack_bptc_bytes dmr_dburst_copy_bptc_outputs
  ComputeCrcCCITT set_block_crc set_data_p_head.

(** The check bits as received are those of the message under the mask. *)
Definition crc16_matches (mask : Z) (bits : list Z) : bool :=
  ComputeCrcCCITT bits =? Z.lxor (bits_value 16 (fun i => Z.land (bits.[(80 + i)%nat]) 1)) mask.

Section Control.
Context (T : fec_tables) (K : scratch) (opts : dsd_opts) (info : list Z) (databurst : Z) (Htype : In databurst control_types).

Definition control_extract : list Z * list Z * Z :=
  BPTC_196x96_Extract_Data T (buf1 K) (buf2 K) (buf3 K) (buf4 K) (BPTCDeInterleaveDMRData info (replicate 196 0)).

Definition control_bits : list Z := fst (fst control_extract).
Definition control_errors : Z := snd control_extract.
Definition control_ok : Z := if crc16_matches (control_mask databurst) control_bits then 1 else 0.

(** Reserved bits that mark restricted access systems. *)
Definition control_reserved : Z :=
  let r := snd (fst control_extract) in
  Z.lor (Z.lor (Z.land (r.[0%nat]) 0x01) (Z.land (Z.shiftl (r.[1%nat]) 1) 0x02)) (Z.land (Z.shiftl (r.[2%nat]) 2) 0x04).

Definition control_ras : bool :=
  if (dmr_dburst_unpack_bptc_bytes control_bits).[1%nat] =? 0x68 then false
  else (aggressive_framesync opts =? 0) && (control_ok =? 0) && (control_errors =? 0) && (control_reserved =? 4).

Definition control_state (st : dsd_state) : dsd_state :=
  let slot := currentslot st in
  let st := if dmr_dburst_keeps_data_p_head databurst then st else set_data_p_head ((data_p_head st).[slot <- 0]) st in
  if (databurst =? 0x04) || (databurst =? 0x06) then set_block_crc slot 0 control_ok st else st.

Lemma control_profile confirmed format :
  dmr_dburst_profile_resolve databurst confirmed format = Profile (control_mask databurst) DMR_DBURST_F_BPTC 16 12 0.
Proof. destruct Htype as [<-|[<-|[<-|[<-|[<-|[]]]]]]; reflexivity. Qed.

Lemma control_not_r12 : (databurst =? 0x07) = false.
Proof. destruct Htype as [<-|[<-|[<-|[<-|[<-|[]]]]]]; reflexivity. Qed.

Lemma control_crc_extracted bits :
  for_ 0 16 (fun i e => Z.lor (u32 (Z.shiftl e 1)) (Z.land (bits.[(i + 96 - 16)%nat]) 1)) 0
  = bits_value 16 (fun i => Z.land (bits.[(80 + i)%nat]) 1).
Proof.
  rewrite (for_ext 0 16 _ (fun i e => Z.lor (wrap (Z.of_nat 32) (Z.shiftl e 1)) (Z.land (bits.[(80 + i)%nat]) 1))).
  - apply (collect_lor 32 16 ltac:(lia) (fun i => Z.land (bits.[(80 + i)%nat]) 1)). intros. apply land1_bit.
  - intros i e Hi. do 3 f_equal. f_equal. lia.
Qed.

(** What every control burst is decoded to. *)
Lemma control_decode reliab98 st :
  burst_decode T K opts info databurst reliab98 st =
  (Profile (control_mask databurst) DMR_DBURST_F_BPTC 16 12 0, control_state st,
   Decoded (if control_ras then 1 else control_ok) control_errors control_ras control_ok
     (dmr_dburst_unpack_bptc_bytes control_bits ++ replicate 13 0) (low_bits control_bits ++ replicate 100 0) 0 false).
Proof.
  unfold burst_decode. rewrite control_profile. set (st1 := if dmr_dburst_keeps_data_p_head databurst then st else _).
  cbn [has_flag flags DMR_DBURST_F_BPTC DMR_DBURST_F_EMB DMR_DBURST_F_TRELLIS DMR_DBURST_F_FULL].
  change (has_flag _ DMR_DBURST_F_BPTC) with true. change (has_flag _ DMR_DBURST_F_EMB) with false.
  change (has_flag _ DMR_DBURST_F_TRELLIS) with false. change (has_flag _ DMR_DBURST_F_FULL) with false. cbv iota.
  unfold dmr_dburst_handle_bptc, dmr_dburst_handle_bptc_crc. rewrite control_not_r12, !andb_false_r.
  change (has_flag _ DMR_DBURST_F_LC) with false. cbn [crclen crcmask].
  pose proof (length_extract_data T (buf1 K) (buf2 K) (buf3 K) (buf4 K) (BPTCDeInterleaveDMRData info (replicate 196 0))) as Hl.
  change (BPTC_196x96_Extract_Data T _ _ _ _ _) with control_extract in *.
  unfold control_state, control_ras, control_ok, crc16_matches, control_reserved, control_bits, control_errors.
  fold st1.
  destruct control_extract as [[bits r] errors]. cbn [fst snd] in *. rewrite control_crc_extracted.
  unfold ctx_init. cbn [is_ras dmr_pdu dmr_pdu_bits dbsn_for_seq dbsn_valid orb default]. rewrite copy_outputs; [|reflexivity|reflexivity|exact Hl].
  set (ok := if ComputeCrcCCITT bits =? _ then 1 else 0).
  set (ras := if _ =? 0x68 then false else _). assert (Hok : (if ok =? 0 then 0 else 1) = ok) by (subst ok; destruct (ComputeCrcCCITT bits =? _); reflexivity).
  rewrite Hok. by destruct ras.
Qed.
End Control.

(** The frame sent for 80 bits: the CRC-16 under the mask of the type follows. *)
Definition control_frame (mask : Z) (data : list Z) : list Z := framed 16 (Z.lxor (ComputeCrcCCITT data) mask) data.

Lemma ComputeCrcCCITT_ext a b : (forall i, (i < 80)%nat -> Z.land (a.[i]) 1 = Z.land (b.[i]) 1) ->
  ComputeCrcCCITT a = ComputeCrcCCITT b.
Proof. intros H. rewrite !ComputeCrcCCITT_run. by rewrite (crc_run_ext _ _ _ _ _ (fun i => Z.land (b.[i]) 1)). Qed.

Lemma crc16_matches_ext mask a b : (forall i, (i < 96)%nat -> Z.land (a.[i]) 1 = Z.land (b.[i]) 1) ->
  crc16_matches mask a = crc16_matches mask b.
Proof.
  intros H. unfold crc16_matches. rewrite (ComputeCrcCCITT_ext a b) by (intros; apply H; lia).
  by rewrite (bits_value_ext 16 (fun i => Z.land (a.[(80 + i)%nat]) 1) (fun i => Z.land (b.[(80 + i)%nat]) 1)) by (intros; apply H; lia).
Qed.

Lemma land1_land1 x : Z.land (Z.land x 1) 1 = Z.land x 1.
Proof. apply land1_id, land1_bit. Qed.

Lemma crc16_matches_low mask l rest : length l = 96%nat -> crc16_matches mask (low_bits l ++ rest) = crc16_matches mask l.
Proof.
  intros Hl. apply crc16_matches_ext. intros i Hi. rewrite app_nth1 by (unfold low_bits; rewrite length_map; lia).
  rewrite nth_low_bits. apply land1_land1.
Qed.

Lemma crc16_range data : 0 <= ComputeCrcCCITT data < 2 ^ Z.of_nat 16.
Proof. rewrite ComputeCrcCCITT_run. apply lxor_range; [lia| |by_decide]. apply crc_run_range; [lia|by_decide|by_decide]. Qed.

Lemma control_frame_spec mask data : bits data -> length data = 80%nat -> 0 <= mask < 2 ^ 16 ->
  length (control_frame mask data) = 96%nat /\ bits (control_frame mask data) /\
  crc16_matches mask (control_frame mask data) = true.
Proof.
  intros Hb Hl Hm. unfold control_frame. set (c := Z.lxor _ mask).
  assert (Hc : 0 <= c < 2 ^ Z.of_nat 16) by (apply lxor_range; [lia|apply crc16_range|exact Hm]).
  split; [unfold framed; rewrite length_app, Hl; by rewrite (proj1 (crc_bits_spec 16 c))|]. split; [by apply bits_framed|].
  unfold crc16_matches. apply Z.eqb_eq.
  rewrite (ComputeCrcCCITT_ext (framed 16 c data) data) by (intros; by rewrite framed_data by lia).
  rewrite (bits_value_ext 16 _ (fun i => (framed 16 c data).[(length data + i)%nat])).
  - rewrite framed_value by done. unfold c. by rewrite Z.lxor_assoc, Z.lxor_nilpotent, Z.lxor_0_r.
  - intros i Hi. rewrite Hl. apply land1_id, bits_nth. by apply bits_framed.
Qed.

(** C10: no control burst passes for checked when its check fails.  Whatever is
    received and in both modes, the burst reaches its decoder without a CRC flag
    exactly when the CRC-16 of the bits handed over is right; only such a burst
    without decoding errors proves the carrier; and a failed check is reported as
    right only as a restricted access burst, with its flag, in the relaxed mode. *)
Theorem control_burst_integrity T K opts info databurst reliab98 st :
  In databurst control_types ->
  let '(_, st1, d) := burst_decode T K opts info databurst reliab98 st in
  let right := crc16_matches (control_mask databurst) (dmr_pdu_bits d) in
  (burst_crc_flags databurst d = 0 <-> right = true) /\
  (dmr_dburst_proves_tdma_carrier databurst d st1 = true -> right = true /\ irrecoverable_errors d = 0) /\
  (crc_correct d = 1 -> right = false -> burst_crc_flags databurst d = DSD_CRC_RAS_UNVERIFIED /\ aggressive_framesync opts = 0).
Proof.
  intros Ht. rewrite control_decode by exact Ht. cbv zeta. cbn [dmr_pdu_bits crc_correct irrecoverable_errors].
  pose proof (length_extract_data T (buf1 K) (buf2 K) (buf3 K) (buf4 K) (BPTCDeInterleaveDMRData info (replicate 196 0))) as Hl.
  change (length (control_bits T K info) = 96%nat) in Hl. rewrite crc16_matches_low by exact Hl.
  unfold burst_crc_flags, dmr_dburst_proves_tdma_carrier. cbn [is_ras crc_correct crc_original_validity irrecoverable_errors].
  unfold control_ras, control_ok. destruct (crc16_matches (control_mask databurst) (control_bits T K info)).
  - cbn [Z.eqb andb]. rewrite andb_false_r. replace (if _ =? 104 then false else false) with false by (by destruct (_ =? 104)).
    cbn [Z.eqb]. split; [split; [done|]; intros _; by destruct (databurst =? 5)|]. split; [|done].
    intros H. split; [done|]. apply andb_true_iff in H as [H _]. apply andb_true_iff in H as [_ H]. by apply Z.eqb_eq.
  - rewrite Z.eqb_refl. cbn [negb]. rewrite andb_false_r. cbn [andb].
    assert (H5 : (databurst =? 5) = false) by (destruct Ht as [<-|[<-|[<-|[<-|[<-|[]]]]]]; reflexivity). rewrite H5.
    destruct (if _ =? 104 then false else _) eqn:Er; cbn [Z.eqb].
    + split; [split; discriminate|]. split; [discriminate|]. intros _ _. split; [reflexivity|].
      destruct (_ =? 104); [discriminate|].
      apply andb_true_iff in Er as [Er _]. apply andb_true_iff in Er as [Er _]. apply andb_true_iff in Er as [Er _]. by apply Z.eqb_eq.
    + split; [split; discriminate|]. split; discriminate.
Qed.

Lemma control_burst_integrity_witness :
  let K := Scratch (replicate 11 9) (replicate 9 9) (replicate 11 9) (replicate 9 9) (replicate 11 9) [1; 2; 3] [] [] in
  let z2 := [0; 0] in
  let st := State 1 0 [] 0 z2 z2 z2 z2 z2 (replicate 2 (replicate 127 0)) z2 z2 z2 z2
    (BlockStore [] [] [] [] [] [] [] [] [] [] [] [] [] [] [] [] []) in
  let info := map (fun i => Z.of_nat (i * 7 mod 3 mod 2)) (seq 0 196) in
  let '(_, st1, d) := burst_decode (InitAllFecFunction fec_zero) K (Opts 1 0) info 3 None st in
  let right := crc16_matches 0xA5A5 (dmr_pdu_bits d) in
  (burst_crc_flags 3 d = 0 <-> right = true).
Proof.
  intros K z2 st info. pose proof (control_burst_integrity (InitAllFecFunction fec_zero) K (Opts 1 0) info 3 None st ltac:(right; left; reflexivity)) as H.
  destruct (burst_decode _ _ _ _ _ _ _) as [[p st1] d]. exact (proj1 H).
Defined.

(** The call a control burst with a right check leads to. *)
Definition control_call (databurst : Z) (pdu pdu_bits : list Z) : burst_call :=
  if databurst =? 0x00 then Call_dmr_pi pdu 1 0
  else if databurst =? 0x03 then Call_dmr_cspdu pdu_bits pdu 1 0
  else if databurst =? 0x04 then Call_dmr_block_assembler pdu 12 databurst 2
  else Call_dmr_dheader_classified pdu pdu_bits 0 0.

(** The state it finds: the carrier is proved, and an MBC header is armed. *)
Definition control_state_right (databurst : Z) (st : dsd_state) : dsd_state :=
  let slot := currentslot st in
  let st := if dmr_dburst_keeps_data_p_head databurst then st else set_data_p_head ((data_p_head st).[slot <- 0]) st in
  let st := if (databurst =? 0x04) || (databurst =? 0x06) then set_block_crc slot 0 1 st else st in
  let st := if input_interrupted st =? 0 then set_tdma_carrier 1 st else st in
  if databurst =? 0x04 then
    let st := set_data_block_counter ((data_block_counter st).[slot <- 0]) st in
    let st := set_data_header_valid ((data_header_valid st).[slot <- 1]) st in
    set_data_header_crc_invalid ((data_header_crc_invalid st).[slot <- 0]) st
  else st.

Lemma set_event_same st slot : 0 <= (event_crc_invalid st).[slot] < 256 ->
  set_event_crc_invalid ((event_crc_invalid st).[slot <- u8 (Z.lor ((event_crc_invalid st).[slot]) 0)]) st = st.
Proof.
  intros H. rewrite Z.lor_0_r. unfold u8, wrap. rewrite Z.mod_small by done.
  destruct st. cbn [event_crc_invalid set_event_crc_invalid] in *. f_equal. apply list_eq_nth; [by rewrite length_insert|].
  intros i _. rewrite nth_insert. by destruct (decide (slot = i /\ _)) as [[-> _]|].
Qed.

Lemma event_crc_tdma v st : event_crc_invalid (set_tdma_carrier v st) = event_crc_invalid st.
Proof. by destruct st. Qed.

Lemma event_crc_control T K info databurst st :
  event_crc_invalid (control_state T K info databurst st) = event_crc_invalid st.
Proof.
  unfold control_state. Transparent set_block_crc set_data_p_head. unfold set_block_crc.
  destruct st. by destruct (dmr_dburst_keeps_data_p_head _), ((_ =? 4) || _).
Qed.

(** C9: a control burst sent is the control burst decoded.  80 bits are followed by
    their CRC-16 under the mask of the type, coded as the payload of a BPTC (196,96)
    codeword and interleaved; received with the errors that code corrects, in
    either mode and slot, the burst leads to exactly one call, of the decoder of its
    type, with the 96 bits and their bytes, the check right and no FEC error; the
    carrier is proved as TDMA, and the slot's event flags are as before after it. *)
Theorem control_burst_delivered T0 K opts dispatch info databurst reliab98 st data c r :
  In databurst [0x00; 0x03; 0x04; 0x06] -> bits data -> length data = 80%nat ->
  length (buf1 K) = 11%nat -> length (buf2 K) = 9%nat -> length (buf3 K) = 11%nat -> length (buf4 K) = 9%nat ->
  0 <= (event_crc_invalid st).[currentslot st] < 256 ->
  let frame := control_frame (control_mask databurst) data in
  product_codeword c -> bptc_196x96_extract_payload_and_r c = (frame, r) ->
  correctable c (bptc_196x96_fill_matrix (BPTCDeInterleaveDMRData info (replicate 196 0))) ->
  dmr_data_burst_handler (InitAllFecFunction T0) K opts dispatch info databurst reliab98 st =
    let pdu := map (fun i => bits_value 8 (fun j => frame.[(8 * i + j)%nat])) (seq 0 12) ++ replicate 13 0 in
    let pdu_bits := frame ++ replicate 100 0 in
    let after := dispatch (control_call databurst pdu pdu_bits) (control_state_right databurst st) in
    set_event_crc_invalid ((event_crc_invalid after).[currentslot st <- (event_crc_invalid st).[currentslot st]]) after.
Proof.
  intros Ht Hd Hl H1 H2 H3 H4 Hev frame Hc Hx Hcor.
  assert (Htype : In databurst control_types) by (destruct Ht as [<-|[<-|[<-|[<-|[]]]]]; cbn; tauto).
  assert (Hmask : 0 <= control_mask databurst < 2 ^ 16) by (destruct Ht as [<-|[<-|[<-|[<-|[]]]]]; by_decide).
  destruct (control_frame_spec (control_mask databurst) data Hd Hl Hmask) as (Hlf & Hbf & Hok). fold frame in Hlf, Hbf, Hok.
  assert (Hex : control_extract (InitAllFecFunction T0) K info = (frame, r, 0)).
  { unfold control_extract. rewrite (bptc_196x96_correct T0 c) by done. by rewrite Hx. }
  assert (Ebits : control_bits (InitAllFecFunction T0) K info = frame) by (unfold control_bits; by rewrite Hex).
  assert (Eerr : control_errors (InitAllFecFunction T0) K info = 0) by (unfold control_errors; by rewrite Hex).
  assert (Eok : control_ok (InitAllFecFunction T0) K info databurst = 1) by (unfold control_ok; by rewrite Ebits, Hok).
  assert (Eras : control_ras (InitAllFecFunction T0) K opts info databurst = false).
  { unfold control_ras. rewrite Eok, andb_false_r. by destruct (_ =? 104). }
  assert (Elow : low_bits frame = frame).
  { apply list_eq_nth; [unfold low_bits; by rewrite length_map|]. intros i _. rewrite nth_low_bits. by apply land1_id, bits_nth. }
  assert (Epdu : dmr_dburst_unpack_bptc_bytes frame = map (fun i => bits_value 8 (fun j => frame.[(8 * i + j)%nat])) (seq 0 12)).
  { apply list_eq_nth; [rewrite length_unpack_bytes; len|]. intros i Hi. rewrite length_unpack_bytes in Hi.
    rewrite nth_unpack_bytes, nth_map_seq, Nat.add_0_l, Elow by done. done. }
  unfold dmr_data_burst_handler. rewrite control_decode by exact Htype.
  pose proof (event_crc_control (InitAllFecFunction T0) K info databurst st) as Eev.
  assert (Est : control_state (InitAllFecFunction T0) K info databurst st =
    let st1 := if dmr_dburst_keeps_data_p_head databurst then st else set_data_p_head ((data_p_head st).[currentslot st <- 0]) st in
    if (databurst =? 0x04) || (databurst =? 0x06) then set_block_crc (currentslot st) 0 1 st1 else st1)
    by (unfold control_state; by rewrite Eok).
  rewrite Ebits, Eerr, Eok, Eras, Elow, Epdu. set (pdu := map _ _ ++ _). set (pdu_bits := frame ++ _).
  set (st1 := control_state _ _ _ _ _) in *.
  set (d := Decoded _ _ _ _ _ _ _ _).
  assert (Eseq : dmr_dburst_update_dbsn_sequence opts databurst (currentslot st) d st1 = (st1, true)).
  { unfold dmr_dburst_update_dbsn_sequence. by destruct Ht as [<-|[<-|[<-|[<-|[]]]]]. }
  assert (Eflags : burst_crc_flags databurst d = 0).
  { unfold burst_crc_flags. by destruct (databurst =? 5). }
  assert (Etdma : dmr_dburst_proves_tdma_carrier databurst d st1 = (input_interrupted st1 =? 0)).
  { unfold dmr_dburst_proves_tdma_carrier. by destruct Ht as [<-|[<-|[<-|[<-|[]]]]]. }
  rewrite Eseq, Eflags, Etdma.
  set (st2 := if input_interrupted st1 =? 0 then set_tdma_carrier 1 st1 else st1).
  assert (Eev2 : event_crc_invalid st2 = event_crc_invalid st)
    by (subst st2; destruct (input_interrupted st1 =? 0); by rewrite ?event_crc_tdma).
  cbv zeta. rewrite <- Eev2 in Hev. rewrite set_event_same by exact Hev. rewrite Eev2.
  set (p := Profile _ _ _ _ _). set (after := dispatch _ (control_state_right databurst st)).
  assert (Edisp : dmr_dburst_dispatch_by_type opts p databurst 0 (currentslot st) d st2
    = (control_state_right databurst st, control_call databurst pdu pdu_bits)).
  { unfold control_state_right. cbv zeta in Est |- *. rewrite <- Est. fold st2. by destruct Ht as [<-|[<-|[<-|[<-|[]]]]]. }
  rewrite Edisp. fold after. assert (Hcall : control_call databurst pdu pdu_bits <> No_call)
    by (destruct Ht as [<-|[<-|[<-|[<-|[]]]]]; discriminate).
  destruct (control_call databurst pdu pdu_bits); reflexivity || by destruct Hcall.
Qed.

(** A CSBK coded, a whole row of its matrix inverted on the way. *)
Definition sent_matrix : list Z :=
  [0; 0; 0; 0; 1; 0; 0; 1; 0; 0; 1; 1; 1; 1; 1; 0; 0; 1; 0; 0; 1; 0; 0; 1; 0; 0; 1; 0; 0; 1; 1; 0; 0; 1; 0; 0; 1; 0;
   0; 1; 0; 0; 1; 0; 0; 0; 1; 0; 0; 1; 0; 0; 1; 0; 0; 1; 0; 0; 1; 0; 0; 0; 1; 0; 0; 1; 0; 0; 1; 0; 0; 1; 0; 0; 1; 1;
   0; 0; 1; 0; 0; 1; 0; 0; 1; 0; 0; 1; 0; 0; 0; 1; 0; 0; 1; 0; 0; 1; 0; 0; 1; 0; 0; 1; 0; 0; 0; 1; 0; 0; 1; 1; 0; 1;
   1; 1; 1; 0; 0; 1; 1; 1; 0; 1; 1; 0; 0; 0; 1; 1; 1; 0; 1; 0; 0; 1; 0; 1; 1; 1; 1; 1; 1; 1; 1; 1; 0; 0; 1; 0; 1; 1;
   1; 1; 0; 1; 0; 0; 1; 0; 1; 0; 0; 0; 0; 1; 0; 0; 1; 1; 0; 1; 0; 1; 0; 0; 1; 0; 0; 1; 1; 1; 1; 1; 0; 1; 0; 1; 0; 1;
   0; 0; 0; 1; 0].

Definition received_bits : list Z :=
  [0; 1; 0; 0; 0; 1; 0; 0; 1; 1; 1; 1; 1; 1; 1; 0; 1; 0; 0; 0; 1; 0; 0; 0; 1; 1; 1; 0; 0; 1; 1; 1; 1; 1; 1; 0; 1; 0;
   0; 1; 0; 1; 1; 0; 1; 0; 0; 0; 0; 0; 1; 0; 1; 1; 1; 0; 1; 1; 1; 0; 0; 0; 0; 0; 0; 1; 1; 0; 0; 0; 0; 1; 1; 0; 0; 0;
   1; 1; 1; 1; 0; 1; 0; 0; 1; 1; 1; 1; 0; 1; 1; 0; 0; 0; 0; 1; 0; 1; 1; 1; 1; 0; 0; 0; 0; 0; 0; 0; 0; 0; 0; 1; 0; 0;
   0; 0; 1; 1; 0; 0; 1; 1; 1; 1; 0; 0; 1; 0; 0; 0; 1; 0; 0; 1; 1; 0; 0; 0; 1; 1; 1; 0; 1; 1; 1; 1; 0; 0; 0; 0; 1; 0;
   0; 0; 0; 0; 1; 0; 0; 0; 1; 1; 1; 1; 1; 0; 0; 1; 0; 0; 0; 1; 0; 0; 0; 0; 0; 1; 0; 0; 1; 0; 1; 1; 1; 1; 0; 1; 1; 0;
   0; 1; 1; 0; 1; 1].

Lemma control_burst_delivered_witness :
  let K := Scratch (replicate 11 9) (replicate 9 9) (replicate 11 9) (replicate 9 9) (replicate 11 9) [1; 2; 3] [] [] in
  let z2 := [0; 0] in
  let st := State 1 0 [] 0 z2 z2 z2 z2 z2 (replicate 2 (replicate 127 0)) z2 z2 z2 z2
    (BlockStore [] [] [] [] [] [] [] [] [] [] [] [] [] [] [] [] []) in
  let data := map (fun i => Z.of_nat ((i * i + i / 3) mod 2)) (seq 0 80) in
  let frame := control_frame 0xA5A5 data in
  let pdu := map (fun i => bits_value 8 (fun j => frame.[(8 * i + j)%nat])) (seq 0 12) ++ replicate 13 0 in
  let after := control_state_right 0x03 st in
  dmr_data_burst_handler (InitAllFecFunction fec_zero) K (Opts 1 0)
    (fun call st => match call with Call_dmr_cspdu b p 1 0 =>
       if bool_decide (b = frame ++ replicate 100 0 /\ p = pdu) then st else dmr_reset_blocks st | _ => dmr_reset_blocks st end)
    received_bits 0x03 None st
  = set_event_crc_invalid ((event_crc_invalid after).[1%nat <- 0]) after.
Proof.
  intros K z2 st data frame pdu after.
  rewrite (control_burst_delivered fec_zero K (Opts 1 0) _ received_bits 0x03 None st data sent_matrix [0; 0; 0]).
  - cbv zeta. change (control_frame (control_mask 3) data) with frame. fold pdu. fold after. unfold control_call. cbn [Z.eqb Pos.eqb].
    by rewrite bool_decide_true by done.
  - right. left. reflexivity.
  - by_decide.
  - reflexivity.
  - reflexivity.
  - reflexivity.
  - reflexivity.
  - reflexivity.
  - cbn. lia.
  - split; [reflexivity|by_decide| |].
    + intros i Hi. do 9 (destruct i as [|i]; [by_decide|]). lia.
    + intros i Hi. do 15 (destruct i as [|i]; [by_decide|]). lia.
  - vm_compute. reflexivity.
  - left. exists 4%nat. intros i Hi Hne. do 13 (destruct i as [|i]; [first [lia | by_decide]|]). lia.
Defined.

(** ** The choice among rate 3/4 candidates *)

Section Lowest.
Context (cands : list dmr_r34_candidate).

Definition metric_at (i : nat) : Z := cand_metric (candidate_at cands (Z.of_nat i)).

(** [b] is the first of the lowest among the first [n] that satisfy [P], or -1. *)
Definition lowest (P : nat -> bool) (n : nat) (b : Z) : Prop :=
  (b = -1 /\ forall i, (i < n)%nat -> P i = false) \/
  (exists k, b = Z.of_nat k /\ (k < n)%nat /\ P k = true /\ forall i, (i < n)%nat -> P i = true -> metric_at k <= metric_at i).

Lemma lowest_step P n b : lowest P n b ->
  lowest P (S n) (if P n then dmr_dburst_trellis_lower_metric cands b (Z.of_nat n) else b).
Proof.
  intros H. destruct (P n) eqn:EP.
  - right. unfold dmr_dburst_trellis_lower_metric. fold (metric_at n). destruct H as [[-> H]|(k & -> & Hk & Pk & H)].
    + exists n. split; [done|]. split; [lia|]. split; [done|]. intros i Hi Pi.
      destruct (decide (i = n)) as [->|]; [lia|]. rewrite H in Pi by lia. done.
    + fold (metric_at k). rewrite (proj2 (Z.ltb_ge (Z.of_nat k) 0)) by lia. cbn [orb].
      destruct (Z.ltb_spec (metric_at n) (metric_at k)).
      * exists n. split; [done|]. split; [lia|]. split; [done|]. intros i Hi Pi.
        destruct (decide (i = n)) as [->|]; [lia|]. specialize (H i ltac:(lia) Pi). lia.
      * exists k. split; [done|]. split; [lia|]. split; [done|]. intros i Hi Pi.
        destruct (decide (i = n)) as [->|]; [lia|]. apply H; [lia|done].
  - destruct H as [[-> H]|(k & -> & Hk & Pk & H)].
    + left. split; [done|]. intros i Hi. destruct (decide (i = n)) as [->|]; [done|]. apply H. lia.
    + right. exists k. split; [done|]. split; [lia|]. split; [done|]. intros i Hi Pi.
      destruct (decide (i = n)) as [->|]; [congruence|]. apply H; [lia|done].
Qed.

Lemma lowest_index_spec : lowest (fun _ => true) (length cands) (dmr_dburst_trellis_lowest_metric_index cands).
Proof.
  unfold dmr_dburst_trellis_lowest_metric_index. apply (for_ind (lowest (fun _ => true))); [lia|left; split; [done|lia]|].
  intros i b _ H. exact (lowest_step (fun _ => true) i b H).
Qed.

Context (verdict : list Z -> Z * bool) (have : bool) (expected : Z).

Definition cand_crc_right (i : nat) : bool := snd (verdict (cand_bytes18 (candidate_at cands (Z.of_nat i)))).
Definition cand_in_sequence (i : nat) : bool :=
  have && (fst (verdict (cand_bytes18 (candidate_at cands (Z.of_nat i)))) =? expected).

(** The loop, for any way to read a candidate. *)
Definition choose_loop : Z * Z * Z * Z :=
  for_ 0 (length cands) (fun ci '(best_crc_dbsn, best_crc, best_dbsn, best_any) =>
    let i := Z.of_nat ci in
    let '(cand_dbsn, cand_crc_ok) := verdict (cand_bytes18 (candidate_at cands i)) in
    let lower cur := dmr_dburst_trellis_lower_metric cands cur i in
    let best_any := lower best_any in
    let '(best_crc_dbsn, best_dbsn) :=
      if have && (cand_dbsn =? expected) then
        if cand_crc_ok : bool then (lower best_crc_dbsn, best_dbsn) else (best_crc_dbsn, lower best_dbsn)
      else (best_crc_dbsn, best_dbsn) in
    let best_crc := if cand_crc_ok then lower best_crc else best_crc in
    (best_crc_dbsn, best_crc, best_dbsn, best_any)) (-1, -1, -1, -1).

(** From best to worst: the check right and the number expected; the check right;
    the number expected; neither. *)
Definition cand_class (i : nat) : Z :=
  if cand_crc_right i then if cand_in_sequence i then 0 else 1 else if cand_in_sequence i then 2 else 3.

Lemma choose_loop_spec : (0 < length cands)%nat ->
  exists k, (let '(best_crc_dbsn, best_crc, best_dbsn, best_any) := choose_loop in
    if 0 <=? best_crc_dbsn then best_crc_dbsn else if 0 <=? best_crc then best_crc
    else if 0 <=? best_dbsn then best_dbsn else best_any) = Z.of_nat k /\ (k < length cands)%nat /\
    forall i, (i < length cands)%nat -> cand_class k < cand_class i \/ cand_class k = cand_class i /\ metric_at k <= metric_at i.
Proof.
  intros Hne. unfold choose_loop.
  set (P0 := fun i => cand_crc_right i && cand_in_sequence i). set (P2 := fun i => negb (cand_crc_right i) && cand_in_sequence i).
  set (Inv := fun n '(a, b, c, e) => lowest P0 n a /\ lowest cand_crc_right n b /\ lowest P2 n c /\ lowest (fun _ => true) n e).
  set (q := for_ 0 (length cands) _ _). assert (H : Inv (length cands) q).
  { subst q. apply (for_ind Inv); [lia|repeat split; left; (split; [done|lia])|].
    intros i [[[a b] c] e] _ (Ha & Hb & Hc & He). cbv zeta.
    apply lowest_step in Ha, Hb, Hc, He. revert Ha Hb Hc He. unfold P0, P2, cand_in_sequence, cand_crc_right.
    destruct (verdict _) as [dbsn ok]. cbn [fst snd].
    destruct ok, (have && _); cbn [andb negb]; intros; split_and!; assumption. }
  destruct q as [[[a b] c] e]. destruct H as (Ha & Hb & Hc & He).
  assert (Hclass : forall i, cand_class i = 0 /\ P0 i = true \/ cand_class i = 1 /\ cand_crc_right i = true /\ P0 i = false \/
    cand_class i = 2 /\ P2 i = true /\ cand_crc_right i = false \/ cand_class i = 3 /\ P2 i = false /\ cand_crc_right i = false).
  { intros i. unfold cand_class, P0, P2. destruct (cand_crc_right i), (cand_in_sequence i); cbn; tauto. }
  destruct Ha as [[-> Ha]|(k & -> & Hk & Pk & Ha)].
  2: { rewrite (proj2 (Z.leb_le 0 _)) by lia. exists k. split; [done|]. split; [done|]. intros i Hi.
       destruct (Hclass k) as [[-> _]|[(_ & _ & X)|[(_ & X & Y)|(_ & X & Y)]]]; [|congruence|unfold P0 in Pk; rewrite Y in Pk; discriminate..].
       destruct (Hclass i) as [[-> Pi]|[[-> _]|[[-> _]|[-> _]]]]; [right; split; [done|by apply Ha]|left; lia..]. }
  change (0 <=? -1) with false. cbv iota.
  destruct Hb as [[-> Hb]|(k & -> & Hk & Pk & Hb)].
  2: { rewrite (proj2 (Z.leb_le 0 _)) by lia. exists k. split; [done|]. split; [done|]. intros i Hi. specialize (Ha i Hi) as Hai.
       specialize (Ha k Hk). destruct (Hclass k) as [[_ X]|[[-> _]|[(_ & _ & X)|(_ & _ & X)]]]; [congruence| |congruence..].
       destruct (Hclass i) as [[_ X]|[[-> [Pi _]]|[[-> _]|[-> _]]]]; [congruence|right; split; [done|by apply Hb]|left; lia..]. }
  change (0 <=? -1) with false. cbv iota.
  destruct Hc as [[-> Hc]|(k & -> & Hk & Pk & Hc)].
  2: { rewrite (proj2 (Z.leb_le 0 _)) by lia. exists k. split; [done|]. split; [done|]. intros i Hi. specialize (Hb i Hi) as Hbi.
       specialize (Hb k Hk). destruct (Hclass k) as [[_ X]|[(_ & X & _)|[[-> _]|(_ & X & _)]]]; [unfold P0 in X; rewrite Hb in X; discriminate|congruence| |congruence].
       destruct (Hclass i) as [[_ X]|[(_ & X & _)|[(-> & Pi & _)|[-> _]]]]; [unfold P0 in X; rewrite Hbi in X; discriminate|congruence
         |right; split; [done|by apply Hc]|left; lia]. }
  change (0 <=? -1) with false. cbv iota.
  destruct He as [[_ He]|(k & -> & Hk & _ & He)]; [discriminate (He 0%nat Hne)|].
  exists k. split; [done|]. split; [done|]. intros i Hi. right. split; [|by apply He].
  assert (H3 : forall j, (j < length cands)%nat -> cand_class j = 3).
  { intros j Hj. unfold cand_class. rewrite (Hb j Hj). specialize (Hc j Hj). unfold P2 in Hc. rewrite (Hb j Hj) in Hc. cbn in Hc. by rewrite Hc. }
  by rewrite !H3.
Qed.
End Lowest.

(** the choice among the candidates of a confirmed block.  From any candidates
    one is chosen, and no other is better: a right CRC-9 together with the expected
    serial number comes before a right CRC-9, that before the expected number alone,
    and that before neither; within a class the metric decides. *)
Lemma trellis_choice_priority mask have expected cands :
  cands <> [] ->
  let class := cand_class cands (dmr_dburst_trellis_candidate_metrics mask) have expected in
  exists k, dmr_dburst_trellis_choose_candidate_index mask have expected cands = Z.of_nat k /\ (k < length cands)%nat /\
    forall i, (i < length cands)%nat ->
      class k < class i \/ class k = class i /\ metric_at cands k <= metric_at cands i.
Proof.
  intros Hne class. apply (choose_loop_spec cands (dmr_dburst_trellis_candidate_metrics mask) have expected).
  destruct cands; [done|cbn; lia].
Qed.

Lemma trellis_choice_priority_witness :
  let cands := [Candidate 5 (replicate 18 0); Candidate 3 (replicate 18 7)] in
  exists k, dmr_dburst_trellis_choose_candidate_index 0x1FF true 0 cands = Z.of_nat k /\ (k < 2)%nat.
Proof.
  intros cands. destruct (trellis_choice_priority 0x1FF true 0 cands ltac:(discriminate)) as (k & H1 & H2 & _).
  exists k. split; [exact H1|exact H2].
Defined.

(** ** The pool of candidates *)

Section Pool.
Context (tdibits : list Z) (reliab98 : option (list Z)).

Definition pool_inv (cs : list dmr_r34_candidate) : Prop :=
  forall c, c ∈ cs -> cand_metric c = payload_metric tdibits reliab98 (cand_bytes18 c).

Lemma memcmp18_metric a b : memcmp18 a b = true ->
  payload_metric tdibits reliab98 a = payload_metric tdibits reliab98 b.
Proof.
  intros H. assert (E : forall i, (i < 18)%nat -> a.[i] = b.[i]).
  { intros i Hi. apply Z.eqb_eq. exact (check_nat (fun i => a.[i] =? b.[i]) 18 H i Hi). }
  rewrite !payload_metric_eq. do 2 f_equal. unfold r34_unpack_states. cbn [flat_map seq app Nat.mul Nat.add].
  by rewrite !E by lia.
Qed.

Lemma add_candidate_spec capacity cs b : pool_inv cs ->
  let cs' := dmr_dburst_trellis_add_candidate reliab98 tdibits capacity cs b in
  pool_inv cs' /\ (forall c, c ∈ cs -> c ∈ cs') /\
  ((length cs < capacity)%nat -> exists c, c ∈ cs' /\ cand_metric c = payload_metric tdibits reliab98 b) /\
  (length cs' <= S (length cs))%nat.
Proof.
  intros Hinv. unfold dmr_dburst_trellis_add_candidate. rewrite candidate_metric_cost.
  destruct (Nat.leb_spec capacity (length cs)); [cbv zeta; split_and!; [done|done|lia|lia]|].
  destruct (existsb _ cs) eqn:Ex; cbv zeta.
  - apply existsb_exists in Ex as (c & Hc & Hm). apply list_elem_of_In in Hc. split_and!; [done|done| |lia].
    intros _. exists c. split; [done|]. rewrite Hinv by done. by apply memcmp18_metric.
  - split_and!.
    + intros c [Hc| ->%list_elem_of_singleton]%elem_of_app; [by apply Hinv|done].
    + intros c Hc. apply elem_of_app. by left.
    + intros _. eexists. split; [apply elem_of_app; right; by apply list_elem_of_singleton|done].
    + rewrite length_app. cbn. lia.
Qed.
End Pool.

Lemma hard_returns junk d out : exists bytes, dmr_r34_viterbi_decode junk (Some d) (Some out) = (Some bytes, 0).
Proof.
  unfold dmr_r34_viterbi_decode. destruct (r34_run_viterbi_hard _ junk) as [M bp]. eexists. reflexivity.
Qed.

#[local] Opaque dmr_r34_viterbi_decode dmr_r34_viterbi_decode_soft dmr_r34_viterbi_decode_list payload_metric
  dmr_dburst_trellis_add_candidate.

(** an unconfirmed block of rate 3/4 received with reliabilities is decoded to a
    payload of maximum likelihood: hard and soft decoder propose one each, and no
    payload at all scores better than the one handed on. *)
Lemma trellis_unconfirmed_optimal K p reliab98 tdibits slot st init :
  (data_conf_data st).[slot] <> 1 -> weights reliab98 -> length (soft_back_pointers K) = (R34_T * R34_S)%nat ->
  let payload := dmr_dburst_pick_trellis_payload K p (Some reliab98) tdibits slot st init in
  exists m, dmr_r34_candidate_metric (Some tdibits) (Some reliab98) (Some payload) (Some 0) = (Some m, 0) /\
    forall bytes18, exists m',
      dmr_r34_candidate_metric (Some tdibits) (Some reliab98) (Some bytes18) (Some 0) = (Some m', 0) /\ m <= m'.
Proof.
  intros Hconf Hw Hj payload. unfold payload, dmr_dburst_pick_trellis_payload.
  rewrite (proj2 (Z.eqb_neq _ 1) Hconf). setoid_rewrite candidate_metric_cost. eexists. split; [reflexivity|].
  intros bytes18. eexists. split; [reflexivity|].
  unfold trellis_pool. cbn [orb negb].
  destruct (hard_returns (back_pointers K) tdibits (replicate 18 0)) as [hard Eh]. rewrite Eh.
  destruct (soft_optimal (soft_back_pointers K) tdibits reliab98 hard Hj Hw) as (soft & m & Es & Em & Hopt). rewrite Es.
  rewrite candidate_metric_cost in Em. injection Em as Em.
  destruct (add_candidate_spec tdibits (Some reliab98) R34_POOL_CAPACITY [] hard) as (I1 & _ & _ & L1);
    [intros c Hc; by apply not_elem_of_nil in Hc|].
  set (cs1 := dmr_dburst_trellis_add_candidate _ _ _ [] hard) in *.
  destruct (add_candidate_spec tdibits (Some reliab98) R34_POOL_CAPACITY cs1 soft I1) as (I2 & _ & Hs & _).
  set (cs := dmr_dburst_trellis_add_candidate _ _ _ cs1 soft) in *.
  destruct Hs as (c & Hc & Hcm); [cbn in L1; unfold R34_POOL_CAPACITY; lia|].
  assert (Hbest : forall b, m <= payload_metric tdibits (Some reliab98) b).
  { intros b. destruct (Hopt b) as (m' & E & Hle). rewrite candidate_metric_cost in E. injection E as E. lia. }
  apply list_elem_of_lookup_1 in Hc as [i Hi]. pose proof (lookup_lt_Some _ _ _ Hi) as Hilt.
  assert (Hat : forall k x, cs !! k = Some x -> candidate_at cs (Z.of_nat k) = x).
  { intros k x Hx. unfold candidate_at. by rewrite Nat2Z.id, nth_lookup, Hx. }
  destruct (lowest_index_spec cs) as [[_ H]|(k & -> & Hk & _ & Hlow)]; [by specialize (H i Hilt)|].
  rewrite (proj2 (Z.leb_le 0 _)) by lia. destruct (lookup_lt_is_Some_2 cs k Hk) as [x Hx].
  specialize (Hlow i Hilt eq_refl). unfold metric_at in Hlow. rewrite (Hat k x Hx), (Hat i c Hi) in Hlow.
  rewrite (Hat k x Hx), <- (I2 x) by (by eapply list_elem_of_lookup_2). specialize (Hbest bytes18). lia.
Qed.

Lemma trellis_unconfirmed_optimal_witness :
  let K := Scratch [] [] [] [] [] [] (replicate 392 3) (replicate 392 5) in
  let z2 := [0; 0] in
  let st := State 1 0 [] 0 z2 z2 z2 z2 z2 (replicate 2 (replicate 127 0)) z2 z2 z2 z2
    (BlockStore [] [] [] [] [] [] [] [] [] [] [] [] [] [] [] [] []) in
  let d := map (fun i => Z.of_nat (i * 7 mod 5) mod 4) (seq 0 98) in
  let r := map (fun i => Z.of_nat (i * 37 mod 256)) (seq 0 98) in
  let payload := dmr_dburst_pick_trellis_payload K (Profile 0x1FF 2 9 18 0) (Some r) d 1 st (replicate 18 0) in
  exists m, dmr_r34_candidate_metric (Some d) (Some r) (Some payload) (Some 0) = (Some m, 0).
Proof.
  intros K z2 st d r payload.
  destruct (trellis_unconfirmed_optimal K (Profile 0x1FF 2 9 18 0) r d 1 st (replicate 18 0)) as (m & H & _);
    [discriminate|by_decide|reflexivity|]. exists m. exact H.
Defined.

(** ** The CRC-9 of a confirmed block *)

(** Bit [k] of a payload, first bit first. *)
Definition payload_bit (bytes18 : list Z) (k : nat) : Z := Z.b2z (Z.testbit (bytes18.[(k / 8)%nat]) (Z.of_nat (7 - k mod 8))).

Lemma unpack18_bits bytes18 : length (unpack18 bytes18 (replicate 196 0)) = 196%nat /\
  forall k, (k < 144)%nat -> (unpack18 bytes18 (replicate 196 0)).[k] = payload_bit bytes18 k.
Proof.
  unfold unpack18, dsd_unpack_bytes_to_bits, unpack_bounded. rewrite clamp_to_capacity_min.
  change (18 `min` (18 `min` (196 / 8)))%nat with 18%nat. rewrite unpack_octets. cbn [fst default]. unfold id.
  destruct (unpack_spec bytes18 18 (replicate 196 0)) as (H1 & H2 & _); [rewrite length_replicate; lia|]. cbv zeta in H1, H2.
  split; [by rewrite H1, length_replicate|]. intros k Hk. rewrite (Nat.div_mod_eq k 8) at 1. rewrite Nat.mul_comm.
  apply H2; [apply Nat.Div0.div_lt_upper_bound; lia|apply Nat.mod_upper_bound; lia].
Qed.

(** The order of the check: the data, the serial number, the check bits. *)
Definition crc9_order (bytes18 : list Z) (i : nat) : Z :=
  if (i <? 128)%nat then payload_bit bytes18 (16 + i) else if (i <? 144)%nat then payload_bit bytes18 (i - 128) else 0.

Lemma crc9_order_bit bytes18 i : is_bit (crc9_order bytes18 i).
Proof. unfold crc9_order, payload_bit. destruct (i <? 128)%nat, (i <? 144)%nat; (apply b2z_bit || by left). Qed.

Lemma candidate_crc9 mask bytes18 : snd (dmr_dburst_trellis_candidate_metrics mask bytes18) = true <->
  crc_accepts 9 0x059 0 (Z.lxor 0x1FF mask) 135 (crc9_order bytes18).
Proof.
  unfold dmr_dburst_trellis_candidate_metrics. cbn [snd]. destruct (unpack18_bits bytes18) as [Hl Hb].
  set (bits := unpack18 bytes18 (replicate 196 0)) in *. rewrite ComputeCrc9Bit_run, convert_bits_into_output_value.
  assert (Ebit : forall i, (i < 144)%nat -> Z.land (bits.[i]) 1 = payload_bit bytes18 i).
  { intros i Hi. rewrite Hb by done. apply land1_id, b2z_bit. }
  rewrite (crc_run_ext 9 0x059 0 135 _ (crc9_order bytes18)).
  2: { intros i Hi. unfold crc9_order. destruct (Nat.ltb_spec i 128).
       - rewrite app_nth1 by len. rewrite nth_map_seq, Nat.add_0_l by done. rewrite (Nat.add_comm i 16). apply Ebit. lia.
       - rewrite app_nth2 by len. rewrite length_map, length_seq, nth_take by lia. destruct (Nat.ltb_spec i 144); [|lia]. apply Ebit. lia. }
  rewrite (bits_value_ext 9 _ (fun i => crc9_order bytes18 (135 + i))).
  2: { intros i Hi. rewrite nth_drop, Ebit by lia. unfold crc9_order. destruct (Nat.ltb_spec (135 + i) 128); [lia|].
       destruct (Nat.ltb_spec (135 + i) 144); [|lia]. f_equal; lia. }
  pose proof (bits_value_range 9 (fun i => crc9_order bytes18 (135 + i)) (fun i _ => crc9_order_bit _ _)) as Hr.
  unfold crc_accepts. generalize (crc_run 9 0x059 0 135 (crc9_order bytes18)). revert Hr.
  generalize (bits_value 9 (fun i => crc9_order bytes18 (135 + i))). intros v Hv c. change (2 ^ Z.of_nat 9) with 512 in Hv.
  rewrite (Z.mod_small v) by lia. unfold u32, wrap. rewrite (Z.mod_small v) by lia. rewrite Z.eqb_eq. split.
  - intros E. rewrite <- Z.lxor_assoc, <- E. by rewrite Z.lxor_assoc, Z.lxor_nilpotent, Z.lxor_0_r.
  - intros ->. by rewrite !Z.lxor_assoc, Z.lxor_nilpotent, Z.lxor_0_r.
Qed.

(** the CRC-9 of a confirmed block of rate 3/4, whose check bits lie between the
    serial number and the data it covers, detects every burst of up to nine bits in
    the header or in the data: of two different payloads that agree elsewhere at
    most one is taken for right, whatever the mask. *)
Lemma crc9_detects_bursts mask a b p k :
  (p + 9 <= 16 \/ 16 <= p /\ p + 9 <= 144)%nat ->
  (forall i, (i < 144)%nat -> ~ (p <= i < p + 9)%nat -> payload_bit a i = payload_bit b i) ->
  (k < 144)%nat -> payload_bit a k <> payload_bit b k ->
  snd (dmr_dburst_trellis_candidate_metrics mask a) = true -> snd (dmr_dburst_trellis_candidate_metrics mask b) = false.
Proof.
  intros Hp Hout Hk Hne Ha. apply not_true_is_false. intros Hb. apply candidate_crc9 in Ha, Hb. apply Hne.
  set (q := if (p <? 16)%nat then (p + 128)%nat else (p - 16)%nat).
  assert (H : forall i, crc9_order a i = crc9_order b i).
  { refine (crc_detects 9 0x059 ltac:(lia) ltac:(by_decide) eq_refl 0 (Z.lxor 0x1FF mask) 135 q _ _ _ _ _ _ Ha Hb).
    - intros. apply crc9_order_bit.
    - intros. apply crc9_order_bit.
    - unfold q. destruct (Nat.ltb_spec p 16); lia.
    - intros i Hi. unfold crc9_order, q in *. destruct (Nat.ltb_spec i 128), (Nat.ltb_spec p 16);
        try (destruct (Nat.ltb_spec i 144); [|done]); apply Hout; lia. }
  specialize (H (if (k <? 16)%nat then k + 128 else k - 16)%nat). unfold crc9_order in H.
  destruct (Nat.ltb_spec k 16).
  - destruct (Nat.ltb_spec (k + 128) 128); [lia|]. destruct (Nat.ltb_spec (k + 128) 144); [|lia].
    by replace (k + 128 - 128)%nat with k in H by lia.
  - destruct (Nat.ltb_spec (k - 16) 128); [|lia]. by replace (16 + (k - 16))%nat with k in H by lia.
Qed.

Lemma crc9_detects_bursts_witness :
  snd (dmr_dburst_trellis_candidate_metrics 0x1FF ((replicate 18 0).[5%nat <- 0x81])) = false.
Proof.
  refine (crc9_detects_bursts 0x1FF (replicate 18 0) ((replicate 18 0).[5%nat <- 0x81]) 40 40 _ _ _ _ _).
  - right. lia.
  - intros i Hi Hout. unfold payload_bit. rewrite nth_insert_ne; [done|]. intros E. apply Hout.
    pose proof (Nat.div_mod_eq i 8). pose proof (Nat.mod_upper_bound i 8). lia.
  - lia.
  - discriminate.
  - vm_compute. reflexivity.
Defined.

(** ** Serial numbers *)

Section Sequence.
Context (opts : dsd_opts) (slot : nat).

(** A confirmed block of one of the three rates. *)
Definition confirmed_block (databurst : Z) (d : decoded) (st : dsd_state) : Prop :=
  In databurst [0x07; 0x08; 0x0A] /\ (data_conf_data st).[slot] = 1 /\ dbsn_valid d = true.

(** What the program does with the state before the next block of the slot. *)
Definition keeps_sequence (after : dsd_state -> dsd_state) : Prop := forall st,
  data_conf_data (after st) = data_conf_data st /\ data_dbsn_expected (after st) = data_dbsn_expected st /\
  data_dbsn_have (after st) = data_dbsn_have st.

(** Blocks, one after another, up to the first that is dropped: those accepted,
    whether one was dropped, and the state left. *)
Fixpoint sequence_run (ds : list (Z * decoded * (dsd_state -> dsd_state))) (st : dsd_state) : list decoded * bool * dsd_state :=
  match ds with
  | [] => ([], false, st)
  | (databurst, d, after) :: ds =>
      let '(st, go) := dmr_dburst_update_dbsn_sequence opts databurst slot d st in
      if go then let '(accepted, dropped, st) := sequence_run ds (after st) in (d :: accepted, dropped, st)
      else ([], true, st)
  end.

(** The slot expects number [v]; it expects none. *)
Definition expecting (st : dsd_state) (v : Z) : Prop :=
  (data_dbsn_have st).[slot] <> 0 /\ (data_dbsn_expected st).[slot] = v.

(** Arrays of two slots, and a block that may come in them. *)
Definition two_slots (st : dsd_state) : Prop :=
  (slot < length (data_dbsn_expected st))%nat /\ (slot < length (data_dbsn_have st))%nat.

Definition block_in (st : dsd_state) (b : Z * decoded * (dsd_state -> dsd_state)) : Prop :=
  let '(databurst, d, after) := b in
  confirmed_block databurst d st /\ 0 <= dbsn_for_seq d < 128 /\ keeps_sequence after.

Lemma expecting_first v st : two_slots st ->
  let st' := set_data_dbsn_have ((data_dbsn_have st).[slot <- 1]) (set_data_dbsn_expected ((data_dbsn_expected st).[slot <- v]) st) in
  expecting st' v /\ two_slots st' /\ data_conf_data st' = data_conf_data st.
Proof.
  intros [H1 H2]. unfold expecting, two_slots. destruct st. cbn in *. rewrite !nth_insert, !length_insert.
  repeat (destruct (decide _) as [_|[]]; [|by split]). done.
Qed.

Lemma expecting_next v st : two_slots st -> (data_dbsn_have st).[slot] <> 0 ->
  let st' := set_data_dbsn_expected ((data_dbsn_expected st).[slot <- v]) st in
  expecting st' v /\ two_slots st' /\ data_conf_data st' = data_conf_data st.
Proof.
  intros [H1 H2]. unfold expecting, two_slots. destruct st. cbn in *. rewrite !nth_insert, !length_insert.
  destruct (decide _) as [_|[]]; [|by split]. done.
Qed.

(** One block: unnumbered, accepted in sequence, or dropped. *)
Lemma sequence_step databurst d st :
  confirmed_block databurst d st -> 0 <= dbsn_for_seq d < 128 -> two_slots st -> aggressive_framesync opts = 1 ->
  let '(st', go) := dmr_dburst_update_dbsn_sequence opts databurst slot d st in
  (crc_correct d <> 1 /\ go = true /\ st' = st) \/
  (crc_correct d = 1 /\ go = true /\ ((data_dbsn_have st).[slot] <> 0 -> (data_dbsn_expected st).[slot] = dbsn_for_seq d) /\
   expecting st' ((dbsn_for_seq d + 1) mod 128) /\ two_slots st' /\ data_conf_data st' = data_conf_data st) \/
  (crc_correct d = 1 /\ go = false /\ (data_dbsn_have st).[slot] <> 0 /\ (data_dbsn_expected st).[slot] <> dbsn_for_seq d /\
   st' = dmr_reset_blocks st).
Proof.
  intros (Ht & Hconf & Hv) Hd H2 Ha. unfold dmr_dburst_update_dbsn_sequence.
  assert (Htype : (databurst =? 7) || (databurst =? 8) || (databurst =? 10) = true)
    by (destruct Ht as [<-|[<-|[<-|[]]]]; reflexivity).
  rewrite Htype, Hconf, Hv, Ha. cbn [negb orb Z.eqb Pos.eqb andb]. rewrite orb_false_r, andb_true_r.
  assert (Hnext : u8 (Z.land (dbsn_for_seq d + 1) 127) = (dbsn_for_seq d + 1) mod 128).
  { change 127 with (Z.ones 7). rewrite Z.land_ones by lia. unfold u8, wrap. apply Z.mod_small.
    change (2 ^ 7) with 128. change (2 ^ 8) with 256. pose proof (Z.mod_pos_bound (dbsn_for_seq d + 1) 128 ltac:(lia)). lia. }
  rewrite Hnext. destruct (Z.eqb_spec (crc_correct d) 1) as [Ec|Ec]; cbn [andb].
  - destruct (Z.eqb_spec ((data_dbsn_have st).[slot]) 0) as [E0|E0].
    + right; left. do 2 (split; [done|]). split; [done|]. by apply expecting_first.
    + destruct (Z.eqb_spec (dbsn_for_seq d) ((data_dbsn_expected st).[slot])) as [Eq|Ne]; cbn [negb]; right.
      * left. do 3 (split; [done|]). by apply expecting_next.
      * right. by split_and!.
  - destruct (_ =? 0); by left.
Qed.

(** Everything collected is gone, in both slots. *)
Definition collected_cleared (st st' : dsd_state) : Prop :=
  data_dbsn_have st' = [0; 0] /\ data_dbsn_expected st' = [0; 0] /\ data_conf_data st' = [0; 0] /\
  data_header_valid st' = [0; 0] /\ data_header_crc_invalid st' = [0; 0] /\ data_header_format st' = [7; 7] /\
  data_p_head st' = [0; 0] /\ data_block_counter st' = [1; 1] /\
  data_block_crc_valid st' = [repeat 0 127; repeat 0 127] /\
  data_header_blocks (blocks st') = [1; 1] /\ data_byte_ctr (blocks st') = [0; 0] /\
  dmr_pdu_sf (blocks st') = repeat 0 6144 /\ dmr_cach_fragment (blocks st') = repeat 1 68 /\
  cap_plus_csbk_bits (blocks st') = repeat 0 1536 /\ dmr_lrrp_gps (blocks st') = [[]; []] /\
  Forall (fun l => l = [0; 0])
    (map (fun f => f (blocks st')) [data_block_poc; data_header_dd_format; data_header_bit_padding; udt_uab_reserved;
       data_ks_start; dmr_lrrp_source; dmr_lrrp_target; dmr_data_target_is_group; cap_plus_block_num;
       cap_plus_csbk_crc_invalid; data_header_sap]) /\
  currentslot st' = currentslot st /\ input_interrupted st' = input_interrupted st /\
  dmr_embedded_signalling st' = dmr_embedded_signalling st /\ tdma_carrier st' = tdma_carrier st /\
  event_crc_invalid st' = event_crc_invalid st.

Lemma reset_blocks_cleared st : collected_cleared st (dmr_reset_blocks st).
Proof. unfold collected_cleared. split_and!; try reflexivity. cbn [map]. repeat constructor. Qed.

(** The numbers of the accepted blocks whose check was right. *)
Definition numbers (accepted : list decoded) : list Z := map dbsn_for_seq (List.filter (fun d => crc_correct d =? 1) accepted).

Definition blocks_of (ds : list (Z * decoded * (dsd_state -> dsd_state))) : list decoded := map (fun b => snd (fst b)) ds.

(** What a run in the strict mode comes to, counting from [first]. *)
Definition strict_outcome ds st first (accepted : list decoded) (dropped : bool) (st' : dsd_state) : Prop :=
  let known := (data_dbsn_have st).[slot] <> 0 \/ numbers accepted <> [] in
  let next := (first + Z.of_nat (length (numbers accepted))) mod 128 in
  (forall i, (i < length (numbers accepted))%nat -> (numbers accepted).[i] = (first + Z.of_nat i) mod 128) /\
  if dropped
  then exists d rest st1, blocks_of ds = accepted ++ d :: rest /\ crc_correct d = 1 /\ known /\ dbsn_for_seq d <> next /\
         sequence_run (firstn (length accepted) ds) st = (accepted, false, st1) /\ collected_cleared st1 st'
  else blocks_of ds = accepted /\ (known -> expecting st' next) /\ (~ known -> (data_dbsn_have st').[slot] = 0).

(** A block that is accepted leaves the rest of the run. *)
Lemma strict_outcome_unnumbered databurst d after ds st accepted dropped st' first :
  dmr_dburst_update_dbsn_sequence opts databurst slot d st = (st, true) -> crc_correct d <> 1 -> keeps_sequence after ->
  strict_outcome ds (after st) first accepted dropped st' ->
  strict_outcome ((databurst, d, after) :: ds) st first (d :: accepted) dropped st'.
Proof.
  intros Hstep Hc Hk [H1 H2]. destruct (Hk st) as (_ & _ & Eh). unfold strict_outcome in *. rewrite Eh in H2.
  assert (En : numbers (d :: accepted) = numbers accepted).
  { unfold numbers. cbn [List.filter]. by apply Z.eqb_neq in Hc as ->. }
  rewrite En. split; [exact H1|]. destruct dropped.
  - destruct H2 as (x & rest & st1 & E1 & E2 & E3 & E4 & E5 & E6). exists x, rest, st1. split_and!; try done.
    + cbn. by rewrite <- E1.
    + cbn [length firstn sequence_run]. by rewrite Hstep, E5.
  - destruct H2 as (E1 & E2). split; [|done]. cbn. by rewrite <- E1.
Qed.

Lemma strict_outcome_numbered databurst d after ds st st0 accepted dropped st' :
  dmr_dburst_update_dbsn_sequence opts databurst slot d st = (st0, true) -> crc_correct d = 1 -> keeps_sequence after ->
  0 <= dbsn_for_seq d < 128 -> (data_dbsn_have st0).[slot] <> 0 ->
  strict_outcome ds (after st0) ((dbsn_for_seq d + 1) mod 128) accepted dropped st' ->
  strict_outcome ((databurst, d, after) :: ds) st (dbsn_for_seq d) (d :: accepted) dropped st'.
Proof.
  intros Hstep Hc Hk Hd H0 [H1 H2]. destruct (Hk st0) as (_ & _ & Eh). unfold strict_outcome in *. rewrite Eh in H2.
  assert (En : numbers (d :: accepted) = dbsn_for_seq d :: numbers accepted).
  { unfold numbers. cbn [List.filter]. by rewrite Hc. }
  assert (Hs : forall k, (((dbsn_for_seq d + 1) mod 128) + Z.of_nat k) mod 128 = (dbsn_for_seq d + Z.of_nat (S k)) mod 128).
  { intros k. rewrite Z.add_mod_idemp_l by lia. f_equal. lia. }
  rewrite En. cbn [length]. rewrite <- Hs. split.
  - intros [|i] Hi; cbn [nth]; [by rewrite Z.add_0_r, Z.mod_small|]. rewrite H1 by lia. apply Hs.
  - destruct dropped.
    + destruct H2 as (x & rest & st1 & E1 & E2 & _ & E4 & E5 & E6). exists x, rest, st1. split_and!; try done.
      * cbn. by rewrite <- E1.
      * by right.
      * cbn [length firstn sequence_run]. by rewrite Hstep, E5.
    + destruct H2 as (E1 & E2 & _). split; [cbn; by rewrite <- E1|]. split; [intros _; apply E2; by left|].
      intros Hn. exfalso. apply Hn. by right.
Qed.

Lemma block_in_kept st st' after b : data_conf_data st' = data_conf_data st -> keeps_sequence after -> block_in st b -> block_in (after st') b.
Proof.
  destruct b as [[t d] f]. intros E Hk ((A & B & C) & D). destruct (Hk st') as (Ec & _). split; [|done].
  split; [done|]. split; [|done]. by rewrite Ec, E.
Qed.

Lemma two_slots_kept st after : keeps_sequence after -> two_slots st -> two_slots (after st).
Proof. intros Hk. unfold two_slots. destruct (Hk st) as (_ & -> & ->). done. Qed.

Lemma strict_run ds st : aggressive_framesync opts = 1 -> two_slots st -> 0 <= (data_dbsn_expected st).[slot] < 128 ->
  Forall (block_in st) ds ->
  let '(accepted, dropped, st') := sequence_run ds st in
  exists first, ((data_dbsn_have st).[slot] <> 0 -> first = (data_dbsn_expected st).[slot]) /\
    strict_outcome ds st first accepted dropped st'.
Proof.
  intros Ha. revert st. induction ds as [|[[databurst d] after] ds IH]; intros st H2 He Hall.
  { cbn [sequence_run]. exists ((data_dbsn_expected st).[slot]). split; [done|]. split; [cbn; lia|]. split; [done|].
    cbn [numbers List.filter map length]. rewrite Z.add_0_r, Z.mod_small by done. unfold expecting. split; [intuition|].
    intros Hn. destruct (Z.eq_dec ((data_dbsn_have st).[slot]) 0); [done|]. exfalso. apply Hn. by left. }
  apply Forall_cons in Hall as [(Hb & Hd & Hk) Hall]. cbn [sequence_run].
  pose proof (sequence_step databurst d st Hb Hd H2 Ha) as Hs.
  destruct (dmr_dburst_update_dbsn_sequence _ _ _ _ _) as [st1 go] eqn:Es.
  destruct Hs as [(Hc & -> & ->)|[(Hc & -> & Hf & [Hh Hx] & H2' & Ec)|(Hc & -> & Hh & Hne & ->)]].
  - specialize (IH (after st)). rewrite (proj1 (proj2 (Hk st))), (proj2 (proj2 (Hk st))) in IH.
    specialize (IH (two_slots_kept _ _ Hk H2) He).
    destruct (sequence_run ds (after st)) as [[acc dropped] st'].
    destruct IH as (first & F1 & F2); [eapply Forall_impl; [exact Hall|]; intros b; by apply block_in_kept|].
    exists first. split; [exact F1|]. by apply strict_outcome_unnumbered.
  - specialize (IH (after st1)). rewrite (proj1 (proj2 (Hk st1))), (proj2 (proj2 (Hk st1))), Hx in IH.
    specialize (IH (two_slots_kept _ _ Hk H2') (Z.mod_pos_bound _ 128 ltac:(lia))).
    destruct (sequence_run ds (after st1)) as [[acc dropped] st'].
    destruct IH as (first & F1 & F2); [eapply Forall_impl; [exact Hall|]; intros b; by apply block_in_kept|].
    rewrite (F1 Hh) in F2. exists (dbsn_for_seq d). split; [intros H; by rewrite (Hf H)|].
    by eapply strict_outcome_numbered.
  - exists ((data_dbsn_expected st).[slot]). split; [done|]. split; [cbn; lia|]. exists d, (blocks_of ds), st.
    cbn [numbers List.filter map length]. rewrite Z.add_0_r, Z.mod_small by done.
    split_and!; try done; [by left|apply reset_blocks_cleared].
Qed.

Lemma relaxed_run ds st : aggressive_framesync opts <> 1 ->
  fst (sequence_run ds st) = (blocks_of ds, false).
Proof.
  intros Ha. revert st. induction ds as [|[[databurst d] after] ds IH]; intros st; [done|]. cbn [sequence_run].
  assert (Hgo : snd (dmr_dburst_update_dbsn_sequence opts databurst slot d st) = true).
  { unfold dmr_dburst_update_dbsn_sequence. apply Z.eqb_neq in Ha as ->. rewrite andb_false_r. by repeat case_match. }
  destruct (dmr_dburst_update_dbsn_sequence _ _ _ _ _) as [st1 go]. cbn in Hgo. subst go.
  specialize (IH (after st1)). destruct (sequence_run ds (after st1)) as [[acc dropped] st']. cbn in IH. by injection IH as -> ->.
Qed.
End Sequence.

(** C11: the confirmed blocks of a slot, with whatever verdict of their checks,
    and with whatever the program does in between that leaves the sequence
    fields.  In the strict mode the blocks with right checks among those
    accepted are numbered one after another modulo 128, from the number
    expected at first, or from that of the first of them when none was
    expected; blocks with failed checks pass unnumbered and do not count.  The
    first block with a right check and another number is dropped, and then all
    that was collected, in both slots, is cleared and no number is expected.
    If none is dropped every block was accepted and the number expected is the
    next one.  In the relaxed mode none is dropped. *)
Theorem confirmed_blocks_in_sequence opts slot ds st :
  two_slots slot st -> 0 <= (data_dbsn_expected st).[slot] < 128 -> Forall (block_in slot st) ds ->
  let '(accepted, dropped, st') := sequence_run opts slot ds st in
  if decide (aggressive_framesync opts = 1)
  then exists first, ((data_dbsn_have st).[slot] <> 0 -> first = (data_dbsn_expected st).[slot]) /\
    let known := (data_dbsn_have st).[slot] <> 0 \/ numbers accepted <> [] in
    let next := (first + Z.of_nat (length (numbers accepted))) mod 128 in
    (forall i, (i < length (numbers accepted))%nat -> (numbers accepted).[i] = (first + Z.of_nat i) mod 128) /\
    if dropped
    then exists d rest st1, blocks_of ds = accepted ++ d :: rest /\ crc_correct d = 1 /\ known /\ dbsn_for_seq d <> next /\
           sequence_run opts slot (firstn (length accepted) ds) st = (accepted, false, st1) /\ collected_cleared st1 st'
    else blocks_of ds = accepted /\ (known -> expecting slot st' next) /\ (~ known -> (data_dbsn_have st').[slot] = 0)
  else accepted = blocks_of ds /\ dropped = false.
Proof.
  intros H2 He Hall. destruct (decide (aggressive_framesync opts = 1)) as [Ha|Ha].
  - exact (strict_run opts slot ds st Ha H2 He Hall).
  - pose proof (relaxed_run opts slot ds st Ha) as H. destruct (sequence_run opts slot ds st) as [[acc dropped] st'].
    cbn in H. by injection H as -> ->.
Qed.

Lemma confirmed_blocks_in_sequence_witness :
  let z2 := [0; 0] in
  let st := State 1 0 [] 0 z2 z2 [0; 1] z2 z2 (replicate 2 (replicate 127 0)) z2 z2 z2 z2
    (BlockStore [] [] [] [] [] [] [] [] [] [] [] [] [] [] [] [] []) in
  let ds := map (fun '(n, correct) => (0x08, Decoded correct 0 false 0 [] [] n true, id)) [(9, 0); (126, 1); (3, 0); (127, 1); (0, 1); (5, 1); (1, 1)] in
  let '(accepted, dropped, st') := sequence_run (Opts 1 0) 1 ds st in
  numbers accepted = [126; 127; 0] /\ exists first, forall i, (i < length (numbers accepted))%nat -> (numbers accepted).[i] = (first + Z.of_nat i) mod 128.
Proof.
  intros z2 st ds.
  pose proof (confirmed_blocks_in_sequence (Opts 1 0) 1 ds st) as H.
  specialize (H ltac:(split; cbn; lia) ltac:(cbn; lia)).
  destruct (sequence_run (Opts 1 0) 1 ds st) as [[acc dropped] st'] eqn:E. cbn [aggressive_framesync] in H. rewrite decide_True in H by done.
  split; [injection E as <- <- <-; reflexivity|].
  destruct H as (first & _ & H & _); [|by exists first].
  repeat (apply Forall_cons; split; [split; [split; [cbn; tauto|by split]|split; [cbn; lia|done]]|]). apply Forall_nil_2.
Defined.
