(* ===== verification/TuneGate.v ===== *)
(** * [runtime/trunk_tuning_hooks.c]: the tuning request pool and the frame gate

    Tuning requests live in a pool of 64 records protected by a lock.  Two
    atomics are read without it: the tuning generation, and the number of
    unresolved requests.  A frame may be dispatched only while no request is
    unresolved and the frame's generation is the current one.

    An operation's critical section is a function on the records that also
    lists its writes to the two atomics, in program order ([event]); the
    records can only be seen under the lock, the atomics at any time.
    [tgate] with [locked] is the sequential reading (the writes happen at
    once); [Module Conc] is the concurrent one, where other threads read and
    advance the generation between any two writes. *)
From stdpp Require Import relations.
From S2P Require Import Prelude.

(** ** Data *)

Variant dsd_trunk_tune_result :=
  | DSD_TRUNK_TUNE_RESULT_OK
  | DSD_TRUNK_TUNE_RESULT_DEFERRED
  | DSD_TRUNK_TUNE_RESULT_PENDING
  | DSD_TRUNK_TUNE_RESULT_FAILED
  | DSD_TRUNK_TUNE_RESULT_TIMEOUT.

#[export] Instance tune_result_eq_dec : EqDecision dsd_trunk_tune_result.
Proof. solve_decision. Defined.

Variant dsd_trunk_tuning_request_state :=
  | REQUEST_FREE
  | REQUEST_PENDING
  | REQUEST_FAILED_GATED
  | REQUEST_FINISHED.

#[export] Instance request_state_eq_dec : EqDecision dsd_trunk_tuning_request_state.
Proof. solve_decision. Defined.

Record dsd_trunk_tuning_request_record := mk_request {
  request_id : Z;
  completed_m_ns : Z;
  result : dsd_trunk_tune_result;
  state : dsd_trunk_tuning_request_state;
  inherited_failure_gate : bool;
  backend_complete : bool;
  owner_ready : bool;
  disowned : bool
}.
Notation request := dsd_trunk_tuning_request_record.

Definition REQUEST_HISTORY : nat := 64.

(** [(dsd_trunk_tuning_request_record){0}]. *)
Definition request_zero : request :=
  mk_request 0 0 DSD_TRUNK_TUNE_RESULT_OK REQUEST_FREE false false false false.

Definition set_state (s : dsd_trunk_tuning_request_state) (r : request) : request :=
  mk_request (request_id r) (completed_m_ns r) (result r) s (inherited_failure_gate r)
    (backend_complete r) (owner_ready r) (disowned r).

Definition set_result (x : dsd_trunk_tune_result) (r : request) : request :=
  mk_request (request_id r) (completed_m_ns r) x (state r) (inherited_failure_gate r)
    (backend_complete r) (owner_ready r) (disowned r).

(** [result = x; completed_m_ns = now; backend_complete = 1]. *)
Definition set_backend (x : dsd_trunk_tune_result) (now : Z) (r : request) : request :=
  mk_request (request_id r) now x (state r) (inherited_failure_gate r) true (owner_ready r) (disowned r).

Definition set_owner_ready (r : request) : request :=
  mk_request (request_id r) (completed_m_ns r) (result r) (state r) (inherited_failure_gate r)
    (backend_complete r) true (disowned r).

Definition set_disowned (r : request) : request :=
  mk_request (request_id r) (completed_m_ns r) (result r) (state r) (inherited_failure_gate r)
    (backend_complete r) true true.

Definition is_complete (x : dsd_trunk_tune_result) : bool :=
  match x with DSD_TRUNK_TUNE_RESULT_OK => true | _ => false end.

Definition is_pending_result (x : dsd_trunk_tune_result) : bool :=
  match x with DSD_TRUNK_TUNE_RESULT_PENDING => true | _ => false end.

(** A write to one of the two atomics. *)
Variant event :=
  | GenerationAdvance                (** [fetch_add(generation, 1)] *)
  | UnresolvedAdd (d : Z)            (** [fetch_add(unresolved_count, d)] *)
  | UnresolvedStore (v : Z).         (** [store(unresolved_count, v)] *)

(** ** Critical sections *)

(** [request_find_locked]: the index of the record, if any. *)
Fixpoint request_find_locked (id : Z) (rs : list request) : option nat :=
  match rs with
  | [] => None
  | r :: rs =>
      if (request_id r =? id) && negb (bool_decide (state r = REQUEST_FREE)) then Some O
      else S <$> request_find_locked id rs
  end.

(** [!oldest || record->request_id < oldest->request_id]. *)
Definition older (r : request) (oldest : option (nat * Z)) : bool :=
  match oldest with None => true | Some (_, id) => request_id r <? id end.

(** [request_slot_locked]: a free record, else the oldest finished one, else
    the oldest failed one, whose gate is inherited; never a pending one. *)
Fixpoint request_slot_from (rs : list request) (i : nat)
    (oldest_finished oldest_failed : option (nat * Z)) : option (nat * bool) :=
  match rs with
  | [] =>
      match oldest_finished, oldest_failed with
      | Some (i, _), _ => Some (i, false)
      | None, Some (i, _) => Some (i, true)
      | None, None => None
      end
  | r :: rs =>
      match state r with
      | REQUEST_FREE => Some (i, false)
      | REQUEST_FINISHED =>
          request_slot_from rs (S i)
            (if older r oldest_finished then Some (i, request_id r) else oldest_finished) oldest_failed
      | REQUEST_FAILED_GATED =>
          request_slot_from rs (S i) oldest_finished
            (if older r oldest_failed then Some (i, request_id r) else oldest_failed)
      | REQUEST_PENDING => request_slot_from rs (S i) oldest_finished oldest_failed
      end
  end.

Definition request_slot_locked (rs : list request) : option (nat * bool) :=
  request_slot_from rs 0 None None.

(** The loop that finishes the failed requests whose id satisfies [p]. *)
Fixpoint retire_failed_where (p : Z -> bool) (rs : list request) : list request * list event :=
  match rs with
  | [] => ([], [])
  | r :: rs =>
      let '(rs, ev) := retire_failed_where p rs in
      if bool_decide (state r = REQUEST_FAILED_GATED) && p (request_id r)
      then (set_state REQUEST_FINISHED r :: rs, UnresolvedAdd (-1) :: ev)
      else (r :: rs, ev)
  end.

(** Updates the record at [i] and goes on. *)
Definition upd (i : nat) (f : request -> request) (rs : list request) : list request := alter f i rs.

Definition finish_success_locked (i : nat) (rs : list request) : list request * list event :=
  match rs !! i with
  | Some r =>
      if bool_decide (state r = REQUEST_PENDING) then
        let '(rs, ev) :=
          retire_failed_where (fun id => id <? request_id r) (upd i (set_state REQUEST_FINISHED) rs) in
        (rs, GenerationAdvance :: UnresolvedAdd (-1) :: ev)
      else (rs, [])
  | None => (rs, [])
  end.

Definition finish_rolled_back_locked (i : nat) (rs : list request) : list request * list event :=
  match rs !! i with
  | Some r =>
      if bool_decide (state r = REQUEST_FINISHED) then (rs, [])
      else if inherited_failure_gate r then (upd i (set_state REQUEST_FAILED_GATED) rs, [])
      else (upd i (set_state REQUEST_FINISHED) rs, [UnresolvedAdd (-1)])
  | None => (rs, [])
  end.

(** The locked half of [request_begin]: the id, or 0 when all are pending. *)
Definition begin_locked (id : Z) (rs : list request) : list request * list event * Z :=
  match request_slot_locked rs with
  | None => (rs, [], 0)
  | Some (i, inherited) =>
      (<[i := mk_request id 0 DSD_TRUNK_TUNE_RESULT_PENDING REQUEST_PENDING inherited false false false]> rs,
       if inherited then [] else [UnresolvedAdd 1], id)
  end.

Definition reset_locked (rs : list request) : list request * list event :=
  (replicate REQUEST_HISTORY request_zero, [UnresolvedStore 0]).

Definition publish_locked (id : Z) (x : dsd_trunk_tune_result) (now : Z) (rs : list request)
  : list request * list event :=
  match request_find_locked id rs with
  | None => (rs, [])
  | Some i =>
      match rs !! i with
      | None => (rs, [])
      | Some r =>
          if negb (bool_decide (state r = REQUEST_PENDING)) then (rs, [])
          else
            let rs := upd i (set_backend x now) rs in
            if is_complete x then
              if owner_ready r then finish_success_locked i rs else (rs, [])
            else if disowned r then finish_rolled_back_locked i rs
            else (upd i (set_state REQUEST_FAILED_GATED) rs, [])
      end
  end.

Definition mark_ready_locked (id : Z) (rs : list request) : list request * list event :=
  match request_find_locked id rs with
  | None => (rs, [])
  | Some i =>
      match rs !! i with
      | None => (rs, [])
      | Some r =>
          if bool_decide (state r = REQUEST_PENDING) then
            let rs := upd i set_owner_ready rs in
            if backend_complete r && is_complete (result r) then finish_success_locked i rs
            else (rs, [])
          else (rs, [])
      end
  end.

Definition complete_locked (id : Z) (x : dsd_trunk_tune_result) (now : Z) (rs : list request)
  : list request * list event :=
  match request_find_locked id rs with
  | None => (rs, [])
  | Some i =>
      match rs !! i with
      | None => (rs, [])
      | Some r =>
          if bool_decide (state r = REQUEST_FINISHED) then (rs, [])
          else
            let rs := upd i set_owner_ready rs in
            if bool_decide (state r = REQUEST_FAILED_GATED) then
              if negb (is_complete x) then finish_rolled_back_locked i rs else (rs, [])
            else if negb (backend_complete r) then
              let rs := upd i (set_backend x now) rs in
              if is_complete x then finish_success_locked i rs else finish_rolled_back_locked i rs
            else
              let backend_committed := is_complete (result r) in
              let owner_committed := is_complete x in
              if backend_committed && owner_committed then finish_success_locked i rs
              else if negb backend_committed && negb owner_committed then finish_rolled_back_locked i rs
              else
                let rs := if negb owner_committed then upd i (set_result x) rs else rs in
                (upd i (set_state REQUEST_FAILED_GATED) rs, [])
      end
  end.

Definition disown_locked (id : Z) (rs : list request) : list request * list event :=
  match request_find_locked id rs with
  | None => (rs, [])
  | Some i =>
      match rs !! i with
      | None => (rs, [])
      | Some r =>
          if bool_decide (state r = REQUEST_PENDING) then
            let rs := upd i set_disowned rs in
            if backend_complete r && is_complete (result r) then finish_success_locked i rs
            else (rs, [])
          else if bool_decide (state r = REQUEST_FAILED_GATED) then finish_rolled_back_locked i rs
          else (rs, [])
      end
  end.

(** ** The module's statics, and its functions run one after the other *)

Record tgate := mk_tgate {
  generation : Z;
  next_request : Z;
  unresolved_count : Z;
  requests : list request
}.

Definition tgate_init : tgate := mk_tgate 1 0 0 (replicate REQUEST_HISTORY request_zero).

Definition apply_event (e : event) (g u : Z) : Z * Z :=
  match e with
  | GenerationAdvance => (u64 (g + 1), u)
  | UnresolvedAdd d => (g, u + d)
  | UnresolvedStore v => (g, v)
  end.

Definition apply_events (ev : list event) (g u : Z) : Z * Z :=
  fold_left (fun '(g, u) e => apply_event e g u) ev (g, u).

(** Take the lock, run a critical section, release the lock. *)
Definition locked (op : list request -> list request * list event) (st : tgate) : tgate :=
  let '(rs, ev) := op (requests st) in
  let '(g, u) := apply_events ev (generation st) (unresolved_count st) in
  mk_tgate g (next_request st) u rs.

Definition generation_advance (st : tgate) : tgate :=
  mk_tgate (u64 (generation st + 1)) (next_request st) (unresolved_count st) (requests st).

Definition last_request (st : tgate) : Z := next_request st.

(** [do { id = fetch_add(next_request, 1) + 1; } while (id == 0);] the
    second turn, after the counter wrapped, gives 1. *)
Definition fetch_request_id (next : Z) : Z * Z :=
  let id := u64 (next + 1) in
  if id =? 0 then (u64 (id + 1), u64 (id + 1)) else (id, id).

Definition request_begin (st : tgate) : tgate * Z :=
  let '(next, id) := fetch_request_id (next_request st) in
  let st := mk_tgate (generation st) next (unresolved_count st) (requests st) in
  (locked (fun rs => fst (begin_locked id rs)) st, snd (begin_locked id (requests st))).

Definition requests_reset (st : tgate) : tgate := locked reset_locked st.

Definition retire_failed_requests (st : tgate) : tgate :=
  if unresolved_count st =? 0 then st else locked (retire_failed_where (fun _ => true)) st.

Definition retire_failed_requests_through (id : Z) (st : tgate) : tgate :=
  if (id =? 0) || (unresolved_count st =? 0) then st
  else locked (retire_failed_where (fun x => x <=? id)) st.

Definition request_publish (id : Z) (x : dsd_trunk_tune_result) (now : Z) (st : tgate) : tgate :=
  if (id =? 0) || is_pending_result x then st else locked (publish_locked id x now) st.

Definition request_mark_ready (id : Z) (st : tgate) : tgate :=
  if id =? 0 then st else locked (mark_ready_locked id) st.

Definition request_complete (id : Z) (x : dsd_trunk_tune_result) (now : Z) (st : tgate) : tgate :=
  if (id =? 0) || is_pending_result x then st else locked (complete_locked id x now) st.

Definition request_disown (id : Z) (st : tgate) : tgate :=
  if id =? 0 then st else locked (disown_locked id) st.

Definition is_unresolved (r : request) : bool :=
  match state r with REQUEST_PENDING | REQUEST_FAILED_GATED => true | _ => false end.

(** The newest unresolved request. *)
Definition pending_request (st : tgate) : Z :=
  fold_left (fun newest r => if is_unresolved r && (newest <? request_id r) then request_id r else newest)
    (requests st) 0.

(** The result, and the time stored in [*out_completed_m] (nanoseconds, 0 for
    none). *)
Definition request_status (id : Z) (st : tgate) : dsd_trunk_tune_result * Z :=
  if id =? 0 then (DSD_TRUNK_TUNE_RESULT_FAILED, 0)
  else match request_find_locked id (requests st) ≫= (fun i => requests st !! i) with
       | None => (DSD_TRUNK_TUNE_RESULT_FAILED, 0)
       | Some r =>
           (if bool_decide (state r = REQUEST_PENDING) then DSD_TRUNK_TUNE_RESULT_PENDING else result r,
            completed_m_ns r)
       end.

(** The four loads of [frame_is_current], in order: the counter, the generation,
    the counter and the generation again. *)
Definition frame_loads (frame_generation unresolved1 generation1 unresolved2 generation2 : Z) : bool :=
  if negb (unresolved1 =? 0) then false
  else if negb (frame_generation =? generation1) then false
  else if negb (unresolved2 =? 0) then false
  else frame_generation =? generation2.

Definition frame_is_current (frame_generation : Z) (st : tgate) : bool :=
  frame_loads frame_generation (unresolved_count st) (generation st) (unresolved_count st) (generation st).

Definition frame_is_dispatchable (frame_generation : Z) (tune_owner_active : bool) (st : tgate)
  : tgate * bool :=
  let st := if negb tune_owner_active then retire_failed_requests st else st in
  (st, frame_is_current frame_generation st).

Definition note_result (id : Z) (x : dsd_trunk_tune_result) (now : Z) (st : tgate)
  : tgate * dsd_trunk_tune_result :=
  match x with
  | DSD_TRUNK_TUNE_RESULT_PENDING =>
      let st := request_mark_ready id st in
      let status := fst (request_status id st) in
      (st, match status with DSD_TRUNK_TUNE_RESULT_OK => status | _ => x end)
  | _ =>
      let st := request_complete id x now st in
      (st, fst (request_status id st))
  end.

(** *** Hooks

    The tuner backend, reached through function pointers.  A hook works on the
    options and the state of the session ([E]), which this module only passes
    along, and may call back into this module (to publish a result) before it
    returns; [now] is the decode clock when the hook's result is noted. *)
Section Hooks.
Context {E : Type}.

Record dsd_trunk_tuning_hooks := {
  tune_to_freq_request : option (Z -> Z -> Z -> E * tgate -> E * tgate * dsd_trunk_tune_result);
  tune_to_cc_request : option (Z -> Z -> Z -> E * tgate -> E * tgate * dsd_trunk_tune_result);
  return_to_cc_request : option (Z -> E * tgate -> E * tgate * dsd_trunk_tune_result)
}.

(** The common body of the three entry points: the final state, the result
    and [*out_request_id]. *)
Definition hook_run (hook : option (Z -> E * tgate -> E * tgate * dsd_trunk_tune_result)) (now : Z)
    (es : E * tgate) : E * tgate * dsd_trunk_tune_result * Z :=
  let '(e, st) := es in
  let '(st, id) := request_begin st in
  if id =? 0 then (e, st, DSD_TRUNK_TUNE_RESULT_FAILED, id)
  else match hook with
       | Some hook =>
           let '(e, st, x) := hook id (e, st) in
           let '(st, x) := note_result id x now st in (e, st, x, id)
       | None =>
           let '(st, x) := note_result id DSD_TRUNK_TUNE_RESULT_FAILED now st in (e, st, x, id)
       end.

Definition hook_tune_to_freq (h : dsd_trunk_tuning_hooks) (freq ted_sps now : Z) :=
  hook_run ((fun f id => f freq ted_sps id) <$> tune_to_freq_request h) now.

Definition hook_tune_to_cc (h : dsd_trunk_tuning_hooks) (freq ted_sps now : Z) :=
  hook_run ((fun f id => f freq ted_sps id) <$> tune_to_cc_request h) now.

Definition hook_return_to_cc (h : dsd_trunk_tuning_hooks) (now : Z) :=
  hook_run (return_to_cc_request h) now.
End Hooks.
Arguments dsd_trunk_tuning_hooks : clear implicits.

(** One call into the module. *)
Inductive gate_step : tgate -> tgate -> Prop :=
  | step_advance st : gate_step st (generation_advance st)
  | step_begin st : next_request st + 1 < 2 ^ 64 -> gate_step st (fst (request_begin st))
  | step_reset st : gate_step st (requests_reset st)
  | step_retire st : gate_step st (retire_failed_requests st)
  | step_retire_through id st : gate_step st (retire_failed_requests_through id st)
  | step_publish id x now st : gate_step st (request_publish id x now st)
  | step_mark_ready id st : gate_step st (request_mark_ready id st)
  | step_complete id x now st : gate_step st (request_complete id x now st)
  | step_disown id st : gate_step st (request_disown id st).

(** ** The accounting of a critical section

    [unresolved rs] is what [unresolved_count] should hold.  [sec rs ev rs']
    says that a critical section turned [rs] into [rs'], kept which records are
    in use and their ids, and that its writes [ev] to the atomics, none of them
    a plain store, account for the change. *)

Fixpoint unresolved (rs : list request) : Z :=
  match rs with [] => 0 | r :: rs => Z.b2z (is_unresolved r) + unresolved rs end.

Definition shape (r : request) : Z * bool := (request_id r, bool_decide (state r = REQUEST_FREE)).

Definition is_store (e : event) : bool := match e with UnresolvedStore _ => true | _ => false end.
Definition event_delta (e : event) : Z := match e with UnresolvedAdd d => d | _ => 0 end.
Fixpoint delta (ev : list event) : Z := match ev with [] => 0 | e :: ev => event_delta e + delta ev end.
Definition event_gen (e : event) : Z := match e with GenerationAdvance => 1 | _ => 0 end.
Fixpoint gens (ev : list event) : Z := match ev with [] => 0 | e :: ev => event_gen e + gens ev end.

Definition sec (rs : list request) (ev : list event) (rs' : list request) : Prop :=
  forallb (fun e => negb (is_store e)) ev = true /\
  unresolved rs' = unresolved rs + delta ev /\
  map shape rs' = map shape rs.

Lemma delta_app ev1 ev2 : delta (ev1 ++ ev2) = delta ev1 + delta ev2.
Proof. induction ev1 as [|e ev1 IH]; cbn; [done|]. rewrite IH. lia. Qed.

Lemma sec_refl rs : sec rs [] rs.
Proof. repeat split; cbn; lia. Qed.

Lemma sec_trans rs1 rs2 rs3 ev1 ev2 : sec rs1 ev1 rs2 -> sec rs2 ev2 rs3 -> sec rs1 (ev1 ++ ev2) rs3.
Proof.
  intros (Hs1 & Hu1 & Hm1) (Hs2 & Hu2 & Hm2). refine (conj _ (conj _ _)).
  - by rewrite forallb_app, Hs1, Hs2.
  - rewrite delta_app. lia.
  - congruence.
Qed.

Lemma sec_trans_nil rs1 rs2 rs3 ev : sec rs1 [] rs2 -> sec rs2 ev rs3 -> sec rs1 ev rs3.
Proof. apply (sec_trans rs1 rs2 rs3 []). Qed.

Lemma unresolved_nonneg rs : 0 <= unresolved rs.
Proof. induction rs as [|r rs IH]; cbn; [done|]. destruct (is_unresolved r); cbn; lia. Qed.

Lemma unresolved_upd i f rs r :
  rs !! i = Some r ->
  unresolved (upd i f rs) = unresolved rs - Z.b2z (is_unresolved r) + Z.b2z (is_unresolved (f r)).
Proof.
  unfold upd. revert i. induction rs as [|x rs IH]; intros [|i] H; cbn in *; try done.
  - injection H as ->. lia.
  - rewrite (IH i H). lia.
Qed.

Lemma shape_upd i f rs r :
  rs !! i = Some r -> shape (f r) = shape r -> map shape (upd i f rs) = map shape rs.
Proof.
  unfold upd. revert i. induction rs as [|x rs IH]; intros [|i] H Hf; cbn in *; try done.
  - injection H as ->. by rewrite Hf.
  - by rewrite IH.
Qed.

Lemma upd_lookup i f rs r : rs !! i = Some r -> upd i f rs !! i = Some (f r).
Proof. intros H. unfold upd. by rewrite list_lookup_alter_eq, H. Qed.

(** One record changes its fields; [d] is what that adds to the count. *)
Lemma sec_upd i f rs r ev :
  rs !! i = Some r -> shape (f r) = shape r ->
  forallb (fun e => negb (is_store e)) ev = true ->
  Z.b2z (is_unresolved (f r)) = Z.b2z (is_unresolved r) + delta ev ->
  sec rs ev (upd i f rs).
Proof.
  intros Hr Hf Hs Hd. refine (conj Hs (conj _ _)); [|by eapply shape_upd].
  rewrite (unresolved_upd _ _ _ _ Hr). lia.
Qed.

Lemma retire_sec p rs : sec rs (snd (retire_failed_where p rs)) (fst (retire_failed_where p rs)).
Proof.
  induction rs as [|r rs IH]; cbn; [apply sec_refl|].
  destruct (retire_failed_where p rs) as [rs' ev]. cbn in IH. destruct IH as (Hs & Hu & Hm).
  destruct (bool_decide (state r = REQUEST_FAILED_GATED) && p (request_id r)) eqn:E; cbn [fst snd].
  - apply andb_true_iff in E as [E _]. apply bool_decide_eq_true in E.
    refine (conj Hs (conj _ _)).
    + cbn. unfold is_unresolved at 1. rewrite E. cbn. lia.
    + cbn [map]. rewrite Hm. f_equal. unfold shape. cbn. by rewrite E.
  - refine (conj Hs (conj _ _)); [cbn; lia|]. cbn [map]. by rewrite Hm.
Qed.

Lemma finish_success_sec i rs :
  sec rs (snd (finish_success_locked i rs)) (fst (finish_success_locked i rs)).
Proof.
  unfold finish_success_locked. destruct (rs !! i) as [r|] eqn:Hr; [|apply sec_refl].
  case_bool_decide as E; [|apply sec_refl].
  pose proof (retire_sec (fun id => id <? request_id r) (upd i (set_state REQUEST_FINISHED) rs)) as Hret.
  destruct (retire_failed_where _ _) as [rs' ev]. cbn in *.
  apply (sec_trans _ (upd i (set_state REQUEST_FINISHED) rs) _ [GenerationAdvance; UnresolvedAdd (-1)]); [|done].
  apply (sec_upd _ _ _ r); [done| |done|].
  - unfold shape. cbn. by rewrite E.
  - unfold is_unresolved. cbn. by rewrite E.
Qed.

Lemma finish_rolled_back_sec i rs :
  (forall r, rs !! i = Some r -> state r <> REQUEST_FREE) ->
  sec rs (snd (finish_rolled_back_locked i rs)) (fst (finish_rolled_back_locked i rs)).
Proof.
  intros Hfree. unfold finish_rolled_back_locked. destruct (rs !! i) as [r|] eqn:Hr; [|apply sec_refl].
  specialize (Hfree r eq_refl). case_bool_decide as E; [apply sec_refl|].
  destruct (inherited_failure_gate r); apply (sec_upd _ _ _ r); try done;
    unfold shape, is_unresolved; cbn; destruct (state r); done.
Qed.

Lemma request_find_spec id rs i :
  request_find_locked id rs = Some i ->
  exists r, rs !! i = Some r /\ request_id r = id /\ state r <> REQUEST_FREE.
Proof.
  revert i. induction rs as [|r rs IH]; intros i H; cbn in H; [done|].
  destruct ((request_id r =? id) && negb (bool_decide (state r = REQUEST_FREE))) eqn:E.
  - injection H as <-. exists r. apply andb_true_iff in E as [E1 E2].
    apply Z.eqb_eq in E1. apply negb_true_iff, bool_decide_eq_false in E2. done.
  - destruct (request_find_locked id rs) as [j|]; [|done]. injection H as <-. by apply IH.
Qed.

Lemma sec_set_fields i f rs r :
  rs !! i = Some r -> shape (f r) = shape r -> state (f r) = state r -> sec rs [] (upd i f rs).
Proof.
  intros Hr Hf Hs. apply (sec_upd _ _ _ r); try done. unfold is_unresolved. rewrite Hs. cbn. lia.
Qed.

(** An unresolved record changes its fields and stays unresolved. *)
Lemma sec_gated i rs r :
  rs !! i = Some r -> is_unresolved r = true -> sec rs [] (upd i (set_state REQUEST_FAILED_GATED) rs).
Proof.
  intros Hr Hu. apply (sec_upd _ _ _ r); try done.
  - unfold shape, is_unresolved in *. cbn. by destruct (state r).
  - rewrite Hu. done.
Qed.

(** Runs a section after an update of record [i] that only sets fields. *)
Ltac sec_after r :=
  match goal with
  | |- sec ?rs _ _ =>
      match goal with
      | |- context [upd ?i ?f rs] =>
          apply (sec_trans_nil rs (upd i f rs)); [by apply (sec_set_fields i f rs r)|]
      end
  end.

Ltac not_free := intros ? Hx; erewrite upd_lookup in Hx by eassumption; injection Hx as <-; done.

Lemma publish_sec id x now rs : sec rs (snd (publish_locked id x now rs)) (fst (publish_locked id x now rs)).
Proof.
  unfold publish_locked. destruct (request_find_locked id rs) as [i|] eqn:Hf; [|apply sec_refl].
  destruct (request_find_spec _ _ _ Hf) as (r & Hr & _ & Hfree). rewrite Hr.
  case_bool_decide as Hp; cbn [negb]; [|apply sec_refl].
  destruct (is_complete x); [destruct (owner_ready r)|destruct (disowned r)].
  - sec_after r. apply finish_success_sec.
  - sec_after r. apply sec_refl.
  - sec_after r. apply finish_rolled_back_sec. not_free.
  - sec_after r. eapply sec_gated; [by apply upd_lookup|]. unfold is_unresolved. cbn. by rewrite Hp.
Qed.

Lemma mark_ready_sec id rs : sec rs (snd (mark_ready_locked id rs)) (fst (mark_ready_locked id rs)).
Proof.
  unfold mark_ready_locked. destruct (request_find_locked id rs) as [i|] eqn:Hf; [|apply sec_refl].
  destruct (request_find_spec _ _ _ Hf) as (r & Hr & _ & Hfree). rewrite Hr.
  case_bool_decide as Hp; [|apply sec_refl].
  destruct (_ && _); sec_after r; [apply finish_success_sec|apply sec_refl].
Qed.

Lemma disown_sec id rs : sec rs (snd (disown_locked id rs)) (fst (disown_locked id rs)).
Proof.
  unfold disown_locked. destruct (request_find_locked id rs) as [i|] eqn:Hf; [|apply sec_refl].
  destruct (request_find_spec _ _ _ Hf) as (r & Hr & _ & Hfree). rewrite Hr.
  case_bool_decide as Hp; [|case_bool_decide].
  - destruct (_ && _); sec_after r; [apply finish_success_sec|apply sec_refl].
  - apply finish_rolled_back_sec. intros. by simplify_eq.
  - apply sec_refl.
Qed.

Lemma complete_sec id x now rs :
  sec rs (snd (complete_locked id x now rs)) (fst (complete_locked id x now rs)).
Proof.
  unfold complete_locked. destruct (request_find_locked id rs) as [i|] eqn:Hf; [|apply sec_refl].
  destruct (request_find_spec _ _ _ Hf) as (r & Hr & _ & Hfree). rewrite Hr.
  case_bool_decide as Hfin; [apply sec_refl|].
  assert (Hr' : upd i set_owner_ready rs !! i = Some (set_owner_ready r)) by by apply upd_lookup.
  case_bool_decide as Hg.
  { destruct (negb _); sec_after r; [|apply sec_refl]. apply finish_rolled_back_sec. not_free. }
  destruct (negb (backend_complete r)).
  { sec_after r. destruct (is_complete x); sec_after (set_owner_ready r);
      [apply finish_success_sec|apply finish_rolled_back_sec; not_free]. }
  destruct (is_complete (result r) && is_complete x); [|destruct (negb _ && negb _)].
  - sec_after r. apply finish_success_sec.
  - sec_after r. apply finish_rolled_back_sec. not_free.
  - sec_after r. assert (Hu : is_unresolved r = true) by (unfold is_unresolved; by destruct (state r)).
    destruct (negb (is_complete x)).
    + sec_after (set_owner_ready r). eapply sec_gated; [by apply upd_lookup|done].
    + by eapply sec_gated.
Qed.

(** ** Slot allocation *)

(** No record of [rs] is in state [s]; the record is the oldest in state [s]. *)
Definition none_in (s : dsd_trunk_tuning_request_state) (rs : list request) : Prop :=
  Forall (fun r => state r <> s) rs.

Definition oldest_in (s : dsd_trunk_tuning_request_state) (r : request) (rs : list request) : Prop :=
  state r = s /\ Forall (fun r' => state r' = s -> request_id r <= request_id r') rs.

(** What [begin] may overwrite, in order of preference. *)
Definition evictable (rs : list request) (r : request) (inherited : bool) : Prop :=
  (inherited = false /\ state r = REQUEST_FREE) \/
  (inherited = false /\ none_in REQUEST_FREE rs /\ oldest_in REQUEST_FINISHED r rs) \/
  (inherited = true /\ none_in REQUEST_FREE rs /\ none_in REQUEST_FINISHED rs /\
   oldest_in REQUEST_FAILED_GATED r rs).

Definition acc_ok (s : dsd_trunk_tuning_request_state) (pre : list request) (acc : option (nat * Z)) : Prop :=
  match acc with
  | None => none_in s pre
  | Some (k, id) => exists r, pre !! k = Some r /\ request_id r = id /\ oldest_in s r pre
  end.

Lemma acc_ok_skip s pre acc r : acc_ok s pre acc -> state r <> s -> acc_ok s (pre ++ [r]) acc.
Proof.
  intros Ha Hr. destruct acc as [[k id]|]; cbn in *.
  - destruct Ha as (r' & Hk & Hid & Hs & Hmin). exists r'. rewrite lookup_app_l by by eapply lookup_lt_Some.
    refine (conj Hk (conj Hid (conj Hs _))). apply Forall_app. split; [done|].
    apply Forall_singleton. by intros.
  - apply Forall_app. split; [done|]. by apply Forall_singleton.
Qed.

Lemma acc_ok_take s pre acc r :
  acc_ok s pre acc -> state r = s ->
  acc_ok s (pre ++ [r]) (if older r acc then Some (length pre, request_id r) else acc).
Proof.
  intros Ha Hr.
  assert (Hnew : Forall (fun r' => state r' = s -> request_id r <= request_id r') pre ->
                 acc_ok s (pre ++ [r]) (Some (length pre, request_id r))).
  { intros Hmin. exists r. rewrite lookup_app_r, Nat.sub_diag by lia. repeat split; [done|].
    apply Forall_app. split; [done|]. apply Forall_singleton. lia. }
  destruct acc as [[k id]|]; cbn in *.
  - destruct Ha as (r' & Hk & Hid & Hs & Hmin). destruct (Z.ltb_spec (request_id r) id) as [Hlt|Hge].
    + apply Hnew. eapply Forall_impl; [apply Hmin|]. cbn. intros x Hx Hsx. specialize (Hx Hsx). lia.
    + exists r'. rewrite lookup_app_l by by eapply lookup_lt_Some. repeat split; try done.
      apply Forall_app. split; [done|]. apply Forall_singleton. lia.
  - apply Hnew. eapply Forall_impl; [apply Ha|]. cbn. intros. contradiction.
Qed.

Lemma request_slot_from_spec rs pre fin fld :
  none_in REQUEST_FREE pre -> acc_ok REQUEST_FINISHED pre fin -> acc_ok REQUEST_FAILED_GATED pre fld ->
  match request_slot_from rs (length pre) fin fld with
  | Some (i, inherited) => exists r, (pre ++ rs) !! i = Some r /\ evictable (pre ++ rs) r inherited
  | None => Forall (fun r => state r = REQUEST_PENDING) (pre ++ rs)
  end.
Proof.
  revert pre fin fld. induction rs as [|r rs IH]; intros pre fin fld Hfree Hfin Hfld; cbn.
  { rewrite app_nil_r. destruct fin as [[k id]|]; cbn in Hfin.
    - destruct Hfin as (r & Hr & _ & Ho). exists r. split; [done|]. right. left. done.
    - destruct fld as [[k id]|]; cbn in Hfld.
      + destruct Hfld as (r & Hr & _ & Ho). exists r. split; [done|]. right. right. done.
      + apply Forall_forall. intros r Hr. unfold none_in in *. rewrite Forall_forall in Hfree, Hfin, Hfld.
        specialize (Hfree r Hr). specialize (Hfin r Hr). specialize (Hfld r Hr). by destruct (state r). }
  replace (S (length pre)) with (length (pre ++ [r])) by len.
  replace (pre ++ r :: rs) with ((pre ++ [r]) ++ rs) by by rewrite <- app_assoc.
  destruct (state r) eqn:Hs.
  - exists r. rewrite <- app_assoc, lookup_app_r, Nat.sub_diag by lia. split; [done|]. left. done.
  - apply IH; [|apply acc_ok_skip; [done|congruence]..].
    apply Forall_app. split; [done|]. apply Forall_singleton. congruence.
  - apply IH; [|apply acc_ok_skip; [done|congruence]|by apply acc_ok_take].
    apply Forall_app. split; [done|]. apply Forall_singleton. congruence.
  - apply IH; [|by apply acc_ok_take|apply acc_ok_skip; [done|congruence]].
    apply Forall_app. split; [done|]. apply Forall_singleton. congruence.
Qed.

Lemma request_slot_locked_spec rs :
  match request_slot_locked rs with
  | Some (i, inherited) => exists r, rs !! i = Some r /\ evictable rs r inherited
  | None => Forall (fun r => state r = REQUEST_PENDING) rs
  end.
Proof. by apply (request_slot_from_spec rs [] None None); constructor. Qed.

(** ** The invariant *)

Definition used (rs : list request) : list Z :=
  map fst (filter (fun s => s.2 = false) (map shape rs)).

(** The pool keeps its size, the counter counts the unresolved requests, the
    ids in use are distinct and were handed out by the id counter. *)
Record gate_inv (st : tgate) : Prop := {
  inv_length : length (requests st) = REQUEST_HISTORY;
  inv_count : unresolved_count st = unresolved (requests st);
  inv_ids : NoDup (used (requests st));
  inv_range : Forall (fun id => 0 < id <= next_request st) (used (requests st));
  inv_next : 0 <= next_request st < 2 ^ 64;
  inv_generation : 0 <= generation st < 2 ^ 64
}.

Lemma apply_events_spec ev g u :
  forallb (fun e => negb (is_store e)) ev = true -> 0 <= g < 2 ^ 64 ->
  apply_events ev g u = (u64 (g + gens ev), u + delta ev).
Proof.
  unfold apply_events, u64, wrap. revert g u. induction ev as [|e ev IH]; intros g u Hs Hg.
  { cbn [fold_left gens delta]. rewrite !Z.add_0_r, Z.mod_small by done. done. }
  cbn in Hs. apply andb_true_iff in Hs as [He Hs]. destruct e as [|d|v]; [| |done]; cbn [fold_left apply_event].
  - unfold u64, wrap. rewrite IH by (done || (apply Z.mod_pos_bound; lia)).
    cbn [gens event_gen delta event_delta]. rewrite Zplus_mod_idemp_l. apply pair_equal_spec; split; [f_equal; lia|lia].
  - rewrite IH by done. cbn [gens event_gen delta event_delta]. apply pair_equal_spec; split; [f_equal; lia|lia].
Qed.

(** Critical sections preserve the invariant. *)
Lemma locked_inv op st :
  (forall rs, sec rs (snd (op rs)) (fst (op rs))) -> gate_inv st -> gate_inv (locked op st).
Proof.
  intros Hop [Hl Hc Hi Hr Hn Hg]. unfold locked. specialize (Hop (requests st)).
  destruct (op (requests st)) as [rs ev]. cbn in Hop. destruct Hop as (Hs & Hu & Hm).
  rewrite apply_events_spec by done.
  assert (used rs = used (requests st)) as Hused by (unfold used; by rewrite Hm).
  split; cbn [generation next_request unresolved_count requests]; rewrite ?Hused; try done.
  - apply (f_equal length) in Hm. rewrite !length_map in Hm. by rewrite Hm.
  - lia.
  - apply Z.mod_pos_bound. lia.
Qed.

(** The sequential effect of a critical section. *)
Lemma locked_sec op st :
  sec (requests st) (snd (op (requests st))) (fst (op (requests st))) -> gate_inv st ->
  generation (locked op st) = u64 (generation st + gens (snd (op (requests st)))) /\
  requests (locked op st) = fst (op (requests st)) /\ next_request (locked op st) = next_request st.
Proof.
  intros (Hs & Hu & Hm) Hinv. unfold locked. destruct (op (requests st)) as [rs ev]. cbn in *.
  rewrite apply_events_spec by (done || apply Hinv). done.
Qed.

Lemma fetch_request_id_small n : 0 <= n -> n + 1 < 2 ^ 64 -> fetch_request_id n = (n + 1, n + 1).
Proof.
  intros H0 H1. unfold fetch_request_id, u64, wrap. rewrite Z.mod_small by lia.
  destruct (Z.eqb_spec (n + 1) 0); [lia|done].
Qed.

Lemma used_app a b : used (a ++ b) = used a ++ used b.
Proof. unfold used. by rewrite map_app, filter_app, map_app. Qed.

Lemma used_cons r rs : used (r :: rs) = (if bool_decide (state r = REQUEST_FREE) then [] else [request_id r]) ++ used rs.
Proof.
  unfold used. cbn [map]. unfold shape at 1. rewrite filter_cons. cbn.
  destruct (bool_decide _); destruct (decide _); done.
Qed.

Lemma used_cons_used r rs : state r <> REQUEST_FREE -> used (r :: rs) = request_id r :: used rs.
Proof. intros H. rewrite used_cons. by case_bool_decide. Qed.

Lemma unresolved_app a b : unresolved (a ++ b) = unresolved a + unresolved b.
Proof. induction a as [|r a IH]; cbn; [done|]. rewrite IH. lia. Qed.

Lemma insert_split {A} (l : list A) i x y :
  l !! i = Some x -> l = take i l ++ x :: drop (S i) l /\ <[i := y]> l = take i l ++ y :: drop (S i) l.
Proof.
  intros H. split; [by rewrite take_drop_middle|]. by rewrite insert_take_drop by by eapply lookup_lt_Some.
Qed.

(** The new record of [begin]. *)
Definition fresh_request (id : Z) (inherited : bool) : request :=
  mk_request id 0 DSD_TRUNK_TUNE_RESULT_PENDING REQUEST_PENDING inherited false false false.

Lemma request_begin_cases st :
  0 <= next_request st -> next_request st + 1 < 2 ^ 64 ->
  let id := next_request st + 1 in
  match request_slot_locked (requests st) with
  | None => request_begin st = (mk_tgate (generation st) id (unresolved_count st) (requests st), 0)
  | Some (i, inherited) =>
      request_begin st = (mk_tgate (generation st) id
        (unresolved_count st + if inherited then 0 else 1)
        (<[i := fresh_request id inherited]> (requests st)), id)
  end.
Proof.
  intros H0 H1 id. unfold request_begin. rewrite fetch_request_id_small by done.
  unfold begin_locked, locked. cbn [requests generation unresolved_count next_request].
  destruct (request_slot_locked (requests st)) as [[i inherited]|]; [|done].
  destruct inherited; cbn; [by rewrite Z.add_0_r|done].
Qed.

Lemma request_begin_inv st : gate_inv st -> next_request st + 1 < 2 ^ 64 -> gate_inv (fst (request_begin st)).
Proof.
  intros Hinv Hn. pose proof Hinv as [Hl Hc Hi Hr Hnx Hg].
  pose proof (request_begin_cases st ltac:(lia) Hn) as E. cbv zeta in E.
  pose proof (request_slot_locked_spec (requests st)) as Hslot.
  destruct (request_slot_locked (requests st)) as [[i inherited]|]; rewrite E; cbn [fst].
  2: { split; cbn [generation next_request unresolved_count requests]; try done; [|lia].
       eapply Forall_impl; [apply Hr|]. cbn. lia. }
  destruct Hslot as (r & Hir & Hev).
  destruct (insert_split _ i r (fresh_request (next_request st + 1) inherited) Hir) as [Hold Hnew].
  set (a := take i (requests st)) in *. set (b := drop (S i) (requests st)) in *.
  assert (Hsub : used a ++ used b `sublist_of` used (requests st)).
  { rewrite Hold at 1. rewrite used_app, used_cons. apply sublist_app; [done|].
    apply sublist_inserts_l. done. }
  assert (Hall : Forall (fun id => 0 < id <= next_request st) (used a ++ used b)).
  { apply Forall_forall. intros x Hx. rewrite Forall_forall in Hr. apply Hr.
    eapply elem_of_submseteq; [exact Hx|]. by apply sublist_submseteq. }
  split; cbn [generation next_request unresolved_count requests]; try done; try lia.
  - by rewrite length_insert.
  - rewrite Hnew, unresolved_app, Hc. rewrite Hold at 1. rewrite unresolved_app. cbn.
    destruct Hev as [[-> Hs]|[(-> & _ & Hs & _)|(-> & _ & _ & Hs & _)]];
      unfold is_unresolved; rewrite Hs; cbn; lia.
  - rewrite Hnew, used_app, used_cons_used, <- Permutation_middle by done. constructor.
    + intros Hin. rewrite Forall_forall in Hall. apply Hall in Hin. cbn in Hin. lia.
    + by eapply sublist_NoDup.
  - rewrite Hnew, used_app, used_cons_used, <- Permutation_middle by done. constructor; [cbn; lia|].
    eapply Forall_impl; [apply Hall|]. cbn. lia.
Qed.

Lemma tgate_init_inv : gate_inv tgate_init.
Proof.
  split; cbn [tgate_init generation next_request unresolved_count]; try reflexivity; try lia;
    change (used (requests tgate_init)) with (@nil Z); constructor.
Qed.

Lemma requests_reset_inv st : gate_inv st -> gate_inv (requests_reset st).
Proof.
  intros [Hl Hc Hi Hr Hn Hg]. split; try assumption; try reflexivity;
    change (used (requests (requests_reset st))) with (@nil Z); constructor.
Qed.

Lemma gate_step_inv st st' : gate_step st st' -> gate_inv st -> gate_inv st'.
Proof.
  intros Hstep Hinv. destruct Hstep.
  - destruct Hinv as [Hl Hc Hi Hr Hn Hg]. split; try assumption. apply Z.mod_pos_bound. lia.
  - by apply request_begin_inv.
  - apply requests_reset_inv, Hinv.
  - unfold retire_failed_requests. destruct (_ =? 0); [done|].
    apply locked_inv; [|done]. intros. apply retire_sec.
  - unfold retire_failed_requests_through. destruct (_ || _); [done|].
    apply locked_inv; [|done]. intros. apply retire_sec.
  - unfold request_publish. destruct (_ || _); [done|].
    apply locked_inv; [|done]. intros. apply publish_sec.
  - unfold request_mark_ready. destruct (_ =? 0); [done|].
    apply locked_inv; [|done]. intros. apply mark_ready_sec.
  - unfold request_complete. destruct (_ || _); [done|].
    apply locked_inv; [|done]. intros. apply complete_sec.
  - unfold request_disown. destruct (_ =? 0); [done|].
    apply locked_inv; [|done]. intros. apply disown_sec.
Qed.

Definition gate_reachable (st : tgate) : Prop := rtc gate_step tgate_init st.

Lemma gate_reachable_inv st : gate_reachable st -> gate_inv st.
Proof.
  intros H. unfold gate_reachable in H.
  enough (forall s, gate_inv s -> rtc gate_step s st -> gate_inv st) as X by by eapply X; [apply tgate_init_inv|].
  clear H. intros s Hs H. induction H as [|s s' s'' H1 H2 IH]; [done|]. apply IH. by eapply gate_step_inv.
Qed.

(** ** Finding a request *)

Lemma elem_of_used rs r i : rs !! i = Some r -> state r <> REQUEST_FREE -> request_id r ∈ used rs.
Proof.
  revert i. induction rs as [|x rs IH]; intros [|i] H Hs; cbn [lookup] in H; try done.
  - injection H as ->. rewrite used_cons_used by done. by left.
  - rewrite used_cons. apply elem_of_app. right. by eapply IH.
Qed.

Lemma request_find_unique rs i r :
  NoDup (used rs) -> rs !! i = Some r -> state r <> REQUEST_FREE ->
  request_find_locked (request_id r) rs = Some i.
Proof.
  revert i. induction rs as [|x rs IH]; intros [|i] Hnd H Hs; try done; cbn.
  - injection H as ->. rewrite Z.eqb_refl. by case_bool_decide.
  - cbn in H. assert (Hnd' : NoDup (used rs)).
    { rewrite used_cons in Hnd. by apply NoDup_app in Hnd as (_ & _ & ?). }
    rewrite (IH i) by done.
    destruct (Z.eqb_spec (request_id x) (request_id r)) as [E|]; [|done].
    case_bool_decide as Hx; [done|]. exfalso.
    rewrite used_cons_used in Hnd by done. apply NoDup_cons in Hnd as [Hnin _]. apply Hnin.
    rewrite E. by eapply elem_of_used.
Qed.

Lemma unresolved_0 rs : unresolved rs = 0 <-> Forall (fun r => is_unresolved r = false) rs.
Proof.
  induction rs as [|r rs IH]; cbn; [by split|]. pose proof (unresolved_nonneg rs).
  rewrite Forall_cons, <- IH. destruct (is_unresolved r); cbn [Z.b2z]; intuition (lia || discriminate).
Qed.

Lemma frame_is_current_spec g st :
  frame_is_current g st = true <-> unresolved_count st = 0 /\ g = generation st.
Proof.
  unfold frame_is_current, frame_loads. destruct (Z.eqb_spec (unresolved_count st) 0) as [E|E]; cbn.
  - destruct (Z.eqb_spec g (generation st)); cbn; intuition congruence.
  - intuition congruence.
Qed.

(** The newest unresolved id is an upper bound of all of them. *)
Lemma pending_request_spec_aux rs a :
  let p := fold_left (fun newest r => if is_unresolved r && (newest <? request_id r) then request_id r else newest) rs a in
  a <= p /\ Forall (fun r => is_unresolved r = true -> request_id r <= p) rs /\
  (p = a \/ exists r, r ∈ rs /\ is_unresolved r = true /\ request_id r = p).
Proof.
  revert a. induction rs as [|r rs IH]; intros a; cbn; [repeat split; [lia|constructor|by left]|].
  set (a' := if _ && _ then _ else a). specialize (IH a'). cbv zeta in IH.
  set (p := fold_left _ rs a') in *. destruct IH as (H1 & H2 & H3).
  assert (Ha : a <= a' /\ (is_unresolved r = true -> request_id r <= a') /\
    (a' = a \/ is_unresolved r = true /\ request_id r = a')).
  { unfold a'. destruct (is_unresolved r); cbn; [|split; [lia|split; [done|by left]]].
    destruct (Z.ltb_spec a (request_id r)); (split; [lia|split; [lia|]]); [by right|by left]. }
  destruct Ha as (Ha1 & Ha2 & Ha3). split; [lia|]. split.
  - constructor; [|done]. intros Hu. specialize (Ha2 Hu). lia.
  - destruct H3 as [H3|(r' & Hin & Hr')].
    + destruct Ha3 as [Ha3|[Hu Hid]]; [left; lia|]. right. exists r. split; [by left|]. split; [done|lia].
    + right. exists r'. split; [by right|done].
Qed.

(** ** Properties *)

(** C1: on every sequence of calls to the module, the lock-free counter equals
    the number of pending or failed-gated requests, the pool keeps its 64
    slots, and the ids in use are distinct, positive and already handed out. *)
Theorem gate_reachable_invariant (st : tgate) : gate_reachable st -> gate_inv st.
Proof. apply gate_reachable_inv. Qed.

Lemma gate_reachable_invariant_witness :
  gate_inv (request_complete 1 DSD_TRUNK_TUNE_RESULT_OK 7 (fst (request_begin tgate_init))).
Proof.
  apply gate_reachable_invariant. eapply rtc_l; [|eapply rtc_l; [|apply rtc_refl]].
  - apply step_begin. reflexivity.
  - apply step_complete.
Defined.

Lemma frame_gate_cases (st : tgate) (g : Z) :
  gate_inv st ->
  let ready := Forall (fun r => is_unresolved r = false) (requests st) in
  (frame_is_current g st = true <-> g = generation st /\ ready) /\
  (pending_request st = 0 <-> ready) /\
  (~ ready -> exists r, r ∈ requests st /\ is_unresolved r = true /\ request_id r = pending_request st /\
     Forall (fun r' => is_unresolved r' = true -> request_id r' <= request_id r) (requests st)).
Proof.
  intros Hinv ready. unfold ready. rewrite <- unresolved_0, <- (inv_count _ Hinv), frame_is_current_spec.
  destruct (pending_request_spec_aux (requests st) 0) as (Hp0 & Hmax & Hp).
  fold (pending_request st) in Hp0, Hmax, Hp.
  assert (Hpos : forall r, r ∈ requests st -> is_unresolved r = true -> 0 < request_id r).
  { intros r Hin Hu. apply list_elem_of_lookup in Hin as [i Hi].
    pose proof (inv_range _ Hinv) as Hr. rewrite Forall_forall in Hr. apply Hr.
    eapply elem_of_used; [done|]. intros Hs. unfold is_unresolved in Hu. by rewrite Hs in Hu. }
  assert (Hz : unresolved_count st = 0 <-> pending_request st = 0).
  { rewrite (inv_count _ Hinv), unresolved_0, !Forall_forall. rewrite Forall_forall in Hmax. split.
    - intros Hall. destruct Hp as [Hp|(r & Hin & Hu & _)]; [done|]. apply Hall in Hin. congruence.
    - intros E r Hin. destruct (is_unresolved r) eqn:Hu; [|done].
      specialize (Hmax r Hin Hu). specialize (Hpos r Hin Hu). lia. }
  split; [tauto|]. split; [by rewrite Hz|]. intros Hn.
  destruct Hp as [Hp|(r & Hin & Hu & Hid)]; [tauto|]. exists r. rewrite Hid. done.
Qed.

(** the frame gate: a frame is current exactly when its generation is the
    tuner's and no request is pending or failed-gated; [pending_request] is
    zero exactly then, and otherwise the newest unresolved request. *)
Lemma frame_gate_spec (st : tgate) (g : Z) :
  gate_inv st ->
  let ready := Forall (fun r => is_unresolved r = false) (requests st) in
  (frame_is_current g st = true <-> g = generation st /\ ready) /\
  (pending_request st = 0 <-> ready) /\
  (~ ready -> exists r, r ∈ requests st /\ is_unresolved r = true /\ request_id r = pending_request st /\
     Forall (fun r' => is_unresolved r' = true -> request_id r' <= request_id r) (requests st)).
Proof. apply frame_gate_cases. Qed.

Lemma frame_gate_spec_witness :
  frame_is_current 1 tgate_init = true <-> 1 = 1 /\ Forall (fun r => is_unresolved r = false) (requests tgate_init).
Proof. exact (proj1 (frame_gate_spec tgate_init 1 tgate_init_inv)). Defined.

(** [request_begin]: it gives up, leaving the pool alone, exactly when
    all slots are pending; otherwise it returns the next id, which then reads
    as pending, and overwrites one slot only: a free one, else the oldest
    finished one, else the oldest failed one, whose gate it inherits. *)
Lemma request_begin_spec (st st' : tgate) (id : Z) :
  gate_inv st -> next_request st + 1 < 2 ^ 64 -> request_begin st = (st', id) ->
  generation st' = generation st /\
  if bool_decide (Forall (fun r => state r = REQUEST_PENDING) (requests st))
  then id = 0 /\ requests st' = requests st /\ unresolved_count st' = unresolved_count st
  else id = next_request st + 1 /\ request_status id st' = (DSD_TRUNK_TUNE_RESULT_PENDING, 0) /\
       exists i r inherited, requests st !! i = Some r /\ evictable (requests st) r inherited /\
         requests st' = <[i := fresh_request id inherited]> (requests st) /\
         unresolved_count st' = unresolved_count st + if inherited then 0 else 1.
Proof.
  intros Hinv Hn Hb. pose proof (request_begin_inv st Hinv Hn) as Hinv'. rewrite Hb in Hinv'. cbn in Hinv'.
  pose proof (inv_next _ Hinv) as Hnx. pose proof (request_begin_cases st ltac:(lia) Hn) as E. cbv zeta in E.
  pose proof (request_slot_locked_spec (requests st)) as Hslot.
  destruct (request_slot_locked (requests st)) as [[i inherited]|].
  - destruct Hslot as (r & Hir & Hev). rewrite E in Hb. injection Hb as <- <-.
    split; [done|]. case_bool_decide as Hall.
    + exfalso. rewrite Forall_forall in Hall. specialize (Hall r ltac:(by eapply list_elem_of_lookup_2)).
      destruct Hev as [[_ Hs]|[(_ & _ & Hs & _)|(_ & _ & _ & Hs & _)]]; congruence.
    + split; [done|]. split; [|by exists i, r, inherited].
      assert (Hi : <[i := fresh_request (next_request st + 1) inherited]> (requests st) !! i
                   = Some (fresh_request (next_request st + 1) inherited)).
      { apply list_lookup_insert_eq. by eapply lookup_lt_Some. }
      unfold request_status. destruct (Z.eqb_spec (next_request st + 1) 0); [lia|].
      cbn [requests] in *. pose proof (request_find_unique _ _ _ (inv_ids _ Hinv') Hi ltac:(done)) as Hf.
      cbn [request_id fresh_request requests] in Hf |- *. rewrite Hf. cbn [mbind option_bind]. by rewrite Hi.
  - rewrite E in Hb. injection Hb as <- <-. split; [done|]. by case_bool_decide.
Qed.

Lemma request_begin_spec_witness :
  let '(st', id) := request_begin tgate_init in
  generation st' = 1 /\ id = 1 /\ request_status id st' = (DSD_TRUNK_TUNE_RESULT_PENDING, 0).
Proof.
  destruct (request_begin_spec tgate_init _ _ tgate_init_inv eq_refl eq_refl) as [Hg H].
  split; [exact Hg|]. split; [reflexivity|reflexivity].
Defined.

(** ** Success: the one place the generation moves *)

Definition retire1 (p : Z -> bool) (r : request) : request :=
  if bool_decide (state r = REQUEST_FAILED_GATED) && p (request_id r) then set_state REQUEST_FINISHED r else r.

Lemma retire_fst p rs : fst (retire_failed_where p rs) = map (retire1 p) rs.
Proof.
  induction rs as [|r rs IH]; cbn; [done|]. destruct (retire_failed_where p rs) as [rs' ev]. cbn in IH.
  rewrite <- IH. unfold retire1. by destruct (_ && _).
Qed.

Lemma retire_gens p rs : gens (snd (retire_failed_where p rs)) = 0.
Proof.
  induction rs as [|r rs IH]; cbn; [done|]. destruct (retire_failed_where p rs) as [rs' ev]. cbn in IH.
  by destruct (_ && _).
Qed.

(** A committed record: both the backend and the owner said yes. *)
Definition committed (r : request) : Prop :=
  state r = REQUEST_PENDING /\ result r = DSD_TRUNK_TUNE_RESULT_OK /\
  backend_complete r = true /\ owner_ready r = true.

Lemma finish_success_pending i rs r :
  rs !! i = Some r -> state r = REQUEST_PENDING ->
  gens (snd (finish_success_locked i rs)) = 1 /\
  fst (finish_success_locked i rs)
  = map (retire1 (fun id => id <? request_id r)) (upd i (set_state REQUEST_FINISHED) rs).
Proof.
  intros Hr Hs. unfold finish_success_locked. rewrite Hr, bool_decide_eq_true_2 by done.
  rewrite <- retire_fst.
  pose proof (retire_gens (fun id => id <? request_id r) (upd i (set_state REQUEST_FINISHED) rs)) as Hg.
  destruct (retire_failed_where _ _) as [rs' ev]. cbn in *. by rewrite Hg.
Qed.

Lemma finish_rolled_back_gens i rs : gens (snd (finish_rolled_back_locked i rs)) = 0.
Proof.
  unfold finish_rolled_back_locked. destruct (rs !! i) as [r|]; [|done].
  case_bool_decide; [done|]. by destruct (inherited_failure_gate r).
Qed.

(** What one of the four completion calls does to the pool: no generation
    advance, or the success of the record of [id]. *)
Definition op_effect (id : Z) (rs : list request) (out : list request * list event) : Prop :=
  gens (snd out) = 0 \/
  exists i r r', rs !! i = Some r /\ request_id r = id /\ state r = REQUEST_PENDING /\
    committed r' /\ request_id r' = id /\
    gens (snd out) = 1 /\
    fst out = map (retire1 (fun x => x <? id)) (<[i := set_state REQUEST_FINISHED r']> rs).

Lemma upd_upd i f g rs : upd i f (upd i g rs) = upd i (fun r => f (g r)) rs.
Proof. unfold upd. by rewrite list_alter_alter_eq. Qed.

Lemma upd_insert i f rs r : rs !! i = Some r -> upd i f rs = <[i := f r]> rs.
Proof.
  intros H. apply list_eq. intros j. unfold upd. destruct (decide (i = j)) as [<-|Hne].
  - by rewrite list_lookup_alter_eq, H, list_lookup_insert_eq by by eapply lookup_lt_Some.
  - by rewrite list_lookup_alter_ne, list_lookup_insert_ne by done.
Qed.

(** Success after the fields of record [i] were changed by [f]. *)
Lemma finish_success_effect id i f rs r :
  rs !! i = Some r -> request_id r = id -> state r = REQUEST_PENDING -> committed (f r) ->
  request_id (f r) = id -> op_effect id rs (finish_success_locked i (upd i f rs)).
Proof.
  intros Hr Hid Hs Hc Hid'. right. exists i, r, (f r).
  destruct (finish_success_pending i (upd i f rs) (f r)) as [Hg Hf]; [by apply upd_lookup|apply Hc|].
  repeat split; try done; try apply Hc. rewrite Hf, Hid', upd_upd, (upd_insert _ _ _ r) by done. done.
Qed.

Lemma is_complete_true x : is_complete x = true -> x = DSD_TRUNK_TUNE_RESULT_OK.
Proof. by destruct x. Qed.

Lemma publish_effect id x now rs : op_effect id rs (publish_locked id x now rs).
Proof.
  unfold publish_locked. destruct (request_find_locked id rs) as [i|] eqn:Hf; [|by left].
  destruct (request_find_spec _ _ _ Hf) as (r & Hr & Hid & _). rewrite Hr.
  case_bool_decide as Hp; cbn [negb]; [|by left].
  destruct (is_complete x) eqn:Hx; [destruct (owner_ready r) eqn:Ho|destruct (disowned r)]; [|by left| |by left].
  - apply (finish_success_effect id i _ rs r); try done. apply is_complete_true in Hx. by repeat split.
  - left. apply finish_rolled_back_gens.
Qed.

Lemma mark_ready_effect id rs : op_effect id rs (mark_ready_locked id rs).
Proof.
  unfold mark_ready_locked. destruct (request_find_locked id rs) as [i|] eqn:Hf; [|by left].
  destruct (request_find_spec _ _ _ Hf) as (r & Hr & Hid & _). rewrite Hr.
  case_bool_decide as Hp; [|by left]. destruct (_ && _) eqn:Hx; [|by left].
  apply andb_true_iff in Hx as [Hb Hx]. apply is_complete_true in Hx.
  apply (finish_success_effect id i _ rs r); try done.
Qed.

Lemma disown_effect id rs : op_effect id rs (disown_locked id rs).
Proof.
  unfold disown_locked. destruct (request_find_locked id rs) as [i|] eqn:Hf; [|by left].
  destruct (request_find_spec _ _ _ Hf) as (r & Hr & Hid & _). rewrite Hr.
  case_bool_decide as Hp; [|case_bool_decide; left; [apply finish_rolled_back_gens|done]].
  destruct (_ && _) eqn:Hx; [|by left].
  apply andb_true_iff in Hx as [Hb Hx]. apply is_complete_true in Hx.
  apply (finish_success_effect id i _ rs r); try done.
Qed.

Lemma complete_effect id x now rs : op_effect id rs (complete_locked id x now rs).
Proof.
  unfold complete_locked. destruct (request_find_locked id rs) as [i|] eqn:Hf; [|by left].
  destruct (request_find_spec _ _ _ Hf) as (r & Hr & Hid & Hfree). rewrite Hr.
  case_bool_decide as Hfin; [by left|].
  case_bool_decide as Hg; [destruct (negb _); left; [apply finish_rolled_back_gens|done]|].
  assert (Hp : state r = REQUEST_PENDING) by by destruct (state r).
  destruct (backend_complete r) eqn:Hb; cbn [negb].
  - destruct (is_complete (result r) && is_complete x) eqn:Hx; [|destruct (negb _ && negb _)].
    + apply andb_true_iff in Hx as [Hx _]. apply is_complete_true in Hx.
      apply (finish_success_effect id i _ rs r); try done.
    + left. apply finish_rolled_back_gens.
    + by left.
  - destruct (is_complete x) eqn:Hx; [|left; apply finish_rolled_back_gens].
    apply is_complete_true in Hx. rewrite upd_upd.
    apply (finish_success_effect id i _ rs r); try done.
Qed.

(** The four calls that complete a request, from either side. *)
Variant completion_call :=
  | CallPublish (x : dsd_trunk_tune_result)
  | CallMarkReady
  | CallComplete (x : dsd_trunk_tune_result)
  | CallDisown.

Definition run_call (c : completion_call) (id now : Z) (st : tgate) : tgate :=
  match c with
  | CallPublish x => request_publish id x now st
  | CallMarkReady => request_mark_ready id st
  | CallComplete x => request_complete id x now st
  | CallDisown => request_disown id st
  end.

Lemma run_call_effect c id now st :
  gate_inv st ->
  run_call c id now st = st \/
  exists out, op_effect id (requests st) out /\
    requests (run_call c id now st) = fst out /\
    generation (run_call c id now st) = u64 (generation st + gens (snd out)).
Proof.
  intros Hinv. destruct c; cbn [run_call].
  - unfold request_publish. destruct (_ || _); [by left|]. right. eexists. split; [by apply publish_effect|].
    split; eapply locked_sec; eauto using publish_sec.
  - unfold request_mark_ready. destruct (_ =? 0); [by left|]. right. eexists. split; [by apply mark_ready_effect|].
    split; eapply locked_sec; eauto using mark_ready_sec.
  - unfold request_complete. destruct (_ || _); [by left|]. right. eexists. split; [by apply complete_effect|].
    split; eapply locked_sec; eauto using complete_sec.
  - unfold request_disown. destruct (_ =? 0); [by left|]. right. eexists. split; [by apply disown_effect|].
    split; eapply locked_sec; eauto using disown_sec.
Qed.

(** C3: the tuner generation, hence the set of frames that may be dispatched,
    moves only when the named request was pending and both its backend and its
    owner have committed it; it moves by one, the request finishes with result
    OK, the failed requests older than it are retired, and no other record
    changes. *)
Theorem generation_moves_on_commit_only (c : completion_call) (id now : Z) (st : tgate) :
  gate_inv st ->
  let st' := run_call c id now st in
  generation st' = generation st \/
  (generation st' = u64 (generation st + 1) /\
   exists i r r',
     requests st !! i = Some r /\ request_id r = id /\ state r = REQUEST_PENDING /\
     committed r' /\ requests st' !! i = Some (set_state REQUEST_FINISHED r') /\
     forall j, j <> i -> requests st' !! j = retire1 (fun x => x <? id) <$> requests st !! j).
Proof.
  intros Hinv st'. destruct (run_call_effect c id now st Hinv) as [E|(out & Heff & Hrs & Hg)].
  { left. unfold st'. by rewrite E. }
  fold st' in Hrs, Hg. destruct Heff as [H0|(i & r & r' & Hi & Hid & Hs & Hc & Hid' & H1 & Hout)].
  - left. rewrite Hg, H0, Z.add_0_r. apply Z.mod_small, Hinv.
  - right. rewrite Hg, H1. split; [done|]. exists i, r, r'. rewrite Hrs, Hout.
    do 4 (split; [done|]). split.
    + rewrite list_lookup_fmap, list_lookup_insert_eq by by eapply lookup_lt_Some. done.
    + intros j Hj. by rewrite list_lookup_fmap, list_lookup_insert_ne by done.
Qed.

Lemma generation_moves_on_commit_only_witness :
  let st := request_mark_ready 1 (fst (request_begin tgate_init)) in
  generation (run_call (CallPublish DSD_TRUNK_TUNE_RESULT_OK) 1 5 st) = 2 /\ generation st = 1.
Proof.
  intros st. assert (Hinv : gate_inv st).
  { eapply gate_step_inv; [apply step_mark_ready|]. by apply request_begin_inv; [apply tgate_init_inv|]. }
  destruct (generation_moves_on_commit_only (CallPublish DSD_TRUNK_TUNE_RESULT_OK) 1 5 st Hinv)
    as [E|[E _]].
  - discriminate E.
  - split; [exact E|reflexivity].
Defined.

(** ** Both orders of the owner and the backend *)

Lemma find_shape id a b : map shape a = map shape b -> request_find_locked id a = request_find_locked id b.
Proof.
  revert b. induction a as [|x a IH]; intros [|y b] H; try done. cbn [map] in H.
  apply (f_equal (fun l => (hd (0, true) l, tl l))) in H. cbn [hd tl] in H. injection H as H1 H2 H3.
  cbn [request_find_locked]. rewrite H1, (IH b) by done.
  destruct (bool_decide (state x = REQUEST_FREE)), (bool_decide (state y = REQUEST_FREE)); done.
Qed.

Lemma locked_no_event op st rs : op (requests st) = (rs, []) ->
  locked op st = mk_tgate (generation st) (next_request st) (unresolved_count st) rs.
Proof. intros H. unfold locked. by rewrite H. Qed.

Lemma lookup_committed i rs r p :
  rs !! i = Some r -> map (retire1 p) (upd i (set_state REQUEST_FINISHED) rs) !! i
                      = Some (set_state REQUEST_FINISHED r).
Proof. intros H. by rewrite list_lookup_fmap, (upd_lookup _ _ _ r). Qed.

(** The status of a found, settled record. *)
Lemma request_status_settled id st i r :
  id <> 0 -> request_find_locked id (requests st) = Some i -> requests st !! i = Some r ->
  state r <> REQUEST_PENDING -> request_status id st = (result r, completed_m_ns r).
Proof.
  intros H0 Hf Hi Hs. unfold request_status. destruct (Z.eqb_spec id 0); [done|].
  rewrite Hf. cbn. rewrite Hi. by rewrite bool_decide_eq_false_2.
Qed.

(** the backend's success and the owner's readiness may arrive in either
    order: the resulting state is the same, the generation moves exactly once,
    and the request reports OK with the time the backend published. *)
Lemma publish_and_ready_commute (st : tgate) (i : nat) (r : request) (now : Z) :
  gate_inv st -> requests st !! i = Some r -> state r = REQUEST_PENDING ->
  backend_complete r = false -> owner_ready r = false ->
  let id := request_id r in
  let st' := request_mark_ready id (request_publish id DSD_TRUNK_TUNE_RESULT_OK now st) in
  st' = request_publish id DSD_TRUNK_TUNE_RESULT_OK now (request_mark_ready id st) /\
  generation st' = u64 (generation st + 1) /\
  request_status id st' = (DSD_TRUNK_TUNE_RESULT_OK, now).
Proof.
  intros Hinv Hi Hs Hb Ho id.
  assert (Hid : id <> 0).
  { pose proof (inv_range _ Hinv) as Hr. rewrite Forall_forall in Hr.
    assert (request_id r ∈ used (requests st)) as Hin by (eapply elem_of_used; [done|congruence]).
    apply Hr in Hin. unfold id. lia. }
  assert (Hf : request_find_locked id (requests st) = Some i).
  { apply request_find_unique; [apply Hinv|done|congruence]. }
  unfold request_mark_ready, request_publish. destruct (Z.eqb_spec id 0) as [|_]; [done|]. cbn [orb is_pending_result].
  set (f := set_backend DSD_TRUNK_TUNE_RESULT_OK now).
  assert (Hff : request_find_locked id (upd i f (requests st)) = Some i).
  { rewrite <- Hf. apply find_shape. by apply (shape_upd _ _ _ r). }
  assert (Hfo : request_find_locked id (upd i set_owner_ready (requests st)) = Some i).
  { rewrite <- Hf. apply find_shape. by apply (shape_upd _ _ _ r). }
  rewrite (locked_no_event (publish_locked id DSD_TRUNK_TUNE_RESULT_OK now) _ (upd i f (requests st)))
    by (unfold publish_locked; rewrite Hf, Hi, bool_decide_eq_true_2 by done; cbn; by rewrite Ho).
  rewrite (locked_no_event (mark_ready_locked id) st (upd i set_owner_ready (requests st)))
    by (unfold mark_ready_locked; rewrite Hf, Hi, bool_decide_eq_true_2 by done; by rewrite Hb).
  set (g := fun x => set_owner_ready (f x)). set (rs := upd i g (requests st)).
  assert (Hgi : rs !! i = Some (g r)) by by apply upd_lookup.
  match goal with |- ?s = _ /\ _ => set (st' := s) end.
  assert (Hst' : st' = locked (fun _ => finish_success_locked i rs) st).
  { unfold st', locked. cbn [requests generation next_request unresolved_count].
    unfold mark_ready_locked. rewrite Hff, (upd_lookup _ _ _ r) by done.
    rewrite bool_decide_eq_true_2 by done. cbn. by rewrite upd_upd. }
  destruct (finish_success_pending i rs (g r) Hgi Hs) as [Hg Hout].
  assert (Hsec : sec (requests st) (snd (finish_success_locked i rs)) (fst (finish_success_locked i rs))).
  { eapply sec_trans_nil; [|apply finish_success_sec]. by apply (sec_set_fields i g _ r). }
  destruct (locked_sec (fun _ => finish_success_locked i rs) st Hsec Hinv) as (Hgen & Hrs & _).
  split; [|split].
  - rewrite Hst'. unfold locked. cbn [requests generation next_request unresolved_count].
    unfold publish_locked. rewrite Hfo, (upd_lookup _ _ _ r) by done.
    rewrite bool_decide_eq_true_2 by done. cbn. by rewrite upd_upd.
  - by rewrite Hst', Hgen, Hg.
  - rewrite Hst'. erewrite (request_status_settled id _ i (set_state REQUEST_FINISHED (g r))); [done|done| | |done].
    + rewrite Hrs, <- Hf. apply find_shape. apply Hsec.
    + rewrite Hrs, Hout. by apply lookup_committed.
Qed.

Lemma publish_and_ready_commute_witness :
  let st := fst (request_begin tgate_init) in
  generation (request_mark_ready 1 (request_publish 1 DSD_TRUNK_TUNE_RESULT_OK 9 st)) = 2.
Proof.
  intros st.
  exact (proj1 (proj2 (publish_and_ready_commute st 0 (fresh_request 1 false) 9
    (request_begin_inv _ tgate_init_inv eq_refl) eq_refl eq_refl eq_refl eq_refl))).
Defined.

(** ** A tune whose backend answers at once *)

(** The request was just begun in slot [i]; the owner completes it. *)
Lemma complete_fresh st i inherited id x now :
  gate_inv st -> requests st !! i = Some (fresh_request id inherited) -> id <> 0 -> is_pending_result x = false ->
  let st' := request_complete id x now st in
  fst (request_status id st') = x /\
  generation st' = u64 (generation st + if is_complete x then 1 else 0) /\
  (is_complete x = false -> unresolved_count st' = unresolved_count st + if inherited then 0 else -1).
Proof.
  intros Hinv Hi Hid Hx st'.
  assert (Hf : request_find_locked id (requests st) = Some i).
  { by apply (request_find_unique _ i (fresh_request id inherited)); [apply Hinv|..]. }
  set (r := set_backend x now (set_owner_ready (fresh_request id inherited))).
  set (rs := upd i (fun r => set_backend x now (set_owner_ready r)) (requests st)).
  assert (Hr : rs !! i = Some r) by by unfold rs; rewrite (upd_lookup _ _ _ _ Hi).
  set (out := if is_complete x then finish_success_locked i rs else finish_rolled_back_locked i rs).
  assert (Hst' : st' = locked (fun _ => out) st).
  { unfold st', request_complete. destruct (Z.eqb_spec id 0); [done|]. rewrite Hx. cbn [orb].
    unfold locked. unfold complete_locked. rewrite Hf, Hi. cbn [state fresh_request backend_complete].
    rewrite !bool_decide_eq_false_2 by done. cbn [negb]. by rewrite upd_upd. }
  assert (Hsec : sec (requests st) (snd out) (fst out)).
  { eapply sec_trans_nil; [by apply (sec_set_fields i (fun r => set_backend x now (set_owner_ready r)) _ _ Hi)|].
    unfold out. destruct (is_complete x); [apply finish_success_sec|].
    apply finish_rolled_back_sec. intros r' Hr'. rewrite Hr in Hr'. by injection Hr' as <-. }
  destruct (locked_sec (fun _ => out) st Hsec Hinv) as (Hgen & Hrs & _). rewrite Hst'.
  assert (Hf' : request_find_locked id (fst out) = Some i) by (rewrite <- Hf; apply find_shape, Hsec).
  assert (Hu : unresolved_count (locked (fun _ => out) st) = unresolved_count st + delta (snd out)).
  { unfold locked. destruct out as [rs' ev]. rewrite apply_events_spec; [done|apply Hsec|apply Hinv]. }
  unfold out in *. destruct (is_complete x) eqn:Hc.
  - destruct (finish_success_pending i rs r Hr eq_refl) as [Hg Hout]. split; [|split; [by rewrite Hgen, Hg|done]].
    erewrite (request_status_settled id _ i (set_state REQUEST_FINISHED r)); [done|done|by rewrite Hrs| |done].
    rewrite Hrs, Hout. by apply lookup_committed.
  - rewrite Hgen, Hu, finish_rolled_back_gens. unfold finish_rolled_back_locked in *. rewrite Hr in *.
    rewrite bool_decide_eq_false_2 in * by done. cbn [inherited_failure_gate r fresh_request] in *.
    split; [|split; [done|by destruct inherited]].
    set (s := if inherited then REQUEST_FAILED_GATED else REQUEST_FINISHED).
    erewrite (request_status_settled id _ i (set_state s r)); [done|done|by rewrite Hrs| |by destruct inherited].
    rewrite Hrs. unfold s. destruct inherited; by apply upd_lookup.
Qed.

(** a tune whose backend answers at once and does not call back: unless
    the pool is exhausted the caller gets exactly the backend's answer; success
    moves the generation by one, and any other answer leaves the generation,
    the unresolved count and so the frame gate as they were. *)
Lemma synchronous_tune {E} (f : E -> E) (e : E) (x : dsd_trunk_tune_result) (now : Z) (st : tgate) :
  gate_inv st -> next_request st + 1 < 2 ^ 64 -> is_pending_result x = false ->
  ~ Forall (fun r => state r = REQUEST_PENDING) (requests st) ->
  let '(e', st', y, id) := hook_run (Some (fun _ '(e, st) => (f e, st, x))) now (e, st) in
  e' = f e /\ y = x /\ id = next_request st + 1 /\
  (x = DSD_TRUNK_TUNE_RESULT_OK -> generation st' = u64 (generation st + 1)) /\
  (x <> DSD_TRUNK_TUNE_RESULT_OK ->
     generation st' = generation st /\ unresolved_count st' = unresolved_count st /\
     forall g, frame_is_current g st' = frame_is_current g st).
Proof.
  intros Hinv Hn Hx Hpend. unfold hook_run.
  pose proof (request_begin_inv st Hinv Hn) as Hinv1. pose proof (inv_next _ Hinv) as Hnx.
  pose proof (request_begin_cases st ltac:(lia) Hn) as Eb. cbv zeta in Eb.
  pose proof (request_slot_locked_spec (requests st)) as Hslot.
  destruct (request_slot_locked (requests st)) as [[i inherited]|]; [|done].
  destruct Hslot as (r & Hir & _). rewrite Eb in *. clear Eb. cbn [fst] in Hinv1.
  set (st1 := mk_tgate _ _ _ _) in *. set (id := next_request st + 1) in *.
  destruct (Z.eqb_spec id 0); [lia|].
  assert (Hi : requests st1 !! i = Some (fresh_request id inherited)).
  { cbn. apply list_lookup_insert_eq. by eapply lookup_lt_Some. }
  destruct (complete_fresh st1 i inherited id x now Hinv1 Hi ltac:(lia) Hx) as (Hst & Hg & Hu).
  assert (E0 : note_result id x now st1 = (request_complete id x now st1, x)).
  { rewrite <- Hst at 3. by destruct x. }
  rewrite E0. do 3 (split; [done|]). split.
  - intros ->. by rewrite Hg.
  - intros Hne. assert (Hc : is_complete x = false) by by destruct x.
    rewrite Hc in Hg. rewrite Z.add_0_r in Hg.
    assert (G : generation (request_complete id x now st1) = generation st).
    { rewrite Hg. apply Z.mod_small, Hinv. }
    assert (U : unresolved_count (request_complete id x now st1) = unresolved_count st).
    { rewrite Hu by done. cbn [st1 unresolved_count]. destruct inherited; lia. }
    split; [done|]. split; [done|]. intros g. unfold frame_is_current. by rewrite G, U.
Qed.

Lemma synchronous_tune_witness :
  let '(e', st', y, id) :=
    hook_run (Some (fun _ '(e, st) => (e + 1, st, DSD_TRUNK_TUNE_RESULT_TIMEOUT))) 3 (0, tgate_init) in
  y = DSD_TRUNK_TUNE_RESULT_TIMEOUT /\ generation st' = 1.
Proof.
  pose proof (synchronous_tune (fun e => e + 1) 0 DSD_TRUNK_TUNE_RESULT_TIMEOUT 3 tgate_init
                tgate_init_inv eq_refl eq_refl) as H.
  destruct (hook_run _ 3 (0, tgate_init)) as [[[e' st'] y] id] eqn:E.
  destruct H as (_ & Hy & _ & _ & Hne).
  - intros HF. apply Forall_inv in HF. discriminate HF.
  - split; [exact Hy|]. apply Hne. discriminate.
Defined.

(** ** Concurrency

    One thread at a time holds the request lock; its writes to the two atomics
    happen one by one while other threads run.  [generation_advance], the id
    counter and the loads of [frame_is_current] do not take the lock. *)
Module Conc.

Record conc := mk_conc {
  c_generation : Z;
  c_unresolved : Z;
  c_next : Z;
  c_tickets : list Z;         (** ids fetched by [begin] calls that wait for the lock *)
  c_requests : list request;
  c_writes : list event       (** atomic writes the lock holder still has to make *)
}.

Definition conc_init : conc := mk_conc 1 0 0 [] (replicate REQUEST_HISTORY request_zero) [].

(** The critical sections other than [begin]'s. *)
Inductive section : (list request -> list request * list event) -> Prop :=
  | sec_reset : section reset_locked
  | sec_retire p : section (retire_failed_where p)
  | sec_publish id x now : section (publish_locked id x now)
  | sec_mark_ready id : section (mark_ready_locked id)
  | sec_complete id x now : section (complete_locked id x now)
  | sec_disown id : section (disown_locked id).

Inductive step : conc -> conc -> Prop :=
  | step_advance g u n t rs w : step (mk_conc g u n t rs w) (mk_conc (u64 (g + 1)) u n t rs w)
  | step_ticket g u n t rs w :
      n + 1 < 2 ^ 64 -> step (mk_conc g u n t rs w) (mk_conc g u (n + 1) (n + 1 :: t) rs w)
  | step_begin g u n t rs id :
      id ∈ t ->
      step (mk_conc g u n t rs [])
           (mk_conc g u n (filter (fun x => x <> id) t) (fst (fst (begin_locked id rs))) (snd (fst (begin_locked id rs))))
  | step_section g u n t rs op :
      section op -> step (mk_conc g u n t rs []) (mk_conc g u n t (fst (op rs)) (snd (op rs)))
  | step_write g u n t rs e w :
      step (mk_conc g u n t rs (e :: w))
           (mk_conc (fst (apply_event e g u)) (snd (apply_event e g u)) n t rs w).

(** The value the counter will have when the lock holder is done. *)
Definition settled (w : list event) (u : Z) : Z := snd (apply_events w 0 u).

Lemma apply_events_unresolved w g u : snd (apply_events w g u) = settled w u.
Proof.
  unfold settled, apply_events. generalize 0 at 1 as g'. intros g'. revert g g' u.
  induction w as [|e w IH]; intros g g' u; [done|]. cbn. destruct e; cbn; apply IH.
Qed.

Lemma settled_cons e w u : settled (e :: w) u = settled w (snd (apply_event e 0 u)).
Proof. unfold settled, apply_events. cbn. destruct (apply_event e 0 u) as [g u'] eqn:E. apply apply_events_unresolved. Qed.

Lemma settled_adds w u : forallb (fun e => negb (is_store e)) w = true -> settled w u = u + delta w.
Proof.
  revert u. induction w as [|e w IH]; intros u H; [unfold settled; cbn; lia|].
  cbn in H. apply andb_true_iff in H as [He H]. rewrite settled_cons, IH by done.
  destruct e; cbn in *; [lia|lia|done].
Qed.

(** What the lock holder may still have to write: counter decrements (after a
    generation advance on success), the increment of a [begin], or the store of
    [requests_reset]. *)
Definition decrements (w : list event) : Prop := Forall (fun e => e = UnresolvedAdd (-1)) w.

Definition writes_ok (w : list event) : Prop :=
  decrements w \/ (exists w', w = GenerationAdvance :: w' /\ decrements w' /\ w' <> []) \/
  w = [UnresolvedAdd 1] \/ w = [UnresolvedStore 0].

Lemma retire_writes p rs : decrements (snd (retire_failed_where p rs)).
Proof.
  induction rs as [|r rs IH]; cbn; [constructor|]. destruct (retire_failed_where p rs) as [rs' w].
  cbn in IH. destruct (_ && _); [by constructor|done].
Qed.

Lemma finish_success_writes i rs : writes_ok (snd (finish_success_locked i rs)).
Proof.
  unfold finish_success_locked. destruct (rs !! i) as [r|]; [|by left; constructor].
  case_bool_decide; [|by left; constructor].
  pose proof (retire_writes (fun id => id <? request_id r) (upd i (set_state REQUEST_FINISHED) rs)) as Hw.
  destruct (retire_failed_where _ _) as [rs' w]. right. left. eexists. split; [done|].
  split; [by constructor|done].
Qed.

Lemma finish_rolled_back_writes i rs : writes_ok (snd (finish_rolled_back_locked i rs)).
Proof.
  left. unfold finish_rolled_back_locked. destruct (rs !! i) as [r|]; [|constructor].
  case_bool_decide; [constructor|]. destruct (inherited_failure_gate r); repeat constructor.
Qed.

Lemma section_writes op rs : section op -> writes_ok (snd (op rs)).
Proof.
  intros [|p|id x now|id|id x now|id].
  - by right; right; right.
  - left. apply retire_writes.
  - unfold publish_locked. repeat (case_match; try by left; constructor);
      auto using finish_success_writes, finish_rolled_back_writes.
  - unfold mark_ready_locked. repeat (case_match; try by left; constructor);
      auto using finish_success_writes.
  - unfold complete_locked. repeat (case_match; try by left; constructor);
      auto using finish_success_writes, finish_rolled_back_writes.
  - unfold disown_locked. repeat (case_match; try by left; constructor);
      auto using finish_success_writes, finish_rolled_back_writes.
Qed.

Lemma section_settled op rs : section op -> settled (snd (op rs)) (unresolved rs) = unresolved (fst (op rs)).
Proof.
  intros Hop.
  assert (H : op = reset_locked \/ sec rs (snd (op rs)) (fst (op rs))).
  { destruct Hop; [by left|right..].
    - apply retire_sec.
    - apply publish_sec.
    - apply mark_ready_sec.
    - apply complete_sec.
    - apply disown_sec. }
  destruct H as [->|(Hs & Hu & _)]; [done|]. by rewrite settled_adds, Hu.
Qed.

Lemma begin_locked_settled id rs :
  settled (snd (fst (begin_locked id rs))) (unresolved rs) = unresolved (fst (fst (begin_locked id rs))) /\
  writes_ok (snd (fst (begin_locked id rs))).
Proof.
  unfold begin_locked. pose proof (request_slot_locked_spec rs) as Hslot.
  destruct (request_slot_locked rs) as [[i inherited]|]; [|by split; [|left; constructor]].
  destruct Hslot as (r & Hi & Hev). cbn [fst snd]. split.
  - fold (fresh_request id inherited).
    rewrite <- (upd_insert i (fun _ => fresh_request id inherited) rs r) by done.
    rewrite (unresolved_upd _ _ _ _ Hi).
    destruct Hev as [[-> Hs]|[(-> & _ & Hs & _)|(-> & _ & _ & Hs & _)]];
      unfold is_unresolved; rewrite Hs; unfold settled; cbn; lia.
  - destruct inherited; [left; constructor|]. by right; right; left.
Qed.

(** A step adds at most one to the generation. *)
Lemma step_generation c c' :
  step c c' -> c_generation c' = c_generation c \/ c_generation c' = u64 (c_generation c + 1).
Proof. intros [| | | |g u n t rs [] w]; cbn; auto. Qed.

Lemma nsteps_generation n c c' :
  nsteps step n c c' -> 0 <= c_generation c < 2 ^ 64 ->
  exists k, 0 <= k <= Z.of_nat n /\ c_generation c' = u64 (c_generation c + k).
Proof.
  intros H. induction H as [c|n c1 c2 c3 H1 H2 IH]; intros Hg.
  - exists 0. split; [lia|]. unfold u64, wrap. rewrite Z.add_0_r, Z.mod_small by done. done.
  - destruct (step_generation _ _ H1) as [E|E].
    + destruct IH as (k & Hk & Hc); [by rewrite E|]. exists k. rewrite E in Hc. split; [lia|done].
    + destruct IH as (k & Hk & Hc); [rewrite E; apply Z.mod_pos_bound; lia|]. exists (k + 1).
      split; [lia|]. rewrite Hc, E. unfold u64, wrap. rewrite Zplus_mod_idemp_l. f_equal. lia.
Qed.

(** *** The atomic machine

    The same critical sections, each with all its writes at once.  A state of
    it is the module's statics and the tickets. *)

(** A critical section, with the tickets before and after it. *)
Inductive critical : list Z -> (list request -> list request * list event) -> list Z -> Prop :=
  | critical_section t op : section op -> critical t op t
  | critical_begin t id : id ∈ t -> critical t (fun rs => fst (begin_locked id rs)) (filter (fun x => x <> id) t).

Definition acts_as (s s' : tgate * list Z) : Prop := exists op, critical (snd s) op (snd s') /\ fst s' = locked op (fst s).

Inductive atomic : tgate * list Z -> tgate * list Z -> Prop :=
  | atomic_advance st t : atomic (st, t) (generation_advance st, t)
  | atomic_ticket g n u rs t :
      n + 1 < 2 ^ 64 -> atomic (mk_tgate g n u rs, t) (mk_tgate g (n + 1) u rs, n + 1 :: t)
  | atomic_critical s s' : acts_as s s' -> atomic s s'.

Definition atomic_reachable : tgate * list Z -> Prop := rtc atomic (tgate_init, []).

Record atomic_inv (s : tgate * list Z) : Prop := {
  ai_unresolved : unresolved_count (fst s) = unresolved (requests (fst s));
  ai_generation : 0 <= generation (fst s) < 2 ^ 64;
  ai_tickets : Forall (fun id => id <= next_request (fst s)) (snd s)
}.

Lemma critical_settled t op t' rs : critical t op t' ->
  settled (snd (op rs)) (unresolved rs) = unresolved (fst (op rs)) /\ writes_ok (snd (op rs)).
Proof. intros []; [split; [by apply section_settled|by apply section_writes]|apply begin_locked_settled]. Qed.

Lemma critical_tickets t op t' n : critical t op t' -> Forall (fun id => id <= n) t -> Forall (fun id => id <= n) t'.
Proof.
  intros Hc Ht. destruct Hc; [done|]. rewrite Forall_forall in Ht |- *. intros x Hx.
  apply list_elem_of_filter in Hx as [_ Hx]. by apply Ht.
Qed.

Lemma locked_eq op st : locked op st =
  mk_tgate (fst (apply_events (snd (op (requests st))) (generation st) (unresolved_count st))) (next_request st)
    (snd (apply_events (snd (op (requests st))) (generation st) (unresolved_count st))) (fst (op (requests st))).
Proof. unfold locked. destruct (op (requests st)) as [rs ev]. cbn [fst snd]. by destruct (apply_events ev _ _). Qed.

Lemma apply_events_range ev g u : 0 <= g < 2 ^ 64 -> 0 <= fst (apply_events ev g u) < 2 ^ 64.
Proof.
  unfold apply_events. revert g u. induction ev as [|e ev IH]; intros g u H; [done|]. cbn. destruct e; cbn; apply IH; try done.
  apply Z.mod_pos_bound. lia.
Qed.

Lemma atomic_step_inv s s' : atomic s s' -> atomic_inv s -> atomic_inv s'.
Proof.
  intros [st t|g n u rs t Hn|[st t] [st' t'] (op & Hc & E)] [H1 H2 H3]; cbn in *.
  - split; [done| |done]. apply Z.mod_pos_bound. lia.
  - split; [done|done|]. apply Forall_cons. split; [cbn; lia|]. eapply Forall_impl; [exact H3|]. cbn. lia.
  - rewrite E, locked_eq. destruct (critical_settled t op t' (requests st) Hc) as [Hs _]. split; cbn.
    + by rewrite apply_events_unresolved, H1.
    + by apply apply_events_range.
    + by eapply critical_tickets.
Qed.

Lemma atomic_reachable_inv s : atomic_reachable s -> atomic_inv s.
Proof.
  intros H. assert (Hi : atomic_inv (tgate_init, [])) by (split; cbn; [done|lia|constructor]).
  unfold atomic_reachable in H. induction H as [|a b c H1 H2 IH]; [done|]. apply IH. by eapply atomic_step_inv.
Qed.

(** *** Where a concurrent state stands

    [entered c st t op written]: [c] is in the critical section [op], entered
    in the atomic state [(st, t)], and has made the writes [written] so far.
    Other threads may meanwhile have advanced the generation or taken a
    ticket; [st] and [t] have these already. *)
Record entered (c : conc) (st : tgate) (t : list Z) (op : list request -> list request * list event) (written : list event)
  : Prop := {
  en_reachable : atomic_reachable (st, t);
  en_critical : critical t op (c_tickets c);
  en_requests : c_requests c = fst (op (requests st));
  en_writes : written ++ c_writes c = snd (op (requests st));
  en_atomics : (c_generation c, c_unresolved c) = apply_events written (generation st) (unresolved_count st);
  en_next : c_next c = next_request st
}.

(** The critical section in progress, finished. *)
Definition whole (c : conc) : tgate * list Z :=
  let '(g, u) := apply_events (c_writes c) (c_generation c) (c_unresolved c) in
  (mk_tgate g (c_next c) u (c_requests c), c_tickets c).

Definition tracked (c : conc) : Prop :=
  (c_writes c = [] /\ atomic_reachable (whole c)) \/ exists st t op written, entered c st t op written.

Lemma apply_events_app ev1 ev2 g u : apply_events (ev1 ++ ev2) g u =
  let '(g, u) := apply_events ev1 g u in apply_events ev2 g u.
Proof. unfold apply_events. rewrite fold_left_app. by destruct (fold_left _ ev1 _). Qed.

Lemma apply_events_cons e ev g u :
  apply_events (e :: ev) g u = let '(g, u) := apply_event e g u in apply_events ev g u.
Proof. unfold apply_events. cbn. by destruct (apply_event e g u). Qed.

Lemma apply_events_advance ev g u : apply_events ev (u64 (g + 1)) u =
  let '(g, u) := apply_events ev g u in (u64 (g + 1), u).
Proof.
  unfold apply_events. revert g u. induction ev as [|e ev IH]; intros g u; [done|]. cbn. destruct e; cbn; apply IH.
Qed.

Lemma entered_whole c st t op written : entered c st t op written -> whole c = (locked op st, c_tickets c).
Proof.
  intros []. unfold whole. rewrite locked_eq, <- en_writes0, apply_events_app, <- en_atomics0.
  destruct (apply_events (c_writes c) _ _). cbn. by rewrite en_requests0, en_next0.
Qed.

Lemma entered_acts c st t op written : entered c st t op written -> acts_as (st, t) (whole c).
Proof. intros H. rewrite (entered_whole _ _ _ _ _ H). exists op. split; [by destruct H|done]. Qed.

Lemma tracked_whole c : tracked c -> atomic_reachable (whole c).
Proof.
  intros [[_ H]|(st & t & op & written & H)]; [done|]. eapply rtc_r; [by destruct H|].
  apply atomic_critical. by eapply entered_acts.
Qed.

Lemma whole_idle g u n t rs : whole (mk_conc g u n t rs []) = (mk_tgate g n u rs, t).
Proof. done. Qed.

Lemma enter c op t' : tracked c -> c_writes c = [] -> critical (c_tickets c) op t' ->
  tracked (mk_conc (c_generation c) (c_unresolved c) (c_next c) t' (fst (op (c_requests c))) (snd (op (c_requests c)))).
Proof.
  intros H Hw Hc. apply tracked_whole in H. destruct c as [g u n t rs w]. cbn in *. subst w. rewrite whole_idle in H.
  right. exists (mk_tgate g n u rs), t, op, []. by split.
Qed.

Lemma critical_ticket t op t' n : critical t op t' -> Forall (fun id => id <= n) t -> critical (n + 1 :: t) op (n + 1 :: t').
Proof.
  intros Hc Ht. destruct Hc as [t0 op0 Hs|t0 id Hid]; [by apply critical_section|].
  replace (n + 1 :: filter (fun x => x <> id) t0) with (filter (fun x => x <> id) (n + 1 :: t0)).
  - apply critical_begin. by right.
  - rewrite filter_cons_True; [done|]. rewrite Forall_forall in Ht. specialize (Ht id Hid). lia.
Qed.

Lemma step_tracked c c' : step c c' -> tracked c -> tracked c'.
Proof.
  intros Hstep H. pose proof (tracked_whole _ H) as Hw.
  destruct Hstep as [g u n t rs w|g u n t rs w Hn|g u n t rs id Hid|g u n t rs op Hop|g u n t rs e w].
  - destruct H as [[Hi _]|(st & t0 & op & written & [])]; cbn in *.
    + subst w. left. split; [done|]. rewrite whole_idle in Hw |- *. eapply rtc_r; [exact Hw|]. apply (atomic_advance (mk_tgate g n u rs)).
    + right. exists (generation_advance st), t0, op, written. split; cbn; try done.
      * eapply rtc_r; [exact en_reachable0|]. apply atomic_advance.
      * by rewrite apply_events_advance, <- en_atomics0.
  - destruct H as [[Hi _]|(st & t0 & op & written & [])]; cbn in *.
    + subst w. left. split; [done|]. rewrite whole_idle in Hw |- *. eapply rtc_r; [exact Hw|]. by apply atomic_ticket.
    + right. destruct st as [g0 n0 u0 rs0]. cbn in *. subst n0. pose proof (ai_tickets _ (atomic_reachable_inv _ en_reachable0)) as Ht. cbn in Ht.
      exists (mk_tgate g0 (n + 1) u0 rs0), (n + 1 :: t0), op, written. split; cbn; try done.
      * eapply rtc_r; [exact en_reachable0|]. by apply atomic_ticket.
      * by apply critical_ticket.
  - apply (enter (mk_conc g u n t rs []) (fun rs => fst (begin_locked id rs)) (filter (fun x => x <> id) t) H eq_refl).
    by apply critical_begin.
  - apply (enter (mk_conc g u n t rs []) op t H eq_refl). by apply critical_section.
  - destruct H as [[Hi _]|(st & t0 & op & written & [])]; cbn in *; [done|]. right. exists st, t0, op, (written ++ [e]). split; cbn; try done.
    + by rewrite <- app_assoc.
    + rewrite apply_events_app, <- en_atomics0. cbn. by destruct (apply_event e g u).
Qed.

Lemma reachable_tracked c : rtc step conc_init c -> tracked c.
Proof.
  intros H. assert (Hi : tracked conc_init) by (left; split; [done|apply rtc_refl]).
  induction H as [|a b c H1 H2 IH]; [done|]. apply IH. by eapply step_tracked.
Qed.

(** [sees c s]: the atomic state [s] is what the module holds when the critical
    section in progress in [c], if there is one, is finished, or it is what the
    module held when that section was entered. *)
Definition sees (c : conc) (s : tgate * list Z) : Prop :=
  s = whole c \/ c_writes c <> [] /\ exists op written, entered c (fst s) (snd s) op written.

Lemma sees_reachable c s : tracked c -> sees c s -> atomic_reachable s.
Proof.
  intros H [->|(_ & op & written & He)]; [by apply tracked_whole|]. destruct s. by destruct He.
Qed.

Lemma apply_events_generation w g u : Forall (fun e => e <> GenerationAdvance) w -> fst (apply_events w g u) = g.
Proof.
  unfold apply_events. intros H. revert g u. induction H as [|e w He H IH]; intros g u; [done|].
  cbn. destruct e; cbn; [done|apply IH..].
Qed.

Lemma decrements_spec w g u : decrements w -> apply_events w g u = (g, u - Z.of_nat (length w)).
Proof.
  intros H. unfold apply_events. revert g u.
  induction H as [|e w -> H IH]; intros g u; cbn -[Z.of_nat]; [f_equal; lia|]. rewrite IH. f_equal. lia.
Qed.

(** How far the section in progress is: [v] are the counter and the generation
    on entry and at the end, against the values a load finds now. *)
Record in_progress (c : conc) (st : tgate) : Prop := {
  ip_counter : c_unresolved c <> 0 -> unresolved_count st <> 0;
  ip_generation :
    generation st = c_generation c \/ generation (fst (whole c)) = c_generation c;
  ip_gate :
    c_unresolved c = 0 ->
    (unresolved_count st = 0 /\ generation st = c_generation c) \/
    (unresolved_count (fst (whole c)) = 0 /\ generation (fst (whole c)) = c_generation c)
}.

Lemma entered_in_progress c st t op written :
  entered c st t op written -> c_writes c <> [] -> in_progress c st.
Proof.
  intros H Hne. pose proof H as [Hr Hc Hrs Hw Ha Hn].
  destruct (atomic_reachable_inv _ Hr) as [Hu Hg _]. cbn in Hu, Hg.
  destruct (critical_settled _ _ _ (requests st) Hc) as [Hset Hok]. rewrite <- Hw in Hset, Hok.
  rewrite <- Hu, <- (apply_events_unresolved _ (generation st)), apply_events_app, <- Ha in Hset.
  pose proof (unresolved_nonneg (fst (op (requests st)))) as Hpos.
  pose proof (unresolved_nonneg (requests st)) as Hpos0.
  assert (Hwh : fst (whole c) = mk_tgate (fst (apply_events (c_writes c) (c_generation c) (c_unresolved c))) (c_next c)
                                  (snd (apply_events (c_writes c) (c_generation c) (c_unresolved c))) (c_requests c)).
  { unfold whole. by destruct (apply_events (c_writes c) _ _). }
  destruct c as [g u n tk rs w]. cbn [c_generation c_unresolved c_next c_tickets c_requests c_writes] in *.
  destruct w as [|e0 w]; [done|]. set (w1 := e0 :: w) in *.
  assert (Hl : 0 < Z.of_nat (length w1)) by (subst w1; cbn; lia).
  destruct Hok as [Hd|[(w' & E & Hd & Hne')|[E|E]]].
  - apply Forall_app in Hd as [Hd1 Hd2]. rewrite (decrements_spec _ _ _ Hd1) in Ha.
    rewrite (decrements_spec w1 _ _ Hd2) in Hset, Hwh. injection Ha as -> ->. cbn [snd] in Hset.
    split; rewrite ?Hwh; cbn [generation unresolved_count fst snd c_generation c_unresolved]; lia.
  - destruct written as [|e written].
    + cbn [app] in E. cbn in Ha. injection Ha as -> ->. rewrite E in Hset. rewrite apply_events_cons in Hset.
      cbn [apply_event] in Hset. rewrite (decrements_spec _ _ _ Hd) in Hset. cbn [snd] in Hset.
      destruct w'; [done|]. cbn -[Z.of_nat] in Hset. split; cbn [c_generation c_unresolved]; [tauto|tauto|lia].
    + injection E as -> E. subst w'. apply Forall_app in Hd as [Hd1 Hd2].
      rewrite apply_events_cons in Ha. cbn [apply_event] in Ha. rewrite (decrements_spec _ _ _ Hd1) in Ha.
      rewrite (decrements_spec w1 _ _ Hd2) in Hset, Hwh. injection Ha as -> ->. cbn [snd] in Hset.
      split; rewrite ?Hwh; cbn [generation unresolved_count fst snd c_generation c_unresolved]; lia.
  - destruct written as [|e written]; [|by destruct written].
    cbn in Ha. injection Ha as -> ->. split; auto.
  - destruct written as [|e written]; [|by destruct written].
    cbn in Ha. injection Ha as -> ->. split; auto.
Qed.

(** What a load can tell: a counter other than zero, or a generation other than
    the frame's, is a state in which the frame is not current; the counter at
    zero with the generation the frame's is a state in which it is. *)
Lemma load_counter c g : tracked c -> c_unresolved c <> 0 -> exists s, sees c s /\ frame_is_current g (fst s) = false.
Proof.
  intros H Hu. destruct (c_writes c) as [|e w] eqn:Hw.
  - exists (whole c). split; [by left|]. apply not_true_iff_false. rewrite frame_is_current_spec.
    unfold whole. rewrite Hw. cbn. tauto.
  - destruct H as [[Hi _]|(st & t & op & written & He)]; [congruence|]. exists (st, t).
    split; [right; split; [congruence|by exists op, written]|]. apply not_true_iff_false. rewrite frame_is_current_spec.
    destruct (entered_in_progress _ _ _ _ _ He ltac:(congruence)) as [Hc _ _]. cbn [fst]. tauto.
Qed.

Lemma load_generation c g : tracked c -> c_generation c <> g -> exists s, sees c s /\ frame_is_current g (fst s) = false.
Proof.
  intros H Hu.
  assert (Hx : forall s : tgate * list Z, generation (fst s) = c_generation c -> frame_is_current g (fst s) = false).
  { intros s E. apply not_true_iff_false. rewrite frame_is_current_spec. intros [_ ->]. done. }
  destruct (c_writes c) as [|e w] eqn:Hw.
  - exists (whole c). split; [by left|]. apply Hx. unfold whole. by rewrite Hw.
  - destruct H as [[Hi _]|(st & t & op & written & He)]; [congruence|].
    destruct (entered_in_progress _ _ _ _ _ He ltac:(congruence)) as [_ [E|E] _].
    + exists (st, t). split; [right; split; [congruence|by exists op, written]|by apply Hx].
    + exists (whole c). split; [by left|by apply Hx].
Qed.

Lemma load_current c : tracked c -> c_unresolved c = 0 ->
  exists s, sees c s /\ frame_is_current (c_generation c) (fst s) = true.
Proof.
  intros H Hu. destruct (c_writes c) as [|e w] eqn:Hw.
  - exists (whole c). split; [by left|]. rewrite frame_is_current_spec. unfold whole. by rewrite Hw.
  - destruct H as [[Hi _]|(st & t & op & written & He)]; [congruence|].
    destruct (entered_in_progress _ _ _ _ _ He ltac:(congruence)) as [_ _ [[E1 E2]|[E1 E2]]]; [done|..].
    + exists (st, t). split; [right; split; [congruence|by exists op, written]|]. by apply frame_is_current_spec.
    + exists (whole c). split; [by left|]. by apply frame_is_current_spec.
Qed.

(** Without a wrap-around in between, two loads of one generation have it
    throughout. *)
Lemma generation_between c2 c3 c4 m n :
  0 <= c_generation c2 < 2 ^ 64 -> nsteps step m c2 c3 -> nsteps step n c3 c4 -> Z.of_nat m + Z.of_nat n < 2 ^ 64 ->
  c_generation c2 = c_generation c4 -> c_generation c3 = c_generation c2.
Proof.
  intros G2 H23 H34 Hmn E. destruct (nsteps_generation _ _ _ H23 G2) as (k & Hk & E3).
  assert (G3 : 0 <= c_generation c3 < 2 ^ 64) by (rewrite E3; apply Z.mod_pos_bound; lia).
  destruct (nsteps_generation _ _ _ H34 G3) as (k' & Hk' & E4).
  rewrite E3 in E4. unfold u64, wrap in *. rewrite Zplus_mod_idemp_l in E4.
  assert (Ez : (c_generation c2 + (k + k')) mod 2 ^ 64 = c_generation c2) by (rewrite Z.add_assoc, <- E4; done).
  assert (k + k' = 0).
  { pose proof (Z.div_mod (c_generation c2 + (k + k')) (2 ^ 64) ltac:(lia)). nia. }
  assert (k = 0) as -> by lia. rewrite E3, Z.add_0_r, Z.mod_small by done. done.
Qed.

Lemma step_range c c' : rtc step c c' -> 0 <= c_generation c < 2 ^ 64 -> 0 <= c_generation c' < 2 ^ 64.
Proof.
  intros H. induction H as [|a b c H1 H2 IH]; [done|]. intros Ha. apply IH.
  destruct (step_generation _ _ H1) as [->| ->]; [done|]. apply Z.mod_pos_bound. lia.
Qed.

(** C2: the lock-free [frame_is_current] is linearizable: its four loads, made
    in the states [c1], [c2], [c3], [c4] of a concurrent execution whose
    critical sections write the two atomics one at a time, give the answer
    that one atomic [frame_is_current] gives in a state of the machine whose
    critical sections are atomic, seen at one of the four loads: with the
    section in progress finished, or as it was when that section was entered.
    A [true] is answered only where no request is unresolved.  The generation
    must not wrap around its 64 bits between the second and the last load. *)
Theorem frame_gate_linearizable (c1 c2 c3 c4 : conc) (m n : nat) (g : Z) :
  rtc step conc_init c1 -> rtc step c1 c2 -> nsteps step m c2 c3 -> nsteps step n c3 c4 ->
  Z.of_nat m + Z.of_nat n < 2 ^ 64 ->
  let answer := frame_loads g (c_unresolved c1) (c_generation c2) (c_unresolved c3) (c_generation c4) in
  exists c s, c ∈ [c1; c2; c3; c4] /\ sees c s /\ atomic_reachable s /\
    frame_is_current g (fst s) = answer /\
    (answer = true -> g = generation (fst s) /\ Forall (fun r => is_unresolved r = false) (requests (fst s))).
Proof.
  intros H1 H12 H23 H34 Hmn answer.
  assert (R2 : rtc step conc_init c2) by by etrans.
  assert (R3 : rtc step conc_init c3) by by etrans; [|eapply rtc_nsteps; eauto].
  assert (R4 : rtc step conc_init c4) by by etrans; [|eapply rtc_nsteps; eauto].
  cut (exists c s, c ∈ [c1; c2; c3; c4] /\ rtc step conc_init c /\ sees c s /\ frame_is_current g (fst s) = answer).
  { intros (c & s & Hin & Hr & Hs & E). exists c, s.
    assert (Ha : atomic_reachable s) by by eapply sees_reachable; [apply reachable_tracked|].
    do 4 (split; [done|]). rewrite <- E, frame_is_current_spec, <- unresolved_0, <- (ai_unresolved _ (atomic_reachable_inv _ Ha)).
    tauto. }
  unfold answer, frame_loads.
  destruct (Z.eqb_spec (c_unresolved c1) 0) as [E1|E1]; cbn [negb];
    [|destruct (load_counter c1 g) as (s & Hs & E); auto using reachable_tracked; exists c1, s; set_solver].
  destruct (Z.eqb_spec g (c_generation c2)) as [E2|E2]; cbn [negb];
    [|destruct (load_generation c2 g) as (s & Hs & E); auto using reachable_tracked; exists c2, s; set_solver].
  destruct (Z.eqb_spec (c_unresolved c3) 0) as [E3|E3]; cbn [negb];
    [|destruct (load_counter c3 g) as (s & Hs & E); auto using reachable_tracked; exists c3, s; set_solver].
  destruct (Z.eqb_spec g (c_generation c4)) as [E4|E4];
    [|destruct (load_generation c4 g) as (s & Hs & E); auto using reachable_tracked; exists c4, s; set_solver].
  destruct (load_current c3) as (s & Hs & E); [by apply reachable_tracked|done|]. exists c3, s.
  rewrite (generation_between c2 c3 c4 m n) in E by (done || congruence || by apply (step_range conc_init); [|cbn; lia]).
  rewrite <- E2 in E. set_solver.
Qed.

Lemma frame_gate_linearizable_witness :
  let c := mk_conc 2 0 1 [1] (replicate REQUEST_HISTORY request_zero) [] in
  let c' := mk_conc 2 0 0 [] (replicate REQUEST_HISTORY request_zero) [] in
  exists d s, d ∈ [conc_init; c'; c; c] /\ sees d s /\ atomic_reachable s /\ frame_is_current 2 (fst s) = true /\
    (true = true -> 2 = generation (fst s) /\ Forall (fun r => is_unresolved r = false) (requests (fst s))).
Proof.
  intros c c'. apply (frame_gate_linearizable conc_init c' c c 1 0 2); try reflexivity.
  - apply rtc_once. apply step_advance.
  - eapply nsteps_l; [|apply nsteps_O]. by apply step_ticket.
  - apply nsteps_O.
Defined.
End Conc.
