(* ===== verification/CcCandidates.v ===== *)
(** * [runtime/trunk_cc_candidates.c]: the control channel candidate list

    A ring of at most 16 control channel frequencies, with flags and a
    cool-down time each, that the trunking hunt walks round-robin.  It hangs
    off the session state as an extension that is allocated on first use: an
    [option].  Allocation is taken to succeed.  Times are monotonic decode
    times in nanoseconds, for the C code's seconds in [double]. *)
From S2P Require Import Prelude.

Definition CANDIDATES_MAX : nat := 16.
Definition CANDIDATE_CURRENT_SITE : Z := 1.

Record dsd_trunk_cc_candidates := mk_cc {
  candidates : list Z;
  flags : list Z;
  count : Z;
  idx : Z;
  cool_until : list Z;
  added : Z;
  used_count : Z
}.
Notation cands := dsd_trunk_cc_candidates.

(** [calloc]. *)
Definition cc_zero : cands :=
  mk_cc (replicate CANDIDATES_MAX 0) (replicate CANDIDATES_MAX 0) 0 0 (replicate CANDIDATES_MAX 0) 0 0.

Definition cc_get (ext : option cands) : cands := default cc_zero ext.

Definition cc_clear (cc : cands) : cands :=
  mk_cc (replicate CANDIDATES_MAX 0) (replicate CANDIDATES_MAX 0) 0 0 (replicate CANDIDATES_MAX 0)
    (added cc) (used_count cc).

(** A corrupt count clears the list. *)
Definition has_valid_count (cc : cands) : cands * bool :=
  if (0 <=? count cc) && (count cc <=? Z.of_nat CANDIDATES_MAX) then (cc, true) else (cc_clear cc, false).

(** [for (k = 1; k < 16; k++) a[k - 1] = a[k];] *)
Definition shift_down (a : list Z) : list Z :=
  for_ 1 CANDIDATES_MAX (fun k a => a.[(k - 1)%nat <- a.[k]]) a.

Definition drop_oldest (cc : cands) : cands :=
  mk_cc (shift_down (candidates cc)) (shift_down (flags cc)) (count cc)
    (if 0 <? idx cc then idx cc - 1 else idx cc) (shift_down (cool_until cc)) (added cc) (used_count cc).

(** The frequency of candidate [i] if it may be tried now. *)
Definition candidate_is_allowed (cc : cands) (i : nat) (skip_cc_freq now required_flags : Z) : option Z :=
  let fl := (flags cc).[i] in
  let freq := (candidates cc).[i] in
  if negb (required_flags =? 0) && negb (Z.land fl required_flags =? required_flags) then None
  else if (freq =? 0) || (freq =? skip_cc_freq) then None
  else if (0 <? (cool_until cc).[i]) && (now <? (cool_until cc).[i]) then None
  else Some freq.

(** The index of [freq] among the first [n] candidates. *)
Fixpoint find_candidate (l : list Z) (n : nat) (freq : Z) : option nat :=
  match n, l with
  | S n, x :: l => if x =? freq then Some O else S <$> find_candidate l n freq
  | _, _ => None
  end.

Definition set_candidate (cc : cands) (i : nat) (freq fl cnt : Z) (bump : bool) : cands :=
  mk_cc ((candidates cc).[i <- freq]) ((flags cc).[i <- fl]) cnt (idx cc) ((cool_until cc).[i <- 0])
    (if bump then u32 (added cc + 1) else added cc) (used_count cc).

Definition cc_add (ext : option cands) (freq : Z) (bump_added : bool) (fl : Z) : option cands * Z :=
  if freq =? 0 then (ext, 0)
  else
    let cc := cc_get ext in
    let '(cc, valid) := has_valid_count cc in
    if negb valid then (Some cc, 0)
    else match find_candidate (candidates cc) (Z.to_nat (count cc)) freq with
         | Some k =>
             (Some (mk_cc (candidates cc) ((flags cc).[k <- Z.lor ((flags cc).[k]) fl]) (count cc) (idx cc)
                      (cool_until cc) (added cc) (used_count cc)), 0)
         | None =>
             if count cc <? Z.of_nat CANDIDATES_MAX then
               (Some (set_candidate cc (Z.to_nat (count cc)) freq fl (count cc + 1) bump_added), 1)
             else
               (Some (set_candidate (drop_oldest cc) (CANDIDATES_MAX - 1) freq fl (count cc) bump_added), 1)
         end.

(** The loop of [next], [tries] turns left. *)
Fixpoint next_loop (tries : nat) (cc : cands) (skip now required_flags : Z) : cands * option Z :=
  match tries with
  | O => (cc, None)
  | S tries =>
      let i := if count cc <=? idx cc then 0 else idx cc in
      let cc := mk_cc (candidates cc) (flags cc) (count cc) (i + 1) (cool_until cc) (added cc) (used_count cc) in
      match candidate_is_allowed cc (Z.to_nat i) skip now required_flags with
      | Some freq =>
          (mk_cc (candidates cc) (flags cc) (count cc) (idx cc) (cool_until cc) (added cc)
             (u32 (used_count cc + 1)), Some freq)
      | None => next_loop tries cc skip now required_flags
      end
  end.

(** [skip] is the current control channel ([trunk_cc_freq], else
    [p25_cc_freq]). *)
Definition cc_next (ext : option cands) (trunk_cc_freq p25_cc_freq now required_flags : Z)
  : option cands * option Z :=
  match ext with
  | None => (None, None)
  | Some cc =>
      let '(cc, valid) := has_valid_count cc in
      if negb valid then (Some cc, None)
      else
        let skip := if negb (trunk_cc_freq =? 0) then trunk_cc_freq else p25_cc_freq in
        let '(cc, r) := next_loop (Z.to_nat (count cc)) cc skip now required_flags in (Some cc, r)
  end.

Definition cc_set_cooldown (ext : option cands) (freq until : Z) : option cands :=
  if freq =? 0 then ext
  else match ext with
       | None => None
       | Some cc =>
           match find_candidate (candidates cc) (Nat.min (Z.to_nat (count cc)) CANDIDATES_MAX) freq with
           | Some i => Some (mk_cc (candidates cc) (flags cc) (count cc) (idx cc) ((cool_until cc).[i <- until])
                               (added cc) (used_count cc))
           | None => Some cc
           end
       end.

Definition cc_reset (ext : option cands) : option cands :=
  match ext with
  | None => None
  | Some cc =>
      let cc := cc_clear cc in
      Some (mk_cc (candidates cc) (flags cc) (count cc) (idx cc) (cool_until cc) 0 0)
  end.

(** ** Well-formed lists *)

(** The frequencies on the list. *)
Definition listed (cc : cands) : list Z := take (Z.to_nat (count cc)) (candidates cc).

Record cc_wf (cc : cands) : Prop := {
  wf_count : 0 <= count cc <= Z.of_nat CANDIDATES_MAX;
  wf_idx : 0 <= idx cc <= count cc;
  wf_candidates : length (candidates cc) = CANDIDATES_MAX;
  wf_flags : length (flags cc) = CANDIDATES_MAX;
  wf_cool : length (cool_until cc) = CANDIDATES_MAX;
  wf_distinct : NoDup (listed cc);
  wf_nonzero : Forall (fun f => f <> 0) (listed cc)
}.

Definition ext_wf (ext : option cands) : Prop := match ext with Some cc => cc_wf cc | None => True end.

Lemma cc_zero_wf : cc_wf cc_zero.
Proof. split; try done; constructor. Qed.

Lemma cc_get_wf ext : ext_wf ext -> cc_wf (cc_get ext).
Proof. destruct ext; [done|]. intros _. apply cc_zero_wf. Qed.

Lemma has_valid_count_wf cc : cc_wf cc -> has_valid_count cc = (cc, true).
Proof.
  intros [Hc _ _ _ _ _ _]. unfold has_valid_count.
  destruct (Z.leb_spec 0 (count cc)), (Z.leb_spec (count cc) (Z.of_nat CANDIDATES_MAX)); lia || done.
Qed.

Lemma find_candidate_spec l n freq :
  (n <= length l)%nat ->
  match find_candidate l n freq with
  | Some k => (k < n)%nat /\ l !! k = Some freq
  | None => freq ∉ take n l
  end.
Proof.
  revert n. induction l as [|x l IH]; intros [|n] Hn; cbn; try (apply not_elem_of_nil).
  cbn in Hn. specialize (IH n ltac:(lia)). destruct (Z.eqb_spec x freq) as [->|Hne]; [split; [lia|done]|].
  destruct (find_candidate l n freq) as [k|]; cbn.
  - destruct IH. split; [lia|done].
  - apply not_elem_of_cons. by split; [intros ->|].
Qed.

Lemma shift_down_spec a : length a = CANDIDATES_MAX ->
  length (shift_down a) = CANDIDATES_MAX /\ take (CANDIDATES_MAX - 1) (shift_down a) = drop 1 a.
Proof.
  intros H. do 16 (destruct a as [|? a]; [done|]). destruct a; [|done]. done.
Qed.

Lemma listed_insert cc i freq fl cnt bump :
  (i < length (candidates cc))%nat -> cnt = Z.of_nat i + 1 ->
  listed (set_candidate cc i freq fl cnt bump) = take i (candidates cc) ++ [freq].
Proof.
  intros Hi ->. unfold listed, set_candidate. cbn [count candidates].
  replace (Z.to_nat (Z.of_nat i + 1)) with (S i) by lia.
  rewrite (take_S_r _ i freq) by by apply list_lookup_insert_eq. by rewrite take_insert_ge.
Qed.

Lemma cc_add_wf ext freq bump fl : ext_wf ext -> ext_wf (fst (cc_add ext freq bump fl)).
Proof.
  intros Hext. unfold cc_add. destruct (Z.eqb_spec freq 0) as [|Hf]; [done|].
  pose proof (cc_get_wf ext Hext) as Hwf. rewrite has_valid_count_wf by done. cbn [negb].
  set (cc := cc_get ext) in *. destruct Hwf as [Hc Hi Hlc Hlf Hlu Hd Hnz].
  pose proof (find_candidate_spec (candidates cc) (Z.to_nat (count cc)) freq ltac:(unfold CANDIDATES_MAX in *; lia)) as Hfind.
  destruct (find_candidate _ _ freq) as [k|]; [split; cbn; rewrite ?length_insert; done|].
  destruct (Z.ltb_spec (count cc) (Z.of_nat CANDIDATES_MAX)) as [Hlt|Hge].
  - split; rewrite ?listed_insert by (lia || (rewrite Hlc; lia));
      cbn [set_candidate count idx candidates flags cool_until]; rewrite ?length_insert; try done; try lia.
    + apply NoDup_app. split; [done|]. split; [|apply NoDup_singleton].
      intros x Hx Hin. apply list_elem_of_singleton in Hin as ->. done.
    + apply Forall_app. split; [done|]. by apply Forall_singleton.
  - assert (Ec : count cc = 16) by (unfold CANDIDATES_MAX in *; lia).
    destruct (shift_down_spec (candidates cc) Hlc) as [Hsl Hst].
    destruct (shift_down_spec (flags cc) Hlf) as [Hsf _], (shift_down_spec (cool_until cc) Hlu) as [Hsu _].
    assert (Hsplit : exists x, listed cc = x :: drop 1 (candidates cc)).
    { unfold listed. rewrite Ec. destruct (candidates cc) as [|x l]; [done|]. exists x.
      rewrite take_ge by (rewrite Hlc; unfold CANDIDATES_MAX; lia). done. }
    destruct Hsplit as [x Hx]. rewrite Hx in Hd, Hnz. unfold listed in Hx. rewrite Hx in Hfind.
    apply NoDup_cons in Hd as [_ Hd]. apply Forall_cons in Hnz as [_ Hnz].
    apply not_elem_of_cons in Hfind as [_ Hfind].
    assert (Hli : listed (set_candidate (drop_oldest cc) (CANDIDATES_MAX - 1) freq fl (count cc) bump)
                  = drop 1 (candidates cc) ++ [freq]).
    { rewrite listed_insert, <- Hst; [done| |by rewrite Ec].
      cbn [drop_oldest candidates]. rewrite Hsl. unfold CANDIDATES_MAX. lia. }
    split; rewrite ?Hli;
      cbn [set_candidate drop_oldest count idx candidates flags cool_until]; rewrite ?length_insert; try done.
    + destruct (Z.ltb_spec 0 (idx cc)); lia.
    + apply NoDup_app. split; [done|]. split; [|apply NoDup_singleton].
      intros y Hy Hin. apply list_elem_of_singleton in Hin as ->. done.
    + apply Forall_app. split; [done|]. by apply Forall_singleton.
Qed.

(** ** The round-robin walk *)

(** Where the walk resumes. *)
Definition cursor (cc : cands) : Z := if count cc <=? idx cc then 0 else idx cc.

Definition set_idx (cc : cands) (i u : Z) : cands :=
  mk_cc (candidates cc) (flags cc) (count cc) i (cool_until cc) (added cc) u.

(** The [k]-th candidate the walk looks at. *)
Definition visit (cc : cands) (k : nat) : nat := Z.to_nat ((cursor cc + Z.of_nat k) mod count cc).

Lemma next_loop_spec tries cc skip now req :
  0 <= idx cc -> 0 < count cc ->
  match next_loop tries cc skip now req with
  | (cc', Some f) => exists k, (k < tries)%nat /\
      candidate_is_allowed cc (visit cc k) skip now req = Some f /\
      (forall k', (k' < k)%nat -> candidate_is_allowed cc (visit cc k') skip now req = None) /\
      cc' = set_idx cc (Z.of_nat (visit cc k) + 1) (u32 (used_count cc + 1))
  | (cc', None) => (forall k, (k < tries)%nat -> candidate_is_allowed cc (visit cc k) skip now req = None) /\
      exists i, cc' = set_idx cc i (used_count cc) /\ 0 <= i <= Z.max (idx cc) (count cc)
  end.
Proof.
  revert cc. induction tries as [|tries IH]; intros cc Hi Hc; cbn.
  { split; [intros; lia|]. exists (idx cc). split; [by destruct cc|lia]. }
  fold (cursor cc).
  assert (Hcur : 0 <= cursor cc < count cc).
  { unfold cursor. destruct (Z.leb_spec (count cc) (idx cc)); lia. }
  assert (Hv0 : visit cc 0 = Z.to_nat (cursor cc)).
  { unfold visit. rewrite Z.add_0_r, Z.mod_small by lia. done. }
  set (cc1 := mk_cc _ _ _ (cursor cc + 1) _ _ _).
  assert (Hvs : forall k, visit cc1 k = visit cc (S k)).
  { intros k. unfold visit. cbn [cc1 count]. f_equal. replace (cursor cc + Z.of_nat (S k)) with (cursor cc + 1 + Z.of_nat k) by lia.
    unfold cursor at 1. cbn [cc1 count idx]. destruct (Z.leb_spec (count cc) (cursor cc + 1)); [|done].
    replace (cursor cc + 1 + Z.of_nat k) with (0 + Z.of_nat k + 1 * count cc) by lia. by rewrite Z.mod_add by lia. }
  change (candidate_is_allowed cc1) with (candidate_is_allowed cc). rewrite <- Hv0.
  destruct (candidate_is_allowed cc (visit cc 0) skip now req) as [f|] eqn:Ha.
  - exists O. split; [lia|]. split; [done|]. split; [intros; lia|]. unfold set_idx. cbn.
    rewrite Hv0, Z2Nat.id by lia. done.
  - specialize (IH cc1 ltac:(cbn; lia) ltac:(done)).
    destruct (next_loop tries cc1 skip now req) as [cc' [f|]].
    + destruct IH as (k & Hk & Hf & Hmin & ->). exists (S k). rewrite <- Hvs.
      split; [lia|]. split; [done|]. split; [|done].
      intros [|k'] Hk'; [done|]. rewrite <- Hvs. apply Hmin. lia.
    + destruct IH as (Hnone & i & -> & Hb). split.
      * intros [|k'] Hk'; [done|]. rewrite <- Hvs. apply Hnone. lia.
      * exists i. split; [done|]. cbn in Hb. lia.
Qed.

(** The walk looks at every candidate. *)
Lemma visit_all cc i : (Z.of_nat i < count cc) -> 0 <= idx cc ->
  exists k, (k < Z.to_nat (count cc))%nat /\ visit cc k = i.
Proof.
  intros Hi Hidx. assert (Hcur : 0 <= cursor cc < count cc).
  { unfold cursor. destruct (Z.leb_spec (count cc) (idx cc)); lia. }
  exists (Z.to_nat ((Z.of_nat i - cursor cc) mod count cc)).
  pose proof (Z.mod_pos_bound (Z.of_nat i - cursor cc) (count cc) ltac:(lia)).
  split; [lia|]. unfold visit. rewrite Z2Nat.id by lia. rewrite Zplus_mod_idemp_r.
  replace (cursor cc + (Z.of_nat i - cursor cc)) with (Z.of_nat i) by lia.
  rewrite Z.mod_small by lia. lia.
Qed.

Lemma set_idx_wf cc i u : cc_wf cc -> 0 <= i <= count cc -> cc_wf (set_idx cc i u).
Proof. intros [Hc Hi Hlc Hlf Hlu Hd Hnz] H. by split. Qed.

Lemma cc_next_spec cc trunk_cc p25_cc now req :
  cc_wf cc ->
  let skip := if negb (trunk_cc =? 0) then trunk_cc else p25_cc in
  exists cc', fst (cc_next (Some cc) trunk_cc p25_cc now req) = Some cc' /\ cc_wf cc' /\
    listed cc' = listed cc /\
    match snd (cc_next (Some cc) trunk_cc p25_cc now req) with
    | Some f => exists k, (k < Z.to_nat (count cc))%nat /\
        candidate_is_allowed cc (visit cc k) skip now req = Some f /\
        (forall k', (k' < k)%nat -> candidate_is_allowed cc (visit cc k') skip now req = None) /\
        visit cc' 0 = visit cc (S k)
    | None => forall i, Z.of_nat i < count cc -> candidate_is_allowed cc i skip now req = None
    end.
Proof.
  intros Hwf skip. unfold cc_next. rewrite has_valid_count_wf by done. cbn [negb]. fold skip.
  pose proof (wf_count _ Hwf) as Hc. pose proof (wf_idx _ Hwf) as Hi.
  destruct (decide (count cc = 0)) as [Hz|Hz].
  { rewrite Hz. cbn. exists cc. do 3 (split; [done|]). intros [|i] Hi0; discriminate Hi0. }
  pose proof (next_loop_spec (Z.to_nat (count cc)) cc skip now req ltac:(lia) ltac:(lia)) as Hn.
  assert (Hvb : forall k, Z.of_nat (visit cc k) < count cc).
  { intros k. unfold visit. pose proof (Z.mod_pos_bound (cursor cc + Z.of_nat k) (count cc) ltac:(lia)). lia. }
  destruct (next_loop _ cc skip now req) as [cc' [f|]]; cbn [fst snd].
  - destruct Hn as (k & Hk & Hf & Hmin & ->). specialize (Hvb k). eexists. split; [done|].
    split; [apply set_idx_wf; [done|lia]|]. split; [done|]. exists k. do 3 (split; [done|]).
    unfold visit at 1. unfold cursor. cbn [set_idx count idx]. rewrite Z.add_0_r.
    unfold visit. f_equal. pose proof (Z.mod_pos_bound (cursor cc + Z.of_nat k) (count cc) ltac:(lia)).
    unfold visit in *. rewrite Z2Nat.id in * by lia.
    replace (cursor cc + Z.of_nat (S k)) with (cursor cc + Z.of_nat k + 1) by lia.
    rewrite <- (Zplus_mod_idemp_l (cursor cc + Z.of_nat k) 1). set (r := (cursor cc + Z.of_nat k) mod count cc) in *.
    destruct (Z.leb_spec (count cc) (r + 1)); [|done].
    replace (r + 1) with (count cc) by lia. rewrite Z.mod_same, Z.mod_0_l by lia. done.
  - destruct Hn as (Hnone & i & -> & Hb). eexists. split; [done|].
    split; [apply set_idx_wf; [done|lia]|]. split; [done|].
    intros j Hj. destruct (visit_all cc j Hj ltac:(lia)) as (k & Hk & <-). by apply Hnone.
Qed.

(** ** Properties *)

(** C40: the list stays well formed under every operation, whatever the
    arguments: at most 16 entries, pairwise distinct, never zero, with the
    cursor in range. *)
Theorem cc_operations_keep_wf (ext : option cands) (freq fl t p now req until : Z) (bump : bool) :
  ext_wf ext ->
  ext_wf (fst (cc_add ext freq bump fl)) /\ ext_wf (fst (cc_next ext t p now req)) /\
  ext_wf (cc_set_cooldown ext freq until) /\ ext_wf (cc_reset ext).
Proof.
  intros Hext. split; [by apply cc_add_wf|]. split; [|split].
  - destruct ext as [cc|]; [|done].
    destruct (cc_next_spec cc t p now req Hext) as (cc' & -> & Hwf & _). done.
  - unfold cc_set_cooldown. destruct (freq =? 0); [done|]. destruct ext as [cc|]; [|done].
    destruct (find_candidate _ _ freq) as [k|]; [|done]. destruct Hext.
    split; cbn; rewrite ?length_insert; done.
  - destruct ext as [cc|]; [|done]. split; try done; constructor.
Qed.

Lemma cc_operations_keep_wf_witness :
  ext_wf (fst (cc_add (Some cc_zero) 851012500 true 1)).
Proof. exact (proj1 (cc_operations_keep_wf (Some cc_zero) 851012500 1 0 0 0 0 0 true cc_zero_wf)). Defined.

(** [add] lists the frequency: it answers 1 exactly when the frequency was
    not listed, and then appends it, dropping the oldest entry of a full list;
    otherwise the list is unchanged. *)
Theorem cc_add_spec (cc : cands) (freq fl : Z) (bump : bool) :
  cc_wf cc -> freq <> 0 ->
  exists cc', fst (cc_add (Some cc) freq bump fl) = Some cc' /\
    if bool_decide (freq ∈ listed cc)
    then snd (cc_add (Some cc) freq bump fl) = 0 /\ listed cc' = listed cc
    else snd (cc_add (Some cc) freq bump fl) = 1 /\
         listed cc' = (if count cc <? Z.of_nat CANDIDATES_MAX then listed cc else drop 1 (listed cc)) ++ [freq].
Proof.
  intros Hwf Hf. unfold cc_add. destruct (Z.eqb_spec freq 0) as [|_]; [done|]. cbn [cc_get default id].
  rewrite has_valid_count_wf by done. cbn [negb]. destruct Hwf as [Hc Hi Hlc Hlf Hlu Hd Hnz].
  pose proof (find_candidate_spec (candidates cc) (Z.to_nat (count cc)) freq ltac:(unfold CANDIDATES_MAX in *; lia)) as Hfind.
  fold (listed cc) in Hfind. destruct (find_candidate _ _ freq) as [k|].
  - eexists. split; [done|]. rewrite bool_decide_eq_true_2; [done|].
    apply list_elem_of_lookup. exists k. unfold listed. rewrite lookup_take_lt by lia. apply Hfind.
  - rewrite bool_decide_eq_false_2 by done. destruct (Z.ltb_spec (count cc) (Z.of_nat CANDIDATES_MAX)) as [Hlt|Hge].
    + eexists. split; [done|]. split; [done|]. apply listed_insert; [rewrite Hlc; lia|lia].
    + eexists. split; [done|]. split; [done|].
      assert (Ec : count cc = 16) by (unfold CANDIDATES_MAX in *; lia).
      destruct (shift_down_spec (candidates cc) Hlc) as [Hsl Hst].
      rewrite listed_insert; [| |by rewrite Ec].
      * cbn [drop_oldest candidates]. rewrite Hst. unfold listed. rewrite Ec.
        rewrite (take_ge (candidates cc)) by (rewrite Hlc; unfold CANDIDATES_MAX; lia). done.
      * cbn [drop_oldest candidates]. rewrite Hsl. unfold CANDIDATES_MAX. lia.
Qed.

Lemma cc_add_spec_witness : exists cc', fst (cc_add (Some cc_zero) 5 false 1) = Some cc' /\ listed cc' = [5].
Proof.
  destruct (cc_add_spec cc_zero 5 1 false cc_zero_wf ltac:(discriminate)) as (cc' & H & _ & L).
  exists cc'. split; [exact H|exact L].
Defined.

(** C39: the hunt is complete and round-robin: [next] gives up only when no
    listed candidate may be tried; otherwise it returns the first one that may
    be, in cyclic order from the cursor, and the next call resumes right after
    it; the list is unchanged. *)
Theorem cc_next_round_robin (cc : cands) (trunk_cc p25_cc now req : Z) :
  cc_wf cc ->
  let skip := if negb (trunk_cc =? 0) then trunk_cc else p25_cc in
  let '(ext', r) := cc_next (Some cc) trunk_cc p25_cc now req in
  exists cc', ext' = Some cc' /\ listed cc' = listed cc /\
    match r with
    | None => forall i, Z.of_nat i < count cc -> candidate_is_allowed cc i skip now req = None
    | Some f => exists k, (k < Z.to_nat (count cc))%nat /\
        candidate_is_allowed cc (visit cc k) skip now req = Some f /\
        (forall k', (k' < k)%nat -> candidate_is_allowed cc (visit cc k') skip now req = None) /\
        visit cc' 0 = visit cc (S k)
    end.
Proof.
  intros Hwf skip. destruct (cc_next_spec cc trunk_cc p25_cc now req Hwf) as (cc' & H1 & _ & H2 & H3).
  destruct (cc_next (Some cc) trunk_cc p25_cc now req) as [ext' r]. exists cc'. done.
Qed.

Lemma cc_next_round_robin_witness :
  let cc := default cc_zero (fst (cc_add (fst (cc_add None 100 true 1)) 200 true 1)) in
  let '(ext', r) := cc_next (Some cc) 100 0 0 1 in
  exists cc', ext' = Some cc' /\ listed cc' = [100; 200].
Proof.
  intros cc. assert (Hwf : cc_wf cc) by exact (cc_add_wf _ 200 true 1 (cc_add_wf None 100 true 1 I)).
  pose proof (cc_next_round_robin cc 100 0 0 1 Hwf) as H. cbv zeta in H.
  destruct (cc_next (Some cc) 100 0 0 1) as [ext' r]. destruct H as (cc' & H1 & H2 & _). by exists cc'.
Defined.
