(* ===== verification/TetraConfirm.v ===== *)
(** * [protocol/tetra/tetra_confirm.c]: evidence about the TETRA carrier

    Counts the blocks whose CRC passed on the carrier on air, and what the
    burst being decoded proved.  The evidence sits in the session's TETRA state,
    which exists from its first use on: a function of the C code that creates
    it is [creating op], one that leaves a session without it alone is
    [op <$> _], one that only reads is applied to [peek]. *)
From S2P Require Import Prelude.

Record tetra_confirm := mk_confirm {
  signalling_blocks : Z;
  carrier_blocks : Z;
  carrier_epoch : Z;
  followed_call : bool;
  burst_open : bool;
  burst_stale : bool;
  burst_proven : bool
}.

Definition confirm_zero : tetra_confirm := mk_confirm 0 0 0 false false false false.

Definition UINT32_MAX : Z := 2 ^ 32 - 1.

Definition creating (op : tetra_confirm -> tetra_confirm) (c : option tetra_confirm) : option tetra_confirm :=
  Some (op (default confirm_zero c)).
Definition peek (c : option tetra_confirm) : tetra_confirm := default confirm_zero c.

(** The carrier's evidence counts only while the open burst is its own. *)
Definition carrier_current (c : tetra_confirm) : bool := negb (burst_open c && burst_stale c).

Definition confirm_reset (c : tetra_confirm) : tetra_confirm :=
  mk_confirm 0 0 (u32 (carrier_epoch c + 1)) false (burst_open c) (burst_open c) (burst_proven c).

Definition confirm_burst_begin (c : tetra_confirm) : tetra_confirm :=
  mk_confirm (signalling_blocks c) (carrier_blocks c) (carrier_epoch c) (followed_call c) true false false.

Definition confirm_burst_begin_captured (epoch : Z) (c : tetra_confirm) : tetra_confirm :=
  let c := confirm_burst_begin c in
  mk_confirm (signalling_blocks c) (carrier_blocks c) (carrier_epoch c) (followed_call c) (burst_open c)
    (negb (carrier_epoch c =? epoch)) (burst_proven c).

Definition confirm_burst_end (c : tetra_confirm) : tetra_confirm * bool :=
  (mk_confirm (signalling_blocks c) (carrier_blocks c) (carrier_epoch c) (followed_call c) false false
     (burst_proven c), burst_proven c).

Definition confirm_burst_current (c : tetra_confirm) : bool := carrier_current c.

Definition confirm_note_carrier_block (downlink : bool) (c : tetra_confirm) : tetra_confirm :=
  let bump x := if x <? UINT32_MAX then x + 1 else x in
  if negb (carrier_current c) then
    mk_confirm (signalling_blocks c) (carrier_blocks c) (carrier_epoch c) (followed_call c) (burst_open c)
      (burst_stale c) true
  else
    mk_confirm (if downlink then bump (signalling_blocks c) else signalling_blocks c) (bump (carrier_blocks c))
      (carrier_epoch c) (followed_call c) (burst_open c) (burst_stale c) true.

Definition confirm_note_signalling : tetra_confirm -> tetra_confirm := confirm_note_carrier_block true.
Definition confirm_note_uplink_signalling : tetra_confirm -> tetra_confirm := confirm_note_carrier_block false.

Definition confirm_note_block (c : tetra_confirm) : tetra_confirm :=
  mk_confirm (signalling_blocks c) (carrier_blocks c) (carrier_epoch c) (followed_call c) (burst_open c)
    (burst_stale c) true.

Definition confirm_carrier_proven (c : tetra_confirm) : bool := negb (carrier_blocks c =? 0).
Definition confirm_downlink_proven (c : tetra_confirm) : bool := negb (signalling_blocks c =? 0).

Definition set_followed_call (b : bool) (c : tetra_confirm) : tetra_confirm :=
  mk_confirm (signalling_blocks c) (carrier_blocks c) (carrier_epoch c) b (burst_open c) (burst_stale c)
    (burst_proven c).

Definition confirm_note_followed_call (c : tetra_confirm) : tetra_confirm :=
  if carrier_current c then set_followed_call true c else c.

Definition confirm_forget_followed_call (c : tetra_confirm) : tetra_confirm := set_followed_call false c.
Definition confirm_followed_call_proven (c : tetra_confirm) : bool := followed_call c.
Definition confirm_carrier_epoch (c : tetra_confirm) : Z := carrier_epoch c.

Definition confirm_restore_followed_call (epoch : Z) (proven : bool) (c : tetra_confirm) : tetra_confirm :=
  if carrier_epoch c =? epoch then set_followed_call proven c else c.

(** ** What a decoder does between two carrier resets *)

(** A note, on the way through a burst. *)
Variant note := NoteSignalling | NoteUplink | NoteBlock | NoteFollowed | ForgetFollowed.

Definition run_note (n : note) (c : tetra_confirm) : tetra_confirm :=
  match n with
  | NoteSignalling => confirm_note_signalling c
  | NoteUplink => confirm_note_uplink_signalling c
  | NoteBlock => confirm_note_block c
  | NoteFollowed => confirm_note_followed_call c
  | ForgetFollowed => confirm_forget_followed_call c
  end.

Definition run_notes (ns : list note) (c : tetra_confirm) : tetra_confirm := fold_left (fun c n => run_note n c) ns c.

Definition no_evidence (c : tetra_confirm) : Prop :=
  confirm_carrier_proven c = false /\ confirm_downlink_proven c = false /\ confirm_followed_call_proven c = false.

(** The note of a decoded block. *)
Definition is_block (n : note) : bool :=
  match n with NoteSignalling | NoteUplink | NoteBlock => true | _ => false end.

(** A note during a burst the carrier was reset under. *)
Lemma run_note_stale n c :
  burst_open c = true -> burst_stale c = true -> no_evidence c ->
  let c' := run_note n c in
  burst_open c' = true /\ burst_stale c' = true /\ no_evidence c' /\
  burst_proven c' = burst_proven c || is_block n.
Proof.
  intros Ho Hs (N1 & N2 & N3). destruct c as [sb cb ep fc bo bs bp]. cbn in *. subst bo bs.
  destruct n; unfold no_evidence; cbn; rewrite ?orb_true_r, ?orb_false_r; done.
Qed.

Lemma run_notes_stale ns c :
  burst_open c = true -> burst_stale c = true -> no_evidence c ->
  let c' := run_notes ns c in
  no_evidence c' /\ confirm_burst_current c' = false /\ burst_proven c' = burst_proven c || existsb is_block ns.
Proof.
  revert c. induction ns as [|n ns IH]; intros c Ho Hs Hn; cbn.
  - unfold confirm_burst_current, carrier_current. by rewrite Ho, Hs, orb_false_r.
  - destruct (run_note_stale n c Ho Hs Hn) as (Ho' & Hs' & Hn' & Hp).
    destruct (IH _ Ho' Hs' Hn') as (H1 & H2 & H3). do 2 (split; [done|]).
    unfold run_notes in H3. by rewrite H3, Hp, orb_assoc.
Qed.

(** A carrier left during a burst leaves nothing to the next one: after a
    reset made while a burst is open, whatever is still noted of that burst,
    the new carrier has no evidence and the decoders are told to stop, and the
    burst's own verdict still says whether it decoded anything.  A burst
    captured before the reset and decoded after it is treated the same. *)
Theorem stale_burst_adds_no_evidence (c : tetra_confirm) (ns : list note) (epoch : Z) :
  burst_open c = true ->
  let c1 := run_notes ns (confirm_reset c) in
  no_evidence c1 /\ confirm_burst_current c1 = false /\
  snd (confirm_burst_end c1) = burst_proven c || existsb is_block ns /\
  (epoch <> carrier_epoch (confirm_reset c) ->
   let c2 := run_notes ns (confirm_burst_begin_captured epoch (fst (confirm_burst_end (confirm_reset c)))) in
   no_evidence c2 /\ confirm_burst_current c2 = false).
Proof.
  intros Ho c1. destruct (run_notes_stale ns (confirm_reset c)) as (H1 & H2 & H3); [done..|].
  do 3 (split; [done|]). intros He c2.
  destruct (run_notes_stale ns (confirm_burst_begin_captured epoch (fst (confirm_burst_end (confirm_reset c)))))
    as (H4 & H5 & _); [done| |done|done].
  cbn in *. destruct (Z.eqb_spec (u32 (carrier_epoch c + 1)) epoch); [congruence|done].
Qed.

Lemma stale_burst_adds_no_evidence_witness :
  let c := confirm_note_signalling (confirm_burst_begin confirm_zero) in
  no_evidence (run_notes [NoteSignalling; NoteFollowed] (confirm_reset c)) /\ confirm_downlink_proven c = true.
Proof.
  split; [|reflexivity].
  exact (proj1 (stale_burst_adds_no_evidence
    (confirm_note_signalling (confirm_burst_begin confirm_zero)) [NoteSignalling; NoteFollowed] 0 eq_refl)).
Defined.
