(* ===== verification/TetraSm.v ===== *)
(** * [protocol/tetra/tetra_trunk_sm.c]: the TETRA trunking state machine

    Follows one traffic channel off the control channel.  The state machine
    lives in the session's TETRA state ([tetra]); it reads and writes the
    options and shared tuning fields ([env]), tunes through the request pool of
    [TuneGate] (the tuner hooks are a parameter), and uses the evidence of
    [TetraConfirm] and the list of [CcCandidates].

    Calls into the call records, the publication and the other TETRA decoders
    are logged in order ([call]); the call records call back through
    [tetra_sm_retire_call] and friends, which are entry points of their own
    here.  Narration is left out.  Times are integers (nanoseconds for the
    monotonic clock); a clock reading ([clock]) is fixed during a call. *)
From stdpp Require Import relations.
From S2P Require Import Prelude TuneGate CcCandidates TetraConfirm.

(** ** State *)

Variant tetra_sm_state_e := TETRA_SM_IDLE | TETRA_SM_ON_CC | TETRA_SM_TUNED.
#[export] Instance tetra_sm_state_eq_dec : EqDecision tetra_sm_state_e.
Proof. solve_decision. Defined.

Variant pending_kind_e := SM_PENDING_NONE | SM_PENDING_GRANT | SM_PENDING_RETURN.
#[export] Instance pending_kind_eq_dec : EqDecision pending_kind_e.
Proof. solve_decision. Defined.

Record tetra_sm_grant := mk_grant { freq_hz : Z; carrier : Z; timeslots : Z; call_id : Z }.
Definition grant_zero : tetra_sm_grant := mk_grant 0 0 0 0.

(** The options and shared tuning fields the state machine touches. *)
Record env := mk_env {
  trunk_enable : Z;
  trunk_is_tuned : Z;
  trunk_hangtime : Z;
  tuned_freq_hz : Z;            (** [dsd_opts_tuned_freq_hz(opts)] *)
  trunk_cc_freq : Z;
  p25_cc_freq : Z;
  p25_vc_freq : Z * Z;
  trunk_vc_freq : Z * Z;
  last_vc_sync_time : Z;
  last_vc_sync_time_m : Z;
  last_cc_sync_time : Z;
  last_cc_sync_time_m : Z;
  p25_last_vc_tune_time : Z;
  p25_last_vc_tune_time_m : Z
}.

Record tetra_sm_tune_snapshot := mk_snapshot {
  s_trunk_is_tuned : Z;
  s_p25_vc_freq : Z * Z;
  s_trunk_vc_freq : Z * Z;
  s_last_vc_sync_time : Z;
  s_last_vc_sync_time_m : Z;
  s_last_cc_sync_time : Z;
  s_last_cc_sync_time_m : Z;
  s_p25_last_vc_tune_time : Z;
  s_p25_last_vc_tune_time_m : Z
}.

Record tetra_sm_rollback := mk_rollback {
  r_tuning : tetra_sm_tune_snapshot;
  r_followed : tetra_sm_grant;
  r_t_tune_m : Z;
  r_t_voice_m : Z;
  r_confirm_epoch : Z;
  r_followed_proven : bool;
  r_followed_retired : bool;
  r_state : tetra_sm_state_e
}.

Record tetra_sm := mk_sm {
  pending_prev : tetra_sm_rollback;
  followed : tetra_sm_grant;
  t_tune_m : Z;
  t_voice_m : Z;
  pending_request_id : Z;
  sm_state : tetra_sm_state_e;
  pending_kind : pending_kind_e;
  followed_retired : bool
}.

Definition rollback_zero : tetra_sm_rollback :=
  mk_rollback (mk_snapshot 0 (0, 0) (0, 0) 0 0 0 0 0 0) grant_zero 0 0 0 false false TETRA_SM_IDLE.
Definition sm_zero : tetra_sm :=
  mk_sm rollback_zero grant_zero 0 0 0 TETRA_SM_IDLE SM_PENDING_NONE false.

Record tetra := mk_tetra { sm : tetra_sm; confirm : tetra_confirm }.
Definition tetra_zero : tetra := mk_tetra sm_zero confirm_zero.

(** Calls into the rest of the decoder. *)
Variant call :=
  | tetra_publish
  | tetra_forget_carrier_rest      (** the TM-SDU fragments, TDMA clock, speech and calls of the carrier *)
  | tetra_calls_followed_moved
  | tetra_calls_unfollowed (with_opts : bool)
  | tetra_calls_tick
  | tetra_request_complete (id : Z) (x : dsd_trunk_tune_result) (found_env : env) (found_ts : tetra).
      (** a settled request is completed, which opens the frame gate onto the state it finds *)

(** A session whose TETRA state exists. *)
Record world := mk_world {
  w_env : env;
  w_ts : tetra;
  w_gate : tgate;
  w_cands : option cands;
  w_log : list call
}.

Record clock := { now_m : Z; wall : Z }.

Definition set_env (e : env) (w : world) : world := mk_world e (w_ts w) (w_gate w) (w_cands w) (w_log w).
Definition set_gate (g : tgate) (w : world) : world := mk_world (w_env w) (w_ts w) g (w_cands w) (w_log w).
Definition set_sm (s : tetra_sm) (w : world) : world :=
  mk_world (w_env w) (mk_tetra s (confirm (w_ts w))) (w_gate w) (w_cands w) (w_log w).
Definition upd_confirm (f : tetra_confirm -> tetra_confirm) (w : world) : world :=
  mk_world (w_env w) (mk_tetra (sm (w_ts w)) (f (confirm (w_ts w)))) (w_gate w) (w_cands w) (w_log w).
Definition set_cands (c : option cands) (w : world) : world := mk_world (w_env w) (w_ts w) (w_gate w) c (w_log w).
Definition do_call (c : call) (w : world) : world :=
  mk_world (w_env w) (w_ts w) (w_gate w) (w_cands w) (w_log w ++ [c]).
Notation the_sm w := (sm (w_ts w)).

(** Field updates of the state machine. *)
Definition with_state (x : tetra_sm_state_e) (s : tetra_sm) : tetra_sm :=
  mk_sm (pending_prev s) (followed s) (t_tune_m s) (t_voice_m s) (pending_request_id s) x (pending_kind s)
    (followed_retired s).
Definition with_follow (g : tetra_sm_grant) (tune voice : Z) (retired : bool) (s : tetra_sm) : tetra_sm :=
  mk_sm (pending_prev s) g tune voice (pending_request_id s) (sm_state s) (pending_kind s) retired.
Definition with_pending (prev : tetra_sm_rollback) (id : Z) (k : pending_kind_e) (s : tetra_sm) : tetra_sm :=
  mk_sm prev (followed s) (t_tune_m s) (t_voice_m s) id (sm_state s) k (followed_retired s).
Definition with_t_tune (t : Z) (s : tetra_sm) : tetra_sm := with_follow (followed s) t (t_voice_m s) (followed_retired s) s.
Definition with_t_voice (t : Z) (s : tetra_sm) : tetra_sm := with_follow (followed s) (t_tune_m s) t (followed_retired s) s.
Definition with_followed (g : tetra_sm_grant) (s : tetra_sm) : tetra_sm :=
  with_follow g (t_tune_m s) (t_voice_m s) (followed_retired s) s.
Definition with_retired (b : bool) (s : tetra_sm) : tetra_sm :=
  with_follow (followed s) (t_tune_m s) (t_voice_m s) b s.

(** Field updates of the shared tuning state. *)
Definition with_tuning (tuned : Z) (p25_vc trunk_vc : Z * Z) (e : env) : env :=
  mk_env (trunk_enable e) tuned (trunk_hangtime e) (tuned_freq_hz e) (trunk_cc_freq e) (p25_cc_freq e)
    p25_vc trunk_vc (last_vc_sync_time e) (last_vc_sync_time_m e) (last_cc_sync_time e) (last_cc_sync_time_m e)
    (p25_last_vc_tune_time e) (p25_last_vc_tune_time_m e).
Definition with_tuned (tuned : Z) (e : env) : env := with_tuning tuned (p25_vc_freq e) (trunk_vc_freq e) e.
Definition with_p25_cc (f : Z) (e : env) : env :=
  mk_env (trunk_enable e) (trunk_is_tuned e) (trunk_hangtime e) (tuned_freq_hz e) (trunk_cc_freq e) f
    (p25_vc_freq e) (trunk_vc_freq e) (last_vc_sync_time e) (last_vc_sync_time_m e) (last_cc_sync_time e)
    (last_cc_sync_time_m e) (p25_last_vc_tune_time e) (p25_last_vc_tune_time_m e).
Definition with_times (vc vc_m cc cc_m tune tune_m : Z) (e : env) : env :=
  mk_env (trunk_enable e) (trunk_is_tuned e) (trunk_hangtime e) (tuned_freq_hz e) (trunk_cc_freq e) (p25_cc_freq e)
    (p25_vc_freq e) (trunk_vc_freq e) vc vc_m cc cc_m tune tune_m.

(** ** The state machine's own steps *)

Definition sm_set_state (next : tetra_sm_state_e) (w : world) : world :=
  if bool_decide (sm_state (the_sm w) = next) then w
  else do_call tetra_publish (set_sm (with_state next (the_sm w)) w).

Definition sm_rest_state (e : env) : tetra_sm_state_e :=
  if (trunk_enable e =? 1) && (0 <? trunk_cc_freq e) then TETRA_SM_ON_CC else TETRA_SM_IDLE.

Definition sm_capture (w : world) : tetra_sm_rollback :=
  let e := w_env w in
  let s := the_sm w in
  mk_rollback
    (mk_snapshot (trunk_is_tuned e) (p25_vc_freq e) (trunk_vc_freq e) (last_vc_sync_time e)
       (last_vc_sync_time_m e) (last_cc_sync_time e) (last_cc_sync_time_m e) (p25_last_vc_tune_time e)
       (p25_last_vc_tune_time_m e))
    (followed s) (t_tune_m s) (t_voice_m s) (confirm_carrier_epoch (confirm (w_ts w)))
    (confirm_followed_call_proven (confirm (w_ts w))) (followed_retired s) (sm_state s).

Definition sm_restore (r : tetra_sm_rollback) (w : world) : world :=
  let t := r_tuning r in
  let e := with_tuning (s_trunk_is_tuned t) (s_p25_vc_freq t) (s_trunk_vc_freq t) (w_env w) in
  let e := with_times (s_last_vc_sync_time t) (s_last_vc_sync_time_m t) (s_last_cc_sync_time t)
             (s_last_cc_sync_time_m t) (s_p25_last_vc_tune_time t) (s_p25_last_vc_tune_time_m t) e in
  let w := set_env e w in
  let w := set_sm (with_follow (r_followed r) (r_t_tune_m r) (r_t_voice_m r) (r_followed_retired r) (the_sm w)) w in
  let w := upd_confirm (confirm_restore_followed_call (r_confirm_epoch r) (r_followed_proven r)) w in
  sm_set_state (r_state r) w.

Definition sm_stamp_tuned (c : clock) (at_m : Z) (w : world) : world :=
  set_env (with_times (wall c) at_m (wall c) at_m (wall c) at_m (w_env w)) w.

Definition sm_claim_shared_tuning (f : Z) (w : world) : world :=
  set_env (with_tuning 1 (f, f) (f, f) (w_env w)) w.

Definition sm_release_shared_tuning (w : world) : world :=
  set_env (with_tuning 0 (0, 0) (0, 0) (w_env w)) w.

Definition mask_grant (g : tetra_sm_grant) : tetra_sm_grant :=
  mk_grant (freq_hz g) (Z.land (carrier g) 0x0FFF) (Z.land (timeslots g) 0x0F) (Z.land (call_id g) 0x3FFF).

Definition sm_follow (g : tetra_sm_grant) (w : world) : world :=
  upd_confirm confirm_forget_followed_call (set_sm (with_follow (mask_grant g) 0 0 false (the_sm w)) w).

Definition sm_unfollow (with_opts : bool) (w : world) : world :=
  let w := set_sm (with_follow grant_zero 0 0 (followed_retired (the_sm w)) (the_sm w)) w in
  do_call (tetra_calls_unfollowed with_opts) (upd_confirm confirm_forget_followed_call w).

Definition tetra_sm_disown_pending (w : world) : world :=
  let id := pending_request_id (the_sm w) in
  if id =? 0 then w
  else
    let w := set_sm (with_pending (pending_prev (the_sm w)) 0 SM_PENDING_NONE (the_sm w)) w in
    set_gate (request_disown id (w_gate w)) w.

Definition sm_stage_pending (k : pending_kind_e) (id : Z) (prev : tetra_sm_rollback) (w : world) : world :=
  set_sm (with_pending prev id k (the_sm w)) w.

(** [tetra_forget_carrier]: the evidence here, the rest logged. *)
Definition tetra_forget_carrier (w : world) : world :=
  do_call tetra_forget_carrier_rest (upd_confirm confirm_reset w).

Definition sm_grant_tune_completed (c : clock) (completed_m : Z) (w : world) : world :=
  let w := set_env (with_tuned 1 (w_env w)) w in
  let t := if 0 <? completed_m then completed_m else now_m c in
  let w := set_sm (with_t_tune t (the_sm w)) w in
  let w := sm_stamp_tuned c t w in
  do_call tetra_calls_followed_moved (tetra_forget_carrier w).

Definition sm_return_completed (w : world) : world :=
  tetra_forget_carrier (sm_unfollow true (set_env (with_tuned 0 (w_env w)) w)).

(** [dsd_trunk_tuning_request_complete], logged with the state it finds. *)
Definition sm_request_complete (c : clock) (id : Z) (x : dsd_trunk_tune_result) (w : world) : world :=
  do_call (tetra_request_complete id x (w_env w) (w_ts w)) (set_gate (request_complete id x (now_m c) (w_gate w)) w).

(** Settle the tune in flight; true when none is in flight any more. *)
Definition sm_settle_pending (c : clock) (w : world) : world * bool :=
  let id := pending_request_id (the_sm w) in
  if id =? 0 then (w, true)
  else
    let '(result, completed_m) := request_status id (w_gate w) in
    if bool_decide (result = DSD_TRUNK_TUNE_RESULT_PENDING) then (w, false)
    else
      let kind := pending_kind (the_sm w) in
      let prev := pending_prev (the_sm w) in
      let w := set_sm (with_pending prev 0 SM_PENDING_NONE (the_sm w)) w in
      if bool_decide (result = DSD_TRUNK_TUNE_RESULT_OK) then
        (if bool_decide (kind = SM_PENDING_GRANT) then sm_grant_tune_completed c completed_m w
         else sm_return_completed w, true)
      else
        let w := sm_restore prev w in
        (sm_request_complete c id result w, true).

Definition sm_settle_at_entry (c : clock) (w : world) : world * bool :=
  if burst_open (confirm (w_ts w)) then (w, pending_request_id (the_sm w) =? 0)
  else sm_settle_pending c w.

Definition is_ok (x : dsd_trunk_tune_result) : bool :=
  match x with DSD_TRUNK_TUNE_RESULT_OK | DSD_TRUNK_TUNE_RESULT_PENDING => true | _ => false end.

Section Machine.
Context (hooks : dsd_trunk_tuning_hooks env).

(** Runs a tuning hook on the session: its options and shared state, and the
    request pool. *)
Definition run_hook (hook : env * tgate -> env * tgate * dsd_trunk_tune_result * Z) (w : world)
  : world * dsd_trunk_tune_result * Z :=
  let '(e, g, x, id) := hook (w_env w, w_gate w) in (set_gate g (set_env e w), x, id).

(** Return to the control channel, or stop following on its carrier; true
    when the call was let go. *)
Definition sm_release (c : clock) (w : world) : world * bool :=
  if negb (trunk_enable (w_env w) =? 1) then (w, false)
  else
    let cc := trunk_cc_freq (w_env w) in
    if (cc <=? 0) || (freq_hz (followed (the_sm w)) =? cc) then
      let w := sm_unfollow true (sm_release_shared_tuning w) in
      (sm_set_state (sm_rest_state (w_env w)) w, true)
    else
      let prev := sm_capture w in
      let p25_cc := p25_cc_freq (w_env w) in
      let w := set_env (with_p25_cc 0 (w_env w)) w in
      let '(w, result, id) := run_hook (hook_return_to_cc hooks (now_m c)) w in
      if negb (is_ok result) then (set_env (with_p25_cc p25_cc (w_env w)) w, false)
      else if bool_decide (result = DSD_TRUNK_TUNE_RESULT_PENDING) then
        let w := sm_stage_pending SM_PENDING_RETURN id prev w in
        let w := set_sm (with_followed grant_zero (the_sm w)) w in
        (sm_set_state (sm_rest_state (w_env w)) w, true)
      else
        let w := sm_return_completed w in
        (sm_set_state (sm_rest_state (w_env w)) w, true).

Definition sm_same_call (s : tetra_sm) (g : tetra_sm_grant) : bool :=
  negb (followed_retired s) && (freq_hz (followed s) =? freq_hz g)
  && (timeslots (followed s) =? Z.land (timeslots g) 0x0F)
  && ((call_id (followed s) =? 0) || (call_id g =? 0) || (call_id (followed s) =? Z.land (call_id g) 0x3FFF)).

Definition sm_follow_here (c : clock) (g : tetra_sm_grant) (w : world) : world * bool :=
  let was_tuned := bool_decide (sm_state (the_sm w) = TETRA_SM_TUNED) in
  if was_tuned && sm_same_call (the_sm w) g then
    let f := followed (the_sm w) in
    (if call_id f =? 0 then
       set_sm (with_followed (mk_grant (freq_hz f) (carrier f) (timeslots f) (Z.land (call_id g) 0x3FFF))
                 (the_sm w)) w
     else w, false)
  else
    let w := sm_follow g w in
    let w := set_sm (with_t_tune (now_m c) (the_sm w)) w in
    let w := if negb was_tuned
             then sm_stamp_tuned c (t_tune_m (the_sm w)) (sm_claim_shared_tuning (freq_hz g) w) else w in
    let w := upd_confirm confirm_note_followed_call w in
    (sm_set_state TETRA_SM_TUNED w, true).

Definition sm_tune_grant (c : clock) (g : tetra_sm_grant) (w : world) : world * bool :=
  let prev := sm_capture w in
  let '(w, result, id) := run_hook (hook_tune_to_freq hooks (freq_hz g) 0 (now_m c)) w in
  if negb (is_ok result) then (w, false)
  else
    let w := sm_set_state TETRA_SM_TUNED (sm_follow g w) in
    if bool_decide (result = DSD_TRUNK_TUNE_RESULT_PENDING) then
      (sm_stage_pending SM_PENDING_GRANT id prev w, true)
    else (sm_grant_tune_completed c 0 w, true).

Definition tetra_sm_receiver_freq (w : world) : Z :=
  if negb (pending_request_id (the_sm w) =? 0) then 0
  else if bool_decide (sm_state (the_sm w) = TETRA_SM_TUNED) then freq_hz (followed (the_sm w))
  else tuned_freq_hz (w_env w).

Definition sm_grant_followable (w : world) (g : tetra_sm_grant) : bool :=
  (trunk_enable (w_env w) =? 1) && negb ((trunk_cc_freq (w_env w) <=? 0) || (freq_hz g <=? 0))
  && confirm_downlink_proven (confirm (w_ts w)).

(** ** Entry points, on a session whose TETRA state exists *)

Definition tetra_sm_init (w : world) : world :=
  let w := tetra_sm_disown_pending w in
  let w := if bool_decide (sm_state (the_sm w) = TETRA_SM_TUNED) then sm_unfollow true w else w in
  upd_confirm confirm_forget_followed_call (set_sm sm_zero w).

(** [dsd_mark_cc_sync], [dsd_mark_vc_sync]. *)
Definition dsd_mark_cc_sync (c : clock) (e : env) : env :=
  with_times (last_vc_sync_time e) (last_vc_sync_time_m e) (wall c) (now_m c) (p25_last_vc_tune_time e)
    (p25_last_vc_tune_time_m e) e.
Definition dsd_mark_vc_sync (c : clock) (e : env) : env :=
  with_times (wall c) (now_m c) (last_cc_sync_time e) (last_cc_sync_time_m e) (p25_last_vc_tune_time e)
    (p25_last_vc_tune_time_m e) e.

Definition tetra_sm_on_cc_sync (c : clock) (w : world) : world :=
  let '(w, settled) := sm_settle_at_entry c w in
  if negb settled then w
  else if negb (trunk_enable (w_env w) =? 1) || (trunk_cc_freq (w_env w) <=? 0) then w
  else
    let w := set_cands (fst (cc_add (w_cands w) (trunk_cc_freq (w_env w)) false CANDIDATE_CURRENT_SITE)) w in
    if bool_decide (sm_state (the_sm w) = TETRA_SM_TUNED) then w
    else
      let w := set_env (dsd_mark_cc_sync c (w_env w)) w in
      if bool_decide (sm_state (the_sm w) = TETRA_SM_IDLE) then sm_set_state TETRA_SM_ON_CC w else w.

Definition tetra_sm_on_grant (c : clock) (g : tetra_sm_grant) (w : world) : world * bool :=
  let '(w, settled) := sm_settle_at_entry c w in
  if negb settled then (w, false)
  else if negb (sm_grant_followable w g) then (w, false)
  else if freq_hz g =? tetra_sm_receiver_freq w then sm_follow_here c g w
  else sm_tune_grant c g w.

Definition tetra_sm_settle (c : clock) (w : world) : world * bool := sm_settle_pending c w.

Definition tetra_sm_on_release (c : clock) (id : Z) (w : world) : world :=
  let '(w, settled) := sm_settle_at_entry c w in
  if negb settled then w
  else if negb (bool_decide (sm_state (the_sm w) = TETRA_SM_TUNED)) then w
  else if negb (call_id (followed (the_sm w)) =? Z.land id 0x3FFF) then w
  else fst (sm_release c w).

(** Bit 3 of the bitmap is timeslot 1. *)
Definition tetra_slot_bit (tn : Z) : Z := if (1 <=? tn) && (tn <=? 4) then Z.shiftl 1 (4 - tn) else 0.

Definition tetra_sm_note_voice (c : clock) (tn : Z) (w : world) : world :=
  let w := set_env (dsd_mark_vc_sync c (w_env w)) w in
  if negb (bool_decide (sm_state (the_sm w) = TETRA_SM_TUNED)) || negb (pending_request_id (the_sm w) =? 0) then w
  else if Z.land (timeslots (followed (the_sm w))) (tetra_slot_bit tn) =? 0 then w
  else set_sm (with_t_voice (now_m c) (the_sm w)) w.

Definition sm_hold_untrunked (w : world) : world :=
  if followed_retired (the_sm w) then w
  else upd_confirm confirm_forget_followed_call (set_sm (with_retired true (the_sm w)) w).

(** [TETRA_SM_SPEECH_GAP_S] and [TETRA_SM_GRANT_TIMEOUT_S], nanoseconds. *)
Definition SPEECH_GAP : Z := 250000000.
Definition GRANT_TIMEOUT : Z := 4000000000.

Definition sm_tick_tuned (c : clock) (w : world) : world :=
  if negb (trunk_is_tuned (w_env w) =? 1) then
    let w := sm_unfollow true w in sm_set_state (sm_rest_state (w_env w)) w
  else if negb (trunk_enable (w_env w) =? 1) then sm_hold_untrunked w
  else if 0 <? t_voice_m (the_sm w) then
    let hangtime := if 0 <? trunk_hangtime (w_env w) then trunk_hangtime (w_env w) else 0 in
    if SPEECH_GAP + hangtime <=? now_m c - t_voice_m (the_sm w) then fst (sm_release c w) else w
  else if (0 <? t_tune_m (the_sm w)) && (GRANT_TIMEOUT <=? now_m c - t_tune_m (the_sm w))
  then fst (sm_release c w) else w.

Definition sm_tick (c : clock) (w : world) : world :=
  let '(w, settled) := sm_settle_pending c w in
  if negb settled then w
  else if bool_decide (sm_state (the_sm w) = TETRA_SM_ON_CC)
          && negb (bool_decide (sm_rest_state (w_env w) = TETRA_SM_ON_CC))
  then sm_set_state TETRA_SM_IDLE w
  else if bool_decide (sm_state (the_sm w) = TETRA_SM_TUNED) then sm_tick_tuned c w else w.

Definition tetra_sm_tick (c : clock) (w : world) : world := do_call tetra_calls_tick (sm_tick c w).

Definition tetra_sm_on_external_cc_return (w : world) : world :=
  let w := tetra_forget_carrier (sm_unfollow false (tetra_sm_disown_pending w)) in
  sm_set_state (sm_rest_state (w_env w)) w.

Definition tetra_sm_abandon_carrier (w : world) : world :=
  let held := bool_decide (sm_state (the_sm w) = TETRA_SM_TUNED) || negb (pending_request_id (the_sm w) =? 0) in
  let w := tetra_sm_disown_pending w in
  let w := if held then sm_release_shared_tuning w else w in
  let w := sm_unfollow true w in
  sm_set_state (sm_rest_state (w_env w)) w.

Definition tetra_sm_owns_return (w : world) : bool :=
  bool_decide (sm_state (the_sm w) = TETRA_SM_TUNED) || negb (pending_request_id (the_sm w) =? 0).

Definition tetra_sm_followed (w : world) : option tetra_sm_grant :=
  if bool_decide (sm_state (the_sm w) = TETRA_SM_TUNED) then Some (followed (the_sm w)) else None.

Definition tetra_sm_followed_call_id (w : world) : option Z :=
  if negb (bool_decide (sm_state (the_sm w) = TETRA_SM_TUNED)) || followed_retired (the_sm w) then None
  else Some (call_id (followed (the_sm w))).

(** What a tune in flight would put back is retired, or renamed, too. *)
Definition map_pending_prev (f : tetra_sm_rollback -> tetra_sm_rollback) (p : tetra_sm_rollback -> bool) (s : tetra_sm)
  : tetra_sm :=
  let prev := pending_prev s in
  if negb (pending_request_id s =? 0) && bool_decide (r_state prev = TETRA_SM_TUNED) && p prev
  then with_pending (f prev) (pending_request_id s) (pending_kind s) s else s.

Definition rollback_with (g : tetra_sm_grant) (proven retired : bool) (r : tetra_sm_rollback) : tetra_sm_rollback :=
  mk_rollback (r_tuning r) g (r_t_tune_m r) (r_t_voice_m r) (r_confirm_epoch r) proven retired (r_state r).

Definition tetra_sm_retire_call (id : Z) (w : world) : world :=
  let id := Z.land id 0x3FFF in
  let w := if bool_decide (sm_state (the_sm w) = TETRA_SM_TUNED) && negb (followed_retired (the_sm w))
              && (call_id (followed (the_sm w)) =? id)
           then upd_confirm confirm_forget_followed_call (set_sm (with_retired true (the_sm w)) w) else w in
  set_sm (map_pending_prev (fun r => rollback_with (r_followed r) false true r)
            (fun r => call_id (r_followed r) =? id) (the_sm w)) w.

Definition rename_grant (id : Z) (g : tetra_sm_grant) : tetra_sm_grant :=
  mk_grant (freq_hz g) (carrier g) (timeslots g) id.

Definition tetra_sm_on_call_renamed (old_id new_id : Z) (w : world) : world :=
  let from := Z.land old_id 0x3FFF in
  let to := Z.land new_id 0x3FFF in
  if from =? to then w
  else
    let w := if bool_decide (sm_state (the_sm w) = TETRA_SM_TUNED) && negb (followed_retired (the_sm w))
                && (call_id (followed (the_sm w)) =? from)
             then set_sm (with_followed (rename_grant to (followed (the_sm w))) (the_sm w)) w else w in
    set_sm (map_pending_prev
              (fun r => rollback_with (rename_grant to (r_followed r)) (r_followed_proven r) (r_followed_retired r) r)
              (fun r => negb (r_followed_retired r) && (call_id (r_followed r) =? from)) (the_sm w)) w.

(** One call into the state machine, or a change made elsewhere: the engine,
    the frontends and the other protocols write the environment; the tuner
    backend and the engine use the request pool; the decoders note evidence. *)
Inductive step : world -> world -> Prop :=
  | step_init w : step w (tetra_sm_init w)
  | step_cc_sync c w : step w (tetra_sm_on_cc_sync c w)
  | step_grant c g w : step w (fst (tetra_sm_on_grant c g w))
  | step_settle c w : step w (fst (tetra_sm_settle c w))
  | step_release c id w : step w (tetra_sm_on_release c id w)
  | step_voice c tn w : step w (tetra_sm_note_voice c tn w)
  | step_tick c w : step w (tetra_sm_tick c w)
  | step_external_return w : step w (tetra_sm_on_external_cc_return w)
  | step_abandon w : step w (tetra_sm_abandon_carrier w)
  | step_retire id w : step w (tetra_sm_retire_call id w)
  | step_renamed old new w : step w (tetra_sm_on_call_renamed old new w)
  | step_env e w : step w (set_env e w)
  | step_gate g w : step w (set_gate g w)
  | step_confirm f w : step w (upd_confirm f w)
  | step_cands cs w : step w (set_cands cs w).
End Machine.

(** ** The state machine's invariant *)

Definition grant_wf (g : tetra_sm_grant) : Prop :=
  0 <= carrier g < 2 ^ 12 /\ 0 <= timeslots g < 2 ^ 4 /\ 0 <= call_id g < 2 ^ 14.

(** Following exactly while TUNED, and then a real channel. *)
Definition follow_ok (s : tetra_sm_state_e) (g : tetra_sm_grant) : Prop :=
  grant_wf g /\ if bool_decide (s = TETRA_SM_TUNED) then 0 < freq_hz g else g = grant_zero.

Record sm_ok (s : tetra_sm) : Prop := {
  ok_follow : follow_ok (sm_state s) (followed s);
  ok_kind : pending_request_id s = 0 <-> pending_kind s = SM_PENDING_NONE;
  ok_grant : pending_kind s = SM_PENDING_GRANT -> sm_state s = TETRA_SM_TUNED;
  ok_return : pending_kind s = SM_PENDING_RETURN -> sm_state s <> TETRA_SM_TUNED;
  ok_prev : pending_request_id s <> 0 ->
            follow_ok (r_state (pending_prev s)) (r_followed (pending_prev s))
}.

Lemma land_mask a n : 0 <= n -> 0 <= Z.land a (Z.ones n) < 2 ^ n.
Proof. intros Hn. rewrite Z.land_ones by done. apply Z.mod_pos_bound. lia. Qed.

Lemma mask_grant_wf g : grant_wf (mask_grant g).
Proof.
  unfold grant_wf. cbn. change 0x0FFF with (Z.ones 12). change 0x0F with (Z.ones 4).
  change 0x3FFF with (Z.ones 14). repeat split; apply land_mask; lia.
Qed.

Lemma grant_zero_wf : grant_wf grant_zero.
Proof. unfold grant_wf. cbn. lia. Qed.

Lemma follow_ok_rest e : follow_ok (sm_rest_state e) grant_zero.
Proof.
  split; [apply grant_zero_wf|]. unfold sm_rest_state. destruct (_ && _); done.
Qed.

Lemma rest_state_not_tuned e : sm_rest_state e <> TETRA_SM_TUNED.
Proof. unfold sm_rest_state. by destruct (_ && _). Qed.

Lemma sm_set_state_sm x w : the_sm (sm_set_state x w) = with_state x (the_sm w).
Proof.
  unfold sm_set_state. case_bool_decide as E; [|done]. rewrite <- E. by destruct (the_sm w).
Qed.

Lemma sm_zero_ok : sm_ok sm_zero.
Proof. by split. Qed.

(** The state machine at rest: nothing followed, nothing in flight. *)
Lemma sm_at_rest s x :
  pending_request_id s = 0 -> pending_kind s = SM_PENDING_NONE -> x <> TETRA_SM_TUNED -> followed s = grant_zero ->
  sm_ok (with_state x s).
Proof.
  intros Hid Hk Hx Hf. split; cbn; rewrite ?Hid, ?Hk, ?Hf; try done.
  split; [apply grant_zero_wf|]. by case_bool_decide.
Qed.

(** The state machine on a channel, nothing in flight. *)
Lemma sm_on_channel s :
  pending_request_id s = 0 -> pending_kind s = SM_PENDING_NONE -> grant_wf (followed s) -> 0 < freq_hz (followed s) ->
  sm_ok (with_state TETRA_SM_TUNED s).
Proof. intros Hid Hk Hw Hf. by split; cbn; rewrite ?Hid, ?Hk. Qed.

Lemma disown_sm w :
  the_sm (tetra_sm_disown_pending w)
  = if pending_request_id (the_sm w) =? 0 then the_sm w
    else with_pending (pending_prev (the_sm w)) 0 SM_PENDING_NONE (the_sm w).
Proof. unfold tetra_sm_disown_pending. by destruct (_ =? 0). Qed.

Lemma disown_clears w : sm_ok (the_sm w) ->
  let s := the_sm (tetra_sm_disown_pending w) in
  pending_request_id s = 0 /\ pending_kind s = SM_PENDING_NONE.
Proof.
  intros Hok s. unfold s. rewrite disown_sm. destruct (Z.eqb_spec (pending_request_id (the_sm w)) 0) as [E|]; [|done].
  split; [done|]. by apply (ok_kind _ Hok).
Qed.

(** A hook that leaves a request in flight returned its id. *)
Lemma hook_run_pending {E} hook now (es : E * tgate) es' id :
  hook_run hook now es = (es', DSD_TRUNK_TUNE_RESULT_PENDING, id) -> id <> 0.
Proof.
  unfold hook_run. destruct es as [e st]. destruct (request_begin st) as [st1 id1].
  destruct (Z.eqb_spec id1 0) as [|Hne]; [congruence|]. destruct hook as [hook|].
  - destruct (hook id1 (e, st1)) as [[e' st'] x]. destruct (note_result _ _ _ _). congruence.
  - destruct (note_result _ _ _ _). congruence.
Qed.

(** Settling. *)
Lemma sm_settle_ok c w : sm_ok (the_sm w) -> sm_ok (the_sm (fst (sm_settle_pending c w))).
Proof.
  intros Hok. unfold sm_settle_pending. destruct (Z.eqb_spec (pending_request_id (the_sm w)) 0) as [|Hid]; [done|].
  destruct (request_status _ _) as [result completed_m]. case_bool_decide; [done|].
  destruct Hok as [Hf Hk Hg Hr Hp]. specialize (Hp Hid). case_bool_decide; cbn [fst].
  - case_bool_decide as Hkind.
    + cbn. specialize (Hg Hkind). split; cbn; try done. 
    + assert (Hret : pending_kind (the_sm w) = SM_PENDING_RETURN).
      { destruct (pending_kind (the_sm w)) eqn:Hpk; [|done|done]. exfalso. apply Hid. by apply Hk. }
      cbn. specialize (Hr Hret). split; cbn; try done. split; [apply grant_zero_wf|]. by case_bool_decide.
  - unfold sm_restore. cbn [sm_request_complete do_call set_gate w_ts]. rewrite sm_set_state_sm. by split; cbn.
Qed.

Lemma settle_at_entry_ok c w : sm_ok (the_sm w) -> sm_ok (the_sm (fst (sm_settle_at_entry c w))).
Proof. intros. unfold sm_settle_at_entry. destruct (burst_open _); [done|]. by apply sm_settle_ok. Qed.

(** Settled means that nothing is in flight. *)
Lemma settle_settled c w :
  snd (sm_settle_pending c w) = true ->
  pending_request_id (the_sm (fst (sm_settle_pending c w))) = 0.
Proof.
  unfold sm_settle_pending. destruct (Z.eqb_spec (pending_request_id (the_sm w)) 0) as [|Hid]; [done|].
  destruct (request_status _ _) as [result completed_m]. case_bool_decide; [done|]. case_bool_decide; cbn [fst].
  - by case_bool_decide.
  - intros _. unfold sm_restore. cbn [sm_request_complete do_call set_gate w_ts]. by rewrite sm_set_state_sm.
Qed.

Lemma settle_at_entry_settled c w :
  snd (sm_settle_at_entry c w) = true ->
  pending_request_id (the_sm (fst (sm_settle_at_entry c w))) = 0.
Proof.
  unfold sm_settle_at_entry. destruct (burst_open _); [cbn; intros H; lia|]. by apply settle_settled.
Qed.

(** ** Every entry point keeps the invariant *)

Lemma sm_unfollow_sm b w :
  the_sm (sm_unfollow b w) = with_follow grant_zero 0 0 (followed_retired (the_sm w)) (the_sm w).
Proof. done. Qed.

(** Nothing in flight, following ends. *)
Lemma unfollow_rest_ok s b x :
  pending_request_id s = 0 -> pending_kind s = SM_PENDING_NONE -> x <> TETRA_SM_TUNED ->
  sm_ok (with_state x (with_follow grant_zero 0 0 b s)).
Proof. intros Hid Hk Hx. by apply sm_at_rest. Qed.

Lemma no_pending_kind s : sm_ok s -> pending_request_id s = 0 -> pending_kind s = SM_PENDING_NONE.
Proof. intros Hok. apply (ok_kind _ Hok). Qed.

Lemma capture_follow_ok w : sm_ok (the_sm w) ->
  follow_ok (r_state (sm_capture w)) (r_followed (sm_capture w)).
Proof. intros Hok. apply (ok_follow _ Hok). Qed.

Lemma run_hook_sm hook w :
  w_ts (fst (fst (run_hook hook w))) = w_ts w.
Proof. unfold run_hook. by destruct (hook _) as [[[e g] x] id]. Qed.

Section Ok.
Context (hooks : dsd_trunk_tuning_hooks env).

Lemma run_hook_result (h : option (Z -> env * tgate -> env * tgate * dsd_trunk_tune_result)) n w w' id :
  run_hook (hook_run h n) w = (w', DSD_TRUNK_TUNE_RESULT_PENDING, id) -> id <> 0.
Proof.
  unfold run_hook. destruct (hook_run h n (w_env w, w_gate w)) as [[[e g] x] i] eqn:E.
  intros H. injection H as _ -> ->. by eapply hook_run_pending.
Qed.

Lemma sm_release_ok c w :
  sm_ok (the_sm w) -> pending_request_id (the_sm w) = 0 -> sm_ok (the_sm (fst (sm_release hooks c w))).
Proof.
  intros Hok Hid. pose proof (no_pending_kind _ Hok Hid) as Hk. unfold sm_release.
  destruct (negb _); [done|]. destruct (_ || _); cbn [fst].
  { rewrite sm_set_state_sm, sm_unfollow_sm. by apply unfollow_rest_ok; [| |apply rest_state_not_tuned]. }
  set (w1 := set_env (with_p25_cc 0 (w_env w)) w).
  pose proof (run_hook_sm (hook_return_to_cc hooks (now_m c)) w1) as Hsm.
  destruct (run_hook _ w1) as [[w2 result] id] eqn:Eh. cbn in Hsm.
  destruct (negb (is_ok result)); cbn [fst]; [cbn; by rewrite Hsm|].
  case_bool_decide as Hp; cbn [fst]; rewrite sm_set_state_sm.
  - subst result. apply run_hook_result in Eh. cbn. rewrite Hsm. split; cbn; try done.
    + apply follow_ok_rest.
    + intros _. apply rest_state_not_tuned.
    + intros _. by apply capture_follow_ok.
  - cbn. rewrite Hsm. cbn. by apply unfollow_rest_ok; [| |apply rest_state_not_tuned].
Qed.

Lemma sm_follow_here_ok c g w :
  sm_ok (the_sm w) -> pending_request_id (the_sm w) = 0 -> 0 < freq_hz g ->
  sm_ok (the_sm (fst (sm_follow_here c g w))).
Proof.
  intros Hok Hid Hg. pose proof (no_pending_kind _ Hok Hid) as Hk. unfold sm_follow_here.
  destruct (bool_decide (sm_state (the_sm w) = TETRA_SM_TUNED)) eqn:Ht; cbn [andb negb].
  - apply bool_decide_eq_true in Ht. destruct (sm_same_call _ g); cbn [fst].
    + destruct (call_id (followed (the_sm w)) =? 0); [|done]. destruct Hok as [Hf ? ? ? ?].
      split; cbn; rewrite ?Hid, ?Hk; try done. rewrite Ht in *. destruct Hf as [(? & ? & _) Hfr]. split; [|done].
      split; [done|]. split; [done|]. cbn. change 0x3FFF with (Z.ones 14). apply land_mask. lia.
    + rewrite sm_set_state_sm. by apply sm_on_channel; [| |apply mask_grant_wf|].
  - cbn [fst]. rewrite sm_set_state_sm. by apply sm_on_channel; [| |apply mask_grant_wf|].
Qed.

Lemma sm_tune_grant_ok c g w :
  sm_ok (the_sm w) -> pending_request_id (the_sm w) = 0 -> 0 < freq_hz g ->
  sm_ok (the_sm (fst (sm_tune_grant hooks c g w))).
Proof.
  intros Hok Hid Hg. pose proof (no_pending_kind _ Hok Hid) as Hk. unfold sm_tune_grant.
  pose proof (run_hook_sm (hook_tune_to_freq hooks (freq_hz g) 0 (now_m c)) w) as Hsm.
  destruct (run_hook _ w) as [[w2 result] id] eqn:Eh. cbn in Hsm.
  destruct (negb (is_ok result)); cbn [fst]; [by rewrite Hsm|].
  set (w3 := sm_set_state TETRA_SM_TUNED (sm_follow g w2)).
  assert (H3 : the_sm w3 = with_state TETRA_SM_TUNED (with_follow (mask_grant g) 0 0 false (the_sm w))).
  { unfold w3. rewrite sm_set_state_sm. cbn. by rewrite Hsm. }
  case_bool_decide as Hp; cbn [fst].
  - subst result. apply run_hook_result in Eh. cbn. rewrite H3. split; cbn; try done.
    + split; [apply mask_grant_wf|done].
    + intros _. by apply capture_follow_ok.
  - cbn. rewrite H3. split; cbn; rewrite ?Hid, ?Hk; try done. split; [apply mask_grant_wf|done].
Qed.

Lemma on_grant_ok c g w : sm_ok (the_sm w) -> sm_ok (the_sm (fst (tetra_sm_on_grant hooks c g w))).
Proof.
  intros Hok. unfold tetra_sm_on_grant. pose proof (settle_at_entry_ok c w Hok) as Hok'.
  pose proof (settle_at_entry_settled c w) as Hset.
  destruct (sm_settle_at_entry c w) as [w' settled]. cbn in *. destruct settled; cbn [negb]; [|done].
  specialize (Hset eq_refl). unfold sm_grant_followable.
  destruct (trunk_enable (w_env w') =? 1); [|done]. cbn [andb].
  destruct (Z.leb_spec (trunk_cc_freq (w_env w')) 0), (Z.leb_spec (freq_hz g) 0); try done. cbn [orb negb andb].
  destruct (confirm_downlink_proven _); [|done]. cbn [negb].
  destruct (freq_hz g =? tetra_sm_receiver_freq w'); [by apply sm_follow_here_ok|by apply sm_tune_grant_ok].
Qed.

Lemma on_release_ok c id w : sm_ok (the_sm w) -> sm_ok (the_sm (tetra_sm_on_release hooks c id w)).
Proof.
  intros Hok. unfold tetra_sm_on_release. pose proof (settle_at_entry_ok c w Hok) as Hok'.
  pose proof (settle_at_entry_settled c w) as Hset.
  destruct (sm_settle_at_entry c w) as [w' settled]. cbn in *. destruct settled; cbn [negb]; [|done].
  destruct (negb _); [done|]. destruct (negb _); [done|]. by apply sm_release_ok; [|apply Hset].
Qed.

Lemma tetra_tick_ok c w : sm_ok (the_sm w) -> sm_ok (the_sm (tetra_sm_tick hooks c w)).
Proof.
  intros Hok. unfold tetra_sm_tick, sm_tick. pose proof (sm_settle_ok c w Hok) as Hok'.
  pose proof (settle_settled c w) as Hset.
  destruct (sm_settle_pending c w) as [w' settled]. cbn [fst snd] in *. destruct settled; cbn [negb]; [|done].
  specialize (Hset eq_refl). pose proof (no_pending_kind _ Hok' Hset) as Hk. cbn [do_call w_ts].
  destruct (bool_decide (sm_state (the_sm w') = TETRA_SM_ON_CC)) eqn:Hcc; cbn [andb].
  - apply bool_decide_eq_true in Hcc.
    destruct (negb _).
    + rewrite sm_set_state_sm. apply sm_at_rest; try done.
      pose proof (ok_follow _ Hok') as [_ Hf]. by rewrite Hcc in Hf.
    + by rewrite Hcc.
  - clear Hcc. case_bool_decide as Ht; [|done]. unfold sm_tick_tuned. destruct (negb _).
    { rewrite sm_set_state_sm, sm_unfollow_sm. by apply unfollow_rest_ok; [| |apply rest_state_not_tuned]. }
    destruct (negb _).
    { unfold sm_hold_untrunked. destruct (followed_retired _); [done|]. destruct Hok'. by split. }
    destruct (0 <? t_voice_m _); [destruct (_ <=? _)|destruct (_ && _)]; try done; by apply sm_release_ok.
Qed.

Lemma on_cc_sync_ok c w : sm_ok (the_sm w) -> sm_ok (the_sm (tetra_sm_on_cc_sync c w)).
Proof.
  intros Hok. unfold tetra_sm_on_cc_sync. pose proof (settle_at_entry_ok c w Hok) as Hok'.
  pose proof (settle_at_entry_settled c w) as Hset.
  destruct (sm_settle_at_entry c w) as [w' settled]. cbn [fst snd] in *. destruct settled; cbn [negb]; [|done].
  specialize (Hset eq_refl). destruct (_ || _); [done|]. case_bool_decide as Ht; [done|].
  case_bool_decide as Hi; [|done]. rewrite sm_set_state_sm. cbn in *. apply sm_at_rest; try done.
  - by apply no_pending_kind.
  - pose proof (ok_follow _ Hok') as [_ Hf]. by rewrite bool_decide_eq_false_2 in Hf.
Qed.

Lemma note_voice_ok c tn w : sm_ok (the_sm w) -> sm_ok (the_sm (tetra_sm_note_voice c tn w)).
Proof.
  intros Hok. unfold tetra_sm_note_voice. destruct (_ || _); [done|]. destruct (_ =? 0); [done|].
  destruct Hok. by split.
Qed.

Lemma external_return_ok w : sm_ok (the_sm w) -> sm_ok (the_sm (tetra_sm_on_external_cc_return w)).
Proof.
  intros Hok. unfold tetra_sm_on_external_cc_return. rewrite sm_set_state_sm. cbn [tetra_forget_carrier do_call upd_confirm w_ts sm].
  destruct (disown_clears w Hok) as [Hid Hk]. rewrite sm_unfollow_sm.
  apply unfollow_rest_ok; try done. apply rest_state_not_tuned.
Qed.

Lemma tetra_abandon_ok w : sm_ok (the_sm w) -> sm_ok (the_sm (tetra_sm_abandon_carrier w)).
Proof.
  intros Hok. unfold tetra_sm_abandon_carrier. rewrite sm_set_state_sm, sm_unfollow_sm.
  destruct (disown_clears w Hok) as [Hid Hk].
  match goal with |- context [if ?b then _ else _] => set (held := b) end.
  apply unfollow_rest_ok; [| |apply rest_state_not_tuned]; destruct held; assumption.
Qed.

Lemma map_pending_prev_ok f p s :
  (forall r, follow_ok (r_state r) (r_followed r) -> r_state r = TETRA_SM_TUNED ->
             follow_ok (r_state (f r)) (r_followed (f r))) ->
  sm_ok s -> sm_ok (map_pending_prev f p s).
Proof.
  intros Hf Hok. unfold map_pending_prev. destruct (negb (pending_request_id s =? 0)) eqn:Hid; cbn [andb]; [|done].
  case_bool_decide as Ht; cbn [andb]; [|done]. destruct (p _); [|done].
  destruct Hok as [H1 H2 H3 H4 H5]. split; cbn; try done. intros Hn. apply Hf; [by apply H5|done].
Qed.

Lemma retire_call_ok id w : sm_ok (the_sm w) -> sm_ok (the_sm (tetra_sm_retire_call id w)).
Proof.
  intros Hok. unfold tetra_sm_retire_call. cbn [set_sm w_ts sm]. apply map_pending_prev_ok; [done|].
  destruct (_ && _ && _); [|done]. destruct Hok. by split.
Qed.

Lemma rename_wf id g : 0 <= id < 2 ^ 14 -> grant_wf g -> grant_wf (rename_grant id g).
Proof. intros Hid (? & ? & _). by split. Qed.

Lemma call_renamed_ok old new w : sm_ok (the_sm w) -> sm_ok (the_sm (tetra_sm_on_call_renamed old new w)).
Proof.
  intros Hok. unfold tetra_sm_on_call_renamed. destruct (_ =? _); [done|].
  assert (Hto : 0 <= Z.land new 0x3FFF < 2 ^ 14) by (change 0x3FFF with (Z.ones 14); apply land_mask; lia).
  cbn [set_sm w_ts sm]. apply map_pending_prev_ok.
  { intros r [Hw Hf] Ht. split; cbn; [by apply rename_wf|]. rewrite Ht in *. done. }
  destruct (bool_decide (sm_state (the_sm w) = TETRA_SM_TUNED)) eqn:Ht; cbn [andb]; [|done].
  apply bool_decide_eq_true in Ht. destruct (_ && _); [|done].
  destruct Hok as [[Hw Hf] ? ? ? ?]. split; cbn; try done. split; [by apply rename_wf|].
  rewrite Ht in *. done.
Qed.

Lemma tetra_init_ok w : sm_ok (the_sm (tetra_sm_init w)).
Proof. unfold tetra_sm_init. cbn. apply sm_zero_ok. Qed.

Lemma step_ok w w' : step hooks w w' -> sm_ok (the_sm w) -> sm_ok (the_sm w').
Proof.
  intros [] Hok; try exact Hok; auto using tetra_init_ok, on_cc_sync_ok, on_grant_ok, on_release_ok, note_voice_ok,
    tetra_tick_ok, external_return_ok, tetra_abandon_ok, retire_call_ok, call_renamed_ok.
  by apply sm_settle_ok.
Qed.
End Ok.

(** ** Putting a failed tune back *)

Section Rollback.
Context (hooks : dsd_trunk_tuning_hooks env).









Lemma set_state_rest x w : w_env (sm_set_state x w) = w_env w /\ confirm (w_ts (sm_set_state x w)) = confirm (w_ts w) /\
  w_gate (sm_set_state x w) = w_gate w /\
  w_log (sm_set_state x w) = w_log w ++ (if bool_decide (sm_state (the_sm w) = x) then [] else [tetra_publish]).
Proof. unfold sm_set_state. case_bool_decide; [by rewrite app_nil_r|done]. Qed.




(** An earlier tune keeps grants out: not answered yet, or answered during the
    burst that is being decoded. *)
Definition in_flight (w : world) : Prop :=
  pending_request_id (the_sm w) <> 0 /\
  (burst_open (confirm (w_ts w)) = true \/
   fst (request_status (pending_request_id (the_sm w)) (w_gate w)) = DSD_TRUNK_TUNE_RESULT_PENDING).

Lemma settle_at_entry_flag c w :
  (in_flight w -> sm_settle_at_entry c w = (w, false)) /\ (~ in_flight w -> snd (sm_settle_at_entry c w) = true).
Proof.
  unfold in_flight, sm_settle_at_entry, sm_settle_pending.
  destruct (Z.eqb_spec (pending_request_id (the_sm w)) 0) as [E|E]; [split; [tauto|by destruct (burst_open _)]|].
  destruct (burst_open _); [split; [done|tauto]|]. destruct (request_status _ _) as [x m]. cbn [fst].
  case_bool_decide as Hx; [split; [done|tauto]|]. split; [intros [_ [|]]; done|]. by case_bool_decide.
Qed.

(** What makes a grant worth following. *)
Definition admissible (w : world) (g : tetra_sm_grant) : Prop :=
  trunk_enable (w_env w) = 1 /\ 0 < trunk_cc_freq (w_env w) /\ 0 < freq_hz g /\ signalling_blocks (confirm (w_ts w)) <> 0.

(** The grant is for the carrier the receiver is on. *)
Definition own_carrier (w : world) (g : tetra_sm_grant) : Prop :=
  (sm_state (the_sm w) = TETRA_SM_TUNED -> freq_hz g = freq_hz (followed (the_sm w))) /\
  (sm_state (the_sm w) <> TETRA_SM_TUNED -> freq_hz g = tuned_freq_hz (w_env w)).

(** The grant repeats the call that is followed. *)
Definition repeats_call (w : world) (g : tetra_sm_grant) : Prop :=
  let f := followed (the_sm w) in
  sm_state (the_sm w) = TETRA_SM_TUNED /\ followed_retired (the_sm w) = false /\ freq_hz f = freq_hz g /\
  timeslots f = timeslots g mod 16 /\ (call_id f = 0 \/ call_id g = 0 \/ call_id f = call_id g mod 2 ^ 14).

Lemma followable_spec w g : sm_grant_followable w g = true <-> admissible w g.
Proof.
  unfold sm_grant_followable, admissible, confirm_downlink_proven.
  rewrite !andb_true_iff, !negb_true_iff, orb_false_iff, Z.eqb_eq, !Z.leb_gt, Z.eqb_neq. tauto.
Qed.

Lemma own_carrier_spec w g : pending_request_id (the_sm w) = 0 -> (freq_hz g =? tetra_sm_receiver_freq w) = true <-> own_carrier w g.
Proof. intros Hid. unfold tetra_sm_receiver_freq, own_carrier. rewrite Hid, Z.eqb_eq. cbn [Z.eqb negb]. case_bool_decide; tauto. Qed.

Lemma repeats_call_spec w g :
  bool_decide (sm_state (the_sm w) = TETRA_SM_TUNED) && sm_same_call (the_sm w) g = true <-> repeats_call w g.
Proof.
  unfold sm_same_call, repeats_call. change 0x0F with (Z.ones 4). change 0x3FFF with (Z.ones 14). rewrite !Z.land_ones by lia.
  rewrite !andb_true_iff, !orb_true_iff, bool_decide_eq_true, negb_true_iff, !Z.eqb_eq. tauto.
Qed.

Definition tune_answer (c : clock) (g : tetra_sm_grant) (w : world) : dsd_trunk_tune_result :=
  snd (fst (hook_tune_to_freq hooks (freq_hz g) 0 (now_m c) (w_env w, w_gate w))).

Lemma follow_here_cases c g w :
  (repeats_call w g /\ snd (sm_follow_here c g w) = false /\
   the_sm (fst (sm_follow_here c g w))
   = if call_id (followed (the_sm w)) =? 0
     then with_followed (mk_grant (freq_hz (followed (the_sm w))) (carrier (followed (the_sm w)))
                           (timeslots (followed (the_sm w))) (Z.land (call_id g) 0x3FFF)) (the_sm w)
     else the_sm w) \/
  (~ repeats_call w g /\ snd (sm_follow_here c g w) = true /\ w_gate (fst (sm_follow_here c g w)) = w_gate w /\
   the_sm (fst (sm_follow_here c g w)) = with_state TETRA_SM_TUNED (with_follow (mask_grant g) (now_m c) 0 false (the_sm w))).
Proof.
  rewrite <- repeats_call_spec. unfold sm_follow_here. destruct (_ && sm_same_call _ g); cbn [fst snd].
  - left. by destruct (call_id (followed (the_sm w)) =? 0).
  - right. rewrite sm_set_state_sm, (proj1 (proj2 (proj2 (set_state_rest _ _)))). by destruct (negb _).
Qed.

Lemma tune_grant_cases c g w :
  let '(w', taken) := sm_tune_grant hooks c g w in
  let '(e2, g2, x, id) := hook_tune_to_freq hooks (freq_hz g) 0 (now_m c) (w_env w, w_gate w) in
  taken = is_ok x /\ w_gate w' = g2 /\
  the_sm w' = if negb (is_ok x) then the_sm w
              else let s := with_state TETRA_SM_TUNED (with_follow (mask_grant g) 0 0 false (the_sm w)) in
                   if bool_decide (x = DSD_TRUNK_TUNE_RESULT_PENDING)
                   then with_pending (sm_capture w) id SM_PENDING_GRANT s else with_t_tune (now_m c) s.
Proof.
  unfold sm_tune_grant, run_hook.
  destruct (hook_tune_to_freq hooks (freq_hz g) 0 (now_m c) (w_env w, w_gate w)) as [[[e2 g2] x] id].
  destruct (is_ok x); cbn [negb]; [|done].
  pose proof (set_state_rest TETRA_SM_TUNED (sm_follow g (set_gate g2 (set_env e2 w)))) as (_ & _ & Hg & _).
  pose proof (sm_set_state_sm TETRA_SM_TUNED (sm_follow g (set_gate g2 (set_env e2 w)))) as Hs.
  set (w3 := sm_set_state _ _) in *. case_bool_decide.
  - split; [done|]. split; [exact Hg|]. unfold sm_stage_pending. cbn [set_sm w_ts sm]. rewrite Hs. done.
  - split; [done|]. split; [exact Hg|]. unfold sm_grant_tune_completed. cbn. rewrite Hs. done.
Qed.

(** C20: exactly which grants are followed.  While an earlier tune is in flight
    a grant changes nothing.  Otherwise, on what settling leaves, a grant is
    taken exactly while trunking with a control channel known, for a real
    frequency, on a carrier with CRC-proven downlink signalling, when it is on
    the receiver's own carrier and does not repeat the followed call, or on
    another carrier and the tuner, asked for that frequency, accepts.  Taken, the
    state machine is TUNED on exactly that channel: at once on its own carrier,
    without a request, and on another one with the request recorded until it is
    answered.  Not taken, state and channel stay, save that a repeated grant
    names a followed call that had no identifier yet. *)
Theorem grant_admission (c : clock) (g : tetra_sm_grant) (w : world) :
  let '(w', taken) := tetra_sm_on_grant hooks c g w in
  let w0 := fst (sm_settle_at_entry c w) in
  let '(s0, s') := (the_sm w0, the_sm w') in
  let '(e2, g2, x, id) := hook_tune_to_freq hooks (freq_hz g) 0 (now_m c) (w_env w0, w_gate w0) in
  let accepted := x = DSD_TRUNK_TUNE_RESULT_OK \/ x = DSD_TRUNK_TUNE_RESULT_PENDING in
  (in_flight w -> w' = w /\ taken = false) /\
  (~ in_flight w ->
   (taken = true <-> admissible w0 g /\ (own_carrier w0 g /\ ~ repeats_call w0 g \/ ~ own_carrier w0 g /\ accepted)) /\
   (taken = true ->
     sm_state s' = TETRA_SM_TUNED /\ followed_retired s' = false /\ t_voice_m s' = 0 /\
     followed s' = mk_grant (freq_hz g) (carrier g mod 2 ^ 12) (timeslots g mod 2 ^ 4) (call_id g mod 2 ^ 14) /\
     (own_carrier w0 g -> w_gate w' = w_gate w0 /\ pending_request_id s' = 0 /\ t_tune_m s' = now_m c) /\
     (~ own_carrier w0 g -> w_gate w' = g2 /\
        (x = DSD_TRUNK_TUNE_RESULT_PENDING ->
           pending_request_id s' = id /\ pending_kind s' = SM_PENDING_GRANT /\ pending_prev s' = sm_capture w0) /\
        (x = DSD_TRUNK_TUNE_RESULT_OK -> pending_request_id s' = 0 /\ t_tune_m s' = now_m c))) /\
   (taken = false ->
     let f := followed s0 in
     let renamed := admissible w0 g /\ own_carrier w0 g /\ call_id f = 0 in
     (~ renamed -> s' = s0) /\
     (renamed -> s' = with_followed (mk_grant (freq_hz f) (carrier f) (timeslots f) (call_id g mod 2 ^ 14)) s0))).
Proof.
  destruct (tetra_sm_on_grant hooks c g w) as [w' taken] eqn:E. cbv zeta.
  destruct (settle_at_entry_flag c w) as [F1 F2]. pose proof (settle_at_entry_settled c w) as F3.
  unfold tetra_sm_on_grant in E.
  destruct (sm_settle_at_entry c w) as [w0 settled]. cbn [fst snd] in *.
  pose proof (tune_grant_cases c g w0) as Ht. pose proof (follow_here_cases c g w0) as Hh.
  destruct (hook_tune_to_freq hooks (freq_hz g) 0 (now_m c) (w_env w0, w_gate w0)) as [[[e2 g2] x] id].
  split; [intros Hf; injection (F1 Hf) as -> ->; by injection E as <- <-|].
  intros Hf. rewrite (F2 Hf) in *. cbn [negb] in E. specialize (F3 eq_refl).
  pose proof (followable_spec w0 g) as Hadm. pose proof (own_carrier_spec w0 g F3) as Hown.
  change (2 ^ 12) with (2 ^ Z.of_nat 12). change (2 ^ 4) with (2 ^ Z.of_nat 4). change (2 ^ 14) with (2 ^ Z.of_nat 14).
  assert (Hm : mask_grant g = mk_grant (freq_hz g) (carrier g mod 2 ^ Z.of_nat 12) (timeslots g mod 2 ^ Z.of_nat 4) (call_id g mod 2 ^ Z.of_nat 14))
    by (unfold mask_grant; by rewrite <- !Z.land_ones by lia).
  assert (Hc : call_id g mod 2 ^ Z.of_nat 14 = Z.land (call_id g) 0x3FFF) by (by rewrite <- Z.land_ones by lia).
  destruct (sm_grant_followable w0 g); cbn [negb] in E.
  2:{ injection E as <- <-. assert (Hna : ~ admissible w0 g) by (intros H; by apply Hadm in H).
      split; [split; [done|tauto]|]. split; [done|]. tauto. }
  assert (Ha : admissible w0 g) by by apply Hadm.
  destruct (freq_hz g =? tetra_sm_receiver_freq w0).
  - assert (Ho : own_carrier w0 g) by by apply Hown. rewrite E in Hh. cbn [fst snd] in Hh.
    destruct Hh as [(Hr & -> & ->)|(Hr & -> & Hg & ->)].
    + split; [split; [done|tauto]|]. split; [done|]. intros _. rewrite Hc.
      destruct (Z.eqb_spec (call_id (followed (the_sm w0))) 0); tauto.
    + split; [split; [tauto|done]|]. split; [|done]. intros _. cbn. rewrite Hm. by split_and!.
  - assert (Ho : ~ own_carrier w0 g) by (intros H; by apply Hown in H). rewrite E in Ht. destruct Ht as (-> & Hg & ->).
    split; [destruct x; cbn; intuition congruence|]. destruct (is_ok x) eqn:Hx; cbn [negb].
    + split; [|done]. intros _. case_bool_decide as Hp; cbn; rewrite Hm; split_and!; try done; try tauto.
      all: intros _; split_and!; try done; intros Hx'; first [congruence|by split].
    + split; [done|]. intros _. tauto.
Qed.
End Rollback.

(** ** Without trunking nothing is tuned *)

Lemma locked_next op st : next_request (locked op st) = next_request st.
Proof. unfold locked. destruct (op _) as [rs ev]. by destruct (apply_events _ _ _). Qed.

Lemma complete_next id x n st : next_request (request_complete id x n st) = next_request st.
Proof. unfold request_complete. destruct (_ || _); [done|]. apply locked_next. Qed.

Lemma disown_next id st : next_request (request_disown id st) = next_request st.
Proof. unfold request_disown. destruct (_ =? 0); [done|]. apply locked_next. Qed.

(** [w'] came from [w] without a tuning request and with the trunking switch
    as it was. *)
Definition quiet (w w' : world) : Prop :=
  next_request (w_gate w') = next_request (w_gate w) /\ trunk_enable (w_env w') = trunk_enable (w_env w).

Lemma quiet_trans w1 w2 w3 : quiet w1 w2 -> quiet w2 w3 -> quiet w1 w3.
Proof. intros [? ?] [? ?]. split; congruence. Qed.

Lemma set_state_quiet x w : quiet w (sm_set_state x w).
Proof. unfold sm_set_state. by case_bool_decide. Qed.

Lemma disown_quiet w : quiet w (tetra_sm_disown_pending w).
Proof. unfold tetra_sm_disown_pending. destruct (_ =? 0); [done|]. split; [apply disown_next|done]. Qed.

Lemma settle_quiet c w : quiet w (fst (sm_settle_pending c w)).
Proof.
  unfold sm_settle_pending. destruct (_ =? 0); [done|]. destruct (request_status _ _) as [x m].
  case_bool_decide; [done|]. case_bool_decide; cbn [fst].
  - by case_bool_decide.
  - unfold quiet. cbn [sm_request_complete do_call set_gate w_gate w_env]. rewrite complete_next. unfold sm_restore.
    eapply (quiet_trans w); [|apply set_state_quiet]. done.
Qed.

Lemma settle_at_entry_quiet c w : quiet w (fst (sm_settle_at_entry c w)).
Proof. unfold sm_settle_at_entry. destruct (burst_open _); [done|]. apply settle_quiet. Qed.

(** With trunking off no entry point asks the tuner for anything: the
    request counter does not move, whatever the state machine was doing. *)
Theorem no_tune_without_trunking (hooks : dsd_trunk_tuning_hooks env) (c : clock) (w : world)
    (g : tetra_sm_grant) (id old new tn : Z) :
  trunk_enable (w_env w) <> 1 ->
  Forall (fun w' => next_request (w_gate w') = next_request (w_gate w))
    [tetra_sm_init w; tetra_sm_on_cc_sync c w; fst (tetra_sm_on_grant hooks c g w); fst (tetra_sm_settle c w);
     tetra_sm_on_release hooks c id w; tetra_sm_note_voice c tn w; tetra_sm_tick hooks c w;
     tetra_sm_on_external_cc_return w; tetra_sm_abandon_carrier w; tetra_sm_retire_call id w;
     tetra_sm_on_call_renamed old new w].
Proof.
  intros Hoff.
  assert (Hoff' : forall w', quiet w w' -> trunk_enable (w_env w') =? 1 = false).
  { intros w' [_ ->]. by apply Z.eqb_neq. }
  pose proof (settle_at_entry_quiet c w) as He. pose proof (settle_quiet c w) as Hs.
  pose proof (disown_quiet w) as Hd.
  repeat (apply Forall_cons; split); try by apply Forall_nil.
  - unfold tetra_sm_init. destruct (bool_decide _); apply Hd.
  - unfold tetra_sm_on_cc_sync. destruct (sm_settle_at_entry c w) as [w' []]; cbn [negb fst] in *; [|apply He].
    rewrite (Hoff' w' He). apply He.
  - unfold tetra_sm_on_grant. destruct (sm_settle_at_entry c w) as [w' []]; cbn [negb fst] in *; [|apply He].
    unfold sm_grant_followable. rewrite (Hoff' w' He). apply He.
  - apply Hs.
  - unfold tetra_sm_on_release. destruct (sm_settle_at_entry c w) as [w' []]; cbn [negb fst] in *; [|apply He].
    destruct (negb _); [apply He|]. destruct (negb _); [apply He|]. unfold sm_release.
    rewrite (Hoff' w' He). apply He.
  - unfold tetra_sm_note_voice. destruct (_ || _); [done|]. by destruct (_ =? 0).
  - unfold tetra_sm_tick, sm_tick. destruct (sm_settle_pending c w) as [w' []]; cbn [negb fst] in *; [|apply Hs].
    cbn [do_call w_gate]. destruct (_ && _).
    { eapply (quiet_trans w); [exact Hs|apply set_state_quiet]. }
    destruct (bool_decide _); [|apply Hs]. unfold sm_tick_tuned. rewrite (Hoff' w' Hs). destruct (negb _).
    { eapply (quiet_trans w); [exact Hs|]. eapply quiet_trans; [|apply set_state_quiet]. done. }
    cbn [negb]. unfold sm_hold_untrunked. destruct (followed_retired _); apply Hs.
  - unfold tetra_sm_on_external_cc_return. eapply (quiet_trans w); [exact Hd|]. eapply quiet_trans; [|apply set_state_quiet]. done.
  - unfold tetra_sm_abandon_carrier. eapply (quiet_trans w); [exact Hd|]. eapply quiet_trans; [|apply set_state_quiet].
    by destruct (_ || _).
  - unfold tetra_sm_retire_call. by destruct (_ && _ && _).
  - unfold tetra_sm_on_call_renamed. destruct (_ =? _); [done|]. by destruct (_ && _ && _).
Qed.

(** C12: on every interleaving of the entry points with whatever the rest of
    the program does to the shared tuning state, the request pool and the
    evidence, the state machine follows a channel exactly while TUNED (and then
    a real frequency with masked fields), a request id is recorded exactly
    while a tune is in flight, a pending grant is TUNED, a pending return is
    not, and what a failing tune would put back is well formed too. *)
Theorem tetra_sm_invariant (hooks : dsd_trunk_tuning_hooks env) (w w' : world) :
  the_sm w = sm_zero -> rtc (step hooks) w w' -> sm_ok (the_sm w').
Proof.
  intros Hz Hr. assert (Hok : sm_ok (the_sm w)) by (rewrite Hz; apply sm_zero_ok). clear Hz.
  induction Hr as [|a b c H1 H2 IH]; [done|]. apply IH. by eapply step_ok.
Qed.

(** *** Witnesses *)

(** A trunked session on a proven control channel; the backend accepts every
    tune and answers later. *)
Definition ex_env : env := mk_env 1 0 0 390000000 390000000 7 (0, 0) (0, 0) 1 2 3 4 5 6.
Definition ex_world : world :=
  mk_world ex_env (mk_tetra sm_zero (confirm_note_signalling confirm_zero)) tgate_init None [].
Definition ex_hooks : dsd_trunk_tuning_hooks env :=
  {| tune_to_freq_request := Some (fun f _ _ '(e, g) => (with_tuning 1 (f, f) (f, f) e, g, DSD_TRUNK_TUNE_RESULT_PENDING));
     tune_to_cc_request := None;
     return_to_cc_request := Some (fun _ '(e, g) => (e, g, DSD_TRUNK_TUNE_RESULT_PENDING)) |}.
Definition ex_clock : clock := {| now_m := 1000; wall := 10 |}.
Definition ex_grant : tetra_sm_grant := mk_grant 391000000 40 4 77.
Definition ex_tuning : world := fst (tetra_sm_on_grant ex_hooks ex_clock ex_grant ex_world).

Lemma tetra_sm_invariant_witness : sm_ok (the_sm ex_tuning) /\ sm_state (the_sm ex_tuning) = TETRA_SM_TUNED.
Proof.
  split; [|reflexivity]. apply (tetra_sm_invariant ex_hooks (set_env ex_env ex_world)); [reflexivity|].
  eapply rtc_l; [|apply rtc_refl]. exact (step_grant ex_hooks ex_clock ex_grant ex_world).
Defined.


Lemma grant_admission_witness : sm_state (the_sm ex_tuning) = TETRA_SM_TUNED /\ pending_request_id (the_sm ex_tuning) = 1.
Proof.
  pose proof (grant_admission ex_hooks ex_clock ex_grant ex_world) as H.
  destruct (tetra_sm_on_grant ex_hooks ex_clock ex_grant ex_world) as [w' taken] eqn:E.
  assert (ex_tuning = w') as -> by (unfold ex_tuning; rewrite E; reflexivity).
  assert (taken = true) as -> by (vm_compute in E; injection E as <- <-; reflexivity).
  destruct H as [_ H]. destruct H as (_ & H & _); [intros [Hp _]; by apply Hp|].
  destruct (H eq_refl) as (Hs & _ & _ & _ & _ & Ho). split; [exact Hs|].
  destruct Ho as (_ & Hp & _); [intros [_ Ho]; by specialize (Ho ltac:(discriminate))|]. exact (proj1 (Hp eq_refl)).
Defined.

Lemma no_tune_without_trunking_witness :
  let w := set_env (mk_env 0 1 0 0 390000000 0 (0, 0) (0, 0) 0 0 0 0 0 0) ex_tuning in
  next_request (w_gate (tetra_sm_tick ex_hooks ex_clock w)) = 1.
Proof.
  intros w. pose proof (no_tune_without_trunking ex_hooks ex_clock w ex_grant 77 1 2 1 ltac:(discriminate)) as H.
  exact (Forall_lookup_1 _ _ 6 _ H eq_refl).
Defined.

(** *** A return that fails after it was accepted

    [sm_release] clears [p25_cc_freq] before it asks for the return and puts it
    back when the return is refused, but a return that is accepted and fails
    later leaves it cleared: it is not part of what [sm_restore] puts back. *)
Example failed_return_loses_p25_cc :
  let on_channel := fst (tetra_sm_settle ex_clock
        (set_gate (request_publish 1 DSD_TRUNK_TUNE_RESULT_OK 2000 (w_gate ex_tuning)) ex_tuning)) in
  let returning := tetra_sm_on_release ex_hooks ex_clock 77 on_channel in
  let failed := fst (tetra_sm_settle ex_clock
        (set_gate (request_publish 2 DSD_TRUNK_TUNE_RESULT_FAILED 3000 (w_gate returning)) returning)) in
  sm_capture failed = sm_capture on_channel /\
  p25_cc_freq (w_env on_channel) = 7 /\ p25_cc_freq (w_env failed) = 0.
Proof. vm_compute. repeat split; reflexivity. Qed.
