(* ===== verification/P25Patch.v ===== *)
(** * [protocol/p25/p25_patch.c]: regroup and patch tracking

    Up to eight super groups (SGIDs) are tracked at a time, each with up to
    eight talk groups and eight units, a policy key that may be unknown, and
    the time of its last update: an entry not renewed for twenty seconds is
    stale.  The program keeps the table as parallel arrays of eight; here an
    entry collects what the arrays hold at one index.

    [run] is the table after one call of the public interface.  The
    specification is a finite map from the SGID to an abstract entry whose
    members are sets: [abs] reads it off a table and [spec_step] says what a
    call may do to it.  The only choice an implementation has is which entry
    gives way when a ninth super group arrives ([may_replace]).  The one-line
    summary for the display ([p25_patch_compose_details]) is modelled by its
    sweep of the stale entries; the text is not. *)
From stdpp Require Import gmap.
From S2P Require Import Prelude.

(** ** The table *)

Definition PATCH_MAX : nat := 8.
Definition MEMBERS_MAX : nat := 8.
Definition P25_PATCH_TTL_SECONDS : Z := 20.

Record patch_entry := mk_patch {
  sgid : Z;
  is_patch : bool;
  active : bool;
  last_update : Z;
  wgid_count : Z;
  wgid : list Z;
  wuid_count : Z;
  wuid : list Z;
  key : Z;
  alg : Z;
  ssn : Z;
  key_valid : bool
}.

Record patch_table := mk_table {
  p25_patch_count : Z;
  entries : list patch_entry
}.

#[export] Instance patch_entry_inhabited : Inhabited patch_entry :=
  populate (mk_patch 0 false false 0 0 (replicate MEMBERS_MAX 0) 0 (replicate MEMBERS_MAX 0) 0 0 0 false).

(** [dsd_init.c]. *)
Definition patch_init : patch_table := mk_table 0 (replicate PATCH_MAX inhabitant).

Definition set_entry (i : nat) (e : patch_entry) (t : patch_table) : patch_table :=
  mk_table (p25_patch_count t) (<[i := e]> (entries t)).

(** ** Entries *)

Definition set_flags (p a : bool) (now : Z) (e : patch_entry) : patch_entry :=
  mk_patch (sgid e) p a now (wgid_count e) (wgid e) (wuid_count e) (wuid e) (key e) (alg e) (ssn e) (key_valid e).

Definition set_active (a : bool) (e : patch_entry) : patch_entry :=
  set_flags (is_patch e) a (last_update e) e.

Definition set_wgids (cnt : Z) (l : list Z) (e : patch_entry) : patch_entry :=
  mk_patch (sgid e) (is_patch e) (active e) (last_update e) cnt l (wuid_count e) (wuid e)
    (key e) (alg e) (ssn e) (key_valid e).

Definition set_wuids (cnt : Z) (l : list Z) (e : patch_entry) : patch_entry :=
  mk_patch (sgid e) (is_patch e) (active e) (last_update e) (wgid_count e) (wgid e) cnt l
    (key e) (alg e) (ssn e) (key_valid e).

Definition set_crypt (k a s : Z) (v : bool) (e : patch_entry) : patch_entry :=
  mk_patch (sgid e) (is_patch e) (active e) (last_update e) (wgid_count e) (wgid e) (wuid_count e) (wuid e)
    k a s v.

(** [last_update > 0 && now - last_update > TTL]. *)
Definition p25_patch_entry_is_stale (e : patch_entry) (now : Z) : bool :=
  (0 <? last_update e) && (P25_PATCH_TTL_SECONDS <? now - last_update e).

Definition p25_patch_clear_entry_context (e : patch_entry) : patch_entry :=
  set_crypt 0 0 0 false
    (set_wuids 0 (for_ 0 MEMBERS_MAX (fun k l => l.[k <- 0]) (wuid e))
       (set_wgids 0 (for_ 0 MEMBERS_MAX (fun k l => l.[k <- 0]) (wgid e)) e)).

(** The first index below [cnt] and below eight that holds [x]. *)
Fixpoint find_member (l : list Z) (cnt x : Z) : option nat :=
  match l with
  | [] => None
  | y :: l => if cnt <=? 0 then None else if y =? x then Some O else S <$> find_member l (cnt - 1) x
  end.

(** The common part of [add_wgid] and [add_wuid]: no duplicate, no ninth. *)
Definition add_member (cnt : Z) (l : list Z) (x : Z) : Z * list Z :=
  match find_member (take MEMBERS_MAX l) cnt x with
  | Some _ => (cnt, l)
  | None => if cnt <? Z.of_nat MEMBERS_MAX then (cnt + 1, l.[Z.to_nat cnt <- x]) else (cnt, l)
  end.

(** The last member takes the place of the one removed. *)
Definition remove_member (cnt : Z) (l : list Z) (x : Z) : Z * list Z :=
  match find_member (take MEMBERS_MAX l) cnt x with
  | Some i => (cnt - 1, if Z.of_nat i =? cnt - 1 then l else l.[i <- l.[Z.to_nat (cnt - 1)]])
  | None => (cnt, l)
  end.

(** ** The operations *)

Fixpoint find_patch_from (l : list patch_entry) (cnt : Z) (sg : Z) : option nat :=
  match l with
  | [] => None
  | e :: l => if cnt <=? 0 then None else if sgid e =? sg then Some O else S <$> find_patch_from l (cnt - 1) sg
  end.

(** [for (i = 0; i < p25_patch_count && i < 8; i++)]: the first entry of [sg]. *)
Definition find_patch_idx (t : patch_table) (sg : Z) : option nat :=
  find_patch_from (take PATCH_MAX (entries t)) (p25_patch_count t) sg.

(** The first index whose entry satisfies [p]. *)
Definition first_index (p : patch_entry -> bool) (l : list patch_entry) : option nat :=
  fst <$> list_find (fun e => p e = true) l.

Definition oldest_idx (l : list patch_entry) : nat :=
  fst (for_ 1 PATCH_MAX (fun i '(repl, oldest) =>
    if last_update (l !!! i) <? oldest then (i, last_update (l !!! i)) else (repl, oldest))
    (O, last_update (l !!! O))).

(** An inactive entry, else a stale one, else, for an active newcomer only,
    the one longest without update. *)
Definition p25_patch_replacement_idx (t : patch_table) (act : bool) (now : Z) : option nat :=
  match first_index (fun e => negb (active e)) (take PATCH_MAX (entries t)) with
  | Some i => Some i
  | None =>
      match first_index (fun e => p25_patch_entry_is_stale e now) (take PATCH_MAX (entries t)) with
      | Some i => Some i
      | None => if act then Some (oldest_idx (entries t)) else None
      end
  end.

(** The loop moves the entries that are kept down; [w] is the next place. *)
Definition p25_patch_sweep_stale (t : patch_table) (now : Z) : patch_table :=
  let '(w, l) :=
    for_ 0 (Z.to_nat (Z.min (p25_patch_count t) (Z.of_nat PATCH_MAX))) (fun i '(w, l) =>
      if p25_patch_entry_is_stale (l !!! i) now then (w, l)
      else (S w, if bool_decide (w = i) then l else <[w := l !!! i]> l)) (O, entries t) in
  mk_table (Z.of_nat w) l.

(** A new entry at [idx]. *)
Definition p25_patch_place (sg : Z) (p a : bool) (now : Z) (idx : nat) (t : patch_table) : patch_table :=
  let e := entries t !!! idx in
  let e := mk_patch (u16 sg) p a now (wgid_count e) (wgid e) (wuid_count e) (wuid e)
             (key e) (alg e) (ssn e) (key_valid e) in
  set_entry idx (p25_patch_clear_entry_context e) t.

Definition p25_patch_update (sg : Z) (p a : bool) (now : Z) (t : patch_table) : patch_table :=
  if (sg <=? 0) || (65535 <? sg) then t
  else match find_patch_idx t (u16 sg) with
       | Some i => set_entry i (set_flags p a now (entries t !!! i)) t
       | None =>
           let idx := if p25_patch_count t <? 0 then 0 else p25_patch_count t in
           if Z.of_nat PATCH_MAX <=? idx then
             let t := mk_table (Z.of_nat PATCH_MAX) (entries t) in
             match p25_patch_replacement_idx t a now with
             | None => t
             | Some i => p25_patch_place sg p a now i t
             end
           else p25_patch_place sg p a now (Z.to_nat idx) (mk_table (idx + 1) (entries t))
       end.

(** The entry of [sg], created as an active patch if there is none. *)
Definition find_or_create (sg now : Z) (t : patch_table) : patch_table * option nat :=
  match find_patch_idx t (u16 sg) with
  | Some i => (t, Some i)
  | None => let t := p25_patch_update sg true true now t in (t, find_patch_idx t (u16 sg))
  end.

Definition p25_patch_add_wgid (sg wg now : Z) (t : patch_table) : patch_table :=
  if (sg <=? 0) || (65535 <? sg) || (wg <=? 0) || (65535 <? wg) then t
  else match find_or_create sg now t with
       | (t, None) => t
       | (t, Some i) =>
           let e := entries t !!! i in
           let '(cnt, l) := add_member (wgid_count e) (wgid e) (u16 wg) in
           set_entry i (set_wgids cnt l e) t
       end.

Definition p25_patch_add_wuid (sg wu now : Z) (t : patch_table) : patch_table :=
  if (sg <=? 0) || (65535 <? sg) || (wu =? 0) then t
  else match find_or_create sg now t with
       | (t, None) => t
       | (t, Some i) =>
           let e := entries t !!! i in
           let '(cnt, l) := add_member (wuid_count e) (wuid e) wu in
           set_entry i (set_wuids cnt l e) t
       end.

(** A group left without members is no longer active. *)
Definition p25_patch_remove_wgid (sg wg : Z) (t : patch_table) : patch_table :=
  if (sg <=? 0) || (wg <=? 0) then t
  else match find_patch_idx t (u16 sg) with
       | None => t
       | Some i =>
           let e := entries t !!! i in
           let '(cnt, l) := remove_member (wgid_count e) (wgid e) (u16 wg) in
           let e := set_wgids cnt l e in
           set_entry i (if (wgid_count e =? 0) && (wuid_count e =? 0) then set_active false e else e) t
       end.

Definition p25_patch_clear_sg (sg now : Z) (t : patch_table) : patch_table :=
  if sg <=? 0 then t
  else match find_patch_idx t (u16 sg) with
       | None => t
       | Some i =>
           let e := p25_patch_clear_entry_context (entries t !!! i) in
           set_entry i (set_flags (is_patch e) false now e) t
       end.

(** [now'] is the second reading of the clock, by [p25_patch_clear_sg].
    [0 <= ssn] means that the command carried one. *)
Definition p25_patch_prepare_grg_update (sg : Z) (p a : bool) (s now now' : Z) (t : patch_table) : patch_table * Z :=
  if (sg <=? 0) || (65535 <? sg) then (t, 0)
  else
    let normalized_ssn := if 0 <=? s then Z.land s 0x1F else -1 in
    let idx := find_patch_idx t (u16 sg) in
    if negb a then
      let t := match idx with None => p25_patch_update sg p false now t | Some _ => t end in
      let t := p25_patch_clear_sg sg now' t in
      (match find_patch_idx t (u16 sg) with
       | Some i => let e := entries t !!! i in set_entry i (set_flags p (active e) (last_update e) e) t
       | None => t
       end, 0)
    else
      let t :=
        match idx with
        | Some i =>
            let e := entries t !!! i in
            if active e && (0 <=? normalized_ssn) && negb (ssn e =? u8 normalized_ssn)
            then set_entry i (p25_patch_clear_entry_context e) t else t
        | None => t
        end in
      (p25_patch_update sg p true now t, 1).

Definition p25_patch_set_kas (sg k a s now : Z) (t : patch_table) : patch_table :=
  if sg <=? 0 then t
  else match find_or_create sg now t with
       | (t, None) => t
       | (t, Some i) =>
           let e := entries t !!! i in
           let e := if 0 <=? k then set_crypt (u16 k) (alg e) (ssn e) true e else e in
           let e := if 0 <=? a then set_crypt (key e) (u8 a) (ssn e) (key_valid e) e else e in
           let e := if 0 <=? s then set_crypt (key e) (alg e) (u8 (Z.land s 0x1F)) (key_valid e) e else e in
           set_entry i e t
       end.

(** ** Queries *)

Definition key_is_clear (e : patch_entry) : Z := if key_valid e && (key e =? 0) then 1 else 0.

Fixpoint tg_key_from (l : list patch_entry) (cnt tg now : Z) : Z :=
  match l with
  | [] => 0
  | e :: l =>
      if cnt <=? 0 then 0
      else if negb (active e) || p25_patch_entry_is_stale e now then tg_key_from l (cnt - 1) tg now
      else match find_member (take MEMBERS_MAX (wgid e)) (wgid_count e) tg with
           | Some _ => key_is_clear e
           | None => tg_key_from l (cnt - 1) tg now
           end
  end.

Definition p25_patch_tg_key_is_clear (t : patch_table) (tg now : Z) : Z :=
  if tg <=? 0 then 0 else tg_key_from (take PATCH_MAX (entries t)) (p25_patch_count t) (u16 tg) now.

Fixpoint sg_key_from (l : list patch_entry) (cnt sg now : Z) : Z :=
  match l with
  | [] => 0
  | e :: l =>
      if cnt <=? 0 then 0
      else if negb (active e) || negb (sgid e =? sg) || p25_patch_entry_is_stale e now
      then sg_key_from l (cnt - 1) sg now
      else key_is_clear e
  end.

Definition p25_patch_sg_key_is_clear (t : patch_table) (sg now : Z) : Z :=
  if sg <=? 0 then 0 else sg_key_from (take PATCH_MAX (entries t)) (p25_patch_count t) (u16 sg) now.

(** [out] is the caller's buffer, if any, of at least [cap] cells. *)
Definition p25_patch_collect_active_wgids (t : patch_table) (sg now : Z) (out : option (list Z)) (cap : nat)
  : option (list Z) * Z :=
  if (sg <=? 0) || (65535 <? sg) then (out, 0)
  else match find_patch_idx t (u16 sg) with
       | None => (out, 0)
       | Some i =>
           let e := entries t !!! i in
           if negb (active e) || p25_patch_entry_is_stale e now then (out, 0)
           else
             let cnt := if Z.of_nat MEMBERS_MAX <? wgid_count e then Z.of_nat MEMBERS_MAX else wgid_count e in
             ((fun o => for_ 0 (Nat.min (Z.to_nat cnt) cap) (fun i o => o.[i <- (wgid e).[i]]) o) <$> out, cnt)
       end.

(** ** Calls *)

Variant patch_op :=
  | Update (sg : Z) (p a : bool) (now : Z)
  | AddWgid (sg wg now : Z)
  | AddWuid (sg wu now : Z)
  | RemoveWgid (sg wg : Z)
  | ClearSg (sg now : Z)
  | PrepareGrg (sg : Z) (p a : bool) (s now now' : Z)
  | SetKas (sg k a s now : Z)
  | Sweep (now : Z).

Definition run (op : patch_op) (t : patch_table) : patch_table :=
  match op with
  | Update sg p a now => p25_patch_update sg p a now t
  | AddWgid sg wg now => p25_patch_add_wgid sg wg now t
  | AddWuid sg wu now => p25_patch_add_wuid sg wu now t
  | RemoveWgid sg wg => p25_patch_remove_wgid sg wg t
  | ClearSg sg now => p25_patch_clear_sg sg now t
  | PrepareGrg sg p a s now now' => fst (p25_patch_prepare_grg_update sg p a s now now' t)
  | SetKas sg k a s now => p25_patch_set_kas sg k a s now t
  | Sweep now => p25_patch_sweep_stale t now
  end.

(** The table after a history of calls, the first one first. *)
Definition runs (ops : list patch_op) (t : patch_table) : patch_table := foldl (fun t op => run op t) t ops.

(** The unit of [add_wuid] is a [uint32_t]. *)
Definition op_typed (op : patch_op) : Prop :=
  match op with AddWuid _ wu _ => 0 <= wu < 2 ^ 32 | _ => True end.

(** ** Specification: a finite map of super groups *)

Record group := mk_group {
  g_patch : bool;
  g_active : bool;
  g_time : Z;
  g_wgids : gset Z;
  g_wuids : gset Z;
  g_key : option Z;
  g_alg : Z;
  g_ssn : Z
}.

Definition stale (now : Z) (g : group) : Prop := 0 < g_time g /\ P25_PATCH_TTL_SECONDS < now - g_time g.
#[export] Instance stale_dec now g : Decision (stale now g).
Proof. unfold stale. apply _. Defined.

Definition fresh_group (p a : bool) (now : Z) : group := mk_group p a now ∅ ∅ None 0 0.

Definition flag_group (p a : bool) (now : Z) (g : group) : group :=
  mk_group p a now (g_wgids g) (g_wuids g) (g_key g) (g_alg g) (g_ssn g).

(** Without its members and its policy. *)
Definition strip_group (g : group) : group := fresh_group (g_patch g) (g_active g) (g_time g).

(** At most eight members; a ninth is ignored. *)
Definition add_to (x : Z) (s : gset Z) : gset Z := if decide (size s < 8)%nat then {[x]} ∪ s else s.

Definition add_wgid_group (wg : Z) (g : group) : group :=
  mk_group (g_patch g) (g_active g) (g_time g) (add_to wg (g_wgids g)) (g_wuids g) (g_key g) (g_alg g) (g_ssn g).

Definition add_wuid_group (wu : Z) (g : group) : group :=
  mk_group (g_patch g) (g_active g) (g_time g) (g_wgids g) (add_to wu (g_wuids g)) (g_key g) (g_alg g) (g_ssn g).

Definition remove_wgid_group (wg : Z) (g : group) : group :=
  let s := g_wgids g ∖ {[wg]} in
  mk_group (g_patch g) (if decide (s = ∅ /\ g_wuids g = ∅) then false else g_active g) (g_time g)
    s (g_wuids g) (g_key g) (g_alg g) (g_ssn g).

(** Negative arguments leave the field alone. *)
Definition kas_group (k a s : Z) (g : group) : group :=
  mk_group (g_patch g) (g_active g) (g_time g) (g_wgids g) (g_wuids g)
    (if 0 <=? k then Some (k mod 2 ^ 16) else g_key g)
    (if 0 <=? a then a mod 2 ^ 8 else g_alg g)
    (if 0 <=? s then s mod 2 ^ 5 else g_ssn g).

(** A changed session number (SSN) of an active group drops what belonged to
    the old one. *)
Definition renumber_group (s : Z) (g : group) : group :=
  if g_active g && (0 <=? s) && negb (g_ssn g =? s mod 2 ^ 5) then strip_group g else g.

(** Who may give way in a full table. *)
Variant may_replace (m : gmap Z group) (a : bool) (now : Z) : Z -> Prop :=
  | replace_inactive k g : m !! k = Some g -> g_active g = false -> may_replace m a now k
  | replace_stale k g :
      map_Forall (fun _ g => g_active g = true) m -> m !! k = Some g -> stale now g -> may_replace m a now k
  | replace_oldest k g :
      map_Forall (fun _ g => g_active g = true /\ ~ stale now g) m -> a = true ->
      m !! k = Some g -> map_Forall (fun _ g' => g_time g <= g_time g') m -> may_replace m a now k.

Variant spec_update (sg : Z) (p a : bool) (now : Z) (m : gmap Z group) : gmap Z group -> Prop :=
  | update_known g : m !! sg = Some g -> spec_update sg p a now m (<[sg := flag_group p a now g]> m)
  | update_new : m !! sg = None -> (size m < 8)%nat -> spec_update sg p a now m (<[sg := fresh_group p a now]> m)
  | update_replace k :
      m !! sg = None -> size m = 8%nat -> may_replace m a now k ->
      spec_update sg p a now m (<[sg := fresh_group p a now]> (delete k m))
  | update_refused :
      m !! sg = None -> size m = 8%nat -> a = false ->
      map_Forall (fun _ g => g_active g = true /\ ~ stale now g) m -> spec_update sg p a now m m.

(** Edit a group, made an active patch first if it is not there. *)
Definition spec_edit (sg now : Z) (f : group -> group) (m m' : gmap Z group) : Prop :=
  match m !! sg with
  | Some g => m' = <[sg := f g]> m
  | None => exists m1, spec_update sg true true now m m1 /\ m' = alter f sg m1
  end.

Definition valid16 (x : Z) : Prop := 0 < x <= 65535.
#[export] Instance valid16_dec x : Decision (valid16 x).
Proof. unfold valid16. apply _. Defined.

Definition spec_step (op : patch_op) (m m' : gmap Z group) : Prop :=
  match op with
  | Update sg p a now => if decide (valid16 sg) then spec_update sg p a now m m' else m' = m
  | AddWgid sg wg now =>
      if decide (valid16 sg /\ valid16 wg) then spec_edit sg now (add_wgid_group wg) m m' else m' = m
  | AddWuid sg wu now =>
      if decide (valid16 sg /\ wu <> 0) then spec_edit sg now (add_wuid_group wu) m m' else m' = m
  | RemoveWgid sg wg =>
      if decide (0 < sg /\ 0 < wg) then m' = alter (remove_wgid_group (wg mod 2 ^ 16)) (sg mod 2 ^ 16) m else m' = m
  | ClearSg sg now =>
      if decide (0 < sg) then m' = alter (fun g => fresh_group (g_patch g) false now) (sg mod 2 ^ 16) m else m' = m
  | PrepareGrg sg p a s now now' =>
      if decide (valid16 sg) then
        if a then spec_update sg p true now (alter (renumber_group s) sg m) m'
        else exists m1, (if decide (is_Some (m !! sg)) then m1 = m else spec_update sg p false now m m1) /\
               m' = alter (fun _ => fresh_group p false now') sg m1
      else m' = m
  | SetKas sg k a s now =>
      if decide (valid16 sg) then spec_edit sg now (kas_group k a s) m m'
      else m' = if decide (0 < sg) then alter (kas_group k a s) (sg mod 2 ^ 16) m else m
  | Sweep now => m' = filter (fun '(_, g) => ~ stale now g) m
  end.

Fixpoint spec_run (ops : list patch_op) (m m' : gmap Z group) : Prop :=
  match ops with
  | [] => m' = m
  | op :: ops => exists m1, spec_step op m m1 /\ spec_run ops m1 m'
  end.

(** ** What a table stands for *)

Definition members (cnt : Z) (l : list Z) : list Z := take (Z.to_nat cnt) l.

Definition abs_entry (e : patch_entry) : group :=
  mk_group (is_patch e) (active e) (last_update e)
    (list_to_set (members (wgid_count e) (wgid e))) (list_to_set (members (wuid_count e) (wuid e)))
    (if key_valid e then Some (key e) else None) (alg e) (ssn e).

Definition live (t : patch_table) : list patch_entry := take (Z.to_nat (p25_patch_count t)) (entries t).

Definition abs_list (l : list patch_entry) : gmap Z group :=
  list_to_map ((fun e => (sgid e, abs_entry e)) <$> l).

Definition abs (t : patch_table) : gmap Z group := abs_list (live t).

(** ** Well-formed tables *)

Record members_wf (bound cnt : Z) (l : list Z) : Prop := {
  mem_count : 0 <= cnt <= Z.of_nat MEMBERS_MAX;
  mem_len : length l = MEMBERS_MAX;
  mem_nodup : NoDup (members cnt l);
  mem_range : Forall (fun x => 0 < x < bound) (members cnt l)
}.

Record entry_wf (e : patch_entry) : Prop := {
  e_wgids : members_wf (2 ^ 16) (wgid_count e) (wgid e);
  e_wuids : members_wf (2 ^ 32) (wuid_count e) (wuid e);
  e_key : 0 <= key e < 2 ^ 16;
  e_alg : 0 <= alg e < 2 ^ 8;
  e_ssn : 0 <= ssn e < 2 ^ 5;
  e_unknown : key_valid e = false -> key e = 0
}.

Record table_wf (t : patch_table) : Prop := {
  t_count : 0 <= p25_patch_count t <= Z.of_nat PATCH_MAX;
  t_len : length (entries t) = PATCH_MAX;
  t_entries : Forall entry_wf (entries t);
  t_distinct : NoDup (sgid <$> live t);
  t_range : Forall (fun e => valid16 (sgid e)) (live t)
}.

(** ** Member arrays *)

Lemma find_member_spec l cnt x :
  match find_member l cnt x with
  | Some i => members cnt l !! i = Some x
  | None => x ∉ members cnt l
  end.
Proof.
  unfold members. revert cnt. induction l as [|y l IH]; intros cnt; cbn.
  - rewrite take_nil. apply not_elem_of_nil.
  - destruct (Z.leb_spec cnt 0); [replace (Z.to_nat cnt) with O by lia; apply not_elem_of_nil|].
    replace (Z.to_nat cnt) with (S (Z.to_nat (cnt - 1))) by lia. cbn.
    destruct (Z.eqb_spec y x) as [->|Hne]; [done|].
    specialize (IH (cnt - 1)). destruct (find_member l (cnt - 1) x); cbn; [done|].
    rewrite not_elem_of_cons. by split.
Qed.

Lemma take_full {A} n (l : list A) : length l = n -> take n l = l.
Proof. intros <-. apply firstn_all. Qed.

Section Members.
Context (bound : Z).
Implicit Types (cnt x : Z) (l : list Z).

Lemma members_nil l : length l = MEMBERS_MAX -> members_wf bound 0 l.
Proof. intros H. split; [done|done|constructor|constructor]. Qed.

Lemma size_members cnt l : members_wf bound cnt l ->
  size (list_to_set (members cnt l) : gset Z) = Z.to_nat cnt.
Proof.
  intros [Hc Hl Hn _]. rewrite size_list_to_set by done. unfold members. rewrite length_take, Hl.
  unfold MEMBERS_MAX in *. lia.
Qed.

Lemma add_member_ok cnt l x : members_wf bound cnt l -> 0 < x < bound ->
  let '(cnt', l') := add_member cnt l x in
  members_wf bound cnt' l' /\
  (list_to_set (members cnt' l') : gset Z) = add_to x (list_to_set (members cnt l)).
Proof.
  intros W Hx. pose proof (size_members cnt l W) as Hs. destruct W as [Hc Hl Hn Hr].
  unfold add_member, add_to. rewrite (take_full _ l Hl), Hs.
  pose proof (find_member_spec l cnt x) as Hf. destruct (find_member l cnt x) as [i|].
  - split; [done|]. destruct (decide _); [|done].
    apply list_elem_of_lookup_2, (elem_of_list_to_set (C := gset Z)) in Hf. set_solver.
  - destruct (Z.ltb_spec cnt (Z.of_nat MEMBERS_MAX)) as [Hlt|Hge].
    + assert (E : members (cnt + 1) (l.[Z.to_nat cnt <- x]) = members cnt l ++ [x]).
      { unfold members. replace (Z.to_nat (cnt + 1)) with (S (Z.to_nat cnt)) by lia.
        rewrite (take_S_r _ _ x) by (apply list_lookup_insert_eq; rewrite Hl; unfold MEMBERS_MAX in *; lia).
        by rewrite take_insert_ge. }
      split; [split|]; rewrite ?E, ?length_insert; [lia|done|..].
      * apply NoDup_app. split; [done|]. split; [set_solver|apply NoDup_singleton].
      * apply Forall_app. split; [done|by constructor].
      * rewrite decide_True by (unfold MEMBERS_MAX in *; lia). rewrite list_to_set_app_L. set_solver.
    + rewrite decide_False by (unfold MEMBERS_MAX in *; lia). done.
Qed.

Lemma members_remove cnt l i x : length l = MEMBERS_MAX -> 0 < cnt <= Z.of_nat MEMBERS_MAX ->
  members cnt l !! i = Some x ->
  members cnt l ≡ₚ x :: members (cnt - 1) (if Z.of_nat i =? cnt - 1 then l else l.[i <- l.[Z.to_nat (cnt - 1)]]).
Proof.
  intros Hl Hc Hi. unfold members in *. set (n := Z.to_nat (cnt - 1)).
  assert (En : Z.to_nat cnt = S n) by (unfold n; lia). rewrite En in *.
  destruct (lookup_lt_is_Some_2 l n) as [y Hy]; [unfold MEMBERS_MAX in *; lia|].
  rewrite (take_S_r l n y Hy) in *. destruct (Z.eqb_spec (Z.of_nat i) (cnt - 1)) as [Ei|Ei].
  - replace i with n in Hi by lia.
    rewrite lookup_app_r, length_take, Nat.min_l, Nat.sub_diag in Hi by (rewrite ?length_take; unfold MEMBERS_MAX in *; lia).
    injection Hi as ->. by rewrite <- Permutation_cons_append.
  - assert (Hin : (i < n)%nat).
    { apply lookup_lt_Some in Hi. rewrite length_app, length_take in Hi. cbn in Hi. lia. }
    rewrite lookup_app_l in Hi by (rewrite length_take; unfold MEMBERS_MAX in *; lia).
    rewrite nth_lookup, Hy. cbn [default from_option]. rewrite take_insert_lt by done.
    rewrite <- Permutation_cons_append.
    pose proof (take_drop_middle (take n l) i x Hi) as E. rewrite <- E at 1.
    rewrite insert_take_drop by (apply lookup_lt_Some in Hi; done).
    rewrite <- !Permutation_middle. apply perm_swap.
Qed.

Lemma remove_member_ok cnt l x : members_wf bound cnt l ->
  let '(cnt', l') := remove_member cnt l x in
  members_wf bound cnt' l' /\
  (list_to_set (members cnt' l') : gset Z) = list_to_set (members cnt l) ∖ {[x]}.
Proof.
  intros [Hc Hl Hn Hr]. unfold remove_member. rewrite (take_full _ l Hl).
  pose proof (find_member_spec l cnt x) as Hf. destruct (find_member l cnt x) as [i|].
  - assert (0 < cnt).
    { destruct (decide (0 < cnt)); [done|]. unfold members in Hf. by replace (Z.to_nat cnt) with O in Hf by lia. }
    pose proof (members_remove cnt l i x Hl ltac:(lia) Hf) as P.
    set (l' := if (Z.of_nat i =? cnt - 1)%Z then l else l.[i <- l.[Z.to_nat (cnt - 1)]]) in *. rewrite P in Hn, Hr. apply NoDup_cons in Hn as [Hx Hn].
    apply Forall_cons_1 in Hr as [_ Hr]. split; [split; [lia| |done|done]|].
    + unfold l'. by destruct (Z.of_nat i =? cnt - 1); rewrite ?length_insert.
    + rewrite (list_to_set_perm_L _ _ P), list_to_set_cons. apply (not_elem_of_list_to_set (C := gset Z)) in Hx. set_solver.
  - split; [done|]. apply (not_elem_of_list_to_set (C := gset Z)) in Hf. set_solver.
Qed.
End Members.

(** ** Entries and tables *)

Lemma find_patch_from_spec l cnt sg :
  match find_patch_from l cnt sg with
  | Some i => exists e, take (Z.to_nat cnt) l !! i = Some e /\ sgid e = sg
  | None => sg ∉ sgid <$> take (Z.to_nat cnt) l
  end.
Proof.
  revert cnt. induction l as [|e l IH]; intros cnt; cbn; [rewrite take_nil; apply not_elem_of_nil|].
  destruct (Z.leb_spec cnt 0); [replace (Z.to_nat cnt) with O by lia; apply not_elem_of_nil|].
  replace (Z.to_nat cnt) with (S (Z.to_nat (cnt - 1))) by lia. cbn.
  destruct (Z.eqb_spec (sgid e) sg) as [E|Hne]; [by exists e|].
  specialize (IH (cnt - 1)). destruct (find_patch_from l (cnt - 1) sg); cbn; [done|].
  rewrite not_elem_of_cons. split; [congruence|done].
Qed.

Lemma live_lookup t i e : live t !! i = Some e ->
  entries t !!! i = e /\ entries t !! i = Some e /\ (i < Z.to_nat (p25_patch_count t))%nat.
Proof.
  intros H. pose proof H as H'. apply lookup_take_Some in H' as [Hi Hlt].
  split; [by apply list_lookup_total_correct|done].
Qed.

Lemma abs_list_cons e l : abs_list (e :: l) = <[sgid e := abs_entry e]> (abs_list l).
Proof. done. Qed.

Lemma abs_list_perm l l' : NoDup (sgid <$> l) -> l ≡ₚ l' -> abs_list l = abs_list l'.
Proof.
  intros Hn P. apply list_to_map_proper; [|by apply fmap_Permutation].
  by rewrite <- list_fmap_compose.
Qed.

Lemma abs_list_None l sg : abs_list l !! sg = None <-> sg ∉ sgid <$> l.
Proof.
  unfold abs_list. rewrite <- not_elem_of_list_to_map, <- list_fmap_compose. done.
Qed.

Lemma abs_list_Some l sg g : NoDup (sgid <$> l) ->
  abs_list l !! sg = Some g <-> exists e, e ∈ l /\ sgid e = sg /\ abs_entry e = g.
Proof.
  intros Hn. unfold abs_list. rewrite <- elem_of_list_to_map by (by rewrite <- list_fmap_compose).
  rewrite list_elem_of_fmap. split.
  - intros (e & E & He). injection E as -> ->. by exists e.
  - intros (e & He & <- & <-). by exists e.
Qed.

Lemma insert_perm {A} (l : list A) i x y :
  l !! i = Some x -> l ≡ₚ x :: delete i l /\ <[i := y]> l ≡ₚ y :: delete i l.
Proof.
  intros H. split; [by apply delete_Permutation|].
  rewrite insert_take_drop by (by eapply lookup_lt_Some). rewrite delete_take_drop. symmetry. apply Permutation_middle.
Qed.

Lemma abs_list_insert l i e e' :
  NoDup (sgid <$> l) -> l !! i = Some e -> sgid e' = sgid e \/ sgid e' ∉ sgid <$> l ->
  NoDup (sgid <$> <[i := e']> l) /\
  abs_list (<[i := e']> l) = <[sgid e' := abs_entry e']> (delete (sgid e) (abs_list l)).
Proof.
  intros Hn Hi Hk. destruct (insert_perm l i e e' Hi) as [P P'].
  assert (Hn0 : NoDup (sgid <$> e :: delete i l)) by (by rewrite <- P).
  assert (Hn' : NoDup (sgid <$> e' :: delete i l)).
  { cbn in *. apply NoDup_cons in Hn0 as [H1 H2]. apply NoDup_cons. split; [|done].
    destruct Hk as [->|Hk]; [done|]. rewrite P in Hk. cbn in Hk. by apply not_elem_of_cons in Hk as [_ Hk]. }
  split; [by rewrite P'|].
  rewrite (abs_list_perm _ _ Hn P), !abs_list_cons, delete_insert_id.
  - rewrite <- abs_list_cons. apply abs_list_perm; [by rewrite P'|done].
  - apply abs_list_None. cbn in Hn0. by apply NoDup_cons in Hn0 as [H1 _].
Qed.

(** Replacing a live entry, by one of the same group or of a new one. *)
Lemma table_replace t i e e' :
  table_wf t -> live t !! i = Some e -> entry_wf e' -> valid16 (sgid e') ->
  sgid e' = sgid e \/ sgid e' ∉ sgid <$> live t ->
  table_wf (set_entry i e' t) /\
  abs (set_entry i e' t) = <[sgid e' := abs_entry e']> (delete (sgid e) (abs t)).
Proof.
  intros [Hc Hl He Hd Hr] Hi We Hv Hk. destruct (live_lookup t i e Hi) as (_ & _ & Hlt).
  assert (E : live (set_entry i e' t) = <[i := e']> (live t)).
  { unfold live, set_entry. cbn. by rewrite take_insert_lt. }
  destruct (abs_list_insert (live t) i e e' Hd Hi Hk) as [Hd' Ha].
  split; [split; rewrite ?E; cbn|]; try done.
  - by rewrite length_insert.
  - by apply Forall_insert.
  - by apply Forall_insert.
  - unfold abs. by rewrite E.
Qed.

(** The most common case: the group keeps its number. *)
Lemma table_edit t i e e' :
  table_wf t -> live t !! i = Some e -> entry_wf e' -> sgid e' = sgid e ->
  table_wf (set_entry i e' t) /\ abs (set_entry i e' t) = <[sgid e := abs_entry e']> (abs t).
Proof.
  intros W Hi We Hs. pose proof (t_range t W) as Hr. eapply Forall_lookup_1 in Hr; [|done].
  destruct (table_replace t i e e' W Hi We) as [W' ->]; [by rewrite Hs|by left|].
  split; [done|]. by rewrite Hs, insert_delete_eq.
Qed.

Lemma live_entry_wf t i e : table_wf t -> live t !! i = Some e -> entry_wf e.
Proof.
  intros W Hi. destruct (live_lookup t i e Hi) as (_ & Hi' & _).
  by eapply Forall_lookup_1 in Hi'; [|apply W].
Qed.

(** What [find_patch_idx] finds is what the map holds. *)
Lemma find_patch_spec t sg : table_wf t ->
  match find_patch_idx t sg with
  | Some i => exists e, live t !! i = Some e /\ sgid e = sg /\ entries t !!! i = e /\ abs t !! sg = Some (abs_entry e)
  | None => sg ∉ sgid <$> live t /\ abs t !! sg = None
  end.
Proof.
  intros W. unfold find_patch_idx. rewrite take_full by apply W.
  pose proof (find_patch_from_spec (entries t) (p25_patch_count t) sg) as H. fold (live t) in H.
  destruct (find_patch_from _ _ sg) as [i|].
  - destruct H as (e & Hi & Hs). exists e. repeat split; [done|done|by apply live_lookup|].
    apply abs_list_Some; [apply W|]. exists e. repeat split; [by eapply list_elem_of_lookup_2|done].
  - split; [done|]. by apply abs_list_None.
Qed.

Lemma size_abs_list l : NoDup (sgid <$> l) -> size (abs_list l) = length l.
Proof.
  induction l as [|e l IH]; [done|]. rewrite fmap_cons. intros [H1 H2]%NoDup_cons.
  rewrite abs_list_cons, map_size_insert_None by (by apply abs_list_None). cbn. by rewrite IH.
Qed.

Lemma size_abs t : table_wf t -> size (abs t) = Z.to_nat (p25_patch_count t).
Proof.
  intros W. unfold abs. rewrite size_abs_list by apply W. unfold live. rewrite length_take.
  pose proof (t_len t W). pose proof (t_count t W). unfold PATCH_MAX in *. lia.
Qed.

(** ** Each change of an entry, seen as a change of its group *)

Lemma clear_context e : entry_wf e ->
  entry_wf (p25_patch_clear_entry_context e) /\
  abs_entry (p25_patch_clear_entry_context e) = strip_group (abs_entry e).
Proof.
  intros [Hg Hu _ _ _ _]. unfold p25_patch_clear_entry_context.
  assert (L : forall l : list Z, length l = MEMBERS_MAX ->
    length (for_ 0 MEMBERS_MAX (fun k l => l.[k <- 0]) l) = MEMBERS_MAX).
  { intros l Hl. apply (for_inv (fun l => length l = MEMBERS_MAX)); [done|]. intros. by rewrite length_insert. }
  split; [|done]. split; cbn; try done; apply members_nil, L; apply Hg || apply Hu.
Qed.

Lemma set_flags_ok p a now e : entry_wf e ->
  entry_wf (set_flags p a now e) /\ abs_entry (set_flags p a now e) = flag_group p a now (abs_entry e).
Proof. intros W. split; [|done]. split; apply W. Qed.

Lemma members_empty bound cnt l : members_wf bound cnt l ->
  (list_to_set (members cnt l) : gset Z) = ∅ <-> cnt = 0.
Proof.
  intros W. pose proof (size_members bound cnt l W) as Hs. destruct (mem_count _ _ _ W). split.
  - intros E. rewrite E, size_empty in Hs. lia.
  - intros ->. done.
Qed.

Lemma add_wgid_ok e x : entry_wf e -> valid16 x ->
  let '(cnt, l) := add_member (wgid_count e) (wgid e) x in
  entry_wf (set_wgids cnt l e) /\ abs_entry (set_wgids cnt l e) = add_wgid_group x (abs_entry e).
Proof.
  intros W Hx. pose proof (add_member_ok _ _ _ x (e_wgids e W) ltac:(unfold valid16 in Hx; lia)) as H.
  destruct (add_member _ _ x) as [cnt l]. destruct H as [H1 H2].
  split; [split; cbn; apply W || done|]. unfold abs_entry, add_wgid_group. cbn. by rewrite H2.
Qed.

Lemma add_wuid_ok e x : entry_wf e -> 0 < x < 2 ^ 32 ->
  let '(cnt, l) := add_member (wuid_count e) (wuid e) x in
  entry_wf (set_wuids cnt l e) /\ abs_entry (set_wuids cnt l e) = add_wuid_group x (abs_entry e).
Proof.
  intros W Hx. pose proof (add_member_ok _ _ _ x (e_wuids e W) Hx) as H.
  destruct (add_member _ _ x) as [cnt l]. destruct H as [H1 H2].
  split; [split; cbn; apply W || done|]. unfold abs_entry, add_wuid_group. cbn. by rewrite H2.
Qed.

Lemma remove_wgid_ok e x : entry_wf e ->
  let '(cnt, l) := remove_member (wgid_count e) (wgid e) x in
  let e' := set_wgids cnt l e in
  let e'' := if (wgid_count e' =? 0) && (wuid_count e' =? 0) then set_active false e' else e' in
  entry_wf e'' /\ sgid e'' = sgid e /\ abs_entry e'' = remove_wgid_group x (abs_entry e).
Proof.
  intros W. pose proof (remove_member_ok _ _ _ x (e_wgids e W)) as H.
  destruct (remove_member _ _ x) as [cnt l]. destruct H as [H1 H2]. cbn zeta.
  assert (W' : entry_wf (set_wgids cnt l e)) by (split; cbn; apply W || done).
  unfold remove_wgid_group. cbn. rewrite <- H2.
  rewrite (decide_ext _ (cnt = 0 /\ wuid_count e = 0))
    by (by rewrite (members_empty _ _ _ H1), (members_empty _ _ _ (e_wuids e W))).
  destruct (Z.eqb_spec cnt 0) as [E1|E1], (Z.eqb_spec (wuid_count e) 0) as [E2|E2]; cbn;
    try (rewrite decide_True by done); try (rewrite decide_False by tauto);
    (split; [first [apply set_flags_ok; done|done]|done]).
Qed.

Lemma set_kas_ok k a s e : entry_wf e ->
  let e1 := if 0 <=? k then set_crypt (u16 k) (alg e) (ssn e) true e else e in
  let e2 := if 0 <=? a then set_crypt (key e1) (u8 a) (ssn e1) (key_valid e1) e1 else e1 in
  let e3 := if 0 <=? s then set_crypt (key e2) (alg e2) (u8 (Z.land s 0x1F)) (key_valid e2) e2 else e2 in
  entry_wf e3 /\ sgid e3 = sgid e /\ abs_entry e3 = kas_group k a s (abs_entry e).
Proof.
  intros W. cbn zeta.
  assert (E : u8 (Z.land s 0x1F) = s mod 2 ^ 5).
  { change 0x1F with (Z.ones 5). rewrite Z.land_ones by lia. unfold u8, wrap.
    apply Z.mod_small. pose proof (Z.mod_pos_bound s (2 ^ 5)). lia. }
  rewrite E.
  pose proof (Z.mod_pos_bound k (2 ^ 16) ltac:(lia)). pose proof (Z.mod_pos_bound a (2 ^ 8) ltac:(lia)).
  pose proof (Z.mod_pos_bound s (2 ^ 5) ltac:(lia)).
  destruct (0 <=? k) eqn:Ek, (0 <=? a) eqn:Ea, (0 <=? s) eqn:Es; split;
    [|split; [done|]| |split; [done|]| |split; [done|]| |split; [done|]
     | |split; [done|]| |split; [done|]| |split; [done|]| |split; [done|]];
    try (unfold abs_entry, kas_group; cbn; rewrite Ek, Ea, Es; done); split; apply W || done.
Qed.

(** ** Room for a ninth group *)

Lemma stale_spec e now : p25_patch_entry_is_stale e now = true <-> stale now (abs_entry e).
Proof. unfold p25_patch_entry_is_stale, stale. cbn. rewrite andb_true_iff, !Z.ltb_lt. done. Qed.

Lemma not_stale_spec e now : p25_patch_entry_is_stale e now = false <-> ~ stale now (abs_entry e).
Proof. rewrite <- stale_spec. by destruct (p25_patch_entry_is_stale e now). Qed.

Lemma first_index_spec p l :
  match first_index p l with
  | Some i => exists e, l !! i = Some e /\ p e = true
  | None => Forall (fun e => p e = false) l
  end.
Proof.
  unfold first_index. destruct (list_find _ l) as [[i e]|] eqn:E; cbn.
  - apply list_find_Some in E as (H1 & H2 & _). by exists e.
  - apply list_find_None in E. eapply Forall_impl; [done|]. cbn. intros e. by destruct (p e).
Qed.

Lemma oldest_idx_spec l : length l = PATCH_MAX ->
  exists e, l !! oldest_idx l = Some e /\ Forall (fun e' => last_update e <= last_update e') l.
Proof.
  intros Hl. unfold oldest_idx.
  set (P := fun n (s : nat * Z) => (fst s < PATCH_MAX)%nat /\ snd s = last_update (l !!! fst s) /\
              forall i, (i < n)%nat -> snd s <= last_update (l !!! i)).
  match goal with |- context [for_ 1 PATCH_MAX ?f ?s] => assert (H : P PATCH_MAX (for_ 1 PATCH_MAX f s)) end.
  { apply (for_ind P).
    - unfold PATCH_MAX. lia.
    - split; [cbn; unfold PATCH_MAX; lia|]. split; [done|]. intros i Hi. by replace i with O by lia.
    - intros i [r o] Hi (H1 & H2 & H3). cbn in *.
      destruct (Z.ltb_spec (last_update (l !!! i)) o); (split; [cbn; lia|]); (split; [done|]); cbn;
        intros j Hj; destruct (decide (j = i)) as [->|]; try lia; specialize (H3 j); lia. }
  destruct (for_ _ _ _ _) as [r o]. destruct H as (H1 & H2 & H3). cbn in *. subst o.
  destruct (lookup_lt_is_Some_2 l r) as [e He]; [lia|]. exists e. split; [done|].
  rewrite (list_lookup_total_correct _ _ _ He) in H3. apply Forall_lookup. intros i e' Hi.
  pose proof (lookup_lt_Some _ _ _ Hi). specialize (H3 i ltac:(lia)).
  by rewrite (list_lookup_total_correct _ _ _ Hi) in H3.
Qed.

Lemma map_Forall_abs t (P : group -> Prop) : table_wf t ->
  Forall (fun e => P (abs_entry e)) (live t) -> map_Forall (fun _ g => P g) (abs t).
Proof.
  intros W H k g Hg. apply abs_list_Some in Hg as (e & He & _ & <-); [|apply W].
  by eapply Forall_forall in H.
Qed.

Lemma abs_live t i e : table_wf t -> live t !! i = Some e -> abs t !! sgid e = Some (abs_entry e).
Proof.
  intros W Hi. apply abs_list_Some; [apply W|]. exists e. split; [by eapply list_elem_of_lookup_2|done].
Qed.

Lemma replacement_spec t a now : table_wf t -> p25_patch_count t = Z.of_nat PATCH_MAX ->
  match p25_patch_replacement_idx t a now with
  | Some i => exists e, live t !! i = Some e /\ may_replace (abs t) a now (sgid e)
  | None => a = false /\ map_Forall (fun _ g => g_active g = true /\ ~ stale now g) (abs t)
  end.
Proof.
  intros W Hc. assert (El : live t = entries t).
  { unfold live. rewrite Hc, Nat2Z.id. apply take_full, W. }
  unfold p25_patch_replacement_idx. rewrite take_full by apply W. rewrite <- El.
  pose proof (first_index_spec (fun e => negb (active e)) (live t)) as H1. destruct (first_index _ _) as [i|].
  { destruct H1 as (e & Hi & Ha). exists e. split; [done|].
    eapply replace_inactive; [by apply (abs_live t i)|]. by apply negb_true_iff. }
  apply (Forall_impl _ (fun e => g_active (abs_entry e) = true)) in H1; [|intros e; apply negb_false_iff].
  pose proof (first_index_spec (fun e => p25_patch_entry_is_stale e now) (live t)) as H2.
  destruct (first_index _ _) as [i|].
  { destruct H2 as (e & Hi & Hs). exists e. split; [done|].
    eapply replace_stale; [|by apply (abs_live t i)|by apply stale_spec].
    by apply (map_Forall_abs t (fun g => g_active g = true)). }
  apply (Forall_impl _ (fun e => ~ stale now (abs_entry e))) in H2; [|intros e; apply not_stale_spec].
  assert (H : map_Forall (fun _ g => g_active g = true /\ ~ stale now g) (abs t)).
  { apply (map_Forall_abs t (fun g => g_active g = true /\ ~ stale now g)); [done|]. by apply Forall_and. }
  destruct a; [|done]. destruct (oldest_idx_spec (live t)) as (e & Hi & Ho); [rewrite El; apply W|].
  exists e. split; [done|]. eapply replace_oldest; [done|done|by apply (abs_live t (oldest_idx (live t)))|].
  by apply (map_Forall_abs t (fun g' => g_time (abs_entry e) <= g_time g')).
Qed.

(** ** The operations refine the specification *)

Definition refines (t : patch_table) (spec : gmap Z group -> gmap Z group -> Prop) (t' : patch_table) : Prop :=
  table_wf t' /\ spec (abs t) (abs t').

Lemma u16_valid sg : valid16 sg -> u16 sg = sg.
Proof. intros H. unfold u16, wrap, valid16 in *. apply Z.mod_small. lia. Qed.

Lemma valid16_guard {A} sg (x y : A) : (if (sg <=? 0) || (65535 <? sg) then x else y) = if decide (valid16 sg) then y else x.
Proof. unfold valid16. destruct (Z.leb_spec sg 0), (Z.ltb_spec 65535 sg), (decide _); lia || done. Qed.

(** The entry written for a new group. *)
Lemma place_ok sg p a now e : entry_wf e ->
  let e' := p25_patch_clear_entry_context
              (mk_patch sg p a now (wgid_count e) (wgid e) (wuid_count e) (wuid e) (key e) (alg e) (ssn e) (key_valid e)) in
  entry_wf e' /\ sgid e' = sg /\ abs_entry e' = fresh_group p a now.
Proof.
  intros W. cbn zeta. match goal with |- entry_wf (_ ?e') /\ _ => destruct (clear_context e') as [H1 H2] end.
  - split; apply W.
  - split; [done|]. split; [done|]. by rewrite H2.
Qed.

(** Appending behind the live entries. *)
Lemma table_append t e' : table_wf t -> p25_patch_count t < Z.of_nat PATCH_MAX -> entry_wf e' ->
  valid16 (sgid e') -> sgid e' ∉ sgid <$> live t ->
  refines t (fun m m' => m' = <[sgid e' := abs_entry e']> m)
    (set_entry (Z.to_nat (p25_patch_count t)) e' (mk_table (p25_patch_count t + 1) (entries t))).
Proof.
  intros [Hc Hl He Hd Hr] Hlt We Hv Hn. set (n := Z.to_nat (p25_patch_count t)).
  assert (E : live (set_entry n e' (mk_table (p25_patch_count t + 1) (entries t))) = live t ++ [e']).
  { unfold live, set_entry. cbn. replace (Z.to_nat (p25_patch_count t + 1)) with (S n) by (unfold n; lia).
    rewrite (take_S_r _ _ e') by (apply list_lookup_insert_eq; unfold n; lia). by rewrite take_insert_ge by done. }
  assert (Hd' : NoDup (sgid <$> e' :: live t)) by (cbn; by apply NoDup_cons).
  assert (P : e' :: live t ≡ₚ live t ++ [e']) by apply Permutation_cons_append.
  split; [split; rewrite ?E; cbn|].
  - lia.
  - by rewrite length_insert.
  - by apply Forall_insert.
  - by rewrite <- P.
  - rewrite <- P. by constructor.
  - unfold abs. rewrite E, <- (abs_list_perm _ _ Hd' P). done.
Qed.

Lemma update_ok sg p a now t : table_wf t -> valid16 sg ->
  refines t (spec_update sg p a now) (p25_patch_update sg p a now t).
Proof.
  intros W Hv. unfold p25_patch_update. rewrite valid16_guard, decide_True by done. rewrite u16_valid by done.
  pose proof (find_patch_spec t sg W) as Hf. destruct (find_patch_idx t sg) as [i|].
  { destruct Hf as (e & Hi & Hs & He & Ha). rewrite He.
    destruct (set_flags_ok p a now e (live_entry_wf t i e W Hi)) as [W1 E1].
    destruct (table_edit t i e (set_flags p a now e) W Hi W1 eq_refl) as [W2 E2].
    split; [done|]. rewrite E2, E1, Hs. by apply update_known. }
  destruct Hf as [Hn Ha]. pose proof (t_count t W) as Hc.
  destruct (Z.ltb_spec (p25_patch_count t) 0); [lia|].
  destruct (Z.leb_spec (Z.of_nat PATCH_MAX) (p25_patch_count t)) as [Hfull|Hroom].
  - assert (Hc8 : p25_patch_count t = Z.of_nat PATCH_MAX) by lia.
    assert (Et : mk_table (Z.of_nat PATCH_MAX) (entries t) = t) by (rewrite <- Hc8; by destruct t).
    rewrite Et. assert (Hs : size (abs t) = 8%nat) by (rewrite size_abs by done; by rewrite Hc8).
    pose proof (replacement_spec t a now W Hc8) as Hrep. destruct (p25_patch_replacement_idx t a now) as [i|].
    + destruct Hrep as (e & Hi & Hr). unfold p25_patch_place.
      destruct (live_lookup t i e Hi) as (-> & _ & _). rewrite u16_valid by done.
      destruct (place_ok sg p a now e (live_entry_wf t i e W Hi)) as (W1 & Es & E1). cbn zeta in *.
      match type of W1 with entry_wf ?e' => destruct (table_replace t i e e' W Hi W1) as [W2 E2] end;
        [by rewrite Es|right; by rewrite Es|].
      split; [done|]. rewrite E2, E1, Es. by apply update_replace.
    + destruct Hrep as [-> Hr]. split; [done|]. by apply update_refused.
  - destruct (lookup_lt_is_Some_2 (entries t) (Z.to_nat (p25_patch_count t))) as [e He];
      [rewrite (t_len t W); lia|].
    unfold p25_patch_place. cbn [entries]. rewrite (list_lookup_total_correct _ _ _ He), u16_valid by done.
    assert (We : entry_wf e) by (by eapply Forall_lookup_1 in He; [|apply W]).
    destruct (place_ok sg p a now e We) as (W1 & Es & E1). cbn zeta in *.
    match type of W1 with entry_wf ?e' => destruct (table_append t e' W Hroom W1) as [W2 E2] end;
      [by rewrite Es|by rewrite Es|].
    split; [done|]. rewrite E2, E1, Es. apply update_new; [done|]. rewrite size_abs by done. unfold PATCH_MAX in *. lia.
Qed.

(** An update of one entry that stands for the update [f] of its group. *)
Definition edits (F : patch_entry -> patch_entry) (f : group -> group) : Prop :=
  forall e, entry_wf e -> entry_wf (F e) /\ sgid (F e) = sgid e /\ abs_entry (F e) = f (abs_entry e).

Lemma alter_known (f : group -> group) k g (m : gmap Z group) : m !! k = Some g -> alter f k m = <[k := f g]> m.
Proof.
  intros H. apply map_eq. intros j. destruct (decide (k = j)) as [<-|Hne].
  - by rewrite lookup_alter_eq, H, lookup_insert_eq.
  - by rewrite lookup_alter_ne, lookup_insert_ne.
Qed.

Lemma alter_unknown (f : group -> group) k (m : gmap Z group) : m !! k = None -> alter f k m = m.
Proof.
  intros H. apply map_eq. intros j. destruct (decide (k = j)) as [<-|Hne].
  - by rewrite lookup_alter_eq, H.
  - by rewrite lookup_alter_ne.
Qed.

Lemma alter_ok F f sg t : edits F f -> table_wf t ->
  refines t (fun m m' => m' = alter f sg m)
    (match find_patch_idx t sg with Some i => set_entry i (F (entries t !!! i)) t | None => t end).
Proof.
  intros HF W. pose proof (find_patch_spec t sg W) as Hf. destruct (find_patch_idx t sg) as [i|].
  - destruct Hf as (e & Hi & Hs & -> & Ha). destruct (HF e (live_entry_wf t i e W Hi)) as (W1 & Es & E1).
    destruct (table_edit t i e (F e) W Hi W1 Es) as [W2 E2]. split; [done|].
    rewrite E2, E1, Hs. symmetry. by apply alter_known.
  - destruct Hf as [_ Ha]. split; [done|]. symmetry. by apply alter_unknown.
Qed.

Lemma update_present sg p now m m' : spec_update sg p true now m m' -> is_Some (m' !! sg).
Proof. intros []; [..|done]; rewrite lookup_insert_eq; by eexists. Qed.

Lemma edit_ok F f sg now t : edits F f -> table_wf t -> valid16 sg ->
  refines t (spec_edit sg now f)
    (match find_or_create sg now t with
     | (t, None) => t
     | (t, Some i) => set_entry i (F (entries t !!! i)) t
     end).
Proof.
  intros HF W Hv. unfold find_or_create, spec_edit. rewrite u16_valid by done.
  pose proof (find_patch_spec t sg W) as Hf. pose proof (alter_ok F f sg t HF W) as Hk.
  destruct (find_patch_idx t sg) as [i|].
  - destruct Hf as (e & _ & _ & _ & Ha). destruct Hk as [W2 E2]. split; [done|]. unfold refines.
    rewrite Ha. rewrite E2. by apply alter_known.
  - destruct Hf as [_ Ha]. destruct (update_ok sg true true now t W Hv) as [W1 S1].
    set (t1 := p25_patch_update sg true true now t) in *. cbn zeta.
    pose proof (alter_ok F f sg t1 HF W1) as Hk1. pose proof (find_patch_spec t1 sg W1) as Hf1.
    destruct (find_patch_idx t1 sg) as [i|].
    + destruct Hk1 as [W2 E2]. split; [done|]. rewrite Ha. by exists (abs t1).
    + destruct Hf1 as [_ Hf1]. destruct (update_present _ _ _ _ _ S1) as [g Hg]. congruence.
Qed.

Lemma edits_clear_sg now :
  edits (fun e => set_flags (is_patch (p25_patch_clear_entry_context e)) false now (p25_patch_clear_entry_context e))
    (fun g => fresh_group (g_patch g) false now).
Proof.
  intros e We. destruct (clear_context e We) as [W1 E1].
  destruct (set_flags_ok (is_patch (p25_patch_clear_entry_context e)) false now _ W1) as [W2 E2].
  split; [done|]. split; [done|]. rewrite E2, E1. done.
Qed.

Lemma edits_add_wgid wg : valid16 wg ->
  edits (fun e => let '(cnt, l) := add_member (wgid_count e) (wgid e) wg in set_wgids cnt l e) (add_wgid_group wg).
Proof.
  intros Hv e We. pose proof (add_wgid_ok e wg We Hv) as H.
  destruct (add_member _ _ _). destruct H. by split; [|split].
Qed.

Lemma edits_add_wuid wu : 0 < wu < 2 ^ 32 ->
  edits (fun e => let '(cnt, l) := add_member (wuid_count e) (wuid e) wu in set_wuids cnt l e) (add_wuid_group wu).
Proof.
  intros Hv e We. pose proof (add_wuid_ok e wu We Hv) as H.
  destruct (add_member _ _ _). destruct H. by split; [|split].
Qed.

Lemma edits_remove_wgid wg :
  edits (fun e => let '(cnt, l) := remove_member (wgid_count e) (wgid e) wg in
                  let e := set_wgids cnt l e in
                  if (wgid_count e =? 0) && (wuid_count e =? 0) then set_active false e else e) (remove_wgid_group wg).
Proof. intros e We. pose proof (remove_wgid_ok e wg We) as H. by destruct (remove_member _ _ _). Qed.

Lemma edits_renumber s :
  edits (fun e => if active e && (0 <=? (if 0 <=? s then Z.land s 0x1F else -1)) &&
                     negb (ssn e =? u8 (if 0 <=? s then Z.land s 0x1F else -1))
                  then p25_patch_clear_entry_context e else e) (renumber_group s).
Proof.
  intros e We. unfold renumber_group. cbn.
  assert (E : Z.land s 0x1F = s mod 2 ^ 5) by (change 0x1F with (Z.ones 5); by rewrite Z.land_ones by lia).
  pose proof (Z.mod_pos_bound s (2 ^ 5) ltac:(lia)) as Hm. rewrite E.
  assert (Eu : u8 (s mod 2 ^ 5) = s mod 2 ^ 5) by (unfold u8, wrap; apply Z.mod_small; lia).
  destruct (Z.leb_spec 0 s); cbn [andb]; [|by rewrite !andb_false_r].
  rewrite Eu. destruct (Z.leb_spec 0 (s mod 2 ^ 5)); [|lia].
  destruct (active e && true && negb (ssn e =? s mod 2 ^ 5)); [|done].
  destruct (clear_context e We) as [W1 E1]. done.
Qed.

(** The sweep keeps exactly the fresh entries, in order. *)
Section Sweep.
Context (now : Z) (L : list patch_entry) (HL : length L = PATCH_MAX) (HW : Forall entry_wf L).

Record swept (i : nat) (s : nat * list patch_entry) : Prop := {
  sw_le : (fst s <= i)%nat;
  sw_len : length (snd s) = PATCH_MAX;
  sw_wf : Forall entry_wf (snd s);
  sw_done : take (fst s) (snd s) = filter (fun e => p25_patch_entry_is_stale e now = false) (take i L);
  sw_rest : forall j, (i <= j)%nat -> snd s !! j = L !! j
}.

Lemma sweep_loop n : (n <= PATCH_MAX)%nat ->
  swept n (for_ 0 n (fun i '(w, l) =>
    if p25_patch_entry_is_stale (l !!! i) now then (w, l)
    else (S w, if bool_decide (w = i) then l else <[w := l !!! i]> l)) (O, L)).
Proof.
  intros Hn. apply (for_ind swept); [lia|by split|]. intros i [w l] Hi [H1 H2 H3 H4 H5]. cbn in *.
  destruct (lookup_lt_is_Some_2 L i) as [e He]; [lia|].
  assert (Hl : l !! i = Some e) by (rewrite <- He; by apply H5).
  rewrite (list_lookup_total_correct _ _ _ Hl). pose proof (take_S_r L i e He) as ET.
  assert (We : entry_wf e) by (by eapply Forall_lookup_1 in HW).
  destruct (p25_patch_entry_is_stale e now) eqn:Es.
  - split; cbn; [lia|done|done| |intros; apply H5; lia].
    by rewrite ET, filter_app, filter_cons_False, filter_nil, app_nil_r by congruence.
  - assert (El : forall l', l' !! w = Some e -> take w l' = take w l ->
      take (S w) l' = filter (fun e => p25_patch_entry_is_stale e now = false) (take (S i) L)).
    { intros l' Hw Ht. by rewrite (take_S_r l' w e Hw), Ht, H4, ET, filter_app, filter_cons_True, filter_nil. }
    destruct (bool_decide_reflect (w = i)) as [->|Hne].
    + split; cbn; [lia|done|done|by apply El|intros; apply H5; lia].
    + split; cbn; [lia|by rewrite length_insert|by apply Forall_insert| |].
      * apply El; [apply list_lookup_insert_eq; lia|by apply take_insert_ge].
      * intros j Hj. rewrite list_lookup_insert_ne by lia. apply H5. lia.
Qed.
End Sweep.

Lemma NoDup_filter_fmap {A B} (f : A -> B) (P : A -> Prop) `{!forall x, Decision (P x)} (l : list A) :
  NoDup (f <$> l) -> NoDup (f <$> filter P l).
Proof. intros Hn. eapply sublist_NoDup; [done|]. apply (fmap_sublist f), sublist_filter. Qed.

Lemma sweep_ok now t : table_wf t ->
  refines t (fun m m' => m' = filter (fun '(_, g) => ~ stale now g) m) (p25_patch_sweep_stale t now).
Proof.
  intros W. pose proof W as [Hc Hl He Hd Hr]. unfold p25_patch_sweep_stale.
  rewrite Z.min_l by lia.
  pose proof (sweep_loop now (entries t) Hl He (Z.to_nat (p25_patch_count t)) ltac:(lia)) as S.
  destruct (for_ _ _ _ _) as [w l]. destruct S as [H1 H2 H3 H4 _]. cbn in *.
  assert (E : live (mk_table (Z.of_nat w) l) = filter (fun e => p25_patch_entry_is_stale e now = false) (live t)).
  { unfold live. cbn. by rewrite Nat2Z.id. }
  assert (Hd' : NoDup (sgid <$> live (mk_table (Z.of_nat w) l))) by (rewrite E; by apply NoDup_filter_fmap).
  split; [split; cbn; try done; [lia|]|].
  - rewrite E. apply Forall_forall. intros e [_ Hin]%list_elem_of_filter. by eapply Forall_forall in Hr.
  - apply map_eq. intros sg. apply option_eq. intros g. unfold abs.
    rewrite map_lookup_filter_Some, !abs_list_Some, E by done. split.
    + intros (e & [Hf Hin]%list_elem_of_filter & Hs & <-). split; [by exists e|]. by apply not_stale_spec.
    + intros [(e & Hin & Hs & <-) Hg]. exists e. split; [|done]. apply list_elem_of_filter.
      split; [by apply not_stale_spec|done].
Qed.

(** ** One call *)

Lemma guard2 {A} a b (x y : A) :
  (if (a <=? 0) || (65535 <? a) || (b <=? 0) || (65535 <? b) then x else y)
  = if decide (valid16 a /\ valid16 b) then y else x.
Proof.
  unfold valid16. destruct (Z.leb_spec a 0), (Z.ltb_spec 65535 a), (Z.leb_spec b 0), (Z.ltb_spec 65535 b), (decide _);
    lia || done.
Qed.

Lemma guard_wuid {A} a u (x y : A) :
  (if (a <=? 0) || (65535 <? a) || (u =? 0) then x else y) = if decide (valid16 a /\ u <> 0) then y else x.
Proof. unfold valid16. destruct (Z.leb_spec a 0), (Z.ltb_spec 65535 a), (Z.eqb_spec u 0), (decide _); lia || done. Qed.

Lemma prepare_ok sg p a s now now' t : table_wf t ->
  refines t (spec_step (PrepareGrg sg p a s now now')) (fst (p25_patch_prepare_grg_update sg p a s now now' t)).
Proof.
  intros W. unfold p25_patch_prepare_grg_update, spec_step. rewrite valid16_guard.
  destruct (decide (valid16 sg)) as [Hv|]; [|done]. rewrite u16_valid by done. unfold refines.
  pose proof (find_patch_spec t sg W) as Hf. destruct a; cbn [negb fst].
  - pose proof (alter_ok _ _ sg t (edits_renumber s) W) as [W1 E1]. rewrite <- E1.
    assert (E2 : match find_patch_idx t sg with
      | Some i => set_entry i (if active (entries t !!! i) && (0 <=? (if 0 <=? s then Z.land s 0x1F else -1)) &&
                       negb (ssn (entries t !!! i) =? u8 (if 0 <=? s then Z.land s 0x1F else -1))
                  then p25_patch_clear_entry_context (entries t !!! i) else entries t !!! i) t
      | None => t end = match find_patch_idx t sg with
      | Some i => if active (entries t !!! i) && (0 <=? (if 0 <=? s then Z.land s 0x1F else -1)) &&
                       negb (ssn (entries t !!! i) =? u8 (if 0 <=? s then Z.land s 0x1F else -1))
                  then set_entry i (p25_patch_clear_entry_context (entries t !!! i)) t else t
      | None => t end).
    { destruct (find_patch_idx t sg) as [i|]; [|done]. destruct (_ && _ && _); [done|].
      destruct Hf as (e & Hi & _ & -> & _). destruct (live_lookup t i e Hi) as (_ & Hi' & _).
      unfold set_entry. rewrite list_insert_id by done. by destruct t. }
    rewrite <- E2. by apply update_ok.
  - set (t1 := match find_patch_idx t sg with Some _ => t | None => p25_patch_update sg p false now t end).
    assert (H1 : table_wf t1 /\ (if decide (is_Some (abs t !! sg)) then abs t1 = abs t
                                 else spec_update sg p false now (abs t) (abs t1))).
    { unfold t1. destruct (find_patch_idx t sg).
      - destruct Hf as (e & _ & _ & _ & Ha). rewrite decide_True by (by rewrite Ha). done.
      - destruct Hf as [_ Ha]. rewrite decide_False by (rewrite Ha; apply is_Some_None). by apply update_ok. }
    destruct H1 as [W1 S1]. unfold p25_patch_clear_sg.
    destruct (Z.leb_spec sg 0); [unfold valid16 in Hv; lia|]. rewrite u16_valid by done.
    destruct (alter_ok _ _ sg t1 (edits_clear_sg now') W1) as [W2 E2]. cbv beta in W2, E2. cbv zeta.
    match type of E2 with abs ?t2 = _ => set (t2' := t2) in * end.
    assert (HF : edits (fun e => set_flags p (active e) (last_update e) e)
                   (fun g => flag_group p (g_active g) (g_time g) g)).
    { intros e We. destruct (set_flags_ok p (active e) (last_update e) e We). done. }
    destruct (alter_ok _ _ sg t2' HF W2) as [W3 E3]. split; [done|]. exists (abs t1). split; [done|].
    rewrite E3, E2, alter_alter_eq. apply alter_ext. done.
Qed.

Lemma run_refines op t : table_wf t -> op_typed op -> refines t (spec_step op) (run op t).
Proof.
  intros W Ht. destruct op as [sg p a now|sg wg now|sg wu now|sg wg|sg now|sg p a s now now'|sg k a s now|now];
    cbn [run].
  - unfold spec_step. destruct (decide (valid16 sg)) as [Hv|Hv]; [by apply update_ok|].
    unfold p25_patch_update. by rewrite valid16_guard, decide_False by done.
  - unfold spec_step, p25_patch_add_wgid. rewrite guard2. destruct (decide _) as [[Hs Hw]|]; [|done].
    rewrite (u16_valid wg) by done.
    destruct (edit_ok _ _ sg now t (edits_add_wgid wg Hw) W Hs) as [W' S'].
    destruct (find_or_create sg now t) as [t' [i|]]; [|done]. by destruct (add_member _ _ _).
  - unfold spec_step, p25_patch_add_wuid. cbn in Ht.
    rewrite guard_wuid. destruct (decide _) as [[Hs Hw]|]; [|done].
    destruct (edit_ok _ _ sg now t (edits_add_wuid wu ltac:(lia)) W Hs) as [W' S'].
    destruct (find_or_create sg now t) as [t' [i|]]; [|done]. by destruct (add_member _ _ _).
  - unfold spec_step, p25_patch_remove_wgid.
    destruct (Z.leb_spec sg 0), (Z.leb_spec wg 0), (decide _); try lia; try done. cbn [orb].
    destruct (alter_ok _ _ (u16 sg) t (edits_remove_wgid (u16 wg)) W) as [W' S'].
    destruct (find_patch_idx t (u16 sg)); [|done]. by destruct (remove_member _ _ _).
  - unfold spec_step, p25_patch_clear_sg. destruct (Z.leb_spec sg 0), (decide _); try lia; try done.
    apply (alter_ok _ _ (u16 sg) t (edits_clear_sg now) W).
  - by apply prepare_ok.
  - unfold spec_step, p25_patch_set_kas. destruct (decide (valid16 sg)) as [Hs|Hs].
    + destruct (Z.leb_spec sg 0); [unfold valid16 in Hs; lia|]. by apply (edit_ok _ _ sg now t (set_kas_ok k a s)).
    + destruct (Z.leb_spec sg 0), (decide _); try lia; [done|].
      pose proof (alter_ok _ _ (u16 sg) t (set_kas_ok k a s) W) as Ha. unfold find_or_create, p25_patch_update.
      rewrite valid16_guard, decide_False by done. by destruct (find_patch_idx t (u16 sg)) as [i|] eqn:E; rewrite ?E.
  - by apply sweep_ok.
Qed.

Lemma init_ok : table_wf patch_init /\ abs patch_init = ∅.
Proof.
  split; [|done]. split; [done|done| |constructor|constructor].
  apply Forall_replicate. split; cbn; try lia; apply members_nil; done.
Qed.

Lemma runs_refine ops t : table_wf t -> Forall op_typed ops -> refines t (spec_run ops) (runs ops t).
Proof.
  intros W Ht. revert t W. induction Ht as [|op ops Hop Ht IH]; intros t W; [done|].
  destruct (run_refines op t W Hop) as [W1 S1]. destruct (IH _ W1) as [W2 S2].
  split; [done|]. by exists (abs (run op t)).
Qed.

(** ** Properties *)

(** C4: patch tracking refines a finite map.  After every history of calls
    from start-up the table is well formed (at most eight entries with
    different valid SGIDs, each with at most eight different valid members of
    each kind, every field in its width, and no key value without a command
    that set it), and the groups it holds are one of the outcomes the
    specification allows: each call changes the group it names and no other,
    in the way [spec_step] says, where a ninth group takes the place of an
    inactive one, else of a stale one, else (an active newcomer only) of one
    longest without update, and is refused otherwise. *)
Theorem p25_patch_refines ops :
  Forall op_typed ops ->
  table_wf (runs ops patch_init) /\ spec_run ops ∅ (abs (runs ops patch_init)).
Proof. destruct init_ok as [W E]. rewrite <- E. by apply runs_refine. Qed.

Lemma p25_patch_refines_witness :
  let ops := (fun k => Update k true (Z.even k) (100 + k)) <$> [1; 2; 3; 4; 5; 6; 7; 8; 9] in
  let ops := ops ++ [AddWgid 9 70 110; AddWuid 9 7 111; SetKas 9 0 0x84 35 112; PrepareGrg 9 true true 4 113 113] in
  Forall op_typed ops /\ table_wf (runs ops patch_init) /\ spec_run ops ∅ (abs (runs ops patch_init)).
Proof. split; [repeat constructor; cbn; lia|]. apply p25_patch_refines. repeat constructor; cbn; lia. Defined.

(** ** Queries *)

(** The group counts for traffic now. *)
Definition in_force (now : Z) (g : group) : Prop := g_active g = true /\ ~ stale now g.
#[export] Instance in_force_dec now g : Decision (in_force now g).
Proof. unfold in_force. apply _. Defined.

Lemma in_force_spec e now :
  negb (active e) || p25_patch_entry_is_stale e now = negb (bool_decide (in_force now (abs_entry e))).
Proof.
  pose proof (stale_spec e now) as Hs. case_bool_decide as H; unfold in_force in H; cbn [abs_entry g_active] in H;
    destruct (active e), (p25_patch_entry_is_stale e now); cbn; naive_solver.
Qed.

Lemma key_is_clear_spec e : entry_wf e ->
  key_is_clear e = if decide (g_key (abs_entry e) = Some 0) then 1 else 0.
Proof.
  intros W. unfold key_is_clear. cbn. destruct (key_valid e); cbn [andb].
  - destruct (Z.eqb_spec (key e) 0) as [->|Hne]; destruct (decide _); congruence.
  - by destruct (decide _).
Qed.

Lemma find_member_in e x : entry_wf e ->
  match find_member (take MEMBERS_MAX (wgid e)) (wgid_count e) x with
  | Some _ => x ∈ g_wgids (abs_entry e)
  | None => x ∉ g_wgids (abs_entry e)
  end.
Proof.
  intros W. rewrite take_full by apply W. pose proof (find_member_spec (wgid e) (wgid_count e) x) as H.
  cbn. destruct (find_member _ _ _); rewrite elem_of_list_to_set; [|done]. by eapply list_elem_of_lookup_2.
Qed.

(** The first group in force that has the talk group decides. *)
Lemma tg_key_from_spec l cnt tg now : Forall entry_wf (take (Z.to_nat cnt) l) ->
  let has e := in_force now (abs_entry e) /\ tg ∈ g_wgids (abs_entry e) in
  tg_key_from l cnt tg now = 0 /\ Forall (fun e => ~ has e) (take (Z.to_nat cnt) l) \/
  exists e, e ∈ take (Z.to_nat cnt) l /\ has e /\ tg_key_from l cnt tg now = key_is_clear e.
Proof.
  revert cnt. induction l as [|e l IH]; intros cnt Hw; cbn zeta; [left; by rewrite take_nil|].
  cbn [tg_key_from]. destruct (Z.leb_spec cnt 0); [left; by replace (Z.to_nat cnt) with O by lia|].
  replace (Z.to_nat cnt) with (S (Z.to_nat (cnt - 1))) in * by lia. cbn [take] in *.
  apply Forall_cons in Hw as [We Hw]. rewrite in_force_spec.
  pose proof (find_member_in e tg We) as Hm. specialize (IH (cnt - 1) Hw). cbn zeta in IH.
  destruct (bool_decide_reflect (in_force now (abs_entry e))) as [Hf|Hf]; cbn [negb].
  - destruct (find_member _ _ _).
    + right. exists e. split; [apply list_elem_of_here|]. by split.
    + destruct IH as [[H1 H2]|(e' & H1 & H2 & H3)]; [left|right].
      * split; [done|]. constructor; [tauto|done].
      * exists e'. split; [by apply list_elem_of_further|]. by split.
  - destruct IH as [[H1 H2]|(e' & H1 & H2 & H3)]; [left|right].
    + split; [done|]. constructor; [tauto|done].
    + exists e'. split; [by apply list_elem_of_further|]. by split.
Qed.

Lemma sg_key_from_spec l cnt sg now : Forall entry_wf (take (Z.to_nat cnt) l) ->
  NoDup (sgid <$> take (Z.to_nat cnt) l) ->
  sg_key_from l cnt sg now =
    match abs_list (take (Z.to_nat cnt) l) !! sg with
    | Some g => if decide (in_force now g /\ g_key g = Some 0) then 1 else 0
    | None => 0
    end.
Proof.
  revert cnt. induction l as [|e l IH]; intros cnt Hw Hn; [by rewrite take_nil|].
  cbn [sg_key_from]. destruct (Z.leb_spec cnt 0); [by replace (Z.to_nat cnt) with O by lia|].
  replace (Z.to_nat cnt) with (S (Z.to_nat (cnt - 1))) in * by lia. cbn [take] in *.
  apply Forall_cons in Hw as [We Hw]. rewrite fmap_cons in Hn. apply NoDup_cons in Hn as [Hx Hn].
  rewrite <- orb_assoc, (orb_comm (negb (sgid e =? sg))), orb_assoc, in_force_spec, abs_list_cons.
  destruct (Z.eqb_spec (sgid e) sg) as [<-|Hne]; cbn [negb].
  - rewrite orb_false_r, lookup_insert_eq, IH, (proj2 (abs_list_None _ _)) by done.
    rewrite key_is_clear_spec by done.
    destruct (bool_decide_reflect (in_force now (abs_entry e))); cbn [negb];
      repeat destruct (decide _); tauto || done.
  - rewrite orb_true_r, lookup_insert_ne by done. by apply IH.
Qed.

(** Copying the head of an array over another. *)
Lemma copy_loop n (src o : list Z) : (n <= length src)%nat -> (n <= length o)%nat ->
  for_ 0 n (fun i o => o.[i <- src.[i]]) o = take n src ++ drop n o.
Proof.
  intros Hs Ho. destruct (for_update n (fun j _ => src.[j]) o Ho) as [Hl Hn].
  apply list_eq_nth; [rewrite Hl; len|]. intros i Hi. rewrite Hn, !nth_lookup. destruct (decide (i < n)%nat).
  - by rewrite lookup_app_l, lookup_take_lt by len.
  - rewrite lookup_app_r, length_take, Nat.min_l, lookup_drop by len. do 2 f_equal. lia.
Qed.

Lemma collect_spec t now sg out cap : table_wf t -> valid16 sg ->
  (forall o, out = Some o -> (cap <= length o)%nat) ->
  match abs t !! sg with
  | Some g =>
      if decide (in_force now g) then
        exists l, NoDup l /\ list_to_set l = g_wgids g /\
          p25_patch_collect_active_wgids t sg now out cap =
            ((fun o => take cap l ++ drop (Nat.min (length l) cap) o) <$> out, Z.of_nat (length l))
      else p25_patch_collect_active_wgids t sg now out cap = (out, 0)
  | None => p25_patch_collect_active_wgids t sg now out cap = (out, 0)
  end.
Proof.
  intros W Hsg Hout. unfold p25_patch_collect_active_wgids.
  rewrite valid16_guard, decide_True, u16_valid by done. pose proof (find_patch_spec t sg W) as Hf.
  destruct (find_patch_idx t sg) as [i|]; [|by destruct Hf as [_ ->]].
  destruct Hf as (e & Hi & _ & -> & ->). rewrite in_force_spec.
  destruct (decide (in_force now (abs_entry e))) as [Hf|Hf];
    [rewrite bool_decide_true by done|by rewrite bool_decide_false by done].
  cbn [negb]. destruct (e_wgids e (live_entry_wf t i e W Hi)) as [Hc Hl Hn _].
  assert (Elen : length (members (wgid_count e) (wgid e)) = Z.to_nat (wgid_count e)).
  { unfold members. rewrite length_take, Hl. unfold MEMBERS_MAX in *. lia. }
  exists (members (wgid_count e) (wgid e)). split; [done|]. split; [done|].
  destruct (Z.ltb_spec (Z.of_nat MEMBERS_MAX) (wgid_count e)); [lia|]. rewrite Elen, Z2Nat.id by lia.
  destruct out as [o|]; [|done]. cbn. specialize (Hout o eq_refl).
  rewrite copy_loop by (unfold MEMBERS_MAX in *; lia). unfold members. by rewrite take_take, Nat.min_comm.
Qed.

(** the questions asked before traffic is followed are answered from the
    specification's map.  A super group is known clear exactly if it is in
    force (active and not stale) with the policy key zero signalled; a talk
    group is said to be clear only if some group in force that contains it is,
    and it is said whenever all groups in force that contain it are; and the
    members collected are those of the group in force: their number is
    returned, as many as fit are stored at the front of the caller's buffer,
    the rest of which is left alone. *)
Lemma p25_patch_queries t now : table_wf t ->
  (forall sg, 0 < sg -> p25_patch_sg_key_is_clear t sg now =
     match abs t !! (sg mod 2 ^ 16) with
     | Some g => if decide (in_force now g /\ g_key g = Some 0) then 1 else 0
     | None => 0
     end) /\
  (forall tg, 0 < tg ->
     let speaks sg g := abs t !! sg = Some g /\ in_force now g /\ tg mod 2 ^ 16 ∈ g_wgids g in
     (p25_patch_tg_key_is_clear t tg now = 1 -> exists sg g, speaks sg g /\ g_key g = Some 0) /\
     ((exists sg g, speaks sg g) -> (forall sg g, speaks sg g -> g_key g = Some 0) ->
      p25_patch_tg_key_is_clear t tg now = 1)) /\
  (forall sg out cap, valid16 sg -> (forall o, out = Some o -> (cap <= length o)%nat) ->
     match abs t !! sg with
     | Some g =>
         if decide (in_force now g) then
           exists l, NoDup l /\ list_to_set l = g_wgids g /\
             p25_patch_collect_active_wgids t sg now out cap =
               ((fun o => take cap l ++ drop (Nat.min (length l) cap) o) <$> out, Z.of_nat (length l))
         else p25_patch_collect_active_wgids t sg now out cap = (out, 0)
     | None => p25_patch_collect_active_wgids t sg now out cap = (out, 0)
     end).
Proof.
  intros W. assert (HwL : Forall entry_wf (live t)) by (apply Forall_take, W). split; [|split].
  - intros sg Hsg. unfold p25_patch_sg_key_is_clear. destruct (Z.leb_spec sg 0); [lia|].
    rewrite take_full by apply W. apply sg_key_from_spec; [done|apply W].
  - intros tg Htg. cbn zeta. unfold p25_patch_tg_key_is_clear. destruct (Z.leb_spec tg 0); [lia|].
    rewrite take_full by apply W.
    destruct (tg_key_from_spec (entries t) (p25_patch_count t) (u16 tg) now HwL) as [[-> Hno]|(e & He & [Hf Hm] & ->)].
    + split; [done|]. intros (sg & g & Hg & Hf & Hm) _. exfalso.
      apply abs_list_Some in Hg as (e & He & _ & <-); [|apply W]. by eapply Forall_forall in Hno; [apply Hno|].
    + assert (We : entry_wf e) by (by eapply Forall_forall in HwL).
      assert (Ha : abs t !! sgid e = Some (abs_entry e)) by (apply abs_list_Some; [apply W|]; by exists e).
      rewrite key_is_clear_spec by done. split.
      * destruct (decide _); [|done]. intros _. by exists (sgid e), (abs_entry e).
      * intros _ H'. by rewrite decide_True by (by apply (H' (sgid e))).
  - intros sg out cap. by apply collect_spec.
Qed.

Lemma p25_patch_queries_witness :
  let t := runs [AddWgid 9 70 110; AddWgid 9 71 110; SetKas 9 0 0x84 35 112] patch_init in
  table_wf t /\ p25_patch_sg_key_is_clear t 9 120 = 1 /\ p25_patch_tg_key_is_clear t 70 120 = 1 /\
  p25_patch_collect_active_wgids t 9 120 (Some [0; 0; 5]) 3 = (Some [70; 71; 5], 2).
Proof.
  assert (W : table_wf (runs [AddWgid 9 70 110; AddWgid 9 71 110; SetKas 9 0 0x84 35 112] patch_init)).
  { apply runs_refine; [apply init_ok|]. repeat constructor. }
  destruct (p25_patch_queries _ 120 W) as (H & _ & _). split; [done|].
  split; [rewrite H by lia; vm_compute; reflexivity|]. split; vm_compute; reflexivity.
Defined.
