(* ===== verification/Records.v ===== *)
(** * Record updates

    [r <| f := v |>] is [r] with the field [f] set to [v], for a record type
    that has an [Eta] instance: the identity written as its constructor applied
    to its projections.  The update of a field is found by abstracting the
    projection from that term. *)
From S2P Require Import Prelude.

Class Eta (R : Type) := eta : R -> R.

Class Updater {R T : Type} (f : R -> T) := update : (T -> T) -> R -> R.
Arguments update {R T} f {_} _ _ /.

Ltac find_update f :=
  lazymatch type of f with
  | ?R -> ?T =>
      let e := constr:(_ : Eta R) in
      let body := eval hnf in e in
      lazymatch eval pattern f in body with
      | ?h _ => let u := eval cbv beta in (fun (g : T -> T) (x : R) => h (fun y => g (f y)) x) in exact u
      end
  end.

#[export] Hint Extern 0 (Updater ?f) => find_update f : typeclass_instances.

Notation "r <| f := v |>" := (update f (fun _ => v) r)
  (at level 12, f at next level, left associativity, format "r  <| f  :=  v |>") : dsd_scope.

(** Projections of updated records: each equation is checked once, for a
    record that is a variable. *)
Ltac rsimp := repeat match goal with
  | |- context [?f (@update ?R ?T ?f ?U ?v ?r)] =>
      let H := fresh in
      assert (H : forall (u : T -> T) (y : R), f (@update R T f U u y) = u (f y)) by (intros; reflexivity);
      rewrite H; clear H; cbv beta
  | |- context [?f (@update ?R ?T ?g ?U ?v ?r)] =>
      let H := fresh in
      assert (H : forall (u : T -> T) (y : R), f (@update R T g U u y) = f y) by (intros; reflexivity);
      rewrite H; clear H
  end.
