(* ===== verification/SlashText.v ===== *)
(** * Text

    What the C library does with the texts of the runtime's lists: entries
    separated by slashes, decimal numbers.  A text is the list of its
    characters, without the terminator. *)
From S2P Require Import Prelude.

(** ** Numbers *)

(** ["%u"]; for values of at most [fuel] digits. *)
Fixpoint decimal (fuel : nat) (v : Z) : list Z :=
  match fuel with
  | O => []
  | S fuel => (if v <? 10 then [] else decimal fuel (v / 10)) ++ [48 + v mod 10]
  end.

Lemma decimal_length fuel (k : nat) v : 0 <= v < 10 ^ Z.of_nat (S k) -> (length (decimal fuel v) <= S k)%nat.
Proof.
  revert k v. induction fuel as [|fuel IH]; intros k v Hv; cbn [decimal]; [cbn; lia|]. rewrite length_app. cbn [length].
  destruct (Z.ltb_spec v 10); [cbn; lia|]. destruct k as [|k]; [cbn in Hv; lia|].
  assert (H10 : 10 ^ Z.of_nat (S (S k)) = 10 * 10 ^ Z.of_nat (S k)) by (rewrite (Nat2Z.inj_succ (S k)), Z.pow_succ_r; lia).
  specialize (IH k (v / 10)). assert (0 <= v / 10 < 10 ^ Z.of_nat (S k)); [|specialize (IH ltac:(done)); lia].
  rewrite H10 in Hv. split; [apply Z.div_pos; lia|]. apply Z.div_lt_upper_bound; lia.
Qed.

(** ** Entries separated by slashes *)

Definition SLASH : Z := 47.

(** [strcspn(p, "/")]. *)
Fixpoint strcspn (t : list Z) : nat :=
  match t with [] => O | c :: t => if c =? SLASH then O else S (strcspn t) end.

(** Entries separated by slashes. *)
Definition join (es : list (list Z)) : list Z :=
  match es with [] => [] | e :: es => e ++ concat (map (fun e => SLASH :: e) es) end.

Lemma join_snoc es e : es <> [] -> join (es ++ [e]) = join es ++ SLASH :: e.
Proof.
  destruct es as [|e' es]; [done|]. intros _. cbn. rewrite map_app, concat_app. cbn. by rewrite app_nil_r, app_assoc.
Qed.

Lemma strcspn_app e rest : Forall (fun c => c <> SLASH) e -> (rest = [] \/ exists t, rest = SLASH :: t) ->
  strcspn (e ++ rest) = length e.
Proof.
  intros He Hr. induction He as [|c e Hc He IH]; cbn.
  - by destruct Hr as [-> | [t ->]].
  - destruct (Z.eqb_spec c SLASH); [done|]. by rewrite IH.
Qed.

Lemma join_length (es : list (list Z)) : Forall (fun e => e <> []) es -> (length es <= length (join es))%nat.
Proof.
  intros He. destruct He as [|e es Hne' He]; [done|]. cbn. rewrite length_app.
  assert (length es <= length (concat (map (fun e => SLASH :: e) es)))%nat.
  { induction He as [|e' es He' He IH]; [done|]. cbn. rewrite length_app. lia. }
  destruct e; [done|]. cbn. lia.
Qed.

