(* ===== verification/WordSet.v ===== *)
(** * Sets as bits of 64-bit words

    A set of numbers below [64 * n], kept in [n] words of 64 bits, as the
    receive lists and the tone sets are. *)
From S2P Require Import Prelude.

(** [words[v / 64] >> (v % 64) & 1]. *)
Definition word_bit (s : list Z) (v : Z) : bool := Z.testbit (s.[Z.to_nat (v / 64)]) (v mod 64).

(** [words[v / 64] |= UINT64_C(1) << (v % 64)]. *)
Definition word_put (s : list Z) (v : Z) : list Z :=
  s.[Z.to_nat (v / 64) <- Z.lor (s.[Z.to_nat (v / 64)]) (u64 (Z.shiftl 1 (v mod 64)))].

Record words_wf (n : nat) (s : list Z) : Prop := {
  words_len : length s = n;
  words_range : Forall (fun w => 0 <= w < 2 ^ 64) s
}.

Lemma word_range n s i : words_wf n s -> 0 <= s.[i] < 2 ^ 64.
Proof.
  intros W. destruct (decide (i < length s)%nat) as [Hi|Hi]; [|rewrite nth_overflow by lia; lia].
  pose proof (words_range n s W) as H. rewrite nth_lookup. destruct (lookup_lt_is_Some_2 s i Hi) as [w Hw].
  rewrite Hw. cbn. by eapply Forall_lookup_1 in H.
Qed.

Lemma words_ext n s s' : words_wf n s -> words_wf n s' ->
  (forall v, 0 <= v < 64 * Z.of_nat n -> word_bit s v = word_bit s' v) -> s = s'.
Proof.
  intros W W' H. pose proof (words_len n s W) as L. apply list_eq_nth; [by rewrite L, (words_len n s' W')|].
  intros i Hi. apply Z.bits_inj'. intros j Hj. destruct (decide (j < 64)) as [Hj'|Hj'].
  - specialize (H (64 * Z.of_nat i + j) ltac:(lia)). unfold word_bit in H.
    replace ((64 * Z.of_nat i + j) / 64) with (Z.of_nat i) in H by divmod.
    replace ((64 * Z.of_nat i + j) mod 64) with j in H by divmod. by rewrite Nat2Z.id in H.
  - by rewrite !(testbit_ge_pow2 64) by (first [by apply (word_range n) | lia]).
Qed.

Lemma words_zero_wf n : words_wf n (replicate n 0).
Proof. split; [apply length_replicate|]. apply Forall_replicate. lia. Qed.

Lemma word_bit_zero n v : word_bit (replicate n 0) v = false.
Proof. unfold word_bit. by rewrite nth_replicate, Z.testbit_0_l. Qed.

Lemma word_put_wf n s v : words_wf n s -> words_wf n (word_put s v).
Proof.
  intros W. split; [unfold word_put; rewrite length_insert; apply W|]. apply Forall_insert; [apply W|].
  pose proof (word_range n s (Z.to_nat (v / 64)) W) as Hw. unfold u64, wrap.
  pose proof (Z.mod_pos_bound (Z.shiftl 1 (v mod 64)) (2 ^ 64) ltac:(lia)) as Hm.
  set (a := s.[_]) in *. set (b := _ mod _) in *. split; [apply Z.lor_nonneg; lia|].
  apply lt_pow2_testbit; [lia|apply Z.lor_nonneg; lia|]. intros i Hi.
  by rewrite Z.lor_spec, !(testbit_ge_pow2 64) by lia.
Qed.

Lemma word_bit_put n s v w : words_wf n s -> 0 <= v < 64 * Z.of_nat n -> 0 <= w < 64 * Z.of_nat n ->
  word_bit (word_put s v) w = (w =? v) || word_bit s w.
Proof.
  intros W Hv Hw. unfold word_bit, word_put.
  pose proof (Z.mod_pos_bound v 64 ltac:(lia)). pose proof (Z.mod_pos_bound w 64 ltac:(lia)).
  assert (E : u64 (Z.shiftl 1 (v mod 64)) = 2 ^ (v mod 64)).
  { rewrite Z.shiftl_1_l. unfold u64, wrap. apply Z.mod_small. split; [lia|]. apply Z.pow_lt_mono_r; lia. }
  rewrite E, nth_insert, (words_len n s W).
  destruct (decide (_ /\ _)) as [[Hq _]|Hq].
  - assert (Hd : v / 64 = w / 64) by divmod. rewrite Hd, Z.lor_spec, Z.pow2_bits_eqb, orb_comm by lia. f_equal.
    apply Bool.eq_iff_eq_true. rewrite !Z.eqb_eq. divmod.
  - destruct (Z.eqb_spec w v) as [->|Hne]; [|done]. exfalso. apply Hq. split; [done|]. divmod.
Qed.
