(* ===== verification/AnalogTones.v ===== *)
(** * [runtime/analog_tones.c]: CTCSS tones and DCS codes

    The tables of the standard tones and codes and their searches, the DCS
    words and the spellings of their signals.  A DCS word is 23 bits sent over
    and over, so a receiver sees it at any rotation: one signal has several
    spellings (code and polarity), of which one is canonical. *)
From S2P Require Import Prelude.

(** ** Tables *)

Definition DSD_CTCSS_TONE_COUNT : nat := 51.
Definition DSD_DCS_CODE_COUNT : nat := 104.

Definition k_ctcss_tones_tenths : list Z :=
  [670; 693; 719; 744; 770; 797; 825; 854; 885; 915; 948; 974; 1000; 1035; 1072; 1109; 1148;
   1188; 1230; 1273; 1318; 1365; 1413; 1462; 1500; 1514; 1567; 1598; 1622; 1655; 1679; 1713; 1738; 1773;
   1799; 1835; 1862; 1899; 1928; 1966; 1995; 2035; 2065; 2107; 2181; 2257; 2291; 2336; 2418; 2503; 2541].

(** Three octal digits. *)
Definition octal (n : Z) : Z := n / 100 * 64 + n / 10 mod 10 * 8 + n mod 10.

Definition k_dcs_codes : list Z := Eval compute in map octal
  [023; 025; 026; 031; 032; 036; 043; 047; 051; 053; 054; 065; 071; 072; 073; 074; 114; 115;
   116; 122; 125; 131; 132; 134; 143; 145; 152; 155; 156; 162; 165; 172; 174; 205; 212; 223;
   225; 226; 243; 244; 245; 246; 251; 252; 255; 261; 263; 265; 266; 271; 274; 306; 311; 315;
   325; 331; 332; 343; 346; 351; 356; 364; 365; 371; 411; 412; 413; 423; 431; 432; 445; 446;
   452; 454; 455; 462; 464; 465; 466; 503; 506; 516; 523; 526; 532; 546; 565; 606; 612; 624;
   627; 631; 632; 654; 662; 664; 703; 712; 723; 731; 732; 734; 743; 754].

(** [dsd_ctcss_tone_tenths] and [dsd_dcs_code]. *)
Definition table_at (t : list Z) (index : Z) : Z :=
  if (index <? 0) || (Z.of_nat (length t) <=? index) then -1 else t.[Z.to_nat index].

(** The binary search of both tables, between [lo] and [hi]. *)
Fixpoint search_loop (fuel : nat) (t : list Z) (x lo hi : Z) : Z :=
  match fuel with
  | O => -1
  | S fuel =>
      if lo <=? hi then
        let mid := lo + (hi - lo) / 2 in
        let value := t.[Z.to_nat mid] in
        if value =? x then mid
        else if value <? x then search_loop fuel t x (mid + 1) hi
        else search_loop fuel t x lo (mid - 1)
      else -1
  end.

Definition table_index (t : list Z) (x : Z) : Z := search_loop (length t) t x 0 (Z.of_nat (length t) - 1).

Definition dsd_ctcss_tone_tenths : Z -> Z := table_at k_ctcss_tones_tenths.
Definition dsd_ctcss_tone_index : Z -> Z := table_index k_ctcss_tones_tenths.
Definition dsd_dcs_code : Z -> Z := table_at k_dcs_codes.
Definition dsd_dcs_code_index : Z -> Z := table_index k_dcs_codes.

(** ** DCS words *)

Definition DSD_DCS_WORD_BITS : nat := 23.
Definition DSD_DCS_CODE_MAX : Z := 511.
Definition DCS_GOLAY_GENERATOR : Z := 0xC75.
Definition DCS_WORD_MASK : Z := 0x7FFFFF.
Definition DCS_MARKER : Z := 0x800.
Definition DCS_MARKER_FIELD : Z := 0xE00.

(** For [bit] from 22 down to 11. *)
Definition dcs_golay_remainder (a : Z) : Z :=
  for_ 0 12 (fun i a =>
    let bit := 22 - Z.of_nat i in
    if negb (Z.land (Z.shiftr a bit) 1 =? 0) then Z.lxor a (u32 (Z.shiftl DCS_GOLAY_GENERATOR (bit - 11))) else a) a.

(** [~word & DCS_WORD_MASK]. *)
Definition complement (word : Z) : Z := Z.land (Z.lnot word) DCS_WORD_MASK.

Definition dsd_dcs_word (code inverted : Z) : Z :=
  if (code <? 0) || (DSD_DCS_CODE_MAX <? code) then 0
  else
    let data := Z.lor code DCS_MARKER in
    let word := Z.lor data (u32 (Z.shiftl (dcs_golay_remainder (u32 (Z.shiftl data 11))) 12)) in
    if negb (inverted =? 0) then complement word else word.

Definition dcs_rotate_right (word : Z) (k : nat) : Z :=
  if (k =? 0)%nat then word
  else Z.land (Z.lor (Z.shiftr word (Z.of_nat k)) (u32 (Z.shiftl word (23 - Z.of_nat k)))) DCS_WORD_MASK.

(** The supported code whose word it is, or -1. *)
Definition dcs_supported_code_of (word : Z) : Z :=
  if negb (Z.land word DCS_MARKER_FIELD =? DCS_MARKER) then -1
  else
    let code := Z.land word 0x1FF in
    if (dsd_dcs_code_index code <? 0) || negb (dsd_dcs_word code 0 =? word) then -1 else code.

(** Normal polarity first, then the lowest code; (-1, 1) before the first. *)
Definition match_better (inv found : Z) (best : Z * Z) : Z * Z :=
  let '(best_code, best_inverted) := best in
  if found <? 0 then best
  else if (best_code <? 0) || (inv <? best_inverted) || ((inv =? best_inverted) && (found <? best_code))
  then (found, inv) else best.

Definition match_step (window : Z) (k : nat) (best : Z * Z) : Z * Z :=
  let rotated := dcs_rotate_right window k in
  for_ 0 2 (fun inv best =>
    match_better (Z.of_nat inv) (dcs_supported_code_of (if (inv =? 0)%nat then rotated else complement rotated)) best) best.

(** The code and the polarity. *)
Definition dsd_dcs_match (window : Z) : option (Z * Z) :=
  let window := Z.land window DCS_WORD_MASK in
  let best := for_ 0 DSD_DCS_WORD_BITS (match_step window) (-1, 1) in
  if fst best <? 0 then None else Some best.

Definition dsd_dcs_canonical (code inverted : Z) : option (Z * Z) :=
  let word := dsd_dcs_word code inverted in
  if word =? 0 then None else dsd_dcs_match word.

Definition flip (inverted : Z) : Z := if negb (inverted =? 0) then 0 else 1.

Definition dsd_dcs_alias (code inverted : Z) : option (Z * Z) :=
  match dsd_dcs_canonical code inverted with
  | None => None
  | Some (canon_code, canon_inverted) =>
      match dsd_dcs_canonical canon_code (flip canon_inverted) with
      | None => None
      | Some (other_code, other_inverted) =>
          let other_inverted := flip other_inverted in
          if (other_code =? canon_code) && (other_inverted =? canon_inverted) then None
          else Some (other_code, other_inverted)
      end
  end.

(** ** The searches *)

Definition ascending (t : list Z) : Prop := forall i j, (i < j < length t)%nat -> t.[i] < t.[j].

Lemma search_loop_spec fuel t x lo hi : ascending t -> (Z.to_nat (hi - lo + 1) <= fuel)%nat -> 0 <= lo -> hi < Z.of_nat (length t) ->
  let i := search_loop fuel t x lo hi in
  (lo <= i <= hi /\ t.[Z.to_nat i] = x) \/ (i = -1 /\ forall j, lo <= j <= hi -> t.[Z.to_nat j] <> x).
Proof.
  intros Ht. revert lo hi. induction fuel as [|fuel IH]; intros lo hi Hf Hlo Hhi; cbn [search_loop].
  { right. split; [done|]. intros; lia. }
  destruct (Z.leb_spec lo hi) as [Hle|]; [|right; split; [done|intros; lia]].
  set (mid := lo + (hi - lo) / 2). assert (Hm : lo <= mid <= hi) by (unfold mid; divmod).
  assert (Hmid : forall j, 0 <= j < Z.of_nat (length t) -> (j < mid -> t.[Z.to_nat j] < t.[Z.to_nat mid]) /\
    (mid < j -> t.[Z.to_nat mid] < t.[Z.to_nat j])).
  { intros j Hj. split; intros Hjm; apply Ht; lia. }
  destruct (Z.eqb_spec (t.[Z.to_nat mid]) x) as [|Hne]; [by left|].
  destruct (Z.ltb_spec (t.[Z.to_nat mid]) x) as [Hlt|Hge].
  - destruct (IH (mid + 1) hi ltac:(lia) ltac:(lia) ltac:(lia)) as [[? ?]|[? Hno]]; [left; split; [lia|done]|].
    right. split; [done|]. intros j Hj. destruct (decide (mid < j)); [apply Hno; lia|].
    specialize (Hmid j ltac:(lia)). destruct (decide (j = mid)) as [->|]; [done|]. lia.
  - destruct (IH lo (mid - 1) ltac:(lia) ltac:(lia) ltac:(lia)) as [[? ?]|[? Hno]]; [left; split; [lia|done]|].
    right. split; [done|]. intros j Hj. destruct (decide (j < mid)); [apply Hno; lia|].
    specialize (Hmid j ltac:(lia)). destruct (decide (j = mid)) as [->|]; [done|]. lia.
Qed.

Lemma table_index_cases t x : ascending t ->
  (0 <= table_index t x < Z.of_nat (length t) /\ t.[Z.to_nat (table_index t x)] = x) \/
  (table_index t x = -1 /\ forall j, 0 <= j < Z.of_nat (length t) -> t.[Z.to_nat j] <> x).
Proof.
  intros Ht. unfold table_index.
  destruct (search_loop_spec (length t) t x 0 (Z.of_nat (length t) - 1) Ht ltac:(lia) ltac:(lia) ltac:(lia)) as [[H1 H2]|[H1 H2]].
  - left. split; [lia|done].
  - right. split; [done|]. intros j Hj. apply H2. lia.
Qed.

Lemma table_index_at t i : ascending t -> 0 <= i < Z.of_nat (length t) -> table_index t (t.[Z.to_nat i]) = i.
Proof.
  intros Ht Hi. destruct (table_index_cases t (t.[Z.to_nat i]) Ht) as [[H1 H2]|[_ H2]]; [|by destruct (H2 i)].
  set (k := table_index t _) in *. destruct (Z.lt_trichotomy k i) as [H|[H|H]]; [|done|].
  - pose proof (Ht (Z.to_nat k) (Z.to_nat i) ltac:(lia)). lia.
  - pose proof (Ht (Z.to_nat i) (Z.to_nat k) ltac:(lia)). lia.
Qed.

(** Ascending, checked on neighbours. *)
Fixpoint ascending_from (x : Z) (t : list Z) : bool :=
  match t with [] => true | y :: t => (x <? y) && ascending_from y t end.

Lemma ascending_from_nth x t : ascending_from x t = true -> forall j, (j < length t)%nat -> x < t.[j].
Proof.
  revert x. induction t as [|y t IH]; intros x H j Hj; cbn in *; [lia|].
  apply andb_true_iff in H as [H1 H2]. apply Z.ltb_lt in H1. destruct j as [|j]; [done|].
  specialize (IH y H2 j ltac:(lia)). lia.
Qed.

Lemma ascending_check x t : ascending_from x t = true -> ascending t.
Proof.
  revert x. induction t as [|y t IH]; intros x H i j Hij; cbn in *; [lia|].
  apply andb_true_iff in H as [_ H]. destruct j as [|j]; [lia|]. destruct i as [|i].
  - apply (ascending_from_nth y t H). lia.
  - apply (IH y H). lia.
Qed.

Lemma ctcss_ascending : ascending k_ctcss_tones_tenths.
Proof. by apply (ascending_check 0). Qed.
Lemma dcs_ascending : ascending k_dcs_codes.
Proof. by apply (ascending_check 0). Qed.

(** The binary searches end with the right answer on every argument: the
    index of a standard tone or code is the position where the table has it,
    and anything else is answered -1, by as many rounds as the table has rows
    at the most. *)
Lemma standard_index (x i : Z) :
  (dsd_ctcss_tone_index x = i <->
     (0 <= i < 51 /\ dsd_ctcss_tone_tenths i = x) \/ (i = -1 /\ x ∉ k_ctcss_tones_tenths)) /\
  (dsd_dcs_code_index x = i <->
     (0 <= i < 104 /\ dsd_dcs_code i = x) \/ (i = -1 /\ x ∉ k_dcs_codes)).
Proof.
  assert (H : forall t n, ascending t -> n = Z.of_nat (length t) ->
    (table_index t x = i <-> (0 <= i < n /\ table_at t i = x) \/ (i = -1 /\ x ∉ t))).
  { intros t n Ht ->. assert (Hat : forall k, 0 <= k < Z.of_nat (length t) -> table_at t k = t.[Z.to_nat k]).
    { intros k Hk. unfold table_at. destruct (Z.ltb_spec k 0), (Z.leb_spec (Z.of_nat (length t)) k); cbn [orb]; lia. }
    assert (Hin : x ∈ t <-> exists k, 0 <= k < Z.of_nat (length t) /\ t.[Z.to_nat k] = x).
    { rewrite list_elem_of_In. split.
      - intros (k & Hk & <-)%(In_nth _ _ 0). exists (Z.of_nat k). rewrite Nat2Z.id. split; [lia|done].
      - intros (k & Hk & <-). apply nth_In. lia. }
    split.
    - intros <-. destruct (table_index_cases t x Ht) as [[H1 H2]|[H1 H2]].
      + left. split; [done|]. by rewrite Hat.
      + right. split; [done|]. rewrite Hin. intros (k & Hk & E). by apply (H2 k).
    - intros [[Hi E]|[-> Hn]].
      + rewrite Hat in E by done. rewrite <- E. by apply table_index_at.
      + destruct (table_index_cases t x Ht) as [[H1 H2]|[H1 _]]; [|done]. destruct Hn. apply Hin. eauto. }
  split; apply H; first [apply ctcss_ascending|apply dcs_ascending|reflexivity].
Qed.

(** ** Rotations *)

Notation in_word x := (0 <= x < 2 ^ 23).

Lemma mask_word x : Z.land x DCS_WORD_MASK = x mod 2 ^ 23.
Proof. change DCS_WORD_MASK with (Z.ones 23). by rewrite Z.land_ones by lia. Qed.

Lemma mask_range x : in_word (Z.land x DCS_WORD_MASK).
Proof. rewrite mask_word. apply Z.mod_pos_bound. lia. Qed.

Lemma mask_id x : in_word x -> Z.land x DCS_WORD_MASK = x.
Proof. intros Hx. rewrite mask_word. by apply Z.mod_small. Qed.

Lemma word_ext x y : in_word x -> in_word y -> (forall n, 0 <= n < 23 -> Z.testbit x n = Z.testbit y n) -> x = y.
Proof.
  intros Hx Hy H. apply Z.bits_inj'. intros n Hn. destruct (decide (n < 23)); [by apply H|].
  by rewrite !(testbit_ge_pow2 23) by lia.
Qed.

Lemma testbit_mask x n : 0 <= n < 23 -> Z.testbit (Z.land x DCS_WORD_MASK) n = Z.testbit x n.
Proof. intros Hn. rewrite mask_word. apply Z.mod_pow2_bits_low. lia. Qed.

Lemma rotate_range x k : in_word x -> in_word (dcs_rotate_right x k).
Proof. intros Hx. unfold dcs_rotate_right. destruct (k =? 0)%nat; [done|apply mask_range]. Qed.

Lemma testbit_rotate x k n : in_word x -> (k < 23)%nat -> 0 <= n < 23 ->
  Z.testbit (dcs_rotate_right x k) n = Z.testbit x ((n + Z.of_nat k) mod 23).
Proof.
  intros Hx Hk Hn. unfold dcs_rotate_right. destruct (Nat.eqb_spec k 0) as [->|Hk0].
  { by rewrite Z.add_0_r, Z.mod_small. }
  rewrite testbit_mask, Z.lor_spec, Z.shiftr_spec by lia. unfold u32, wrap. rewrite Z.mod_pow2_bits_low by lia.
  rewrite Z.shiftl_spec by lia. destruct (decide (n + Z.of_nat k < 23)) as [Hl|Hl].
  - rewrite Z.mod_small by lia. rewrite (Z.testbit_neg_r x (n - _)) by lia. by rewrite orb_false_r.
  - rewrite (testbit_ge_pow2 23 x (n + _)) by lia. cbn [orb]. f_equal. divmod.
Qed.

Lemma rotate_rotate x j k : in_word x -> (j < 23)%nat -> (k < 23)%nat ->
  dcs_rotate_right (dcs_rotate_right x j) k = dcs_rotate_right x ((j + k) mod 23).
Proof.
  intros Hx Hj Hk. assert (Hm : ((j + k) mod 23 < 23)%nat) by (apply Nat.mod_upper_bound; lia).
  apply word_ext; [by do 2 apply rotate_range|by apply rotate_range|].
  intros n Hn. pose proof (Z.mod_pos_bound (n + Z.of_nat k) 23 ltac:(lia)).
  rewrite !testbit_rotate by (first [done | by apply rotate_range]).
  f_equal. rewrite Nat2Z.inj_mod, Nat2Z.inj_add. change (Z.of_nat 23) with 23. divmod.
Qed.

Lemma complement_range x : in_word (complement x).
Proof. apply mask_range. Qed.

Lemma testbit_complement x n : 0 <= n < 23 -> Z.testbit (complement x) n = negb (Z.testbit x n).
Proof. intros Hn. unfold complement. rewrite testbit_mask by done. apply Z.lnot_spec. lia. Qed.

Lemma complement_complement x : in_word x -> complement (complement x) = x.
Proof.
  intros Hx. apply word_ext; [apply complement_range|done|]. intros n Hn. rewrite !testbit_complement by done. apply negb_involutive.
Qed.

(** [y] is what [x] looks like at another alignment. *)
Definition rotation (x y : Z) : Prop := exists k, (k < 23)%nat /\ dcs_rotate_right x k = y.

Lemma rotate_0 x : dcs_rotate_right x 0 = x.
Proof. done. Qed.

Lemma rotation_refl x : rotation x x.
Proof. exists 0%nat. split; [lia|done]. Qed.

Lemma rotation_trans x y z : in_word x -> rotation x y -> rotation y z -> rotation x z.
Proof.
  intros Hx (j & Hj & <-) (k & Hk & <-). exists ((j + k) mod 23)%nat. rewrite rotate_rotate by done.
  split; [|done]. apply Nat.mod_upper_bound. lia.
Qed.

Lemma rotation_sym x y : in_word x -> rotation x y -> rotation y x.
Proof.
  intros Hx (j & Hj & <-). exists ((23 - j) mod 23)%nat. split; [apply Nat.mod_upper_bound; lia|].
  rewrite rotate_rotate by (done || apply Nat.mod_upper_bound; lia).
  replace ((j + (23 - j) mod 23) mod 23)%nat with 0%nat; [done|].
  destruct (decide (j = 0%nat)) as [->|]; [done|]. rewrite (Nat.mod_small (23 - j)) by lia. by replace (j + (23 - j))%nat with 23%nat by lia.
Qed.

Lemma rotation_complement x y : in_word x -> rotation x y -> rotation (complement x) (complement y).
Proof.
  intros Hx (k & Hk & <-). exists k. split; [done|].
  apply word_ext; [apply rotate_range, complement_range|apply complement_range|]. intros n Hn.
  rewrite testbit_rotate by (done || apply complement_range). rewrite !testbit_complement by (done || (apply Z.mod_pos_bound; lia)).
  by rewrite testbit_rotate.
Qed.

(** ** The match *)

(** A spelling: a standard code and a polarity; it is of [x] when its word is
    [x] at some alignment. *)
Definition standard (s : Z * Z) : Prop := s.1 ∈ k_dcs_codes /\ (s.2 = 0 \/ s.2 = 1).
Definition word_of (s : Z * Z) : Z := dsd_dcs_word s.1 s.2.
Definition spells (x : Z) (s : Z * Z) : Prop := standard s /\ rotation x (word_of s).

(** Normal polarity first, then the lower code. *)
Definition before (s s' : Z * Z) : Prop := s.2 < s'.2 \/ (s.2 = s'.2 /\ s.1 <= s'.1).

Lemma dcs_codes_range c : c ∈ k_dcs_codes -> 0 <= c <= 511.
Proof.
  intros Hc. assert (H : Forall (fun c => 0 <= c <= 511) k_dcs_codes); [by_decide|]. by eapply Forall_forall in H.
Qed.

Lemma dcs_word_range c i : in_word (dsd_dcs_word c i).
Proof.
  destruct (decide (0 <= c <= 511)) as [Hc|Hc].
  - destruct (Z.eqb_spec i 0) as [->|Hi].
    + assert (H : Forall (fun c => in_word (dsd_dcs_word c 0)) (map Z.of_nat (seq 0 512))); [by_decide|].
      eapply Forall_forall in H; [exact H|]. apply list_elem_of_In, in_map_iff. exists (Z.to_nat c).
      split; [lia|]. apply in_seq. lia.
    + unfold dsd_dcs_word. rewrite (proj2 (Z.eqb_neq i 0) Hi). destruct (_ || _); [lia|apply complement_range].
  - unfold dsd_dcs_word, DSD_DCS_CODE_MAX. destruct (Z.ltb_spec c 0), (Z.ltb_spec 511 c); cbn [orb]; lia.
Qed.

Lemma word_inverted c : 0 <= c <= 511 -> dsd_dcs_word c 1 = complement (dsd_dcs_word c 0).
Proof.
  intros Hc. unfold dsd_dcs_word. destruct ((c <? 0) || _) eqn:Ec; [|done].
  apply orb_true_iff in Ec as [E%Z.ltb_lt|E%Z.ltb_lt]; unfold DSD_DCS_CODE_MAX in *; lia.
Qed.

(** A word carries its marker and its code. *)
Lemma word_fields c : c ∈ k_dcs_codes -> Z.land (dsd_dcs_word c 0) DCS_MARKER_FIELD = DCS_MARKER /\ Z.land (dsd_dcs_word c 0) 0x1FF = c.
Proof.
  intros Hc. assert (H : Forall (fun c => Z.land (dsd_dcs_word c 0) DCS_MARKER_FIELD = DCS_MARKER /\
    Z.land (dsd_dcs_word c 0) 0x1FF = c) k_dcs_codes); [by_decide|]. by eapply Forall_forall in H.
Qed.

Lemma code_index_in c : 0 <= dsd_dcs_code_index c <-> c ∈ k_dcs_codes.
Proof.
  unfold dsd_dcs_code_index. destruct (table_index_cases k_dcs_codes c dcs_ascending) as [[H1 H2]|[H1 H2]].
  - split; [|lia]. intros _. rewrite <- H2. apply list_elem_of_In, nth_In. lia.
  - rewrite H1. split; [lia|]. intros Hc. apply list_elem_of_In, (In_nth _ _ 0) in Hc as (j & Hj & E).
    destruct (H2 (Z.of_nat j)); [lia|by rewrite Nat2Z.id].
Qed.

Lemma code_at_index c : c ∈ k_dcs_codes -> k_dcs_codes.[Z.to_nat (dsd_dcs_code_index c)] = c.
Proof.
  intros Hc. apply code_index_in in Hc. revert Hc. unfold dsd_dcs_code_index.
  destruct (table_index_cases k_dcs_codes c dcs_ascending) as [[_ H2]|[H1 _]]; intros Hc; [exact H2|lia].
Qed.

(** The check of a word against the code it names. *)
Lemma supported_spec x : let c := dcs_supported_code_of x in
  (c ∈ k_dcs_codes /\ x = dsd_dcs_word c 0) \/ (c = -1 /\ forall c', c' ∈ k_dcs_codes -> x <> dsd_dcs_word c' 0).
Proof.
  cbv zeta. unfold dcs_supported_code_of. destruct (Z.eqb_spec (Z.land x DCS_MARKER_FIELD) DCS_MARKER) as [Hm|Hm]; cbn [negb].
  2: { right. split; [reflexivity|]. intros c' Hc' E. rewrite E in Hm. by destruct (word_fields c' Hc'). }
  assert (Hu : forall c', c' ∈ k_dcs_codes -> x = dsd_dcs_word c' 0 -> Z.land x 0x1FF = c').
  { intros c' Hc' E. rewrite E. by apply word_fields. }
  generalize dependent (Z.land x 0x1FF). intros c Hu. destruct (Z.ltb_spec (dsd_dcs_code_index c) 0) as [Hl|Hl]; cbn [orb].
  { right. split; [reflexivity|]. intros c' Hc' Hx. rewrite <- (Hu c' Hc' Hx) in Hc'. apply code_index_in in Hc'. lia. }
  apply code_index_in in Hl.
  destruct (Z.eqb_spec (dsd_dcs_word c 0) x) as [E|E]; cbn [negb]; [left; split; [assumption|symmetry; assumption]|].
  right. split; [reflexivity|]. intros c' Hc' Hx. apply E. rewrite (Hu c' Hc' Hx). by symmetry.
Qed.

(** What the search holds after the candidates in [D]. *)
Definition best_of (w : Z) (D : nat -> Z -> Prop) (best : Z * Z) : Prop :=
  (best = (-1, 1) /\ forall k i c, D k i -> c ∈ k_dcs_codes -> dcs_rotate_right w k <> word_of (c, i)) \/
  (standard best /\ (exists k, D k best.2 /\ dcs_rotate_right w k = word_of best) /\
   forall k i c, D k i -> c ∈ k_dcs_codes -> dcs_rotate_right w k = word_of (c, i) -> before best (c, i)).

Lemma best_step w D k i best : in_word w -> i = 0 \/ i = 1 -> best_of w D best ->
  best_of w (fun k' i' => D k' i' \/ (k' = k /\ i' = i))
    (match_better i (dcs_supported_code_of (if i =? 0 then dcs_rotate_right w k else complement (dcs_rotate_right w k))) best).
Proof.
  intros Hw Hi Hb. set (r := dcs_rotate_right w k). assert (Hr : in_word r) by (by apply rotate_range).
  assert (Hx : forall c, c ∈ k_dcs_codes -> (if i =? 0 then r else complement r) = dsd_dcs_word c 0 <-> r = word_of (c, i)).
  { intros c Hc. unfold word_of. cbn [fst snd]. destruct Hi as [-> | ->]; cbn [Z.eqb]; [done|].
    rewrite (word_inverted c) by (by apply dcs_codes_range). split; intros E.
    - by rewrite <- E, complement_complement.
    - rewrite E. apply complement_complement, dcs_word_range. }
  destruct (supported_spec (if i =? 0 then r else complement r)) as [[Hf E]|[Hf Hno]];
    generalize dependent (dcs_supported_code_of (if i =? 0 then r else complement r)); intros f Hf.
  - intros E. assert (Eu : forall c, c ∈ k_dcs_codes -> r = word_of (c, i) -> c = f).
    { intros c Hc Ec. apply (Hx c Hc) in Ec. rewrite E in Ec. destruct (word_fields f Hf) as [_ <-], (word_fields c Hc) as [_ <-]. by rewrite Ec. }
    apply (Hx f Hf) in E. pose proof (dcs_codes_range f Hf). unfold match_better. destruct best as [bc bi].
    destruct (Z.ltb_spec f 0); [lia|].
    assert (Hnew : forall (P : forall k' i' c, D k' i' -> c ∈ k_dcs_codes -> dcs_rotate_right w k' = word_of (c, i') -> before (f, i) (c, i')),
      best_of w (fun k' i' => D k' i' \/ (k' = k /\ i' = i)) (f, i)).
    { intros P. right. split; [by split|]. split; [exists k; cbn [snd]; split; [by right|done]|].
      intros k' i' c [HD|[-> ->]] Hc Ec; [by apply (P k')|]. rewrite (Eu c Hc Ec). right. cbn. lia. }
    destruct Hb as [[[= -> ->] Hno]|((Hbs1 & Hbs2) & (k0 & Hk0 & E0) & Hmin)].
    + cbn [Z.ltb orb]. apply Hnew. intros k' i' c HD Hc Ec. by destruct (Hno k' i' c HD Hc).
    + cbn [fst snd] in *. pose proof (dcs_codes_range bc Hbs1). destruct (Z.ltb_spec bc 0); [lia|]. cbn [orb].
      destruct ((i <? bi) || ((i =? bi) && (f <? bc))) eqn:Ebest.
      * apply Hnew. intros k' i' c HD Hc Ec. specialize (Hmin k' i' c HD Hc Ec).
        apply orb_true_iff in Ebest. rewrite andb_true_iff, !Z.ltb_lt, Z.eqb_eq in Ebest. unfold before in *. cbn [fst snd] in *. lia.
      * right. split; [by split|]. split; [exists k0; split; [by left|done]|].
        intros k' i' c [HD|[-> ->]] Hc Ec; [by apply (Hmin k')|]. rewrite (Eu c Hc Ec).
        apply orb_false_iff in Ebest as [B1 B2]. apply Z.ltb_ge in B1. unfold before. cbn [fst snd].
        destruct (Z.eqb_spec i bi); cbn [andb] in B2; [apply Z.ltb_ge in B2; lia|lia].
  - subst f. unfold match_better. destruct best as [bc bi]. cbn [Z.ltb].
    assert (Hno' : forall c, c ∈ k_dcs_codes -> r <> word_of (c, i)).
    { intros c Hc E. apply (Hx c Hc) in E. by apply (Hno c Hc). }
    destruct Hb as [[-> Hb]|(H1 & (k0 & Hk0 & E0) & Hmin)].
    + left. split; [done|]. intros k' i' c [HD|[-> ->]] Hc; [by apply Hb|by apply Hno'].
    + right. split; [done|]. split; [exists k0; split; [by left|done]|].
      intros k' i' c [HD|[-> ->]] Hc Ec; [by apply (Hmin k')|by destruct (Hno' c Hc)].
Qed.

Lemma match_loop w n : in_word w -> best_of w (fun k i => (k < n)%nat /\ (i = 0 \/ i = 1)) (for_ 0 n (match_step w) (-1, 1)).
Proof.
  intros Hw. induction n as [|n IH]; [left; split; [done|]; intros; lia|]. rewrite for_S by lia. unfold match_step at 1.
  set (b := for_ 0 n (match_step w) (-1, 1)) in *. clearbody b.
  change (for_ 0 2 ?f b) with (f 1%nat (f 0%nat b)). cbv beta. change (Z.of_nat 0) with 0. change (Z.of_nat 1) with 1.
  pose proof (best_step w _ n 1 _ Hw (or_intror eq_refl) (best_step w _ n 0 b Hw (or_introl eq_refl) IH)) as H.
  cbn [Z.eqb Nat.eqb] in H |- *. destruct H as [[H1 H2]|(H1 & (k & Hk & H2) & H3)].
  - left. split; [done|]. intros k i c Hk. apply H2. destruct (decide (k = n)) as [->|]; [naive_solver|]. left. left. split; [lia|naive_solver].
  - right. split; [done|]. split.
    + exists k. split; [|done]. destruct Hk as [[[? ?]|[-> ?]]|[-> ?]]; (split; [lia|auto]).
    + intros k' i c Hk'. apply H3. destruct (decide (k' = n)) as [->|]; [naive_solver|]. left. left. split; [lia|naive_solver].
Qed.

Lemma match_cases x : let w := Z.land x DCS_WORD_MASK in
  match dsd_dcs_match x with
  | Some s => spells w s /\ forall s', spells w s' -> before s s'
  | None => forall s, ~ spells w s
  end.
Proof.
  cbv zeta. unfold dsd_dcs_match. pose proof (match_loop (Z.land x DCS_WORD_MASK) DSD_DCS_WORD_BITS (mask_range x)) as H.
  set (w := Z.land x DCS_WORD_MASK) in *. set (b := for_ 0 DSD_DCS_WORD_BITS (match_step w) (-1, 1)) in *. clearbody b w.
  destruct H as [[-> H]|(H1 & (k & [Hk Hb] & H2) & H3)].
  - cbn [fst Z.ltb]. intros [c i] [[Hc Hi] (k & Hk & E)]. by apply (H k i c).
  - pose proof (dcs_codes_range b.1 (proj1 H1)). destruct (Z.ltb_spec b.1 0); [lia|]. split; [split; [done|by exists k]|].
    intros [c i] [[Hc Hi] (k' & Hk' & E)]. by apply (H3 k' i c).
Qed.

Lemma before_antisym s s' : before s s' -> before s' s -> s = s'.
Proof. destruct s, s'. unfold before. cbn [fst snd]. intros H1 H2. f_equal; lia. Qed.

Lemma spells_rotation x y s : in_word x -> rotation x y -> spells y s -> spells x s.
Proof. intros Hx Hr [Hs H]. split; [done|]. by apply (rotation_trans x y). Qed.

Lemma match_unique x y : (forall s, spells (Z.land x DCS_WORD_MASK) s <-> spells (Z.land y DCS_WORD_MASK) s) ->
  dsd_dcs_match x = dsd_dcs_match y.
Proof.
  intros H. pose proof (match_cases x) as Hx. pose proof (match_cases y) as Hy. cbv zeta in *.
  destruct (dsd_dcs_match x) as [s|], (dsd_dcs_match y) as [s'|]; try done.
  - destruct Hx as [H1 H2], Hy as [H3 H4]. f_equal. apply before_antisym; [by apply H2, H|by apply H4, H].
  - destruct Hx as [H1 _]. destruct (Hy s). by apply H.
  - destruct Hy as [H1 _]. destruct (Hx s'). by apply H.
Qed.

(** The DCS match finds the signal at any alignment.  On any window it
    returns the canonical spelling of the signal its low 23 bits carry: of the
    standard codes and polarities whose word is the window at some rotation,
    the first with normal polarity before inverted and lower codes first; it
    finds none exactly when there is none; and two windows that are rotations
    of each other give the same answer. *)
Lemma dcs_match_spec (x : Z) :
  let w := Z.land x DCS_WORD_MASK in
  (forall s, dsd_dcs_match x = Some s <-> spells w s /\ forall s', spells w s' -> before s s') /\
  (dsd_dcs_match x = None <-> forall s, ~ spells w s) /\
  (forall y, rotation w (Z.land y DCS_WORD_MASK) -> dsd_dcs_match y = dsd_dcs_match x).
Proof.
  intros w. pose proof (match_cases x) as H. cbv zeta in H. fold w in H. split; [|split].
  - intros s. destruct (dsd_dcs_match x) as [s0|].
    + destruct H as [H1 H2]. split; [by intros [= <-]|]. intros [H3 H4]. f_equal. apply before_antisym; auto.
    + split; [done|]. intros [H1 _]. by destruct (H s).
  - destruct (dsd_dcs_match x) as [s0|]; [|done]. split; [done|]. intros Hn. by destruct (Hn s0), H.
  - intros y Hr. symmetry. apply match_unique. fold w. intros s. split; apply spells_rotation; [apply mask_range| |apply mask_range|done].
    apply rotation_sym; [apply mask_range|done].
Qed.

(** *** Spellings *)

(** The canonical spellings of the standard codes, both polarities. *)
Lemma canonical_table : Forall (fun c => dsd_dcs_canonical c 0 = Some (c, 0) /\
  snd <$> dsd_dcs_canonical c 1 = Some 0) k_dcs_codes.
Proof. by_decide. Qed.

Lemma canonical_normal c : c ∈ k_dcs_codes -> dsd_dcs_canonical c 0 = Some (c, 0).
Proof. intros Hc. pose proof canonical_table as H. eapply Forall_forall in H; [|done]. apply H. Qed.

Lemma canonical_standard s : standard s -> dsd_dcs_canonical s.1 s.2 = dsd_dcs_match (word_of s) /\
  exists n, dsd_dcs_canonical s.1 s.2 = Some (n, 0) /\ n ∈ k_dcs_codes /\ rotation (word_of s) (word_of (n, 0)).
Proof.
  intros [Hc Hi]. assert (He : exists n, dsd_dcs_canonical s.1 s.2 = Some (n, 0)).
  { destruct Hi as [-> | ->]; [eexists; by apply canonical_normal|]. pose proof canonical_table as H.
    eapply Forall_forall in H; [|done]. destruct H as [_ H]. destruct (dsd_dcs_canonical s.1 1) as [[n i]|]; [|done].
    injection H as ->. by eexists. }
  assert (Hm : dsd_dcs_canonical s.1 s.2 = dsd_dcs_match (word_of s)).
  { destruct He as [n He]. unfold dsd_dcs_canonical, word_of in *. by destruct (_ =? 0). }
  split; [done|]. destruct He as [n He]. exists n. split; [done|]. rewrite Hm in He. pose proof (match_cases (word_of s)) as H.
  rewrite He in H. cbv zeta in H. rewrite mask_id in H by apply dcs_word_range. destruct H as [[[H1 _] H2] _]. done.
Qed.

(** Rotations of each other are one signal. *)
Lemma canonical_rotation s s' : standard s -> standard s' ->
  rotation (word_of s) (word_of s') <-> dsd_dcs_canonical s.1 s.2 = dsd_dcs_canonical s'.1 s'.2.
Proof.
  intros Hs Hs'. destruct (canonical_standard s Hs) as (E & n & En & _ & Hn), (canonical_standard s' Hs') as (E' & n' & En' & _ & Hn').
  split.
  - intros Hr. rewrite E, E'. apply match_unique. intros t. rewrite !mask_id by apply dcs_word_range.
    split; apply spells_rotation; [apply dcs_word_range|apply rotation_sym; [apply dcs_word_range|done]|apply dcs_word_range|done].
  - intros Ec. rewrite En, En' in Ec. injection Ec as <-. apply (rotation_trans _ (word_of (n, 0))); [apply dcs_word_range|done|].
    apply rotation_sym; [apply dcs_word_range|done].
Qed.

Lemma canonical_inverted c d : c ∈ k_dcs_codes -> d ∈ k_dcs_codes -> dsd_dcs_canonical c 1 = Some (d, 0) -> dsd_dcs_canonical d 1 = Some (c, 0).
Proof.
  intros Hc Hd H. assert (Hs1 : standard (c, 1)) by (split; [done|by right]). assert (Hs0 : standard (c, 0)) by (split; [done|by left]).
  assert (Hd1 : standard (d, 1)) by (split; [done|by right]).
  destruct (canonical_standard (c, 1) Hs1) as (_ & n & En & _ & Hr). cbn [fst snd] in En. rewrite H in En. injection En as <-.
  assert (Hr2 : rotation (word_of (d, 1)) (word_of (c, 0))).
  { apply rotation_sym; [apply dcs_word_range|]. apply (rotation_complement _ _ (dcs_word_range _ _)) in Hr. unfold word_of in *. cbn [fst snd] in *.
    rewrite (word_inverted c), complement_complement in Hr by (apply dcs_word_range || by apply dcs_codes_range).
    by rewrite <- (word_inverted d) in Hr by (by apply dcs_codes_range). }
  apply (canonical_rotation (d, 1) (c, 0)) in Hr2; [|done..]. cbn [fst snd] in Hr2. rewrite Hr2. by apply canonical_normal.
Qed.

(** Every standard DCS signal has exactly two standard spellings, one in
    each polarity.  The canonical one is the normal spelling, the alias the
    inverted one; both are the same for every spelling of the signal; and two
    standard spellings name the same signal exactly when their words are
    rotations of each other. *)
Lemma dcs_two_spellings (s : Z * Z) :
  standard s ->
  exists n v, dsd_dcs_canonical s.1 s.2 = Some (n, 0) /\ dsd_dcs_alias s.1 s.2 = Some (v, 1) /\
    standard (n, 0) /\ standard (v, 1) /\
    forall s', standard s' -> (rotation (word_of s) (word_of s') <-> s' = (n, 0) \/ s' = (v, 1)).
Proof.
  intros Hs. destruct (canonical_standard s Hs) as (_ & n & En & Hn & _). exists n.
  assert (Hn1 : standard (n, 1)) by (split; [done|by right]).
  destruct (canonical_standard (n, 1) Hn1) as (_ & v & Ev & Hv & _). cbn [fst snd] in Ev. exists v. split; [done|].
  split. { unfold dsd_dcs_alias. rewrite En. cbn [flip Z.eqb negb]. change (flip 0) with 1. rewrite Ev. change (flip 0) with 1.
    cbn [Z.eqb]. by rewrite andb_false_r. }
  split; [split; [done|by left]|]. split; [split; [done|by right]|]. intros [c i] Hs'.
  rewrite (canonical_rotation s (c, i) Hs Hs'), En. cbn [fst snd]. destruct Hs' as [Hc Hi]. cbn [fst snd] in *. split.
  - destruct Hi as [-> | ->].
    + rewrite (canonical_normal c Hc). intros [= ->]. by left.
    + intros E. symmetry in E. apply (canonical_inverted c n Hc Hn) in E. rewrite E in Ev. injection Ev as ->. by right.
  - intros [[= -> ->]|[= -> ->]]; [by rewrite (canonical_normal n Hn)|]. by rewrite (canonical_inverted n v Hn Hv Ev).
Qed.

(** D023I and D047N are one signal. *)
Lemma dcs_two_spellings_witness :
  rotation (word_of (19, 1)) (word_of (39, 0)) /\ dsd_dcs_canonical 19 1 = Some (39, 0).
Proof.
  assert (Hs : standard (19, 1)) by (split; [by_decide|by right]).
  assert (Hs' : standard (39, 0)) by (split; [by_decide|by left]).
  destruct (dcs_two_spellings (19, 1) Hs) as (n & v & En & _ & _ & _ & H). cbn [fst snd] in En.
  assert (E : dsd_dcs_canonical 19 1 = Some (39, 0)) by (vm_compute; reflexivity). split; [|exact E].
  rewrite E in En. injection En as <-. apply (H (39, 0) Hs'). by left.
Defined.
