(* ===== verification/ToneSets.v ===== *)
(** * [runtime/analog_tones.c]: lists of tones and codes

    The sets behind the analog tone filter: reading a list of CTCSS tones and
    DCS codes, writing it back for storage and for display, and asking a set
    about a signal.  Texts and buffers are as in [SlashText]: a function that
    writes into a buffer takes its size and returns the text, or nothing when
    the source returns -1.  What an error says is a constructor with its
    numbers; its wording is left out. *)
From stdpp Require Import sets.
From S2P Require Import Prelude SlashText WordSet AnalogTones.

(** ** Texts *)

Definition DOT : Z := 46.
Definition hz_suffix : list Z := [32; 72; 122].          (** [" Hz"] *)
Definition TONE_SET_MORE_MARK : list Z := [0xE2; 0x80; 0xA6].

(** What [snprintf] leaves in a buffer of [size] bytes. *)
Definition snprintf (size : nat) (text : list Z) : list Z := take (size - 1) text.

Definition ctcss_format_with (prefix suffix : list Z) (tenths : Z) (size : nat) : option (list Z) :=
  if (size =? 0)%nat || (tenths <? 1) || (9999 <? tenths) then None
  else
    let text := prefix ++ decimal 4 (tenths / 10) ++ [DOT; 48 + tenths mod 10] ++ suffix in
    if (size <=? length text)%nat then None else Some text.

Definition dsd_ctcss_format : Z -> nat -> option (list Z) := ctcss_format_with [] [].
Definition dsd_ctcss_format_label : Z -> nat -> option (list Z) :=
  ctcss_format_with [67; 84; 67; 83; 83; 32] hz_suffix.  (** ["CTCSS "] *)

Definition dcs_polarity_letter (inverted : Z) : Z := if negb (inverted =? 0) then 73 else 78.

(** ["D%03o%c"]. *)
Definition dcs_text (code inverted : Z) : list Z :=
  [68; 48 + code / 64; 48 + code / 8 mod 8; 48 + code mod 8; dcs_polarity_letter inverted].

Definition dsd_dcs_format (code inverted : Z) (size : nat) : option (list Z) :=
  if (size =? 0)%nat || (code <? 0) || (DSD_DCS_CODE_MAX <? code) then None
  else if (size <=? length (dcs_text code inverted))%nat then None else Some (dcs_text code inverted).

(** ["DCS D%03o%c / D%03o%c"]. *)
Definition dsd_dcs_format_label (code inverted : Z) (size : nat) : option (list Z) :=
  match dsd_dcs_canonical code inverted, dsd_dcs_alias code inverted with
  | Some (c, i), Some (c', i') =>
      let text := [68; 67; 83; 32] ++ dcs_text c i ++ [32; SLASH; 32] ++ dcs_text c' i' in
      if (size <=? length text)%nat then None else Some text
  | _, _ => None
  end.

(** ** Sets *)

Definition TONE_SET_DCS_BITS : nat := 208.
Record dsd_tone_set := mk_tones { ctcss : Z; dcs : list Z }.
Definition tones_zero : dsd_tone_set := mk_tones 0 (replicate 4 0).

Definition tone_set_dcs_bit (s : dsd_tone_set) (bit : Z) : bool :=
  negb (Z.land (Z.shiftr ((dcs s).[Z.to_nat (bit / 64)]) (bit mod 64)) 1 =? 0).

Definition tone_set_dcs_put (s : dsd_tone_set) (bit : Z) : dsd_tone_set :=
  mk_tones (ctcss s) ((dcs s).[Z.to_nat (bit / 64) <- Z.lor ((dcs s).[Z.to_nat (bit / 64)]) (u64 (Z.shiftl 1 (bit mod 64)))]).

Definition tone_set_ctcss_bit (s : dsd_tone_set) (index : Z) : bool := negb (Z.land (Z.shiftr (ctcss s) index) 1 =? 0).

(** *** Entries *)

Record tone_entry := mk_entry { is_dcs : bool; index : Z; inverted : Z }.

Definition tone_digit (c : Z) : bool := (48 <=? c) && (c <=? 57).

(** Up to [n] digits: their value, how many, and what follows. *)
Fixpoint leading_digits (n : nat) (text : list Z) (whole : Z) : Z * nat * list Z :=
  match n, text with
  | S n, c :: rest =>
      if tone_digit c then let '(w, i, rest) := leading_digits n rest (whole * 10 + (c - 48)) in (w, S i, rest)
      else (whole, 0%nat, text)
  | _, _ => (whole, 0%nat, text)
  end.

Definition tone_entry_ctcss_tenths (text : list Z) : Z :=
  let '(whole, i, rest) := leading_digits 3 text 0 in
  if (i =? 0)%nat then -1
  else match rest with
       | [] => whole * 10
       | [p; d] => if (p =? DOT) && tone_digit d then whole * 10 + (d - 48) else -1
       | _ => -1
       end.

Definition octal_digit (c : Z) : bool := (48 <=? c) && (c <=? 55).

(** The code and the polarity. *)
Definition tone_entry_dcs_code (text : list Z) : option (Z * Z) :=
  match text with
  | d :: a :: b :: c :: rest =>
      if ((d =? 68) || (d =? 100)) && octal_digit a && octal_digit b && octal_digit c then
        let code := ((a - 48) * 8 + (b - 48)) * 8 + (c - 48) in
        match rest with
        | [] => Some (code, 0)
        | [p] => if (p =? 73) || (p =? 105) then Some (code, 1)
                 else if (p =? 78) || (p =? 110) then Some (code, 0) else None
        | _ => None
        end
      else None
  | _ => None
  end.

Definition tone_entry_read (text : list Z) : option tone_entry :=
  let tenths := tone_entry_ctcss_tenths text in
  if 0 <=? tenths then
    let i := dsd_ctcss_tone_index tenths in
    if 0 <=? i then Some (mk_entry false i 0) else None
  else match tone_entry_dcs_code text with
       | Some (code, inv) =>
           let i := dsd_dcs_code_index code in
           if 0 <=? i then Some (mk_entry true i inv) else None
       | None => None
       end.

(** *** Reading a list *)

Variant tone_list_error :=
  | E_no_list | E_list_empty | E_list_too_long | E_commas
  | E_entry_empty (number : Z)
  | E_not_standard (number : Z)
  | E_tone_repeats (number earlier : Z)
  | E_no_signal
  | E_code_repeats (number earlier : Z)
  | E_same_signal (number earlier : Z).

Record tone_list_parse := mk_parse { parsed : dsd_tone_set; ctcss_entry : list Z; dcs_entry : list Z }.

Definition tone_list_add_ctcss (p : tone_list_parse) (e : tone_entry) (number : Z) : tone_list_error + tone_list_parse :=
  let earlier := (ctcss_entry p).[Z.to_nat (index e)] in
  if negb (earlier =? 0) then inl (E_tone_repeats number earlier)
  else inr (mk_parse (mk_tones (Z.lor (ctcss (parsed p)) (u64 (Z.shiftl 1 (index e)))) (dcs (parsed p)))
              ((ctcss_entry p).[Z.to_nat (index e) <- number]) (dcs_entry p)).

Definition tone_list_add_dcs (p : tone_list_parse) (e : tone_entry) (number : Z) : tone_list_error + tone_list_parse :=
  match dsd_dcs_canonical (dsd_dcs_code (index e)) (inverted e) with
  | None => inl E_no_signal
  | Some (canon_code, canon_inverted) =>
      let signal := dsd_dcs_code_index canon_code in
      let bit := 2 * index e + inverted e in
      let earlier := if 0 <=? signal then (dcs_entry p).[Z.to_nat signal] else 0 in
      if negb (earlier =? 0) then
        inl (if tone_set_dcs_bit (parsed p) bit then E_code_repeats number earlier else E_same_signal number earlier)
      else
        inr (mk_parse (tone_set_dcs_put (parsed p) bit) (ctcss_entry p)
               (if 0 <=? signal then (dcs_entry p).[Z.to_nat signal <- number] else dcs_entry p))
  end.

Definition tone_list_add (p : tone_list_parse) (text : list Z) (number : Z) : tone_list_error + tone_list_parse :=
  match text with
  | [] => inl (E_entry_empty number)
  | _ =>
      match tone_entry_read text with
      | None => inl (E_not_standard number)
      | Some e => if is_dcs e then tone_list_add_dcs p e number else tone_list_add_ctcss p e number
      end
  end.

(** The loop over the entries; each turn takes an entry and its slash. *)
Fixpoint parse_entries (fuel : nat) (p : tone_list_parse) (text : list Z) (number : Z) : tone_list_error + tone_list_parse :=
  match fuel with
  | O => inl E_no_list
  | S fuel =>
      let n := strcspn text in
      match tone_list_add p (take n text) number with
      | inl e => inl e
      | inr p =>
          match drop n text with
          | [] => inr p
          | _ :: rest => parse_entries fuel p rest (number + 1)
          end
      end
  end.

Definition DSD_TONE_LIST_TEXT_MAX : nat := 1023.
Definition COMMA : Z := 44.
Definition parse_zero : tone_list_parse := mk_parse tones_zero (replicate 51 0) (replicate 104 0).

Definition dsd_tone_set_parse (text : list Z) : tone_list_error + dsd_tone_set :=
  if (length text =? 0)%nat then inl E_list_empty
  else if (DSD_TONE_LIST_TEXT_MAX <? length text)%nat then inl E_list_too_long
  else if existsb (fun c => c =? COMMA) text then inl E_commas
  else match parse_entries (S (length text)) parse_zero text 1 with
       | inl e => inl e
       | inr p => inr (parsed p)
       end.

(** *** Writing a list *)

(** The [ordinal]-th index that is set, or how many were seen. *)
Fixpoint nth_set (bit : Z -> bool) (l : list Z) (seen ordinal : nat) : Z + nat :=
  match l with
  | [] => inr seen
  | i :: l =>
      if bit i then if (seen =? ordinal)%nat then inl i else nth_set bit l (S seen) ordinal
      else nth_set bit l seen ordinal
  end.

Definition upto (n : nat) : list Z := map Z.of_nat (seq 0 n).

Definition tone_set_entry_text (s : dsd_tone_set) (ordinal : nat) (unit : bool) (size : nat) : option (list Z) :=
  match nth_set (tone_set_ctcss_bit s) (upto DSD_CTCSS_TONE_COUNT) 0 ordinal with
  | inl i => ctcss_format_with [] (if unit then hz_suffix else []) (dsd_ctcss_tone_tenths i) size
  | inr seen =>
      match nth_set (tone_set_dcs_bit s) (upto TONE_SET_DCS_BITS) seen ordinal with
      | inl bit => dsd_dcs_format (dsd_dcs_code (bit / 2)) (bit mod 2) size
      | inr _ => None
      end
  end.

Definition count_set (bit : Z -> bool) (n : nat) : nat := for_ 0 n (fun i a => (a + (if bit (Z.of_nat i) then 1 else 0))%nat) 0%nat.

Definition dsd_tone_set_count (s : dsd_tone_set) : nat :=
  (count_set (tone_set_ctcss_bit s) DSD_CTCSS_TONE_COUNT + count_set (tone_set_dcs_bit s) TONE_SET_DCS_BITS)%nat.

Definition slash_before (k : nat) : list Z := if (k =? 0)%nat then [] else [SLASH].

Definition set_format_step (s : dsd_tone_set) (size k : nat) (buf : option (list Z)) : option (list Z) :=
  match buf with
  | None => None
  | Some buf =>
      match tone_set_entry_text s k false 16 with
      | None => None
      | Some entry =>
          let piece := slash_before k ++ entry in
          if (size - length buf <=? length piece)%nat then None else Some (buf ++ piece)
      end
  end.

Definition dsd_tone_set_format (s : dsd_tone_set) (size : nat) : option (list Z) :=
  if (size =? 0)%nat then None else for_ 0 (dsd_tone_set_count s) (set_format_step s size) (Some []).

(** ["%s\u2026+%d"]: what stands for the entries left out. *)
Definition more_text (after_entry : bool) (left : nat) : list Z :=
  (if after_entry then [SLASH] else []) ++ TONE_SET_MORE_MARK ++ [43] ++ decimal 10 (Z.of_nat left).

Definition tone_set_more_len (left : nat) (after_entry : bool) : nat := length (more_text after_entry left).

(** [left] entries to come, from the [k]-th. *)
Fixpoint display_loop (left : nat) (s : dsd_tone_set) (size k : nat) (buf : list Z) : list Z :=
  match left with
  | O => buf
  | S rest =>
      let entry := tone_set_entry_text s k true 24 in
      let n := length (default [] entry) in
      let with_entry := (length buf + length (slash_before k) + n)%nat in
      let tail := match rest with O => O | _ => tone_set_more_len rest true end in
      if (n =? 0)%nat || (size <=? with_entry + tail)%nat
      then buf ++ snprintf (size - length buf) (more_text (negb (k =? 0)%nat) left)
      else display_loop rest s size (S k) (buf ++ snprintf (size - length buf) (slash_before k ++ default [] entry))
  end.

Definition dsd_tone_set_format_display (s : dsd_tone_set) (size : nat) : option (list Z) :=
  if (size <? 24)%nat then None else Some (display_loop (dsd_tone_set_count s) s size 0 []).

(** The three bytes of the mark become three dots, wherever it stands. *)
Fixpoint dsd_tone_display_to_ascii (text : list Z) : list Z :=
  match text with
  | a :: ((b :: c :: rest) as tail) =>
      if (a =? 0xE2) && (b =? 0x80) && (c =? 0xA6) then DOT :: DOT :: DOT :: dsd_tone_display_to_ascii rest
      else a :: dsd_tone_display_to_ascii tail
  | _ => text
  end.

(** ** Questions *)

Definition dsd_tone_set_has_dcs (s : dsd_tone_set) : bool := existsb (fun w => negb (w =? 0)) (dcs s).

Definition dsd_tone_set_equal (a b : dsd_tone_set) : bool :=
  (ctcss a =? ctcss b) && forallb (fun w => (dcs a).[w] =? (dcs b).[w]) (seq 0 4).

(** The table index of the canonical spelling, and its bit. *)
Definition signal_bit (bit : Z) : Z :=
  match dsd_dcs_canonical (dsd_dcs_code (bit / 2)) (bit mod 2) with
  | Some (c, i) => if 0 <=? dsd_dcs_code_index c then 2 * dsd_dcs_code_index c + i else bit
  | None => bit
  end.

Definition tone_set_by_signal (s : dsd_tone_set) : dsd_tone_set :=
  for_ 0 TONE_SET_DCS_BITS (fun bit out =>
    if tone_set_dcs_bit s (Z.of_nat bit) then tone_set_dcs_put out (signal_bit (Z.of_nat bit)) else out)
    (mk_tones (ctcss s) (replicate 4 0)).

Definition dsd_tone_set_same_signals (a b : dsd_tone_set) : bool :=
  dsd_tone_set_equal (tone_set_by_signal a) (tone_set_by_signal b).

Definition dsd_tone_set_contains_ctcss (s : dsd_tone_set) (tenths : Z) : bool :=
  let i := dsd_ctcss_tone_index tenths in (0 <=? i) && tone_set_ctcss_bit s i.

Definition dsd_tone_set_contains_dcs (s : dsd_tone_set) (code inv : Z) : bool :=
  match dsd_dcs_canonical code (if negb (inv =? 0) then 1 else 0) with
  | None => false
  | Some want =>
      existsb (fun bit => tone_set_dcs_bit s bit &&
        bool_decide (dsd_dcs_canonical (dsd_dcs_code (bit / 2)) (bit mod 2) = Some want)) (upto TONE_SET_DCS_BITS)
  end.

(** ** The filter *)

Definition DSD_TONE_FILTER_OFF : Z := 0.
Definition DSD_TONE_FILTER_BLOCK : Z := 2.

Variant tone_filter_error := F_mode | F_needs_list | F_list (e : tone_list_error).

(** [None] for no list. *)
Definition dsd_tone_filter_check (mode : Z) (list_text : option (list Z)) : tone_filter_error + dsd_tone_set :=
  if (mode <? DSD_TONE_FILTER_OFF) || (DSD_TONE_FILTER_BLOCK <? mode) then inl F_mode
  else match list_text with
       | None | Some [] => if negb (mode =? DSD_TONE_FILTER_OFF) then inl F_needs_list else inr tones_zero
       | Some text => match dsd_tone_set_parse text with inl e => inl (F_list e) | inr s => inr s end
       end.

(** ["off"], ["allow"], ["block"]. *)
Definition k_tone_filter_mode_names : list (list Z) := [[111; 102; 102]; [97; 108; 108; 111; 119]; [98; 108; 111; 99; 107]].

Definition dsd_tone_filter_mode_name (mode : Z) : option (list Z) :=
  if (mode <? DSD_TONE_FILTER_OFF) || (DSD_TONE_FILTER_BLOCK <? mode) then None else k_tone_filter_mode_names !! Z.to_nat mode.

Definition tolower (c : Z) : Z := if (65 <=? c) && (c <=? 90) then c + 32 else c.
Definition same_ignoring_case (a b : list Z) : bool := bool_decide (map tolower a = map tolower b).

Definition dsd_tone_filter_mode_parse (text : list Z) : option Z :=
  find (fun m => match dsd_tone_filter_mode_name m with Some name => same_ignoring_case text name | None => false end) [0; 1; 2].

(** ** The monitor *)

Variant audio_in :=
  | AUDIO_IN_PULSE | AUDIO_IN_STDIN | AUDIO_IN_WAV | AUDIO_IN_RTL | AUDIO_IN_SYMBOL_BIN | AUDIO_IN_UDP | AUDIO_IN_TCP
  | AUDIO_IN_NULL | AUDIO_IN_SYMBOL_FLT.

Record monitor_opts := mk_monitor {
  audio_in_type : audio_in; analog_only : Z; monitor_input_audio : Z; analog_demod_fm : bool;
  analog_tone_filter : Z; analog_tone_set : dsd_tone_set
}.

(** [output_kind] is what [dsd_rtl_stream_metrics_hook_output_kind] answers; 0 is monitor audio. *)
Definition analog_tone_input_carries_audio (output_kind : Z) (o : monitor_opts) : bool :=
  match audio_in_type o with
  | AUDIO_IN_PULSE | AUDIO_IN_STDIN | AUDIO_IN_WAV | AUDIO_IN_UDP | AUDIO_IN_TCP => true
  | AUDIO_IN_RTL => output_kind =? 0
  | _ => false
  end.

Definition dsd_analog_monitor_tap_active (output_kind : Z) (o : monitor_opts) : bool :=
  if negb (analog_only o =? 1) || negb (monitor_input_audio o =? 1) then false
  else analog_tone_input_carries_audio output_kind o.

Definition dsd_analog_tone_detection_active (output_kind : Z) (o : monitor_opts) : bool :=
  dsd_analog_monitor_tap_active output_kind o && analog_demod_fm o.

Definition DSD_ANALOG_TONE_GATE_OFF : Z := 0.
Definition DSD_ANALOG_TONE_GATE_PENDING : Z := 1.
Definition DSD_ANALOG_TONE_GATE_ALLOWED : Z := 2.
Definition DSD_ANALOG_TONE_GATE_REJECTED : Z := 3.

Definition list_policy (o : monitor_opts) : bool :=
  ((analog_tone_filter o =? 1) || (analog_tone_filter o =? 2)) && (0 <? dsd_tone_set_count (analog_tone_set o))%nat.

Definition dsd_analog_tone_gate_in_force (output_kind : Z) (o : monitor_opts) (gate : Z) : Z :=
  if negb (dsd_analog_tone_detection_active output_kind o) then DSD_ANALOG_TONE_GATE_OFF
  else if gate =? DSD_ANALOG_TONE_GATE_OFF then
    if list_policy o then DSD_ANALOG_TONE_GATE_PENDING else DSD_ANALOG_TONE_GATE_OFF
  else if (DSD_ANALOG_TONE_GATE_OFF <? gate) && (gate <=? DSD_ANALOG_TONE_GATE_REJECTED) then gate
  else DSD_ANALOG_TONE_GATE_PENDING.

Definition dsd_analog_tone_gate_passes (gate : Z) : bool :=
  (gate =? DSD_ANALOG_TONE_GATE_OFF) || (gate =? DSD_ANALOG_TONE_GATE_ALLOWED).

(** The gate fails closed: under a list policy that runs, audio passes only
    on the verdict that allows it. *)
Lemma gate_fails_closed kind o gate : dsd_analog_tone_detection_active kind o = true -> list_policy o = true ->
  dsd_analog_tone_gate_passes (dsd_analog_tone_gate_in_force kind o gate) = true -> gate = DSD_ANALOG_TONE_GATE_ALLOWED.
Proof.
  intros Hd Hl. unfold dsd_analog_tone_gate_in_force, dsd_analog_tone_gate_passes. rewrite Hd, Hl. cbn [negb].
  unfold DSD_ANALOG_TONE_GATE_OFF, DSD_ANALOG_TONE_GATE_PENDING, DSD_ANALOG_TONE_GATE_ALLOWED, DSD_ANALOG_TONE_GATE_REJECTED.
  destruct (Z.eqb_spec gate 0); [done|]. destruct ((0 <? gate) && (gate <=? 3)); [|done].
  destruct (Z.eqb_spec gate 0), (Z.eqb_spec gate 2); done.
Qed.

(** ** Entries and their texts *)

#[export] Instance tone_entry_eq_dec : EqDecision tone_entry.
Proof. solve_decision. Defined.

Definition entry_valid (e : tone_entry) : Prop :=
  if is_dcs e then 0 <= index e < 104 /\ (inverted e = 0 \/ inverted e = 1) else 0 <= index e < 51 /\ inverted e = 0.

Definition entry_text (e : tone_entry) : list Z :=
  if is_dcs e then dcs_text (dsd_dcs_code (index e)) (inverted e)
  else decimal 4 (dsd_ctcss_tone_tenths (index e) / 10) ++ [DOT; 48 + dsd_ctcss_tone_tenths (index e) mod 10].

Definition all_entries : list tone_entry :=
  map (fun i => mk_entry false i 0) (upto 51) ++ flat_map (fun i => [mk_entry true i 0; mk_entry true i 1]) (upto 104).

Lemma elem_of_upto n x : x ∈ upto n <-> 0 <= x < Z.of_nat n.
Proof.
  unfold upto. rewrite list_elem_of_In, in_map_iff. split.
  - intros (k & <- & Hk%in_seq). lia.
  - intros Hx. exists (Z.to_nat x). split; [lia|]. apply in_seq. lia.
Qed.

Lemma valid_in e : entry_valid e -> e ∈ all_entries.
Proof.
  unfold entry_valid, all_entries. destruct e as [d i v]. cbn [is_dcs index inverted]. intros H. apply elem_of_app. destruct d.
  - right. apply list_elem_of_In, in_flat_map. exists i. split; [apply list_elem_of_In, elem_of_upto; lia|].
    destruct H as [_ [-> | ->]]; [by left|by right; left].
  - left. apply list_elem_of_In, in_map_iff. exists i. destruct H as [Hi ->]. split; [done|]. apply list_elem_of_In, elem_of_upto. lia.
Qed.

(** What is written for an entry is read back, and fits where it is put. *)
Record text_ok (e : tone_entry) : Prop := {
  text_read : tone_entry_read (entry_text e) = Some e;
  text_size : (3 <= length (entry_text e) <= 5)%nat;
  text_noslash : Forall (fun c => c <> SLASH) (entry_text e);
  text_nocomma : forallb (fun c => negb (c =? COMMA)) (entry_text e) = true;
  text_format : (if is_dcs e then dsd_dcs_format (dsd_dcs_code (index e)) (inverted e) 16
                 else dsd_ctcss_format (dsd_ctcss_tone_tenths (index e)) 16) = Some (entry_text e)
}.

Lemma valid_text e : entry_valid e -> text_ok e.
Proof.
  intros He%valid_in.
  assert (H : Forall (fun e => tone_entry_read (entry_text e) = Some e /\ (3 <= length (entry_text e) <= 5)%nat /\
    Forall (fun c => c <> SLASH) (entry_text e) /\ forallb (fun c => negb (c =? COMMA)) (entry_text e) = true /\
    (if is_dcs e then dsd_dcs_format (dsd_dcs_code (index e)) (inverted e) 16
     else dsd_ctcss_format (dsd_ctcss_tone_tenths (index e)) 16) = Some (entry_text e)) all_entries); [by_decide|].
  eapply Forall_forall in H; [|done]. by destruct H as (? & ? & ? & ? & ?).
Qed.

Lemma ctcss_index_range x : 0 <= dsd_ctcss_tone_index x -> 0 <= dsd_ctcss_tone_index x < 51.
Proof.
  unfold dsd_ctcss_tone_index. intros H. destruct (table_index_cases k_ctcss_tones_tenths x ctcss_ascending) as [[H1 _]|[H1 _]].
  - exact H1.
  - lia.
Qed.

Lemma dcs_index_range x : 0 <= dsd_dcs_code_index x -> 0 <= dsd_dcs_code_index x < 104.
Proof.
  unfold dsd_dcs_code_index. intros H. destruct (table_index_cases k_dcs_codes x dcs_ascending) as [[H1 _]|[H1 _]].
  - exact H1.
  - lia.
Qed.

Lemma dcs_polarity text code inv : tone_entry_dcs_code text = Some (code, inv) -> inv = 0 \/ inv = 1.
Proof.
  unfold tone_entry_dcs_code. intros E.
  destruct text as [|d [|a [|b [|c rest]]]]; try discriminate. destruct (_ && _ && _ && _); [|discriminate].
  destruct rest as [|p [|]]; try discriminate; [injection E as _ <-; by left|].
  destruct (_ || _); [injection E as _ <-; by right|]. destruct (_ || _); [injection E as _ <-; by left|discriminate].
Qed.

Lemma read_valid text e : tone_entry_read text = Some e -> entry_valid e.
Proof.
  unfold tone_entry_read. destruct (0 <=? tone_entry_ctcss_tenths text).
  - pose proof (ctcss_index_range (tone_entry_ctcss_tenths text)) as H. generalize dependent (dsd_ctcss_tone_index (tone_entry_ctcss_tenths text)).
    intros i H. destruct (Z.leb_spec 0 i); [|discriminate]. intros [= <-]. split; [by apply H|reflexivity].
  - destruct (tone_entry_dcs_code text) as [[code inv]|] eqn:E; [|discriminate]. apply dcs_polarity in E.
    pose proof (dcs_index_range code) as H. generalize dependent (dsd_dcs_code_index code).
    intros i H. destruct (Z.leb_spec 0 i); [|discriminate]. intros [= <-]. split; [by apply H|exact E].
Qed.

(** ** Signals *)

(** The signal of an entry: the table index of its canonical code. *)
Definition entry_signal (e : tone_entry) : Z :=
  match dsd_dcs_canonical (dsd_dcs_code (index e)) (inverted e) with Some (c, _) => dsd_dcs_code_index c | None => -1 end.

Definition entry_key (e : tone_entry) : bool * Z := if is_dcs e then (true, entry_signal e) else (false, index e).

Lemma table_at_nth t i : 0 <= i < Z.of_nat (length t) -> table_at t i = t.[Z.to_nat i].
Proof. intros Hi. unfold table_at. destruct (Z.ltb_spec i 0), (Z.leb_spec (Z.of_nat (length t)) i); cbn [orb]; lia || reflexivity. Qed.

Lemma code_at i : 0 <= i < 104 -> dsd_dcs_code i ∈ k_dcs_codes /\ dsd_dcs_code_index (dsd_dcs_code i) = i.
Proof.
  intros Hi. unfold dsd_dcs_code. rewrite table_at_nth by exact Hi. split.
  - apply list_elem_of_In, nth_In. change (length k_dcs_codes) with 104%nat. lia.
  - apply table_index_at; [apply dcs_ascending|exact Hi].
Qed.

Lemma entry_canonical e : entry_valid e -> is_dcs e = true ->
  exists n, dsd_dcs_canonical (dsd_dcs_code (index e)) (inverted e) = Some (n, 0) /\ n ∈ k_dcs_codes /\
    entry_signal e = dsd_dcs_code_index n /\ 0 <= entry_signal e < 104.
Proof.
  unfold entry_valid. intros He Hd. rewrite Hd in He. destruct He as [Hi Hv].
  destruct (canonical_standard (dsd_dcs_code (index e), inverted e)) as (_ & n & En & Hn & _); [split; [by apply code_at|done]|].
  cbn [fst snd] in En. exists n. unfold entry_signal. rewrite En. split; [done|]. split; [done|]. split; [done|].
  apply dcs_index_range. by apply code_index_in.
Qed.

(** ** What the parser holds after the entries [D] *)

Lemma dcs_bit_word s b : 0 <= b -> tone_set_dcs_bit s b = word_bit (dcs s) b.
Proof.
  intros Hb. unfold tone_set_dcs_bit, word_bit. rewrite shiftr_land1 by (apply Z.mod_pos_bound; lia). by destruct (Z.testbit _ _).
Qed.

Lemma ctcss_bit_test s i : 0 <= i -> tone_set_ctcss_bit s i = Z.testbit (ctcss s) i.
Proof. intros Hi. unfold tone_set_ctcss_bit. rewrite shiftr_land1 by lia. by destruct (Z.testbit _ _). Qed.

(** The set of the entries [D]. *)
Record set_of (s : dsd_tone_set) (D : list tone_entry) : Prop := {
  of_words : words_wf 4 (dcs s);
  of_range : 0 <= ctcss s < 2 ^ 51;
  of_ctcss : forall i, 0 <= i < 51 -> Z.testbit (ctcss s) i = true <-> mk_entry false i 0 ∈ D;
  of_dcs : forall b, 0 <= b < 256 -> word_bit (dcs s) b = true <-> b < 208 /\ mk_entry true (b / 2) (b mod 2) ∈ D
}.

Record parse_of (p : tone_list_parse) (D : list tone_entry) : Prop := {
  po_set : set_of (parsed p) D;
  po_valid : Forall entry_valid D;
  po_len1 : length (ctcss_entry p) = 51%nat;
  po_len2 : length (dcs_entry p) = 104%nat;
  po_ctcss : forall i, 0 <= i < 51 -> (ctcss_entry p).[Z.to_nat i] <> 0 <-> (false, i) ∈ map entry_key D;
  po_dcs : forall j, 0 <= j < 104 -> (dcs_entry p).[Z.to_nat j] <> 0 <-> (true, j) ∈ map entry_key D;
  po_nodup : NoDup (map entry_key D)
}.

Lemma set_of_unique s s' D : set_of s D -> set_of s' D -> s = s'.
Proof.
  intros [W R C B] [W' R' C' B']. destruct s as [c d], s' as [c' d']. cbn in *. f_equal.
  - apply Z.bits_inj'. intros n Hn. destruct (decide (n < 51)); [|by rewrite !(testbit_ge_pow2 51) by lia].
    apply Bool.eq_iff_eq_true. rewrite C, C' by lia. done.
  - apply (words_ext 4); [done|done|]. intros v Hv. apply Bool.eq_iff_eq_true. rewrite B, B' by lia. done.
Qed.

Lemma set_of_perm s D D' : (forall e, e ∈ D <-> e ∈ D') -> set_of s D -> set_of s D'.
Proof. intros H [W R C B]. split; [done|done| |]; intros; rewrite <- H; auto. Qed.

Lemma parse_zero_of : parse_of parse_zero [].
Proof.
  split; [|done|done|done| | |apply NoDup_nil_2].
  - split; [apply words_zero_wf|cbn; lia| |]; intros; cbn.
    + rewrite Z.testbit_0_l. set_solver.
    + change (replicate 4 0) with (replicate 4 0). rewrite (word_bit_zero 4). set_solver.
  - intros i Hi. unfold parse_zero. cbn [ctcss_entry]. rewrite (nth_replicate 51). set_solver.
  - intros i Hi. unfold parse_zero. cbn [dcs_entry]. rewrite (nth_replicate 104). set_solver.
Qed.

Lemma elem_key_snoc k e D : k ∈ map entry_key (D ++ [e]) <-> k ∈ map entry_key D \/ k = entry_key e.
Proof. rewrite map_app, elem_of_app. cbn. by rewrite list_elem_of_singleton. Qed.

Lemma nodup_key_snoc e D : NoDup (map entry_key D) -> entry_key e ∉ map entry_key D -> NoDup (map entry_key (D ++ [e])).
Proof.
  intros HN Hn. rewrite map_app. apply NoDup_app. split; [done|]. split; [|apply NoDup_singleton].
  cbn. intros k Hk ->%list_elem_of_singleton. done.
Qed.

(** *** One entry *)

Lemma key_dcs e : is_dcs e = true -> entry_key e = (true, entry_signal e).
Proof. intros H. unfold entry_key. by rewrite H. Qed.
Lemma key_ctcss e : is_dcs e = false -> entry_key e = (false, index e).
Proof. intros H. unfold entry_key. by rewrite H. Qed.

Lemma pow2_testbit_put a i n : 0 <= i < 64 -> 0 <= n -> Z.testbit (Z.lor a (u64 (Z.shiftl 1 i))) n = (n =? i) || Z.testbit a n.
Proof.
  intros Hi Hn. assert (E : u64 (Z.shiftl 1 i) = 2 ^ i).
  { rewrite Z.shiftl_1_l. unfold u64, wrap. apply Z.mod_small. split; [lia|]. apply Z.pow_lt_mono_r; lia. }
  rewrite E, Z.lor_spec, Z.pow2_bits_eqb, orb_comm by lia. f_equal. apply Z.eqb_sym.
Qed.

Lemma elem_snoc (x e : tone_entry) D : x ∈ D ++ [e] <-> x ∈ D \/ x = e.
Proof. by rewrite elem_of_app, list_elem_of_singleton. Qed.

(** A tone: taken exactly when it is new. *)
Lemma add_ctcss_of p D e number : parse_of p D -> entry_valid e -> is_dcs e = false -> 0 < number ->
  (entry_key e ∉ map entry_key D -> exists p', tone_list_add_ctcss p e number = inr p' /\ parse_of p' (D ++ [e])) /\
  (entry_key e ∈ map entry_key D -> exists er, tone_list_add_ctcss p e number = inl er).
Proof.
  intros P He Hd Hn. pose proof He as Hv. unfold entry_valid in Hv. rewrite Hd in Hv. destruct Hv as [Hi Hinv].
  rewrite (key_ctcss e Hd). unfold tone_list_add_ctcss. pose proof (po_ctcss p D P (index e) Hi) as Hk.
  destruct (Z.eqb_spec ((ctcss_entry p).[Z.to_nat (index e)]) 0) as [E|E]; cbn [negb]; (split; intros Hin).
  - eexists. split; [reflexivity|]. destruct P as [[W R C B] V L1 L2 K1 K2 N]. split; cbn [parsed ctcss_entry dcs_entry].
    + split; cbn [ctcss dcs]; [done| | |].
      * assert (Hnn : 0 <= Z.lor (ctcss (parsed p)) (u64 (Z.shiftl 1 (index e)))).
        { apply Z.lor_nonneg. split; [lia|]. unfold u64, wrap. apply Z.mod_pos_bound. lia. }
        split; [done|]. apply lt_pow2_testbit; [lia|done|]. intros n Hnn'. rewrite pow2_testbit_put by lia.
        rewrite (testbit_ge_pow2 51) by lia. rewrite orb_false_r. apply Z.eqb_neq. lia.
      * intros i Hi'. rewrite pow2_testbit_put, orb_true_iff, Z.eqb_eq, C, elem_snoc by lia. destruct e as [d ie v]. cbn in *. subst.
        split; [intros [->|?]; [by right|by left]|intros [?|[= ->]]; [by right|by left]].
      * intros b Hb. rewrite B, elem_snoc by lia. destruct e as [d ie v]. cbn in Hd. subst d.
        split; [intros [? ?]; split; [done|by left]|intros [? [?|?]]; [done|discriminate]].
    + apply Forall_app. split; [done|]. by constructor.
    + by rewrite length_insert.
    + done.
    + intros i Hi'. rewrite elem_key_snoc, (key_ctcss e Hd), nth_insert, L1. destruct (decide _) as [[Hq _]|Hq].
      * split; [intros _; right; f_equal; lia|lia].
      * rewrite K1 by done. split; [by left|]. intros [?|[= ->]]; [done|]. destruct Hq. split; [done|lia].
    + intros j Hj. rewrite elem_key_snoc, (key_ctcss e Hd), K2 by done. split; [by left|]. by intros [?|?].
    + apply nodup_key_snoc; [done|]. by rewrite (key_ctcss e Hd).
  - by apply Hk in Hin.
  - by apply Hk in E.
  - by eexists.
Qed.

Lemma entry_bit e : entry_valid e -> is_dcs e = true ->
  0 <= 2 * index e + inverted e < 208 /\ (2 * index e + inverted e) / 2 = index e /\ (2 * index e + inverted e) mod 2 = inverted e.
Proof. unfold entry_valid. intros He Hd. rewrite Hd in He. destruct He as [Hi [-> | ->]]; (split; [lia|]); split; divmod. Qed.

(** A code: taken exactly when its signal is new. *)
Lemma add_dcs_of p D e number : parse_of p D -> entry_valid e -> is_dcs e = true -> 0 < number ->
  (entry_key e ∉ map entry_key D -> exists p', tone_list_add_dcs p e number = inr p' /\ parse_of p' (D ++ [e])) /\
  (entry_key e ∈ map entry_key D -> exists er, tone_list_add_dcs p e number = inl er).
Proof.
  intros P He Hd Hn. destruct (entry_canonical e He Hd) as (n & En & Hnc & Es & Hs). destruct (entry_bit e He Hd) as (Hb & Hb1 & Hb2).
  rewrite (key_dcs e Hd). unfold tone_list_add_dcs. rewrite En, <- Es. clear En Es Hnc n. set (j := entry_signal e) in *.
  rewrite (proj2 (Z.leb_le 0 j)) by lia. pose proof (po_dcs p D P j Hs) as Hk.
  destruct (Z.eqb_spec ((dcs_entry p).[Z.to_nat j]) 0) as [E|E]; cbn [negb]; (split; intros Hin).
  - eexists. split; [reflexivity|]. destruct P as [[W R C B] V L1 L2 K1 K2 N]. split; cbn [parsed ctcss_entry dcs_entry].
    + unfold tone_set_dcs_put. split; cbn [ctcss dcs]; [by apply word_put_wf|done| |].
      * intros i Hi. rewrite C, elem_snoc by lia. destruct e as [d ie v]. cbn in Hd. subst d.
        split; [by left|]. intros [?|?]; [done|discriminate].
      * intros b Hb'. fold (word_put (dcs (parsed p)) (2 * index e + inverted e)).
        rewrite (word_bit_put 4), orb_true_iff, Z.eqb_eq, B, elem_snoc by (done || lia).
        assert (Hee : e = mk_entry true (index e) (inverted e)) by (destruct e; cbn in Hd; by subst).
        split.
        -- intros [->|[? ?]]; [|split; [done|by left]]. split; [lia|]. right. by rewrite Hb1, Hb2.
        -- intros [Hlt [?|Hx]]; [by right|]. left. rewrite Hee in Hx. injection Hx as Hx1 Hx2. divmod.
    + apply Forall_app. split; [done|]. by constructor.
    + done.
    + by rewrite length_insert.
    + intros i Hi. rewrite elem_key_snoc, (key_dcs e Hd), K1 by done. split; [by left|]. by intros [?|?].
    + intros i Hi. rewrite elem_key_snoc, (key_dcs e Hd), nth_insert, L2. fold j. destruct (decide _) as [[Hq _]|Hq].
      * split; [intros _; right; f_equal; lia|lia].
      * rewrite K2 by done. split; [by left|]. intros [?|[= ->]]; [done|]. destruct Hq. split; [done|lia].
    + apply nodup_key_snoc; [done|]. by rewrite (key_dcs e Hd).
  - by apply Hk in Hin.
  - by apply Hk in E.
  - by eexists.
Qed.

Lemma add_of p D text number e : parse_of p D -> tone_entry_read text = Some e -> text <> [] -> 0 < number ->
  (entry_key e ∉ map entry_key D -> exists p', tone_list_add p text number = inr p' /\ parse_of p' (D ++ [e])) /\
  (entry_key e ∈ map entry_key D -> exists er, tone_list_add p text number = inl er).
Proof.
  intros P Hr Ht Hn. pose proof (read_valid _ _ Hr) as He. unfold tone_list_add. destruct text as [|c text]; [done|].
  rewrite Hr. destruct (is_dcs e) eqn:Hd; [by apply add_dcs_of|by apply add_ctcss_of].
Qed.

(** *** A list *)

Lemma parse_entries_S fuel p text number : parse_entries (S fuel) p text number =
  match tone_list_add p (take (strcspn text) text) number with
  | inl e => inl e
  | inr p =>
      match drop (strcspn text) text with
      | [] => inr p
      | _ :: rest => parse_entries fuel p rest (number + 1)
      end
  end.
Proof. reflexivity. Qed.

(** What is accepted lists its entries. *)
Lemma parse_entries_of fuel p D text number p' : parse_of p D -> 0 < number ->
  parse_entries fuel p text number = inr p' -> exists es, es <> [] /\ parse_of p' (D ++ es).
Proof.
  revert p D text number. induction fuel as [|fuel IH]; intros p D text number P Hn; [discriminate|].
  rewrite parse_entries_S. set (entry := take _ text). destruct (tone_list_add p entry number) as [er|p1] eqn:Ea; [discriminate|].
  assert (H1 : exists e, parse_of p1 (D ++ [e])).
  { destruct entry as [|c t] eqn:Et; [discriminate|]. rewrite <- Et in *. assert (Hne : entry <> []) by (by rewrite Et).
    destruct (tone_entry_read entry) as [e|] eqn:Er.
    - exists e. destruct (add_of p D entry number e P Er Hne Hn) as [H1 H2].
      destruct (decide (entry_key e ∈ map entry_key D)) as [Hin|Hnin].
      + destruct (H2 Hin) as [er Hx]. congruence.
      + destruct (H1 Hnin) as (p2 & Hx & Hp2). rewrite Ea in Hx. by injection Hx as <-.
    - unfold tone_list_add in Ea. rewrite Et in Ea. rewrite <- Et in Ea. rewrite Er in Ea. discriminate. }
  destruct H1 as [e H1]. destruct (drop _ text) as [|c rest].
  - intros [= <-]. by exists [e].
  - intros Hp. destruct (IH p1 (D ++ [e]) rest (number + 1) H1 ltac:(lia) Hp) as (es & _ & Hes).
    exists (e :: es). split; [done|]. by rewrite <- app_assoc in Hes.
Qed.

Lemma text_nonempty e : entry_valid e -> entry_text e <> [].
Proof. intros He%valid_text E. pose proof (text_size e He) as H. rewrite E in H. cbn in H. lia. Qed.

(** The joined texts of new entries are read as those entries. *)
Lemma parse_entries_join fuel es p D number : parse_of p D -> Forall entry_valid es -> NoDup (map entry_key (D ++ es)) ->
  es <> [] -> (length es <= fuel)%nat -> 0 < number ->
  exists p', parse_entries fuel p (join (map entry_text es)) number = inr p' /\ parse_of p' (D ++ es).
Proof.
  revert es p D number. induction fuel as [|fuel IH]; intros es p D number P Hv HN Hne Hf Hn; [destruct es; cbn in *; [done|lia]|].
  destruct es as [|e es]; [done|]. apply Forall_cons in Hv as [He Hv].
  pose proof (valid_text e He) as [Hread Hsize Hslash _ _]. rewrite parse_entries_S.
  assert (Hk : entry_key e ∉ map entry_key D).
  { intros Hin. rewrite map_app in HN. apply NoDup_app in HN as (_ & HN & _). apply (HN _ Hin). cbn. by left. }
  destruct (proj1 (add_of p D (entry_text e) number e P Hread (text_nonempty e He) Hn) Hk) as (p1 & Ha & P1).
  destruct es as [|e' es].
  - exists p1. cbn [map join concat]. rewrite (strcspn_app _ [] Hslash) by (by left). rewrite take_app_length, drop_app_length, Ha. done.
  - change (join (map entry_text (e :: e' :: es))) with (entry_text e ++ SLASH :: join (map entry_text (e' :: es))).
    rewrite (strcspn_app _ _ Hslash) by (right; by eexists). rewrite take_app_length, drop_app_length, Ha.
    destruct (IH (e' :: es) p1 (D ++ [e]) (number + 1) P1 Hv) as (p' & Hp & Hp').
    + by rewrite <- app_assoc.
    + done.
    + cbn in *. lia.
    + lia.
    + exists p'. rewrite <- app_assoc in Hp'. done.
Qed.

(** ** The entries of a set *)

Definition tone_of (i : Z) : tone_entry := mk_entry false i 0.
Definition code_of (b : Z) : tone_entry := mk_entry true (b / 2) (b mod 2).

Definition entries (s : dsd_tone_set) : list tone_entry :=
  map tone_of (filter (fun i => tone_set_ctcss_bit s i = true) (upto 51)) ++
  map code_of (filter (fun b => tone_set_dcs_bit s b = true) (upto 208)).

Lemma elem_of_entries s e : e ∈ entries s <->
  (exists i, 0 <= i < 51 /\ tone_set_ctcss_bit s i = true /\ e = tone_of i) \/
  (exists b, 0 <= b < 208 /\ tone_set_dcs_bit s b = true /\ e = code_of b).
Proof.
  unfold entries. rewrite elem_of_app, !list_elem_of_In, !in_map_iff.
  setoid_rewrite <- list_elem_of_In. setoid_rewrite list_elem_of_filter. setoid_rewrite elem_of_upto.
  change (Z.of_nat 51) with 51. change (Z.of_nat 208) with 208. naive_solver.
Qed.

Lemma upto_nodup n : NoDup (upto n).
Proof. apply NoDup_fmap_2, NoDup_seq. intros x y. apply Nat2Z.inj. Qed.

Lemma code_of_inj b b' : code_of b = code_of b' -> b = b'.
Proof. intros [= H1 H2]. divmod. Qed.

Lemma entries_nodup s : NoDup (entries s).
Proof.
  unfold entries. apply NoDup_app. split; [|split].
  - apply NoDup_fmap_2; [|apply NoDup_filter, upto_nodup]. by intros x y [= ->].
  - intros e He1 He2. apply list_elem_of_In, in_map_iff in He1 as (i & <- & _). by apply list_elem_of_In, in_map_iff in He2 as (b & Hb & _).
  - apply NoDup_fmap_2; [|apply NoDup_filter, upto_nodup]. intros x y. apply code_of_inj.
Qed.

(** A set read from a list has the entries of the list. *)
Lemma entries_of s D : set_of s D -> Forall entry_valid D -> forall e, e ∈ entries s <-> e ∈ D.
Proof.
  intros [W R C B] V e. rewrite elem_of_entries. split.
  - intros [(i & Hi & Hb & ->)|(b & Hb & Hbit & ->)].
    + rewrite ctcss_bit_test in Hb by lia. by apply C.
    + rewrite dcs_bit_word in Hbit by lia. by apply B in Hbit as [_ ?]; [|lia].
  - intros He. eapply Forall_forall in V; [|done]. destruct e as [[] i v]; unfold entry_valid in V; cbn in V; destruct V as [Hi Hv].
    + right. exists (2 * i + v). assert (Hb : (2 * i + v) / 2 = i /\ (2 * i + v) mod 2 = v) by (destruct Hv; split; divmod).
      destruct Hb as [Hb1 Hb2]. split; [lia|]. unfold code_of. rewrite Hb1, Hb2. split; [|done].
      rewrite dcs_bit_word by lia. apply B; [lia|]. rewrite Hb1, Hb2. split; [lia|done].
    + left. exists i. subst v. split; [done|]. split; [|done]. rewrite ctcss_bit_test by lia. by apply C.
Qed.

(** *** Writing *)

Lemma nth_set_spec bit l seen ordinal : (seen <= ordinal)%nat ->
  nth_set bit l seen ordinal =
    match filter (fun i => bit i = true) l !! (ordinal - seen)%nat with
    | Some i => inl i
    | None => inr (seen + length (filter (fun i => bit i = true) l))%nat
    end.
Proof.
  revert seen. induction l as [|i l IH]; intros seen Hs; cbn [nth_set]; [cbn; f_equal; lia|].
  destruct (bit i) eqn:E.
  - rewrite filter_cons_True by done. destruct (Nat.eqb_spec seen ordinal) as [->|Hne]; [by rewrite Nat.sub_diag|].
    rewrite IH by lia. replace (ordinal - seen)%nat with (S (ordinal - S seen)) by lia. cbn [lookup list_lookup length].
    destruct (_ !! _); [done|]. f_equal. lia.
  - rewrite filter_cons_False by (by rewrite E). by apply IH.
Qed.

Lemma count_set_spec bit n : count_set bit n = length (filter (fun i => bit i = true) (upto n)).
Proof.
  unfold count_set, upto. induction n as [|n IH]; [done|]. rewrite for_S by lia. rewrite IH, seq_S, map_app, filter_app, length_app. f_equal.
  cbn [map Nat.add]. destruct (bit (Z.of_nat n)) eqn:E; [by rewrite filter_cons_True by done|by rewrite filter_cons_False by (by rewrite E)].
Qed.

Lemma count_entries s : dsd_tone_set_count s = length (entries s).
Proof. unfold dsd_tone_set_count, entries. by rewrite !count_set_spec, length_app, !length_map. Qed.

Lemma entry_of_bit b : 0 <= b < 208 -> entry_valid (code_of b).
Proof. intros Hb. unfold entry_valid, code_of. cbn. split; [divmod|]. assert (0 <= b mod 2 < 2) by (apply Z.mod_pos_bound; lia). lia. Qed.

Lemma entries_valid s : Forall entry_valid (entries s).
Proof.
  apply Forall_forall. intros e He. apply elem_of_entries in He as [(i & Hi & _ & ->)|(b & Hb & _ & ->)]; [by split|by apply entry_of_bit].
Qed.

(** With its unit, an entry is longer by three at the most. *)
Definition entry_shown (unit : bool) (e : tone_entry) : list Z :=
  entry_text e ++ (if unit && negb (is_dcs e) then hz_suffix else []).

Lemma entry_text_at s k unit size : (9 <= size)%nat -> tone_set_entry_text s k unit size = entry_shown unit <$> entries s !! k.
Proof.
  intros Hsz. unfold tone_set_entry_text, entries, DSD_CTCSS_TONE_COUNT, TONE_SET_DCS_BITS.
  rewrite nth_set_spec by lia. rewrite Nat.sub_0_r. set (fc := filter (fun i => tone_set_ctcss_bit s i = true) (upto 51)).
  assert (Hfc : forall i, i ∈ fc -> 0 <= i < 51).
  { intros i Hi. apply list_elem_of_filter in Hi as [_ Hi]. by apply elem_of_upto in Hi. }
  assert (Hs : forall e, entry_valid e -> (length (entry_shown unit e) < size)%nat).
  { intros e He. pose proof (text_size e (valid_text e He)). unfold entry_shown. rewrite length_app.
    destruct (unit && negb (is_dcs e)); cbn [length hz_suffix]; lia. }
  destruct (fc !! k) as [i|] eqn:Ek.
  - assert (Hi : 0 <= i < 51) by (apply Hfc; by eapply list_elem_of_lookup_2).
    rewrite lookup_app_l by (rewrite length_map; by eapply lookup_lt_Some). rewrite list_lookup_fmap, Ek. cbn [fmap option_fmap option_map].
    assert (Hv : entry_valid (tone_of i)) by (by split). specialize (Hs _ Hv).
    pose proof (text_format _ (valid_text _ Hv)) as Hf. cbn [is_dcs tone_of index] in Hf.
    unfold dsd_ctcss_format, ctcss_format_with in *. destruct ((16 =? 0)%nat || _ || _) eqn:Eo; [discriminate|].
    change ((16 =? 0)%nat) with false in Eo. rewrite <- orb_assoc in Eo. cbn [orb] in Eo. rewrite <- orb_assoc, Eo.
    destruct (Nat.eqb_spec size 0); [lia|]. cbn [orb app] in *.
    assert (Et : decimal 4 (dsd_ctcss_tone_tenths i / 10) ++ DOT :: 48 + dsd_ctcss_tone_tenths i mod 10 :: (if unit then hz_suffix else []) =
      entry_shown unit (tone_of i)).
    { unfold entry_shown, entry_text. cbn [is_dcs tone_of index negb]. rewrite andb_true_r, <- app_assoc. done. }
    rewrite Et. destruct (Nat.leb_spec size (length (entry_shown unit (tone_of i)))); [lia|done].
  - apply lookup_ge_None in Ek. rewrite nth_set_spec by lia. rewrite Nat.add_0_l.
    rewrite lookup_app_r by (rewrite length_map; done). rewrite length_map. fold fc. rewrite list_lookup_fmap.
    set (fd := filter (fun b => tone_set_dcs_bit s b = true) (upto 208)).
    destruct (fd !! (k - length fc)%nat) as [b|] eqn:Eb; cbn [fmap option_fmap option_map]; [|done].
    assert (Hb : 0 <= b < 208).
    { apply list_elem_of_lookup_2, list_elem_of_filter in Eb as [_ Hb]. by apply elem_of_upto in Hb. }
    pose proof (entry_of_bit b Hb) as Hv. specialize (Hs _ Hv).
    pose proof (text_format _ (valid_text _ Hv)) as Hf. cbn [is_dcs code_of index inverted] in Hf.
    unfold dsd_dcs_format in *. destruct ((16 =? 0)%nat || _ || _) eqn:Eo; [discriminate|].
    change ((16 =? 0)%nat) with false in Eo. rewrite <- orb_assoc in Eo. cbn [orb] in Eo. rewrite <- orb_assoc, Eo.
    destruct (Nat.eqb_spec size 0); [lia|]. cbn [orb] in *.
    assert (Et : dcs_text (dsd_dcs_code (b / 2)) (b mod 2) = entry_shown unit (code_of b)).
    { unfold entry_shown, entry_text. cbn [is_dcs code_of index inverted negb]. by rewrite andb_false_r, app_nil_r. }
    rewrite Et. destruct (Nat.leb_spec size (length (entry_shown unit (code_of b)))); [lia|done].
Qed.

Definition set_text (s : dsd_tone_set) : list Z := join (map entry_text (entries s)).

Lemma join_snoc_any es e : join (es ++ [e]) = join es ++ slash_before (length es) ++ e.
Proof.
  destruct es as [|e' es]; [cbn; by rewrite app_nil_r|]. by rewrite join_snoc.
Qed.

Lemma take_S_lookup {A} (l : list A) k x : l !! k = Some x -> take (S k) l = take k l ++ [x].
Proof. intros H. by apply take_S_r. Qed.

Lemma tone_format_join s size : (length (set_text s) < size)%nat -> dsd_tone_set_format s size = Some (set_text s).
Proof.
  intros Hl. unfold dsd_tone_set_format. destruct (Nat.eqb_spec size 0); [lia|]. rewrite count_entries.
  set (es := entries s) in *. set (P := fun n (out : option (list Z)) =>
    (length (join (map entry_text (take n es))) < size)%nat -> out = Some (join (map entry_text (take n es)))).
  assert (H : P (length es) (for_ 0 (length es) (set_format_step s size) (Some []))).
  { apply (for_ind P); [lia|done|]. intros k out [_ Hk] IH Hsz. destruct (lookup_lt_is_Some_2 es k Hk) as [e He].
    rewrite (take_S_lookup _ _ _ He), map_app in Hsz |- *. cbn [map] in *. rewrite join_snoc_any in Hsz |- *.
    rewrite length_map, length_take_le in Hsz |- * by lia. rewrite !length_app in Hsz.
    rewrite IH by lia. unfold set_format_step. rewrite entry_text_at by lia. fold es. rewrite He. cbn [fmap option_fmap option_map].
    unfold entry_shown. cbn [andb]. rewrite app_nil_r, length_app.
    destruct (Nat.leb_spec (size - length (join (map entry_text (take k es)))) (length (slash_before k) + length (entry_text e))); [lia|done]. }
  unfold P in H. rewrite firstn_all in H. by apply H.
Qed.

Lemma join_bound n es : Forall (fun e : list Z => (length e <= n)%nat) es -> (length (join es) <= (n + 1) * length es)%nat.
Proof.
  intros H. destruct H as [|e es He H]; [cbn; lia|]. cbn [join]. rewrite length_app.
  assert (length (concat (map (fun e => SLASH :: e) es)) <= (n + 1) * length es)%nat.
  { induction H as [|e' es He' H IH]; [cbn; lia|]. cbn [map concat]. rewrite length_app. cbn [length] in *. lia. }
  cbn [length] in *. lia.
Qed.

Definition all_keys : list (bool * Z) := map (pair false) (upto 51) ++ map (pair true) (upto 104).

Lemma key_in e : entry_valid e -> entry_key e ∈ all_keys.
Proof.
  intros He. unfold all_keys. apply elem_of_app. destruct (is_dcs e) eqn:Hd.
  - right. rewrite (key_dcs e Hd). apply list_elem_of_In, in_map, list_elem_of_In, elem_of_upto.
    destruct (entry_canonical e He Hd) as (_ & _ & _ & _ & H). lia.
  - left. rewrite (key_ctcss e Hd). apply list_elem_of_In, in_map, list_elem_of_In, elem_of_upto. unfold entry_valid in He. rewrite Hd in He. lia.
Qed.

Lemma distinct_length es : Forall entry_valid es -> NoDup (map entry_key es) -> (length es <= 155)%nat.
Proof.
  intros V N. rewrite <- (length_map entry_key es). transitivity (length all_keys).
  - apply submseteq_length, NoDup_submseteq; [done|]. intros k Hk. apply list_elem_of_In, in_map_iff in Hk as (e & <- & He%list_elem_of_In).
    apply key_in. by eapply Forall_forall in V.
  - done.
Qed.

(** A set that lists every signal once. *)
Record tones_ok (s : dsd_tone_set) : Prop := {
  tones_set : set_of s (entries s);
  tones_distinct : NoDup (map entry_key (entries s))
}.

Lemma parsed_ok p es : parse_of p es -> tones_ok (parsed p) /\ forall e, e ∈ entries (parsed p) <-> e ∈ es.
Proof.
  intros P. pose proof (entries_of _ _ (po_set _ _ P) (po_valid _ _ P)) as He. split; [|done]. split.
  - eapply set_of_perm; [|apply P]. intros e. symmetry. apply He.
  - assert (Hp : entries (parsed p) ≡ₚ es).
    { apply NoDup_Permutation; [apply entries_nodup| |done]. eapply NoDup_fmap_1. apply (po_nodup _ _ P). }
    change (map entry_key (entries (parsed p))) with (entry_key <$> entries (parsed p)). rewrite Hp. apply P.
Qed.

Lemma text_no_comma es : Forall entry_valid es -> existsb (fun c => c =? COMMA) (join (map entry_text es)) = false.
Proof.
  intros V. assert (Hc : forall e, entry_valid e -> existsb (fun c => c =? COMMA) (entry_text e) = false).
  { intros e He. pose proof (text_nocomma e (valid_text e He)) as H. apply not_true_is_false. intros (c & Hin & Hc)%existsb_exists.
    rewrite forallb_forall in H. specialize (H c Hin). by rewrite Hc in H. }
  destruct V as [|e es He V]; [done|]. cbn [map join]. rewrite existsb_app, (Hc e He). cbn [orb].
  induction V as [|e' es He' V IH]; [done|]. cbn [map concat]. rewrite existsb_app, IH. cbn [existsb]. rewrite (Hc e' He'). done.
Qed.

(** C37: Tone lists survive being written and read.  A text that is accepted
    gives a set that lists every tone and every DCS signal once; and every such
    set that is not empty is written in at most 930 characters, inside the
    1023 a list may have, and read back exactly. *)
Theorem tone_set_roundtrip :
  (forall text s, dsd_tone_set_parse text = inr s -> tones_ok s /\ entries s <> []) /\
  (forall s, tones_ok s -> entries s <> [] -> exists u, dsd_tone_set_format s (DSD_TONE_LIST_TEXT_MAX + 1) = Some u /\
     (length u <= 930)%nat /\ dsd_tone_set_parse u = inr s).
Proof.
  split.
  - intros text s. unfold dsd_tone_set_parse. destruct (_ =? 0)%nat; [discriminate|]. destruct (_ <? _)%nat; [discriminate|].
    destruct (existsb _ _); [discriminate|]. destruct (parse_entries _ _ _ _) as [|p] eqn:Ep; [discriminate|]. intros [= <-].
    destruct (parse_entries_of _ _ [] _ _ _ parse_zero_of (eq_refl : 0 < 1) Ep) as (es & Hne & P). cbn [app] in P.
    destruct (parsed_ok p es P) as [Hok He]. split; [done|]. destruct es as [|e es]; [done|]. intros E.
    assert (Hin : e ∈ entries (parsed p)) by (apply He; by left). rewrite E in Hin. by apply not_elem_of_nil in Hin.
  - intros s [Hs Hd] Hne. pose proof (entries_valid s) as V. pose proof (distinct_length _ V Hd) as Hlen.
    assert (Hb : (length (set_text s) <= 930)%nat).
    { transitivity ((5 + 1) * length (map entry_text (entries s)))%nat; [|rewrite length_map; lia]. apply join_bound.
      apply Forall_map. eapply Forall_impl; [exact V|]. intros e He. apply (text_size e (valid_text e He)). }
    exists (set_text s). split; [apply tone_format_join; unfold DSD_TONE_LIST_TEXT_MAX; lia|]. split; [done|].
    unfold dsd_tone_set_parse. assert (Hpos : (length (entries s) <= length (set_text s))%nat).
    { unfold set_text. rewrite <- (length_map entry_text). apply join_length. apply Forall_map. eapply Forall_impl; [exact V|]. apply text_nonempty. }
    destruct (Nat.eqb_spec (length (set_text s)) 0); [destruct (entries s); cbn in *; [done|lia]|].
    destruct (Nat.ltb_spec DSD_TONE_LIST_TEXT_MAX (length (set_text s))); [unfold DSD_TONE_LIST_TEXT_MAX in *; lia|].
    unfold set_text at 1. rewrite text_no_comma by done.
    destruct (parse_entries_join (S (length (set_text s))) (entries s) parse_zero [] 1 parse_zero_of V Hd Hne ltac:(lia) ltac:(lia)) as (p & Hp & P).
    unfold set_text at 2. rewrite Hp. f_equal. apply (set_of_unique _ _ (entries s)); [apply P|done].
Qed.

(** Four entries, written back as their canonical order has them. *)
Lemma tone_set_roundtrip_witness :
  exists s, dsd_tone_set_parse [68; 48; 50; 51; 73; 47; 49; 48; 48] = inr s /\
    exists u, dsd_tone_set_format s (DSD_TONE_LIST_TEXT_MAX + 1) = Some u /\ dsd_tone_set_parse u = inr s.
Proof.
  destruct (dsd_tone_set_parse [68; 48; 50; 51; 73; 47; 49; 48; 48]) as [e|s] eqn:E; [vm_compute in E; discriminate|].
  exists s. split; [reflexivity|]. destruct (proj1 tone_set_roundtrip _ _ E) as [Hok Hne].
  destruct (proj2 tone_set_roundtrip s Hok Hne) as (u & Hf & _ & Hp). exists u. split; [exact Hf|exact Hp].
Defined.

(** ** The display text *)

Lemma snprintf_fits size text : (length text < size)%nat -> snprintf size text = text.
Proof. intros H. unfold snprintf. apply take_ge. lia. Qed.

Lemma entries_count_bound s : (length (entries s) <= 259)%nat.
Proof.
  unfold entries. rewrite length_app, !length_map.
  pose proof (length_filter (fun i => tone_set_ctcss_bit s i = true) (upto 51)) as H1.
  pose proof (length_filter (fun b => tone_set_dcs_bit s b = true) (upto 208)) as H2.
  unfold upto in *. rewrite length_map, length_seq in H1, H2. lia.
Qed.

Lemma more_text_size b left : (left < 1000)%nat -> (length (more_text b left) <= 8)%nat.
Proof.
  intros Hl. unfold more_text. rewrite !length_app.
  pose proof (decimal_length 10 2 (Z.of_nat left) ltac:(lia)). destruct b; cbn [length TONE_SET_MORE_MARK]; lia.
Qed.

Definition shown_text (s : dsd_tone_set) (k : nat) : list Z := join (map (entry_shown true) (take k (entries s))).

Lemma shown_text_S s k e : entries s !! k = Some e ->
  shown_text s (S k) = shown_text s k ++ slash_before k ++ entry_shown true e.
Proof.
  intros He. unfold shown_text. rewrite (take_S_lookup _ _ _ He), map_app. cbn [map]. rewrite join_snoc_any, length_map.
  rewrite length_take_le; [done|]. apply lookup_lt_Some in He. lia.
Qed.

(** What the display loop gives from the [k]-th entry on. *)
Definition display_spec (s : dsd_tone_set) (size : nat) (u : list Z) : Prop :=
  (length u < size)%nat /\ exists k, (k <= length (entries s))%nat /\
    u = shown_text s k ++ (if (k =? length (entries s))%nat then [] else more_text (negb (k =? 0)%nat) (length (entries s) - k)).

Lemma display_loop_spec s size left k : (24 <= size)%nat -> (k + left = length (entries s))%nat ->
  (length (shown_text s k) + (match left with O => O | _ => length (more_text (negb (k =? 0)%nat) left) end) < size)%nat ->
  display_spec s size (display_loop left s size k (shown_text s k)).
Proof.
  intros Hsz. revert k. induction left as [|rest IH]; intros k Hk Hroom; cbn [display_loop].
  { split; [lia|]. exists k. split; [lia|]. rewrite (proj2 (Nat.eqb_eq _ _)) by lia. by rewrite app_nil_r. }
  destruct (lookup_lt_is_Some_2 (entries s) k ltac:(lia)) as [e He]. rewrite entry_text_at by lia. rewrite He.
  cbn [fmap option_fmap option_map from_option]. unfold id. set (out := shown_text s k) in *.
  assert (Hpos : (0 < length (entry_shown true e))%nat).
  { pose proof (entries_valid s) as V. eapply Forall_lookup_1 in V; [|done]. pose proof (text_size e (valid_text e V)).
    unfold entry_shown. rewrite length_app. lia. }
  destruct (Nat.eqb_spec (length (entry_shown true e)) 0); [lia|]. cbn [orb].
  destruct (Nat.leb_spec size (length out + length (slash_before k) + length (entry_shown true e) +
    match rest with O => O | _ => tone_set_more_len rest true end)) as [Hfull|Hfit].
  - rewrite snprintf_fits by lia. split; [rewrite length_app; lia|]. exists k. split; [lia|].
    destruct (Nat.eqb_spec k (length (entries s))); [lia|]. by replace (length (entries s) - k)%nat with (S rest) by lia.
  - rewrite snprintf_fits by (rewrite length_app; lia). unfold out in *. rewrite <- (shown_text_S s k e He). apply IH; [lia|].
    rewrite (shown_text_S s k e He), !length_app. cbn [Nat.eqb negb]. unfold tone_set_more_len in Hfit. destruct rest; lia.
Qed.

(** C38: The display text never overruns its buffer and never cuts an entry:
    for every set and every buffer of 24 bytes or more, it is shorter than the
    buffer and is the first entries in full, followed, when some are left out,
    by the mark and how many. *)
Theorem tone_set_display_fits (s : dsd_tone_set) (size : nat) :
  match dsd_tone_set_format_display s size with
  | Some u => (24 <= size)%nat /\ display_spec s size u
  | None => (size < 24)%nat
  end.
Proof.
  unfold dsd_tone_set_format_display. destruct (Nat.ltb_spec size 24) as [|Hsz]; [done|]. split; [done|].
  rewrite count_entries. apply (display_loop_spec s size (length (entries s)) 0); [done|lia|].
  pose proof (entries_count_bound s). assert (E0 : shown_text s 0 = []) by reflexivity. rewrite E0. cbn [Nat.eqb negb length].
  destruct (length (entries s)) eqn:E; [lia|]. pose proof (more_text_size false (S n) ltac:(lia)). lia.
Qed.

(** ** Sets by signal *)

Lemma bit_canonical b : 0 <= b < 208 -> exists n, dsd_dcs_canonical (dsd_dcs_code (b / 2)) (b mod 2) = Some (n, 0) /\
  n ∈ k_dcs_codes /\ signal_bit b = 2 * dsd_dcs_code_index n /\ 0 <= dsd_dcs_code_index n < 104.
Proof.
  intros Hb. destruct (entry_canonical (code_of b) (entry_of_bit b Hb) eq_refl) as (n & En & Hn & Es & Hs).
  cbn [code_of index inverted] in En. exists n. split; [done|]. split; [done|]. rewrite Es in Hs. split; [|done].
  unfold signal_bit. rewrite En, (proj2 (Z.leb_le 0 _)) by lia. lia.
Qed.

Lemma by_signal_spec s : words_wf 4 (dcs s) ->
  words_wf 4 (dcs (tone_set_by_signal s)) /\ ctcss (tone_set_by_signal s) = ctcss s /\
  forall v, 0 <= v < 256 -> word_bit (dcs (tone_set_by_signal s)) v = true <->
    exists b, 0 <= b < 208 /\ word_bit (dcs s) b = true /\ signal_bit b = v.
Proof.
  intros W. unfold tone_set_by_signal. set (P := fun n t => words_wf 4 (dcs t) /\ ctcss t = ctcss s /\
    forall v, 0 <= v < 256 -> word_bit (dcs t) v = true <-> exists b, 0 <= b < Z.of_nat n /\ word_bit (dcs s) b = true /\ signal_bit b = v).
  enough (H : P 208%nat (for_ 0 TONE_SET_DCS_BITS (fun bit out =>
    if tone_set_dcs_bit s (Z.of_nat bit) then tone_set_dcs_put out (signal_bit (Z.of_nat bit)) else out) (mk_tones (ctcss s) (replicate 4 0)))) by exact H.
  apply (for_ind P); [unfold TONE_SET_DCS_BITS; lia| |].
  - split; [apply words_zero_wf|]. split; [done|]. intros v Hv. cbn [dcs]. rewrite (word_bit_zero 4).
    split; [done|]. intros (b & Hb & _). lia.
  - intros i t Hi (Wt & Ct & Ht). unfold TONE_SET_DCS_BITS in Hi. rewrite dcs_bit_word by lia.
    destruct (bit_canonical (Z.of_nat i) ltac:(lia)) as (n & _ & _ & Es & Hs). destruct (word_bit (dcs s) (Z.of_nat i)) eqn:E.
    + unfold tone_set_dcs_put. fold (word_put (dcs t) (signal_bit (Z.of_nat i))). split; [by apply word_put_wf|]. split; [done|].
      intros v Hv. cbn [dcs]. rewrite (word_bit_put 4), orb_true_iff, Z.eqb_eq, Ht by (first [assumption|lia]). split.
      * intros [->|(b & Hb & H)]; [exists (Z.of_nat i); split; [lia|done]|exists b; split; [lia|done]].
      * intros (b & Hb & H). destruct (decide (b = Z.of_nat i)) as [->|]; [left; symmetry; apply H|]. right. exists b. split; [lia|done].
    + split; [done|]. split; [done|]. intros v Hv. rewrite Ht by done. split; intros (b & Hb & H).
      * exists b. split; [lia|done].
      * destruct (decide (b = Z.of_nat i)) as [->|]; [destruct H; congruence|]. exists b. split; [lia|done].
Qed.

Lemma contains_dcs_spec s code inv : dsd_tone_set_contains_dcs s code inv = true <->
  exists want b, dsd_dcs_canonical code (if negb (inv =? 0) then 1 else 0) = Some want /\ 0 <= b < 208 /\
    word_bit (dcs s) b = true /\ dsd_dcs_canonical (dsd_dcs_code (b / 2)) (b mod 2) = Some want.
Proof.
  unfold dsd_tone_set_contains_dcs. destruct (dsd_dcs_canonical code _) as [want|].
  - rewrite existsb_exists. split.
    + intros (b & Hb & H). apply list_elem_of_In, elem_of_upto in Hb. apply andb_true_iff in H as [H1 H2].
      apply bool_decide_eq_true in H2. rewrite dcs_bit_word in H1 by lia. by exists want, b.
    + intros (w & b & [= <-] & Hb & H1 & H2). exists b. split; [apply list_elem_of_In, elem_of_upto; exact Hb|].
      rewrite dcs_bit_word by lia. rewrite H1. by apply bool_decide_eq_true.
  - split; [discriminate|]. by intros (w & b & ? & _).
Qed.

Lemma dcs_index_inj n n' : n ∈ k_dcs_codes -> n' ∈ k_dcs_codes -> dsd_dcs_code_index n = dsd_dcs_code_index n' -> n = n'.
Proof. intros Hn Hn' E. rewrite <- (code_at_index n Hn), <- (code_at_index n' Hn'). by rewrite E. Qed.

Lemma same_bits a b : words_wf 4 (dcs a) -> words_wf 4 (dcs b) ->
  (forall c i, dsd_tone_set_contains_dcs a c i = true -> dsd_tone_set_contains_dcs b c i = true) <->
  (forall v, 0 <= v < 256 -> word_bit (dcs (tone_set_by_signal a)) v = true -> word_bit (dcs (tone_set_by_signal b)) v = true).
Proof.
  intros Wa Wb. destruct (by_signal_spec a Wa) as (_ & _ & Ba), (by_signal_spec b Wb) as (_ & _ & Bb). split.
  - intros H v Hv Hav. apply Ba in Hav as (k & Hk & Hbit & <-); [|done]. apply Bb; [done|].
    assert (Hm : 0 <= k mod 2 < 2) by (apply Z.mod_pos_bound; lia).
    assert (Hf : (if negb (k mod 2 =? 0) then 1 else 0) = k mod 2) by (destruct (Z.eqb_spec (k mod 2) 0); cbn [negb]; lia).
    destruct (bit_canonical k Hk) as (n & En & Hn & Es & _).
    specialize (H (dsd_dcs_code (k / 2)) (k mod 2)). rewrite !contains_dcs_spec in H.
    destruct H as (want & k' & Ew & Hk' & Hbit' & Ec'); [exists (n, 0), k; rewrite Hf; done|].
    rewrite Hf, En in Ew. injection Ew as <-. exists k'. split; [done|]. split; [done|].
    destruct (bit_canonical k' Hk') as (n' & En' & _ & Es' & _). rewrite Ec' in En'. injection En' as <-. by rewrite Es, Es'.
  - intros H c i Ha. apply contains_dcs_spec in Ha as (want & k & Ew & Hk & Hbit & Ec). apply contains_dcs_spec.
    destruct (bit_canonical k Hk) as (n & En & Hn & Es & Hr). rewrite Ec in En. injection En as ->.
    assert (Hb : word_bit (dcs (tone_set_by_signal b)) (signal_bit k) = true).
    { apply H; [lia|]. apply Ba; [lia|]. by exists k. }
    apply Bb in Hb as (k' & Hk' & Hbit' & Es'); [|lia]. exists (n, 0), k'. split; [done|]. split; [done|]. split; [done|].
    destruct (bit_canonical k' Hk') as (n' & En' & Hn' & Es'' & _). rewrite En'. do 2 f_equal. apply dcs_index_inj; [done|done|]. lia.
Qed.

Lemma ctcss_index_at i : 0 <= i < 51 -> dsd_ctcss_tone_index (dsd_ctcss_tone_tenths i) = i.
Proof.
  intros Hi. unfold dsd_ctcss_tone_index, dsd_ctcss_tone_tenths.
  rewrite table_at_nth by (change (Z.of_nat (length k_ctcss_tones_tenths)) with 51; lia).
  apply table_index_at; [exact ctcss_ascending|change (Z.of_nat (length k_ctcss_tones_tenths)) with 51; lia].
Qed.

Lemma contains_ctcss_at s i : 0 <= i < 51 -> dsd_tone_set_contains_ctcss s (dsd_ctcss_tone_tenths i) = Z.testbit (ctcss s) i.
Proof.
  intros Hi. unfold dsd_tone_set_contains_ctcss. rewrite ctcss_index_at by done.
  rewrite (proj2 (Z.leb_le 0 i)) by lia. cbn [andb]. apply ctcss_bit_test. lia.
Qed.

Lemma same_ctcss a b : 0 <= ctcss a < 2 ^ 51 -> 0 <= ctcss b < 2 ^ 51 ->
  ctcss a = ctcss b <-> forall t, dsd_tone_set_contains_ctcss a t = dsd_tone_set_contains_ctcss b t.
Proof.
  intros Ra Rb. split; [intros E t; unfold dsd_tone_set_contains_ctcss, tone_set_ctcss_bit; by rewrite E|].
  intros H. apply Z.bits_inj'. intros i Hi. destruct (decide (i < 51)); [|by rewrite !(testbit_ge_pow2 51) by lia].
  specialize (H (dsd_ctcss_tone_tenths i)). by rewrite !contains_ctcss_at in H by lia.
Qed.

(** Two sets are compared by what they admit: the comparison by signal
    says yes exactly when the sets contain the same tones and the same DCS
    signals, however each signal is spelled in either set and in the
    question. *)
Lemma same_signals_spec (a b : dsd_tone_set) :
  words_wf 4 (dcs a) -> words_wf 4 (dcs b) -> 0 <= ctcss a < 2 ^ 51 -> 0 <= ctcss b < 2 ^ 51 ->
  dsd_tone_set_same_signals a b = true <->
    (forall t, dsd_tone_set_contains_ctcss a t = dsd_tone_set_contains_ctcss b t) /\
    (forall c i, dsd_tone_set_contains_dcs a c i = dsd_tone_set_contains_dcs b c i).
Proof.
  intros Wa Wb Ra Rb. rewrite <- same_ctcss by done. destruct (by_signal_spec a Wa) as (Wa' & Ca & _), (by_signal_spec b Wb) as (Wb' & Cb & _).
  unfold dsd_tone_set_same_signals, dsd_tone_set_equal. rewrite Ca, Cb, andb_true_iff, Z.eqb_eq, forallb_forall.
  assert (Hw : (forall w, In w (seq 0 4) -> ((dcs (tone_set_by_signal a)).[w] =? (dcs (tone_set_by_signal b)).[w]) = true) <->
    (forall c i, dsd_tone_set_contains_dcs a c i = dsd_tone_set_contains_dcs b c i)); [|by rewrite Hw].
  split.
  - intros H. assert (E : dcs (tone_set_by_signal a) = dcs (tone_set_by_signal b)).
    { apply list_eq_nth; [by rewrite (words_len 4 _ Wa'), (words_len 4 _ Wb')|]. intros w Hw. rewrite (words_len 4 _ Wa') in Hw.
      apply Z.eqb_eq, H, in_seq. lia. }
    intros c i. apply Bool.eq_iff_eq_true. split; revert c i; apply same_bits; try done; intros v _; by rewrite E.
  - intros H w _. apply Z.eqb_eq. f_equal. apply (words_ext 4); [done|done|]. intros v Hv.
    assert (Hab : forall c i, dsd_tone_set_contains_dcs a c i = true -> dsd_tone_set_contains_dcs b c i = true) by (intros c i; by rewrite H).
    assert (Hba : forall c i, dsd_tone_set_contains_dcs b c i = true -> dsd_tone_set_contains_dcs a c i = true) by (intros c i; by rewrite H).
    rewrite (same_bits a b Wa Wb) in Hab. rewrite (same_bits b a Wb Wa) in Hba.
    apply Bool.eq_iff_eq_true. split; [apply Hab|apply Hba]; lia.
Qed.

(** D023I in one set, D047N in the other. *)
Lemma same_signals_spec_witness :
  let a := tone_set_dcs_put tones_zero 1 in let b := tone_set_dcs_put tones_zero 14 in
  dsd_tone_set_same_signals a b = true /\ dsd_tone_set_contains_dcs a 39 0 = dsd_tone_set_contains_dcs b 39 0.
Proof.
  intros a b. assert (E : dsd_tone_set_same_signals a b = true) by (vm_compute; reflexivity). split; [exact E|].
  refine (proj2 (proj1 (same_signals_spec a b _ _ _ _) E) 39 0).
  - apply (word_put_wf 4 (replicate 4 0)), words_zero_wf.
  - apply (word_put_wf 4 (replicate 4 0)), words_zero_wf.
  - split; reflexivity || discriminate.
  - split; reflexivity || discriminate.
Defined.
