(* ===== verification/Receive.v ===== *)
(** * [runtime/receive_policy.c], [core/util/receive.c]: the receive policy

    A policy has a filter for each kind of identifier (time slot, DMR colour
    code, NXDN RAN, P25 NAC): a set of identifiers to block and a set to
    allow, where an empty allow set allows all.  A reception is judged by its
    identity; a trunking context remembers the code last verified on each of
    sixteen voice channels, to judge a grant before it is followed.

    A set is the array of sixty-four 64-bit words of the source, a text a list
    of character codes.  The error texts are left out: a rejected text is
    [None]. *)
From S2P Require Import Prelude SlashText WordSet AnalogTones.

(** ** Sets of identifiers *)

Definition SET_WORDS : nat := 64.
Notation receive_set := (list Z).
Definition set_zero : receive_set := replicate SET_WORDS 0.

Definition dsd_receive_set_contains (s : receive_set) (v : Z) : bool :=
  (v <? 4096) && negb (Z.land (Z.shiftr (s.[Z.to_nat (v / 64)]) (v mod 64)) 1 =? 0).

Definition receive_set_empty (s : receive_set) : bool := forallb (fun w => w =? 0) s.

(** [set->bits[v / 64] |= UINT64_C(1) << (v % 64)]. *)
Definition receive_set_add (s : receive_set) (v : Z) : receive_set :=
  s.[Z.to_nat (v / 64) <- Z.lor (s.[Z.to_nat (v / 64)]) (u64 (Z.shiftl 1 (v mod 64)))].

(** *** Values as text *)

Variant dsd_receive_kind :=
  | DSD_RECEIVE_SLOT | DSD_RECEIVE_DCC | DSD_RECEIVE_RAN | DSD_RECEIVE_NAC
  | DSD_RECEIVE_CTCSS | DSD_RECEIVE_DCS | DSD_RECEIVE_NONE.
#[export] Instance receive_kind_eq_dec : EqDecision dsd_receive_kind.
Proof. solve_decision. Defined.

(** The kinds with a filter, below [DSD_RECEIVE_FILTER_COUNT]. *)
Definition filter_kind (k : dsd_receive_kind) : option nat :=
  match k with
  | DSD_RECEIVE_SLOT => Some 0%nat | DSD_RECEIVE_DCC => Some 1%nat
  | DSD_RECEIVE_RAN => Some 2%nat | DSD_RECEIVE_NAC => Some 3%nat
  | _ => None
  end.

Definition minimum (k : nat) : Z := [1; 0; 0; 1].[k].
Definition maximum (k : nat) : Z := [2; 15; 63; 0xFFE].[k].
Definition hexadecimal (k : nat) : bool := Nat.eqb k 3.
Definition base (k : nat) : Z := if hexadecimal k then 16 else 10.

(** The value of a digit, as [strtol] and [strspn] take it. *)
Definition digit_value (b c : Z) : option Z :=
  if (48 <=? c) && (c <=? 57) then Some (c - 48)
  else if (b =? 16) && (97 <=? c) && (c <=? 102) then Some (c - 87)
  else if (b =? 16) && (65 <=? c) && (c <=? 70) then Some (c - 55)
  else None.

(** [strtol] on a text of digits. *)
Fixpoint digits_from (b acc : Z) (t : list Z) : option Z :=
  match t with
  | [] => Some acc
  | c :: t => match digit_value b c with Some d => digits_from b (acc * b + d) t | None => None end
  end.

(** [dsd_receive_value_parse] for the kinds with a filter. *)
Definition receive_numeric_value (k : nat) (text : list Z) : option Z :=
  let digits :=
    match text with
    | 48 :: c :: rest => if hexadecimal k && ((c =? 120) || (c =? 88)) then rest else text
    | _ => text
    end in
  match digits with
  | [] => None
  | _ =>
      match digits_from (base k) 0 digits with
      | Some v => if (minimum k <=? v) && (v <=? maximum k) then Some v else None
      | None => None
      end
  end.

Definition hex_digit (d : Z) : Z := if d <? 10 then 48 + d else 55 + d.

(** [dsd_receive_value_format] for the kinds with a filter: ["%03X"] for a
    NAC, ["%u"] else. *)
Definition dsd_receive_value_format (k : nat) (v : Z) : list Z :=
  if hexadecimal k then [hex_digit (v / 256 mod 16); hex_digit (v / 16 mod 16); hex_digit (v mod 16)]
  else decimal 4 v.

(** *** Sets as text: identifiers separated by a slash *)

Definition DSD_RECEIVE_LIST_MAX : nat := 2047.
Definition ENTRY_SIZE : nat := 16.

Definition receive_append (out : list Z) (capacity : nat) (text : list Z) : option (list Z) :=
  if (capacity <=? length out + length text)%nat then None else Some (out ++ text).

(** One turn of the loop of [dsd_receive_set_format]. *)
Definition format_step (k : nat) (s : receive_set) (capacity i : nat) (out : option (list Z)) : option (list Z) :=
  match out with
  | None => None
  | Some out =>
      if dsd_receive_set_contains s (Z.of_nat i) then
        let entry := dsd_receive_value_format k (Z.of_nat i) in
        match (match out with [] => Some out | _ => receive_append out capacity [SLASH] end) with
        | None => None
        | Some out => receive_append out capacity entry
        end
      else Some out
  end.

Definition dsd_receive_set_format (k : nat) (s : receive_set) (capacity : nat) : option (list Z) :=
  if (capacity =? 0)%nat then None else for_ 0 4096 (format_step k s capacity) (Some []).

(** The loop over the entries; every turn takes at least one character. *)
Fixpoint parse_loop (fuel : nat) (k : nat) (p : list Z) (parsed : receive_set) : option receive_set :=
  match fuel with
  | O => None
  | S fuel =>
      match p with
      | [] => Some parsed
      | _ =>
          let length := strcspn p in
          if (length =? 0)%nat || (ENTRY_SIZE <=? length)%nat then None
          else match receive_numeric_value k (take length p) with
               | None => None
               | Some value =>
                   if dsd_receive_set_contains parsed value then None
                   else
                     let parsed := receive_set_add parsed value in
                     match drop length p with
                     | [] => Some parsed
                     | _ :: [] => None
                     | _ :: p => parse_loop fuel k p parsed
                     end
               end
      end
  end.

Definition dsd_receive_set_parse (k : nat) (text : list Z) : option receive_set :=
  if (3 <? k)%nat || (DSD_RECEIVE_LIST_MAX <? length text)%nat then None
  else match parse_loop (S (length text)) k text set_zero with
       | None => None
       | Some parsed =>
           match dsd_receive_set_format k parsed (DSD_RECEIVE_LIST_MAX + 1) with
           | None => None
           | Some _ => Some parsed
           end
       end.

(** ** The policy *)

Variant dsd_receive_verdict :=
  | DSD_RECEIVE_OFF | DSD_RECEIVE_CHECKING | DSD_RECEIVE_ALLOWED | DSD_RECEIVE_REJECTED.
#[export] Instance receive_verdict_eq_dec : EqDecision dsd_receive_verdict.
Proof. solve_decision. Defined.

Record dsd_receive_filter := mk_filter { allow : receive_set; block : receive_set; enabled : bool }.

(** The filters of the four kinds; the names are left out. *)
Definition dsd_receive_policy : Type := list dsd_receive_filter.

#[export] Instance receive_filter_inhabited : Inhabited dsd_receive_filter :=
  populate (mk_filter set_zero set_zero false).

Definition default_policy : dsd_receive_policy := replicate 4 inhabitant.

Record dsd_receive_identity := mk_identity {
  value : Z;
  kind : dsd_receive_kind;
  known : bool;
  slot : Z;
  slot_pending : bool
}.

Definition receive_filter_match (f : dsd_receive_filter) (known : bool) (v : Z) : dsd_receive_verdict :=
  if negb (enabled f) then DSD_RECEIVE_OFF
  else if negb known then DSD_RECEIVE_CHECKING
  else if dsd_receive_set_contains (block f) v
          || (negb (receive_set_empty (allow f)) && negb (dsd_receive_set_contains (allow f) v))
  then DSD_RECEIVE_REJECTED else DSD_RECEIVE_ALLOWED.

Definition is_rejected (v : dsd_receive_verdict) : bool := bool_decide (v = DSD_RECEIVE_REJECTED).

Definition dsd_receive_policy_match (p : dsd_receive_policy) (id : dsd_receive_identity) : dsd_receive_verdict :=
  let slot_verdict :=
    if negb (slot id =? 0) then receive_filter_match (p !!! 0%nat) true (slot id)
    else if slot_pending id then receive_filter_match (p !!! 0%nat) false 0
    else DSD_RECEIVE_OFF in
  let code :=
    match filter_kind (kind id) with
    | Some (S k) => receive_filter_match (p !!! S k) (known id) (value id)
    | _ => DSD_RECEIVE_OFF
    end in
  if is_rejected slot_verdict || is_rejected code then DSD_RECEIVE_REJECTED
  else if bool_decide (code = DSD_RECEIVE_CHECKING) || bool_decide (slot_verdict = DSD_RECEIVE_CHECKING)
  then DSD_RECEIVE_CHECKING
  else if bool_decide (slot_verdict = DSD_RECEIVE_ALLOWED) || bool_decide (code = DSD_RECEIVE_ALLOWED)
  then DSD_RECEIVE_ALLOWED else DSD_RECEIVE_OFF.

Definition dsd_receive_policy_filters_enabled (p : dsd_receive_policy) : bool :=
  enabled (p !!! 0%nat) || enabled (p !!! 1%nat) || enabled (p !!! 2%nat) || enabled (p !!! 3%nat).

(** ** The identity of a reception *)

(** The synctypes. *)
Definition DSD_SYNC_IS_DMR (s : Z) : bool := existsb (Z.eqb s) [10; 11; 12; 13; 32; 33; 34].
Definition DSD_SYNC_IS_P25P1 (s : Z) : bool := existsb (Z.eqb s) [0; 1].
Definition DSD_SYNC_IS_P25P2 (s : Z) : bool := existsb (Z.eqb s) [35; 36].
Definition DSD_SYNC_IS_P25 (s : Z) : bool := DSD_SYNC_IS_P25P1 s || DSD_SYNC_IS_P25P2 s.
Definition DSD_SYNC_IS_NXDN (s : Z) : bool := existsb (Z.eqb s) [28; 29].
Definition DSD_SYNC_IS_X2TDMA (s : Z) : bool := existsb (Z.eqb s) [2; 3; 4; 5].
Definition DSD_SYNC_ANALOG : Z := 39.
Definition DSD_SYNC_DMR_BS_DATA_POS : Z := 10.
Definition DSD_SYNC_DMR_BS_VOICE_POS : Z := 12.

(** What the identity is read from. *)
Record rx_state := mk_rx {
  dmr_mono_rx_slot : Z;          (** 0 none, 1 pending, 2 and 3 the proven slot *)
  dmr_color_code : Z;
  nac : Z;
  p2_cc : Z;
  p2_cc_verified : Z;
  nxdn_last_ran : Z;
  nxdn_last_ran_stand_in : Z;
  analog_carrier_open : bool;
  tone_state : Z;                (** [analog_rx] *)
  tone_kind : Z;
  ctcss_tenths_hz : Z;
  dcs_code : Z;
  dcs_inverted : Z;
  synctype : Z;
  lastsynctype : Z;
  receive_context_protocol : Z;
  receive_context_active : bool
}.

Definition DSD_SYNC_NONE : Z := -1.
Definition DSD_ANALOG_TONE_STATE_LOCKED : Z := 3.
Definition DSD_ANALOG_TONE_STATE_NONE : Z := 4.
Definition DSD_ANALOG_TONE_KIND_CTCSS : Z := 1.
Definition DSD_ANALOG_TONE_KIND_DCS : Z := 2.

Definition DSD_DMR_MONO_RX_NONE : Z := 0.
Definition DSD_DMR_MONO_RX_TS1 : Z := 2.

Definition access_code_valid_nac (n : Z) : bool := (1 <=? n) && (n <=? 0xFFE).

Definition access_code_read_dmr (st : rx_state) : option Z :=
  if 15 <? dmr_color_code st then None else Some (u16 (dmr_color_code st)).

Definition access_code_read_p25 (st : rx_state) (protocol : Z) : option Z :=
  if DSD_SYNC_IS_P25P1 protocol then
    if (nac st <? 0) || negb (access_code_valid_nac (nac st)) then None else Some (u16 (nac st))
  else if (p2_cc_verified st =? 0) || negb (access_code_valid_nac (p2_cc st)) then None else Some (u16 (p2_cc st)).

Definition access_code_read_nxdn (st : rx_state) : option Z :=
  if (64 <=? nxdn_last_ran st) || negb (nxdn_last_ran_stand_in st =? 0) then None else Some (u16 (nxdn_last_ran st)).

(** [dsd_access_code_current] for the protocols whose code a filter judges. *)
Definition access_code_read (st : rx_state) (protocol : Z) : option Z :=
  if DSD_SYNC_IS_DMR protocol then access_code_read_dmr st
  else if DSD_SYNC_IS_P25 protocol then access_code_read_p25 st protocol
  else if DSD_SYNC_IS_NXDN protocol then access_code_read_nxdn st
  else None.

(** The over-the-air slot, and whether it is still to be proven. *)
Definition receive_identity_slot (st : rx_state) (protocol lane : Z) : Z * bool :=
  if DSD_SYNC_IS_DMR protocol && negb (dmr_mono_rx_slot st =? DSD_DMR_MONO_RX_NONE) then
    if DSD_DMR_MONO_RX_TS1 <=? dmr_mono_rx_slot st
    then (u8 (dmr_mono_rx_slot st - DSD_DMR_MONO_RX_TS1 + 1), false) else (0, true)
  else if (DSD_SYNC_IS_DMR protocol || DSD_SYNC_IS_P25P2 protocol || DSD_SYNC_IS_X2TDMA protocol)
          && (0 <=? lane) && (lane <=? 1) then (u8 (lane + 1), false)
  else (0, false).

(** ** The memory of the voice channels *)

Record dsd_receive_carrier := mk_carrier { c_freq_hz : Z; c_value : Z; c_kind : dsd_receive_kind }.
Definition DSD_RECEIVE_CARRIER_MEMORY : nat := 16.

Record dsd_receive_carriers := mk_carriers { c_entries : list dsd_receive_carrier; c_next : Z }.

#[export] Instance carrier_inhabited : Inhabited dsd_receive_carrier := populate (mk_carrier 0 0 DSD_RECEIVE_SLOT).
Definition carriers_zero : dsd_receive_carriers :=
  mk_carriers (replicate DSD_RECEIVE_CARRIER_MEMORY inhabitant) 0.

Definition find_carrier (l : list dsd_receive_carrier) (freq : Z) : option nat :=
  fst <$> list_find (fun c => c_freq_hz c = freq) (take DSD_RECEIVE_CARRIER_MEMORY l).

(** What the tone decoder says: kind, value, known. *)
Definition receive_analog_identity (st : rx_state) : dsd_receive_kind * Z * bool :=
  if tone_state st =? DSD_ANALOG_TONE_STATE_NONE then (DSD_RECEIVE_NONE, 0, true)
  else if tone_state st =? DSD_ANALOG_TONE_STATE_LOCKED then
    if tone_kind st =? DSD_ANALOG_TONE_KIND_CTCSS then (DSD_RECEIVE_CTCSS, u16 (ctcss_tenths_hz st), true)
    else if tone_kind st =? DSD_ANALOG_TONE_KIND_DCS then
      match dsd_dcs_canonical (dcs_code st) (dcs_inverted st) with
      | Some (code, inverted) => (DSD_RECEIVE_DCS, u16 (code * 2 + inverted), true)
      | None => (DSD_RECEIVE_NONE, 0, false)
      end
    else (DSD_RECEIVE_NONE, 0, false)
  else (DSD_RECEIVE_NONE, 0, false).

Definition dsd_receive_identity_current (st : rx_state) (protocol lane : Z) : dsd_receive_identity :=
  let '(slot, pending) := receive_identity_slot st protocol lane in
  let kind :=
    if DSD_SYNC_IS_DMR protocol then DSD_RECEIVE_DCC
    else if DSD_SYNC_IS_P25 protocol then DSD_RECEIVE_NAC
    else if DSD_SYNC_IS_NXDN protocol then DSD_RECEIVE_RAN
    else DSD_RECEIVE_NONE in
  if negb (bool_decide (kind = DSD_RECEIVE_NONE)) then
    match access_code_read st protocol with
    | Some v => mk_identity v kind true slot pending
    | None => mk_identity 0 kind false slot pending
    end
  else if (protocol =? DSD_SYNC_ANALOG) && analog_carrier_open st then
    let '(kind, v, known) := receive_analog_identity st in mk_identity v kind known slot pending
  else mk_identity 0 kind false slot pending.

Definition dsd_receive_allows (p : dsd_receive_policy) (st : rx_state) (protocol lane : Z) : bool :=
  if negb (dsd_receive_policy_filters_enabled p) then true
  else
    let v := dsd_receive_policy_match p (dsd_receive_identity_current st protocol lane) in
    bool_decide (v = DSD_RECEIVE_OFF) || bool_decide (v = DSD_RECEIVE_ALLOWED).

Definition admits (v : dsd_receive_verdict) : bool :=
  bool_decide (v = DSD_RECEIVE_OFF) || bool_decide (v = DSD_RECEIVE_ALLOWED).

Definition dsd_receive_identity_admitted (p : dsd_receive_policy) (id : dsd_receive_identity) : bool :=
  if negb (dsd_receive_policy_filters_enabled p) then true else admits (dsd_receive_policy_match p id).

(** The protocol a reception is judged by when the caller names none. *)
Definition receive_protocol (st : rx_state) : Z :=
  if receive_context_active st then receive_context_protocol st
  else if synctype st =? DSD_SYNC_NONE then lastsynctype st else synctype st.

Definition two_slot (protocol : Z) : bool :=
  DSD_SYNC_IS_DMR protocol || DSD_SYNC_IS_P25P2 protocol || DSD_SYNC_IS_X2TDMA protocol.

(** Each over-the-air slot of the carrier on its own. *)
Definition dsd_receive_carrier_allows (p : dsd_receive_policy) (st : rx_state) : bool :=
  if negb (dsd_receive_policy_filters_enabled p) then true
  else
    let protocol := receive_protocol st in
    let id := dsd_receive_identity_current st protocol (-1) in
    if negb (two_slot protocol) then admits (dsd_receive_policy_match p id)
    else forallb (fun s => admits (dsd_receive_policy_match p (mk_identity (value id) (kind id) (known id) s false))) [1; 2].

Definition dsd_receive_current_allows (p : dsd_receive_policy) (st : rx_state) (lane : Z) : bool :=
  dsd_receive_allows p st (receive_protocol st) lane.

(** The state with a context, and the context to restore. *)
Definition set_context (protocol : Z) (active : bool) (st : rx_state) : rx_state :=
  mk_rx (dmr_mono_rx_slot st) (dmr_color_code st) (nac st) (p2_cc st) (p2_cc_verified st) (nxdn_last_ran st)
    (nxdn_last_ran_stand_in st) (analog_carrier_open st) (tone_state st) (tone_kind st) (ctcss_tenths_hz st)
    (dcs_code st) (dcs_inverted st) (synctype st) (lastsynctype st) protocol active.

Definition dsd_receive_context_begin (protocol : Z) (st : rx_state) : (Z * bool) * rx_state :=
  ((receive_context_protocol st, receive_context_active st), set_context protocol true st).

Definition dsd_receive_context_end (saved : Z * bool) (st : rx_state) : rx_state := set_context (fst saved) (snd saved) st.

Definition dsd_receive_identity_changed (a b : dsd_receive_identity) : bool :=
  if negb (slot a =? 0) && negb (slot b =? 0) && negb (slot a =? slot b) then true
  else known a && known b && (negb (bool_decide (kind a = kind b)) || negb (value a =? value b)).

Definition dsd_receive_identity_merge (received held : dsd_receive_identity) : dsd_receive_identity :=
  let held := if known received then mk_identity (value received) (kind received) true (slot held) (slot_pending held) else held in
  if negb (slot received =? 0) then mk_identity (value held) (kind held) (known held) (slot received) false
  else if slot held =? 0 then mk_identity (value held) (kind held) (known held) (slot held) (slot_pending received)
  else held.

(** A grant constrains the slot before the code is received. *)
Definition dsd_receive_grant_allows_slot (p : dsd_receive_policy) (s : Z) : bool :=
  negb (is_rejected (dsd_receive_policy_match p (mk_identity 0 DSD_RECEIVE_NONE false (u8 (s + 1)) false))).

Definition dsd_receive_grant_allows (p : dsd_receive_policy) (protocol s : Z) : bool :=
  if negb (DSD_SYNC_IS_DMR protocol || DSD_SYNC_IS_P25P2 protocol || DSD_SYNC_IS_X2TDMA protocol) then true
  else if (s <? 0) || (1 <? s) then dsd_receive_grant_allows_slot p 0 || dsd_receive_grant_allows_slot p 1
  else dsd_receive_grant_allows_slot p s.

Definition dsd_receive_carriers_note (st : rx_state) (protocol freq : Z) (c : dsd_receive_carriers)
  : dsd_receive_carriers :=
  if freq <=? 0 then c
  else
    let id := dsd_receive_identity_current st protocol (-1) in
    match known id, filter_kind (kind id) with
    | true, Some (S _) =>
        let e := mk_carrier freq (value id) (kind id) in
        match find_carrier (c_entries c) freq with
        | Some i => mk_carriers (<[i := e]> (c_entries c)) (c_next c)
        | None =>
            let i := c_next c mod Z.of_nat DSD_RECEIVE_CARRIER_MEMORY in
            mk_carriers (<[Z.to_nat i := e]> (c_entries c))
              (u32 (c_next c + 1) mod Z.of_nat DSD_RECEIVE_CARRIER_MEMORY)
        end
    | _, _ => c
    end.

Definition dsd_receive_carriers_rejects (c : dsd_receive_carriers) (p : dsd_receive_policy) (freq : Z) : bool :=
  if freq <=? 0 then false
  else match find_carrier (c_entries c) freq with
       | None => false
       | Some i =>
           let e := c_entries c !!! i in
           is_rejected (dsd_receive_policy_match p (mk_identity (c_value e) (c_kind e) true 0 false))
       end.
(** ** Sets, bit by bit *)

Notation set_wf := (words_wf SET_WORDS).

Definition range_ok (k : nat) (v : Z) : Prop := minimum k <= v <= maximum k.

(** A set of identifiers of kind [k]. *)
Record set_valid (k : nat) (s : receive_set) : Prop := {
  valid_wf : set_wf s;
  valid_range : forall v, 0 <= v -> dsd_receive_set_contains s v = true -> range_ok k v
}.

Lemma contains_testbit s v : 0 <= v < 4096 ->
  dsd_receive_set_contains s v = word_bit s v.
Proof.
  intros Hv. unfold dsd_receive_set_contains, word_bit. destruct (Z.ltb_spec v 4096); [|lia]. cbn [andb].
  rewrite shiftr_land1 by (apply Z.mod_pos_bound; lia). by destruct (Z.testbit _ _).
Qed.

Lemma contains_zero v : 0 <= v -> dsd_receive_set_contains set_zero v = false.
Proof.
  intros Hv. unfold dsd_receive_set_contains, set_zero. rewrite nth_replicate, Z.shiftr_0_l, Z.land_0_l.
  apply andb_false_r.
Qed.

Lemma set_zero_wf : set_wf set_zero.
Proof. apply words_zero_wf. Qed.

Lemma set_add_wf s v : set_wf s -> set_wf (receive_set_add s v).
Proof. apply word_put_wf. Qed.

Lemma set_ext s s' : set_wf s -> set_wf s' ->
  (forall v, 0 <= v < 4096 -> dsd_receive_set_contains s v = dsd_receive_set_contains s' v) -> s = s'.
Proof. intros W W' H. apply (words_ext SET_WORDS); [done|done|]. intros v Hv. rewrite <- !contains_testbit by done. by apply H. Qed.

Lemma contains_add s v w : set_wf s -> 0 <= v < 4096 -> 0 <= w < 4096 ->
  dsd_receive_set_contains (receive_set_add s v) w = (w =? v) || dsd_receive_set_contains s w.
Proof. intros W Hv Hw. rewrite !contains_testbit by done. by apply (word_bit_put SET_WORDS). Qed.

(** ** Values *)

Lemma hex_digit_value d : 0 <= d < 16 -> digit_value 16 (hex_digit d) = Some d.
Proof.
  intros Hd. apply (check_Z (fun d => bool_decide (digit_value 16 (hex_digit d) = Some d)) 16) in Hd; [|reflexivity].
  by apply bool_decide_eq_true in Hd.
Qed.

Lemma hex_digit_char d : 0 <= d < 16 -> 48 <= hex_digit d <= 70 /\ hex_digit d <> SLASH.
Proof. intros Hd. unfold hex_digit, SLASH. destruct (d <? 10) eqn:E; [apply Z.ltb_lt in E|apply Z.ltb_ge in E]; lia. Qed.

(** What is written for a value is one entry that is read back. *)
Record entry_ok (k : nat) (v : Z) : Prop := {
  entry_value : receive_numeric_value k (dsd_receive_value_format k v) = Some v;
  entry_size : (1 <= length (dsd_receive_value_format k v) < ENTRY_SIZE)%nat;
  entry_noslash : Forall (fun c => c <> SLASH) (dsd_receive_value_format k v)
}.

Lemma nac_entry v : range_ok 3 v -> entry_ok 3 v.
Proof.
  unfold range_ok, minimum, maximum. cbn [nth]. intros Hv.
  assert (H1 : 0 <= v / 256 mod 16 < 16) by (apply Z.mod_pos_bound; lia).
  assert (H2 : 0 <= v / 16 mod 16 < 16) by (apply Z.mod_pos_bound; lia).
  assert (H3 : 0 <= v mod 16 < 16) by (apply Z.mod_pos_bound; lia).
  assert (E : (v / 256 mod 16 * 16 + v / 16 mod 16) * 16 + v mod 16 = v) by divmod.
  split.
  - cbn [dsd_receive_value_format hexadecimal Nat.eqb]. unfold receive_numeric_value.
    cbn [hexadecimal Nat.eqb andb base].
    pose proof (hex_digit_char _ H2) as C2.
    assert (Hx : (hex_digit (v / 16 mod 16) =? 120) || (hex_digit (v / 16 mod 16) =? 88) = false).
    { destruct (Z.eqb_spec (hex_digit (v / 16 mod 16)) 120), (Z.eqb_spec (hex_digit (v / 16 mod 16)) 88); lia || done. }
    assert (Hd : digits_from 16 0 [hex_digit (v / 256 mod 16); hex_digit (v / 16 mod 16); hex_digit (v mod 16)] = Some v).
    { cbn [digits_from]. rewrite !hex_digit_value by done. f_equal. lia. }
    assert (Hr : (minimum 3 <=? v) && (v <=? maximum 3) = true) by (unfold minimum, maximum; cbn [nth]; lia).
    transitivity (match digits_from 16 0 [hex_digit (v / 256 mod 16); hex_digit (v / 16 mod 16); hex_digit (v mod 16)] with
                  | Some v => if (minimum 3 <=? v) && (v <=? maximum 3) then Some v else None | None => None end).
    + destruct (decide (hex_digit (v / 256 mod 16) = 48)) as [Eq|Ne].
      * rewrite Eq, Hx. done.
      * destruct (hex_digit (v / 256 mod 16)) as [|p|p]; try done.
        do 6 (destruct p as [p|p|]; try done).
    + by rewrite Hd, Hr.
  - cbn. unfold ENTRY_SIZE. lia.
  - cbn. repeat constructor; by apply hex_digit_char.
Qed.

Lemma value_entry k v : (k <= 3)%nat -> range_ok k v -> entry_ok k v.
Proof.
  intros Hk Hv. destruct (decide (k = 3%nat)) as [->|Hne]; [by apply nac_entry|].
  set (P := fun v => bool_decide (receive_numeric_value k (dsd_receive_value_format k v) = Some v) &&
    (1 <=? length (dsd_receive_value_format k v))%nat && (length (dsd_receive_value_format k v) <? ENTRY_SIZE)%nat &&
    forallb (fun c => negb (c =? SLASH)) (dsd_receive_value_format k v)).
  assert (H : (minimum k <=? v) && (v <=? maximum k) && negb (P v) = false).
  { assert (0 <= v < Z.of_nat 64).
    { destruct k as [|[|[|]]]; unfold range_ok, minimum, maximum in Hv; cbn [nth] in Hv; lia. }
    apply negb_true_iff.
    apply (check_Z (fun v => negb ((minimum k <=? v) && (v <=? maximum k) && negb (P v))) 64); [|done].
    destruct k as [|[|[|]]]; [vm_compute; reflexivity..|lia]. }
  unfold range_ok in Hv. rewrite !(proj2 (Z.leb_le _ _)) in H by lia.
  apply negb_false_iff in H. unfold P in H. rewrite !andb_true_iff in H. clear P. destruct H as [[[H1 H2] H3] H4].
  split.
  - by apply bool_decide_eq_true in H1.
  - apply Nat.leb_le in H2. apply Nat.ltb_lt in H3. lia.
  - rewrite forallb_forall in H4. apply Forall_forall. intros c Hc. apply list_elem_of_In in Hc.
    specialize (H4 c Hc). by destruct (Z.eqb_spec c SLASH).
Qed.

(** ** The text of a set *)

(** The identifiers of a set below [n], ascending. *)
Definition elements_upto (s : receive_set) (n : nat) : list Z :=
  filter (fun v => dsd_receive_set_contains s v = true) (map Z.of_nat (seq 0 n)).

Definition set_text (k : nat) (s : receive_set) : list Z :=
  join (map (dsd_receive_value_format k) (elements_upto s 4096)).

Lemma format_nonempty k v : dsd_receive_value_format k v <> [].
Proof. unfold dsd_receive_value_format. destruct (hexadecimal k); [done|]. by intros [_ H]%app_eq_nil. Qed.

Lemma elements_upto_S s n :
  elements_upto s (S n) = elements_upto s n ++ (if dsd_receive_set_contains s (Z.of_nat n) then [Z.of_nat n] else []).
Proof.
  unfold elements_upto. rewrite seq_S, map_app, filter_app. f_equal. cbn [map Nat.add].
  destruct (dsd_receive_set_contains s (Z.of_nat n)) eqn:E.
  - by rewrite filter_cons_True by done.
  - by rewrite filter_cons_False by (by rewrite E).
Qed.

Lemma format_join k s capacity u : dsd_receive_set_format k s capacity = Some u -> u = set_text k s.
Proof.
  unfold dsd_receive_set_format, set_text. destruct (capacity =? 0)%nat; [done|]. revert u.
  set (P := fun n (out : option (list Z)) =>
    forall u, out = Some u -> u = join (map (dsd_receive_value_format k) (elements_upto s n))).
  enough (H : P 4096%nat (for_ 0 4096 (format_step k s capacity) (Some []))) by exact H.
  apply (for_ind P); [lia|by intros u [= <-]|]. intros i out _ IH u. unfold format_step.
  rewrite elements_upto_S. destruct out as [out|]; [|done]. specialize (IH out eq_refl).
  destruct (dsd_receive_set_contains s (Z.of_nat i)) eqn:E; [|intros [= <-]; by rewrite app_nil_r].
  destruct (elements_upto s i) as [|v vs] eqn:Ev.
  - subst out. cbn [map join]. unfold receive_append. cbn. destruct (_ <=? _)%nat; [done|]. intros [= <-].
    by rewrite app_nil_r.
  - rewrite map_app. cbn [map] in *. rewrite join_snoc, <- IH by done.
    destruct out as [|c out].
    { exfalso. cbn in IH. by destruct (dsd_receive_value_format k v) eqn:Ef; [apply format_nonempty in Ef|]. }
    unfold receive_append. destruct (_ <=? _)%nat; [done|]. destruct (_ <=? _)%nat; [done|]. intros [= <-].
    by rewrite <- app_assoc.
Qed.

Lemma format_fits k s capacity u : dsd_receive_set_format k s capacity = Some u -> (length u < capacity)%nat.
Proof.
  unfold dsd_receive_set_format. destruct (Nat.eqb_spec capacity 0); [done|]. revert u.
  apply (for_inv (fun out => forall u, out = Some u -> (length u < capacity)%nat)); [intros u [= <-]; cbn; lia|].
  intros i out _ IH u. unfold format_step. destruct out as [out|]; [|done].
  destruct (dsd_receive_set_contains _ _); [|apply IH]. destruct (match out with [] => _ | _ => _ end) as [out'|]; [|done].
  unfold receive_append. destruct (Nat.leb_spec capacity (length out' + length (dsd_receive_value_format k (Z.of_nat i)))); [done|].
  intros [= <-]. rewrite length_app. lia.
Qed.

(** ** Reading back *)

Lemma parse_loop_S fuel k p parsed : p <> [] ->
  parse_loop (S fuel) k p parsed =
    let length := strcspn p in
    if (length =? 0)%nat || (ENTRY_SIZE <=? length)%nat then None
    else match receive_numeric_value k (take length p) with
         | None => None
         | Some value =>
             if dsd_receive_set_contains parsed value then None
             else
               let parsed := receive_set_add parsed value in
               match drop length p with
               | [] => Some parsed
               | _ :: [] => None
               | _ :: p => parse_loop fuel k p parsed
               end
         end.
Proof. by destruct p. Qed.

(** One entry, then the rest. *)
Lemma parse_entry fuel k v rest parsed : entry_ok k v -> dsd_receive_set_contains parsed v = false ->
  (rest = [] \/ exists t, rest = SLASH :: t /\ t <> []) ->
  parse_loop (S fuel) k (dsd_receive_value_format k v ++ rest) parsed =
    match rest with [] => Some (receive_set_add parsed v) | _ :: t => parse_loop fuel k t (receive_set_add parsed v) end.
Proof.
  intros [Hv [Hs1 Hs2] Hn] Hc Hr. set (e := dsd_receive_value_format k v) in *.
  rewrite parse_loop_S by (by destruct e). cbn zeta.
  assert (Hr' : rest = [] \/ exists t, rest = SLASH :: t) by naive_solver.
  rewrite (strcspn_app _ _ Hn Hr').
  destruct (Nat.eqb_spec (length e) 0); [lia|]. destruct (Nat.leb_spec ENTRY_SIZE (length e)); [lia|]. cbn [orb].
  rewrite take_app_length, Hv, Hc, drop_app_length.
  destruct Hr as [-> | (t & -> & Ht)]; [done|]. by destruct t.
Qed.

Lemma parse_join fuel k vs parsed :
  (k <= 3)%nat -> set_wf parsed -> Forall (range_ok k) vs -> NoDup vs ->
  Forall (fun v => dsd_receive_set_contains parsed v = false) vs -> vs <> [] -> (length vs <= fuel)%nat ->
  parse_loop fuel k (join (map (dsd_receive_value_format k) vs)) parsed = Some (fold_left receive_set_add vs parsed).
Proof.
  intros Hk. revert fuel parsed. induction vs as [|v vs IH]; intros fuel parsed W Hr Hd Hc Hne Hf; [done|].
  apply Forall_cons in Hr as [Hv Hr]. apply NoDup_cons in Hd as [Hin Hd]. apply Forall_cons in Hc as [Hcv Hc].
  pose proof (value_entry k v Hk Hv) as He. destruct fuel as [|fuel]; [cbn in Hf; lia|].
  destruct vs as [|v' vs].
  - cbn [map join concat fold_left]. rewrite parse_entry by (try done; by left). done.
  - assert (Ej : join (map (dsd_receive_value_format k) (v :: v' :: vs)) =
                 dsd_receive_value_format k v ++ SLASH :: join (map (dsd_receive_value_format k) (v' :: vs))) by done.
    rewrite Ej, parse_entry; try done.
    + apply IH; try done; [by apply set_add_wf| |cbn in *; lia].
      apply Forall_forall. intros w Hw.
      assert (Hrange : forall x, range_ok k x -> 0 <= x < 4096).
      { intros x. unfold range_ok, minimum, maximum. destruct k as [|[|[|[|]]]]; cbn [nth]; lia. }
      rewrite contains_add; [|done|by apply Hrange|apply Hrange; by eapply Forall_forall in Hr].
      eapply Forall_forall in Hc; [|done]. rewrite Hc, orb_false_r. apply Z.eqb_neq. by intros ->.
    + right. eexists. split; [done|]. cbn [map join]. intros H. apply app_eq_nil in H as [H _].
      by apply format_nonempty in H.
Qed.

Lemma range_bound k v : (k <= 3)%nat -> range_ok k v -> 0 <= v < 4096.
Proof. intros Hk. unfold range_ok, minimum, maximum. destruct k as [|[|[|[|]]]]; cbn [nth]; lia. Qed.

Lemma fold_add_contains vs s w : set_wf s -> Forall (fun v => 0 <= v < 4096) vs -> 0 <= w < 4096 ->
  set_wf (fold_left receive_set_add vs s) /\
  dsd_receive_set_contains (fold_left receive_set_add vs s) w = existsb (Z.eqb w) vs || dsd_receive_set_contains s w.
Proof.
  revert s. induction vs as [|v vs IH]; intros s W Hv Hw; [done|]. apply Forall_cons in Hv as [Hv Hvs]. cbn.
  destruct (IH (receive_set_add s v) ltac:(by apply set_add_wf) Hvs Hw) as [W' ->]. split; [done|].
  rewrite contains_add by done. by rewrite orb_assoc, (orb_comm (existsb _ _)).
Qed.

Lemma elements_spec s v : v ∈ elements_upto s 4096 <-> 0 <= v < 4096 /\ dsd_receive_set_contains s v = true.
Proof.
  unfold elements_upto. rewrite list_elem_of_filter, list_elem_of_In, in_map_iff. split.
  - intros [Hc (n & <- & Hn%in_seq)]. split; [lia|done].
  - intros [Hv Hc]. split; [done|]. exists (Z.to_nat v). split; [lia|]. apply in_seq. lia.
Qed.

(** Writing the identifiers of a valid set and adding them up again gives the
    set. *)
Lemma fold_add_elements k s vs : (k <= 3)%nat -> set_valid k s ->
  (forall v, v ∈ vs <-> 0 <= v < 4096 /\ dsd_receive_set_contains s v = true) ->
  Forall (range_ok k) vs /\ Forall (fun v => 0 <= v < 4096) vs /\ fold_left receive_set_add vs set_zero = s.
Proof.
  intros Hk [W Hr] Hvs.
  assert (Hrs : Forall (range_ok k) vs) by (apply Forall_forall; intros v [Hv Hc]%Hvs; apply Hr; [lia|done]).
  assert (Hbound : Forall (fun v => 0 <= v < 4096) vs) by (eapply Forall_impl; [done|]; intros v; by apply range_bound).
  split; [done|]. split; [done|].
  destruct (fold_add_contains vs set_zero 0 set_zero_wf Hbound ltac:(lia)) as [W' _].
  apply set_ext; [done|done|]. intros v Hv.
  destruct (fold_add_contains vs set_zero v set_zero_wf Hbound Hv) as [_ ->].
  rewrite contains_zero, orb_false_r by lia. apply Bool.eq_iff_eq_true. rewrite existsb_exists. split.
  - intros (x & Hx%list_elem_of_In & E). apply Z.eqb_eq in E as <-. by apply Hvs in Hx as [_ Hx].
  - intros Hc. exists v. split; [apply list_elem_of_In, Hvs; done|apply Z.eqb_refl].
Qed.

Lemma parse_elements k s vs fuel : (k <= 3)%nat -> set_valid k s ->
  (forall v, v ∈ vs <-> 0 <= v < 4096 /\ dsd_receive_set_contains s v = true) -> NoDup vs ->
  (length (join (map (dsd_receive_value_format k) vs)) < fuel)%nat ->
  parse_loop fuel k (join (map (dsd_receive_value_format k) vs)) set_zero = Some s.
Proof.
  intros Hk V Hvs Hn Hf. destruct (fold_add_elements k s vs Hk V Hvs) as (Hrs & Hbound & Es).
  destruct (decide (vs = [])) as [->|Hne]; [destruct fuel; [lia|]; cbn; by rewrite <- Es|].
  rewrite parse_join; [by rewrite Es|done|apply set_zero_wf|done|done| |done|].
  - eapply Forall_impl; [exact Hbound|]. intros v Hv. apply contains_zero, Hv.
  - pose proof (join_length (map (dsd_receive_value_format k) vs)) as L. rewrite length_map in L.
    enough (Forall (fun e => e <> []) (map (dsd_receive_value_format k) vs)) by (specialize (L H); lia).
    apply Forall_map, Forall_true. intros v. apply format_nonempty.
Qed.

(** A set is read back from its text. *)
Lemma parse_text k s fuel : (k <= 3)%nat -> set_valid k s -> (length (set_text k s) < fuel)%nat ->
  parse_loop fuel k (set_text k s) set_zero = Some s.
Proof.
  intros Hk V. apply parse_elements; [done|done|apply elements_spec|].
  apply NoDup_filter, NoDup_fmap_2; [|apply NoDup_seq]. intros x y. apply Nat2Z.inj.
Qed.

(** What is read is a set of the kind. *)
Lemma parse_valid fuel k p parsed s : (k <= 3)%nat -> set_valid k parsed -> parse_loop fuel k p parsed = Some s ->
  set_valid k s.
Proof.
  intros Hk. revert p parsed. induction fuel as [|fuel IH]; intros p parsed V; [done|].
  destruct p as [|c p]; [by intros [= <-]|]. rewrite parse_loop_S by done. cbn zeta.
  destruct (_ || _); [done|]. destruct (receive_numeric_value k _) as [v|] eqn:Ev; [|done].
  destruct (dsd_receive_set_contains parsed v); [done|].
  assert (V' : set_valid k (receive_set_add parsed v)).
  { assert (Hv : range_ok k v).
    { unfold receive_numeric_value in Ev. destruct (match take _ _ with 48 :: _ => _ | _ => _ end) as [|d ds]; [done|].
      destruct (digits_from _ _ _) as [x|]; [|done].
      destruct (Z.leb_spec (minimum k) x), (Z.leb_spec x (maximum k)); cbn in Ev; try done.
      injection Ev as ->. by split. }
    split; [apply set_add_wf, V|]. intros w Hw Hc. pose proof (range_bound k v Hk Hv).
    destruct (decide (w < 4096)) as [Hlt|Hge].
    - rewrite contains_add in Hc by (apply V || lia). apply orb_true_iff in Hc as [->%Z.eqb_eq|Hc]; [done|]. by apply V.
    - unfold dsd_receive_set_contains in Hc. destruct (Z.ltb_spec w 4096); [lia|done]. }
  destruct (drop _ _) as [|c1 [|c2 t]]; [by intros [= <-]|done|by apply IH].
Qed.

(** receive lists survive being written and read.  A text that is accepted
    gives a set of identifiers of its kind, each in range; that set has a text
    of at most 2047 characters, which is accepted and gives the same set.  And
    any set of the kind whose text fits is read back from it exactly. *)
Lemma receive_set_roundtrip (k : nat) :
  (k <= 3)%nat ->
  (forall text s, dsd_receive_set_parse k text = Some s ->
     set_valid k s /\
     exists u, dsd_receive_set_format k s (DSD_RECEIVE_LIST_MAX + 1) = Some u /\ dsd_receive_set_parse k u = Some s) /\
  (forall s u, set_valid k s -> dsd_receive_set_format k s (DSD_RECEIVE_LIST_MAX + 1) = Some u ->
     dsd_receive_set_parse k u = Some s).
Proof.
  intros Hk.
  assert (H2 : forall s u, set_valid k s -> dsd_receive_set_format k s (DSD_RECEIVE_LIST_MAX + 1) = Some u ->
     dsd_receive_set_parse k u = Some s).
  { intros s u V Hu. unfold dsd_receive_set_parse. destruct (Nat.ltb_spec 3 k); [lia|]. cbn [orb].
    pose proof (format_fits _ _ _ _ Hu) as Hl. pose proof (format_join _ _ _ _ Hu) as ->.
    destruct (Nat.ltb_spec DSD_RECEIVE_LIST_MAX (length (set_text k s))); [lia|].
    rewrite (parse_text k s _ Hk V (Nat.lt_succ_diag_r _)), Hu. reflexivity. }
  split; [|done]. intros text s. unfold dsd_receive_set_parse at 1.
  destruct (_ || _); [done|]. destruct (parse_loop _ _ _ _) as [parsed|] eqn:Ep; [|done].
  destruct (dsd_receive_set_format k parsed _) as [u|] eqn:Eu; [|done]. intros [= <-].
  assert (V : set_valid k parsed).
  { eapply parse_valid; [done| |done]. split; [apply set_zero_wf|]. intros v Hv. by rewrite contains_zero. }
  split; [done|]. exists u. split; [done|]. by apply H2.
Qed.

(** The NAC list ["0x293/1"] is kept as ["001/293"]. *)
Lemma receive_set_roundtrip_witness :
  exists s, dsd_receive_set_parse 3 [48; 120; 50; 57; 51; 47; 49] = Some s /\
    dsd_receive_set_parse 3 [48; 48; 49; 47; 50; 57; 51] = Some s.
Proof.
  eexists. split; [vm_compute; reflexivity|].
  apply (receive_set_roundtrip 3 ltac:(lia)); [|vm_compute; reflexivity].
  eapply (proj1 (receive_set_roundtrip 3 ltac:(lia))). instantiate (1 := [48; 48; 49; 47; 50; 57; 51]).
  vm_compute. reflexivity.
Defined.
