(* ===== verification/DmrTrunkSm.v ===== *)
(** * [protocol/dmr/dmr_trunk_sm.c]: the DMR trunking state machine

    Follows granted calls off the control channel, returns from them, and
    hunts for the control channel when it is lost.  The context ([ctx]) is the
    source's; the session's options and state are the fields the machine
    touches.  It tunes through the request pool of [TuneGate] (the tuner hooks
    are a parameter), judges receptions with [Receive] and takes neighbour
    channels from [CcCandidates].

    What the machine reads from outside (clocks, the rigctl answer, the trunk
    scan, the runtime configuration, the call records) is fixed during a call:
    [readings].  Calls into the call records and the block assembler are
    logged in order ([call]).  Narration is left out.  Times are nanoseconds
    for the source's seconds in [double].  The entry points are given valid
    pointers; [dmr_sm_get_ctx] is the context of the world. *)
From S2P Require Import Prelude Records Receive TuneGate CcCandidates.

(** ** Data *)

Variant dmr_sm_state_e := DMR_SM_IDLE | DMR_SM_ON_CC | DMR_SM_TUNED | DMR_SM_HUNTING.
#[export] Instance dmr_sm_state_eq_dec : EqDecision dmr_sm_state_e.
Proof. solve_decision. Defined.

Record dmr_sm_slot_ctx := mk_slot { voice_active : bool; last_active_m : Z; slot_tg : Z }.
Definition slot_zero : dmr_sm_slot_ctx := mk_slot false 0 0.
#[export] Instance slot_inhabited : Inhabited dmr_sm_slot_ctx := populate slot_zero.

Record dmr_sm_capplus_seed := mk_seed {
  armed : bool; seed_tg : Z; seed_lsn : Z; seed_freq_hz : Z; receiver_hz : Z; seed_crc_flags : Z;
  armed_m : Z; seed_generation : Z
}.
Definition seed_zero : dmr_sm_capplus_seed := mk_seed false 0 0 0 0 0 0 0.
#[export] Instance seed_inhabited : Inhabited dmr_sm_capplus_seed := populate seed_zero.

Record dmr_sm_ctx := mk_ctx {
  sm_state : dmr_sm_state_e;
  slots : list dmr_sm_slot_ctx;
  vc_freq_hz : Z; vc_lpcn : Z; vc_tg : Z; vc_dst : Z; vc_src : Z; vc_slot : Z;
  vc_is_group : bool; vc_identity_published : bool; vc_status_follow : bool; vc_crc_flags : Z;
  t_tune_m : Z;
  receive_check_started_m : Z; receive_carriers : dsd_receive_carriers;
  receive_check_freq_hz : Z; receive_codes_fresh : bool;
  t_voice_m : Z; t_cc_sync_m : Z;
  cc_freq_hz : Z; cc_probe_freq_hz : Z; cc_rx_freq_hz : Z; cc_rx_generation : Z;
  cc_acquire_start_m : Z; cc_retry_after_m : Z; cc_tune_deadline_m : Z; cc_tune_request_id : Z;
  cc_acquiring : bool; cc_confirmed : bool; cc_hunt_index : Z;
  cold_start_armed_m : Z; cold_start_hunt : bool; cold_start_park_pending : Z;
  site_without_cc : bool;
  cc_moved_m : Z; cc_tune_superseded : bool; cc_settle_waited : bool;
  cc_window_lost : bool;
  rx_seen_hz : Z; rx_seen_generation : Z; rx_query_retry_m : Z;
  hangtime_s : Z; grant_timeout_s : Z; cc_grace_s : Z;
  capplus_seed : list dmr_sm_capplus_seed;
  initialized : bool
}.
Notation ctx := dmr_sm_ctx.

#[export] Instance ctx_eta : Eta ctx := fun c =>
  mk_ctx (sm_state c) (slots c)
    (vc_freq_hz c) (vc_lpcn c) (vc_tg c) (vc_dst c) (vc_src c) (vc_slot c)
    (vc_is_group c) (vc_identity_published c) (vc_status_follow c) (vc_crc_flags c)
    (t_tune_m c)
    (receive_check_started_m c) (receive_carriers c) (receive_check_freq_hz c) (receive_codes_fresh c)
    (t_voice_m c) (t_cc_sync_m c)
    (cc_freq_hz c) (cc_probe_freq_hz c) (cc_rx_freq_hz c) (cc_rx_generation c)
    (cc_acquire_start_m c) (cc_retry_after_m c) (cc_tune_deadline_m c) (cc_tune_request_id c)
    (cc_acquiring c) (cc_confirmed c) (cc_hunt_index c)
    (cold_start_armed_m c) (cold_start_hunt c) (cold_start_park_pending c)
    (site_without_cc c)
    (cc_moved_m c) (cc_tune_superseded c) (cc_settle_waited c)
    (cc_window_lost c)
    (rx_seen_hz c) (rx_seen_generation c) (rx_query_retry_m c)
    (hangtime_s c) (grant_timeout_s c) (cc_grace_s c)
    (capplus_seed c)
    (initialized c).

(** The context after [memset] to zero. *)
Definition ctx_zero : ctx :=
  mk_ctx DMR_SM_IDLE [slot_zero; slot_zero] 0 0 0 0 0 0 false false false 0 0 0 carriers_zero 0 false 0 0
    0 0 0 0 0 0 0 0 false false 0 0 false 0 false 0 false false false 0 0 0 0 0 0 [seed_zero; seed_zero] false.

(** The options the machine reads, and the one it writes ([trunk_is_tuned]). *)
Record dsd_opts := mk_opts {
  trunk_enable : Z; trunk_is_tuned : Z; scanner_mode : Z; trunk_scan_enabled : Z; use_rigctl : Z;
  audio_in_rtl : bool;           (** [audio_in_type == AUDIO_IN_RTL] *)
  iq_replay : bool;              (** [dsd_opts_input_is_iq_replay(opts)] *)
  rtlsdr_center_freq : Z;
  chan_in_file : bool;           (** [chan_in_file[0] != 0] *)
  trunk_hangtime : Z; trunk_tune_data_calls : Z;
  frame_dmr : Z; frame_p25p1 : Z; frame_p25p2 : Z; frame_nxdn48 : Z; frame_nxdn96 : Z; frame_provoice : Z;
  dmr_mono : Z;
  receive : dsd_receive_policy
}.
#[export] Instance opts_eta : Eta dsd_opts := fun o =>
  mk_opts (trunk_enable o) (trunk_is_tuned o) (scanner_mode o) (trunk_scan_enabled o) (use_rigctl o)
    (audio_in_rtl o) (iq_replay o) (rtlsdr_center_freq o) (chan_in_file o) (trunk_hangtime o)
    (trunk_tune_data_calls o) (frame_dmr o) (frame_p25p1 o) (frame_p25p2 o) (frame_nxdn48 o) (frame_nxdn96 o)
    (frame_provoice o) (dmr_mono o) (receive o).

Record dsd_state := mk_state {
  trunk_cc_freq : Z; p25_cc_freq : Z; trunk_vc_freq : Z * Z; p25_vc_freq : Z * Z;
  trunk_chan_map : list Z; dmr_lcn_trust : list Z;
  trunk_recovery_protocol : Z; input_boundary : Z;
  lcn_freq_count : Z; trunk_lcn : list Z; trunk_lcn_avoid : list Z;
  trunk_sm_force_release : Z; is_con_plus : Z;
  dmr_mono_slot : Z; dmr_ms_mode : Z; dmr_stereo : Z;
  last_cc_sync_time : Z; last_cc_sync_time_m : Z; last_vc_sync_time_m : Z; last_t3_tune_time_m : Z;
  p25_sm_release_count : Z; p25_sm_tune_count : Z;
  dmr_rest_channel : Z;
  dmr_confidence_lock_m : Z; dmr_confidence_voice_open : list Z; dmr_confidence_voice_m : list Z;
  receive_codes_fresh_freq : Z;
  currentslot : Z; event_crc_invalid : list Z;
  synctype : Z; lastsynctype : Z;
  rx : rx_state
}.
#[export] Instance state_eta : Eta dsd_state := fun s =>
  mk_state (trunk_cc_freq s) (p25_cc_freq s) (trunk_vc_freq s) (p25_vc_freq s) (trunk_chan_map s) (dmr_lcn_trust s)
    (trunk_recovery_protocol s) (input_boundary s) (lcn_freq_count s) (trunk_lcn s) (trunk_lcn_avoid s)
    (trunk_sm_force_release s) (is_con_plus s) (dmr_mono_slot s) (dmr_ms_mode s) (dmr_stereo s)
    (last_cc_sync_time s) (last_cc_sync_time_m s) (last_vc_sync_time_m s) (last_t3_tune_time_m s)
    (p25_sm_release_count s) (p25_sm_tune_count s) (dmr_rest_channel s)
    (dmr_confidence_lock_m s) (dmr_confidence_voice_open s) (dmr_confidence_voice_m s)
    (receive_codes_fresh_freq s) (currentslot s) (event_crc_invalid s) (synctype s) (lastsynctype s) (rx s).

(** What a voice call is published with. *)
Record dsd_call_observation := mk_observation {
  o_protocol : Z; o_slot : Z; o_group : bool; o_target : Z; o_source : Z; o_channel : Z; o_frequency : Z;
  o_observed_m : Z
}.

(** Calls into the rest of the decoder.  An observation comes with the
    [event_crc_invalid] flags it is made under. *)
Variant call :=
  | Call_end (slot ended_m : Z)
  | Call_event_sync (slot : Z)
  | Call_observe (o : dsd_call_observation) (crc_flags : Z)
  | Call_reset_blocks.

(** The call record of a slot ([dsd_call_snapshot]). *)
Record call_snapshot := mk_snapshot {
  call_active : bool;           (** [phase == DSD_CALL_PHASE_ACTIVE] *)
  call_protocol : Z; call_started_m : Z;
  call_named : bool             (** a target, source or text is known *)
}.

Record readings := mk_readings {
  now_m : Z;                    (** [dsd_decode_now_mono_s()] *)
  wall : Z;                     (** [dsd_decode_time()] *)
  realtime_m : Z;               (** [dsd_realtime_mono_s()] *)
  rigctl_freq : Z;              (** [dsd_rigctl_query_hook_get_current_freq_hz(opts)] *)
  scan_ctx : bool;              (** [dsd_trunk_scan_hook_dmr_ctx() != NULL] *)
  scan_map : bool;              (** the scan target has a channel map *)
  cfg_hangtime : option Z; cfg_grant_timeout : option Z;
  call_get : Z -> option call_snapshot;
  call_end_ok : Z -> bool;      (** [dsd_call_state_end_ex(slot) > 0] *)
  call_observed : bool          (** [dsd_call_state_observe(...) >= 0] *)
}.

Record world := mk_world {
  w_opts : dsd_opts;
  w_st : dsd_state;
  w_ctx : ctx;
  w_gate : tgate;
  w_cands : option cands;
  w_log : list call
}.
#[export] Instance world_eta : Eta world := fun w =>
  mk_world (w_opts w) (w_st w) (w_ctx w) (w_gate w) (w_cands w) (w_log w).

Definition on_ctx (f : ctx -> ctx) (w : world) : world := w <| w_ctx := f (w_ctx w) |>.
Definition on_st (f : dsd_state -> dsd_state) (w : world) : world := w <| w_st := f (w_st w) |>.
Definition do_call (c : call) (w : world) : world := w <| w_log := w_log w ++ [c] |>.

(** In nanoseconds. *)
Definition seconds (n : Z) : Z := n * 1000000000.
Definition DMR_CC_PROBE_GRACE : Z := seconds 2.
Definition DMR_CC_TUNE_TIMEOUT : Z := seconds 5.
Definition DMR_VOICE_EVIDENCE : Z := seconds 1.
Definition DMR_RX_QUERY_RETRY : Z := seconds 2.
Definition DMR_CC_RETRY : Z := seconds 2.
Definition DMR_CAPPLUS_SEED_WINDOW : Z := seconds 2.
Definition voice_stale_threshold : Z := 200000000.

Definition RECOVERY_UNKNOWN : Z := 0.
Definition RECOVERY_DMR : Z := 2.

(** ** Helpers *)

Definition resolve_freq (st : dsd_state) (freq lpcn : Z) : Z :=
  if 0 <? freq then freq
  else if (0 <? lpcn) && (lpcn <? 0xFFFF) then (trunk_chan_map st).[Z.to_nat lpcn] else 0.

Definition lpcn_is_trusted (o : dsd_opts) (st : dsd_state) (lpcn : Z) : bool :=
  if (lpcn <=? 0) || (0x1000 <=? lpcn) then true
  else
    let on_cc := negb (trunk_cc_freq st =? 0) && (trunk_is_tuned o =? 0) in
    negb (((dmr_lcn_trust st).[Z.to_nat lpcn] <? 2) && negb on_cc).

Definition is_state (x : dmr_sm_state_e) (c : ctx) : bool := bool_decide (sm_state c = x).

Definition set_state (next : dmr_sm_state_e) (c : ctx) : ctx :=
  if is_state next c then c
  else
    let c := c <| sm_state := next |> <| cc_window_lost := false |> in
    if negb (bool_decide (next = DMR_SM_IDLE)) && negb (cold_start_hunt c)
    then c <| cold_start_armed_m := 0 |> else c.

Definition user_list_present (o : dsd_opts) (st : dsd_state) : bool :=
  chan_in_file o || ((trunk_scan_enabled o =? 1) && (1 <? lcn_freq_count st)).

Definition trunk_hunt_session_eligible (o : dsd_opts) (st : dsd_state) : bool :=
  (trunk_enable o =? 1) && negb (scanner_mode o =? 1) && negb (trunk_scan_enabled o =? 1)
  && (trunk_is_tuned o =? 0) && (input_boundary st =? 0) && negb (iq_replay o)
  && ((use_rigctl o =? 1) || audio_in_rtl o)
  && user_list_present o st
  && existsb (fun i => 0 <? (trunk_lcn st).[i]) (seq 0 (Z.to_nat (lcn_freq_count st))).

Definition dsd_state_trunk_cold_start_eligible (o : dsd_opts) (st : dsd_state) : bool :=
  trunk_hunt_session_eligible o st && (trunk_recovery_protocol st =? RECOVERY_UNKNOWN).

Definition dsd_state_trunk_dmr_hunt_eligible (o : dsd_opts) (st : dsd_state) : bool :=
  trunk_hunt_session_eligible o st
  && ((trunk_recovery_protocol st =? RECOVERY_UNKNOWN) || (trunk_recovery_protocol st =? RECOVERY_DMR)).

Definition flag (x : Z) : bool := negb (x =? 0).

Definition dsd_trunk_dmr_recovery_allowed (rd : readings) (o : dsd_opts) (st : dsd_state) : bool :=
  if negb (trunk_enable o =? 1) then false
  else if trunk_scan_enabled o =? 1 then scan_ctx rd
  else if negb (flag (frame_dmr o)) then false
  else (trunk_recovery_protocol st =? RECOVERY_DMR)
       || ((trunk_recovery_protocol st =? RECOVERY_UNKNOWN) && negb (flag (frame_p25p1 o))
           && negb (flag (frame_p25p2 o)) && negb (flag (frame_nxdn48 o)) && negb (flag (frame_nxdn96 o))
           && negb (flag (frame_provoice o))).

(** [dsd_trunk_recovery_note_protocol(state, DSD_TRUNK_RECOVERY_DMR)]. *)
Definition note_dmr (w : world) : world := on_st (fun s => s <| trunk_recovery_protocol := RECOVERY_DMR |>) w.

Definition dmr_sm_init_ctx (rd : readings) (src : option (dsd_opts * dsd_state)) : ctx :=
  let c := ctx_zero <| vc_slot := -1 |> <| hangtime_s := seconds 2 |> <| grant_timeout_s := seconds 4 |> <| cc_grace_s := seconds 6 |> in
  let c := match src with
           | Some (o, _) => if 0 <=? trunk_hangtime o then c <| hangtime_s := trunk_hangtime o |> else c
           | None => c
           end in
  let c := match cfg_hangtime rd with Some h => c <| hangtime_s := h |> | None => c end in
  let c := match cfg_grant_timeout rd with Some g => c <| grant_timeout_s := g |> | None => c end in
  let c := match src with
           | Some (_, st) =>
               if negb (trunk_cc_freq st =? 0) then
                 c <| sm_state := DMR_SM_ON_CC |> <| t_cc_sync_m := now_m rd |> <| cc_freq_hz := trunk_cc_freq st |>
                   <| cc_probe_freq_hz := trunk_cc_freq st |>
               else c <| sm_state := DMR_SM_IDLE |>
           | None => c <| sm_state := DMR_SM_IDLE |>
           end in
  c <| initialized := true |>.

Definition is_ok (x : dsd_trunk_tune_result) : bool :=
  match x with DSD_TRUNK_TUNE_RESULT_OK | DSD_TRUNK_TUNE_RESULT_PENDING => true | _ => false end.

Definition is_pending (x : dsd_trunk_tune_result) : bool := bool_decide (x = DSD_TRUNK_TUNE_RESULT_PENDING).

(** Settle the tune the machine waits for; true when none is left.  A request
    past its deadline is failed. *)
Definition dmr_cc_resolve_pending (rd : readings) (now : Z) (w : world) : world * bool :=
  let id := cc_tune_request_id (w_ctx w) in
  if id =? 0 then (w, true)
  else
    let '(x, completed) := request_status id (w_gate w) in
    if is_pending x && (now <? cc_tune_deadline_m (w_ctx w)) then (w, false)
    else
      let '(w, x, completed) :=
        if is_pending x then
          let g := request_publish id DSD_TRUNK_TUNE_RESULT_FAILED (now_m rd) (w_gate w) in
          let '(x, completed) := request_status id g in (w <| w_gate := g |>, x, completed)
        else (w, x, completed) in
      let w := on_ctx (fun c => c <| cc_tune_request_id := 0 |>) w in
      if bool_decide (x = DSD_TRUNK_TUNE_RESULT_OK) then
        (on_ctx (fun c => c <| cc_acquire_start_m := if 0 <? completed then completed else now |>
                            <| cc_rx_freq_hz := cc_probe_freq_hz c |>
                            <| cc_rx_generation := generation (w_gate w) |>) w, true)
      else
        (on_ctx (fun c => set_state DMR_SM_HUNTING
                            (c <| cc_acquiring := false |> <| cc_retry_after_m := now + DMR_CC_RETRY |>)) w, false).

Definition dmr_sm_begin_cc_acquisition (rd : readings) (freq request_id : Z) (w : world) : world :=
  if freq <=? 0 then w
  else
    let site := site_without_cc (w_ctx w) in
    let c := dmr_sm_init_ctx rd (Some (w_opts w, w_st w)) in
    let c := c <| site_without_cc := site |> <| cc_freq_hz := freq |> <| cc_probe_freq_hz := freq |>
               <| cc_acquiring := true |> <| cc_acquire_start_m := now_m rd |> <| cc_tune_request_id := request_id |>
               <| cc_tune_deadline_m := now_m rd + DMR_CC_TUNE_TIMEOUT |> <| sm_state := DMR_SM_ON_CC |> in
    let c := if request_id =? 0
             then c <| cc_rx_freq_hz := freq |> <| cc_rx_generation := generation (w_gate w) |> else c in
    fst (dmr_cc_resolve_pending rd (now_m rd) (w <| w_ctx := c |>)).

(** *** Where the receiver is *)

Definition dmr_cc_rigctl_frequency (rd : readings) (gen : Z) (use_cache : bool) (c : ctx) : ctx * Z :=
  if use_cache && (0 <? rx_seen_hz c) && (rx_seen_generation c =? gen) then (c, rx_seen_hz c)
  else if (0 <? rx_query_retry_m c) && (realtime_m rd <? rx_query_retry_m c) then (c, 0)
  else if 0 <? rigctl_freq rd then
    (c <| rx_seen_hz := rigctl_freq rd |> <| rx_seen_generation := gen |> <| rx_query_retry_m := 0 |>, rigctl_freq rd)
  else (c <| rx_query_retry_m := realtime_m rd + DMR_RX_QUERY_RETRY |>, rigctl_freq rd).

Definition dmr_cc_current_frequency (rd : readings) (w : world) : world * Z :=
  let c := w_ctx w in
  let gen := generation (w_gate w) in
  if (0 <? cc_rx_freq_hz c) && (cc_rx_generation c =? gen) then (w, cc_rx_freq_hz c)
  else if use_rigctl (w_opts w) =? 1 then
    let '(c, freq) := dmr_cc_rigctl_frequency rd gen true c in (w <| w_ctx := c |>, freq)
  else if audio_in_rtl (w_opts w) then (w, rtlsdr_center_freq (w_opts w))
  else (w, if negb (cc_probe_freq_hz c =? 0) then cc_probe_freq_hz c else cc_freq_hz c).

(** The same without a context. *)
Definition monitor_frequency (rd : readings) (w : world) : Z :=
  if use_rigctl (w_opts w) =? 1 then rigctl_freq rd
  else if audio_in_rtl (w_opts w) then rtlsdr_center_freq (w_opts w) else 0.

Definition dmr_cc_tuner_frequency (rd : readings) (w : world) : world * Z :=
  if use_rigctl (w_opts w) =? 1 then
    let '(c, freq) := dmr_cc_rigctl_frequency rd (generation (w_gate w)) false (w_ctx w) in (w <| w_ctx := c |>, freq)
  else (w, if audio_in_rtl (w_opts w) then rtlsdr_center_freq (w_opts w) else 0).

Definition dmr_cc_anchor (c : ctx) (st : dsd_state) : Z :=
  if 0 <? cc_freq_hz c then cc_freq_hz c else trunk_cc_freq st.

Definition dmr_cc_window_open (c : ctx) (st : dsd_state) (now : Z) : bool :=
  let since := if cc_acquiring c then cc_acquire_start_m c else t_cc_sync_m c in
  if since <=? 0 then false
  else
    let since := if since <? dmr_confidence_lock_m st then dmr_confidence_lock_m st else since in
    now - since <=? (if cc_acquiring c then DMR_CC_PROBE_GRACE else cc_grace_s c).

(** *** The startup hunt's bookkeeping *)

Definition dmr_sm_cold_start_clear (c : ctx) : ctx :=
  c <| cold_start_armed_m := 0 |> <| cold_start_hunt := false |> <| cold_start_park_pending := 0 |>.

Definition dmr_sm_hunt_eligible (c : ctx) (o : dsd_opts) (st : dsd_state) : bool :=
  if site_without_cc c then false
  else dsd_state_trunk_cold_start_eligible o st
       || ((trunk_recovery_protocol st =? RECOVERY_DMR) && negb (cc_confirmed c)
           && dsd_state_trunk_dmr_hunt_eligible o st).

Definition dmr_sm_cold_start_window_expired (c : ctx) (st : dsd_state) (now : Z) : bool :=
  let start := if cold_start_armed_m c <? dmr_confidence_lock_m st then dmr_confidence_lock_m st
               else cold_start_armed_m c in
  cc_grace_s c <? now - start.

Definition dmr_sm_cold_start_park_now (keep_window : bool) (c : ctx) : ctx :=
  let arm := cold_start_armed_m c in
  let c := c <| cc_tune_request_id := 0 |> <| cc_acquiring := false |> <| cc_probe_freq_hz := 0 |>
             <| cc_rx_freq_hz := 0 |> <| cc_retry_after_m := 0 |> in
  let c := dmr_sm_cold_start_clear c in
  let c := if keep_window then c <| cold_start_armed_m := arm |> else c in
  set_state DMR_SM_IDLE c.

Section Machine.
Context (hooks : dsd_trunk_tuning_hooks (dsd_opts * dsd_state)).

(** Runs a tuning hook on the session. *)
Definition run_hook (hook : (dsd_opts * dsd_state) * tgate -> (dsd_opts * dsd_state) * tgate * dsd_trunk_tune_result * Z)
    (w : world) : world * dsd_trunk_tune_result * Z :=
  let '(e, g, x, id) := hook ((w_opts w, w_st w), w_gate w) in
  (w <| w_opts := fst e |> <| w_st := snd e |> <| w_gate := g |>, x, id).

Definition allows (w : world) (protocol s : Z) : bool :=
  dsd_receive_allows (receive (w_opts w)) (rx (w_st w)) protocol s.

Definition dmr_sm_return_to_cc (rd : readings) (freq : Z) (w : world) : world * dsd_trunk_tune_result :=
  if freq <=? 0 then (w, DSD_TRUNK_TUNE_RESULT_FAILED)
  else
    let previous_cc := trunk_cc_freq (w_st w) in
    let previous_p25_cc := p25_cc_freq (w_st w) in
    let w := on_st (fun s => s <| p25_cc_freq := 0 |> <| trunk_cc_freq := freq |>) w in
    let '(w, x, id) := run_hook (hook_return_to_cc hooks (now_m rd)) w in
    if negb (is_ok x) then
      (on_st (fun s => s <| p25_cc_freq := previous_p25_cc |> <| trunk_cc_freq := previous_cc |>) w, x)
    else
      let w := on_ctx (set_state DMR_SM_ON_CC) (on_st (fun s => s <| is_con_plus := 0 |>) w) in
      (dmr_sm_begin_cc_acquisition rd freq id w, x).

(** One step toward a settled tuning layer; true while it is not settled. *)
Definition dmr_sm_settle_step (rd : readings) (now : Z) (w : world) : world * bool :=
  let w := if negb (cc_tune_request_id (w_ctx w) =? 0) then fst (dmr_cc_resolve_pending rd now w) else w in
  if negb (cc_tune_request_id (w_ctx w) =? 0) then (w, true)
  else
    let newest := pending_request (w_gate w) in
    if negb (newest =? 0) then
      if is_pending (fst (request_status newest (w_gate w))) then (w, true)
      else
        let '(w, freq) := dmr_cc_tuner_frequency rd w in
        let alias_before := trunk_cc_freq (w_st w) in
        let '(w, x, id) := if 0 <? freq then run_hook (hook_tune_to_cc hooks freq 0 (now_m rd)) w
                           else (w, DSD_TRUNK_TUNE_RESULT_FAILED, 0) in
        let w := on_st (fun s => s <| trunk_cc_freq := alias_before |>) w in
        (if is_ok x then
           on_ctx (fun c => c <| cc_probe_freq_hz := freq |> <| cc_tune_request_id := id |>
                              <| cc_tune_deadline_m := now + DMR_CC_TUNE_TIMEOUT |>) w
         else w, true)
    else (w, false).

Definition dmr_sm_cold_start_settle (rd : readings) (now : Z) (keep_window : bool) (w : world) : world :=
  let w := on_ctx (fun c => c <| cold_start_park_pending := if keep_window then 1 else 2 |>) w in
  let '(w, unsettled) := dmr_sm_settle_step rd now w in
  if unsettled then w else on_ctx (dmr_sm_cold_start_park_now keep_window) w.

(** True while an operator move is unsettled. *)
Definition dmr_sm_settle_after_move (rd : readings) (now : Z) (w : world) : world * bool :=
  if negb (cc_tune_superseded (w_ctx w)) then (w, false)
  else
    let '(w, unsettled) := dmr_sm_settle_step rd now w in
    if unsettled then (on_ctx (fun c => c <| cc_settle_waited := true |>) w, true)
    else
      (on_ctx (fun c => set_state DMR_SM_ON_CC
                 (c <| t_cc_sync_m := if cc_settle_waited c then now else cc_moved_m c |>
                    <| cc_tune_superseded := false |> <| cc_settle_waited := false |> <| cc_acquiring := false |>
                    <| cc_retry_after_m := 0 |>)) w, false).

(** Whether a startup hunt goes on probing. *)
Definition dmr_sm_cold_start_gate (rd : readings) (now : Z) (decision : bool) (w : world) : world * bool :=
  let c := w_ctx w in
  let o := w_opts w in
  let st := w_st w in
  let owner_named := negb (trunk_recovery_protocol st =? RECOVERY_UNKNOWN)
                     && (negb (trunk_recovery_protocol st =? RECOVERY_DMR) || site_without_cc c) in
  if owner_named then
    (on_ctx (if is_state DMR_SM_TUNED c then dmr_sm_cold_start_clear else dmr_sm_cold_start_park_now false) w, false)
  else if negb (trunk_enable o =? 1) || negb (input_boundary st =? 0) then
    (on_ctx (dmr_sm_cold_start_park_now false) w, false)
  else if (is_state DMR_SM_TUNED c || (trunk_is_tuned o =? 1)) && negb (dmr_sm_hunt_eligible c o st) then
    (on_ctx dmr_sm_cold_start_clear w, false)
  else if negb (dmr_sm_hunt_eligible c o st) || negb (dsd_trunk_dmr_recovery_allowed rd o st) then
    (dmr_sm_cold_start_settle rd now false w, false)
  else if negb (cold_start_park_pending c =? 0) then
    (dmr_sm_cold_start_settle rd now (cold_start_park_pending c =? 1) w, false)
  else if decision && negb (dmr_sm_cold_start_window_expired c st now) then
    (dmr_sm_cold_start_settle rd now true w, false)
  else (w, true).

(** ** Control channel evidence *)

(** The context that may take control channel evidence; false for none. *)
Definition dmr_cc_activity_context (rd : readings) (w : world) : world * bool :=
  if negb (trunk_enable (w_opts w) =? 1) || (trunk_is_tuned (w_opts w) =? 1) then (w, false)
  else if flag (trunk_scan_enabled (w_opts w)) && negb (scan_ctx rd) then (w, false)
  else dmr_cc_resolve_pending rd (now_m rd) w.

Definition dmr_cc_note_monitor_frequency (rd : readings) (freq : Z) (w : world) : world :=
  let current := monitor_frequency rd w in
  if (0 <? current) && ((freq <=? 0) || (freq =? current))
  then on_st (fun s => s <| trunk_cc_freq := current |>) w else w.

Definition dmr_cc_note_activity_ctx (rd : readings) (freq : Z) (w : world) : world :=
  let '(w, current) := dmr_cc_current_frequency rd w in
  if (current <=? 0) || ((0 <? freq) && negb (freq =? current))
     || (cc_acquiring (w_ctx w) && negb (current =? cc_probe_freq_hz (w_ctx w)))
  then w
  else
    let w := on_ctx (fun c =>
      let c := c <| cc_freq_hz := current |> <| cc_probe_freq_hz := current |> <| cc_rx_freq_hz := current |>
                 <| cc_rx_generation := generation (w_gate w) |> in
      dmr_sm_cold_start_clear c <| cc_confirmed := true |> <| cc_acquiring := false |> <| cc_retry_after_m := 0 |>
        <| t_cc_sync_m := now_m rd |>) w in
    let w := on_st (fun s => s <| trunk_cc_freq := current |> <| last_cc_sync_time := wall rd |>
                               <| last_cc_sync_time_m := t_cc_sync_m (w_ctx w) |>) w in
    on_ctx (set_state DMR_SM_ON_CC) (note_dmr w).

Definition dmr_sm_note_cc_activity (rd : readings) (freq : Z) (w : world) : world :=
  if negb (trunk_enable (w_opts w) =? 1) && (trunk_is_tuned (w_opts w) =? 0)
  then dmr_cc_note_monitor_frequency rd freq w
  else
    let '(w, present) := dmr_cc_activity_context rd w in
    if present then dmr_cc_note_activity_ctx rd freq w else w.

Definition dmr_cc_note_heartbeat_ctx (rd : readings) (w : world) : world :=
  if (trunk_is_tuned (w_opts w) =? 1) || negb (cc_confirmed (w_ctx w)) || cc_acquiring (w_ctx w) then w
  else
    let '(w, resolved) := dmr_cc_resolve_pending rd (now_m rd) w in
    if negb resolved then w
    else if (cc_rx_freq_hz (w_ctx w) =? cc_freq_hz (w_ctx w))
            && frame_is_current (cc_rx_generation (w_ctx w)) (w_gate w)
    then on_ctx (fun c => set_state DMR_SM_ON_CC (c <| t_cc_sync_m := now_m rd |>)) w else w.

Definition dmr_sm_note_cc_heartbeat (rd : readings) (w : world) : world :=
  let '(w, present) := dmr_cc_activity_context rd w in
  if present then dmr_cc_note_heartbeat_ctx rd w else w.

(** ** The hunt *)

Definition usable (st : dsd_state) (i : nat) : bool := negb (flag ((trunk_lcn_avoid st).[i])).

Definition dmr_cc_map_has_frequency (st : dsd_state) (freq : Z) : bool :=
  existsb (fun i => ((trunk_lcn st).[i] =? freq) && usable st i) (seq 0 (Z.to_nat (lcn_freq_count st))).

(** Rows that repeat [freq] are stepped over; there are at most [fuel]. *)
Fixpoint skip_repeats (fuel : nat) (st : dsd_state) (freq index : Z) : Z :=
  match fuel with
  | O => index
  | Datatypes.S fuel =>
      if (index <? lcn_freq_count st) && ((trunk_lcn st).[Z.to_nat index] =? freq)
      then skip_repeats fuel st freq (index + 1) else index
  end.

(** The walk over the map, [tries] rows left: the next index, whether the
    probe's frequency was passed, and the frequency found. *)
Fixpoint mapped_loop (tries : nat) (st : dsd_state) (probe index : Z) (probe_listed : bool) : Z * bool * option Z :=
  match tries with
  | O => (index, probe_listed, None)
  | Datatypes.S tries =>
      let i := if (lcn_freq_count st <=? index) || (index <? 0) then 0 else index in
      let freq := (trunk_lcn st).[Z.to_nat i] in
      if (freq <=? 0) || negb (usable st (Z.to_nat i)) then mapped_loop tries st probe (i + 1) probe_listed
      else if freq =? probe then mapped_loop tries st probe (i + 1) true
      else (skip_repeats (Z.to_nat (lcn_freq_count st - (i + 1))) st freq (i + 1), probe_listed, Some freq)
  end.

Definition dmr_cc_next_mapped_candidate (w : world) : world * Z :=
  let c := w_ctx w in
  let '(index, probe_listed, found) :=
    mapped_loop (Z.to_nat (lcn_freq_count (w_st w))) (w_st w) (cc_probe_freq_hz c) (cc_hunt_index c) false in
  let w := on_ctx (fun c => c <| cc_hunt_index := index |>) w in
  match found with
  | Some freq => (w, freq)
  | None =>
      if probe_listed && (negb (cc_rx_freq_hz c =? cc_probe_freq_hz c)
                          || negb (frame_is_current (cc_rx_generation c) (w_gate w)))
      then (w, cc_probe_freq_hz c) else (w, 0)
  end.

Definition dmr_cc_next_candidate (rd : readings) (w : world) : world * Z :=
  let c := w_ctx w in
  let st := w_st w in
  let anchor := if 0 <? cc_freq_hz c then cc_freq_hz c else if cold_start_hunt c then 0 else trunk_cc_freq st in
  if site_without_cc c then (w, anchor)
  else if (chan_in_file (w_opts w) || scan_map rd) && (0 <? lcn_freq_count st) then
    if negb (cc_probe_freq_hz c =? anchor) && (0 <? anchor) && dmr_cc_map_has_frequency st anchor then (w, anchor)
    else dmr_cc_next_mapped_candidate w
  else if negb (cc_probe_freq_hz c =? anchor) && (0 <? anchor) then (w, anchor)
  else
    let '(ext, candidate) :=
      cc_next (w_cands w) (trunk_cc_freq st) (p25_cc_freq st) (now_m rd) CANDIDATE_CURRENT_SITE in
    (w <| w_cands := ext |>, default anchor candidate).

Definition dmr_cc_hunt (rd : readings) (now : Z) (w : world) : world :=
  if negb (dsd_trunk_dmr_recovery_allowed rd (w_opts w) (w_st w)) || (trunk_is_tuned (w_opts w) =? 1)
     || (now <? cc_retry_after_m (w_ctx w)) then w
  else
    let '(w, go) := if cold_start_hunt (w_ctx w) then dmr_sm_cold_start_gate rd now true w else (w, true) in
    if negb go then w
    else if cc_window_lost (w_ctx w) && dmr_cc_window_open (w_ctx w) (w_st w) now
    then on_ctx (set_state DMR_SM_ON_CC) w
    else
      let w := on_ctx (fun c => c <| cc_window_lost := false |> <| cc_retry_after_m := now + DMR_CC_RETRY |>) w in
      let '(w, freq) := dmr_cc_next_candidate rd w in
      if freq <=? 0 then w
      else if (freq =? cc_rx_freq_hz (w_ctx w)) && frame_is_current (cc_rx_generation (w_ctx w)) (w_gate w) then
        on_ctx (fun c => set_state DMR_SM_ON_CC
                  (c <| cc_probe_freq_hz := freq |> <| cc_acquiring := true |> <| cc_acquire_start_m := now |>)) w
      else
        let anchor := trunk_cc_freq (w_st w) in
        let '(w, x, id) := run_hook (hook_tune_to_cc hooks freq 0 (now_m rd)) w in
        let w := on_st (fun s => s <| trunk_cc_freq := anchor |>) w in
        if negb (is_ok x) then w
        else
          let w := on_ctx (fun c => set_state DMR_SM_ON_CC
            (c <| cc_probe_freq_hz := freq |> <| cc_acquiring := true |> <| cc_acquire_start_m := now_m rd |>
               <| cc_tune_request_id := id |> <| cc_tune_deadline_m := now_m rd + DMR_CC_TUNE_TIMEOUT |>)) w in
          fst (dmr_cc_resolve_pending rd (now_m rd) w).

Definition dmr_sm_tick_idle_cold_start (rd : readings) (now : Z) (w : world) : world :=
  let c := w_ctx w in
  if negb (dmr_sm_hunt_eligible c (w_opts w) (w_st w)) then on_ctx (fun c => c <| cold_start_armed_m := 0 |>) w
  else if cold_start_armed_m c <=? 0 then on_ctx (fun c => c <| cold_start_armed_m := now |>) w
  else if negb (dmr_sm_cold_start_window_expired c (w_st w) now) then w
  else
    dmr_cc_hunt rd now
      (on_ctx (fun c => set_state DMR_SM_HUNTING (c <| cold_start_hunt := true |> <| cc_retry_after_m := 0 |>)) w).

(** ** Release *)

Definition clear_slot (_ : dmr_sm_slot_ctx) : dmr_sm_slot_ctx := slot_zero.

Definition end_slot (rd : readings) (s : Z) (w : world) : world :=
  let w := do_call (Call_end s (now_m rd)) w in
  if call_end_ok rd s then do_call (Call_event_sync s) w else w.

Definition dmr_sm_release_without_cc (rd : readings) (w : world) : world :=
  let w := end_slot rd 1 (end_slot rd 0 w) in
  let w := on_st (fun s => s <| is_con_plus := 0 |> <| p25_vc_freq := (0, 0) |>) w in
  let w := do_call Call_reset_blocks w in
  on_ctx (fun c => c <| cc_acquiring := false |> <| cc_confirmed := false |> <| cc_tune_request_id := 0 |>) w.

(** [p25_sm_release_count++] on an [unsigned int]. *)
Definition dmr_sm_clear_released_carrier (rd : readings) (cc_returned count_release : bool) (next : dmr_sm_state_e)
    (w : world) : world :=
  let w := on_ctx (fun c =>
    c <| slots := clear_slot <$> slots c |> <| vc_freq_hz := 0 |> <| vc_lpcn := 0 |> <| vc_tg := 0 |>
      <| vc_dst := 0 |> <| vc_src := 0 |> <| vc_slot := -1 |> <| vc_is_group := false |>
      <| vc_identity_published := false |> <| vc_status_follow := false |> <| vc_crc_flags := 0 |>
      <| t_tune_m := 0 |> <| t_voice_m := 0 |> <| receive_check_started_m := 0 |> <| receive_check_freq_hz := 0 |>) w in
  let w := w <| w_opts := w_opts w <| trunk_is_tuned := 0 |> |> in
  let w := on_st (fun s => s <| trunk_vc_freq := (0, 0) |> <| dmr_mono_slot := 0 |>
                             <| p25_sm_release_count := if count_release then u32 (p25_sm_release_count s + 1)
                                                        else p25_sm_release_count s |>) w in
  let w := if cc_returned then w else dmr_sm_release_without_cc rd w in
  on_ctx (set_state next) w.

Definition dmr_sm_release_destination (c : ctx) (st : dsd_state) : Z :=
  let rest := dmr_rest_channel st in
  if vc_status_follow c && (1 <=? rest) && (rest <=? 16) && (0 <? (trunk_chan_map st).[Z.to_nat rest])
  then (trunk_chan_map st).[Z.to_nat rest]
  else if 0 <? trunk_cc_freq st then trunk_cc_freq st else cc_freq_hz c.

Definition do_release (rd : readings) (w : world) : world :=
  let had_force_release := negb (trunk_sm_force_release (w_st w) =? 0) in
  let w := on_st (fun s => s <| trunk_sm_force_release := 0 |>) w in
  let cc := dmr_sm_release_destination (w_ctx w) (w_st w) in
  let '(w, x) := if 0 <? cc then dmr_sm_return_to_cc rd cc w else (w, DSD_TRUNK_TUNE_RESULT_OK) in
  if negb (is_ok x) then
    if had_force_release then on_st (fun s => s <| trunk_sm_force_release := 1 |>) w else w
  else
    dmr_sm_clear_released_carrier rd (0 <? cc) true (if 0 <? cc then DMR_SM_ON_CC else DMR_SM_HUNTING) w.

Definition dmr_sm_abandon_carrier (rd : readings) (w : world) : world :=
  let had_carrier := is_state DMR_SM_TUNED (w_ctx w) || (trunk_is_tuned (w_opts w) =? 1) in
  let w := on_st (fun s => s <| trunk_sm_force_release := 0 |>) w in
  dmr_sm_clear_released_carrier rd false had_carrier DMR_SM_ON_CC w.

(** ** Events *)

Record grant_event := mk_grant_event {
  ev_slot : Z; ev_freq_hz : Z; ev_lpcn : Z; ev_tg : Z; ev_src : Z; ev_dst : Z; ev_is_group : bool
}.

(** The frequency of a grant that may be followed. *)
Definition dmr_sm_resolve_tunable_grant (w : world) (ev : grant_event) : option Z :=
  let c := w_ctx w in
  let o := w_opts w in
  let st := w_st w in
  if negb (trunk_enable o =? 1) || (trunk_cc_freq st =? 0) || negb (cc_tune_request_id c =? 0) then None
  else if negb (dsd_receive_grant_allows (receive o) DSD_SYNC_DMR_BS_VOICE_POS (ev_slot ev)) then None
  else
    let freq := resolve_freq st (ev_freq_hz ev) (ev_lpcn ev) in
    if freq <=? 0 then None
    else if dsd_receive_carriers_rejects (receive_carriers c) (receive o) freq then None
    else if (ev_freq_hz ev <=? 0) && (0 <? ev_lpcn ev) && negb (lpcn_is_trusted o st (ev_lpcn ev)) then None
    else if is_state DMR_SM_TUNED c && (vc_freq_hz c =? freq) then None
    else Some freq.

Definition handle_grant (rd : readings) (ev : grant_event) (w : world) : world :=
  let w := note_dmr w in
  match dmr_sm_resolve_tunable_grant w ev with
  | None => w
  | Some freq =>
      let w := if cc_acquiring (w_ctx w) && (trunk_is_tuned (w_opts w) =? 0)
                  && frame_is_current (cc_rx_generation (w_ctx w)) (w_gate w)
               then dmr_cc_note_activity_ctx rd (cc_probe_freq_hz (w_ctx w)) w else w in
      let '(w, x, _) := run_hook (hook_tune_to_freq hooks freq 0 (now_m rd)) w in
      if negb (is_ok x) then w
      else
        let w := on_ctx (fun c =>
          c <| vc_freq_hz := freq |> <| vc_lpcn := ev_lpcn ev |> <| vc_tg := ev_tg ev |> <| vc_dst := ev_dst ev |>
            <| vc_src := ev_src ev |>
            <| vc_slot := if (0 <=? ev_slot ev) && (ev_slot ev <=? 1) then ev_slot ev else -1 |>
            <| vc_is_group := ev_is_group ev |> <| vc_identity_published := false |> <| vc_status_follow := false |>
            <| vc_crc_flags := (event_crc_invalid (w_st w)).[Z.to_nat (Z.land (currentslot (w_st w)) 1)] |>
            <| t_tune_m := now_m rd |> <| t_voice_m := 0 |> <| cc_acquiring := false |> <| cc_tune_request_id := 0 |>
            <| cc_tune_superseded := false |>) w in
        let w := on_st (fun s => s <| dmr_mono_slot := vc_slot (w_ctx w) |>) w in
        let w := on_ctx (fun c => c <| slots := clear_slot <$> slots c |>) w in
        let w := do_call Call_reset_blocks w in
        let w := on_st (fun s => s <| last_t3_tune_time_m := now_m rd |>
                                   <| p25_sm_tune_count := u32 (p25_sm_tune_count s + 1) |>) w in
        on_ctx (set_state DMR_SM_TUNED) w
  end.

(** *** Voice and data on the followed channel *)

Definition in_slots (s : Z) : bool := (0 <=? s) && (s <=? 1).
Definition slot_of (s : Z) : Z := if in_slots s then s else 0.

Definition update_voice_sync_state (now s : Z) (w : world) : world :=
  let w := on_st (fun st => st <| last_vc_sync_time_m := now |>) w in
  if is_state DMR_SM_TUNED (w_ctx w) && (vc_slot (w_ctx w) <? 0)
  then on_st (fun st => st <| dmr_mono_slot := s |>) (on_ctx (fun c => c <| vc_slot := s |>) w) else w.

(** The time of the slot's last accepted voice when it may hold the call, 0
    otherwise. *)
Definition dmr_sm_voice_evidence_m (c : ctx) (st : dsd_state) (s now : Z) : Z :=
  if negb (in_slots s) || negb (flag ((dmr_confidence_voice_open st).[Z.to_nat s])) then 0
  else
    let evidence := (dmr_confidence_voice_m st).[Z.to_nat s] in
    if (evidence <=? 0) || (evidence <? t_tune_m c) || (DMR_VOICE_EVIDENCE <? now - evidence) then 0 else evidence.

Definition upd_slot (s : Z) (f : dmr_sm_slot_ctx -> dmr_sm_slot_ctx) (c : ctx) : ctx :=
  c <| slots := alter f (Z.to_nat s) (slots c) |>.

Definition dmr_sm_note_voice_evidence (st : dsd_state) (s now : Z) (c : ctx) : ctx :=
  let evidence := dmr_sm_voice_evidence_m c st s now in
  if evidence <=? 0 then c
  else
    let c := upd_slot s (fun sl => mk_slot true (Z.max (last_active_m sl) evidence) (slot_tg sl)) c in
    if t_voice_m c <? evidence then c <| t_voice_m := evidence |> else c.

Definition set_seed (s : Z) (x : dmr_sm_capplus_seed) (c : ctx) : ctx :=
  c <| capplus_seed := <[Z.to_nat s := x]> (capplus_seed c) |>.

Definition dmr_sm_capplus_seed_arm (rd : readings) (s tg lsn freq receiver crc_flags generation_before_tune : Z)
    (c : ctx) : ctx :=
  if negb (initialized c) || negb (in_slots s) then c
  else if (tg =? 0) || (freq <=? 0) then set_seed s seed_zero c
  else set_seed s (mk_seed true tg lsn freq receiver crc_flags (now_m rd) (u64 (generation_before_tune + 1))) c.

Definition dmr_sm_capplus_seed_clear (s : Z) (c : ctx) : ctx :=
  if s <? 0 then set_seed 1 seed_zero (set_seed 0 seed_zero c)
  else if s <=? 1 then set_seed s seed_zero c else c.

Definition dmr_sm_capplus_seed_reconcile (s lsn tg : Z) (c : ctx) : ctx :=
  if negb (in_slots s) then c
  else
    let seed := capplus_seed c !!! Z.to_nat s in
    if armed seed && (seed_lsn seed =? lsn) && negb (seed_tg seed =? tg) then dmr_sm_capplus_seed_clear s c else c.

(** -1 the seed never will describe the carrier, 0 not yet, 1 it does. *)
Definition dmr_sm_capplus_seed_current (seed : dmr_sm_capplus_seed) (w : world) (now : Z) : Z :=
  if (DMR_CAPPLUS_SEED_WINDOW <? now - armed_m seed) || (now <? armed_m seed) then -1
  else if generation (w_gate w) <? seed_generation seed then 0
  else if negb (frame_is_current (seed_generation seed) (w_gate w)) then -1
  else if rtlsdr_center_freq (w_opts w) =? receiver_hz seed then 1 else -1.

Definition call_is_unnamed_since (call : call_snapshot) (armed : Z) : bool :=
  DSD_SYNC_IS_DMR (call_protocol call) && (armed <=? call_started_m call) && negb (call_named call).

Definition crc_of (w : world) (s : Z) : Z := (event_crc_invalid (w_st w)).[Z.to_nat s].

Definition dmr_sm_capplus_seed_apply (rd : readings) (s now : Z) (w : world) : world :=
  let seed := capplus_seed (w_ctx w) !!! Z.to_nat s in
  if negb (armed seed) then w
  else
    let single_slot := (dmr_ms_mode (w_st w) =? 1) || ((dmr_mono (w_opts w) =? 1) && (dmr_stereo (w_st w) =? 0)) in
    let current := if single_slot then -1 else dmr_sm_capplus_seed_current seed w now in
    if current <? 0 then on_ctx (dmr_sm_capplus_seed_clear s) w
    else if current =? 0 then w
    else
      match call_get rd s with
      | None => w
      | Some call =>
          if negb (call_active call) then w
          else
            let w := on_ctx (dmr_sm_capplus_seed_clear s) w in
            if negb (call_is_unnamed_since call (armed_m seed)) then w
            else
              let o := mk_observation (call_protocol call) s true (seed_tg seed) 0 (u32 (seed_lsn seed))
                         (seed_freq_hz seed) now in
              do_call (Call_event_sync s)
                (do_call (Call_observe o (u8 (Z.lor (crc_of w s) (seed_crc_flags seed)))) w)
      end.

Definition voice_protocol (st : dsd_state) : Z :=
  let p := if DSD_SYNC_IS_DMR (synctype st) then synctype st else lastsynctype st in
  if DSD_SYNC_IS_DMR p then p else DSD_SYNC_DMR_BS_VOICE_POS.

(** The granted identity is published once, at the first voice sync. *)
Definition publish_identity (rd : readings) (s now : Z) (w : world) : world :=
  let c := w_ctx w in
  if is_state DMR_SM_TUNED c && negb (vc_identity_published c) && ((vc_slot c <? 0) || (vc_slot c =? s)) then
    let o := mk_observation (voice_protocol (w_st w)) s (vc_is_group c)
               (u64 (if vc_is_group c then vc_tg c else vc_dst c)) (u64 (vc_src c)) (u32 (vc_lpcn c))
               (vc_freq_hz c) now in
    let w := do_call (Call_observe o (u8 (Z.lor (crc_of w s) (vc_crc_flags c)))) w in
    if call_observed rd then on_ctx (fun c => c <| vc_identity_published := true |>) w else w
  else w.

Definition handle_voice_sync (rd : readings) (slot : Z) (w : world) : world :=
  let now := now_m rd in
  let s := slot_of slot in
  if negb (allows w DSD_SYNC_DMR_BS_VOICE_POS s) then w
  else
    let w := on_ctx (dmr_sm_note_voice_evidence (w_st w) s now) w in
    let w := update_voice_sync_state now s w in
    let w := publish_identity rd s now w in
    dmr_sm_capplus_seed_apply rd s now w.

Definition handle_data_sync (rd : readings) (slot : Z) (w : world) : world :=
  if negb (trunk_tune_data_calls (w_opts w) =? 1) then w
  else
    let now := now_m rd in
    let s := slot_of slot in
    if negb (allows w DSD_SYNC_DMR_BS_DATA_POS s) then w
    else
      let w := on_ctx (fun c => upd_slot s (fun sl => mk_slot true now (slot_tg sl)) c <| t_voice_m := now |>) w in
      on_st (fun st => st <| last_vc_sync_time_m := now |>) w.

Definition quiet (sl : dmr_sm_slot_ctx) : dmr_sm_slot_ctx := mk_slot false (last_active_m sl) (slot_tg sl).

Definition handle_release (rd : readings) (slot : Z) (w : world) : world :=
  if negb (is_state DMR_SM_TUNED (w_ctx w)) then w
  else if negb (trunk_sm_force_release (w_st w) =? 0) then do_release rd w
  else if (slot <? 0) || (1 <? slot)
  then on_ctx (fun c => upd_slot 1 quiet (upd_slot 0 quiet c)) w
  else on_ctx (upd_slot slot quiet) w.

(** ** Ticks *)

Definition tick_on_cc (now : Z) (w : world) : world :=
  let c := w_ctx w in
  if negb (cc_acquiring c) && (t_cc_sync_m c <=? 0) then on_ctx (fun c => c <| t_cc_sync_m := now |>) w
  else if dmr_cc_window_open c (w_st w) now then w
  else if site_without_cc c && (0 <? cc_rx_freq_hz c) && (cc_rx_freq_hz c =? dmr_cc_anchor c (w_st w))
          && frame_is_current (cc_rx_generation c) (w_gate w)
  then on_ctx (fun c => c <| t_cc_sync_m := now |> <| cc_acquiring := false |>) w
  else on_ctx (fun c => set_state DMR_SM_HUNTING c <| cc_window_lost := true |>) w.

Definition slot_stale (now : Z) (sl : dmr_sm_slot_ctx) : bool :=
  voice_active sl && (0 <? last_active_m sl) && (voice_stale_threshold <? now - last_active_m sl).

Definition clear_stale_voice_slots (now : Z) (c : ctx) : ctx :=
  c <| slots := (fun sl => if slot_stale now sl then quiet sl else sl) <$> slots c |>.

Definition has_voice_activity (c : ctx) : bool := voice_active (slots c !!! 0%nat) || voice_active (slots c !!! 1%nat).

Definition hangtime_expired (c : ctx) (now hangtime : Z) : bool :=
  if t_voice_m c <=? 0 then false else hangtime <=? now - t_voice_m c.

Definition grant_timeout_expired (c : ctx) (now grant_timeout : Z) : bool :=
  if t_tune_m c <=? 0 then false else grant_timeout <=? now - t_tune_m c.

(** The loop over the slots: those the policy does not admit fall quiet. *)
Definition admit_slot (s : Z) (wa : world * bool) : world * bool :=
  let '(w, admitted) := wa in
  if allows w DSD_SYNC_DMR_BS_VOICE_POS s then (w, true) else (on_ctx (upd_slot s quiet) w, admitted).

(** True while nothing on the carrier is admitted. *)
Definition dmr_sm_receive_check (rd : readings) (freq now grant_timeout : Z) (w : world) : world * bool :=
  let w := if negb (freq =? receive_check_freq_hz (w_ctx w)) then
      let fresh := negb (freq =? 0) && (receive_codes_fresh_freq (w_st w) =? freq) in
      on_ctx (fun c => c <| receive_check_freq_hz := freq |> <| receive_check_started_m := 0 |>
                         <| receive_codes_fresh := fresh |>) w else w in
  let w := if receive_codes_fresh (w_ctx w) then
      on_ctx (fun c => c <| receive_carriers :=
        dsd_receive_carriers_note (rx (w_st w)) DSD_SYNC_DMR_BS_VOICE_POS freq
          (receive_carriers c) |>) w else w in
  let '(w, admitted) := admit_slot 1 (admit_slot 0 (w, false)) in
  if admitted then (on_ctx (fun c => c <| receive_check_started_m := 0 |>) w, false)
  else
    let w := if receive_check_started_m (w_ctx w) <=? 0
             then on_ctx (fun c => c <| receive_check_started_m := now |>) w else w in
    (if grant_timeout <=? now - receive_check_started_m (w_ctx w)
     then do_release rd (on_ctx (fun c => c <| receive_check_started_m := 0 |>) w) else w, true).

(** [t_voice_m] follows the latest activity of an active slot. *)
Definition follow_slot (s : nat) (c : ctx) : ctx :=
  let sl := slots c !!! s in
  if voice_active sl && (t_voice_m c <? last_active_m sl) then c <| t_voice_m := last_active_m sl |> else c.

Definition tick_tuned (rd : readings) (now hangtime grant_timeout : Z) (w : world) : world :=
  if negb (trunk_sm_force_release (w_st w) =? 0) then do_release rd w
  else
    let '(w, rejected) := dmr_sm_receive_check rd (vc_freq_hz (w_ctx w)) now grant_timeout w in
    if rejected then w
    else
      let w := on_ctx (clear_stale_voice_slots now) w in
      if has_voice_activity (w_ctx w) then on_ctx (fun c => follow_slot 1 (follow_slot 0 c)) w
      else if hangtime_expired (w_ctx w) now hangtime then do_release rd w
      else if (t_voice_m (w_ctx w) <=? 0) && grant_timeout_expired (w_ctx w) now grant_timeout then do_release rd w
      else w.

Definition dmr_sm_tick_not_admitted (rd : readings) (w : world) : world :=
  if negb (initialized (w_ctx w)) then w
  else if cold_start_hunt (w_ctx w) then fst (dmr_sm_cold_start_gate rd (now_m rd) false w)
  else on_ctx (fun c => c <| cold_start_armed_m := 0 |>) w.

Definition dmr_sm_tick_ready (rd : readings) (now : Z) (w : world) : world * bool :=
  let '(w, go) := if cold_start_hunt (w_ctx w) then dmr_sm_cold_start_gate rd now false w else (w, true) in
  if negb go then (w, false)
  else
    let '(w, unsettled) := dmr_sm_settle_after_move rd now w in
    if unsettled then (w, false) else dmr_cc_resolve_pending rd now w.

Definition ensure_init (rd : readings) (w : world) : world :=
  if initialized (w_ctx w) then w else w <| w_ctx := dmr_sm_init_ctx rd (Some (w_opts w, w_st w)) |>.

Definition dmr_sm_tick_ctx (rd : readings) (w : world) : world :=
  if negb (dsd_trunk_dmr_recovery_allowed rd (w_opts w) (w_st w)) then dmr_sm_tick_not_admitted rd w
  else
    let w := ensure_init rd w in
    let now := now_m rd in
    let hangtime := hangtime_s (w_ctx w) in
    let grant_timeout := grant_timeout_s (w_ctx w) in
    let '(w, ready) := dmr_sm_tick_ready rd now w in
    if negb ready then w
    else match sm_state (w_ctx w) with
         | DMR_SM_IDLE => dmr_sm_tick_idle_cold_start rd now w
         | DMR_SM_ON_CC =>
             if negb (trunk_is_tuned (w_opts w) =? 1) then tick_on_cc now w
             else fst (dmr_sm_receive_check rd (fst (trunk_vc_freq (w_st w))) now grant_timeout w)
         | DMR_SM_TUNED => tick_tuned rd now hangtime grant_timeout w
         | DMR_SM_HUNTING => dmr_cc_hunt rd now w
         end.

Variant event :=
  | EV_GRANT (ev : grant_event)
  | EV_VOICE_SYNC (slot : Z)
  | EV_DATA_SYNC (slot : Z)
  | EV_RELEASE (slot : Z)
  | EV_CC_SYNC
  | EV_SYNC_LOST.

Definition dmr_sm_event (rd : readings) (ev : event) (w : world) : world :=
  let w := ensure_init rd w in
  match ev with
  | EV_GRANT ev => handle_grant rd ev w
  | EV_VOICE_SYNC s => handle_voice_sync rd s w
  | EV_DATA_SYNC s => handle_data_sync rd s w
  | EV_RELEASE s => handle_release rd s w
  | EV_CC_SYNC => dmr_cc_note_heartbeat_ctx rd w
  | EV_SYNC_LOST => w
  end.

(** *** The emit functions *)

Definition dmr_sm_ev_group_grant (freq lpcn tg src : Z) : grant_event := mk_grant_event (-1) freq lpcn tg src 0 true.
Definition dmr_sm_ev_indiv_grant (freq lpcn dst src : Z) : grant_event := mk_grant_event (-1) freq lpcn 0 src dst false.

Definition with_slot (s : Z) (ev : grant_event) : grant_event :=
  mk_grant_event (if in_slots s then s else -1) (ev_freq_hz ev) (ev_lpcn ev) (ev_tg ev) (ev_src ev) (ev_dst ev) (ev_is_group ev).

Definition dmr_sm_emit_voice_sync (rd : readings) (s : Z) (w : world) : world := dmr_sm_event rd (EV_VOICE_SYNC s) w.
Definition dmr_sm_emit_data_sync (rd : readings) (s : Z) (w : world) : world := dmr_sm_event rd (EV_DATA_SYNC s) w.
Definition dmr_sm_emit_release (rd : readings) (s : Z) (w : world) : world := dmr_sm_event rd (EV_RELEASE s) w.

Definition dmr_sm_emit_group_grant_slot (rd : readings) (freq lpcn s tg src : Z) (w : world) : world :=
  dmr_sm_event rd (EV_GRANT (with_slot s (dmr_sm_ev_group_grant freq lpcn tg src))) w.
Definition dmr_sm_emit_group_grant (rd : readings) (freq lpcn tg src : Z) (w : world) : world :=
  dmr_sm_emit_group_grant_slot rd freq lpcn (-1) tg src w.

Definition dmr_sm_emit_indiv_grant_slot (rd : readings) (freq lpcn s dst src : Z) (w : world) : world :=
  dmr_sm_event rd (EV_GRANT (with_slot s (dmr_sm_ev_indiv_grant freq lpcn dst src))) w.
Definition dmr_sm_emit_indiv_grant (rd : readings) (freq lpcn dst src : Z) (w : world) : world :=
  dmr_sm_emit_indiv_grant_slot rd freq lpcn (-1) dst src w.

(** ** Other entry points *)

Definition dmr_sm_cold_start_note_retune (rd : readings) (w : world) : world :=
  if negb (initialized (w_ctx w)) then w
  else
    let now := now_m rd in
    let w := on_ctx (fun c => c <| rx_seen_hz := 0 |> <| rx_seen_generation := 0 |> <| rx_query_retry_m := 0 |>) w in
    if cold_start_hunt (w_ctx w) then
      on_ctx (fun c => c <| cold_start_armed_m := now |> <| cold_start_park_pending := 1 |>
                         <| cc_probe_freq_hz := 0 |> <| cc_rx_freq_hz := 0 |>) w
    else if is_state DMR_SM_IDLE (w_ctx w) then
      on_ctx (fun c => if 0 <? cold_start_armed_m c then c <| cold_start_armed_m := now |> else c) w
    else if trunk_scan_enabled (w_opts w) =? 1 then w
    else
      let w := if is_state DMR_SM_TUNED (w_ctx w) then dmr_sm_abandon_carrier rd w else w in
      on_ctx (fun c => set_state DMR_SM_ON_CC
        (c <| cc_rx_freq_hz := 0 |> <| cc_rx_generation := 0 |> <| cc_probe_freq_hz := 0 |>
           <| cc_acquiring := false |> <| cc_acquire_start_m := 0 |> <| cc_retry_after_m := 0 |>
           <| cc_moved_m := now |> <| t_cc_sync_m := now |> <| cc_tune_superseded := true |>
           <| cc_settle_waited := false |>)) w.

Definition dmr_sm_note_xpt_site (rd : readings) (w : world) : world :=
  let w := note_dmr (on_ctx (fun c => c <| site_without_cc := true |>) w) in
  if negb (trunk_is_tuned (w_opts w) =? 1) && negb (is_state DMR_SM_TUNED (w_ctx w)) then
    let '(w, freq) := dmr_cc_current_frequency rd w in
    if 0 <? freq
    then on_st (fun s => s <| trunk_cc_freq := freq |>) (on_ctx (fun c => c <| cc_freq_hz := freq |>) w) else w
  else w.

Definition dmr_sm_note_system_replaced (c : ctx) : ctx := c <| site_without_cc := false |>.

Definition dmr_sm_note_hangtime (rd : readings) (o : dsd_opts) (c : ctx) : ctx :=
  if bool_decide (is_Some (cfg_hangtime rd)) || (trunk_hangtime o <? 0) then c
  else c <| hangtime_s := trunk_hangtime o |>.

Definition dmr_sm_note_receiver_unknown (c : ctx) : ctx :=
  c <| cc_rx_freq_hz := 0 |> <| cc_rx_generation := 0 |> <| rx_seen_hz := 0 |> <| rx_seen_generation := 0 |>
    <| rx_query_retry_m := 0 |>.

Definition dmr_sm_receiver_on (rd : readings) (freq : Z) (w : world) : world * bool :=
  if freq <=? 0 then (w, false)
  else if negb (cc_tune_request_id (w_ctx w) =? 0) && (cc_probe_freq_hz (w_ctx w) =? freq) then (w, true)
  else let '(w, current) := dmr_cc_current_frequency rd w in (w, current =? freq).

Definition dmr_sm_follows (c : ctx) (freq : Z) : bool :=
  (0 <? freq) && is_state DMR_SM_TUNED c && (vc_freq_hz c =? freq).

Definition dmr_sm_note_status_follow (rd : readings) (freq : Z) (w : world) : world :=
  if freq <=? 0 then w
  else
    on_ctx (fun c => set_state DMR_SM_TUNED
      (c <| vc_freq_hz := freq |> <| vc_lpcn := 0 |> <| vc_tg := 0 |> <| vc_dst := 0 |> <| vc_src := 0 |>
         <| vc_slot := -1 |> <| vc_is_group := true |> <| vc_identity_published := true |>
         <| vc_status_follow := true |> <| vc_crc_flags := 0 |> <| t_tune_m := now_m rd |> <| t_voice_m := 0 |>
         <| cc_acquiring := false |> <| cc_tune_request_id := 0 |> <| cc_tune_superseded := false |>
         <| slots := clear_slot <$> slots c |>)) w.

Definition dmr_sm_cold_start_active (c : ctx) : bool := cold_start_hunt c || (0 <? cold_start_armed_m c).

Definition dmr_sm_cold_start_due (rd : readings) (w : world) : bool :=
  if dmr_sm_cold_start_active (w_ctx w) then true
  else is_state DMR_SM_IDLE (w_ctx w) && dsd_trunk_dmr_recovery_allowed rd (w_opts w) (w_st w)
       && dmr_sm_hunt_eligible (w_ctx w) (w_opts w) (w_st w).

Definition dmr_sm_on_neighbor_update (freqs : list Z) (w : world) : world :=
  w <| w_cands := fold_left (fun ext f =>
         if (f =? 0) || (f =? trunk_cc_freq (w_st w)) then ext
         else fst (cc_add ext f true CANDIDATE_CURRENT_SITE)) freqs (w_cands w) |>.
End Machine.
