(* ===== verification/DmrTrunkLaws.v ===== *)
(** * Properties of the DMR trunking state machine

    The calls into [DmrTrunkSm] as one type ([sm_call], run by [run_call]),
    an invariant of the context that every interleaving of them with the rest
    of the program keeps, and what the machine promises about the calls it
    follows, the frequency it returns to, its hunt and the tunes it waits
    for. *)
From stdpp Require Import relations.
From S2P Require Import Prelude Records Receive TuneGate CcCandidates DmrTrunkSm.

Section Laws.
Context (hooks : dsd_trunk_tuning_hooks (dsd_opts * dsd_state)).

(** ** Calls *)

Variant sm_call :=
  | C_event (ev : event)
  | C_tick
  | C_cc_activity (freq : Z)
  | C_cc_heartbeat
  | C_begin_cc (freq id : Z)
  | C_return_to_cc (freq : Z)
  | C_abandon
  | C_note_retune
  | C_note_xpt
  | C_system_replaced
  | C_note_hangtime
  | C_receiver_unknown
  | C_receiver_on (freq : Z)
  | C_status_follow (freq : Z)
  | C_neighbors (freqs : list Z)
  | C_seed_arm (s tg lsn freq receiver crc generation : Z)
  | C_seed_clear (s : Z)
  | C_seed_reconcile (s lsn tg : Z)
  | C_init.

Definition run_call (rd : readings) (c : sm_call) (w : world) : world :=
  match c with
  | C_event ev => dmr_sm_event hooks rd ev w
  | C_tick => dmr_sm_tick_ctx hooks rd w
  | C_cc_activity f => dmr_sm_note_cc_activity rd f w
  | C_cc_heartbeat => dmr_sm_note_cc_heartbeat rd w
  | C_begin_cc f id => dmr_sm_begin_cc_acquisition rd f id w
  | C_return_to_cc f => fst (dmr_sm_return_to_cc hooks rd f w)
  | C_abandon => dmr_sm_abandon_carrier rd w
  | C_note_retune => dmr_sm_cold_start_note_retune rd w
  | C_note_xpt => dmr_sm_note_xpt_site rd w
  | C_system_replaced => on_ctx dmr_sm_note_system_replaced w
  | C_note_hangtime => on_ctx (dmr_sm_note_hangtime rd (w_opts w)) w
  | C_receiver_unknown => on_ctx dmr_sm_note_receiver_unknown w
  | C_receiver_on f => fst (dmr_sm_receiver_on rd f w)
  | C_status_follow f => dmr_sm_note_status_follow rd f w
  | C_neighbors l => dmr_sm_on_neighbor_update l w
  | C_seed_arm s tg lsn f r crc g => on_ctx (dmr_sm_capplus_seed_arm rd s tg lsn f r crc g) w
  | C_seed_clear s => on_ctx (dmr_sm_capplus_seed_clear s) w
  | C_seed_reconcile s lsn tg => on_ctx (dmr_sm_capplus_seed_reconcile s lsn tg) w
  | C_init => w <| w_ctx := dmr_sm_init_ctx rd (Some (w_opts w, w_st w)) |>
  end.

(** ** The invariant *)

Record carriers_ok (c : dsd_receive_carriers) : Prop := {
  carriers_len : length (c_entries c) = DSD_RECEIVE_CARRIER_MEMORY;
  carriers_next : 0 <= c_next c < Z.of_nat DSD_RECEIVE_CARRIER_MEMORY
}.

Record ctx_ok (c : ctx) : Prop := {
  ok_slots : length (slots c) = 2%nat;
  ok_seeds : length (capplus_seed c) = 2%nat;
  ok_carriers : carriers_ok (receive_carriers c);
  ok_index : 0 <= cc_hunt_index c;
  ok_vc_slot : -1 <= vc_slot c <= 1;
  ok_vc : sm_state c = DMR_SM_TUNED -> 0 < vc_freq_hz c;
  ok_hunt : cold_start_hunt c = true -> sm_state c <> DMR_SM_IDLE;
  ok_armed : sm_state c <> DMR_SM_IDLE -> cold_start_hunt c = false -> cold_start_armed_m c = 0;
  ok_park : cold_start_park_pending c <> 0 -> cold_start_hunt c = true;
  ok_lost : cc_window_lost c = true -> sm_state c = DMR_SM_HUNTING;
  ok_acquiring : cc_acquiring c = true -> sm_state c = DMR_SM_ON_CC \/ sm_state c = DMR_SM_HUNTING
}.

(** What must hold before a change of state. *)
Record set_pre (next : dmr_sm_state_e) (c : ctx) : Prop := {
  pre_slots : length (slots c) = 2%nat;
  pre_seeds : length (capplus_seed c) = 2%nat;
  pre_carriers : carriers_ok (receive_carriers c);
  pre_index : 0 <= cc_hunt_index c;
  pre_vc_slot : -1 <= vc_slot c <= 1;
  pre_vc : next = DMR_SM_TUNED -> 0 < vc_freq_hz c;
  pre_hunt : cold_start_hunt c = true -> next <> DMR_SM_IDLE;
  pre_armed : next <> DMR_SM_IDLE -> cold_start_hunt c = false -> sm_state c = next -> cold_start_armed_m c = 0;
  pre_park : cold_start_park_pending c <> 0 -> cold_start_hunt c = true;
  pre_lost : cc_window_lost c = true -> sm_state c = DMR_SM_HUNTING;
  pre_acquiring : cc_acquiring c = true -> next = DMR_SM_ON_CC \/ next = DMR_SM_HUNTING
}.

Lemma set_state_ok next c : set_pre next c -> ctx_ok (set_state next c).
Proof.
  intros []. unfold set_state, is_state. case_bool_decide as E; [subst next; by split; auto|].
  rsimp. case_bool_decide as E2; [|destruct (cold_start_hunt c) eqn:Eh]; cbn [negb andb]; split; rsimp; try done; try tauto; rewrite Eh; naive_solver.
Qed.

(** Each clause of a change of fields follows from the clauses before. *)
Ltac chain := repeat match goal with
  | H : ?A -> ?B |- _ => let h := fresh in assert (h : A) by (assumption || congruence); specialize (H h); clear h
  end.
Ltac clause := rsimp;
  first [assumption | discriminate | tauto | lia | intros; chain; first [congruence | intuition congruence]].
Ltac ctx_tac := unfold on_ctx, on_st, do_call, dmr_sm_cold_start_clear; cbn [fst snd]; rsimp;
  lazymatch goal with
  | |- ctx_ok (set_state _ _) => apply set_state_ok; match goal with H : ctx_ok _ |- _ => destruct H end; split; clause
  | |- ctx_ok (update _ _ _) => match goal with H : ctx_ok _ |- _ => destruct H end; split; clause
  | |- ctx_ok _ => assumption
  end.

Lemma carriers_zero_ok : carriers_ok carriers_zero.
Proof. by split. Qed.

Lemma init_ctx_ok rd src : ctx_ok (dmr_sm_init_ctx rd src).
Proof.
  unfold dmr_sm_init_ctx. destruct src as [[o st]|], (cfg_hangtime rd), (cfg_grant_timeout rd);
    try destruct (0 <=? _); try destruct (negb _); (split; [done|done|by split|..]; cbn; done || lia || naive_solver).
Qed.

Lemma resolve_ok rd now w : ctx_ok (w_ctx w) -> ctx_ok (w_ctx (fst (dmr_cc_resolve_pending rd now w))).
Proof.
  intros H. unfold dmr_cc_resolve_pending. destruct (_ =? 0); [done|].
  destruct (request_status _ _) as [x t]. destruct (is_pending x && _); [done|].
  destruct (is_pending x); [destruct (request_status _ _) as [x' t']|]; case_bool_decide; ctx_tac.
Qed.

Lemma run_hook_ctx hook w : w_ctx (run_hook hook w).1.1 = w_ctx w.
Proof. unfold run_hook. by destruct (hook _) as [[[e g] x] id]. Qed.

(** Run the hook of the goal: the context is the one before ([Hc]). *)
Ltac hook_case :=
  match goal with |- context [run_hook ?h ?w0] =>
    let w1 := fresh "w1" in let x := fresh "x" in let id := fresh "id" in let Hc := fresh "Hc" in
    pose proof (run_hook_ctx h w0) as Hc; destruct (run_hook h w0) as [[w1 x] id]; cbn [fst snd] in Hc;
    unfold on_ctx, on_st in Hc; revert Hc; rsimp; intros Hc
  end.

Lemma begin_cc_ok rd f id w : ctx_ok (w_ctx w) -> ctx_ok (w_ctx (dmr_sm_begin_cc_acquisition rd f id w)).
Proof.
  intros H. unfold dmr_sm_begin_cc_acquisition. destruct (f <=? 0); [done|]. apply resolve_ok. rsimp.
  pose proof (init_ctx_ok rd (Some (w_opts w, w_st w))) as Hi.
  assert (Hf : cold_start_hunt (dmr_sm_init_ctx rd (Some (w_opts w, w_st w))) = false /\
               cold_start_armed_m (dmr_sm_init_ctx rd (Some (w_opts w, w_st w))) = 0 /\
               cc_window_lost (dmr_sm_init_ctx rd (Some (w_opts w, w_st w))) = false).
  { unfold dmr_sm_init_ctx. destruct (cfg_hangtime rd), (cfg_grant_timeout rd), (0 <=? _), (negb _); done. }
  set (c := dmr_sm_init_ctx rd _) in *. clearbody c. clear H. destruct Hf as (H1 & H2 & H3), (id =? 0); ctx_tac.
Qed.

Lemma return_to_cc_ok rd f w : ctx_ok (w_ctx w) -> ctx_ok (w_ctx (fst (dmr_sm_return_to_cc hooks rd f w))).
Proof.
  intros H. unfold dmr_sm_return_to_cc. destruct (f <=? 0); [done|].
  hook_case. destruct (negb (is_ok x)); cbn [fst].
  - unfold on_st. rsimp. by rewrite Hc.
  - apply begin_cc_ok. unfold on_ctx, on_st. rsimp. rewrite Hc. ctx_tac.
Qed.

Lemma tuner_frequency_ok rd w : ctx_ok (w_ctx w) -> ctx_ok (w_ctx (dmr_cc_tuner_frequency rd w).1).
Proof.
  intros H. unfold dmr_cc_tuner_frequency, dmr_cc_rigctl_frequency. destruct (use_rigctl _ =? 1); [|done].
  cbn [andb]. destruct (_ && _); [ctx_tac|]. destruct (0 <? rigctl_freq rd); ctx_tac.
Qed.

Lemma current_frequency_ok rd w : ctx_ok (w_ctx w) -> ctx_ok (w_ctx (dmr_cc_current_frequency rd w).1).
Proof.
  intros H. unfold dmr_cc_current_frequency, dmr_cc_rigctl_frequency. destruct (_ && _); [done|].
  destruct (use_rigctl _ =? 1); [|by destruct (audio_in_rtl _)].
  destruct (_ && _); [ctx_tac|]. destruct (_ && _); [ctx_tac|]. destruct (0 <? rigctl_freq rd); ctx_tac.
Qed.

Lemma settle_step_ok rd now w : ctx_ok (w_ctx w) -> ctx_ok (w_ctx (dmr_sm_settle_step hooks rd now w).1).
Proof.
  intros H. unfold dmr_sm_settle_step. set (w0 := if negb _ then _ else w).
  assert (H0 : ctx_ok (w_ctx w0)) by (unfold w0; destruct (negb _); [by apply resolve_ok|done]). clearbody w0. clear H.
  destruct (negb _); [done|]. destruct (negb _); [|done]. destruct (is_pending _); [done|].
  pose proof (tuner_frequency_ok rd w0 H0) as H1. destruct (dmr_cc_tuner_frequency rd w0) as [w1 freq].
  cbn [fst] in H1. clear H0. destruct (0 <? freq).
  - hook_case. rewrite <- Hc in H1. destruct (is_ok x); ctx_tac.
  - ctx_tac.
Qed.

Lemma park_now_ok keep c : ctx_ok c -> ctx_ok (dmr_sm_cold_start_park_now keep c).
Proof. intros H. unfold dmr_sm_cold_start_park_now. destruct keep; ctx_tac. Qed.

Lemma clear_ok c : ctx_ok c -> ctx_ok (dmr_sm_cold_start_clear c).
Proof. intros H. ctx_tac. Qed.

(** Nothing stands but what a settle step may leave pending. *)
Lemma settle_ok rd now keep w : ctx_ok (w_ctx w) -> cold_start_hunt (w_ctx w) = true ->
  ctx_ok (w_ctx (dmr_sm_cold_start_settle hooks rd now keep w)).
Proof.
  intros H Hh. unfold dmr_sm_cold_start_settle. set (w0 := on_ctx _ w).
  assert (H0 : ctx_ok (w_ctx w0)) by (unfold w0; ctx_tac). clearbody w0. clear H.
  pose proof (settle_step_ok rd now w0 H0) as H1. destruct (dmr_sm_settle_step hooks rd now w0) as [w1 []]; [done|].
  by apply park_now_ok.
Qed.

Lemma settle_after_move_ok rd now w : ctx_ok (w_ctx w) -> ctx_ok (w_ctx (dmr_sm_settle_after_move hooks rd now w).1).
Proof.
  intros H. unfold dmr_sm_settle_after_move. destruct (negb _); [done|].
  pose proof (settle_step_ok rd now w H) as H1. destruct (dmr_sm_settle_step hooks rd now w) as [w1 []];
    cbn [fst] in H1; clear H; ctx_tac.
Qed.

Lemma gate_ok rd now d w : ctx_ok (w_ctx w) -> cold_start_hunt (w_ctx w) = true ->
  ctx_ok (w_ctx (dmr_sm_cold_start_gate hooks rd now d w).1).
Proof.
  intros H Hh. unfold dmr_sm_cold_start_gate.
  repeat match goal with |- context [if ?b then _ else _] => destruct b end; cbn [fst]; try done;
    try (by apply settle_ok); try by (unfold on_ctx; rsimp; first [apply park_now_ok|apply clear_ok]).
Qed.

Lemma activity_context_ok rd w : ctx_ok (w_ctx w) -> ctx_ok (w_ctx (dmr_cc_activity_context rd w).1).
Proof.
  intros H. unfold dmr_cc_activity_context. destruct (_ || _); [done|]. destruct (_ && _); [done|]. by apply resolve_ok.
Qed.

Lemma note_activity_ok rd f w : ctx_ok (w_ctx w) -> ctx_ok (w_ctx (dmr_cc_note_activity_ctx rd f w)).
Proof.
  intros H. unfold dmr_cc_note_activity_ctx. pose proof (current_frequency_ok rd w H) as H1.
  destruct (dmr_cc_current_frequency rd w) as [w1 current]. cbn [fst] in H1. clear H. destruct (_ || _ || _); [done|].
  unfold note_dmr. ctx_tac.
Qed.

Lemma heartbeat_ok rd w : ctx_ok (w_ctx w) -> ctx_ok (w_ctx (dmr_cc_note_heartbeat_ctx rd w)).
Proof.
  intros H. unfold dmr_cc_note_heartbeat_ctx. destruct (_ || _ || _); [done|].
  pose proof (resolve_ok rd (now_m rd) w H) as H1. destruct (dmr_cc_resolve_pending rd (now_m rd) w) as [w1 []]; [|done].
  cbn [fst negb] in *. clear H. destruct (_ && _); ctx_tac.
Qed.

(** *** The hunt *)

Lemma skip_repeats_ge fuel st freq i : i <= skip_repeats fuel st freq i.
Proof.
  revert i. induction fuel as [|fuel IH]; intros i; cbn; [lia|]. destruct (_ && _); [|lia]. specialize (IH (i + 1)). lia.
Qed.

Lemma mapped_loop_index tries st probe i listed : 0 <= i -> 0 <= (mapped_loop tries st probe i listed).1.1.
Proof.
  revert i listed. induction tries as [|tries IH]; intros i listed Hi; [done|]. cbn [mapped_loop].
  set (j := if _ || _ then 0 else i). assert (Hj : 0 <= j) by (unfold j; destruct (_ || _); lia). clearbody j.
  destruct (_ || _); [apply IH; lia|]. destruct (_ =? probe); [apply IH; lia|]. cbn.
  pose proof (skip_repeats_ge (Z.to_nat (lcn_freq_count st - (j + 1))) st ((trunk_lcn st).[Z.to_nat j]) (j + 1)). lia.
Qed.

Lemma next_candidate_ok rd w : ctx_ok (w_ctx w) -> ctx_ok (w_ctx (dmr_cc_next_candidate rd w).1).
Proof.
  intros H. unfold dmr_cc_next_candidate. destruct (site_without_cc _); [done|]. destruct (_ && _).
  - destruct (_ && _); [done|]. unfold dmr_cc_next_mapped_candidate.
    match goal with |- context [mapped_loop ?n ?st ?p ?i ?b] =>
      pose proof (mapped_loop_index n st p i b (ok_index _ H)) as Hi; destruct (mapped_loop n st p i b) as [[j pl] found] end.
    cbn [fst snd] in Hi. destruct found; [ctx_tac|]. destruct (_ && _); ctx_tac.
  - destruct (_ && _); [done|]. destruct (cc_next _ _ _ _ _) as [ext cand]. ctx_tac.
Qed.

Lemma hunt_ok rd now w : ctx_ok (w_ctx w) -> ctx_ok (w_ctx (dmr_cc_hunt hooks rd now w)).
Proof.
  intros H. unfold dmr_cc_hunt. destruct (_ || _ || _); [done|].
  set (wg := if cold_start_hunt _ then _ else (w, true)).
  assert (H0 : ctx_ok (w_ctx wg.1)).
  { unfold wg. destruct (cold_start_hunt (w_ctx w)) eqn:E; [by apply gate_ok|done]. }
  clearbody wg. destruct wg as [w0 go]. cbn [fst] in H0. clear H w. destruct (negb go); [done|].
  destruct (_ && _) eqn:El; [apply andb_true_iff in El as [El _]; ctx_tac|]. clear El.
  set (w1 := on_ctx _ w0). assert (H1 : ctx_ok (w_ctx w1)) by (unfold w1; ctx_tac). clearbody w1. clear H0.
  pose proof (next_candidate_ok rd w1 H1) as H2. destruct (dmr_cc_next_candidate rd w1) as [w2 freq].
  cbn [fst] in H2. clear H1 w1. destruct (freq <=? 0); [done|]. destruct (_ && _); [ctx_tac|].
  hook_case. rewrite <- Hc in H2. destruct (negb (is_ok x)); [ctx_tac|]. apply resolve_ok. ctx_tac.
Qed.

Lemma tick_idle_ok rd now w : sm_state (w_ctx w) = DMR_SM_IDLE -> ctx_ok (w_ctx w) ->
  ctx_ok (w_ctx (dmr_sm_tick_idle_cold_start hooks rd now w)).
Proof.
  intros Hs H. unfold dmr_sm_tick_idle_cold_start. destruct (negb _); [ctx_tac|].
  destruct (_ <=? 0); [ctx_tac|]. destruct (negb _); [done|]. apply hunt_ok. ctx_tac.
Qed.

(** *** Release *)

Lemma end_slot_ctx rd i w : w_ctx (end_slot rd i w) = w_ctx w.
Proof. unfold end_slot. destruct (call_end_ok rd i); by unfold do_call; rsimp. Qed.

Lemma release_without_cc_ok rd w : ctx_ok (w_ctx w) -> ctx_ok (w_ctx (dmr_sm_release_without_cc rd w)).
Proof.
  intros H. unfold dmr_sm_release_without_cc, on_ctx, on_st, do_call. rsimp. rewrite !end_slot_ctx. ctx_tac.
Qed.

(** After a call is cleared the state is no longer [TUNED]. *)
Lemma clear_released_ok rd ret count next w : ctx_ok (w_ctx w) -> next = DMR_SM_ON_CC \/ next = DMR_SM_HUNTING ->
  ctx_ok (w_ctx (dmr_sm_clear_released_carrier rd ret count next w)).
Proof.
  intros H Hn. unfold dmr_sm_clear_released_carrier.
  assert (P : forall w1, set_pre next (w_ctx w1) -> ctx_ok (w_ctx (on_ctx (set_state next) w1))).
  { intros w1 Hp. unfold on_ctx. rsimp. by apply set_state_ok. }
  apply P. destruct ret; unfold dmr_sm_release_without_cc, on_ctx, on_st, do_call; rsimp;
    rewrite ?end_slot_ctx; rsimp; destruct H; split; rsimp; rewrite ?length_fmap;
    try assumption; try lia; try tauto; intros; chain; first [congruence | destruct Hn; subst; intuition congruence].
Qed.

Lemma do_release_ok rd w : ctx_ok (w_ctx w) -> ctx_ok (w_ctx (do_release hooks rd w)).
Proof.
  intros H. unfold do_release. set (w0 := on_st _ w). assert (H0 : ctx_ok (w_ctx w0)) by (unfold w0; ctx_tac).
  clearbody w0. clear H. set (cc := dmr_sm_release_destination _ _). set (wx := if 0 <? cc then _ else _).
  assert (H1 : ctx_ok (w_ctx wx.1)) by (unfold wx; destruct (0 <? cc); [by apply return_to_cc_ok|done]).
  clearbody wx. destruct wx as [w1 x]. cbn [fst] in H1. clearbody cc. clear H0 w0.
  destruct (negb (is_ok x)); [destruct (negb _); ctx_tac|].
  apply clear_released_ok; [done|]. destruct (0 <? cc); auto.
Qed.

Lemma abandon_ok rd w : ctx_ok (w_ctx w) -> ctx_ok (w_ctx (dmr_sm_abandon_carrier rd w)).
Proof. intros H. unfold dmr_sm_abandon_carrier. apply clear_released_ok; [ctx_tac|auto]. Qed.

(** *** Events *)

Lemma tunable_grant_freq w ev f : dmr_sm_resolve_tunable_grant w ev = Some f -> 0 < f.
Proof.
  unfold dmr_sm_resolve_tunable_grant. destruct (_ || _ || _); [done|]. destruct (negb _); [done|].
  destruct (Z.leb_spec (resolve_freq (w_st w) (ev_freq_hz ev) (ev_lpcn ev)) 0); [done|].
  destruct (dsd_receive_carriers_rejects _ _ _); [done|]. destruct (_ && _ && _); [done|].
  destruct (_ && _); [done|]. intros [= <-]. lia.
Qed.

Lemma handle_grant_ok rd ev w : ctx_ok (w_ctx w) -> ctx_ok (w_ctx (handle_grant hooks rd ev w)).
Proof.
  intros H. unfold handle_grant. set (w0 := note_dmr w).
  assert (H0 : ctx_ok (w_ctx w0)) by (unfold w0, note_dmr; ctx_tac). clearbody w0. clear H w.
  destruct (dmr_sm_resolve_tunable_grant w0 ev) as [freq|] eqn:Ef; [|done]. apply tunable_grant_freq in Ef.
  set (w1 := if _ && _ && _ then _ else w0).
  assert (H1 : ctx_ok (w_ctx w1)) by (unfold w1; destruct (_ && _ && _); [by apply note_activity_ok|done]).
  clearbody w1. clear H0 w0. hook_case. rewrite <- Hc in H1. clear Hc. destruct (negb (is_ok x)); [done|].
  unfold on_ctx, on_st, do_call; rsimp. apply set_state_ok. destruct H1. split; rsimp; rewrite ?length_fmap; try assumption;
    try tauto; try lia; try clause.
  destruct (Z.leb_spec 0 (ev_slot ev)), (Z.leb_spec (ev_slot ev) 1); cbn [andb]; lia.
Qed.

Lemma slot_of_range s : 0 <= slot_of s <= 1.
Proof. unfold slot_of, in_slots. destruct (Z.leb_spec 0 s), (Z.leb_spec s 1); cbn; lia. Qed.

Lemma voice_evidence_ok st s now c : ctx_ok c -> ctx_ok (dmr_sm_note_voice_evidence st s now c).
Proof.
  intros H. unfold dmr_sm_note_voice_evidence. destruct (_ <=? 0); [done|]. unfold upd_slot.
  match goal with |- context [if ?b then _ else _] => destruct b end; destruct H; split; rsimp;
    rewrite ?length_alter; clause.
Qed.

Lemma set_seed_ok s x c : ctx_ok c -> ctx_ok (set_seed s x c).
Proof. intros H. unfold set_seed. destruct H; split; rsimp; rewrite ?length_insert; clause. Qed.

Lemma seed_clear_ok s c : ctx_ok c -> ctx_ok (dmr_sm_capplus_seed_clear s c).
Proof.
  intros H. unfold dmr_sm_capplus_seed_clear. destruct (s <? 0); [by do 2 apply set_seed_ok|].
  destruct (s <=? 1); [by apply set_seed_ok|done].
Qed.

Lemma seed_apply_ok rd s now w : ctx_ok (w_ctx w) -> ctx_ok (w_ctx (dmr_sm_capplus_seed_apply rd s now w)).
Proof.
  intros H. unfold dmr_sm_capplus_seed_apply. destruct (negb _); [done|].
  match goal with |- context [if ?x <? 0 then on_ctx _ _ else _] => generalize x end. intros cur.
  destruct (cur <? 0); [unfold on_ctx; rsimp; by apply seed_clear_ok|]. destruct (cur =? 0); [done|].
  destruct (call_get rd s) as [call|]; [|done]. destruct (negb _); [done|].
  destruct (negb _); unfold on_ctx, do_call; rsimp; by apply seed_clear_ok.
Qed.

Lemma voice_sync_ok rd s w : ctx_ok (w_ctx w) -> ctx_ok (w_ctx (handle_voice_sync rd s w)).
Proof.
  intros H. unfold handle_voice_sync. destruct (negb _); [done|]. pose proof (slot_of_range s) as Hs.
  apply seed_apply_ok. unfold publish_identity, update_voice_sync_state.
  set (w0 := on_ctx _ w). assert (H0 : ctx_ok (w_ctx w0)) by (unfold w0, on_ctx; rsimp; by apply voice_evidence_ok).
  clearbody w0. clear H. set (w1 := if is_state DMR_SM_TUNED _ && _ then _ else _).
  assert (H1 : ctx_ok (w_ctx w1)) by (unfold w1; destruct (_ && _); ctx_tac).
  clearbody w1. clear H0. destruct (_ && _ && _); [|done]. destruct (call_observed rd); ctx_tac.
Qed.

Lemma upd_slot_ok s f c : ctx_ok c -> ctx_ok (upd_slot s f c).
Proof. intros H. unfold upd_slot. destruct H; split; rsimp; rewrite ?length_alter; clause. Qed.

Lemma data_sync_ok rd s w : ctx_ok (w_ctx w) -> ctx_ok (w_ctx (handle_data_sync rd s w)).
Proof.
  intros H. unfold handle_data_sync. destruct (negb _); [done|]. destruct (negb _); [done|].
  unfold on_ctx, on_st. rsimp. pose proof (upd_slot_ok (slot_of s) (fun sl => mk_slot true (now_m rd) (slot_tg sl)) _ H) as H1.
  clear H. ctx_tac.
Qed.

Lemma handle_release_ok rd s w : ctx_ok (w_ctx w) -> ctx_ok (w_ctx (handle_release hooks rd s w)).
Proof.
  intros H. unfold handle_release. destruct (negb _); [done|]. destruct (negb _); [by apply do_release_ok|].
  destruct (_ || _); unfold on_ctx; rsimp; repeat apply upd_slot_ok; done.
Qed.

(** *** Ticks *)

Lemma tick_on_cc_ok now w : sm_state (w_ctx w) = DMR_SM_ON_CC -> ctx_ok (w_ctx w) -> ctx_ok (w_ctx (tick_on_cc now w)).
Proof.
  intros Hs H. unfold tick_on_cc. destruct (_ && _); [ctx_tac|]. destruct (dmr_cc_window_open _ _ _); [done|].
  destruct (_ && _ && _ && _); [ctx_tac|]. unfold on_ctx. rsimp.
  assert (H1 : ctx_ok (set_state DMR_SM_HUNTING (w_ctx w))) by ctx_tac.
  assert (Hh : sm_state (set_state DMR_SM_HUNTING (w_ctx w)) = DMR_SM_HUNTING).
  { unfold set_state, is_state. rewrite bool_decide_false by congruence. rsimp.
    destruct (cold_start_hunt (w_ctx w)); cbn [negb andb]; rsimp; done. }
  clear H. ctx_tac.
Qed.

Lemma carriers_note_ok st p f c : carriers_ok c -> carriers_ok (dsd_receive_carriers_note st p f c).
Proof.
  intros [Hl Hn]. unfold dsd_receive_carriers_note. destruct (f <=? 0); [by split|].
  destruct (known _); [|by split]. destruct (filter_kind _) as [[|k]|]; [by split| |by split].
  destruct (find_carrier _ _) as [i|]; split; cbn [c_entries c_next]; rewrite ?length_insert; try done.
  apply Z.mod_pos_bound. unfold DSD_RECEIVE_CARRIER_MEMORY. lia.
Qed.

Lemma admit_slot_ok s wa : ctx_ok (w_ctx wa.1) -> ctx_ok (w_ctx (admit_slot s wa).1).
Proof.
  intros H. unfold admit_slot. destruct wa as [w b]. destruct (allows _ _ _); [done|].
  unfold on_ctx. cbn [fst] in *. rsimp. by apply upd_slot_ok.
Qed.

Lemma receive_check_ok rd f now gt w : ctx_ok (w_ctx w) -> ctx_ok (w_ctx (dmr_sm_receive_check hooks rd f now gt w).1).
Proof.
  intros H. unfold dmr_sm_receive_check. set (w0 := if negb _ then _ else w).
  assert (H0 : ctx_ok (w_ctx w0)) by (unfold w0; destruct (negb _); ctx_tac). clearbody w0. clear H.
  set (w1 := if receive_codes_fresh (w_ctx w0) then _ else w0).
  assert (H1 : ctx_ok (w_ctx w1)).
  { unfold w1. destruct (receive_codes_fresh _); [|done]. unfold on_ctx. rsimp.
    destruct H0; split; rsimp; first [by apply carriers_note_ok|clause]. }
  clearbody w1. clear H0. pose proof (admit_slot_ok 1 _ (admit_slot_ok 0 (w1, false) H1)) as H2.
  destruct (admit_slot 1 _) as [w2 []]; cbn [fst] in *; clear H1; [ctx_tac|].
  set (w3 := if _ <=? 0 then _ else w2).
  assert (H3 : ctx_ok (w_ctx w3)) by (unfold w3; destruct (_ <=? 0); ctx_tac). clearbody w3. clear H2.
  destruct (gt <=? _); [|done]. apply do_release_ok. ctx_tac.
Qed.

Lemma follow_slot_ok s c : ctx_ok c -> ctx_ok (follow_slot s c).
Proof. intros H. unfold follow_slot. destruct (_ && _); ctx_tac. Qed.

Lemma tick_tuned_ok rd now h gt w : ctx_ok (w_ctx w) -> ctx_ok (w_ctx (tick_tuned hooks rd now h gt w)).
Proof.
  intros H. unfold tick_tuned. destruct (negb _); [by apply do_release_ok|].
  pose proof (receive_check_ok rd (vc_freq_hz (w_ctx w)) now gt w H) as H1.
  destruct (dmr_sm_receive_check _ _ _ _ _ _) as [w1 []]; [done|]. cbn [fst] in H1. clear H.
  set (w2 := on_ctx _ w1).
  assert (H2 : ctx_ok (w_ctx w2)).
  { unfold w2, on_ctx, clear_stale_voice_slots. rsimp. destruct H1; split; rsimp; rewrite ?length_fmap; clause. }
  clearbody w2. clear H1. destruct (has_voice_activity _).
  - unfold on_ctx. rsimp. by do 2 apply follow_slot_ok.
  - destruct (hangtime_expired _ _ _); [by apply do_release_ok|]. destruct (_ && _); [by apply do_release_ok|done].
Qed.

Lemma not_admitted_ok rd w : ctx_ok (w_ctx w) -> ctx_ok (w_ctx (dmr_sm_tick_not_admitted hooks rd w)).
Proof.
  intros H. unfold dmr_sm_tick_not_admitted. destruct (negb _); [done|].
  destruct (cold_start_hunt (w_ctx w)) eqn:E; [by apply gate_ok|ctx_tac].
Qed.

Lemma tick_ready_ok rd now w : ctx_ok (w_ctx w) -> ctx_ok (w_ctx (dmr_sm_tick_ready hooks rd now w).1).
Proof.
  intros H. unfold dmr_sm_tick_ready. set (wg := if cold_start_hunt _ then _ else (w, true)).
  assert (H0 : ctx_ok (w_ctx wg.1)).
  { unfold wg. destruct (cold_start_hunt (w_ctx w)) eqn:E; [by apply gate_ok|done]. }
  clearbody wg. destruct wg as [w0 []]; cbn [fst negb] in *; [|done]. clear H.
  pose proof (settle_after_move_ok rd now w0 H0) as H1. destruct (dmr_sm_settle_after_move hooks rd now w0) as [w1 []]; [done|].
  by apply resolve_ok.
Qed.

Lemma ensure_init_ok rd w : ctx_ok (w_ctx w) -> ctx_ok (w_ctx (ensure_init rd w)).
Proof. intros H. unfold ensure_init. destruct (initialized _); [done|]. rsimp. apply init_ctx_ok. Qed.

Lemma tick_ok rd w : ctx_ok (w_ctx w) -> ctx_ok (w_ctx (dmr_sm_tick_ctx hooks rd w)).
Proof.
  intros H. unfold dmr_sm_tick_ctx. destruct (negb _); [by apply not_admitted_ok|].
  apply (ensure_init_ok rd) in H. set (w0 := ensure_init rd w) in *. clearbody w0. cbv zeta.
  pose proof (tick_ready_ok rd (now_m rd) w0 H) as H1. destruct (dmr_sm_tick_ready _ _ _ _) as [w1 []]; [|done].
  cbn [fst negb] in *. generalize (hangtime_s (w_ctx w0)), (grant_timeout_s (w_ctx w0)). intros h gt. clear H.
  destruct (sm_state (w_ctx w1)) eqn:E.
  - by apply tick_idle_ok.
  - destruct (negb _); [by apply tick_on_cc_ok|by apply receive_check_ok].
  - by apply tick_tuned_ok.
  - by apply hunt_ok.
Qed.

(** *** Other entry points *)

Lemma note_cc_activity_ok rd f w : ctx_ok (w_ctx w) -> ctx_ok (w_ctx (dmr_sm_note_cc_activity rd f w)).
Proof.
  intros H. unfold dmr_sm_note_cc_activity. destruct (_ && _).
  - unfold dmr_cc_note_monitor_frequency. destruct (_ && _); ctx_tac.
  - pose proof (activity_context_ok rd w H) as H1. destruct (dmr_cc_activity_context rd w) as [w1 []]; [|done].
    by apply note_activity_ok.
Qed.

Lemma note_cc_heartbeat_ok rd w : ctx_ok (w_ctx w) -> ctx_ok (w_ctx (dmr_sm_note_cc_heartbeat rd w)).
Proof.
  intros H. unfold dmr_sm_note_cc_heartbeat.
  pose proof (activity_context_ok rd w H) as H1. destruct (dmr_cc_activity_context rd w) as [w1 []]; [|done].
  by apply heartbeat_ok.
Qed.

Lemma note_retune_ok rd w : ctx_ok (w_ctx w) -> ctx_ok (w_ctx (dmr_sm_cold_start_note_retune rd w)).
Proof.
  intros H. unfold dmr_sm_cold_start_note_retune. destruct (negb _); [done|].
  set (w1 := on_ctx _ w). assert (H1 : ctx_ok (w_ctx w1)) by (unfold w1; ctx_tac). clearbody w1. clear H.
  destruct (cold_start_hunt (w_ctx w1)) eqn:Eh; [ctx_tac|].
  unfold is_state at 1. case_bool_decide as Ei; [unfold on_ctx; rsimp; destruct (0 <? _); ctx_tac|].
  destruct (_ =? 1); [done|]. set (w2 := if is_state DMR_SM_TUNED (w_ctx w1) then _ else w1).
  assert (H2 : ctx_ok (w_ctx w2)) by (unfold w2; destruct (is_state _ _); [by apply abandon_ok|done]).
  clearbody w2. clear H1 Eh Ei. ctx_tac.
Qed.

Lemma note_xpt_ok rd w : ctx_ok (w_ctx w) -> ctx_ok (w_ctx (dmr_sm_note_xpt_site rd w)).
Proof.
  intros H. unfold dmr_sm_note_xpt_site. set (w1 := note_dmr _).
  assert (H1 : ctx_ok (w_ctx w1)) by (unfold w1, note_dmr; ctx_tac). clearbody w1. clear H.
  destruct (_ && _); [|done]. pose proof (current_frequency_ok rd w1 H1) as H2.
  destruct (dmr_cc_current_frequency rd w1) as [w2 f]. cbn [fst] in H2. clear H1. destruct (0 <? f); ctx_tac.
Qed.

Lemma receiver_on_ok rd f w : ctx_ok (w_ctx w) -> ctx_ok (w_ctx (dmr_sm_receiver_on rd f w).1).
Proof.
  intros H. unfold dmr_sm_receiver_on. destruct (f <=? 0); [done|]. destruct (_ && _); [done|].
  pose proof (current_frequency_ok rd w H) as H2. by destruct (dmr_cc_current_frequency rd w).
Qed.

Lemma status_follow_ok rd f w : ctx_ok (w_ctx w) -> ctx_ok (w_ctx (dmr_sm_note_status_follow rd f w)).
Proof.
  intros H. unfold dmr_sm_note_status_follow. destruct (Z.leb_spec f 0); [done|]. unfold on_ctx. rsimp.
  apply set_state_ok. destruct H; split; rsimp; rewrite ?length_fmap; clause.
Qed.

Lemma seed_arm_ok rd s tg lsn f r crc g c : ctx_ok c -> ctx_ok (dmr_sm_capplus_seed_arm rd s tg lsn f r crc g c).
Proof.
  intros H. unfold dmr_sm_capplus_seed_arm. destruct (_ || _); [done|]. destruct (_ || _); by apply set_seed_ok.
Qed.

Lemma seed_reconcile_ok s lsn tg c : ctx_ok c -> ctx_ok (dmr_sm_capplus_seed_reconcile s lsn tg c).
Proof.
  intros H. unfold dmr_sm_capplus_seed_reconcile. destruct (negb _); [done|]. destruct (_ && _ && _); [|done].
  by apply seed_clear_ok.
Qed.

Lemma event_ok rd ev w : ctx_ok (w_ctx w) -> ctx_ok (w_ctx (dmr_sm_event hooks rd ev w)).
Proof.
  intros H. unfold dmr_sm_event. apply (ensure_init_ok rd) in H. destruct ev.
  - by apply handle_grant_ok.
  - by apply voice_sync_ok.
  - by apply data_sync_ok.
  - by apply handle_release_ok.
  - by apply heartbeat_ok.
  - done.
Qed.

Lemma run_call_ok rd c w : ctx_ok (w_ctx w) -> ctx_ok (w_ctx (run_call rd c w)).
Proof.
  intros H. destruct c; cbn [run_call];
    [by apply event_ok|by apply tick_ok|by apply note_cc_activity_ok|by apply note_cc_heartbeat_ok|by apply begin_cc_ok
    |by apply return_to_cc_ok|by apply abandon_ok|by apply note_retune_ok|by apply note_xpt_ok|..|apply init_ctx_ok];
    try (unfold on_ctx; rsimp); try by (first [apply receiver_on_ok|apply status_follow_ok|apply seed_arm_ok
      |apply seed_clear_ok|apply seed_reconcile_ok]).
  - unfold dmr_sm_note_system_replaced. ctx_tac.
  - unfold dmr_sm_note_hangtime. destruct (_ || _); ctx_tac.
  - unfold dmr_sm_note_receiver_unknown. ctx_tac.
  - unfold dmr_sm_on_neighbor_update. ctx_tac.
Qed.

(** The machine among the rest of the program: a call, or a change of
    anything but the machine's context. *)
Inductive sm_step (w : world) : world -> Prop :=
  | Step_call rd c : sm_step w (run_call rd c w)
  | Step_rest o st g cs log : sm_step w (mk_world o st (w_ctx w) g cs log).

Lemma zero_ctx_ok : ctx_ok ctx_zero.
Proof. split; [done|done|by split|..]; cbn; done || lia || naive_solver. Qed.

(** C14: From the zeroed context, whatever calls come in whatever order, with
    any clock and configuration readings, any tuner, and any change of the
    session between them, the context stays well formed: a followed call has a
    frequency, the hunt cursor and the followed slot index their tables, the
    carrier memory keeps its size, a startup hunt or a park never stands in a
    state without one, the startup clock runs only while idle or hunting, and
    an acquisition or a lost window only in the states that resolve it. *)
Theorem sm_invariant w0 w : w_ctx w0 = ctx_zero -> rtc sm_step w0 w -> ctx_ok (w_ctx w).
Proof.
  intros H Hs. assert (H0 : ctx_ok (w_ctx w0)) by (rewrite H; apply zero_ctx_ok). clear H.
  induction Hs as [|x y z Hxy _ IH]; [done|]. apply IH. destruct Hxy; [by apply run_call_ok|done].
Qed.

(** ** The return destination *)

Notation destination w := (trunk_cc_freq (w_st w)).

(** Off a call: no channel is followed, here or by the rest of the program. *)
Definition off_call (w : world) : Prop := sm_state (w_ctx w) <> DMR_SM_TUNED /\ trunk_is_tuned (w_opts w) <> 1.

Lemma set_state_state next c : sm_state (set_state next c) = next.
Proof.
  unfold set_state, is_state. case_bool_decide as E; [done|]. rsimp. by destruct (_ && _); rsimp.
Qed.

Lemma resolve_rest rd now w :
  w_st (dmr_cc_resolve_pending rd now w).1 = w_st w /\ w_opts (dmr_cc_resolve_pending rd now w).1 = w_opts w.
Proof.
  unfold dmr_cc_resolve_pending. destruct (_ =? 0); [done|]. destruct (request_status _ _) as [x t].
  destruct (is_pending x && _); [done|].
  destruct (is_pending x); [destruct (request_status _ _) as [x' t']|]; case_bool_decide; unfold on_ctx; cbn [fst]; by rsimp.
Qed.

Lemma resolve_off rd now w : off_call w -> off_call (dmr_cc_resolve_pending rd now w).1.
Proof.
  intros [Hs Ht]. split; [|by rewrite (proj2 (resolve_rest rd now w))].
  unfold dmr_cc_resolve_pending. destruct (_ =? 0); [done|]. destruct (request_status _ _) as [x t].
  destruct (is_pending x && _); [done|].
  destruct (is_pending x); [destruct (request_status _ _) as [x' t']|]; case_bool_decide; unfold on_ctx; cbn [fst]; rsimp;
    rewrite ?set_state_state; done.
Qed.

Lemma tuner_frequency_rest rd w :
  w_st (dmr_cc_tuner_frequency rd w).1 = w_st w /\ w_opts (dmr_cc_tuner_frequency rd w).1 = w_opts w.
Proof.
  unfold dmr_cc_tuner_frequency. destruct (use_rigctl _ =? 1); [|done]. destruct (dmr_cc_rigctl_frequency _ _ _ _). cbn [fst].
  by rsimp.
Qed.

Lemma settle_step_destination rd now w : destination (dmr_sm_settle_step hooks rd now w).1 = destination w.
Proof.
  unfold dmr_sm_settle_step. set (w0 := if negb _ then _ else w).
  assert (H0 : w_st w0 = w_st w) by (unfold w0; destruct (negb _); [apply resolve_rest|done]). clearbody w0.
  rewrite <- H0. clear H0 w. destruct (negb _); [done|]. destruct (negb _); [|done]. destruct (is_pending _); [done|].
  destruct (tuner_frequency_rest rd w0) as [H _]. destruct (dmr_cc_tuner_frequency rd w0) as [w1 f]. cbn [fst] in H.
  rewrite <- H. set (y := if 0 <? f then _ else _). clearbody y. destruct y as [[w2 x] id]. cbn [fst].
  destruct (is_ok x); unfold on_ctx, on_st; by rsimp.
Qed.

Lemma settle_destination rd now keep w : destination (dmr_sm_cold_start_settle hooks rd now keep w) = destination w.
Proof.
  unfold dmr_sm_cold_start_settle. set (w0 := on_ctx _ w). assert (H : destination w0 = destination w) by (unfold w0, on_ctx; by rsimp).
  clearbody w0. rewrite <- H. pose proof (settle_step_destination rd now w0) as H1.
  destruct (dmr_sm_settle_step hooks rd now w0) as [w1 []]; [done|]. unfold on_ctx. by rsimp.
Qed.

Lemma settle_after_move_destination rd now w : let y := dmr_sm_settle_after_move hooks rd now w in
  destination y.1 = destination w /\ (y.2 = false -> off_call w -> off_call y.1).
Proof.
  unfold dmr_sm_settle_after_move. destruct (negb _); [done|]. pose proof (settle_step_destination rd now w) as H1.
  assert (H2 : (dmr_sm_settle_step hooks rd now w).2 = false -> w_opts (dmr_sm_settle_step hooks rd now w).1 = w_opts w).
  { unfold dmr_sm_settle_step. set (w0 := if negb _ then _ else w).
    assert (H0 : w_opts w0 = w_opts w) by (unfold w0; destruct (negb _); [apply resolve_rest|done]). clearbody w0.
    destruct (negb _); [done|]. destruct (negb _); [|done]. destruct (is_pending _); [done|].
    destruct (dmr_cc_tuner_frequency rd w0) as [w1 f]. set (y := if 0 <? f then _ else _). clearbody y.
    by destruct y as [[w2 x] id]. }
  destruct (dmr_sm_settle_step hooks rd now w) as [w1 []]; cbn [fst snd] in *; unfold on_ctx; split; rsimp; try done.
  intros _ [Hs Ht]. specialize (H2 eq_refl). unfold off_call. rsimp. rewrite set_state_state, H2. done.
Qed.

Lemma gate_destination rd now d w : let y := dmr_sm_cold_start_gate hooks rd now d w in
  destination y.1 = destination w /\ (y.2 = true -> y.1 = w).
Proof.
  unfold dmr_sm_cold_start_gate.
  repeat match goal with |- context [if ?b then _ else _] => destruct b end; cbn [fst snd]; split; try done;
    try apply settle_destination; unfold on_ctx; by rsimp.
Qed.

Lemma next_candidate_st rd w : w_st (dmr_cc_next_candidate rd w).1 = w_st w.
Proof.
  unfold dmr_cc_next_candidate, dmr_cc_next_mapped_candidate. destruct (site_without_cc _); [done|]. destruct (_ && _).
  - destruct (_ && _); [done|]. destruct (mapped_loop _ _ _ _ _) as [[j pl] [f|]]; unfold on_ctx; [by rsimp|].
    destruct (_ && _); by rsimp.
  - destruct (_ && _); [done|]. destruct (cc_next _ _ _ _ _). cbn [fst]. by rsimp.
Qed.

Lemma hunt_destination rd now w : destination (dmr_cc_hunt hooks rd now w) = destination w.
Proof.
  unfold dmr_cc_hunt. destruct (_ || _ || _); [done|].
  set (wg := if cold_start_hunt _ then _ else (w, true)).
  assert (H0 : destination wg.1 = destination w) by (unfold wg; destruct (cold_start_hunt (w_ctx w)); [apply gate_destination|done]).
  clearbody wg. destruct wg as [w0 go]. cbn [fst] in H0. rewrite <- H0. clear H0 w. destruct (negb go); [done|].
  destruct (_ && _); [unfold on_ctx; by rsimp|].
  set (w1 := on_ctx _ w0). assert (H1 : w_st w1 = w_st w0) by (unfold w1, on_ctx; by rsimp). clearbody w1. rewrite <- H1.
  clear H1 w0 go. pose proof (next_candidate_st rd w1) as H2. destruct (dmr_cc_next_candidate rd w1) as [w2 freq].
  cbn [fst] in H2. rewrite <- H2. clear H2 w1. destruct (freq <=? 0); [done|]. destruct (_ && _); [unfold on_ctx; by rsimp|].
  destruct (run_hook _ w2) as [[w3 x] id]. destruct (negb (is_ok x)); [unfold on_st; by rsimp|].
  rewrite (proj1 (resolve_rest _ _ _)). unfold on_ctx, on_st. by rsimp.
Qed.

(** C15: Off a call a tick never changes the frequency calls return to,
    whatever the tuner writes into the session on the way: the probes of the
    hunt and of the startup hunt, and the tunes that settle an interrupted
    move, put back the destination they found. *)
Theorem tick_keeps_destination rd w : off_call w -> destination (dmr_sm_tick_ctx hooks rd w) = destination w.
Proof.
  intros H. unfold dmr_sm_tick_ctx. destruct (negb _).
  { unfold dmr_sm_tick_not_admitted. destruct (negb _); [done|]. destruct (cold_start_hunt _); [apply gate_destination|].
    unfold on_ctx. by rsimp. }
  assert (Hi : w_st (ensure_init rd w) = w_st w /\ off_call (ensure_init rd w)).
  { unfold ensure_init. destruct (initialized _); [done|]. split; [by rsimp|]. destruct H as [_ Ht]. split; rsimp; [|done].
    unfold dmr_sm_init_ctx. destruct (negb _); rsimp; done. }
  set (w0 := ensure_init rd w) in *. clearbody w0. destruct Hi as [Hi Ho]. rewrite <- Hi. clear H Hi w. cbv zeta.
  generalize (hangtime_s (w_ctx w0)), (grant_timeout_s (w_ctx w0)). intros h gt.
  unfold dmr_sm_tick_ready. set (wg := if cold_start_hunt _ then _ else (w0, true)).
  assert (H0 : destination wg.1 = destination w0 /\ (wg.2 = true -> wg.1 = w0)).
  { unfold wg. destruct (cold_start_hunt (w_ctx w0)); [apply gate_destination|done]. }
  clearbody wg. destruct wg as [w1 []]; cbn [fst snd negb] in *; destruct H0 as [H0 H1]; [|done]. rewrite (H1 eq_refl).
  clear H0 H1 w1. destruct (settle_after_move_destination rd (now_m rd) w0) as [H1 H2].
  destruct (dmr_sm_settle_after_move hooks rd (now_m rd) w0) as [w1 []]; cbn [fst snd] in *; [done|].
  specialize (H2 eq_refl Ho). rewrite <- H1. clear H1 Ho w0.
  destruct (resolve_rest rd (now_m rd) w1) as [H3 _]. pose proof (resolve_off rd (now_m rd) w1 H2) as H4.
  destruct (dmr_cc_resolve_pending rd (now_m rd) w1) as [w2 []]; cbn [fst snd negb] in *; rewrite <- H3; [|done].
  clear H3 H2 w1. destruct H4 as [Hs Ht]. destruct (sm_state (w_ctx w2)).
  - unfold dmr_sm_tick_idle_cold_start. destruct (negb _); [unfold on_ctx; by rsimp|].
    destruct (_ <=? 0); [unfold on_ctx; by rsimp|]. destruct (negb _); [done|]. rewrite hunt_destination. unfold on_ctx. by rsimp.
  - rewrite (proj2 (Z.eqb_neq _ _) Ht). cbn [negb]. unfold tick_on_cc, on_ctx.
    repeat match goal with |- context [if ?b then _ else _] => destruct b end; by rsimp.
  - done.
  - apply hunt_destination.
Qed.
End Laws.

(** ** A concrete session *)

(** A tuner that tunes the receiver and accepts, settling its requests; it
    marks the session tuned on a grant, and scribbles on the return destination
    when it probes. *)
Definition ex_complete (id : Z) (e : (dsd_opts * dsd_state) * tgate) : (dsd_opts * dsd_state) * tgate * dsd_trunk_tune_result :=
  (fst e, request_complete id DSD_TRUNK_TUNE_RESULT_OK 1 (snd e), DSD_TRUNK_TUNE_RESULT_OK).
Definition ex_hooks : dsd_trunk_tuning_hooks (dsd_opts * dsd_state) :=
  Build_dsd_trunk_tuning_hooks
    (Some (fun f _ id e => let '((o, s), g) := e in
       ex_complete id ((o <| trunk_is_tuned := 1 |> <| rtlsdr_center_freq := f |>, s <| trunk_vc_freq := (f, 0) |>), g)))
    (Some (fun f _ id e => let '((o, s), g) := e in
       ex_complete id ((o <| rtlsdr_center_freq := f |>, s <| trunk_cc_freq := f |>), g)))
    (Some (fun id e => let '((o, s), g) := e in
       ex_complete id ((o <| trunk_is_tuned := 0 |> <| rtlsdr_center_freq := trunk_cc_freq s |>, s), g))).
Definition ex_opts : dsd_opts :=
  mk_opts 1 0 0 0 0 true false 451000000 true (seconds 2) 1 1 0 0 0 0 0 0 default_policy.
Definition ex_rows : list Z := [451000000; 452000000; 452000000; 453000000; 0].
Definition ex_state : dsd_state :=
  mk_state 451000000 0 (0, 0) (0, 0) (replicate 65536 0) (replicate 4096 0) RECOVERY_DMR 0 5 ex_rows [0; 0; 0; 0; 0]
    0 0 0 0 1 0 0 0 0 0 0 0 0 [1; 0] [seconds 11; 0] 0 0 [0; 0] 12 12
    (mk_rx 0 1 0 0 0 0 0 false 0 0 0 0 0 (-1) (-1) 0 false).
Definition ex_world : world := mk_world ex_opts ex_state ctx_zero tgate_init None [].
Definition at_ (t : Z) : readings := mk_readings t 0 t 0 false false None None (fun _ => None) (fun _ => true) true.
Definition ex_grant : grant_event := mk_grant_event 0 460000000 0 100 1234 0 true.
Definition ex_run (l : list (Z * sm_call)) (w : world) : world :=
  fold_left (fun w p => run_call ex_hooks (at_ (fst p)) (snd p) w) l w.

Lemma ex_run_steps l w : rtc (sm_step ex_hooks) w (ex_run l w).
Proof.
  revert w. induction l as [|[t c] l IH]; intros w; cbn; [done|]. eapply rtc_l; [constructor|apply IH].
Qed.

(** Control is heard on 451 MHz at second 10, a call is granted on 460 MHz. *)
Definition ex_tuned : world :=
  ex_run [(seconds 10, C_init); (seconds 10, C_cc_activity 451000000); (seconds 10, C_tick); (seconds 11, C_event (EV_GRANT ex_grant))] ex_world.

Lemma sm_invariant_witness : sm_state (w_ctx ex_tuned) = DMR_SM_TUNED /\ ctx_ok (w_ctx ex_tuned).
Proof.
  split; [by vm_compute|]. apply (sm_invariant ex_hooks ex_world); [reflexivity|]. apply ex_run_steps.
Defined.

(** The window is lost and the machine probes 452 MHz. *)
Definition ex_hunting : world :=
  ex_run [(seconds 10, C_init); (seconds 10, C_cc_activity 451000000); (seconds 17, C_tick)] ex_world.

Lemma tick_keeps_destination_witness :
  let w' := dmr_sm_tick_ctx ex_hooks (at_ (seconds 18)) ex_hunting in
  rtlsdr_center_freq (w_opts w') = 452000000 /\ trunk_cc_freq (w_st w') = trunk_cc_freq (w_st ex_hunting).
Proof.
  intros w'. split; [by vm_compute|]. apply tick_keeps_destination. split; vm_compute; discriminate.
Defined.
