(* ===== verification/DmrTrunkCalls.v ===== *)
(** * The calls the DMR trunking machine follows

    What holds a followed call, and that a call nothing holds any more is
    left: the evidence a voice sync needs ([voice_hold_evidence]), that recent
    voice keeps the call ([recent_voice_keeps_call]), exactly when ticks leave
    a call nothing new is heard on ([quiet_call_released]), and that a return the
    tuner refuses leaves everything for another try
    ([refused_return_keeps_call]). *)
From stdpp Require Import relations.
From S2P Require Import Prelude Records Receive TuneGate CcCandidates DmrTrunkSm DmrTrunkLaws.

Section Calls.
Context (hooks : dsd_trunk_tuning_hooks (dsd_opts * dsd_state)).
Notation tick rd w := (dmr_sm_tick_ctx hooks rd w).

(** ** Voice *)

(** The evidence fields of the context. *)
Definition evidence_of (c : ctx) : list dmr_sm_slot_ctx * Z * Z := (slots c, t_voice_m c, t_tune_m c).

Lemma set_seed_evidence s x c : evidence_of (set_seed s x c) = evidence_of c.
Proof. unfold evidence_of, set_seed. by rsimp. Qed.

Lemma seed_clear_evidence s c : evidence_of (dmr_sm_capplus_seed_clear s c) = evidence_of c.
Proof.
  unfold dmr_sm_capplus_seed_clear. destruct (s <? 0); [by rewrite !set_seed_evidence|].
  destruct (s <=? 1); [by rewrite set_seed_evidence|done].
Qed.

Lemma seed_apply_evidence rd s now w : evidence_of (w_ctx (dmr_sm_capplus_seed_apply rd s now w)) = evidence_of (w_ctx w).
Proof.
  unfold dmr_sm_capplus_seed_apply. destruct (negb _); [done|].
  match goal with |- context [if ?x <? 0 then on_ctx _ _ else _] => generalize x end. intros cur.
  destruct (cur <? 0); [unfold on_ctx; rsimp; apply seed_clear_evidence|]. destruct (cur =? 0); [done|].
  destruct (call_get rd s) as [call|]; [|done]. destruct (negb _); [done|].
  destruct (negb _); unfold on_ctx, do_call; rsimp; apply seed_clear_evidence.
Qed.

(** C16: A voice sync holds a call only on accepted voice: it changes the slot
    activity and the voice time only when the receive policy admits the slot's
    access code and the slot's confidence latch is open with a frame accepted
    since the tune and within the last second, and then it records the time
    of that frame, not of the sync; it never moves a time back. *)
Theorem voice_hold_evidence rd s w :
  initialized (w_ctx w) = true ->
  let w' := dmr_sm_event hooks rd (EV_VOICE_SYNC s) w in
  evidence_of (w_ctx w') = evidence_of (w_ctx w) \/
  let i := slot_of s in let ev := (dmr_confidence_voice_m (w_st w)).[Z.to_nat i] in
  allows w DSD_SYNC_DMR_BS_VOICE_POS i = true /\ (dmr_confidence_voice_open (w_st w)).[Z.to_nat i] <> 0 /\
  0 < ev /\ t_tune_m (w_ctx w) <= ev /\ now_m rd - ev <= DMR_VOICE_EVIDENCE /\
  evidence_of (w_ctx w') =
    (alter (fun sl => mk_slot true (Z.max (last_active_m sl) ev) (slot_tg sl)) (Z.to_nat i) (slots (w_ctx w)),
     Z.max (t_voice_m (w_ctx w)) ev, t_tune_m (w_ctx w)).
Proof.
  intros Hi. unfold dmr_sm_event, ensure_init. rewrite Hi. unfold handle_voice_sync. set (i := slot_of s).
  destruct (allows w _ i) eqn:Ea; cbn [negb]; [|by left]. cbv zeta. rewrite seed_apply_evidence.
  set (w0 := on_ctx _ w).
  assert (Hp : forall v, evidence_of (w_ctx (publish_identity rd i (now_m rd) v)) = evidence_of (w_ctx v)).
  { intros v. unfold publish_identity. destruct (_ && _ && _); [|done].
    destruct (call_observed rd); unfold on_ctx, do_call, evidence_of; by rsimp. }
  rewrite Hp. assert (Hu : evidence_of (w_ctx (update_voice_sync_state (now_m rd) i w0)) = evidence_of (w_ctx w0)).
  { unfold update_voice_sync_state. destruct (_ && _); unfold on_ctx, on_st, evidence_of; by rsimp. }
  rewrite Hu. clear Hp Hu. unfold w0, on_ctx. rsimp. clear w0. unfold dmr_sm_note_voice_evidence.
  destruct (Z.leb_spec (dmr_sm_voice_evidence_m (w_ctx w) (w_st w) i (now_m rd)) 0) as [|Hv]; [by left|]. right.
  revert Hv. unfold dmr_sm_voice_evidence_m. destruct (negb (in_slots i) || _) eqn:Eo; [lia|].
  apply orb_false_iff in Eo as [_ Eo]. apply negb_false_iff in Eo. unfold flag in Eo.
  apply negb_true_iff, Z.eqb_neq in Eo. set (ev := (dmr_confidence_voice_m (w_st w)).[Z.to_nat i]).
  destruct (Z.leb_spec ev 0), (Z.ltb_spec ev (t_tune_m (w_ctx w))), (Z.ltb_spec DMR_VOICE_EVIDENCE (now_m rd - ev));
    cbn [orb]; try lia. intros _. do 5 (split; [done || lia|]).
  unfold upd_slot. rsimp. destruct (Z.ltb_spec (t_voice_m (w_ctx w)) ev); unfold evidence_of; rsimp; do 2 f_equal; lia.
Qed.

(** ** Ticks on a call *)

(** A followed call among nothing else in progress, whose evidence is no later
    than [e]. *)
Record heard_by (e : Z) (w : world) : Prop := {
  h_init : initialized (w_ctx w) = true;
  h_tuned : sm_state (w_ctx w) = DMR_SM_TUNED;
  h_request : cc_tune_request_id (w_ctx w) = 0;
  h_settled : cc_tune_superseded (w_ctx w) = false;
  h_hunt : cold_start_hunt (w_ctx w) = false;
  h_len : length (slots (w_ctx w)) = 2%nat;
  h_slots : Forall (fun sl => voice_active sl = true -> 0 < last_active_m sl <= e) (slots (w_ctx w));
  h_tune : 0 < t_tune_m (w_ctx w) <= e;
  h_voice : t_voice_m (w_ctx w) <= e;
  h_check : receive_check_started_m (w_ctx w) <= e
}.

Definition carrier_admitted (w : world) : bool :=
  allows w DSD_SYNC_DMR_BS_VOICE_POS 0 || allows w DSD_SYNC_DMR_BS_VOICE_POS 1.

Definition left_call (w : world) : Prop := sm_state (w_ctx w) <> DMR_SM_TUNED /\ trunk_is_tuned (w_opts w) = 0.

Lemma tick_to_tuned rd w e : heard_by e w -> dsd_trunk_dmr_recovery_allowed rd (w_opts w) (w_st w) = true ->
  tick rd w = tick_tuned hooks rd (now_m rd) (hangtime_s (w_ctx w)) (grant_timeout_s (w_ctx w)) w.
Proof.
  intros [] Ha. unfold dmr_sm_tick_ctx, ensure_init. rewrite Ha, h_init0. cbn [negb]. cbv zeta.
  unfold dmr_sm_tick_ready. rewrite h_hunt0. cbn [negb]. unfold dmr_sm_settle_after_move. rewrite h_settled0. cbn [negb].
  unfold dmr_cc_resolve_pending. rewrite h_request0. cbn [Z.eqb negb]. by rewrite h_tuned0.
Qed.

(** *** Release *)

Lemma clear_released_left rd ret count next w : next <> DMR_SM_TUNED ->
  left_call (dmr_sm_clear_released_carrier rd ret count next w).
Proof.
  intros Hn. unfold dmr_sm_clear_released_carrier, left_call, on_ctx. rsimp. rewrite set_state_state. split; [done|].
  assert (He : forall s v, w_opts (end_slot rd s v) = w_opts v).
  { intros s v. unfold end_slot. destruct (call_end_ok rd s); unfold do_call; by rsimp. }
  destruct ret; unfold dmr_sm_release_without_cc, on_st, on_ctx, do_call; rsimp; rewrite ?He; by rsimp.
Qed.

(** Returns are taken while the request pool is [g]. *)
Definition accepts_returns (g : tgate) : Prop := forall now e, is_ok (hook_return_to_cc hooks now (e, g)).1.2 = true.

Lemma do_release_left rd w : accepts_returns (w_gate w) -> left_call (do_release hooks rd w).
Proof.
  intros Ha. unfold do_release. set (w0 := on_st _ w). assert (Hg : w_gate w0 = w_gate w) by (unfold w0, on_st; by rsimp).
  clearbody w0. rewrite <- Hg in Ha. clear Hg. set (cc := dmr_sm_release_destination _ _).
  set (y := if 0 <? cc then _ else _). assert (Hy : is_ok y.2 = true).
  { unfold y. destruct (Z.ltb_spec 0 cc); [|done]. unfold dmr_sm_return_to_cc. rewrite (proj2 (Z.leb_gt cc 0)) by done.
    set (w1 := on_st _ w0). assert (Hg : w_gate w1 = w_gate w0) by (unfold w1, on_st; by rsimp). clearbody w1. rewrite <- Hg in Ha.
    unfold run_hook. specialize (Ha (now_m rd) (w_opts w1, w_st w1)).
    destruct (hook_return_to_cc _ _ _) as [[[e g] x] id]. cbn [fst snd] in Ha. by rewrite Ha. }
  clearbody y. destruct y as [w1 x]. cbn [snd] in Hy. rewrite Hy. cbn [negb].
  apply clear_released_left. by destruct (0 <? cc).
Qed.

(** The check's first part: a new frequency starts it again. *)
Definition check_restart (freq : Z) (w : world) : world :=
  let w := if negb (freq =? receive_check_freq_hz (w_ctx w)) then
      let fresh := negb (freq =? 0) && (receive_codes_fresh_freq (w_st w) =? freq) in
      on_ctx (fun c => c <| receive_check_freq_hz := freq |> <| receive_check_started_m := 0 |>
                         <| receive_codes_fresh := fresh |>) w else w in
  if receive_codes_fresh (w_ctx w) then
      on_ctx (fun c => c <| receive_carriers :=
        dsd_receive_carriers_note (rx (w_st w)) DSD_SYNC_DMR_BS_VOICE_POS freq (receive_carriers c) |>) w else w.

Lemma receive_check_eq rd freq now gt w : dmr_sm_receive_check hooks rd freq now gt w =
  let w := check_restart freq w in
  let '(w, admitted) := admit_slot 1 (admit_slot 0 (w, false)) in
  if admitted then (on_ctx (fun c => c <| receive_check_started_m := 0 |>) w, false)
  else
    let w := if receive_check_started_m (w_ctx w) <=? 0
             then on_ctx (fun c => c <| receive_check_started_m := now |>) w else w in
    (if gt <=? now - receive_check_started_m (w_ctx w)
     then do_release hooks rd (on_ctx (fun c => c <| receive_check_started_m := 0 |>) w) else w, true).
Proof. reflexivity. Qed.

(** *** When a call is left *)

(** A followed call with no tune, move or startup hunt in progress. *)
Record followed_call (w : world) : Prop := {
  f_init : initialized (w_ctx w) = true;
  f_tuned : sm_state (w_ctx w) = DMR_SM_TUNED;
  f_request : cc_tune_request_id (w_ctx w) = 0;
  f_settled : cc_tune_superseded (w_ctx w) = false;
  f_hunt : cold_start_hunt (w_ctx w) = false;
  f_slots : exists a b, slots (w_ctx w) = [a; b] /\
    Forall (fun sl => voice_active sl = true -> 0 < last_active_m sl <= t_voice_m (w_ctx w)) [a; b];
  f_tune : 0 < t_tune_m (w_ctx w)
}.

(** When the clock of a carrier that is not admitted started, for a call whose
    next tick is at [first]. *)
Definition check_start (first : Z) (w : world) : Z :=
  if (vc_freq_hz (w_ctx w) =? receive_check_freq_hz (w_ctx w)) && (0 <? receive_check_started_m (w_ctx w))
  then receive_check_started_m (w_ctx w) else first.

(** From when on a slot holds no call: its voice is stale then. *)
Definition slot_holds_until (w : world) (i : nat) : Z :=
  let sl := slots (w_ctx w) !!! i in
  if allows w DSD_SYNC_DMR_BS_VOICE_POS (Z.of_nat i) && voice_active sl then last_active_m sl + voice_stale_threshold + 1 else 0.

(** From when on the call is to be left. *)
Definition release_time (first : Z) (w : world) : Z :=
  let c := w_ctx w in
  if carrier_admitted w
  then Z.max (Z.max (slot_holds_until w 0) (slot_holds_until w 1))
             (if 0 <? t_voice_m c then t_voice_m c + hangtime_s c else t_tune_m c + grant_timeout_s c)
  else check_start first w + grant_timeout_s c.

(** The clock runs, where it is needed. *)
Definition clock_runs (w : world) : Prop :=
  carrier_admitted w = false ->
  0 < receive_check_started_m (w_ctx w) /\ receive_check_freq_hz (w_ctx w) = vc_freq_hz (w_ctx w).

(** What a tick that keeps the call leaves alone. *)
Definition call_fields (c : ctx) : bool * dmr_sm_state_e * Z * bool * bool * (Z * Z * Z) * (Z * Z) :=
  (initialized c, sm_state c, cc_tune_request_id c, cc_tune_superseded c, cold_start_hunt c,
   (hangtime_s c, grant_timeout_s c, t_tune_m c), (t_voice_m c, vc_freq_hz c)).
Definition same_call (w w' : world) : Prop :=
  w_opts w' = w_opts w /\ w_st w' = w_st w /\ w_gate w' = w_gate w /\ call_fields (w_ctx w') = call_fields (w_ctx w).

Lemma same_call_trans w1 w2 w3 : same_call w1 w2 -> same_call w2 w3 -> same_call w1 w3.
Proof. unfold same_call. intuition congruence. Qed.

Lemma admitted_same w w' : same_call w w' -> carrier_admitted w' = carrier_admitted w.
Proof. intros (Ho & Hs & _). unfold carrier_admitted, allows. by rewrite Ho, Hs. Qed.

Lemma allows_same w w' i : same_call w w' -> allows w' DSD_SYNC_DMR_BS_VOICE_POS i = allows w DSD_SYNC_DMR_BS_VOICE_POS i.
Proof. intros (Ho & Hs & _). unfold allows. by rewrite Ho, Hs. Qed.

Lemma followed_same w w' a b : followed_call w -> same_call w w' -> slots (w_ctx w') = [a; b] ->
  Forall (fun sl => voice_active sl = true -> 0 < last_active_m sl <= t_voice_m (w_ctx w)) [a; b] -> followed_call w'.
Proof.
  intros [H1 H2 H3 H4 H5 _ H7] (_ & _ & _ & E) Hs Hf. unfold call_fields in E. injection E as E1 E2 E3 E4 E5 E6 E7 E8 E9 E10.
  split; try congruence. exists a, b. by rewrite E9.
Qed.

Lemma tick_followed rd w : followed_call w -> dsd_trunk_dmr_recovery_allowed rd (w_opts w) (w_st w) = true ->
  tick rd w = tick_tuned hooks rd (now_m rd) (hangtime_s (w_ctx w)) (grant_timeout_s (w_ctx w)) w.
Proof.
  intros [] Ha. unfold dmr_sm_tick_ctx, ensure_init. rewrite Ha, f_init0. cbn [negb]. cbv zeta.
  unfold dmr_sm_tick_ready. rewrite f_hunt0. cbn [negb]. unfold dmr_sm_settle_after_move. rewrite f_settled0. cbn [negb].
  unfold dmr_cc_resolve_pending. rewrite f_request0. cbn [Z.eqb negb]. by rewrite f_tuned0.
Qed.

(** *** The receive check *)

Lemma check_restart_spec freq w : let w' := check_restart freq w in
  same_call w w' /\ slots (w_ctx w') = slots (w_ctx w) /\ receive_check_freq_hz (w_ctx w') = freq /\
  receive_check_started_m (w_ctx w') = (if freq =? receive_check_freq_hz (w_ctx w) then receive_check_started_m (w_ctx w) else 0).
Proof.
  cbv zeta. unfold check_restart, same_call, call_fields, on_ctx.
  destruct (Z.eqb_spec freq (receive_check_freq_hz (w_ctx w))) as [E|]; cbn [negb]; destruct (receive_codes_fresh _); by rsimp.
Qed.

(** A slot that is not admitted falls quiet. *)
Definition admitted_slot (w : world) (i : Z) (sl : dmr_sm_slot_ctx) : dmr_sm_slot_ctx :=
  if allows w DSD_SYNC_DMR_BS_VOICE_POS i then sl else quiet sl.

Lemma admit_slots_spec w a b : slots (w_ctx w) = [a; b] ->
  let y := admit_slot 1 (admit_slot 0 (w, false)) in
  same_call w y.1 /\ y.2 = carrier_admitted w /\ slots (w_ctx y.1) = [admitted_slot w 0 a; admitted_slot w 1 b] /\
  receive_check_started_m (w_ctx y.1) = receive_check_started_m (w_ctx w) /\
  receive_check_freq_hz (w_ctx y.1) = receive_check_freq_hz (w_ctx w).
Proof.
  intros Hs. cbv zeta. unfold admit_slot, carrier_admitted, admitted_slot, same_call, call_fields.
  destruct (allows w _ 0) eqn:E0.
  - destruct (allows w _ 1); cbn [fst snd orb]; [done|]. unfold on_ctx, upd_slot. rsimp. by rewrite Hs.
  - assert (E : forall f, allows (on_ctx f w) DSD_SYNC_DMR_BS_VOICE_POS 1 = allows w DSD_SYNC_DMR_BS_VOICE_POS 1)
      by (intros f; unfold allows, on_ctx; by rsimp).
    rewrite E. destruct (allows w _ 1); cbn [fst snd orb]; unfold on_ctx, upd_slot; rsimp; by rewrite Hs.
Qed.

(** The check of a carrier that is not admitted, and of one that is. *)
Lemma receive_check_spec rd first now w a b :
  followed_call w -> slots (w_ctx w) = [a; b] -> accepts_returns (w_gate w) -> 0 < now -> first = now \/ clock_runs w ->
  let gt := grant_timeout_s (w_ctx w) in
  let y := dmr_sm_receive_check hooks rd (vc_freq_hz (w_ctx w)) now gt w in
  y.2 = negb (carrier_admitted w) /\
  (carrier_admitted w = true -> same_call w y.1 /\ slots (w_ctx y.1) = [admitted_slot w 0 a; admitted_slot w 1 b]) /\
  (carrier_admitted w = false ->
     (check_start first w + gt <= now -> left_call y.1) /\
     (now < check_start first w + gt ->
        same_call w y.1 /\ slots (w_ctx y.1) = [admitted_slot w 0 a; admitted_slot w 1 b] /\
        receive_check_started_m (w_ctx y.1) = check_start first w /\ 0 < check_start first w /\
        receive_check_freq_hz (w_ctx y.1) = vc_freq_hz (w_ctx w))).
Proof.
  intros Hf Hs Ha Hnow Hfirst. cbv zeta. rewrite receive_check_eq. cbv zeta.
  destruct (check_restart_spec (vc_freq_hz (w_ctx w)) w) as (S1 & L1 & F1 & C1).
  set (w1 := check_restart _ w) in *. clearbody w1. rewrite Hs in L1. destruct (admit_slots_spec w1 a b L1) as (S2 & A2 & L2 & C2 & F2).
  assert (Had : forall i sl, admitted_slot w1 i sl = admitted_slot w i sl) by (intros; unfold admitted_slot; by rewrite (allows_same _ _ _ S1)).
  rewrite !Had in L2. rewrite (admitted_same _ _ S1) in A2. rewrite C1 in C2. rewrite F1 in F2.
  pose proof (same_call_trans _ _ _ S1 S2) as S02. destruct (admit_slot 1 (admit_slot 0 (w1, false))) as [w3 b3]. cbn [fst snd] in *.
  clear S1 L1 F1 C1 S2 Had w1. subst b3. destruct (carrier_admitted w) eqn:Eb; cbn [fst snd negb]; (split; [done|]).
  { split; [|done]. intros _. split; [|unfold on_ctx; by rsimp]. apply (same_call_trans _ w3); [done|].
    unfold same_call, call_fields, on_ctx. by rsimp. }
  split; [done|]. intros _. set (w4 := if _ <=? 0 then _ else w3).
  assert (H4 : same_call w w4 /\ slots (w_ctx w4) = slots (w_ctx w3) /\ receive_check_freq_hz (w_ctx w4) = vc_freq_hz (w_ctx w) /\
    receive_check_started_m (w_ctx w4) = check_start first w /\ 0 < check_start first w).
  { unfold w4, check_start. rewrite C2. unfold clock_runs in Hfirst.
    destruct (Z.eqb_spec (vc_freq_hz (w_ctx w)) (receive_check_freq_hz (w_ctx w))) as [E|E]; cbn [andb].
    - destruct (Z.leb_spec (receive_check_started_m (w_ctx w)) 0), (Z.ltb_spec 0 (receive_check_started_m (w_ctx w))); try lia.
      + destruct Hfirst as [->|Hfirst]; [|destruct (Hfirst Eb); lia]. unfold on_ctx. rsimp. split; [|done].
        apply (same_call_trans _ w3); [done|]. unfold same_call, call_fields. by rsimp.
      + done.
    - destruct Hfirst as [->|Hfirst]; [|destruct (Hfirst Eb); congruence]. cbn [Z.leb Z.compare]. unfold on_ctx. rsimp.
      split; [|done]. apply (same_call_trans _ w3); [done|]. unfold same_call, call_fields. by rsimp. }
  clearbody w4. clear S02 C2 F2. destruct H4 as (S4 & L4 & F4 & C4 & P4). rewrite L2 in L4. rewrite C4.
  destruct (Z.leb_spec (grant_timeout_s (w_ctx w)) (now - check_start first w)); split; intros Hd; try lia.
  - apply do_release_left. destruct S4 as (_ & _ & Hg & _). unfold on_ctx. rsimp. by rewrite Hg.
  - done.
Qed.

(** *** One tick *)

(** The slot after the tick's look at it. *)
Lemma fresh_slot now v sl : (voice_active sl = true -> 0 < last_active_m sl <= v) ->
  let sl' := if slot_stale now sl then quiet sl else sl in
  voice_active sl' = voice_active sl && (now <? last_active_m sl + voice_stale_threshold + 1) /\ last_active_m sl' = last_active_m sl.
Proof.
  intros Hv. cbv zeta. unfold slot_stale. destruct (voice_active sl) eqn:E; cbn [andb]; [|done]. specialize (Hv eq_refl).
  rewrite (proj2 (Z.ltb_lt 0 _)) by lia. cbn [andb].
  destruct (Z.ltb_spec voice_stale_threshold (now - last_active_m sl)), (Z.ltb_spec now (last_active_m sl + voice_stale_threshold + 1)); try lia; cbn; auto.
Qed.

Lemma admitted_slot_spec w i sl : voice_active (admitted_slot w i sl) = allows w DSD_SYNC_DMR_BS_VOICE_POS i && voice_active sl /\
  last_active_m (admitted_slot w i sl) = last_active_m sl.
Proof. unfold admitted_slot. by destruct (allows _ _ _). Qed.

(** Slots that hold no longer than before, for the times that are left. *)
Definition holds_alike (now : Z) (w w' : world) : Prop :=
  forall i, (i < 2)%nat -> slot_holds_until w' i = slot_holds_until w i \/ (slot_holds_until w' i <= now /\ slot_holds_until w i <= now).

Lemma holds_slots now v w w' a b a' b' : 0 < now -> same_call w w' -> slots (w_ctx w) = [a; b] -> slots (w_ctx w') = [a'; b'] ->
  (voice_active a = true -> 0 < last_active_m a <= v) -> (voice_active b = true -> 0 < last_active_m b <= v) ->
  voice_active a' = allows w DSD_SYNC_DMR_BS_VOICE_POS 0 && voice_active a && (now <? last_active_m a + voice_stale_threshold + 1) ->
  voice_active b' = allows w DSD_SYNC_DMR_BS_VOICE_POS 1 && voice_active b && (now <? last_active_m b + voice_stale_threshold + 1) ->
  last_active_m a' = last_active_m a -> last_active_m b' = last_active_m b -> holds_alike now w w'.
Proof.
  intros Hn Hsm Hs Hs' Ha Hb Va Vb La Lb i Hi. unfold slot_holds_until. rewrite Hs, Hs', (allows_same _ _ _ Hsm).
  destruct i as [|[|]]; [| |lia].
  - change ([a'; b'] !!! 0%nat) with a'. change ([a; b] !!! 0%nat) with a. change (Z.of_nat 0) with 0. rewrite Va, La.
    destruct (allows w DSD_SYNC_DMR_BS_VOICE_POS 0), (voice_active a); cbn [andb]; try (by left).
    destruct (Z.ltb_spec now (last_active_m a + voice_stale_threshold + 1)); [by left|right; lia].
  - change ([a'; b'] !!! 1%nat) with b'. change ([a; b] !!! 1%nat) with b. change (Z.of_nat 1) with 1. rewrite Vb, Lb.
    destruct (allows w DSD_SYNC_DMR_BS_VOICE_POS 1), (voice_active b); cbn [andb]; try (by left).
    destruct (Z.ltb_spec now (last_active_m b + voice_stale_threshold + 1)); [by left|right; lia].
Qed.

(** A tick leaves the call exactly when it is to be left by then; otherwise the
    call goes on, and the time it is to be left stays. *)
Definition call_goes_on (first now : Z) (w w' : world) : Prop :=
  followed_call w' /\ same_call w w' /\ clock_runs w' /\
  forall t first', now <= t -> (release_time first' w' <= t <-> release_time first w <= t).

Lemma release_alike now w w' t first first' : same_call w w' -> carrier_admitted w = true -> holds_alike now w w' -> now <= t ->
  release_time first' w' <= t <-> release_time first w <= t.
Proof.
  intros Hs Hc Hh Ht. unfold release_time. rewrite (admitted_same _ _ Hs), Hc.
  destruct Hs as (_ & _ & _ & E). unfold call_fields in E. injection E as _ _ _ _ _ -> -> -> -> _.
  set (base := if 0 <? _ then _ else _). clearbody base.
  destruct (Hh 0%nat ltac:(lia)) as [->|[? ?]], (Hh 1%nat ltac:(lia)) as [->|[? ?]]; lia.
Qed.

(** The tick of an admitted carrier, after the check. *)
Definition tick_voice (rd : readings) (now hangtime grant_timeout : Z) (w : world) : world :=
  let w := on_ctx (clear_stale_voice_slots now) w in
  if has_voice_activity (w_ctx w) then on_ctx (fun c => follow_slot 1 (follow_slot 0 c)) w
  else if hangtime_expired (w_ctx w) now hangtime then do_release hooks rd w
  else if (t_voice_m (w_ctx w) <=? 0) && grant_timeout_expired (w_ctx w) now grant_timeout then do_release hooks rd w
  else w.

Lemma follow_nothing i c : (voice_active (slots c !!! i) = true -> last_active_m (slots c !!! i) <= t_voice_m c) -> follow_slot i c = c.
Proof.
  intros H. unfold follow_slot. destruct (voice_active _); cbn [andb]; [|done]. by rewrite (proj2 (Z.ltb_ge _ _)) by by apply H.
Qed.

Lemma follow_nothing_heard w : followed_call w -> on_ctx (fun c => follow_slot 1 (follow_slot 0 c)) w = w.
Proof.
  intros Hf. destruct (f_slots _ Hf) as (a & b & Hs & Hv). apply Forall_cons in Hv as [Hva Hv]. apply Forall_cons in Hv as [Hvb _].
  unfold on_ctx. rewrite (follow_nothing 0 (w_ctx w)), (follow_nothing 1 (w_ctx w)); [by destruct w|rewrite Hs..].
  - intros Hx. specialize (Hvb Hx). cbn in *. lia.
  - intros Hx. specialize (Hva Hx). cbn in *. lia.
Qed.

(** The slots after the policy's and the clock's look at them. *)
Record seen_slots (now : Z) (w w' : world) (a b : dmr_sm_slot_ctx) : Prop := {
  ss_same : same_call w w';
  ss_slots : exists a' b', slots (w_ctx w') = [a'; b'] /\
    voice_active a' = allows w DSD_SYNC_DMR_BS_VOICE_POS 0 && voice_active a && (now <? last_active_m a + voice_stale_threshold + 1) /\
    voice_active b' = allows w DSD_SYNC_DMR_BS_VOICE_POS 1 && voice_active b && (now <? last_active_m b + voice_stale_threshold + 1) /\
    last_active_m a' = last_active_m a /\ last_active_m b' = last_active_m b
}.

Lemma clear_stale_seen now w w1 a b :
  Forall (fun sl => voice_active sl = true -> 0 < last_active_m sl <= t_voice_m (w_ctx w)) [a; b] ->
  same_call w w1 -> slots (w_ctx w1) = [admitted_slot w 0 a; admitted_slot w 1 b] ->
  seen_slots now w (on_ctx (clear_stale_voice_slots now) w1) a b.
Proof.
  intros Hv S1 L1. apply Forall_cons in Hv as [Hva Hv]. apply Forall_cons in Hv as [Hvb _].
  assert (Haa : forall i sl, (voice_active sl = true -> 0 < last_active_m sl <= t_voice_m (w_ctx w)) ->
    voice_active (admitted_slot w i sl) = true -> 0 < last_active_m (admitted_slot w i sl) <= t_voice_m (w_ctx w)).
  { intros i sl H. destruct (admitted_slot_spec w i sl) as [-> ->]. intros Hx. apply andb_true_iff in Hx as [_ Hx]. by apply H. }
  destruct (fresh_slot now _ _ (Haa 0 a Hva)) as [Va La]. destruct (fresh_slot now _ _ (Haa 1 b Hvb)) as [Vb Lb].
  destruct (admitted_slot_spec w 0 a) as [Va0 La0]. destruct (admitted_slot_spec w 1 b) as [Vb0 Lb0].
  rewrite Va0, La0 in Va. rewrite La0 in La. rewrite Vb0, Lb0 in Vb. rewrite Lb0 in Lb. split.
  - apply (same_call_trans _ w1); [done|]. unfold on_ctx, clear_stale_voice_slots, same_call, call_fields. by rsimp.
  - eexists _, _. split; [|by split_and!]. unfold on_ctx, clear_stale_voice_slots. rsimp. by rewrite L1.
Qed.

(** The call goes on from there, when it does. *)
Lemma seen_goes_on first now w w2 a b : followed_call w -> slots (w_ctx w) = [a; b] -> 0 < now -> carrier_admitted w = true ->
  Forall (fun sl => voice_active sl = true -> 0 < last_active_m sl <= t_voice_m (w_ctx w)) [a; b] ->
  seen_slots now w w2 a b -> call_goes_on first now w w2.
Proof.
  intros Hf Hs Hnow Hc Hv [S2 (a' & b' & L2 & Va & Vb & La & Lb)].
  apply Forall_cons in Hv as [Hva Hv]. apply Forall_cons in Hv as [Hvb _].
  pose proof (holds_slots now _ w w2 a b a' b' Hnow S2 Hs L2 Hva Hvb Va Vb La Lb) as Hh.
  split; [|split; [done|split; [|intros t first' Ht; by eapply release_alike]]].
  - apply (followed_same w w2 a' b' Hf S2 L2). repeat (apply Forall_cons; split); [..|by apply Forall_nil].
    + rewrite Va, La. intros Hx. apply andb_true_iff in Hx as [Hx _]. apply andb_true_iff in Hx as [_ Hx]. by apply Hva.
    + rewrite Vb, Lb. intros Hx. apply andb_true_iff in Hx as [Hx _]. apply andb_true_iff in Hx as [_ Hx]. by apply Hvb.
  - intros Hx. rewrite (admitted_same _ _ S2) in Hx. congruence.
Qed.

(** What the tick finds: voice on a slot, the hang time over, the grant over. *)
Lemma seen_activity now w w2 a b : 0 < now -> slots (w_ctx w) = [a; b] -> seen_slots now w w2 a b ->
  has_voice_activity (w_ctx w2) = (now <? Z.max (slot_holds_until w 0) (slot_holds_until w 1)).
Proof.
  intros Hnow Hs [_ (a' & b' & L2 & Va & Vb & _)]. unfold has_voice_activity, slot_holds_until. rewrite L2, Hs.
  cbn [lookup_total list_lookup_total]. rewrite Va, Vb. change (Z.of_nat 0) with 0. change (Z.of_nat 1) with 1.
  destruct (allows w DSD_SYNC_DMR_BS_VOICE_POS 0 && voice_active a), (allows w DSD_SYNC_DMR_BS_VOICE_POS 1 && voice_active b); cbn [andb orb];
    repeat match goal with |- context [?x <? ?y] => destruct (Z.ltb_spec x y) end; cbn; lia.
Qed.

Lemma seen_expiry now w w2 : same_call w w2 -> 0 < t_tune_m (w_ctx w) ->
  hangtime_expired (w_ctx w2) now (hangtime_s (w_ctx w)) = (0 <? t_voice_m (w_ctx w)) && (t_voice_m (w_ctx w) + hangtime_s (w_ctx w) <=? now) /\
  (t_voice_m (w_ctx w2) <=? 0) && grant_timeout_expired (w_ctx w2) now (grant_timeout_s (w_ctx w))
  = negb (0 <? t_voice_m (w_ctx w)) && (t_tune_m (w_ctx w) + grant_timeout_s (w_ctx w) <=? now).
Proof.
  intros (_ & _ & _ & E) Ht. unfold call_fields in E. injection E as _ _ _ _ _ _ _ E1 E2 _.
  unfold hangtime_expired, grant_timeout_expired. rewrite E1, E2. rewrite (proj2 (Z.leb_gt (t_tune_m (w_ctx w)) 0)) by done.
  destruct (Z.leb_spec (t_voice_m (w_ctx w)) 0), (Z.ltb_spec 0 (t_voice_m (w_ctx w))); cbn [andb negb]; try lia;
    (split; [|try done]); try done; apply eq_true_iff_eq; rewrite !Z.leb_le; lia.
Qed.

Lemma tick_voice_spec rd first w w1 a b : let now := now_m rd in
  followed_call w -> slots (w_ctx w) = [a; b] -> accepts_returns (w_gate w) -> 0 < now -> carrier_admitted w = true ->
  Forall (fun sl => voice_active sl = true -> 0 < last_active_m sl <= t_voice_m (w_ctx w)) [a; b] ->
  same_call w w1 -> slots (w_ctx w1) = [admitted_slot w 0 a; admitted_slot w 1 b] ->
  let w' := tick_voice rd now (hangtime_s (w_ctx w)) (grant_timeout_s (w_ctx w)) w1 in
  (release_time first w <= now -> left_call w') /\ (now < release_time first w -> call_goes_on first now w w').
Proof.
  cbv zeta. intros Hf Hs Ha Hnow Hc Hv S1 L1. unfold tick_voice. pose proof (clear_stale_seen (now_m rd) w w1 a b Hv S1 L1) as Hss.
  set (w2 := on_ctx (clear_stale_voice_slots (now_m rd)) w1) in *. clearbody w2. clear S1 L1 w1.
  pose proof (seen_goes_on first (now_m rd) w w2 a b Hf Hs Hnow Hc Hv Hss) as Hgo. pose proof (ss_same _ _ _ _ _ Hss) as S2.
  assert (Hl : left_call (do_release hooks rd w2)) by (apply do_release_left; by destruct S2 as (_ & _ & -> & _)).
  rewrite (seen_activity (now_m rd) w w2 a b Hnow Hs Hss). unfold release_time. rewrite Hc.
  destruct (seen_expiry (now_m rd) w w2 S2 (f_tune _ Hf)) as [-> ->].
  destruct (Z.ltb_spec (now_m rd) (Z.max (slot_holds_until w 0) (slot_holds_until w 1))).
  - split; [lia|]. intros _. by rewrite (follow_nothing_heard w2 (proj1 Hgo)).
  - destruct (0 <? t_voice_m (w_ctx w)); cbn [andb negb];
      match goal with |- context [?x <=? now_m rd] => destruct (Z.leb_spec x (now_m rd)) end; split; try done; lia.
Qed.

Lemma tick_call first rd w : followed_call w -> accepts_returns (w_gate w) ->
  dsd_trunk_dmr_recovery_allowed rd (w_opts w) (w_st w) = true -> 0 < now_m rd -> first = now_m rd \/ clock_runs w ->
  (trunk_sm_force_release (w_st w) <> 0 \/ release_time first w <= now_m rd -> left_call (tick rd w)) /\
  (trunk_sm_force_release (w_st w) = 0 -> now_m rd < release_time first w -> call_goes_on first (now_m rd) w (tick rd w)).
Proof.
  intros Hf Ha Hr Hnow Hfirst. rewrite (tick_followed rd w Hf Hr). destruct (f_slots _ Hf) as (a & b & Hs & Hv).
  unfold tick_tuned. destruct (Z.eqb_spec (trunk_sm_force_release (w_st w)) 0) as [E0|E0]; cbn [negb];
    [|split; [intros _; by apply do_release_left|done]].
  destruct (receive_check_spec rd first (now_m rd) w a b Hf Hs Ha Hnow Hfirst) as (Hy & Had & Hno).
  destruct (dmr_sm_receive_check hooks rd _ _ _ w) as [w1 r]. cbn [fst snd] in *. subst r.
  destruct (carrier_admitted w) eqn:Eb; cbn [negb].
  - destruct (Had eq_refl) as [S1 L1]. destruct (tick_voice_spec rd first w w1 a b Hf Hs Ha Hnow Eb Hv S1 L1) as [T1 T2].
    split; [intros [?|H]; [done|by apply T1]|intros _; exact T2].
  - destruct (Hno eq_refl) as [N1 N2]. clear Had Hno. unfold release_time. rewrite Eb.
    split; [intros [?|H]; [done|by apply N1]|]. intros _ Hlt. destruct (N2 Hlt) as (S1 & L1 & C1 & P1 & F1).
    assert (Hck : clock_runs w1) by (intros _; by rewrite C1, F1; destruct S1 as (_ & _ & _ & [= _ _ _ _ _ _ _ _ _ ->])).
    split; [|split; [done|split; [done|]]].
    + apply (followed_same w w1 _ _ Hf S1 L1). apply Forall_cons in Hv as [Hva Hv]. apply Forall_cons in Hv as [Hvb _].
      repeat (apply Forall_cons; split); [..|by apply Forall_nil].
      * destruct (admitted_slot_spec w 0 a) as [-> ->]. intros Hx. apply andb_true_iff in Hx as [_ Hx]. by apply Hva.
      * destruct (admitted_slot_spec w 1 b) as [-> ->]. intros Hx. apply andb_true_iff in Hx as [_ Hx]. by apply Hvb.
    + intros t first' _. unfold release_time. rewrite (admitted_same _ _ S1), Eb.
      assert (check_start first' w1 = check_start first w) as ->.
      { destruct S1 as (_ & _ & _ & E). unfold call_fields in E. injection E as _ _ _ _ _ _ _ _ _ E.
        unfold check_start at 1. rewrite E, F1, Z.eqb_refl, C1, (proj2 (Z.ltb_lt 0 _)) by done. done. }
      destruct S1 as (_ & _ & _ & E). unfold call_fields in E. by injection E as _ _ _ _ _ _ -> _ _ _.
Qed.

Definition ticks (rds : list readings) (w : world) : world := fold_left (fun w rd => tick rd w) rds w.

Definition recovering (rds : list readings) (w : world) : Prop :=
  Forall (fun rd => dsd_trunk_dmr_recovery_allowed rd (w_opts w) (w_st w) = true) rds.

(** Clock readings that do not go back from [t]. *)
Fixpoint clock_from (t : Z) (rds : list readings) : Prop :=
  match rds with [] => True | rd :: rds => t <= now_m rd /\ clock_from (now_m rd) rds end.

(** The ticks of a call, one after another, up to the one that leaves it. *)
Lemma ticks_call first rds w n rd : followed_call w -> accepts_returns (w_gate w) -> recovering rds w ->
  0 < first -> clock_from first rds -> (forall r, head rds = Some r -> first = now_m r) \/ clock_runs w ->
  rds !! n = Some rd -> trunk_sm_force_release (w_st w) = 0 ->
  (forall k r, (k < n)%nat -> rds !! k = Some r -> now_m r < release_time first w) ->
  (release_time first w <= now_m rd -> left_call (ticks (take (Datatypes.S n) rds) w)) /\
  (now_m rd < release_time first w ->
     followed_call (ticks (take (Datatypes.S n) rds) w) /\ same_call w (ticks (take (Datatypes.S n) rds) w)).
Proof.
  revert first w n. induction rds as [|rd0 rds IH]; intros first w n Hf Ha Hr Hp Hc Hfirst Hn H0 Hb; [done|].
  apply Forall_cons in Hr as [Hr0 Hr]. destruct Hc as [Hc0 Hc].
  assert (Hfirst' : first = now_m rd0 \/ clock_runs w) by (destruct Hfirst as [H|]; [left; by apply H|by right]).
  destruct (tick_call first rd0 w Hf Ha Hr0 ltac:(lia) Hfirst') as [T1 T2].
  destruct n as [|n]; cbn [lookup list_lookup] in Hn.
  { injection Hn as ->. rewrite firstn_cons, firstn_O. cbn [ticks fold_left]. split; [intros; apply T1; by right|].
    intros Hlt. by destruct (T2 H0 Hlt) as (? & ? & _). }
  destruct (T2 H0 (Hb 0%nat rd0 ltac:(lia) eq_refl)) as (Hf1 & S1 & K1 & R1). clear T1 T2.
  change (ticks (take (Datatypes.S (Datatypes.S n)) (rd0 :: rds)) w) with (ticks (take (Datatypes.S n) rds) (tick rd0 w)).
  assert (Hmono : forall t l k r, clock_from t l -> l !! k = Some r -> t <= now_m r).
  { intros t l. revert t. induction l as [|x l IHl]; intros t [|k] r H E; try done; destruct H as [H1 H2].
    - by injection E as <-.
    - etrans; [exact H1|]. by eapply IHl. }
  pose proof S1 as (So & Ss & Sg & _).
  destruct (IH (now_m rd0) (tick rd0 w) n) as [I1 I2]; try done.
  - by rewrite Sg.
  - unfold recovering. by rewrite So, Ss.
  - lia.
  - by right.
  - by rewrite Ss.
  - intros k r Hk E. specialize (Hb (Datatypes.S k) r ltac:(lia) E). apply Z.nle_gt. rewrite R1 by (by eapply Hmono). lia.
  - assert (Ht : now_m rd0 <= now_m rd) by (by eapply Hmono). split.
    + intros H. apply I1. by apply R1.
    + intros H. destruct I2 as [F2 S2]; [apply Z.nle_gt; rewrite R1 by done; lia|]. split; [done|]. by eapply same_call_trans.
Qed.

(** C17: Exactly when a call nothing new is heard on is left.  Take a followed
    call with no tune, move or startup hunt in progress, a grant time set and
    no active slot heard later than the call's last voice, a tuner that takes
    returns, and ticks with readings that do not go back, no event between
    them, while the machine may recover DMR.  A forced release leaves the call
    at the first tick.  Otherwise the first tick at or after the call's release
    time leaves it: off the channel, the session no longer tuned.  Every tick
    before that keeps the call, the session and the request pool as they were.
    On a carrier the receive policy admits the release time is when the hang
    time has passed since the last voice, or, with no voice heard, the grant
    timeout since the grant, but not before the voice of each active admitted
    slot is stale; on one it does not admit, when the grant timeout has passed
    since the check of the carrier began, at the latest in the first tick. *)
Theorem quiet_call_released rd0 rds w n rd :
  let all := rd0 :: rds in let c := w_ctx w in
  followed_call w -> accepts_returns (w_gate w) -> recovering all w -> 0 < now_m rd0 -> clock_from (now_m rd0) all ->
  all !! n = Some rd ->
  let hold i := let sl := slots c !!! i in
    if allows w DSD_SYNC_DMR_BS_VOICE_POS (Z.of_nat i) && voice_active sl then last_active_m sl + 200000001 else 0 in
  let check := if (vc_freq_hz c =? receive_check_freq_hz c) && (0 <? receive_check_started_m c)
               then receive_check_started_m c else now_m rd0 in
  let time := if allows w DSD_SYNC_DMR_BS_VOICE_POS 0 || allows w DSD_SYNC_DMR_BS_VOICE_POS 1
    then Z.max (Z.max (hold 0%nat) (hold 1%nat))
               (if 0 <? t_voice_m c then t_voice_m c + hangtime_s c else t_tune_m c + grant_timeout_s c)
    else check + grant_timeout_s c in
  let w' := ticks (take (Datatypes.S n) all) w in
  (trunk_sm_force_release (w_st w) <> 0 -> n = 0%nat -> left_call w') /\
  (trunk_sm_force_release (w_st w) = 0 -> (forall k r, (k < n)%nat -> all !! k = Some r -> now_m r < time) ->
     (time <= now_m rd -> left_call w') /\
     (now_m rd < time -> sm_state (w_ctx w') = DMR_SM_TUNED /\ vc_freq_hz (w_ctx w') = vc_freq_hz c /\
        w_opts w' = w_opts w /\ w_st w' = w_st w /\ w_gate w' = w_gate w)).
Proof.
  intros all c Hf Ha Hr Hp Hc Hn hold check time w'. assert (Et : time = release_time (now_m rd0) w).
  { unfold time, release_time, carrier_admitted. destruct (_ || _); [|done].
    assert (Hh : forall i, hold i = slot_holds_until w i).
    { intros i. unfold hold, slot_holds_until, voice_stale_threshold, c. cbv zeta. case_match; lia. }
    by rewrite !Hh. }
  split.
  - intros H0 ->. unfold w', all. rewrite firstn_cons, firstn_O. cbn [ticks fold_left]. apply Forall_cons in Hr as [Hr0 _].
    apply (tick_call (now_m rd0) rd0 w Hf Ha Hr0 Hp (or_introl eq_refl)). by left.
  - rewrite Et. intros H0 Hb. destruct (ticks_call (now_m rd0) all w n rd) as [T1 T2]; try done.
    { left. by intros r [= ->]. }
    split; [exact T1|]. intros Hlt. destruct (T2 Hlt) as (F & So & Ss & Sg & E). fold w' in F, So, Ss, Sg, E.
    split; [apply F|]. unfold call_fields in E. by injection E as _ _ _ _ _ _ _ _ _ ->.
Qed.

(** *** A tick that keeps the call *)

(** Slot [i] and everything outside the context are as they were, and the same
    channel is followed. *)
Definition slot_kept (i : nat) (w w' : world) : Prop :=
  sm_state (w_ctx w') = sm_state (w_ctx w) /\ vc_freq_hz (w_ctx w') = vc_freq_hz (w_ctx w) /\
  length (slots (w_ctx w')) = length (slots (w_ctx w)) /\ slots (w_ctx w') !!! i = slots (w_ctx w) !!! i /\
  w_opts w' = w_opts w /\ w_st w' = w_st w /\ w_gate w' = w_gate w /\ w_log w' = w_log w.

Lemma slot_kept_trans i w1 w2 w3 : slot_kept i w1 w2 -> slot_kept i w2 w3 -> slot_kept i w1 w3.
Proof. unfold slot_kept. intuition congruence. Qed.

Lemma check_restart_kept i freq w : slot_kept i w (check_restart freq w).
Proof. unfold check_restart, slot_kept. destruct (negb _), (receive_codes_fresh _); unfold on_ctx; by rsimp. Qed.

Lemma allows_kept i w w' s : slot_kept i w w' -> allows w' DSD_SYNC_DMR_BS_VOICE_POS s = allows w DSD_SYNC_DMR_BS_VOICE_POS s.
Proof. intros (_ & _ & _ & _ & Ho & Hs & _). unfold allows. by rewrite Ho, Hs. Qed.

Lemma admit_slot_kept i s w b : 0 <= s -> allows w DSD_SYNC_DMR_BS_VOICE_POS (Z.of_nat i) = true ->
  let y := admit_slot s (w, b) in
  y.2 = (b || allows w DSD_SYNC_DMR_BS_VOICE_POS s) /\ slot_kept i w y.1.
Proof.
  intros Hs Hi. unfold admit_slot. destruct (allows w _ s) eqn:E; cbn [fst snd]; [by rewrite orb_true_r|].
  rewrite orb_false_r. split; [done|]. unfold slot_kept, on_ctx, upd_slot. rsimp. rewrite length_alter.
  rewrite list_lookup_total_alter_ne; [done|]. intros <-. rewrite Z2Nat.id in Hi by lia. congruence.
Qed.

Lemma receive_check_kept i rd freq now gt w :
  carrier_admitted w = true -> allows w DSD_SYNC_DMR_BS_VOICE_POS (Z.of_nat i) = true ->
  let y := dmr_sm_receive_check hooks rd freq now gt w in y.2 = false /\ slot_kept i w y.1.
Proof.
  intros Hc Hi. rewrite receive_check_eq. cbv zeta. pose proof (check_restart_kept i freq w) as H1.
  set (w1 := check_restart _ w) in *. clearbody w1. rewrite <- (allows_kept _ _ _ _ H1) in Hi.
  destruct (admit_slot_kept i 0 w1 false ltac:(lia) Hi) as [B2 H2]. destruct (admit_slot 0 (w1, false)) as [w2 b2].
  cbn [fst snd orb] in *. rewrite <- (allows_kept _ _ _ _ H2) in Hi.
  destruct (admit_slot_kept i 1 w2 b2 ltac:(lia) Hi) as [B3 H3]. destruct (admit_slot 1 (w2, b2)) as [w3 b3].
  cbn [fst snd] in *. assert (b3 = true) as ->.
  { rewrite B3, B2, (allows_kept _ _ _ _ H2), !(allows_kept _ _ _ _ H1). exact Hc. }
  cbn [fst snd]. split; [done|]. apply (slot_kept_trans _ _ w3); [by do 2 (eapply slot_kept_trans; [done|])|].
  unfold slot_kept, on_ctx. by rsimp.
Qed.

Lemma clear_stale_kept i now w : (i < length (slots (w_ctx w)))%nat ->
  now - last_active_m (slots (w_ctx w) !!! i) <= voice_stale_threshold ->
  slot_kept i w (on_ctx (clear_stale_voice_slots now) w).
Proof.
  intros Hi Hn. unfold slot_kept, on_ctx, clear_stale_voice_slots. rsimp. rewrite length_fmap.
  split; [done|]. split; [done|]. split; [done|]. split; [|done].
  apply list_lookup_total_correct. rewrite list_lookup_fmap, list_lookup_lookup_total_lt by done. cbn. unfold slot_stale.
  by rewrite (proj2 (Z.ltb_ge voice_stale_threshold _) Hn), andb_false_r.
Qed.

Lemma follow_slot_kept i j w : slot_kept i w (on_ctx (follow_slot j) w).
Proof. unfold slot_kept, on_ctx, follow_slot. destruct (_ && _); by rsimp. Qed.

(** Recent accepted voice keeps the call: while no release is forced and
    a slot whose access code the policy admits has voice no older than the
    staleness threshold, a tick stays on the channel whatever the hang time
    and the grant timeout, keeps that slot active, and touches neither the
    tuner nor the session. *)
Lemma recent_voice_keeps_call e rd w (i : nat) :
  heard_by e w -> dsd_trunk_dmr_recovery_allowed rd (w_opts w) (w_st w) = true ->
  trunk_sm_force_release (w_st w) = 0 -> (i < 2)%nat -> allows w DSD_SYNC_DMR_BS_VOICE_POS (Z.of_nat i) = true ->
  voice_active (slots (w_ctx w) !!! i) = true ->
  now_m rd - last_active_m (slots (w_ctx w) !!! i) <= voice_stale_threshold ->
  let w' := tick rd w in
  sm_state (w_ctx w') = DMR_SM_TUNED /\ slot_kept i w w'.
Proof.
  intros H Hr Hf Hi Ha Hv Hn. cbv zeta.
  assert (Hk : slot_kept i w (tick rd w)); [|split; [|done]; destruct Hk as [-> _]; by destruct H].
  rewrite (tick_to_tuned rd w e H Hr). unfold tick_tuned. rewrite Hf. cbn [Z.eqb negb].
  assert (Hc : carrier_admitted w = true).
  { unfold carrier_admitted. apply orb_true_iff. destruct i as [|[|]]; [by left|by right|lia]. }
  destruct (receive_check_kept i rd (vc_freq_hz (w_ctx w)) (now_m rd) (grant_timeout_s (w_ctx w)) w Hc Ha) as [Hy H1].
  destruct (dmr_sm_receive_check _ _ _ _ _ w) as [w1 b]. cbn [fst snd] in *. subst b.
  destruct H1 as (E1 & E2 & E3 & E4 & E5). assert (H1 : slot_kept i w w1) by done.
  assert (H2 : slot_kept i w1 (on_ctx (clear_stale_voice_slots (now_m rd)) w1)).
  { apply clear_stale_kept; [rewrite E3; destruct H; lia|by rewrite E4]. }
  set (w2 := on_ctx (clear_stale_voice_slots _) w1) in *. clearbody w2. pose proof (slot_kept_trans _ _ _ _ H1 H2) as H3.
  assert (has_voice_activity (w_ctx w2) = true) as ->.
  { destruct H3 as (_ & _ & _ & E & _). unfold has_voice_activity. apply orb_true_iff.
    destruct i as [|[|]]; [left|right|lia]; by rewrite E. }
  apply (slot_kept_trans _ _ w2); [done|]. apply (slot_kept_trans _ _ (on_ctx (follow_slot 0) w2)); [apply follow_slot_kept|].
  pose proof (follow_slot_kept i 1 (on_ctx (follow_slot 0) w2)) as H4. unfold on_ctx in *. revert H4. by rsimp.
Qed.

(** A return the tuner refuses leaves everything for the next try: with a
    release forced on a followed call whose return destination is known, a
    tick whose return is refused keeps the call, both control channel
    frequencies and the force-release request as they were, whatever the tuner
    wrote into them. *)
Lemma refused_return_keeps_call e rd w :
  heard_by e w -> dsd_trunk_dmr_recovery_allowed rd (w_opts w) (w_st w) = true ->
  trunk_sm_force_release (w_st w) = 1 -> 0 < dmr_sm_release_destination (w_ctx w) (w_st w) ->
  (forall en, is_ok (hook_return_to_cc hooks (now_m rd) (en, w_gate w)).1.2 = false) ->
  let w' := tick rd w in
  w_ctx w' = w_ctx w /\ w_log w' = w_log w /\ trunk_sm_force_release (w_st w') = 1 /\
  trunk_cc_freq (w_st w') = trunk_cc_freq (w_st w) /\ p25_cc_freq (w_st w') = p25_cc_freq (w_st w).
Proof.
  intros H Hr Hf Hd Hx. cbv zeta. rewrite (tick_to_tuned rd w e H Hr). unfold tick_tuned. rewrite Hf. cbn [Z.eqb negb].
  unfold do_release. rewrite Hf. cbn [Z.eqb negb]. set (w0 := on_st _ w).
  assert (Hw0 : w_ctx w0 = w_ctx w /\ w_log w0 = w_log w /\ dmr_sm_release_destination (w_ctx w0) (w_st w0) = dmr_sm_release_destination (w_ctx w) (w_st w) /\
    w_gate w0 = w_gate w /\ trunk_cc_freq (w_st w0) = trunk_cc_freq (w_st w) /\ p25_cc_freq (w_st w0) = p25_cc_freq (w_st w)).
  { unfold w0, on_st, dmr_sm_release_destination. by rsimp. }
  clearbody w0. destruct Hw0 as (C0 & L0 & D0 & G0 & T0 & P0). rewrite D0, (proj2 (Z.ltb_lt 0 _) Hd).
  unfold dmr_sm_return_to_cc. rewrite (proj2 (Z.leb_gt _ 0) Hd). set (w1 := on_st _ w0). unfold run_hook.
  assert (G1 : w_gate w1 = w_gate w) by (unfold w1, on_st; rsimp; done). rewrite G1. specialize (Hx (w_opts w1, w_st w1)). destruct (hook_return_to_cc _ _ _) as [[[en g] x] id]. cbn [fst snd] in Hx.
  rewrite Hx. cbn [negb fst]. rewrite Hx. cbn [negb]. unfold on_st. rsimp. unfold w1, on_st. rsimp. done.
Qed.
End Calls.

(** ** A concrete call *)

(** [ex_tuned] after the voice syncs of slot 0, and its tuner. *)
Lemma voice_hold_evidence_witness :
  let w' := dmr_sm_event ex_hooks (at_ (seconds 11 + 100000000)) (EV_VOICE_SYNC 0) ex_tuned in
  evidence_of (w_ctx w') = ([mk_slot true (seconds 11) 0; slot_zero], seconds 11, seconds 11).
Proof.
  intros w'. unfold w'. destruct (voice_hold_evidence ex_hooks (at_ (seconds 11 + 100000000)) 0 ex_tuned ltac:(reflexivity))
    as [H|(_ & _ & _ & _ & _ & H)].
  - exfalso. apply (f_equal (fun x => snd (fst x))) in H. revert H. vm_compute. discriminate.
  - rewrite H. vm_compute. reflexivity.
Defined.

Definition ex_call : world := ex_run [(seconds 11 + 100000000, C_event (EV_VOICE_SYNC 0))] ex_tuned.

Lemma ex_call_heard : heard_by (seconds 11 + 100000000) ex_call.
Proof.
  split; try reflexivity.
  - apply Forall_forall. intros sl Hsl. replace (slots (w_ctx ex_call)) with [mk_slot true (seconds 11) 0; slot_zero] in Hsl by reflexivity.
    set_unfold in Hsl. destruct Hsl as [->|[->|[]]]; [by vm_compute|done].
  - by vm_compute.
  - vm_compute. discriminate.
  - vm_compute. discriminate.
Qed.

Lemma ex_call_followed : followed_call ex_call.
Proof.
  split; try reflexivity. exists (mk_slot true (seconds 11) 0), slot_zero. split; [reflexivity|].
  apply Forall_cons. split; [intros _; vm_compute; split; [done|discriminate]|]. apply Forall_cons. by split.
Qed.

(** Voice at 11 s, a hang time of 2 s: the tick at 12 s keeps the call, the one
    at 13 s leaves it. *)
Lemma quiet_call_released_witness :
  left_call (ticks ex_hooks [at_ (seconds 12); at_ (seconds 13)] ex_call) /\
  sm_state (w_ctx (ticks ex_hooks [at_ (seconds 12)] ex_call)) = DMR_SM_TUNED.
Proof.
  split.
  - destruct (quiet_call_released ex_hooks (at_ (seconds 12)) [at_ (seconds 13)] ex_call 1 (at_ (seconds 13))) as [_ H];
      [apply ex_call_followed|by intros now [o s]|repeat constructor|reflexivity|by repeat split|reflexivity|].
    destruct H as [H _]; [reflexivity| |apply H; vm_compute; discriminate].
    intros k r Hk. assert (k = 0%nat) as -> by lia. intros [= <-]. vm_compute. reflexivity.
  - destruct (quiet_call_released ex_hooks (at_ (seconds 12)) [at_ (seconds 13)] ex_call 0 (at_ (seconds 12))) as [_ H];
      [apply ex_call_followed|by intros now [o s]|repeat constructor|reflexivity|by repeat split|reflexivity|].
    destruct H as [_ H]; [reflexivity|intros k r Hk; lia|]. apply H. vm_compute. reflexivity.
Defined.

Lemma recent_voice_keeps_call_witness :
  slot_kept 0 ex_call (dmr_sm_tick_ctx ex_hooks (at_ (seconds 11 + 200000000)) ex_call).
Proof.
  apply (recent_voice_keeps_call ex_hooks (seconds 11 + 100000000)); try reflexivity;
    first [apply ex_call_heard|lia|idtac].
Defined.

(** The session without a tuner: its returns fail. *)
Definition ex_no_hooks : dsd_trunk_tuning_hooks (dsd_opts * dsd_state) := Build_dsd_trunk_tuning_hooks None None None.
Definition ex_forced : world := on_st (fun s => s <| trunk_sm_force_release := 1 |>) ex_call.

Lemma on_st_heard e f w : heard_by e w -> heard_by e (on_st f w).
Proof. intros []. unfold on_st. split; by rsimp. Qed.

Lemma refused_return_keeps_call_witness :
  w_ctx (dmr_sm_tick_ctx ex_no_hooks (at_ (seconds 12)) ex_forced) = w_ctx ex_forced.
Proof.
  refine (proj1 (refused_return_keeps_call ex_no_hooks (seconds 11 + 100000000) (at_ (seconds 12)) ex_forced _ _ _ _ _));
    try reflexivity.
  apply on_st_heard, ex_call_heard.
Defined.
