(* ===== verification/DmrTrunkHunt.v ===== *)
(** * The DMR control channel hunt

    The walk over the channel map ([mapped_loop], [skip_repeats]) against its
    specification ([walk_spec]), that hunts come round to every usable
    frequency ([hunt_visits_every_frequency]), and what a tick waits for
    ([tune_wait_is_bounded], [settled_means_resolved]). *)
From S2P Require Import Prelude Records Receive TuneGate CcCandidates DmrTrunkSm DmrTrunkLaws.

(** ** The walk *)

Section Walk.
Context (st : dsd_state).
Notation n := (lcn_freq_count st).

Definition row (i : Z) : Z := (trunk_lcn st).[Z.to_nat i].

(** A row the walk may stop at, and one it may probe. *)
Definition listed (i : Z) : Prop := 0 < row i /\ usable st (Z.to_nat i) = true.
Definition eligible (probe i : Z) : Prop := listed i /\ row i <> probe.

(** The row a cursor stands for, and the row [k] further, with one wrap. *)
Definition cursor_row (index : Z) : Z := if (n <=? index) || (index <? 0) then 0 else index.
Definition after (i k : Z) : Z := if i + k <? n then i + k else i + k - n.

Lemma cursor_row_range index : 0 < n -> 0 <= cursor_row index < n.
Proof. intros Hn. unfold cursor_row. destruct (Z.leb_spec n index), (Z.ltb_spec index 0); cbn [orb]; lia. Qed.

Lemma cursor_row_next i : 0 <= i < n -> cursor_row (i + 1) = after i 1.
Proof.
  intros Hi. unfold cursor_row, after. destruct (Z.leb_spec n (i + 1)), (Z.ltb_spec (i + 1) 0), (Z.ltb_spec (i + 1) n);
    cbn [orb]; lia.
Qed.

Lemma after_after i k : 0 <= i < n -> 0 <= k -> k + 1 <= n -> after (after i 1) k = after i (k + 1).
Proof.
  intros Hi Hk Hl. unfold after.
  destruct (Z.ltb_spec (i + 1) n), (Z.ltb_spec (i + (k + 1)) n);
    repeat match goal with |- context [?a <? n] => destruct (Z.ltb_spec a n) end; lia.
Qed.

Lemma skip_repeats_spec fuel f i : (Z.to_nat (n - i) <= fuel)%nat -> i <= n ->
  let j := skip_repeats fuel st f i in
  i <= j <= n /\ (forall m, i <= m < j -> row m = f) /\ (j < n -> row j <> f).
Proof.
  revert i. induction fuel as [|fuel IH]; intros i Hf Hi; cbn [skip_repeats].
  { split; [lia|]. split; intros; lia. }
  destruct (Z.ltb_spec i n); cbn [andb]; [|split; [lia|]; split; intros; lia].
  destruct (Z.eqb_spec ((trunk_lcn st).[Z.to_nat i]) f) as [E|E]; [|split; [lia|]; split; intros; [lia|done]].
  destruct (IH (i + 1) ltac:(lia) ltac:(lia)) as (H1 & H2 & H3). split; [lia|]. split; [|done].
  intros m Hm. destruct (decide (m = i)) as [->|]; [done|]. apply H2. lia.
Qed.

(** What a walk from [index] over [tries] rows has found. *)
Definition walk_spec (tries probe index : Z) (before : bool) (out : Z * bool * option Z) : Prop :=
  let i := cursor_row index in
  let seen m := exists k, 0 <= k < m /\ listed (after i k) /\ row (after i k) = probe in
  match out with
  | (j, passed, Some f) => exists k, 0 <= k < tries /\ f = row (after i k) /\ eligible probe (after i k) /\
      (forall k', 0 <= k' < k -> ~ eligible probe (after i k')) /\
      j = skip_repeats (Z.to_nat (n - (after i k + 1))) st f (after i k + 1) /\ (passed = true <-> before = true \/ seen k)
  | (j, passed, None) => (forall k, 0 <= k < tries -> ~ eligible probe (after i k)) /\ (passed = true <-> before = true \/ seen tries)
  end.

Lemma after_0 i : 0 <= i < n -> after i 0 = i.
Proof. intros Hi. unfold after. destruct (Z.ltb_spec (i + 0) n); lia. Qed.

(** One row further, with [here] what the row just passed adds. *)
Lemma walk_step tries probe index before before' out : 0 < n -> 0 <= tries < n ->
  ~ eligible probe (cursor_row index) ->
  (before' = true <-> before = true \/ (listed (cursor_row index) /\ row (cursor_row index) = probe)) ->
  walk_spec tries probe (cursor_row index + 1) before' out -> walk_spec (tries + 1) probe index before out.
Proof.
  intros Hn Ht He Hb. unfold walk_spec. pose proof (cursor_row_range index Hn) as Hi. set (i := cursor_row index) in *.
  rewrite (cursor_row_next i Hi). destruct out as [[j passed] found].
  assert (Hs : forall m, 0 <= m < n ->
    (before' = true \/ (exists k, 0 <= k < m /\ listed (after (after i 1) k) /\ row (after (after i 1) k) = probe)) <->
    (before = true \/ (exists k, 0 <= k < m + 1 /\ listed (after i k) /\ row (after i k) = probe))).
  { intros m Hm. rewrite Hb. split.
    - intros [[?|H]|(k & Hk & H)]; [by left|right; exists 0; rewrite after_0 by done; split; [lia|done]|].
      rewrite after_after in H by lia. right. exists (k + 1). split; [lia|done].
    - intros [?|(k & Hk & H)]; [by left; left|]. destruct (decide (k = 0)) as [->|]; [rewrite after_0 in H by done; by left; right|].
      right. exists (k - 1). split; [lia|]. rewrite after_after by lia. by replace (k - 1 + 1) with k by lia. }
  assert (Hne : forall m, m <= n -> (forall k, 0 <= k < m -> ~ eligible probe (after (after i 1) k)) ->
    forall k, 0 <= k < m + 1 -> k < n -> ~ eligible probe (after i k)).
  { intros m Hm H k Hk Hkn. destruct (decide (k = 0)) as [->|]; [by rewrite after_0|].
    specialize (H (k - 1) ltac:(lia)). rewrite after_after in H by lia. by replace (k - 1 + 1) with k in H by lia. }
  destruct found as [f|].
  - intros (k & Hk & H). rewrite after_after in H by lia. destruct H as (H1 & H2 & H3 & H4 & H5). exists (k + 1).
    split; [lia|]. split; [done|]. split; [done|]. split; [intros k' Hk'; apply (Hne k); [lia|done|lia|lia]|]. split; [done|].
    rewrite H5. apply Hs. lia.
  - intros [H1 H2]. split; [intros k Hk; apply (Hne tries); [lia|done|lia|lia]|]. rewrite H2. apply Hs. lia.
Qed.

Lemma mapped_loop_spec (tries : nat) probe index before : 0 < n -> Z.of_nat tries <= n ->
  walk_spec (Z.of_nat tries) probe index before (mapped_loop tries st probe index before).
Proof.
  intros Hn. revert index before. induction tries as [|tries IH]; intros index before Ht; cbn [mapped_loop].
  { split; [intros; lia|]. split; [by left|]. intros [?|(k & ? & _)]; [done|lia]. }
  fold (cursor_row index). set (i := cursor_row index). pose proof (cursor_row_range index Hn : 0 <= i < n) as Hi.
  replace (Z.of_nat (Datatypes.S tries)) with (Z.of_nat tries + 1) by lia.
  change ((trunk_lcn st).[Z.to_nat i]) with (row i).
  destruct ((row i <=? 0) || negb (usable st (Z.to_nat i))) eqn:El.
  { assert (Hl : ~ listed i).
    { unfold listed. apply orb_true_iff in El as [El|El]; [apply Z.leb_le in El; lia|]. apply negb_true_iff in El.
      rewrite El. by intros [_ ?]. }
    apply (walk_step _ _ _ _ before); [done|lia|by intros [? _]|tauto|]. apply IH. lia. }
  apply orb_false_iff in El as [El Eu]. apply Z.leb_gt in El. apply negb_false_iff in Eu.
  destruct (Z.eqb_spec (row i) probe) as [E|E].
  { apply (walk_step _ _ _ _ true); [done|lia|by intros [_ ?]|split; [right; by split|done]|]. apply IH. lia. }
  unfold walk_spec. fold i. exists 0. rewrite after_0 by done. split; [lia|]. split; [done|]. split; [by split|].
  split; [intros; lia|]. split; [done|]. split; [by left|]. intros [?|(k & ? & _)]; [done|lia].
Qed.
End Walk.

(** ** The next candidate *)

Lemma after_onto st i r : 0 <= i < lcn_freq_count st -> 0 <= r < lcn_freq_count st ->
  exists k, 0 <= k < lcn_freq_count st /\ after st i k = r.
Proof.
  intros Hi Hr. destruct (Z.leb_spec i r); [exists (r - i)|exists (r - i + lcn_freq_count st)]; unfold after; (split; [lia|]).
  - destruct (Z.ltb_spec (i + (r - i)) (lcn_freq_count st)); lia.
  - destruct (Z.ltb_spec (i + (r - i + lcn_freq_count st)) (lcn_freq_count st)); lia.
Qed.

Lemma after_range st i k : 0 <= i < lcn_freq_count st -> 0 <= k < lcn_freq_count st -> 0 <= after st i k < lcn_freq_count st.
Proof. intros Hi Hk. unfold after. destruct (Z.ltb_spec (i + k) (lcn_freq_count st)); lia. Qed.

(** The receiver is on the probe's frequency, for the current frames. *)
Definition probe_heard (w : world) : Prop :=
  cc_rx_freq_hz (w_ctx w) = cc_probe_freq_hz (w_ctx w) /\ frame_is_current (cc_rx_generation (w_ctx w)) (w_gate w) = true.

(** The walk over the channel map returns the first row, going round once
    from the cursor, that is usable and not the frequency being probed; when
    there is none it returns the probe's own frequency if the map lists it and
    the receiver is not on it with current frames, and nothing only otherwise.
    It moves the cursor past the rows that repeat what it returns and changes
    nothing else. *)
Lemma next_mapped_candidate_spec w :
  let st := w_st w in let c := w_ctx w in
  0 < lcn_freq_count st ->
  let '(w', freq) := dmr_cc_next_mapped_candidate w in
  let i := cursor_row st (cc_hunt_index c) in
  w' = on_ctx (fun c => c <| cc_hunt_index := cc_hunt_index (w_ctx w') |>) w /\
  ((exists k, 0 <= k < lcn_freq_count st /\ eligible st (cc_probe_freq_hz c) (after st i k) /\
      (forall k', 0 <= k' < k -> ~ eligible st (cc_probe_freq_hz c) (after st i k')) /\ freq = row st (after st i k) /\
      let j := cc_hunt_index (w_ctx w') in
      after st i k < j <= lcn_freq_count st /\ (forall r, after st i k <= r < j -> row st r = freq) /\
      (j < lcn_freq_count st -> row st j <> freq)) \/
   ((forall r, 0 <= r < lcn_freq_count st -> ~ eligible st (cc_probe_freq_hz c) r) /\
    let on_map := exists r, 0 <= r < lcn_freq_count st /\ listed st r /\ row st r = cc_probe_freq_hz c in
    (on_map /\ ~ probe_heard w -> freq = cc_probe_freq_hz c) /\ (~ on_map \/ probe_heard w -> freq = 0))).
Proof.
  cbv zeta. intros Hn. unfold dmr_cc_next_mapped_candidate. set (n := lcn_freq_count (w_st w)) in *.
  pose proof (mapped_loop_spec (w_st w) (Z.to_nat n) (cc_probe_freq_hz (w_ctx w)) (cc_hunt_index (w_ctx w)) false Hn ltac:(lia)) as H.
  rewrite Z2Nat.id in H by lia. destruct (mapped_loop _ _ _ _ _) as [[j pl] found]. unfold walk_spec in H.
  pose proof (cursor_row_range (w_st w) (cc_hunt_index (w_ctx w)) Hn) as Hi. fold n in Hi.
  destruct found as [f|].
  - destruct H as (k & Hk & -> & He & Hmin & -> & _). split; [unfold on_ctx; by rsimp|]. left. exists k. do 3 (split; [done|]).
    pose proof (after_range (w_st w) _ k Hi Hk) as Ha. set (a := after _ _ k) in *. unfold on_ctx. rsimp. split; [done|].
    destruct (skip_repeats_spec (w_st w) (Z.to_nat (n - (a + 1))) (row (w_st w) a) (a + 1) ltac:(fold n; lia) ltac:(fold n; lia)) as (H1 & H2 & H3).
    fold n in H1, H3 |- *. split; [lia|]. split; [|done]. intros r Hr. destruct (decide (r = a)) as [->|]; [done|]. apply H2. lia.
  - destruct H as [Hno Hp]. assert (Hno' : forall r, 0 <= r < n -> ~ eligible (w_st w) (cc_probe_freq_hz (w_ctx w)) r).
    { intros r Hr. destruct (after_onto (w_st w) _ r Hi Hr) as (k & Hk & <-). by apply Hno. }
    assert (Hon : pl = true <-> exists r, 0 <= r < n /\ listed (w_st w) r /\ row (w_st w) r = cc_probe_freq_hz (w_ctx w)).
    { rewrite Hp. split.
      - intros [?|(k & Hk & H)]; [done|]. eexists. split; [by apply (after_range _ _ k Hi)|done].
      - intros (r & Hr & H). right. destruct (after_onto (w_st w) _ r Hi Hr) as (k & Hk & <-). by exists k. }
    set (w1 := on_ctx _ w). assert (Hw : w1 = on_ctx (fun c => c <| cc_hunt_index := cc_hunt_index (w_ctx w1) |>) w).
    { unfold w1, on_ctx. by rsimp. }
    assert (Hh : (negb (cc_rx_freq_hz (w_ctx w) =? cc_probe_freq_hz (w_ctx w))
                  || negb (frame_is_current (cc_rx_generation (w_ctx w)) (w_gate w))) = true <-> ~ probe_heard w).
    { unfold probe_heard. destruct (Z.eqb_spec (cc_rx_freq_hz (w_ctx w)) (cc_probe_freq_hz (w_ctx w))), (frame_is_current _ _); cbn; naive_solver. }
    assert (Hg : w_gate w1 = w_gate w) by (unfold w1, on_ctx; by rsimp). rewrite Hg.
    destruct (pl && _) eqn:E; (split; [done|]); right; (split; [done|]).
    + apply andb_true_iff in E as [E1 E2]. rewrite Hh in E2. rewrite Hon in E1. split; [done|]. intros [?|?]; done.
    + split; [|done]. intros [H1 H2]. rewrite <- Hon in H1. rewrite <- Hh in H2. by rewrite H1, H2 in E.
Qed.

(** *** Coming round *)

(** How far row [r] is from the cursor. *)
Definition distance (w : world) (r : Z) : Z :=
  let i := cursor_row (w_st w) (cc_hunt_index (w_ctx w)) in
  if i <=? r then r - i else r - i + lcn_freq_count (w_st w).

Lemma mapped_candidate_closer w r g : 0 <= r < lcn_freq_count (w_st w) -> listed (w_st w) r -> row (w_st w) r = g ->
  cc_probe_freq_hz (w_ctx w) <> g ->
  let y := dmr_cc_next_mapped_candidate w in
  y.2 = g \/ (0 < y.2 /\ w_st y.1 = w_st w /\ y.1 = on_ctx (fun c => c <| cc_hunt_index := cc_hunt_index (w_ctx y.1) |>) w /\
              distance y.1 r < distance w r).
Proof.
  intros Hr Hl Hg Hp. pose proof (next_mapped_candidate_spec w ltac:(lia)) as H.
  destruct (dmr_cc_next_mapped_candidate w) as [w' f]. cbn [fst snd]. destruct H as [Hw H].
  pose proof (cursor_row_range (w_st w) (cc_hunt_index (w_ctx w)) ltac:(lia)) as Hi.
  assert (He : eligible (w_st w) (cc_probe_freq_hz (w_ctx w)) r) by (split; [done|congruence]).
  destruct H as [(k & Hk & Hek & Hmin & Hf & Hj & Hrep & _)|[H _]]; [|by destruct (H r Hr)].
  destruct (decide (f = g)) as [|Hfg]; [by left|]. right.
  assert (Hst : w_st w' = w_st w) by (rewrite Hw; unfold on_ctx; by rsimp).
  split; [rewrite Hf; apply Hek|]. split; [done|]. split; [done|]. unfold distance. rewrite Hst.
  set (j := cc_hunt_index (w_ctx w')) in *. set (n := lcn_freq_count (w_st w)) in *. clearbody j. clear Hw Hst.
  set (i := cursor_row (w_st w) (cc_hunt_index (w_ctx w))) in *. clearbody i.
  assert (Hd : k < (if i <=? r then r - i else r - i + n)).
  { apply Z.nle_gt. intros Hle. set (d := if i <=? r then r - i else r - i + n) in *.
    assert (Hd : after (w_st w) i d = r /\ 0 <= d < n).
    { unfold d, after. fold n. destruct (Z.leb_spec i r);
        match goal with |- context [?a <? n] => destruct (Z.ltb_spec a n) end; lia. }
    destruct Hd as [Hd Hdn]. destruct (decide (d = k)) as [->|].
    - rewrite Hd in Hf. congruence.
    - apply (Hmin d); [lia|]. by rewrite Hd. }
  assert (Hout : r < after (w_st w) i k \/ j <= r).
  { destruct (decide (j <= r)); [by right|]. destruct (decide (r < after (w_st w) i k)); [by left|].
    rewrite (Hrep r ltac:(lia)) in Hg. congruence. }
  unfold after in *. fold n in Hj, Hout |- *. unfold cursor_row. fold n. revert Hd Hout Hj.
  destruct (Z.ltb_spec (i + k) n), (Z.leb_spec i r), (Z.leb_spec n j), (Z.ltb_spec j 0); cbn [orb];
    repeat match goal with |- context [?a <=? r] => destruct (Z.leb_spec a r) end; lia.
Qed.

Definition hunt_anchor (w : world) : Z :=
  if 0 <? cc_freq_hz (w_ctx w) then cc_freq_hz (w_ctx w)
  else if cold_start_hunt (w_ctx w) then 0 else trunk_cc_freq (w_st w).

(** A session with a channel map and a site that has a control channel. *)
Definition hunts_map (rd : readings) (w : world) : Prop :=
  site_without_cc (w_ctx w) = false /\ (chan_in_file (w_opts w) || scan_map rd) = true /\ 0 < lcn_freq_count (w_st w).

Lemma next_candidate_mapped rd w : hunts_map rd w -> dmr_cc_next_candidate rd w =
  if negb (cc_probe_freq_hz (w_ctx w) =? hunt_anchor w) && (0 <? hunt_anchor w) && dmr_cc_map_has_frequency (w_st w) (hunt_anchor w)
  then (w, hunt_anchor w) else dmr_cc_next_mapped_candidate w.
Proof.
  intros (Hs & Hm & Hn). unfold dmr_cc_next_candidate. rewrite Hs, Hm. by rewrite (proj2 (Z.ltb_lt 0 _) Hn).
Qed.

(** The map as two states have it. *)
Definition same_map (s s' : dsd_state) : Prop :=
  lcn_freq_count s' = lcn_freq_count s /\ trunk_lcn s' = trunk_lcn s /\ trunk_lcn_avoid s' = trunk_lcn_avoid s.

Lemma same_map_trans s1 s2 s3 : same_map s1 s2 -> same_map s2 s3 -> same_map s1 s3.
Proof. unfold same_map. intuition congruence. Qed.

Lemma listed_same s s' r : same_map s s' -> (listed s' r <-> listed s r) /\ row s' r = row s r.
Proof. intros (_ & E1 & E2). unfold listed, row, usable. by rewrite E1, E2. Qed.

(** What the search goes by: the map, the cursor, the probe and the anchor. *)
Definition same_search (w w' : world) : Prop :=
  same_map (w_st w) (w_st w') /\ cc_hunt_index (w_ctx w') = cc_hunt_index (w_ctx w) /\
  cc_probe_freq_hz (w_ctx w') = cc_probe_freq_hz (w_ctx w) /\ hunt_anchor w' = hunt_anchor w.

Lemma distance_same w w' r : same_map (w_st w) (w_st w') -> cc_hunt_index (w_ctx w') = cc_hunt_index (w_ctx w) ->
  distance w' r = distance w r.
Proof. intros (E & _) Ei. unfold distance, cursor_row. by rewrite E, Ei. Qed.

Section Hunts.
Context (hooks : dsd_trunk_tuning_hooks (dsd_opts * dsd_state)).

(** A hunt that searches the map: it is due, no startup hunt holds it back, the
    window it lost has not reopened, and the tuner accepts the tune and leaves
    the map alone. *)
Record hunt_due (rd : readings) (now : Z) (w : world) : Prop := {
  hd_recovery : dsd_trunk_dmr_recovery_allowed rd (w_opts w) (w_st w) = true;
  hd_off : trunk_is_tuned (w_opts w) <> 1;
  hd_retry : cc_retry_after_m (w_ctx w) <= now;
  hd_cold : cold_start_hunt (w_ctx w) = false;
  hd_window : cc_window_lost (w_ctx w) = true -> dmr_cc_window_open (w_ctx w) (w_st w) now = false;
  hd_map : hunts_map rd w;
  hd_tuner : forall freq,
    let '(e, _, x, _) := hook_tune_to_cc hooks freq 0 (now_m rd) ((w_opts w, w_st w), w_gate w) in
    is_ok x = true /\ same_map (w_st w) (snd e)
}.

(** What setting a state and settling a tune leave of the search. *)
Definition search_fields (c : ctx) : Z * Z * Z * bool :=
  (cc_hunt_index c, cc_probe_freq_hz c, cc_freq_hz c, cold_start_hunt c).

Lemma set_state_search next c : search_fields (DmrTrunkSm.set_state next c) = search_fields c.
Proof.
  unfold DmrTrunkSm.set_state, search_fields. destruct (is_state next c); [done|]. rsimp. by destruct (_ && _); rsimp.
Qed.

Lemma resolve_search rd now w : search_fields (w_ctx (dmr_cc_resolve_pending rd now w).1) = search_fields (w_ctx w).
Proof.
  unfold dmr_cc_resolve_pending. destruct (_ =? 0); [done|]. destruct (request_status _ _) as [x t].
  destruct (is_pending x && _); [done|].
  destruct (is_pending x); [destruct (request_status _ _) as [x' t']|]; case_bool_decide; unfold on_ctx; cbn [fst]; rsimp;
    rewrite ?set_state_search; unfold search_fields; by rsimp.
Qed.

Lemma search_fields_eq c c' : search_fields c' = search_fields c ->
  cc_hunt_index c' = cc_hunt_index c /\ cc_probe_freq_hz c' = cc_probe_freq_hz c /\ cc_freq_hz c' = cc_freq_hz c /\
  cold_start_hunt c' = cold_start_hunt c.
Proof. unfold search_fields. by intros [= -> -> -> ->]. Qed.

(** The candidate of a hunt that is due, found from a world whose retry clock
    has been set. *)
Definition hunt_candidate (rd : readings) (now : Z) (w : world) : world * Z :=
  dmr_cc_next_candidate rd
    (on_ctx (fun c => c <| cc_window_lost := false |> <| cc_retry_after_m := now + DMR_CC_RETRY |>) w).

Lemma next_candidate_rest rd w : hunts_map rd w ->
  let y := dmr_cc_next_candidate rd w in
  y.1 = on_ctx (fun c => c <| cc_hunt_index := cc_hunt_index (w_ctx y.1) |>) w.
Proof.
  intros Hm. rewrite (next_candidate_mapped rd w Hm). destruct (_ && _ && _); cbn [fst].
  - destruct w as [o s c g cs l]. unfold on_ctx. rsimp. by destruct c.
  - pose proof (next_mapped_candidate_spec w (proj2 (proj2 Hm))) as H.
    destruct (dmr_cc_next_mapped_candidate w) as [w' f]. exact (proj1 H).
Qed.

(** A hunt that is due moves the probe to its candidate. *)
Lemma hunt_probes rd now w : hunt_due rd now w ->
  let y := hunt_candidate rd now w in let w' := dmr_cc_hunt hooks rd now w in
  same_map (w_st w) (w_st w') /\ hunt_anchor w' = hunt_anchor w /\
  cc_hunt_index (w_ctx w') = cc_hunt_index (w_ctx y.1) /\
  cc_probe_freq_hz (w_ctx w') = if y.2 <=? 0 then cc_probe_freq_hz (w_ctx w) else y.2.
Proof.
  intros [Hr Ho Ht Hc Hw Hm Htun]. cbv zeta. unfold dmr_cc_hunt. rewrite Hr, Hc, (proj2 (Z.eqb_neq _ _) Ho), (proj2 (Z.ltb_ge _ _) Ht).
  cbn [negb orb]. assert (Hwin : cc_window_lost (w_ctx w) && dmr_cc_window_open (w_ctx w) (w_st w) now = false).
  { destruct (cc_window_lost (w_ctx w)); [by apply Hw|done]. }
  rewrite Hwin. fold (hunt_candidate rd now w). unfold hunt_candidate. set (w0 := on_ctx _ w).
  assert (Hm0 : hunts_map rd w0) by (unfold w0, hunts_map, on_ctx in *; rsimp; exact Hm).
  pose proof (next_candidate_rest rd w0 Hm0) as Hy. destruct (dmr_cc_next_candidate rd w0) as [w1 f]. cbn [fst snd] in *.
  set (j := cc_hunt_index (w_ctx w1)) in *. clearbody j. subst w1. unfold w0, on_ctx. rsimp. clear w0 Hm0 Hwin.
  destruct (Z.leb_spec f 0) as [Hf|Hf]; [unfold same_map, hunt_anchor; by rsimp|].
  destruct (_ && _).
  { match goal with |- context [DmrTrunkSm.set_state DMR_SM_ON_CC ?c] =>
      destruct (search_fields_eq _ _ (set_state_search DMR_SM_ON_CC c)) as (Hs1 & Hs2 & Hs3 & Hs4) end.
    unfold same_map, hunt_anchor. rsimp. by rewrite Hs1, Hs2, Hs3, Hs4. }
  unfold run_hook. rsimp. specialize (Htun f). destruct (hook_tune_to_cc _ _ _ _ _) as [[[e g] x] id].
  destruct Htun as [Hx Hmap]. rewrite Hx. cbn [negb]. unfold on_st. rsimp.
  match goal with |- context [dmr_cc_resolve_pending rd ?n ?v] =>
    destruct (search_fields_eq _ _ (resolve_search rd n v)) as (Hs1 & Hs2 & Hs3 & Hs4);
    pose proof (proj1 (resolve_rest rd n v)) as Hst; set (w2 := (dmr_cc_resolve_pending rd n v).1) in * end.
  clearbody w2. rsimp. unfold hunt_anchor. rewrite Hs1, Hs2, Hs3, Hs4, Hst. rsimp.
  match goal with |- context [DmrTrunkSm.set_state DMR_SM_ON_CC ?c] =>
    destruct (search_fields_eq _ _ (set_state_search DMR_SM_ON_CC c)) as (Hc1 & Hc2 & Hc3 & Hc4) end.
  rewrite Hc1, Hc2, Hc3, Hc4. rsimp. split; [|done]. unfold same_map in *. by rsimp.
Qed.

(** One hunt finds the row's frequency, or comes closer to it, or goes back to
    the anchor from another probe. *)
Lemma hunt_closer rd now w r : hunt_due rd now w -> 0 <= r < lcn_freq_count (w_st w) -> listed (w_st w) r ->
  cc_probe_freq_hz (w_ctx w) <> row (w_st w) r ->
  let w' := dmr_cc_hunt hooks rd now w in
  cc_probe_freq_hz (w_ctx w') = row (w_st w) r \/
  (cc_probe_freq_hz (w_ctx w) <> hunt_anchor w /\ cc_probe_freq_hz (w_ctx w') = hunt_anchor w /\ distance w' r = distance w r) \/
  distance w' r < distance w r.
Proof.
  intros Hd Hr Hl Hp. cbv zeta. destruct (hunt_probes rd now w Hd) as (Hm & _ & Hi & Hpr).
  set (w' := dmr_cc_hunt hooks rd now w) in *. clearbody w'. revert Hi Hpr. unfold hunt_candidate. set (w0 := on_ctx _ w).
  assert (Hm0 : hunts_map rd w0) by (unfold w0, on_ctx, hunts_map; rsimp; apply Hd).
  assert (E0 : w_st w0 = w_st w /\ cc_probe_freq_hz (w_ctx w0) = cc_probe_freq_hz (w_ctx w) /\ hunt_anchor w0 = hunt_anchor w /\
    distance w0 r = distance w r /\ cc_hunt_index (w_ctx w0) = cc_hunt_index (w_ctx w))
    by (unfold w0, on_ctx, hunt_anchor, distance; by rsimp).
  clearbody w0. destruct E0 as (E1 & E2 & E3 & E4 & E5). rewrite (next_candidate_mapped rd w0 Hm0), E2, E3.
  destruct (negb (cc_probe_freq_hz (w_ctx w) =? hunt_anchor w) && (0 <? hunt_anchor w) && _) eqn:Ea; cbn [fst snd].
  - apply andb_true_iff in Ea as [Ea _]. apply andb_true_iff in Ea as [Ea1 Ea2]. apply negb_true_iff, Z.eqb_neq in Ea1.
    apply Z.ltb_lt in Ea2. rewrite (proj2 (Z.leb_gt _ 0) Ea2), E5. intros Hi Hpr. right. left. split; [done|]. split; [done|].
    by apply distance_same.
  - rewrite <- E1 in Hr, Hl, Hp, Hm. rewrite <- E2 in Hp. destruct (mapped_candidate_closer w0 r _ Hr Hl eq_refl Hp) as [H|(H0 & Hst & _ & Hdist)].
    + rewrite H, E1. intros _ Hpr. left. destruct Hl as [Hl _]. rewrite E1 in Hl. by rewrite (proj2 (Z.leb_gt _ 0) Hl) in Hpr.
    + intros Hi _. right. right. rewrite <- E4. rewrite <- Hst in Hm. by rewrite (distance_same _ _ r Hm Hi).
Qed.

(** Hunts one after another, each due in its turn; between them the rest of the
    machine and of the program may do anything that leaves the search.  The
    list holds the probe after each hunt. *)
Inductive hunt_run : list Z -> world -> world -> Prop :=
  | hunt_run_nil w : hunt_run [] w w
  | hunt_run_cons rd now w w1 probes w2 :
      hunt_due rd now w -> same_search (dmr_cc_hunt hooks rd now w) w1 -> hunt_run probes w1 w2 ->
      hunt_run (cc_probe_freq_hz (w_ctx (dmr_cc_hunt hooks rd now w)) :: probes) w w2.

(** How many hunts the row may still take: two for each row to pass, and the
    way to the anchor. *)
Definition hunts_left (w : world) (r : Z) : Z :=
  2 * distance w r + if cc_probe_freq_hz (w_ctx w) =? hunt_anchor w then 0 else 1.

Lemma hunt_run_found r probes w w' : hunt_run probes w w' ->
  0 <= r < lcn_freq_count (w_st w) -> listed (w_st w) r -> cc_probe_freq_hz (w_ctx w) <> row (w_st w) r ->
  hunts_left w r < Z.of_nat (length probes) -> row (w_st w) r ∈ probes.
Proof.
  intros H. induction H as [w|rd now w w1 probes w2 Hd Hs _ IH]; intros Hr Hl Hp Hn.
  { exfalso. pose proof (cursor_row_range (w_st w) (cc_hunt_index (w_ctx w)) ltac:(lia)). revert Hn. unfold hunts_left, distance.
    cbn [length]. destruct (Z.leb_spec (cursor_row (w_st w) (cc_hunt_index (w_ctx w))) r), (_ =? hunt_anchor w); lia. }
  destruct (hunt_probes rd now w Hd) as (Hm & Ha & _ & _). pose proof (hunt_closer rd now w r Hd Hr Hl Hp) as Hc. cbv zeta in Hc.
  set (wh := dmr_cc_hunt hooks rd now w) in *. clearbody wh.
  destruct (decide (cc_probe_freq_hz (w_ctx wh) = row (w_st w) r)) as [->|Hne]; [by left|]. right.
  destruct Hs as (Hm1 & Hi1 & Hp1 & Ha1). pose proof (same_map_trans _ _ _ Hm Hm1) as Hm2.
  destruct (listed_same _ _ r Hm2) as [Hl2 Hrow2]. rewrite <- Hrow2. apply IH.
  - by rewrite (proj1 Hm2).
  - by apply Hl2.
  - by rewrite Hrow2, Hp1.
  - unfold hunts_left in *. rewrite Hp1, Ha1, Ha, (distance_same _ _ r Hm1 Hi1). cbn [length] in Hn. revert Hn.
    destruct Hc as [Hc|[(Hc1 & Hc2 & Hc3)|Hc]]; [done|..].
    + rewrite Hc2, Z.eqb_refl, Hc3. apply Z.eqb_neq in Hc1. rewrite Hc1. lia.
    + destruct (cc_probe_freq_hz (w_ctx wh) =? hunt_anchor w), (cc_probe_freq_hz (w_ctx w) =? hunt_anchor w); lia.
Qed.

(** C18: The hunt comes round.  Take hunts of the machine that are due one after
    another, with a channel map on a site that has a control channel, a tuner
    that accepts, and anything in between that leaves the map, the cursor, the
    probe and the frequency calls return to.  Every usable frequency of the map
    that is not the probe already is what one of the first twice as many hunts
    as the map has rows puts the probe on. *)
Theorem hunt_visits_every_frequency r probes w w' :
  hunt_run probes w w' -> 0 <= r < lcn_freq_count (w_st w) -> listed (w_st w) r ->
  cc_probe_freq_hz (w_ctx w) <> row (w_st w) r ->
  2 * lcn_freq_count (w_st w) <= Z.of_nat (length probes) ->
  row (w_st w) r ∈ probes.
Proof.
  intros H Hr Hl Hp Hlen. apply (hunt_run_found r probes w w'); try done. unfold hunts_left.
  pose proof (cursor_row_range (w_st w) (cc_hunt_index (w_ctx w)) ltac:(lia)). unfold distance.
  destruct (Z.leb_spec (cursor_row (w_st w) (cc_hunt_index (w_ctx w))) r), (_ =? hunt_anchor w); lia.
Qed.
End Hunts.

(** ** The tunes the machine waits for *)





(** *** What a tick waits for *)

Section Wait.
Context (hooks : dsd_trunk_tuning_hooks (dsd_opts * dsd_state)).

(** The request waited for and its deadline; the id the pool gives next. *)
Definition wait_of (w : world) : Z * Z := (cc_tune_request_id (w_ctx w), cc_tune_deadline_m (w_ctx w)).



Section From.
Context (w0 : world) (now : Z).




















(** *** The hunt *)



(** *** Releases *)

Lemma end_slot_wait rd s w : wait_of (end_slot rd s w) = wait_of w.
Proof. unfold wait_of. by rewrite end_slot_ctx. Qed.



(** *** A call *)





End From.



End Wait.

(** [frame_gate_spec] for the generation of the tuner. *)
Lemma frame_gate_ready g : gate_inv g -> pending_request g = 0 ->
  Forall (fun r => is_unresolved r = false) (requests g) /\ frame_is_current (generation g) g = true.
Proof.
  intros Hg Hp. destruct (frame_gate_cases g (generation g) Hg) as (H1 & H2 & _).
  assert (Hr : Forall (fun r => is_unresolved r = false) (requests g)) by (by apply H2). split; [done|]. by apply H1.
Qed.

(** Settled means resolved: when a settle step says the tuning layer is
    settled, the machine waits for no tune, no request of anyone is pending or
    failed-gated, and frames of the tuner's current generation pass the
    gate. *)
Lemma settled_means_resolved hooks rd now w w' : gate_inv (w_gate w) ->
  dmr_sm_settle_step hooks rd now w = (w', false) ->
  cc_tune_request_id (w_ctx w') = 0 /\ Forall (fun r => is_unresolved r = false) (requests (w_gate w')) /\
  frame_is_current (generation (w_gate w')) (w_gate w') = true.
Proof.
  intros Hg. unfold dmr_sm_settle_step. set (w0 := if negb _ then _ else w).
  assert (H0 : gate_inv (w_gate w0)).
  { unfold w0. destruct (negb _); [|done]. unfold dmr_cc_resolve_pending. destruct (_ =? 0); [done|].
    destruct (request_status _ _) as [x t]. destruct (is_pending x && _); [done|].
    destruct (is_pending x); [destruct (request_status _ _) as [x' t']|]; case_bool_decide; unfold on_ctx; cbn [fst]; rsimp;
      first [done|eapply gate_step_inv; [apply step_publish|done]]. }
  clearbody w0. clear Hg. destruct (Z.eqb_spec (cc_tune_request_id (w_ctx w0)) 0) as [E|]; cbn [negb]; [|done].
  destruct (Z.eqb_spec (pending_request (w_gate w0)) 0) as [Ep|]; cbn [negb].
  - intros [= <-]. destruct (frame_gate_ready _ H0 Ep) as [H1 H2]. done.
  - destruct (is_pending _); [done|]. destruct (dmr_cc_tuner_frequency rd w0) as [w1 f].
    set (y := if 0 <? f then _ else _). destruct y as [[? ?] ?]. done.
Qed.

(** ** Witnesses *)

(** On the hunt of [ex_hunting], with 451 MHz the anchor being probed, the walk
    from row 0 finds row 1 and passes its repeat. *)
Lemma next_mapped_candidate_spec_witness :
  let y := dmr_cc_next_mapped_candidate ex_hunting in
  y.2 = 452000000 /\ cc_hunt_index (w_ctx y.1) = 3 /\
  y.1 = on_ctx (fun c => c <| cc_hunt_index := cc_hunt_index (w_ctx y.1) |>) ex_hunting.
Proof.
  intros y. split; [by vm_compute|]. split; [by vm_compute|].
  pose proof (next_mapped_candidate_spec ex_hunting ltac:(reflexivity)) as H. unfold y.
  destruct (dmr_cc_next_mapped_candidate ex_hunting) as [w' f]. exact (proj1 H).
Defined.

(** That session with four rows, and its hunts, three seconds apart. *)
Definition ex_hunt_time (n : nat) : Z := seconds (20 + 3 * Z.of_nat n).
Fixpoint ex_hunts (n : nat) : world :=
  match n with
  | O => on_st (fun s => s <| lcn_freq_count := 4 |>) ex_hunting
  | Datatypes.S n => dmr_cc_hunt ex_hooks (at_ (ex_hunt_time n)) (ex_hunt_time n) (ex_hunts n)
  end.

Lemma ex_hunt_due n : (n < 8)%nat -> hunt_due ex_hooks (at_ (ex_hunt_time n)) (ex_hunt_time n) (ex_hunts n).
Proof.
  intros Hn. do 8 (destruct n as [|n]; [split; try (vm_compute; (reflexivity || discriminate));
    [repeat split; vm_compute; reflexivity|intros freq; vm_compute; done]|]). lia.
Qed.

Lemma ex_hunt_run n m : (n + m <= 8)%nat ->
  hunt_run ex_hooks (map (fun k => cc_probe_freq_hz (w_ctx (ex_hunts (Datatypes.S k)))) (seq n m)) (ex_hunts n) (ex_hunts (n + m)).
Proof.
  revert n. induction m as [|m IH]; intros n H; [rewrite Nat.add_0_r; apply hunt_run_nil|].
  cbn [seq map]. eapply hunt_run_cons; [apply ex_hunt_due; lia|done|]. rewrite <- Nat.add_succ_comm. apply IH. lia.
Qed.

Lemma hunt_visits_every_frequency_witness :
  453000000 ∈ map (fun n => cc_probe_freq_hz (w_ctx (ex_hunts (Datatypes.S n)))) (seq 0 8).
Proof.
  apply (hunt_visits_every_frequency ex_hooks 3 _ (ex_hunts 0) (ex_hunts 8)).
  - apply (ex_hunt_run 0 8). lia.
  - by vm_compute.
  - by split.
  - vm_compute. discriminate.
  - vm_compute. discriminate.
Defined.



Lemma settled_means_resolved_witness :
  let y := dmr_sm_settle_step ex_hooks (at_ 5) 5 ex_hunting in
  y.2 = false /\ frame_is_current (generation (w_gate y.1)) (w_gate y.1) = true.
Proof.
  intros y. assert (Hy : y.2 = false) by (vm_compute; reflexivity). split; [exact Hy|].
  assert (Hg : gate_inv (w_gate ex_hunting)).
  { replace (w_gate ex_hunting) with (w_gate ex_world) by (vm_compute; reflexivity). apply tgate_init_inv. }
  assert (Hs : dmr_sm_settle_step ex_hooks (at_ 5) 5 ex_hunting = (y.1, false)) by (rewrite <- Hy; apply surjective_pairing).
  clearbody y. exact (proj2 (proj2 (settled_means_resolved ex_hooks (at_ 5) 5 ex_hunting y.1 Hg Hs))).
Defined.
